(* ===== verification/_CoqProject ===== *)
-Q . S2P
Prelude.v
Libc.v
Jsmn.v
JsonShape.v
Vector.v
ThreadPool.v
Protobuf.v
ProtobufRef.v
Libs.v
LibsRef.v
Multibase.v
Cid.v
CidSet.v
Proquint.v
Errs.v
Times.v
Path.v
Tlds.v
IsDomain.v
DnsLink.v
UnixFS.v
MerkleNode.v
Block.v
BitswapMessage.v
PeerQueue.v
BitswapNetwork.v
Storage.v
Freeing.v
Flatfs.v
Journal.v
Mdb.v
Lmdb.v
Codecs.v
Blockstore.v
Wantlist.v
Exchange.v
Namesys.v
NameResolvers.v
Merkledag.v
Pin.v
Routing.v
Importer.v
Exporter.v
Config.v
FsRepo.v
ConfigFile.v
InitCommand.v
ImportTree.v
Resolver.v
PinTree.v
Stack.v
Peers.v
OnlineRouting.v
Fetch.v
Remote.v
Sync.v
Engine.v
Daemon.v
Http.v
CommandLine.v
ApiChunks.v
Api.v
ApiConns.v
