(* ===== verification/Prelude.v ===== *)
(** * c-ipfs: a verification library

    The program is an IPFS node in C: it cuts files into merkledag nodes, keeps the nodes as
    blocks in a repository, finds them by their hashes, exchanges blocks with other nodes
    (bitswap), announces and finds providers (routing), keeps a journal for replication,
    publishes names, and serves an HTTP API that its own command line uses. This library
    translates its C functions into Rocq functions of the same names and proves what they do.

    ** How C is modelled

    - Bytes are [Byte.byte]; objects in memory are byte lists with a [size_t] length next to them
      where the code has one. Integers are [Z], with [u8], [u32], [u64], [i8], [i32] where the
      code's width makes a value wrap, and signed overflow an undefined outcome.
    - A function's outcome is a [cres] (below in this file): [Ok] for a success with its outputs,
      [Err] for an error return with what it left in its outputs, [Undef] for behaviour the C
      standard leaves undefined (NULL and dangling pointers, accesses out of bounds,
      uninitialised values), [NoFuel] when a bound on iterations given to the model ran out.
      Theorems exclude [Undef] and [NoFuel] by saying which [Ok] or [Err] comes out, or say
      exactly when [Undef] is reached.
    - Values the standard does not fix without making their use undefined here are parameters that
      the theorems quantify over: what is left of a dead stack array that lmdb is given
      ([stale] in Lmdb), what the unset [tm_isdst] of an object handed to [mktime] holds
      (Times), what fresh memory of a wantlist entry holds ([junk] in BitswapMessage).
    - Positions that wrap in the code wrap in the model: the decoders' [size_t] ([field_loop] in
      Codecs), the tokeniser's unsigned int (Jsmn). What is read from a socket may come in any
      pieces ([socket_read] in ApiChunks).
    - Code that changes files or the datastore runs in [io] (Storage), code that also talks to
      peers in [netio] (Peers). Structures that share pointers (queues of bitswap, jobs of the
      thread pool, peers, the want list) are finite maps from addresses, so aliasing is kept.
    - Threads are steps of a relation or sequences of events; a part under a lock is one step (the
      last one of a thread of the pool is two, as the destroyer reads the count of threads without
      the lock), and the interleavings of the parts are explicit in ThreadPool, ApiConns, Wantlist
      (where the engine's thread writes into the entries that another thread waits for), Engine
      and Daemon. Where only the life of objects matters (Freeing, Daemon, the end of the engine) the state is
      what is allocated, and releasing or using what is not is undefined.

    ** Files, parts and sources (below src/)

    Foundations: Prelude (bytes, integers, outcomes, tactics, hints), Libc (string functions,
    [atoi], [printf]'s numbers), Jsmn and JsonShape (repo/fsrepo/jsmn.c; the tokens of a text made
    of known pieces), Errs (util/errs.c), Times (util/time.c), ThreadPool (util/thread_pool.c), Codecs (all decoders).

    Data and codecs: Cid and CidSet (cid/), Multibase (multibase/), UnixFS (unixfs/), MerkleNode
    (merkledag/node.c), Block (blocks/block.c), BitswapMessage (exchange/bitswap/message.c),
    Journal (journal/), Proquint (namesys/proquint.c), Path (path/), Tlds and IsDomain
    (namesys/isdomain.c and its table).

    Storage: Storage (files, datastore), Freeing (what the structures of the program own and what
    freeing them releases), Blockstore (blocks/blockstore.c, datastore/ds_helper.c),
    Merkledag (merkledag/merkledag.c), Mdb and Lmdb (repo/fsrepo/lmdb_*.c), Flatfs (flatfs/),
    Config, FsRepo, ConfigFile and InitCommand (repo/config/, repo/fsrepo/fs_repo.c, repo/init.c, and
    the second command line's init: cmd/ipfs/init.c, commands/), Pin and
    PinTree (pin/), Stack (everything above over the lightning database).

    Files in and out: Importer and ImportTree (importer/importer.c), Exporter
    (importer/exporter.c), Resolver (importer/resolver.c), CommandLine (main/main.c, cmd/cli.c,
    and the commands); over the network Fetch (the exporter over the online router) and Remote
    (a path that names another peer, and the command object get).

    Other nodes: PeerQueue, BitswapNetwork, Wantlist, Exchange (two nodes joined) and Engine
    (exchange/bitswap/), Routing (the interface of routing.h and its offline form), Peers and
    OnlineRouting (routing/), Sync (the journal's sending end in journal/journal.c and the
    maintenance of a peer in core/null.c), Daemon (core/ipfs_node.c, daemon.c, null.c, ping.c),
    Namesys and NameResolvers (namesys/), DnsLink (dnslink/).

    The API: Http (core/http_request.c, core/swarm.c, namesys/name.c), ApiChunks, Api and ApiConns
    (core/api.c).

    The order of _CoqProject is the order of dependence; each file opens with the sources it
    translates and declares its definitions before its theorems.

    ** Interfaces

    Code outside src/ is a class of operations with a class of laws, the behaviour its
    documentation promises; every class of laws has a concrete instance with which the witnesses
    run.
    - [Protobuf] (varints and length-delimited fields), [Multihash], [Sha256], [Base16], [Base32],
      [Base58], [Libp2pVector], [Keys], [Addrs], [OsUtils], [OsFiles], [OsEnv]: the libraries.
      Where a theorem needs that SHA-256 does not collide, it is a hypothesis about the nodes at
      hand only ([no_collision]).
    - [Datastore]: the function pointers of [struct Datastore], with the laws clients rely on;
      Lmdb proves that the program's own implementation over [Mdb] (the calls of lmdb.h) satisfies
      them, and Stack composes the two. ConfigFile opens the database through [MdbOpen].
    - [Routing]: the two function pointers the importer and the exporter call; Routing gives the
      offline instance. OnlineRouting has the whole [struct IpfsRouting] with the functions each
      router puts in it, and Fetch makes a [Routing] of it. [Gives] (Exporter) states what a router
      promises its clients: it hands out the bytes of these nodes and keeps this invariant of the
      state; the exporter is proved against it, and the offline router (Exporter) and the online
      one (Fetch) are instances.
    - [Freed] (Freeing): a structure with the addresses it owns, freeing which releases exactly
      these; each structure is an instance made of the instances of its parts.
    - [Libp2p] (Peers): peers, the stores of peers and providers, Kademlia messages, connections;
      [SessionStreams] (Sync), [PeerStreams] (Engine) and [DialerStreams] (Remote) add the streams
      of a session or of the dialer where they are read and written. [MdbOrder] (Sync) adds to the
      laws of [Mdb] in which order a cursor goes through a table.

    ** What is shown

    - Whole paths through the program: a file of less than 2^42 bytes that is added is brought out
      again byte for byte, through the functions, over the lightning database, from a directory
      tree by its path, and on the command line with the text it prints; a repository that is made
      opens again with the configuration it was made with; an API request reaches the handler it
      was made for and its chunked answer is read back; a name that is published resolves; a block
      one node asks for is given by another; a file whose nodes other peers provide is exported. Of
      a path that names another peer it is shown where it fails, and that once a stream to the peer
      is open, resolving it is undefined: what is freed with the message is a piece of the path.
    - Codecs: what an encoder writes fits its size estimate and decodes to the same value, and
      every decoder returns on every input.
    - Containers and queues: CidSet refines a finite map, Wantlist refines a list of CIDs with
      their sessions, PeerQueue keeps its doubly linked list well formed and serves peers in turn;
      a message and the request whose blocks it took are freed once, and nothing else is touched.
    - Protocols: what a bitswap message contains and what becomes of a received one; whom the
      journal message is for and what it leads to, and what is sent of the journal; whom the online
      router asks and tells, in which order, and what an answer changes; when a peer is due for
      replication or a ping.
    - Threads: the pool runs each job at most once and in order, comes to rest, and ends when it is
      destroyed, with a last unlock that may come behind the freeing; the want-list thread keeps or gives up what it should; the engine's threads look
      after every peer, answer a question that waits, and end without touching what is freed; the
      daemon ends when it is stopped in time, with its node freed after the listening thread; the
      table of API connections holds exactly the living ones.
    - Texts: paths are cleaned as a walk with a stack cleans them, domains are recognised exactly,
      DNS links and names are followed up to their limits, JSON tokens lie inside the text, times
      are written and read back.
    Where the code does something else than it means to, the theorem says what it does.

    ** Bounds and fuel

    Loops over data are structural or take as fuel a measure of the data: a decoder the length of
    its buffer ([loop_fuel]: each field takes at least a byte), the importer the number of chunks
    ([import_fuel]), a queue the number of its entries ([queue_fuel]), a path its length. Reading a
    tree out takes its depth (2 for a file). The limits of the code are kept: 32 links for DNS, 11
    names, 256 tokens, 255- and 512-byte arrays, 50 connections, 10 attempts. Loops that wait for
    other threads take the events in between as an argument ([ipfs_bitswap_get_block]).
    [NoFuel] is excluded by theorems that give the result for fuel that is large enough.

    ** What is assumed of the platform

    Memory is given when asked for, [malloc(0)] gives a pointer, and freeing has no effect on values
    except where a freed object is used again, which is undefined. Arrays of length 0 on the stack
    behave as gcc's. [memcmp] with a constant stops at the terminator of a shorter string. Reading
    from an open file has no errors; writing has (a full disk, a path that cannot be opened). The
    C locale holds, [toupper] leaves bytes above 127 alone. Functions given to the thread pool
    return, and its 32-bit counters do not wrap. Text that is only logged is left out.

    ** Not modelled

    - What is below sockets, pipes and streams: they are what each step brings. What the online
      router computes on one thread is one sequence of calls; what other threads do to the stores
      meanwhile is part of the outside.
    - core/bootstrap.c and path/resolver.c, which are comments or do not compile, and the selection
      and validation of name records (namesys/publisher.c), whose bodies are commented out.
      namesys/routing.c is not in the build and calls functions defined nowhere: they are parameters.
    - The dispatch of the command line to the commands that need an online node (daemon, ping,
      object get) is a parameter of CommandLine; the commands themselves are in Daemon and Remote.
    - The clock, which is a parameter. What the peer library frees is one piece in Freeing.
    - Tests, and the headers' declarations.

    ** Plan

    The parts of the program are modelled. What could follow: the engine and the daemon in one
    step relation, with the peer store shared between the listening thread and the engine's threads;
    and the addresses of Freeing carried through the functions that build the structures. *)

From Stdlib Require Export ZArith Lia Bool List.
From Stdlib Require Export Strings.Byte Strings.String.
From stdpp Require Export base tactics numbers list countable gmap.

#[global] Open Scope Z_scope.
#[global] Open Scope list_scope.

Abbreviation byte := Byte.byte.
Abbreviation bytes := (list Byte.byte).

(** ** Bytes *)

Definition byte_val (b : byte) : Z := Z.of_N (Byte.to_N b).

Definition byte_of (z : Z) : byte :=
  match Byte.of_N (Z.to_N (z mod 256)) with
  | Some b => b
  | None => x00
  end.

#[export] Instance byte_eq_dec : EqDecision byte := Byte.byte_eq_dec.

#[export] Program Instance byte_countable : Countable byte :=
  inj_countable Byte.to_N Byte.of_N _.
Next Obligation. intros b. apply Byte.of_to_N. Qed.

Lemma byte_val_range b : 0 <= byte_val b < 256.
Proof.
  unfold byte_val. pose proof (Byte.to_N_bounded b). lia.
Qed.

Lemma byte_of_val b : byte_of (byte_val b) = b.
Proof.
  unfold byte_of. pose proof (byte_val_range b).
  rewrite Z.mod_small by lia. unfold byte_val.
  rewrite N2Z.id, Byte.of_to_N. reflexivity.
Qed.

Lemma byte_val_of z : byte_val (byte_of z) = z mod 256.
Proof.
  unfold byte_of, byte_val. pose proof (Z.mod_pos_bound z 256 ltac:(lia)).
  destruct (Byte.of_N (Z.to_N (z mod 256))) eqn:E.
  - apply Byte.to_of_N in E. rewrite E. lia.
  - apply Byte.of_N_None_iff in E. lia.
Qed.

Lemma byte_val_inj a b : byte_val a = byte_val b -> a = b.
Proof. intros H. rewrite <- (byte_of_val a), <- (byte_of_val b), H. reflexivity. Qed.

(** String constants of the source as byte strings. *)
Definition str (s : String.string) : bytes := String.list_byte_of_string s.

(** ** C integers *)

Definition u8 (z : Z) : Z := z mod 2 ^ 8.
Definition u16 (z : Z) : Z := z mod 2 ^ 16.
Definition u32 (z : Z) : Z := z mod 2 ^ 32.
Definition u64 (z : Z) : Z := z mod 2 ^ 64.
Definition i8 (z : Z) : Z := (z + 2 ^ 7) mod 2 ^ 8 - 2 ^ 7.
Definition i32 (z : Z) : Z := (z + 2 ^ 31) mod 2 ^ 32 - 2 ^ 31.

(** [size_t] subtraction: it wraps. *)
Definition size_sub (a b : Z) : Z := u64 (a - b).

Ltac int_small :=
  unfold u8, u16, u32, u64, i8, i32; intros;
  repeat rewrite Z.mod_small by lia; lia.

Lemma u8_small z : 0 <= z < 2 ^ 8 -> u8 z = z.
Proof. int_small. Qed.
Lemma u16_small z : 0 <= z < 2 ^ 16 -> u16 z = z.
Proof. int_small. Qed.
Lemma u32_small z : 0 <= z < 2 ^ 32 -> u32 z = z.
Proof. int_small. Qed.
Lemma u64_small z : 0 <= z < 2 ^ 64 -> u64 z = z.
Proof. int_small. Qed.
Lemma i8_small z : - 2 ^ 7 <= z < 2 ^ 7 -> i8 z = z.
Proof. int_small. Qed.
Lemma i32_small z : - 2 ^ 31 <= z < 2 ^ 31 -> i32 z = z.
Proof. int_small. Qed.

Lemma u64_range z : 0 <= u64 z < 2 ^ 64.
Proof. apply Z.mod_pos_bound. lia. Qed.
Lemma u32_range z : 0 <= u32 z < 2 ^ 32.
Proof. apply Z.mod_pos_bound. lia. Qed.
Lemma i32_range z : - 2 ^ 31 <= i32 z < 2 ^ 31.
Proof. unfold i32. pose proof (Z.mod_pos_bound (z + 2 ^ 31) (2 ^ 32) ltac:(lia)). lia. Qed.

Lemma i32_u64 z : i32 (u64 z) = i32 z.
Proof.
  unfold i32, u64. f_equal.
  rewrite <- (Z.add_mod_idemp_l (z mod _)), <- (Z.add_mod_idemp_l z) by lia.
  do 2 f_equal. apply Z.mod_mod_divide.
  exists (2 ^ 32). lia.
Qed.

Lemma i8_u64 z : i8 (u64 z) = i8 z.
Proof.
  unfold i8, u64. f_equal.
  rewrite <- (Z.add_mod_idemp_l (z mod _)), <- (Z.add_mod_idemp_l z) by lia.
  do 2 f_equal. apply Z.mod_mod_divide.
  exists (2 ^ 56). lia.
Qed.
Lemma i8_range z : - 2 ^ 7 <= i8 z < 2 ^ 7.
Proof. unfold i8. pose proof (Z.mod_pos_bound (z + 2 ^ 7) (2 ^ 8) ltac:(lia)). lia. Qed.
Lemma i8_i8 z : i8 (i8 z) = i8 z.
Proof. apply i8_small, i8_range. Qed.

Lemma size_sub_small a b : 0 <= b <= a -> a < 2 ^ 64 -> size_sub a b = a - b.
Proof. intros. apply u64_small. lia. Qed.

(** ** Byte strings with [size_t] lengths *)

Definition len {A} (l : list A) : Z := Z.of_nat (length l).

(** The bytes of an object from offset [n] on: what [&buffer[n]] points to. *)
Definition bdrop (n : Z) (b : bytes) : bytes := drop (Z.to_nat n) b.
Definition btake (n : Z) (b : bytes) : bytes := take (Z.to_nat n) b.

Create HintDb cipfs.

Lemma len_nonneg {A} (l : list A) : 0 <= len l.
Proof. unfold len. lia. Qed.
Lemma len_nil {A} : len (@nil A) = 0.
Proof. reflexivity. Qed.
Lemma len_cons {A} (x : A) l : len (x :: l) = 1 + len l.
Proof. unfold len. cbn [length]. lia. Qed.
Lemma len_app {A} (a b : list A) : len (a ++ b) = len a + len b.
Proof. unfold len. rewrite length_app. lia. Qed.
Lemma len_map {A B} (f : A -> B) l : len (map f l) = len l.
Proof. unfold len. rewrite length_map. reflexivity. Qed.
Lemma len_replicate {A} n (x : A) : len (replicate n x) = Z.of_nat n.
Proof. unfold len. rewrite length_replicate. reflexivity. Qed.
Lemma len_zero {A} (l : list A) : len l = 0 -> l = [].
Proof. destruct l; [reflexivity | rewrite len_cons; pose proof (len_nonneg l); lia]. Qed.
Lemma len_to_nat {A} (l : list A) : Z.to_nat (len l) = length l.
Proof. unfold len. lia. Qed.

#[export] Hint Resolve len_nonneg : cipfs.
Create Rewrite HintDb len.
#[export] Hint Rewrite @len_nil @len_cons @len_app @len_map @len_replicate : len.

(** [lia] with the length equations and the non-negativity of the lengths. *)
Ltac pose_len :=
  repeat match goal with
  | |- context [len ?l] =>
      lazymatch goal with
      | _ : 0 <= len l |- _ => fail
      | _ => pose proof (len_nonneg l)
      end
  | H : context [len ?l] |- _ =>
      lazymatch goal with
      | _ : 0 <= len l |- _ => fail
      | _ => pose proof (len_nonneg l)
      end
  end.
Ltac len_lia := autorewrite with len in *; pose_len; lia.

(** [len []] is convertible to [0], so it is changed rather than rewritten. *)
Ltac len_nils :=
  repeat match goal with
  | |- context [@len ?A nil] => change (@len A nil) with 0
  | H : context [@len ?A nil] |- _ => change (@len A nil) with 0 in H
  end.

Lemma bdrop_app_len a b : bdrop (len a) (a ++ b) = b.
Proof. unfold bdrop. rewrite len_to_nat. apply drop_app_length. Qed.
Lemma btake_app_len a b : btake (len a) (a ++ b) = a.
Proof. unfold btake. rewrite len_to_nat. apply take_app_length. Qed.
Lemma btake_all b n : len b <= n -> btake n b = b.
Proof. unfold btake, len. intros. apply take_ge. lia. Qed.
Lemma len_btake n b : 0 <= n -> len (btake n b) = Z.min n (len b).
Proof. unfold btake, len. intros. rewrite length_take. lia. Qed.
Lemma len_bdrop n b : 0 <= n -> len (bdrop n b) = Z.max 0 (len b - n).
Proof. unfold bdrop, len. intros. rewrite length_drop. lia. Qed.
Lemma btake_bdrop n b : btake n b ++ bdrop n b = b.
Proof. apply take_drop. Qed.
Lemma bdrop_bdrop n m b : 0 <= n -> 0 <= m -> bdrop n (bdrop m b) = bdrop (m + n) b.
Proof.
  unfold bdrop. intros. rewrite drop_drop. f_equal. lia.
Qed.
Lemma bdrop_0 b : bdrop 0 b = b.
Proof. reflexivity. Qed.
Lemma btake_0 b : btake 0 b = [].
Proof. reflexivity. Qed.

(** C strings: byte strings without the terminating NUL. *)
Definition cstring (s : bytes) : Prop := x00 ∉ s.
#[export] Instance cstring_dec s : Decision (cstring s).
Proof. unfold cstring. apply _. Defined.

(** The lengths of string constants. *)
Ltac str_lens :=
  repeat match goal with
  | |- context [len (str ?s)] =>
      let n := eval vm_compute in (len (str s)) in change (len (str s)) with n
  end.

(** A decidable proposition without variables, by evaluation. *)
Ltac by_decide := refine (bool_decide_eq_true_1 _ _); vm_compute; reflexivity.

(** ** Outcomes of a C function

    [Ok a]: it returned success with outputs [a]; [Err e]: it took an error
    return and left [e] in its outputs; [Undef]: the execution reached behaviour
    the C standard leaves undefined (a read of an uninitialised variable, a NULL
    or dangling dereference, an access out of bounds); [NoFuel]: the bound on
    loop iterations given to the model ran out. *)
Inductive cres (E A : Type) : Type :=
| Ok (a : A)
| Err (e : E)
| Undef
| NoFuel.
Arguments Ok {E A} a.
Arguments Err {E A} e.
Arguments Undef {E A}.
Arguments NoFuel {E A}.

#[export] Instance cres_bind {E} : MBind (cres E) := fun A B f m =>
  match m with
  | Ok a => f a
  | Err e => Err e
  | Undef => Undef
  | NoFuel => NoFuel
  end.
#[export] Instance cres_ret {E} : MRet (cres E) := fun A a => Ok a.
#[export] Instance cres_fmap {E} : FMap (cres E) := fun A B f m =>
  match m with
  | Ok a => Ok (f a)
  | Err e => Err e
  | Undef => Undef
  | NoFuel => NoFuel
  end.

(** The same outcome with another error payload. *)
Definition on_err {E E' A} (m : cres E A) (e' : E') : cres E' A :=
  match m with
  | Ok a => Ok a
  | Err _ => Err e'
  | Undef => Undef
  | NoFuel => NoFuel
  end.

Definition returns {E A} (m : cres E A) : Prop :=
  match m with NoFuel => False | _ => True end.
Definition defined {E A} (m : cres E A) : Prop :=
  match m with Undef | NoFuel => False | _ => True end.

Lemma bind_ok {E A B} (m : cres E A) (f : A -> cres E B) b :
  m ≫= f = Ok b -> exists a, m = Ok a /\ f a = Ok b.
Proof. destruct m; cbn; intros H; try discriminate; eauto. Qed.

(** Reading [n] bytes through a pointer ([None] is NULL). *)
Definition mem_read {E} (p : option bytes) (n : Z) : cres E bytes :=
  if n =? 0 then Ok []
  else match p with
       | Some b => if n <=? len b then Ok (btake n b) else Undef
       | None => Undef
       end.

Lemma mem_read_all {E} b : @mem_read E (Some b) (len b) = Ok b.
Proof.
  unfold mem_read. destruct (len b =? 0) eqn:Hz.
  - apply Z.eqb_eq, len_zero in Hz. subst. reflexivity.
  - rewrite Z.leb_refl, btake_all by lia. reflexivity.
Qed.

Lemma mem_read_len {E} b n : n = len b -> @mem_read E (Some b) n = Ok b.
Proof. intros ->. apply mem_read_all. Qed.

(** A pointer and a length that agree; NULL stands for no bytes. *)
Lemma mem_read_default {E} p n : n = len (default [] p) -> @mem_read E p n = Ok (default [] p).
Proof. intros ->. destruct p; [apply mem_read_all | reflexivity]. Qed.
