(* ===== verification/Libc.v ===== *)
(** What the code uses of the C standard library on strings: searching,
    comparing, copying, tokenising and number conversion, over byte strings. *)

From S2P Require Import Prelude.

(** ** Strings in memory *)

(** The string a [char*] designates: the bytes up to the first NUL. *)
Fixpoint c_str (b : bytes) : bytes :=
  match b with
  | [] => []
  | x :: b => if decide (x = x00) then [] else x :: c_str b
  end.

Definition strlen (b : bytes) : Z := len (c_str b).

Fixpoint starts_with (p s : bytes) : bool :=
  match p, s with
  | [], _ => true
  | x :: p, y :: s => bool_decide (x = y) && starts_with p s
  | _, _ => false
  end.

(** [strstr]: the offset of the first occurrence. *)
Fixpoint strstr (s p : bytes) : option nat :=
  if starts_with p s then Some O
  else match s with
       | [] => None
       | _ :: s => S <$> strstr s p
       end.

(** [strchr]: the offset of the first [c]. *)
Fixpoint strchr (s : bytes) (c : byte) : option nat :=
  match s with
  | [] => None
  | x :: s => if decide (x = c) then Some O else S <$> strchr s c
  end.

(** [strrchr]: the offset of the last [c]. *)
Fixpoint strrchr (s : bytes) (c : byte) : option nat :=
  match s with
  | [] => None
  | x :: s =>
      match strrchr s c with
      | Some i => Some (S i)
      | None => if decide (x = c) then Some O else None
      end
  end.

(** What separates the parts of a path. *)
Definition slash : byte := byte_of 47.

(** What is left behind the leading slashes. *)
Fixpoint skip_slashes (path : bytes) : bytes :=
  match path with
  | c :: rest => if decide (c = slash) then skip_slashes rest else path
  | [] => []
  end.

(** [strcmp(a, b) == 0], and [strncmp(a, b, n) == 0] for a string constant [a]
    of [n] characters is [starts_with a b]. *)
Definition str_eq (a b : bytes) : bool := bool_decide (a = b).

(** The words of [s] between characters of [delim], empty ones skipped: what
    repeated calls of [strtok] return. [acc] is the current word, reversed. *)
Fixpoint tokens (delim : bytes) (acc : bytes) (s : bytes) : list bytes :=
  match s with
  | [] => match acc with [] => [] | _ => [reverse acc] end
  | x :: s =>
      if decide (x ∈ delim)
      then match acc with
           | [] => tokens delim [] s
           | _ => reverse acc :: tokens delim [] s
           end
      else tokens delim (x :: acc) s
  end.
Definition strtok_all (s delim : bytes) : list bytes := tokens delim [] s.

(** [tolower], [isdigit] and the like in the C locale. *)
Definition tolower (b : byte) : byte :=
  let v := byte_val b in
  if (65 <=? v) && (v <=? 90) then byte_of (v + 32) else b.
Definition toupper (b : byte) : byte :=
  let v := byte_val b in
  if (97 <=? v) && (v <=? 122) then byte_of (v - 32) else b.
Definition isdigit (b : byte) : bool := (48 <=? byte_val b) && (byte_val b <=? 57).

(** [printf]'s [%lu], [%d] and [%02x]. *)
Fixpoint decimal_fuel (fuel : nat) (n : Z) (acc : bytes) : bytes :=
  match fuel with
  | O => acc
  | S fuel =>
      let acc := byte_of (48 + n mod 10) :: acc in
      if n / 10 =? 0 then acc else decimal_fuel fuel (n / 10) acc
  end.
Definition decimal (n : Z) : bytes := decimal_fuel 20 n [].
Definition int_decimal (n : Z) : bytes :=
  if n <? 0 then byte_of 45 :: decimal (- n) else decimal n.
Definition hex_digit (n : Z) : byte := byte_of (if n <? 10 then 48 + n else 87 + n).
Definition hex (b : byte) : bytes :=
  [hex_digit (byte_val b / 16); hex_digit (byte_val b mod 16)].

(** [atoi]: a number too large for a [long] is its nearest, then cut to an [int]. *)
Definition isspace (b : byte) : bool :=
  let v := byte_val b in (v =? 32) || ((9 <=? v) && (v <=? 13)).
Fixpoint skip_space (s : bytes) : bytes :=
  match s with
  | c :: rest => if isspace c then skip_space rest else s
  | [] => []
  end.
Fixpoint digits_value (s : bytes) (acc : Z) : Z :=
  match s with
  | c :: s => if isdigit c then digits_value s (10 * acc + (byte_val c - 48)) else acc
  | [] => acc
  end.
Definition atoi (s : bytes) : Z :=
  match skip_space s with
  | c :: rest =>
      if byte_val c =? 45 then i32 (Z.max (- 2 ^ 63) (- digits_value rest 0))
      else if byte_val c =? 43 then i32 (Z.min (2 ^ 63 - 1) (digits_value rest 0))
      else i32 (Z.min (2 ^ 63 - 1) (digits_value (c :: rest) 0))
  | [] => 0
  end.

(** ** Facts *)

Lemma c_str_id b : cstring b -> c_str b = b.
Proof.
  unfold cstring. induction b as [| x b IH]; intros H; [reflexivity |]. cbn.
  rewrite not_elem_of_cons in H. destruct H as [Hx Hb].
  rewrite decide_False by congruence. rewrite IH by assumption. reflexivity.
Qed.
Lemma c_str_cstring b : cstring (c_str b).
Proof.
  unfold cstring. induction b as [| x b IH]; cbn; [apply not_elem_of_nil |].
  case_decide; [apply not_elem_of_nil | apply not_elem_of_cons; split; congruence].
Qed.
Lemma c_str_nul a b : cstring a -> c_str (a ++ x00 :: b) = a.
Proof.
  unfold cstring. induction a as [| x a IH]; intros H; cbn.
  - reflexivity.
  - rewrite not_elem_of_cons in H. destruct H. rewrite decide_False by congruence.
    rewrite IH by assumption. reflexivity.
Qed.
Lemma len_c_str b : len (c_str b) <= len b.
Proof. induction b as [| x b IH]; cbn; [reflexivity |]. case_decide; len_lia. Qed.

Lemma starts_with_spec p s : starts_with p s = true <-> exists r, s = p ++ r.
Proof.
  revert s. induction p as [| x p IH]; intros s; cbn.
  - split; [eauto | reflexivity].
  - destruct s as [| y s]; [split; [discriminate | intros [r H]; discriminate] |].
    rewrite andb_true_iff, bool_decide_eq_true, IH. split.
    + intros [-> [r ->]]. eauto.
    + intros [r H]. simplify_eq. eauto.
Qed.
Lemma starts_with_app p r : starts_with p (p ++ r) = true.
Proof. apply starts_with_spec. eauto. Qed.
Lemma strstr_prefix s p : strstr s p = Some O <-> starts_with p s = true.
Proof.
  destruct s; cbn; destruct (starts_with p _); split; intros; simplify_eq; try done.
  destruct (strstr s p); discriminate.
Qed.

Lemma cstring_app a b : cstring (a ++ b) <-> cstring a /\ cstring b.
Proof. unfold cstring. rewrite elem_of_app. tauto. Qed.

Lemma strchr_app a c r : c ∉ a -> strchr (a ++ c :: r) c = Some (length a).
Proof.
  induction a as [| x a IH]; intros Hc; cbn.
  - rewrite decide_True by reflexivity. reflexivity.
  - apply not_elem_of_cons in Hc as [Hx Hc]. rewrite decide_False by congruence.
    rewrite IH by assumption. reflexivity.
Qed.

(** Tokens are never empty and never contain a delimiter. *)
Lemma tokens_spec delim s acc t :
  (forall x, x ∈ acc -> x ∉ delim) ->
  t ∈ tokens delim acc s -> t <> [] /\ forall x, x ∈ t -> x ∉ delim.
Proof.
  revert acc. induction s as [| x s IH]; intros acc Hacc Ht; cbn in Ht.
  - destruct acc as [| y acc]; [set_solver |].
    apply list_elem_of_singleton in Ht as ->. split.
    + intros E. apply (f_equal length) in E. rewrite length_reverse in E. discriminate.
    + intros z Hz. apply Hacc. by rewrite <- elem_of_reverse.
  - case_decide as Hx.
    + destruct acc as [| y acc]; [apply (IH []); [set_solver | assumption] |].
      apply elem_of_cons in Ht as [-> | Ht]; [| apply (IH []); [set_solver | assumption]].
      split; [| intros z Hz; apply Hacc; by rewrite <- elem_of_reverse].
      intros E. apply (f_equal length) in E. rewrite length_reverse in E. discriminate.
    + apply (IH (x :: acc)); [| assumption].
      intros z [-> | Hz]%elem_of_cons; auto.
Qed.

(** The length of a number's text. *)
Lemma decimal_fuel_len fuel k n acc :
  0 <= n -> n < 10 ^ k -> 1 <= k -> len (decimal_fuel fuel n acc) <= k + len acc.
Proof.
  revert k n acc. induction fuel as [| fuel IH]; intros k n acc Hn Hk H1; cbn [decimal_fuel]; [lia |].
  destruct (n / 10 =? 0) eqn:E; [rewrite len_cons; lia |].
  assert (H10 : n / 10 <> 0) by lia. pose proof (Z.div_pos n 10 Hn ltac:(lia)).
  assert (2 <= k). { destruct (decide (k = 1)) as [-> |]; [| lia]. exfalso. apply H10, Z.div_small. lia. }
  etransitivity; [apply (IH (k - 1)) |]; [lia | | lia | rewrite len_cons; lia].
  apply Z.div_lt_upper_bound; [lia |]. rewrite <- Z.pow_succ_r by lia.
  replace (Z.succ (k - 1)) with k by lia. exact Hk.
Qed.
Lemma int_decimal_len n k : 0 <= n < 10 ^ k -> 1 <= k -> len (int_decimal n) <= k.
Proof.
  intros Hn Hk. unfold int_decimal. replace (n <? 0) with false by lia.
  pose proof (decimal_fuel_len 20 k n [] ltac:(lia) ltac:(lia) Hk) as H. len_nils. unfold decimal. lia.
Qed.

(** A number's text is read back. *)
Lemma decimal_fuel_value fuel n acc k :
  0 <= n < 10 ^ Z.of_nat fuel ->
  digits_value (decimal_fuel fuel n acc) k = digits_value acc (k * 10 ^ len (decimal_fuel fuel n []) + n).
Proof.
  revert n acc k. induction fuel as [| fuel IH]; intros n acc k Hn; cbn [decimal_fuel].
  - rewrite len_nil, Z.pow_0_r. f_equal. lia.
  - set (d := byte_of (48 + n mod 10)). pose proof (Z.mod_pos_bound n 10 ltac:(lia)) as Hm.
    assert (Hd : byte_val d = 48 + n mod 10) by (unfold d; rewrite byte_val_of; apply Z.mod_small; lia).
    assert (Hdig : isdigit d = true) by (unfold isdigit; lia).
    pose proof (Z.div_mod n 10 ltac:(lia)) as Hdm.
    destruct (n / 10 =? 0) eqn:E.
    + cbn [digits_value]. rewrite Hdig, Hd. change (10 ^ len [d]) with 10. f_equal. lia.
    + assert (Hdiv : 0 <= n / 10 < 10 ^ Z.of_nat fuel).
      { split; [lia |]. apply Z.div_lt_upper_bound; [lia |]. rewrite <- Z.pow_succ_r by lia.
        replace (Z.succ (Z.of_nat fuel)) with (Z.of_nat (S fuel)) by lia. lia. }
      rewrite (IH (n / 10) (d :: acc) k Hdiv). cbn [digits_value]. rewrite Hdig, Hd. f_equal.
      assert (Hlen : len (decimal_fuel fuel (n / 10) [d]) = len (decimal_fuel fuel (n / 10) []) + 1).
      { clear. revert d. generalize (n / 10). induction fuel as [| fuel IH]; intros m d; [reflexivity |].
        cbn [decimal_fuel]. destruct (m / 10 =? 0); [reflexivity |].
        generalize (byte_of (48 + m mod 10)). intros b.
        enough (H : forall l1 l2, len (decimal_fuel fuel (m / 10) (l1 ++ l2)) = len (decimal_fuel fuel (m / 10) l1) + len l2)
          by exact (H [b] [d]).
        clear. generalize (m / 10). induction fuel as [| fuel IH]; intros n l1 l2; [apply len_app |].
        cbn [decimal_fuel]. rewrite !app_comm_cons. case_match; [apply len_app | apply IH]. }
      rewrite Hlen, Z.pow_add_r by (try apply len_nonneg; lia). lia.
Qed.
Lemma decimal_fuel_head fuel n acc :
  (0 < fuel)%nat -> exists c r, decimal_fuel fuel n acc = c :: r /\ 48 <= byte_val c <= 57.
Proof.
  revert n acc. induction fuel as [| fuel IH]; intros n acc Hf; [lia |]. cbn [decimal_fuel].
  assert (Hd : 48 <= byte_val (byte_of (48 + n mod 10)) <= 57).
  { rewrite byte_val_of. pose proof (Z.mod_pos_bound n 10 ltac:(lia)). rewrite Z.mod_small by lia. lia. }
  destruct (n / 10 =? 0); [by eexists _, _ |]. destruct fuel as [| fuel]; [by eexists _, _ | apply IH; lia].
Qed.
Lemma atoi_decimal n : 0 <= n < 2 ^ 31 -> atoi (decimal n) = n.
Proof.
  intros Hn. pose proof (decimal_fuel_value 20 n [] 0 ltac:(lia)) as H. fold (decimal n) in H.
  cbn [digits_value] in H. rewrite Z.mul_0_l, Z.add_0_l in H.
  destruct (decimal_fuel_head 20 n [] ltac:(lia)) as (c & r & E & Hc). fold (decimal n) in E. rewrite E in *.
  unfold atoi. cbn [skip_space]. replace (isspace c) with false by (unfold isspace; lia).
  replace (byte_val c =? 45) with false by lia. replace (byte_val c =? 43) with false by lia.
  rewrite H, Z.min_r by lia. apply i32_small. lia.
Qed.
Lemma atoi_int_decimal n : - 2 ^ 31 <= n < 2 ^ 31 -> atoi (int_decimal n) = n.
Proof.
  intros Hn. unfold int_decimal. destruct (n <? 0) eqn:E; [| apply atoi_decimal; lia].
  pose proof (decimal_fuel_value 20 (- n) [] 0 ltac:(lia)) as H. fold (decimal (- n)) in H.
  cbn [digits_value] in H. rewrite Z.mul_0_l, Z.add_0_l in H.
  unfold atoi. cbn [skip_space]. change (isspace (byte_of 45)) with false. cbn iota.
  change (byte_val (byte_of 45) =? 45) with true. cbn iota. rewrite H, Z.opp_involutive, Z.max_r by lia.
  apply i32_small. lia.
Qed.
