(* ===== verification/Jsmn.v ===== *)
(** The tokeniser of JSON texts (src/repo/fsrepo/jsmn.c). *)

From S2P Require Import Prelude Libc.

Inductive jsmntype := JSMN_UNDEFINED | JSMN_OBJECT | JSMN_ARRAY | JSMN_STRING | JSMN_PRIMITIVE.
#[export] Instance jsmntype_eq_dec : EqDecision jsmntype.
Proof. solve_decision. Defined.

Inductive jsmnerr := JSMN_ERROR_NOMEM | JSMN_ERROR_INVAL | JSMN_ERROR_PART.

Record jsmntok := MkTok { tok_type : jsmntype; tok_start : Z; tok_end : Z; tok_size : Z }.

(** [toknext] is the number of [tokens]; [None]: -1. The position is kept beside. *)
Record jsmn_parser := MkJsmn { toksuper : option nat; toks : list jsmntok }.
Definition jsmn_init : jsmn_parser := MkJsmn None [].

Definition c_dquote : byte := byte_of 34.
Definition c_backslash : byte := byte_of 92.
Definition is_blank (c : byte) : bool :=
  let v := byte_val c in (v =? 9) || (v =? 13) || (v =? 10) || (v =? 32).
Definition ends_primitive (c : byte) : bool :=
  let v := byte_val c in is_blank c || (v =? 58) || (v =? 44) || (v =? 93) || (v =? 125).

(** [parser->pos] is an unsigned int: behind the last position that fits it is at the start of
    the text again. The text from the position on, and the position, one character further. *)
Definition next (js rest : bytes) (pos : Z) : bytes * Z :=
  let pos := u32 (pos + 1) in (if pos =? 0 then js else rest, pos).

(** [s]: the text from [pos] on. *)
Fixpoint primitive_end (fuel : nat) (js s : bytes) (pos : Z) : cres jsmnerr (Z * bytes) :=
  match fuel with
  | O => NoFuel
  | S fuel =>
      match s with
      | [] => Ok (pos, [])
      | c :: rest =>
          if decide (c = x00) then Ok (pos, s)
          else if ends_primitive c then Ok (pos, s)
          else if (byte_val c <? 32) || (127 <=? byte_val c) then Err JSMN_ERROR_INVAL
          else let '(s, pos) := next js rest pos in primitive_end fuel js s pos
      end
  end.

(** Behind a backslash, and the hexadecimal digits still to come. *)
Inductive string_mode := InText | Escaped | InHex (n : nat).
Definition is_escape (c : byte) : bool :=
  existsb (Z.eqb (byte_val c)) [34; 47; 92; 98; 102; 114; 110; 116].
Definition is_hex (c : byte) : bool :=
  let v := byte_val c in
  (48 <=? v) && (v <=? 57) || (65 <=? v) && (v <=? 70) || (97 <=? v) && (v <=? 102).
(** From the character behind the first quotation mark: the position of the second one and
    what is behind it. *)
Fixpoint string_end (fuel : nat) (js : bytes) (m : string_mode) (s : bytes) (pos : Z) : cres jsmnerr (Z * bytes) :=
  match fuel with
  | O => NoFuel
  | S fuel =>
      match s with
      | [] => Err JSMN_ERROR_PART
      | c :: rest =>
          let '(s, pos') := next js rest pos in
          match m with
          | InText =>
              if decide (c = x00) then Err JSMN_ERROR_PART
              else if decide (c = c_dquote) then Ok (pos, rest)
              else if decide (c = c_backslash) then string_end fuel js Escaped s pos'
              else string_end fuel js InText s pos'
          | Escaped =>
              if is_escape c then string_end fuel js InText s pos'
              else if byte_val c =? 117 then string_end fuel js (InHex 4) s pos'
              else Err JSMN_ERROR_INVAL
          | InHex n =>
              if decide (c = x00) then Err JSMN_ERROR_PART
              else if is_hex c then
                string_end fuel js (match n with S (S n) => InHex (S n) | _ => InText end) s pos'
              else Err JSMN_ERROR_INVAL
          end
      end
  end.

Definition more (t : jsmntok) : jsmntok := MkTok (tok_type t) (tok_start t) (tok_end t) (tok_size t + 1).
Definition count_in_super (p : jsmn_parser) (l : list jsmntok) : list jsmntok :=
  match toksuper p with Some i => alter more i l | None => l end.

(** [jsmn_alloc_token], the token filled in, and one more in the super token. *)
Definition add_token (num_tokens : Z) (t : jsmntok) (p : jsmn_parser) : cres jsmnerr (list jsmntok) :=
  if num_tokens <=? len (toks p) then Err JSMN_ERROR_NOMEM
  else Ok (count_in_super p (toks p ++ [t])).

Definition is_open (t : jsmntok) : bool := (tok_end t =? -1) && negb (tok_start t =? -1).
Definition is_container (t : jsmntok) : bool :=
  match tok_type t with JSMN_OBJECT | JSMN_ARRAY => true | _ => false end.
(** The last token that passes a test. *)
Fixpoint last_index (f : jsmntok -> bool) (l : list jsmntok) (i : nat) (acc : option nat) : option nat :=
  match l with
  | [] => acc
  | t :: l => last_index f l (S i) (if f t then Some i else acc)
  end.
Definition last_open (l : list jsmntok) : option nat := last_index is_open l 0 None.

Definition open_token (num_tokens : Z) (t : jsmntype) (pos : Z) (p : jsmn_parser) : cres jsmnerr jsmn_parser :=
  l ← add_token num_tokens (MkTok t pos (-1) 0) p; Ok (MkJsmn (Some (length (toks p))) l).
Definition close_at (stop : Z) (t : jsmntok) : jsmntok := MkTok (tok_type t) (tok_start t) stop (tok_size t).
Definition close_token (t : jsmntype) (stop : Z) (p : jsmn_parser) : cres jsmnerr jsmn_parser :=
  match last_open (toks p) with
  | None => Err JSMN_ERROR_INVAL
  | Some i =>
      match toks p !! i with
      | Some tok =>
          if decide (tok_type tok = t) then
            let l := <[i := close_at stop tok]> (toks p) in Ok (MkJsmn (last_open l) l)
          else Err JSMN_ERROR_INVAL
      | None => Undef
      end
  end.
(** A string or a primitive. *)
Definition value_token (num_tokens : Z) (t : jsmntype) (start stop : Z) (p : jsmn_parser)
  : cres jsmnerr jsmn_parser :=
  l ← add_token num_tokens (MkTok t start stop 0) p; Ok (MkJsmn (toksuper p) l).
(** A string whose first quotation mark is at [start]. *)
Definition string_token (num_tokens start stop : Z) (p : jsmn_parser) : cres jsmnerr jsmn_parser :=
  if (len (toks p) <? num_tokens) && (start =? 2 ^ 31 - 1) then Undef
  else value_token num_tokens JSMN_STRING (start + 1) stop p.
Definition colon (p : jsmn_parser) : jsmn_parser :=
  MkJsmn (match length (toks p) with O => None | S n => Some n end) (toks p).
Definition comma (p : jsmn_parser) : jsmn_parser :=
  match toksuper p with
  | None => p
  | Some i =>
      match toks p !! i with
      | Some t =>
          if is_container t then p
          else
            let found := last_index (fun t => is_container t && is_open t) (toks p) 0 None in
            MkJsmn (match found with Some j => Some j | None => Some i end) (toks p)
      | None => p
      end
  end.

(** The loop, from [pos] on; each turn takes one character or more. The offsets in a token are
    of type int. *)
Fixpoint parse_loop (fuel : nat) (num_tokens : Z) (js s : bytes) (pos : Z) (p : jsmn_parser)
  : cres jsmnerr jsmn_parser :=
  match fuel with
  | O => NoFuel
  | S fuel' =>
      match s with
      | [] => Ok p
      | c :: rest =>
          let v := byte_val c in
          let '(s', pos') := next js rest pos in
          if decide (c = x00) then Ok p
          else if (v =? 123) || (v =? 91) then
            p ← open_token num_tokens (if v =? 123 then JSMN_OBJECT else JSMN_ARRAY) (i32 pos) p;
            parse_loop fuel' num_tokens js s' pos' p
          else if (v =? 125) || (v =? 93) then
            p ← close_token (if v =? 125 then JSMN_OBJECT else JSMN_ARRAY) (i32 (u32 (pos + 1))) p;
            parse_loop fuel' num_tokens js s' pos' p
          else if decide (c = c_dquote) then
            '(stop, rest) ← string_end fuel' js InText s' pos';
            p ← string_token num_tokens (i32 pos) (i32 stop) p;
            let '(s, pos) := next js rest stop in parse_loop fuel' num_tokens js s pos p
          else if is_blank c then parse_loop fuel' num_tokens js s' pos' p
          else if v =? 58 then parse_loop fuel' num_tokens js s' pos' (colon p)
          else if v =? 44 then parse_loop fuel' num_tokens js s' pos' (comma p)
          else
            '(stop, rest) ← primitive_end fuel js s pos;
            p ← value_token num_tokens JSMN_PRIMITIVE (i32 pos) (i32 stop) p;
            parse_loop fuel' num_tokens js rest stop p
      end
  end.

(** The tokens, whose number is what is returned. The fuel is enough for every text shorter than
    2^32 characters; a longer one is never read to its end, and is left after as many turns
    as it has characters. *)
Definition jsmn_parse (js : bytes) (num_tokens : Z) : cres jsmnerr (list jsmntok) :=
  p ← parse_loop (S (length js)) num_tokens js js 0 jsmn_init;
  if existsb is_open (toks p) then Err JSMN_ERROR_PART else Ok (toks p).

(** The text of a token. *)
Definition tok_text (js : bytes) (t : jsmntok) : bytes :=
  btake (tok_end t - tok_start t) (bdrop (tok_start t) js).

(** [json_len] is an int that says how much of the text there is. The value behind a key, without a terminator. The token behind the last one was never
    written. *)
Fixpoint simple_find (js key : bytes) (l : list jsmntok) : cres unit bytes :=
  match l with
  | [] => Err ()
  | t :: l =>
      if decide (tok_text js t = key) then
        match l with
        | v :: _ => Ok (tok_text js v)
        | [] => Undef
        end
      else simple_find js key l
  end.
Definition jsmn_simple_parser (full_json key : option bytes) : cres unit bytes :=
  match full_json, key with
  | Some js, Some key =>
      if 2 ^ 31 <=? len js then Undef
      else
        match jsmn_parse js 256 with
        | Ok [] | Err _ => Err ()
        | Ok l => simple_find js key l
        | Undef => Undef
        | NoFuel => NoFuel
        end
  | _, _ => Err ()
  end.

(** * Properties *)

(** ** The text read straight on *)

(** The same without an end to the positions. *)
Fixpoint scan_primitive (s : bytes) (pos : Z) : cres jsmnerr (Z * bytes) :=
  match s with
  | [] => Ok (pos, [])
  | c :: rest =>
      if decide (c = x00) then Ok (pos, s)
      else if ends_primitive c then Ok (pos, s)
      else if (byte_val c <? 32) || (127 <=? byte_val c) then Err JSMN_ERROR_INVAL
      else scan_primitive rest (pos + 1)
  end.

Fixpoint scan_string (m : string_mode) (s : bytes) (pos : Z) : cres jsmnerr (Z * bytes) :=
  match s with
  | [] => Err JSMN_ERROR_PART
  | c :: rest =>
      match m with
      | InText =>
          if decide (c = x00) then Err JSMN_ERROR_PART
          else if decide (c = c_dquote) then Ok (pos, rest)
          else if decide (c = c_backslash) then scan_string Escaped rest (pos + 1)
          else scan_string InText rest (pos + 1)
      | Escaped =>
          if is_escape c then scan_string InText rest (pos + 1)
          else if byte_val c =? 117 then scan_string (InHex 4) rest (pos + 1)
          else Err JSMN_ERROR_INVAL
      | InHex n =>
          if decide (c = x00) then Err JSMN_ERROR_PART
          else if is_hex c then
            scan_string (match n with S (S n) => InHex (S n) | _ => InText end) rest (pos + 1)
          else Err JSMN_ERROR_INVAL
      end
  end.

Fixpoint scan_loop (fuel : nat) (num_tokens : Z) (s : bytes) (pos : Z) (p : jsmn_parser)
  : cres jsmnerr jsmn_parser :=
  match fuel with
  | O => NoFuel
  | S fuel =>
      match s with
      | [] => Ok p
      | c :: rest =>
          let v := byte_val c in
          if decide (c = x00) then Ok p
          else if (v =? 123) || (v =? 91) then
            p ← open_token num_tokens (if v =? 123 then JSMN_OBJECT else JSMN_ARRAY) pos p;
            scan_loop fuel num_tokens rest (pos + 1) p
          else if (v =? 125) || (v =? 93) then
            p ← close_token (if v =? 125 then JSMN_OBJECT else JSMN_ARRAY) (pos + 1) p;
            scan_loop fuel num_tokens rest (pos + 1) p
          else if decide (c = c_dquote) then
            '(stop, rest) ← scan_string InText rest (pos + 1);
            p ← value_token num_tokens JSMN_STRING (pos + 1) stop p;
            scan_loop fuel num_tokens rest (stop + 1) p
          else if is_blank c then scan_loop fuel num_tokens rest (pos + 1) p
          else if v =? 58 then scan_loop fuel num_tokens rest (pos + 1) (colon p)
          else if v =? 44 then scan_loop fuel num_tokens rest (pos + 1) (comma p)
          else
            '(stop, rest) ← scan_primitive s pos;
            p ← value_token num_tokens JSMN_PRIMITIVE pos stop p;
            scan_loop fuel num_tokens rest stop p
      end
  end.

(** ** A text as the pieces it is made of *)

Inductive piece :=
| Open (t : jsmntype)
| Close (t : jsmntype)
| Str (s : bytes)
| Prim (s : bytes)
| Colon
| Comma
| Blank (s : bytes).

Definition bracket (t : jsmntype) (o : bool) : bytes :=
  match t with
  | JSMN_ARRAY => [byte_of (if o then 91 else 93)]
  | _ => [byte_of (if o then 123 else 125)]
  end.
Definition render (p : piece) : bytes :=
  match p with
  | Open t => bracket t true
  | Close t => bracket t false
  | Str s => c_dquote :: s ++ [c_dquote]
  | Prim s => s
  | Colon => [byte_of 58]
  | Comma => [byte_of 44]
  | Blank s => s
  end.
Definition render_all (ps : list piece) : bytes := concat (map render ps).

(** A string without quotation marks and backslashes; a primitive of printed characters
    that begin nothing else. *)
Definition plain_char (c : byte) : bool :=
  negb (bool_decide (c = x00 \/ c = c_dquote \/ c = c_backslash)).
Definition prim_char (c : byte) : bool :=
  negb (ends_primitive c) && (32 <=? byte_val c) && (byte_val c <? 127) &&
  negb (existsb (Z.eqb (byte_val c)) [34; 91; 123]).
Definition piece_ok (p : piece) : bool :=
  match p with
  | Open t | Close t => bool_decide (t = JSMN_OBJECT \/ t = JSMN_ARRAY)
  | Str s => forallb plain_char s
  | Prim s => forallb prim_char s && negb (bool_decide (s = []))
  | Blank s => forallb is_blank s
  | _ => true
  end.
Definition is_prim (p : piece) : bool := match p with Prim _ => true | _ => false end.
(** Behind a primitive stands something that ends it. *)
Definition ends_prim (p : piece) : bool :=
  match p with Close _ | Colon | Comma => true | Blank (_ :: _) => true | _ => false end.
Fixpoint pieces_ok (ps : list piece) : bool :=
  match ps with
  | [] => true
  | p :: ps =>
      piece_ok p && (negb (is_prim p) || match ps with [] => true | q :: _ => ends_prim q end) && pieces_ok ps
  end.

(** ** What the tokeniser makes of the pieces *)

(** A token by its text; [None]: the text of an object or an array is not said. *)
Record vtok := MkV { v_type : jsmntype; v_text : option bytes; v_size : Z; v_open : bool }.
Record vstate := MkVS { vs_super : option nat; vs_toks : list vtok }.

Definition v_more (t : vtok) : vtok := MkV (v_type t) (v_text t) (v_size t + 1) (v_open t).
Definition v_container (t : vtok) : bool :=
  match v_type t with JSMN_OBJECT | JSMN_ARRAY => true | _ => false end.
Fixpoint v_last (f : vtok -> bool) (l : list vtok) (i : nat) (acc : option nat) : option nat :=
  match l with
  | [] => acc
  | t :: l => v_last f l (S i) (if f t then Some i else acc)
  end.
Definition v_add (num : Z) (t : vtok) (st : vstate) : cres jsmnerr (list vtok) :=
  if num <=? len (vs_toks st) then Err JSMN_ERROR_NOMEM
  else
    let l := vs_toks st ++ [t] in
    Ok (match vs_super st with Some i => alter v_more i l | None => l end).
Definition v_step (num : Z) (p : piece) (st : vstate) : cres jsmnerr vstate :=
  match p with
  | Open t => l ← v_add num (MkV t None 0 true) st; Ok (MkVS (Some (length (vs_toks st))) l)
  | Close t =>
      match v_last v_open (vs_toks st) 0 None with
      | None => Err JSMN_ERROR_INVAL
      | Some i =>
          match vs_toks st !! i with
          | Some v =>
              if decide (v_type v = t) then
                let l := <[i := MkV (v_type v) (v_text v) (v_size v) false]> (vs_toks st) in
                Ok (MkVS (v_last v_open l 0 None) l)
              else Err JSMN_ERROR_INVAL
          | None => Undef
          end
      end
  | Str s => l ← v_add num (MkV JSMN_STRING (Some s) 0 false) st; Ok (MkVS (vs_super st) l)
  | Prim s => l ← v_add num (MkV JSMN_PRIMITIVE (Some s) 0 false) st; Ok (MkVS (vs_super st) l)
  | Colon => Ok (MkVS (match length (vs_toks st) with O => None | S n => Some n end) (vs_toks st))
  | Comma =>
      Ok (match vs_super st with
          | None => st
          | Some i =>
              match vs_toks st !! i with
              | Some t =>
                  if v_container t then st
                  else MkVS (match v_last (fun t => v_container t && v_open t) (vs_toks st) 0 None with
                             | Some j => Some j
                             | None => Some i
                             end) (vs_toks st)
              | None => st
              end
          end)
  | Blank _ => Ok st
  end.
Fixpoint v_run (num : Z) (ps : list piece) (st : vstate) : cres jsmnerr vstate :=
  match ps with
  | [] => Ok st
  | p :: ps => st ← v_step num p st; v_run num ps st
  end.

(** The tokens of a text and their texts. *)
Definition tok_matches (js : bytes) (t : jsmntok) (v : vtok) : Prop :=
  tok_type t = v_type v /\ tok_size t = v_size v /\ is_open t = v_open v /\
  match v_text v with Some s => tok_text js t = s /\ v_open v = false | None => True end.

Definition st_matches (js : bytes) (p : jsmn_parser) (st : vstate) : Prop :=
  toksuper p = vs_super st /\ Forall2 (tok_matches js) (toks p) (vs_toks st).
Definition res_matches (js : bytes) (r : cres jsmnerr jsmn_parser) (v : cres jsmnerr vstate) : Prop :=
  match v, r with
  | Ok st, Ok p => st_matches js p st
  | Err e, Err e' => e = e'
  | _, _ => False
  end.

Lemma last_index_matches js f g l vl i acc :
  Forall2 (tok_matches js) l vl -> (forall t v, tok_matches js t v -> f t = g v) ->
  last_index f l i acc = v_last g vl i acc.
Proof.
  intros H Hfg. revert i acc. induction H as [| t v l vl Ht _ IH]; intros i acc; [reflexivity |].
  cbn. rewrite (Hfg t v Ht). apply IH.
Qed.
Lemma last_index_lookup f l i acc j :
  last_index f l i acc = Some j -> acc = Some j \/ (i <= j)%nat /\ exists t, l !! (j - i)%nat = Some t /\ f t = true.
Proof.
  revert i acc. induction l as [| t l IH]; intros i acc H; cbn in H; [by left |].
  destruct (IH _ _ H) as [Ha | (Hj & t' & Ht)].
  - destruct (f t) eqn:Ef; [injection Ha as ->; right; split; [lia |]; rewrite Nat.sub_diag; by eexists | by left].
  - right. split; [lia |]. exists t'. replace (j - i)%nat with (S (j - S i)) by lia. exact Ht.
Qed.
Lemma match_open js t v : tok_matches js t v -> is_open t = v_open v.
Proof. by intros (_ & _ & H & _). Qed.
Lemma match_container js t v : tok_matches js t v -> is_container t = v_container v.
Proof. intros (H & _). unfold is_container, v_container. by rewrite H. Qed.

Lemma add_matches js num t v p st :
  st_matches js p st -> tok_matches js t v ->
  match v_add num v st, add_token num t p with
  | Ok vl, Ok l => Forall2 (tok_matches js) l vl
  | Err e, Err e' => e = e'
  | _, _ => False
  end.
Proof.
  intros [Hs Hl] Ht. unfold v_add, add_token, count_in_super. rewrite Hs.
  assert (E : len (toks p) = len (vs_toks st)) by (unfold len; by rewrite (Forall2_length _ _ _ Hl)).
  rewrite E. destruct (_ <=? _); [reflexivity |].
  assert (Ha : Forall2 (tok_matches js) (toks p ++ [t]) (vs_toks st ++ [v])) by (by apply Forall2_app; [| constructor]).
  destruct (vs_super st) as [i |]; [| exact Ha]. apply Forall2_alter; [exact Ha |].
  intros x y _ _ (H1 & H2 & H3 & H4). split; [exact H1 |]. split; [cbn; lia |]. split; [exact H3 | exact H4].
Qed.

Lemma tok_text_mid a s b t : tok_text (a ++ s ++ b) (MkTok t (len a) (len a + len s) 0) = s.
Proof.
  unfold tok_text. cbn [tok_start tok_end]. rewrite bdrop_app_len.
  replace (len a + len s - len a) with (len s) by lia. apply btake_app_len.
Qed.

(** ** Strings, primitives and blanks *)

Lemma string_end_plain s rest pos :
  forallb plain_char s = true -> scan_string InText (s ++ c_dquote :: rest) pos = Ok (pos + len s, rest).
Proof.
  revert pos. induction s as [| c s IH]; intros pos H.
  - cbn. rewrite Z.add_0_r. reflexivity.
  - apply andb_true_iff in H as [Hc Hs]. apply negb_true_iff, bool_decide_eq_false in Hc.
    cbn [app scan_string]. rewrite !decide_False by tauto. rewrite IH, len_cons by exact Hs. do 2 f_equal. lia.
Qed.
Definition ended (s : bytes) : bool := match s with [] => true | c :: _ => ends_primitive c end.
Lemma primitive_end_prim s rest pos :
  forallb prim_char s = true -> ended rest = true -> scan_primitive (s ++ rest) pos = Ok (pos + len s, rest).
Proof.
  revert pos. induction s as [| c s IH]; intros pos H Hr.
  - rewrite Z.add_0_r. destruct rest as [| c rest]; [reflexivity |]. cbn in *. rewrite Hr. by destruct (decide _).
  - apply andb_true_iff in H as [Hc Hs]. unfold prim_char in Hc.
    apply andb_true_iff in Hc as [Hc _]. apply andb_true_iff in Hc as [Hc H127]. apply andb_true_iff in Hc as [Hc H32].
    apply negb_true_iff in Hc. cbn [app scan_primitive]. rewrite Hc.
    rewrite decide_False by (intros ->; discriminate). replace (_ || _) with false by lia.
    rewrite IH, len_cons by assumption. do 2 f_equal. lia.
Qed.

(** ** One piece *)

Section Steps.
Context (num : Z) (fuel : nat) (rest : bytes) (pos : Z) (p : jsmn_parser).

Lemma parse_open t :
  piece_ok (Open t) = true ->
  scan_loop (S fuel) num (bracket t true ++ rest) pos p =
  (p ← open_token num t pos p; scan_loop fuel num rest (pos + 1) p).
Proof. intros H. apply bool_decide_eq_true in H as [-> | ->]; reflexivity. Qed.
Lemma parse_close t :
  piece_ok (Close t) = true ->
  scan_loop (S fuel) num (bracket t false ++ rest) pos p =
  (p ← close_token t (pos + 1) p; scan_loop fuel num rest (pos + 1) p).
Proof. intros H. apply bool_decide_eq_true in H as [-> | ->]; reflexivity. Qed.
Lemma parse_str s :
  forallb plain_char s = true ->
  scan_loop (S fuel) num ((c_dquote :: s ++ [c_dquote]) ++ rest) pos p =
  (p ← value_token num JSMN_STRING (pos + 1) (pos + 1 + len s) p;
   scan_loop fuel num rest (pos + 1 + len s + 1) p).
Proof.
  intros H. cbn [app]. rewrite <- app_assoc. cbn [app].
  transitivity ('(stop, rest) ← scan_string InText (s ++ c_dquote :: rest) (pos + 1);
            p ← value_token num JSMN_STRING (pos + 1) stop p;
            scan_loop fuel num rest (stop + 1) p); [reflexivity |].
  rewrite string_end_plain by exact H. reflexivity.
Qed.
Lemma parse_prim s :
  piece_ok (Prim s) = true -> ended rest = true ->
  scan_loop (S fuel) num (s ++ rest) pos p =
  (p ← value_token num JSMN_PRIMITIVE pos (pos + len s) p; scan_loop fuel num rest (pos + len s) p).
Proof.
  intros H Hr. apply andb_true_iff in H as [Hs Hne]. apply negb_true_iff, bool_decide_eq_false in Hne.
  pose proof (primitive_end_prim s rest pos Hs Hr) as E.
  destruct s as [| c s]; [congruence |]. cbn [forallb] in Hs. apply andb_true_iff in Hs as [Hc _].
  unfold prim_char, ends_primitive in Hc. cbn [app scan_loop] in *.
  cbn [existsb] in Hc. rewrite E.
  rewrite (decide_False (P := c = x00)) by (intros ->; discriminate).
  rewrite (decide_False (P := c = c_dquote)) by (intros ->; discriminate).
  destruct (is_blank c); [discriminate |].
  replace ((byte_val c =? 123) || (byte_val c =? 91)) with false by lia.
  replace ((byte_val c =? 125) || (byte_val c =? 93)) with false by lia.
  replace (byte_val c =? 58) with false by lia. replace (byte_val c =? 44) with false by lia. reflexivity.
Qed.
Lemma parse_one_blank c :
  is_blank c = true ->
  scan_loop (S fuel) num (c :: rest) pos p = scan_loop fuel num rest (pos + 1) p.
Proof.
  intros H. cbn [scan_loop]. rewrite H. unfold is_blank in H.
  rewrite (decide_False (P := c = x00)) by (intros ->; discriminate).
  rewrite (decide_False (P := c = c_dquote)) by (intros ->; discriminate).
  replace ((byte_val c =? 123) || (byte_val c =? 91)) with false by lia.
  replace ((byte_val c =? 125) || (byte_val c =? 93)) with false by lia. reflexivity.
Qed.
End Steps.

Lemma parse_blanks num fuel s rest pos p :
  forallb is_blank s = true ->
  scan_loop (length s + fuel) num (s ++ rest) pos p = scan_loop fuel num rest (pos + len s) p.
Proof.
  revert pos. induction s as [| c s IH]; intros pos H; [cbn; by rewrite Z.add_0_r |].
  apply andb_true_iff in H as [Hc Hs]. cbn [length plus app]. rewrite parse_one_blank by exact Hc.
  rewrite IH, len_cons by exact Hs. f_equal. lia.
Qed.

(** ** A text *)

Lemma value_matches js num a s b t p st :
  js = a ++ s ++ b -> t = JSMN_STRING \/ t = JSMN_PRIMITIVE -> st_matches js p st ->
  res_matches js (value_token num t (len a) (len a + len s) p)
    (l ← v_add num (MkV t (Some s) 0 false) st; Ok (MkVS (vs_super st) l)).
Proof.
  intros Hjs Ht Hst. pose proof Hst as [Hs _].
  assert (Hm : tok_matches js (MkTok t (len a) (len a + len s) 0) (MkV t (Some s) 0 false)).
  { split; [reflexivity |]. split; [reflexivity |]. split.
    - unfold is_open. cbn. pose_len. replace (_ =? -1) with false by lia. reflexivity.
    - subst js. split; [apply (tok_text_mid a s b t) | reflexivity]. }
  pose proof (add_matches js num _ _ p st Hst Hm) as H. unfold value_token.
  destruct (v_add num _ st), (add_token num _ p); cbn; try contradiction; [| exact H].
  split; [exact Hs | exact H].
Qed.
Lemma open_matches js num t pos p st :
  0 <= pos -> st_matches js p st ->
  res_matches js (open_token num t pos p) (v_step num (Open t) st).
Proof.
  intros Hp Hst. pose proof Hst as [Hs Hl].
  assert (Hm : tok_matches js (MkTok t pos (-1) 0) (MkV t None 0 true)).
  { repeat split. unfold is_open. cbn. replace (pos =? -1) with false by lia. reflexivity. }
  pose proof (add_matches js num _ _ p st Hst Hm) as H. unfold open_token, v_step.
  destruct (v_add num _ st), (add_token num _ p); cbn; try contradiction; [| exact H].
  split; [cbn; by rewrite (Forall2_length _ _ _ Hl) | exact H].
Qed.
Lemma close_matches js num t pos p st :
  0 <= pos -> st_matches js p st ->
  res_matches js (close_token t (pos + 1) p) (v_step num (Close t) st).
Proof.
  intros Hp [Hs Hl]. unfold close_token, v_step, last_open.
  rewrite (last_index_matches js is_open v_open _ _ 0 None Hl (match_open js)).
  destruct (v_last v_open (vs_toks st) 0 None) as [i |] eqn:Ei; [| reflexivity].
  rewrite <- (last_index_matches js is_open v_open _ _ 0 None Hl (match_open js)) in Ei.
  apply last_index_lookup in Ei as [Ei | (_ & x & Hx & Hop)]; [discriminate |].
  rewrite Nat.sub_0_r in Hx. rewrite Hx.
  destruct (Forall2_lookup_l _ _ _ _ _ Hl Hx) as (v & Hv & Hm). rewrite Hv. pose proof Hm as (Ht & Hz & Ho & Htext).
  rewrite Ht. destruct (decide (v_type v = t)); [| reflexivity].
  assert (Hl' : Forall2 (tok_matches js) (<[i := close_at (pos + 1) x]> (toks p))
                  (<[i := MkV (v_type v) (v_text v) (v_size v) false]> (vs_toks st))).
  { apply Forall2_insert; [exact Hl |]. split; [exact Ht |]. split; [exact Hz |].
    split; [unfold is_open; cbn; replace (pos + 1 =? -1) with false by lia; reflexivity |].
    cbn. destruct (v_text v) as [y |]; [| exact I]. destruct Htext as [_ Hf]. congruence. }
  split; [| exact Hl']. cbn. exact (last_index_matches js is_open v_open _ _ 0 None Hl' (match_open js)).
Qed.
Lemma comma_matches js num p st :
  st_matches js p st -> res_matches js (Ok (comma p)) (v_step num Comma st).
Proof.
  intros [Hs Hl]. cbn. unfold comma. rewrite Hs. destruct (vs_super st) as [i |] eqn:Ei; [| split; congruence].
  destruct (toks p !! i) as [t |] eqn:Et.
  - destruct (Forall2_lookup_l _ _ _ _ _ Hl Et) as (v & Hv & Hm). rewrite Hv, (match_container js t v Hm).
    destruct (v_container v); [split; congruence |]. split; [cbn | exact Hl].
    rewrite (last_index_matches js _ (fun t => v_container t && v_open t) _ _ 0 None Hl); [reflexivity |].
    intros x y H. by rewrite (match_container js x y H), (match_open js x y H).
  - destruct (vs_toks st !! i) eqn:Ev; [| split; congruence].
    destruct (Forall2_lookup_r _ _ _ _ _ Hl Ev) as (? & ? & _). congruence.
Qed.

Lemma ended_pieces ps :
  pieces_ok ps = true -> match ps with [] => true | q :: _ => ends_prim q end = true -> ended (render_all ps) = true.
Proof.
  destruct ps as [| q ps]; [reflexivity |]. intros H E. cbn in H. apply andb_true_iff in H as [H _].
  apply andb_true_iff in H as [H _]. unfold render_all. cbn [map concat].
  destruct q as [t | t | | | | | [| c s]]; try discriminate; try reflexivity.
  - apply bool_decide_eq_true in H as [-> | ->]; reflexivity.
  - cbn in H. apply andb_true_iff in H as [H _]. cbn. unfold ends_primitive. by rewrite H.
Qed.

Lemma run_matches js num ps pre p st fuel :
  pieces_ok ps = true -> js = pre ++ render_all ps -> st_matches js p st ->
  (length (render_all ps) < fuel)%nat ->
  res_matches js (scan_loop fuel num (render_all ps) (len pre) p) (v_run num ps st).
Proof.
  revert pre p st fuel. induction ps as [| q ps IH]; intros pre p st fuel Hok Hjs Hst Hf.
  { destruct fuel; [cbn in Hf; lia | exact Hst]. }
  assert (Hn : forall pre' p' st' f, js = pre' ++ render_all ps -> st_matches js p' st' ->
    (length (render_all ps) < f)%nat -> res_matches js (scan_loop f num (render_all ps) (len pre') p') (v_run num ps st')).
  { intros. apply IH; auto. cbn in Hok. apply andb_true_iff in Hok as [_ Hok]. exact Hok. }
  assert (Hnext : forall s r f, js = (pre ++ s) ++ render_all ps -> (length (render_all ps) < f)%nat ->
    res_matches js r (v_step num q st) ->
    res_matches js (p ← r; scan_loop f num (render_all ps) (len pre + len s) p) (v_run num (q :: ps) st)).
  { intros s r f E Hl Hr. cbn [v_run]. destruct (v_step num q st) as [st' | | |], r as [p' | | |]; try contradiction; [| exact Hr].
    cbn [mbind cres_bind]. rewrite <- len_app. by apply Hn. }
  change (render_all (q :: ps)) with (render q ++ render_all ps) in *.
  cbn [pieces_ok] in Hok. apply andb_true_iff in Hok as [Hok Hps]. apply andb_true_iff in Hok as [Hq Hend].
  rewrite app_assoc in Hjs. rewrite length_app in Hf. destruct fuel as [| fuel]; [lia |].
  destruct q as [t | t | s | s | | | s]; cbn [render] in *.
  - rewrite parse_open by exact Hq.
    assert (len (bracket t true) = 1) as <- by (destruct t; reflexivity).
    apply Hnext; [exact Hjs | destruct t; cbn in Hf; lia |]. apply open_matches; [apply len_nonneg | exact Hst].
  - rewrite parse_close by exact Hq.
    assert (E : len (bracket t false) = 1) by (destruct t; reflexivity). rewrite <- E.
    apply Hnext; [exact Hjs | destruct t; cbn in Hf; lia |]. rewrite E. apply close_matches; [apply len_nonneg | exact Hst].
  - rewrite parse_str by exact Hq.
    replace (len pre + 1 + len s + 1) with (len pre + len (c_dquote :: s ++ [c_dquote])).
    2: { rewrite len_cons, len_app. change (len [c_dquote]) with 1. lia. }
    apply Hnext; [exact Hjs | rewrite length_cons in Hf; lia |].
    change 1 with (len [c_dquote]). rewrite <- len_app.
    apply (value_matches js num (pre ++ [c_dquote]) s ([c_dquote] ++ render_all ps)); [| by left | exact Hst].
    rewrite Hjs. rewrite <- !app_assoc. cbn [app]. rewrite <- app_assoc. reflexivity.
  - rewrite parse_prim; [| exact Hq | apply ended_pieces; [exact Hps | exact Hend]].
    apply Hnext; [exact Hjs | apply andb_true_iff in Hq as [_ Hq]; destruct s; [discriminate | cbn in Hf; lia] |].
    apply (value_matches js num pre s (render_all ps)); [| by right | exact Hst]. by rewrite Hjs, <- app_assoc.
  - change (scan_loop (S fuel) num ([byte_of 58] ++ render_all ps) (len pre) p) with
      (scan_loop fuel num (render_all ps) (len pre + len [byte_of 58]) (colon p)).
    rewrite <- len_app. cbn [v_run v_step mbind cres_bind]. apply Hn; [exact Hjs | | cbn in Hf; lia].
    destruct Hst as [Hs Hl]. split; [cbn; by rewrite (Forall2_length _ _ _ Hl) | exact Hl].
  - change (scan_loop (S fuel) num ([byte_of 44] ++ render_all ps) (len pre) p) with
      (p ← (Ok (comma p) : cres jsmnerr _); scan_loop fuel num (render_all ps) (len pre + len [byte_of 44]) p).
    apply Hnext; [exact Hjs | cbn in Hf; lia |]. by apply comma_matches.
  - replace (S fuel) with (length s + (S fuel - length s))%nat by lia.
    rewrite parse_blanks by exact Hq. rewrite <- len_app. cbn [v_run v_step mbind cres_bind]. apply Hn; [exact Hjs | exact Hst | lia].
Qed.

(** ** Positions that fit *)

Lemma next_small js rest pos : 0 <= pos -> pos + 1 < 2 ^ 32 -> next js rest pos = (rest, pos + 1).
Proof. intros H1 H2. unfold next. rewrite u32_small by lia. by replace (pos + 1 =? 0) with false by lia. Qed.
Lemma primitive_end_scan fuel js s pos :
  0 <= pos -> pos + len s < 2 ^ 32 -> (length s < fuel)%nat -> primitive_end fuel js s pos = scan_primitive s pos.
Proof.
  revert s pos. induction fuel as [| fuel IH]; intros s pos Hp Hl Hf; [lia |]. destruct s as [| c s]; [reflexivity |].
  rewrite len_cons in Hl. cbn [primitive_end scan_primitive length] in *. pose proof (len_nonneg s).
  rewrite next_small by lia. rewrite IH by lia. reflexivity.
Qed.
Lemma string_end_scan fuel js m s pos :
  0 <= pos -> pos + len s < 2 ^ 32 -> (length s < fuel)%nat -> string_end fuel js m s pos = scan_string m s pos.
Proof.
  revert m s pos. induction fuel as [| fuel IH]; intros m s pos Hp Hl Hf; [lia |]. destruct s as [| c s]; [reflexivity |].
  rewrite len_cons in Hl. cbn [string_end scan_string length] in *. pose proof (len_nonneg s).
  rewrite next_small by lia. destruct m; rewrite !IH by lia; reflexivity.
Qed.
Lemma primitive_end_in s pos :
  match scan_primitive s pos with
  | Ok (stop, rest) => pos <= stop /\ stop + len rest = pos + len s /\
      (match s with c :: _ => c <> x00 /\ ends_primitive c = false | [] => False end -> (length rest < length s)%nat)
  | Err _ => True
  | _ => False
  end.
Proof.
  revert pos. induction s as [| c s IH]; intros pos; cbn [scan_primitive]; [split; [lia | split; [lia | done]] |].
  destruct (decide (c = x00)); [split; [lia |]; split; [lia | intros [? _]; congruence] |].
  destruct (ends_primitive c) eqn:Ec; [split; [lia |]; split; [lia | intros [_ ?]; congruence] |].
  destruct (_ || _); [exact I |]. specialize (IH (pos + 1)).
  destruct (scan_primitive s (pos + 1)) as [[stop rest] | | |]; try exact IH.
  destruct IH as (H1 & H2 & _). rewrite len_cons. split; [lia |]. split; [lia |].
  intros _. unfold len in *. cbn [length]. lia.
Qed.
Lemma string_end_in m s pos :
  match scan_string m s pos with
  | Ok (stop, rest) => pos <= stop /\ stop + 1 + len rest = pos + len s /\ (length rest < length s)%nat
  | Err _ => True
  | _ => False
  end.
Proof.
  revert m pos. induction s as [| c s IH]; intros m pos; cbn [scan_string]; [exact I |].
  assert (Hnext : forall m', match scan_string m' s (pos + 1) with
    | Ok (stop, rest) => pos <= stop /\ stop + 1 + len rest = pos + len (c :: s) /\ (length rest < length (c :: s))%nat
    | Err _ => True
    | _ => False
    end).
  { intros m'. specialize (IH m' (pos + 1)). destruct (scan_string m' s (pos + 1)) as [[stop rest] | | |]; try exact IH.
    rewrite len_cons. cbn [length]. lia. }
  destruct m as [| | n].
  - destruct (decide (c = x00)); [exact I |].
    destruct (decide (c = c_dquote)); [rewrite len_cons; cbn [length]; lia |].
    destruct (decide (c = c_backslash)); apply Hnext.
  - destruct (is_escape c); [apply Hnext |]. destruct (byte_val c =? 117); [apply Hnext | exact I].
  - destruct (decide (c = x00)); [exact I |]. destruct (is_hex c); [apply Hnext | exact I].
Qed.

Lemma parse_loop_scan fuel num js s pos p :
  0 <= pos -> pos + len s < 2 ^ 31 -> (length s < fuel)%nat -> parse_loop fuel num js s pos p = scan_loop fuel num s pos p.
Proof.
  revert s pos p. induction fuel as [| fuel IH]; intros s pos p Hp Hl Hf; [lia |]. destruct s as [| c rest]; [reflexivity |].
  pose proof Hl as Hl'. rewrite len_cons in Hl'. cbn [parse_loop scan_loop]. pose proof (len_nonneg rest).
  assert (Hr : (length rest < fuel)%nat) by (cbn in Hf; lia).
  rewrite next_small, u32_small, !i32_small by lia. destruct (decide (c = x00)) as [| H0]; [reflexivity |].
  assert (IH' : forall q, parse_loop fuel num js rest (pos + 1) q = scan_loop fuel num rest (pos + 1) q)
    by (intros q; apply IH; lia).
  destruct (_ || _); [destruct (open_token _ _ _ _); cbn [mbind cres_bind]; auto |].
  destruct (_ || _) eqn:Ec; [destruct (close_token _ _ _); cbn [mbind cres_bind]; auto |].
  destruct (decide _).
  { rewrite string_end_scan by lia. pose proof (string_end_in InText rest (pos + 1)) as H1.
    destruct (scan_string InText rest (pos + 1)) as [[stop r] | | |]; try reflexivity. cbn [mbind cres_bind].
    pose proof (len_nonneg r). unfold string_token. replace (pos =? 2 ^ 31 - 1) with false by lia.
    rewrite andb_false_r, i32_small by lia.
    destruct (value_token _ _ _ _ _); try reflexivity. cbn [mbind cres_bind]. rewrite next_small by lia. apply IH; lia. }
  destruct (is_blank c) eqn:Eb; [apply IH' |]. destruct (byte_val c =? 58) eqn:E1; [apply IH' |].
  destruct (byte_val c =? 44) eqn:E2; [apply IH' |].
  rewrite (primitive_end_scan (S fuel)) by lia. pose proof (primitive_end_in (c :: rest) pos) as H1.
  destruct (scan_primitive (c :: rest) pos) as [[stop r] | | |]; try reflexivity. cbn [mbind cres_bind].
  pose proof (len_nonneg r). destruct H1 as (Ha & Hb & Hc).
  assert (Hlt : (length r < length (c :: rest))%nat).
  { apply Hc. split; [exact H0 |]. unfold ends_primitive. rewrite Eb, E1, E2. lia. }
  rewrite i32_small by lia. destruct (value_token _ _ _ _ _); try reflexivity. cbn [mbind cres_bind]. cbn [length] in Hlt.
  apply IH; lia.
Qed.
(** A text that offsets of type int reach is read straight on. *)
Lemma jsmn_parse_scan js num :
  len js < 2 ^ 31 ->
  jsmn_parse js num =
  (p ← scan_loop (S (length js)) num js 0 jsmn_init; if existsb is_open (toks p) then Err JSMN_ERROR_PART else Ok (toks p)).
Proof. intros H. unfold jsmn_parse. by rewrite parse_loop_scan by lia. Qed.

Definition v_parse (num : Z) (ps : list piece) : cres jsmnerr (list vtok) :=
  st ← v_run num ps (MkVS None []);
  if existsb v_open (vs_toks st) then Err JSMN_ERROR_PART else Ok (vs_toks st).

(** The tokens of a text made of pieces are those of its pieces. *)
Lemma jsmn_parse_pieces num ps :
  pieces_ok ps = true -> len (render_all ps) < 2 ^ 31 ->
  match v_parse num ps with
  | Ok vl => exists l, jsmn_parse (render_all ps) num = Ok l /\ Forall2 (tok_matches (render_all ps)) l vl
  | Err e => jsmn_parse (render_all ps) num = Err e
  | _ => False
  end.
Proof.
  intros Hok Hlen. unfold v_parse. rewrite jsmn_parse_scan by exact Hlen.
  assert (Hst : st_matches (render_all ps) jsmn_init (MkVS None [])) by (split; [reflexivity | constructor]).
  pose proof (run_matches (render_all ps) num ps [] jsmn_init (MkVS None []) (S (length (render_all ps)))
                Hok eq_refl Hst ltac:(lia)) as H. change (len []) with 0 in H.
  destruct (v_run num ps _) as [st | e | |], (scan_loop _ num _ 0 _) as [p | e' | |]; try contradiction;
    [| by rewrite <- H]. destruct H as [_ Hl]. cbn [mbind cres_bind].
  assert (Hex : existsb is_open (toks p) = existsb v_open (vs_toks st)).
  { induction Hl as [| t v l vl Ht _ IHl]; [reflexivity |]. cbn. by rewrite (match_open _ _ _ Ht), IHl. }
  rewrite Hex. destruct (existsb v_open _); [reflexivity |]. eauto.
Qed.

(** ** Every text *)

(** What is known of a token when [pos] characters were read. *)
Definition tok_in (pos : Z) (t : jsmntok) : Prop :=
  0 <= tok_start t <= pos /\ (tok_end t = -1 \/ tok_start t <= tok_end t <= pos).
Definition toks_in (num pos : Z) (p : jsmn_parser) : Prop := len (toks p) <= Z.max 0 num /\ Forall (tok_in pos) (toks p).

Lemma tok_in_le pos pos' t : pos <= pos' -> tok_in pos t -> tok_in pos' t.
Proof. unfold tok_in. lia. Qed.
Lemma toks_in_le num pos pos' p : pos <= pos' -> toks_in num pos p -> toks_in num pos' p.
Proof. intros H [Hl Hf]. split; [exact Hl |]. eapply Forall_impl; [exact Hf |]. eauto using tok_in_le. Qed.

Definition step_in (num pos : Z) (r : cres jsmnerr jsmn_parser) : Prop :=
  match r with Ok p => toks_in num pos p | Err _ => True | _ => False end.
Lemma add_in num pos t p :
  toks_in num pos p -> tok_in pos t ->
  match add_token num t p with
  | Ok l => len l <= Z.max 0 num /\ Forall (tok_in pos) l
  | Err _ => True
  | _ => False
  end.
Proof.
  intros [Hl Hf] Ht. unfold add_token. destruct (num <=? len (toks p)) eqn:E; [exact I |].
  assert (Ha : Forall (tok_in pos) (toks p ++ [t])) by (apply Forall_app; split; [exact Hf | by constructor]).
  unfold count_in_super. destruct (toksuper p) as [i |].
  - split; [unfold len in *; rewrite length_alter, length_app; cbn [length]; lia |].
    apply Forall_alter; [exact Ha |]. intros x _ H. exact H.
  - split; [unfold len in *; rewrite length_app; cbn [length]; lia | exact Ha].
Qed.
Lemma open_in num t pos p : 0 <= pos -> toks_in num pos p -> step_in num (pos + 1) (open_token num t pos p).
Proof.
  intros Hp Hin. assert (Ht : tok_in (pos + 1) (MkTok t pos (-1) 0)) by (unfold tok_in; cbn; lia).
  pose proof (add_in num _ _ p (toks_in_le num pos (pos + 1) p ltac:(lia) Hin) Ht) as H.
  unfold open_token. destruct (add_token _ _ _); cbn; try contradiction; try exact I. exact H.
Qed.
Lemma value_in num t start stop pos p :
  0 <= start <= stop -> stop <= pos -> toks_in num pos p -> step_in num pos (value_token num t start stop p).
Proof.
  intros Hs Hp Hin. assert (Ht : tok_in pos (MkTok t start stop 0)) by (unfold tok_in; cbn; lia).
  pose proof (add_in num _ _ p Hin Ht) as H.
  unfold value_token. destruct (add_token _ _ _); cbn; try contradiction; try exact I. exact H.
Qed.
Lemma close_in num t pos p : toks_in num pos p -> step_in num (pos + 1) (close_token t (pos + 1) p).
Proof.
  intros Hin. pose proof (toks_in_le num pos (pos + 1) p ltac:(lia) Hin) as [Hl Hf]. destruct Hin as [_ Hf0].
  unfold close_token, last_open. destruct (last_index is_open (toks p) 0 None) as [i |] eqn:Ei; [| exact I].
  apply last_index_lookup in Ei as [Ei | (_ & x & Hx & _)]; [discriminate |]. rewrite Nat.sub_0_r in Hx. rewrite Hx.
  destruct (decide _); [| exact I]. split; cbn.
  - unfold len in *. rewrite length_insert. exact Hl.
  - apply Forall_insert; [exact Hf |]. pose proof (Forall_lookup_1 _ _ _ _ Hf0 Hx) as Ht. unfold tok_in in *. cbn. lia.
Qed.

Lemma parse_loop_in num fuel s pos p :
  (length s < fuel)%nat -> 0 <= pos -> toks_in num pos p ->
  step_in num (pos + len s) (scan_loop fuel num s pos p).
Proof.
  revert s pos p. induction fuel as [| fuel IH]; intros s pos p Hf Hp Hin; [lia |].
  destruct s as [| c rest]; [change (len []) with 0; by rewrite Z.add_0_r |].
  assert (Hnext : forall pos' rest' r, (length rest' < length (c :: rest))%nat -> 0 <= pos' ->
    pos' + len rest' = pos + len (c :: rest) -> step_in num pos' r ->
    step_in num (pos + len (c :: rest)) (p ← r; scan_loop fuel num rest' pos' p)).
  { intros pos' rest' [p' | | |] H1 H2 H3 H4; try contradiction; [| exact I]. cbn [mbind cres_bind].
    rewrite <- H3. apply IH; [cbn in *; lia | exact H2 | exact H4]. }
  assert (H1 : (length rest < length (c :: rest))%nat) by (cbn; lia).
  assert (H2 : pos + 1 + len rest = pos + len (c :: rest)) by (rewrite len_cons; lia).
  assert (Hin1 : toks_in num (pos + 1) p) by (eapply toks_in_le; [| exact Hin]; lia).
  cbn [scan_loop]. destruct (decide (c = x00)) as [-> | H0]; [eapply toks_in_le; [| exact Hin]; rewrite len_cons; pose_len; lia |].
  destruct ((byte_val c =? 123) || (byte_val c =? 91)) eqn:Eo; [apply Hnext; try lia; by apply open_in |].
  destruct ((byte_val c =? 125) || (byte_val c =? 93)) eqn:Ec; [apply Hnext; try lia; by apply close_in |].
  destruct (decide (c = c_dquote)) as [Hq | Hq].
  { pose proof (string_end_in InText rest (pos + 1)) as H. destruct (scan_string InText rest (pos + 1)) as [[stop r] | | |];
      try contradiction; [| exact I]. cbn [mbind cres_bind]. destruct H as (Ha & Hb & Hc).
    apply Hnext; [lia | lia | lia |]. apply value_in; [lia | lia |]. eapply toks_in_le; [| exact Hin]. lia. }
  destruct (is_blank c) eqn:Eb; [exact (Hnext (pos + 1) rest (Ok p) H1 ltac:(lia) H2 Hin1) |].
  destruct (byte_val c =? 58) eqn:E58; [exact (Hnext (pos + 1) rest (Ok (colon p)) H1 ltac:(lia) H2 Hin1) |].
  destruct (byte_val c =? 44) eqn:E44.
  { refine (Hnext (pos + 1) rest (Ok (comma p)) H1 ltac:(lia) H2 _). unfold comma.
    destruct (toksuper p) as [i |]; [| exact Hin1]. destruct (toks p !! i) as [t |]; [| exact Hin1].
    destruct (is_container t); exact Hin1. }
  pose proof (primitive_end_in (c :: rest) pos) as H. destruct (scan_primitive (c :: rest) pos) as [[stop r] | | |];
    try contradiction; [| exact I]. cbn [mbind cres_bind]. destruct H as (Ha & Hb & Hc).
  apply Hnext; [| lia | lia |].
  - apply Hc. split; [exact H0 |]. unfold ends_primitive. rewrite Eb. lia.
  - apply value_in; [lia | lia |]. eapply toks_in_le; [| exact Hin]. lia.
Qed.

Lemma next_blank js c rest pos :
  0 <= pos < 2 ^ 32 -> 2 ^ 32 <= len js -> forallb is_blank js = true -> bdrop pos js = c :: rest ->
  exists pos', next js rest pos = (bdrop pos' js, pos') /\ 0 <= pos' < 2 ^ 32.
Proof.
  intros Hp Hl Hb Hd. unfold next. pose proof (u32_range (pos + 1)) as Hr. destruct (u32 (pos + 1) =? 0) eqn:E.
  - exists 0. split; [| lia]. by replace (u32 (pos + 1)) with 0 by lia.
  - exists (u32 (pos + 1)). split; [| lia]. assert (Hs : pos + 1 < 2 ^ 32).
    { destruct (decide (pos + 1 = 2 ^ 32)) as [E1 |]; [| lia]. rewrite E1 in E. discriminate. }
    rewrite u32_small by lia. f_equal. unfold bdrop in *. replace (Z.to_nat (pos + 1)) with (Z.to_nat pos + 1)%nat by lia.
    by rewrite <- drop_drop, Hd.
Qed.
(** Behind the last position the loop comes back to the first one. *)
Lemma blanks_never_end fuel num js pos p :
  0 <= pos < 2 ^ 32 -> 2 ^ 32 <= len js -> forallb is_blank js = true ->
  parse_loop fuel num js (bdrop pos js) pos p = NoFuel.
Proof.
  revert pos. induction fuel as [| fuel IH]; intros pos Hp Hl Hb; [reflexivity |].
  destruct (bdrop pos js) as [| c rest] eqn:Ed.
  { assert (E : len (bdrop pos js) = 0) by (by rewrite Ed). rewrite len_bdrop in E by lia. lia. }
  destruct (next_blank js c rest pos Hp Hl Hb Ed) as (pos' & En & Hp').
  assert (Hc : is_blank c = true).
  { rewrite forallb_forall in Hb. apply Hb, list_elem_of_In. apply (list_elem_of_lookup_2 _ (Z.to_nat pos)).
    pose proof (lookup_drop js (Z.to_nat pos) 0) as E. unfold bdrop in Ed. by rewrite Ed, Nat.add_0_r in E. }
  pose proof (IH pos' Hp' Hl Hb) as E. cbn [parse_loop]. rewrite En, Hc. unfold is_blank in Hc.
  rewrite (decide_False (P := c = x00)) by (intros ->; discriminate).
  rewrite (decide_False (P := c = c_dquote)) by (intros ->; discriminate).
  replace ((byte_val c =? 123) || (byte_val c =? 91)) with false by lia.
  replace ((byte_val c =? 125) || (byte_val c =? 93)) with false by lia. exact E.
Qed.

(** C40: The tokeniser ends on every text of fewer than 2^31 characters, reads nothing outside it
    and overruns no array of tokens: it either reports an error, or gives at most as many
    tokens as there is room for, each with a piece of the text. Of 2^32 blanks and more it
    never reaches the end. *)
Theorem jsmn_parse_tokens js num :
  (len js < 2 ^ 31 ->
   match jsmn_parse js num with
   | Ok l => len l <= Z.max 0 num /\
       Forall (fun t => 0 <= tok_start t <= tok_end t /\ tok_end t <= len js) l
   | Err _ => True
   | Undef | NoFuel => False
   end) /\
  (2 ^ 32 <= len js -> forallb is_blank js = true ->
   forall fuel, parse_loop fuel num js js 0 jsmn_init = NoFuel).
Proof.
  split; [| intros Hl Hb fuel; by apply (blanks_never_end fuel num js 0)].
  intros Hsmall. rewrite jsmn_parse_scan by exact Hsmall. pose proof (parse_loop_in num (S (length js)) js 0 jsmn_init ltac:(lia) ltac:(lia)) as H.
  assert (Hi : toks_in num 0 jsmn_init) by (split; [change (len (toks jsmn_init)) with 0; lia | constructor]).
  specialize (H Hi). rewrite Z.add_0_l in H.
  destruct (scan_loop _ _ _ _ _) as [p | | |]; try contradiction; [| exact I]. cbn [mbind cres_bind].
  destruct (existsb is_open (toks p)) eqn:E; [exact I |]. destruct H as [Hl Hf]. split; [exact Hl |].
  clear Hl Hi. induction Hf as [| t l Ht Hf IH]; [constructor |]. cbn [existsb] in E.
  apply orb_false_iff in E as [Et E]. constructor; [| apply IH, E].
  unfold tok_in in Ht. unfold is_open in Et. destruct Ht as [Hs [He | He]]; [| lia].
  rewrite He in Et. replace (tok_start t =? -1) with false in Et by lia. discriminate.
Qed.

Lemma jsmn_parse_tokens_witness :
  Forall (fun t => 0 <= tok_start t <= tok_end t /\ tok_end t <= 13)
    [MkTok JSMN_OBJECT 0 13 1; MkTok JSMN_STRING 2 3 1; MkTok JSMN_ARRAY 5 12 2; MkTok JSMN_PRIMITIVE 6 8 0; MkTok JSMN_PRIMITIVE 9 11 0] /\
  forall n fuel, 2 ^ 32 <= Z.of_nat n -> parse_loop fuel 8 (replicate n (byte_of 32)) (replicate n (byte_of 32)) 0 jsmn_init = NoFuel.
Proof.
  split.
  - exact (proj2 (proj1 (jsmn_parse_tokens ([byte_of 123; c_dquote] ++ str "k" ++ [c_dquote] ++ str ":[12,34]}") 8) eq_refl)).
  - intros n fuel Hn. apply jsmn_parse_tokens.
    + unfold len. by rewrite length_replicate.
    + clear. by induction n.
Defined.
