(* ===== verification/JsonShape.v ===== *)
(** The tokens of a text known by its pieces: their kinds and texts in order, the sizes of
    arrays of strings, and that a well-nested text has tokens. *)

From S2P Require Import Prelude Libc Jsmn.

(** The kind and the text of a token. *)
Abbreviation tshape := (jsmntype * option bytes)%type.
Definition shape (v : vtok) : tshape := (v_type v, v_text v).
Definition piece_shape (p : piece) : option tshape :=
  match p with
  | Open t => Some (t, None)
  | Str s => Some (JSMN_STRING, Some s)
  | Prim s => Some (JSMN_PRIMITIVE, Some s)
  | _ => None
  end.
Definition shapes (ps : list piece) : list tshape := omap piece_shape ps.

Lemma shapes_app a b : shapes (a ++ b) = shapes a ++ shapes b.
Proof. apply omap_app. Qed.

Lemma alter_more_shape i l : map shape (alter v_more i l) = map shape l.
Proof.
  revert i. induction l as [| v l IH]; intros [| i]; [reflexivity | reflexivity | reflexivity |].
  change (shape v :: map shape (alter v_more i l) = shape v :: map shape l). by rewrite IH.
Qed.
Lemma alter_more_types i l :
  map v_type (List.filter v_open (alter v_more i l)) = map v_type (List.filter v_open l).
Proof.
  revert i. induction l as [| v l IH]; intros [| i]; [reflexivity | reflexivity | |].
  - change (alter v_more 0 (v :: l)) with (v_more v :: l). cbn [List.filter]. cbn [v_more v_open].
    destruct (v_open v) eqn:E; cbn; rewrite ?E; reflexivity.
  - change (alter v_more (S i) (v :: l)) with (v :: alter v_more i l). cbn [List.filter].
    destruct (v_open v); cbn [map]; by rewrite IH.
Qed.

Lemma v_add_ok num t st :
  len (vs_toks st) < num ->
  exists l, v_add num t st = Ok l /\ map shape l = map shape (vs_toks st) ++ [shape t] /\
    map v_type (List.filter v_open l) =
    map v_type (List.filter v_open (vs_toks st)) ++ (if v_open t then [v_type t] else []).
Proof.
  intros H. unfold v_add. replace (num <=? len (vs_toks st)) with false by lia.
  assert (E : map v_type (List.filter v_open (vs_toks st ++ [t])) =
    map v_type (List.filter v_open (vs_toks st)) ++ (if v_open t then [v_type t] else [])).
  { rewrite List.filter_app, map_app. cbn. by destruct (v_open t). }
  destruct (vs_super st) as [i |]; eexists; (split; [reflexivity |]);
    rewrite ?alter_more_shape, ?alter_more_types, map_app; auto.
Qed.

(** ** Nesting *)

(** The objects and arrays that are open, the innermost first. *)
Fixpoint nesting (stack : list jsmntype) (ps : list piece) : option (list jsmntype) :=
  match ps with
  | [] => Some stack
  | Open t :: ps => nesting (t :: stack) ps
  | Close t :: ps =>
      match stack with
      | u :: stack => if decide (u = t) then nesting stack ps else None
      | [] => None
      end
  | _ :: ps => nesting stack ps
  end.
Definition open_types (l : list vtok) : list jsmntype := rev (map v_type (List.filter v_open l)).

Lemma nesting_app s a b : nesting s (a ++ b) = s' ← nesting s a; nesting s' b.
Proof.
  revert s. induction a as [| p a IH]; intros s; [reflexivity |].
  destruct p; cbn [app nesting]; try apply IH. destruct s as [| u s]; [reflexivity |].
  case_decide; [apply IH | reflexivity].
Qed.

Lemma v_last_app f a b i acc : v_last f (a ++ b) i acc = v_last f b (i + length a) (v_last f a i acc).
Proof.
  revert i acc. induction a as [| x a IH]; intros i acc; cbn; [by rewrite Nat.add_0_r |].
  rewrite IH. f_equal. lia.
Qed.
Lemma v_last_none f l i acc : List.filter f l = [] -> v_last f l i acc = acc.
Proof.
  revert i acc. induction l as [| x l IH]; intros i acc H; [reflexivity |]. cbn in *.
  destruct (f x); [discriminate | by apply IH].
Qed.
(** The innermost one. *)
Lemma innermost l t stack :
  open_types l = t :: stack ->
  exists a v b, l = a ++ v :: b /\ v_open v = true /\ v_type v = t /\ List.filter v_open b = [] /\
    v_last v_open l 0 None = Some (length a) /\ open_types a = stack.
Proof.
  revert t stack. induction l as [| x l IH] using rev_ind; intros t stack H; [discriminate |].
  unfold open_types in H. rewrite List.filter_app, map_app, rev_app_distr in H. cbn [List.filter] in H.
  destruct (v_open x) eqn:Ex; cbn in H.
  - injection H as Ht Hs. exists l, x, []. rewrite v_last_app. cbn. rewrite Ex. auto 7.
  - destruct (IH t stack H) as (a & v & b & -> & Hv & Ht & Hb & Hl & Ha). exists a, v, (b ++ [x]).
    rewrite <- app_assoc. split; [reflexivity |]. rewrite List.filter_app, Hb. cbn [List.filter app]. rewrite Ex.
    split_and!; [exact Hv | exact Ht | reflexivity | | exact Ha].
    change (a ++ v :: b ++ [x]) with (a ++ (v :: b) ++ [x]). rewrite app_assoc, v_last_app, Hl. cbn. by rewrite Ex.
Qed.

Lemma close_shape i v l :
  l !! i = Some v -> map shape (<[i := MkV (v_type v) (v_text v) (v_size v) false]> l) = map shape l.
Proof.
  intros H. rewrite <- (list_insert_id _ _ _ H) at 2. generalize (lookup_lt_Some _ _ _ H). clear.
  revert i. induction l as [| x l IH]; intros [| i] H; cbn in *; [lia | lia | reflexivity |].
  f_equal. apply IH. lia.
Qed.

Definition well_shaped (st : vstate) (stack : list jsmntype) (l : list tshape) : Prop :=
  open_types (vs_toks st) = stack /\ map shape (vs_toks st) = l.

Lemma v_close_ok num t st stack l :
  well_shaped st (t :: stack) l ->
  exists st', v_step num (Close t) st = Ok st' /\ well_shaped st' stack l.
Proof.
  intros [Hs Hl]. destruct (innermost _ _ _ Hs) as (a & v & b & Ht & Hv & Hty & Hb & Hlast & Ha).
  cbn [v_step]. rewrite Hlast, Ht, (list_lookup_middle a b v _ eq_refl), decide_True by exact Hty.
  eexists. split; [reflexivity |]. split.
  - rewrite insert_app_r_alt, Nat.sub_diag by lia. cbn [insert list_insert].
    unfold open_types in *. cbn [vs_toks]. rewrite List.filter_app. cbn [List.filter v_open]. rewrite Hb, app_nil_r. exact Ha.
  - cbn [vs_toks]. rewrite close_shape by (by apply list_lookup_middle). rewrite <- Ht. exact Hl.
Qed.
Lemma v_step_ok num p st stack stack' l :
  well_shaped st stack l -> nesting stack [p] = Some stack' -> len l + len (shapes [p]) <= num ->
  exists st', v_step num p st = Ok st' /\ well_shaped st' stack' (l ++ shapes [p]).
Proof.
  intros Hw Hn Hlen. pose proof Hw as [Hs Hl].
  assert (Hadd : forall t f, piece_shape p = Some (shape t) ->
    exists l', v_add num t st = Ok l' /\
      well_shaped (MkVS (f : option nat) l') ((if v_open t then [v_type t] else []) ++ stack) (l ++ shapes [p])).
  { intros t f Hp. unfold shapes in *. cbn [omap list_omap] in *. rewrite Hp in *. rewrite <- Hl, len_map in Hlen.
    change (len [shape t]) with 1 in Hlen. destruct (v_add_ok num t st ltac:(lia)) as (l' & -> & Hsh & Hty).
    exists l'. split; [reflexivity |]. split; cbn [vs_toks]; [| by rewrite Hsh, Hl].
    unfold open_types in *. rewrite Hty, rev_app_distr, Hs. by destruct (v_open t). }
  destruct p as [t | t | s | s | | | s]; cbn [shapes omap list_omap piece_shape] in *; rewrite ?app_nil_r in *.
  - injection Hn as <-. destruct (Hadd (MkV t None 0 true) (Some (length (vs_toks st))) eq_refl) as (l' & E & H).
    cbn [v_step]. rewrite E. eexists. split; [reflexivity | exact H].
  - destruct stack as [| u stack]; [discriminate |]. cbn [nesting] in Hn. case_decide; [| discriminate]. simplify_eq.
    by eapply v_close_ok.
  - injection Hn as <-. destruct (Hadd (MkV JSMN_STRING (Some s) 0 false) (vs_super st) eq_refl) as (l' & E & H).
    cbn [v_step]. rewrite E. eexists. split; [reflexivity | exact H].
  - injection Hn as <-. destruct (Hadd (MkV JSMN_PRIMITIVE (Some s) 0 false) (vs_super st) eq_refl) as (l' & E & H).
    cbn [v_step]. rewrite E. eexists. split; [reflexivity | exact H].
  - injection Hn as <-. eexists. split; [reflexivity |]. by rewrite ?app_nil_r.
  - injection Hn as <-. cbn [v_step]. eexists. split; [reflexivity |].
    destruct (vs_super st) as [i |]; [| exact Hw]. destruct (vs_toks st !! i); [| exact Hw]. by destruct (v_container _).
  - injection Hn as <-. eexists. split; [reflexivity |]. by rewrite ?app_nil_r.
Qed.
Lemma v_run_ok num ps st stack stack' l :
  well_shaped st stack l -> nesting stack ps = Some stack' -> len l + len (shapes ps) <= num ->
  exists st', v_run num ps st = Ok st' /\ well_shaped st' stack' (l ++ shapes ps).
Proof.
  revert st stack l. induction ps as [| p ps IH]; intros st stack l Hw Hn Hl.
  { injection Hn as <-. exists st. by rewrite app_nil_r. }
  change (p :: ps) with ([p] ++ ps) in *. rewrite nesting_app in Hn. rewrite shapes_app, len_app in Hl.
  destruct (nesting stack [p]) as [s1 |] eqn:E1; [| discriminate].
  destruct (v_step_ok num p st stack s1 l Hw E1) as (st1 & Hst & Hw1); [pose proof (len_nonneg (shapes ps)); lia |].
  destruct (IH st1 s1 (l ++ shapes [p]) Hw1 Hn) as (st' & Hr & Hw'); [rewrite len_app; lia |].
  exists st'. rewrite shapes_app, app_assoc. split; [| exact Hw']. cbn [app v_run]. rewrite Hst. exact Hr.
Qed.
Lemma v_run_app num a b st : v_run num (a ++ b) st = st ← v_run num a st; v_run num b st.
Proof.
  revert st. induction a as [| p a IH]; intros st; [reflexivity |]. cbn [app v_run].
  destruct (v_step num p st); cbn [mbind cres_bind]; auto.
Qed.

(** ** Sizes of arrays *)

(** Strings, and what stands between them. *)
Definition is_item (p : piece) : bool :=
  match p with Str _ | Comma | Blank _ => true | _ => false end.
(** A token comes before the first colon. *)
Fixpoint token_first (ps : list piece) : bool :=
  match ps with
  | [] => true
  | (Comma | Blank _ | Close _) :: ps => token_first ps
  | Colon :: _ => false
  | _ => true
  end.

(** The [n]-th token is closed, and nothing counts in it any more. *)
Definition at_rest (n : nat) (v : vtok) (st : vstate) : Prop :=
  vs_toks st !! n = Some v /\ v_open v = false /\ v_container v = true /\ vs_super st <> Some n.

Lemma v_last_spec f l i acc :
  v_last f l i acc = acc \/ exists j v, v_last f l i acc = Some (i + j)%nat /\ l !! j = Some v /\ f v = true.
Proof.
  revert i acc. induction l as [| x l IH]; intros i acc; cbn; [by left |].
  destruct (IH (S i) (if f x then Some i else acc)) as [E | (j & v & E & Hv)].
  - rewrite E. destruct (f x) eqn:Ex; [right; exists O, x; split; [f_equal; lia | auto] | by left].
  - right. exists (S j), v. split; [rewrite E; f_equal; lia | exact Hv].
Qed.
Lemma v_last_ne f l n v acc :
  l !! n = Some v -> f v = false -> acc <> Some n -> v_last f l 0 acc <> Some n.
Proof.
  intros Hl Hf Ha. destruct (v_last_spec f l 0 acc) as [-> | (j & u & -> & Hj & Hu)]; [exact Ha |].
  intros E. injection E as E. assert (j = n) by lia. subst j. congruence.
Qed.

Lemma add_at_rest n v num t st l :
  at_rest n v st -> v_add num t st = Ok l ->
  l !! n = Some v /\ length l = S (length (vs_toks st)).
Proof.
  intros (Hn & _ & _ & Hs) H. unfold v_add in H. case_match; [discriminate |]. injection H as <-.
  assert (Ha : (vs_toks st ++ [t]) !! n = Some v) by (by apply lookup_app_l_Some).
  destruct (vs_super st) as [i |]; [| split; [exact Ha | rewrite length_app; cbn; lia]].
  rewrite length_alter, length_app. split; [| cbn; lia].
  rewrite list_lookup_alter_ne by congruence. exact Ha.
Qed.
Lemma step_at_rest n v num p st st' :
  at_rest n v st -> v_step num p st = Ok st' ->
  (match p with Colon => (S n < length (vs_toks st))%nat | _ => True end) ->
  at_rest n v st' /\
  match p with
  | Open _ | Str _ | Prim _ => (S n < length (vs_toks st'))%nat
  | _ => length (vs_toks st') = length (vs_toks st)
  end.
Proof.
  intros Hr H Hc. pose proof Hr as (Hn & Ho & Hk & Hs). pose proof (lookup_lt_Some _ _ _ Hn) as Hlt.
  destruct p as [t | t | s | s | | | s]; cbn [v_step] in H.
  1, 3, 4: apply bind_ok in H as (l & Hl & H); injection H as <-;
    destruct (add_at_rest n v num _ _ _ Hr Hl) as [Hln Hll]; cbn [vs_toks vs_super];
    (split; [split_and!; auto; cbn; intros E; injection E; lia | lia]).
  - case_match eqn:El; [| discriminate]. case_match eqn:Ev; [| discriminate]. case_decide; [| discriminate].
    injection H as <-. unfold at_rest. cbn [vs_toks vs_super]. rewrite length_insert.
    match goal with E : v_last _ _ _ _ = Some ?i |- _ => rename E into El; assert (Hi : i <> n) by
      (intros ->; revert El; by apply (v_last_ne v_open _ n v)) end.
    assert (Hn' : forall x, <[_ := x]> (vs_toks st) !! n = Some v) by
      (intros x; rewrite (list_lookup_insert_ne _ _ _ _ Hi); exact Hn).
    split; [| reflexivity]. split_and!; auto. eapply v_last_ne; [apply Hn' | exact Ho | discriminate].
  - injection H as <-. split; [| reflexivity]. split_and!; auto. cbn [vs_super].
    destruct (length (vs_toks st)); [discriminate |]. intros E. injection E. lia.
  - injection H as <-. destruct (vs_super st) as [i |] eqn:Es; [| split; [exact Hr | reflexivity]].
    destruct (vs_toks st !! i) as [u |]; [| split; [exact Hr | reflexivity]].
    destruct (v_container u); [split; [exact Hr | reflexivity] |]. split; [| reflexivity]. split_and!; auto.
    cbn [vs_super]. pose proof (v_last_ne (fun t => v_container t && v_open t) _ n v None Hn) as Hne.
    cbn beta in Hne. rewrite Ho, andb_false_r in Hne. specialize (Hne eq_refl ltac:(discriminate)).
    destruct (v_last _ _ _ _); congruence.
  - injection H as <-. split; [exact Hr | reflexivity].
Qed.
Lemma run_at_rest n v num ps st st' :
  at_rest n v st -> v_run num ps st = Ok st' -> (S n < length (vs_toks st))%nat \/ token_first ps = true ->
  at_rest n v st'.
Proof.
  revert st. induction ps as [| p ps IH]; intros st Hr H Ht; [by injection H as <- |].
  cbn [v_run] in H. apply bind_ok in H as (st1 & H1 & H).
  assert (Hp : match p with Colon => (S n < length (vs_toks st))%nat | _ => True end).
  { destruct p; try exact I. destruct Ht as [Ht | Ht]; [exact Ht | discriminate]. }
  destruct (step_at_rest n v num p st st1 Hr H1 Hp) as [Hr1 Hlen]. apply (IH st1 Hr1 H).
  destruct p; try (left; lia); destruct Ht as [Ht | Ht]; try (left; lia); right; exact Ht.
Qed.

(** Strings in an open array count in it. *)
Lemma items_counted num ps n v st st' :
  forallb is_item ps = true -> v_run num ps st = Ok st' ->
  vs_super st = Some n -> vs_toks st !! n = Some v -> v_container v = true ->
  exists v', vs_super st' = Some n /\ vs_toks st' !! n = Some v' /\ v_type v' = v_type v /\
    v_open v' = v_open v /\ v_size v' = v_size v + len (shapes ps) /\
    List.filter v_open (drop (S n) (vs_toks st')) = List.filter v_open (drop (S n) (vs_toks st)).
Proof.
  revert st v. induction ps as [| p ps IH]; intros st v Hi H Hs Hn Hc.
  { injection H as <-. exists v. change (len (shapes [])) with 0. rewrite Z.add_0_r. auto 7. }
  apply andb_true_iff in Hi as [Hp Hi]. cbn [v_run] in H. apply bind_ok in H as (st1 & H1 & H).
  change (p :: ps) with ([p] ++ ps). rewrite shapes_app, len_app.
  assert (Hkeep : st1 = st -> len (shapes [p]) = 0 -> exists v', vs_super st' = Some n /\ vs_toks st' !! n = Some v' /\ v_type v' = v_type v /\
    v_open v' = v_open v /\ v_size v' = v_size v + (len (shapes [p]) + len (shapes ps)) /\
    List.filter v_open (drop (S n) (vs_toks st')) = List.filter v_open (drop (S n) (vs_toks st))).
  { intros -> ->. by apply IH. }
  destruct p as [t | t | s | s | | | s]; try discriminate; cbn [v_step] in H1.
  - apply bind_ok in H1 as (l & Hl & H1). injection H1 as <-. unfold v_add in Hl. rewrite Hs in Hl.
    case_match; [discriminate |]. injection Hl as <-. pose proof (lookup_lt_Some _ _ _ Hn) as Hlt.
    destruct (IH (MkVS (Some n) (alter v_more n (vs_toks st ++ [MkV JSMN_STRING (Some s) 0 false]))) (v_more v)) as (v' & E1 & E2 & E3 & E4 & E5 & E6);
      [exact Hi | by rewrite <- Hs at 1 | reflexivity | | exact Hc |].
    { cbn [vs_toks]. rewrite list_lookup_alter, decide_True, lookup_app_l, Hn by done. reflexivity. }
    exists v'. split_and!; auto.
    + rewrite E5. change (len (shapes [Str s])) with 1. cbn. lia.
    + rewrite E6. cbn [vs_toks]. rewrite drop_alter, decide_False, drop_app_le by lia.
      rewrite List.filter_app. cbn. by rewrite app_nil_r.
  - apply Hkeep; [| reflexivity]. rewrite Hs, Hn, Hc in H1. by injection H1 as <-.
  - apply Hkeep; [by injection H1 as <- | reflexivity].
Qed.

Definition super_in (st : vstate) : Prop :=
  match vs_super st with Some i => (i < length (vs_toks st))%nat | None => True end.
Lemma v_last_in f l acc :
  match acc with Some i => (i < length l)%nat | None => True end ->
  match v_last f l 0 acc with Some i => (i < length l)%nat | None => True end.
Proof.
  intros Ha. destruct (v_last_spec f l 0 acc) as [-> | (j & v & -> & Hj & _)]; [exact Ha |].
  apply (lookup_lt_Some _ _ _ Hj).
Qed.
Lemma step_length num p st st' :
  super_in st -> v_step num p st = Ok st' ->
  super_in st' /\ length (vs_toks st') = (length (vs_toks st) + length (shapes [p]))%nat.
Proof.
  intros Hs H.
  assert (Hadd : forall t l, v_add num t st = Ok l -> length l = S (length (vs_toks st))).
  { intros t l Hl. unfold v_add in Hl. case_match; [discriminate |]. injection Hl as <-.
    destruct (vs_super st); rewrite ?length_alter, length_app; cbn; lia. }
  destruct p as [t | t | s | s | | | s]; cbn [v_step] in H.
  1, 3, 4: apply bind_ok in H as (l & Hl & H); injection H as <-; unfold super_in in *; cbn [vs_toks vs_super];
    rewrite (Hadd _ _ Hl); (split; [| cbn; lia]); first [lia | by destruct (vs_super st); [lia |] | cbn; lia].
  - case_match eqn:El; [| discriminate]. case_match; [| discriminate]. case_decide; [| discriminate].
    injection H as <-. unfold super_in. cbn [vs_toks vs_super]. split; [by apply v_last_in | rewrite length_insert; cbn; lia].
  - injection H as <-. unfold super_in. cbn [vs_toks vs_super]. split; [| cbn; lia]. destruct (length _); [exact I | lia].
  - injection H as <-. assert (Hst : super_in st /\ length (vs_toks st) = (length (vs_toks st) + length (shapes [Comma]))%nat)
      by (split; [exact Hs | cbn; lia]).
    destruct (vs_super st) as [i |] eqn:Es; [| exact Hst]. destruct (vs_toks st !! i) as [u |] eqn:Eu; [| exact Hst].
    destruct (v_container u); [exact Hst |]. split; [| cbn; lia]. unfold super_in. cbn [vs_toks vs_super].
    pose proof (v_last_in (fun t => v_container t && v_open t) (vs_toks st) None I) as Hl.
    destruct (v_last _ _ 0 None); [exact Hl | by apply (lookup_lt_Some _ _ _ Eu)].
  - injection H as <-. split; [exact Hs | cbn; lia].
Qed.
Lemma run_length num ps st st' :
  super_in st -> v_run num ps st = Ok st' ->
  super_in st' /\ length (vs_toks st') = (length (vs_toks st) + length (shapes ps))%nat.
Proof.
  revert st. induction ps as [| p ps IH]; intros st Hs H; [injection H as <-; split; [exact Hs | cbn; lia] |].
  cbn [v_run] in H. apply bind_ok in H as (st1 & H1 & H). destruct (step_length _ _ _ _ Hs H1) as [Hs1 Hl1].
  destruct (IH st1 Hs1 H) as [Hs' Hl']. split; [exact Hs' |].
  change (p :: ps) with ([p] ++ ps). rewrite shapes_app, length_app. lia.
Qed.

(** An array of strings, where it stands. *)
Lemma array_run num items st st' :
  forallb is_item items = true -> super_in st ->
  v_run num (Open JSMN_ARRAY :: items ++ [Close JSMN_ARRAY]) st = Ok st' ->
  exists v, at_rest (length (vs_toks st)) v st' /\ v_type v = JSMN_ARRAY /\ v_size v = len (shapes items).
Proof.
  intros Hi Hin H. cbn [v_run v_step] in H. apply bind_ok in H as (st1 & H1 & H).
  apply bind_ok in H1 as (l & Hl & H1). injection H1 as <-. unfold v_add in Hl. case_match; [discriminate |].
  injection Hl as Hl. set (n := length (vs_toks st)) in *. set (v0 := MkV JSMN_ARRAY None 0 true) in *.
  assert (Hn : l !! n = Some v0 /\ length l = S n).
  { unfold super_in in Hin. destruct (vs_super st) as [i |]; subst l; rewrite ?length_alter, length_app;
      (split; [| cbn; lia]); rewrite ?list_lookup_alter_ne by lia;
      rewrite lookup_app_r by (unfold n; lia); unfold n; by rewrite Nat.sub_diag. }
  destruct Hn as [Hn Hlen]. rewrite v_run_app in H. apply bind_ok in H as (st2 & H2 & H).
  destruct (items_counted num items n v0 _ _ Hi H2 eq_refl Hn eq_refl) as (v & _ & Hv & Ht & Ho & Hsz & Hf).
  cbn [vs_toks] in Hf. rewrite (drop_ge l) in Hf by lia. cbn [List.filter] in Hf.
  assert (Hlast : v_last v_open (vs_toks st2) 0 None = Some n).
  { rewrite <- (take_drop_middle _ _ _ Hv) at 1. rewrite v_last_app. cbn [v_last]. rewrite Ho. cbn [v_open v0].
    rewrite v_last_none by exact Hf. rewrite length_take. pose proof (lookup_lt_Some _ _ _ Hv). f_equal. lia. }
  cbn [v_run v_step] in H. rewrite Hlast, Hv, decide_True in H by exact Ht. injection H as <-.
  exists (MkV (v_type v) (v_text v) (v_size v) false). pose proof (lookup_lt_Some _ _ _ Hv) as Hlt.
  assert (Hi' : <[n := MkV (v_type v) (v_text v) (v_size v) false]> (vs_toks st2) !! n = Some (MkV (v_type v) (v_text v) (v_size v) false))
    by (by apply list_lookup_insert_eq).
  split; [| split; [exact Ht | exact Hsz]].
  split; [exact Hi' |]. split; [reflexivity |]. split; [unfold v_container; cbn; by rewrite Ht |].
  cbn [vs_super]. by eapply v_last_ne; [exact Hi' | |].
Qed.
(** The size of an array of strings. *)
Lemma array_size num a items b st :
  v_run num (a ++ (Open JSMN_ARRAY :: items ++ [Close JSMN_ARRAY]) ++ b) (MkVS None []) = Ok st ->
  forallb is_item items = true -> token_first b = true ->
  exists v, vs_toks st !! length (shapes a) = Some v /\ v_type v = JSMN_ARRAY /\ v_size v = len (shapes items).
Proof.
  intros H Hi Hb. rewrite v_run_app in H. apply bind_ok in H as (st1 & H1 & H).
  rewrite v_run_app in H. apply bind_ok in H as (st2 & H2 & H).
  destruct (run_length _ _ _ _ (I : super_in (MkVS None [])) H1) as [Hs1 Hl1].
  destruct (array_run _ _ _ _ Hi Hs1 H2) as (v & Hr & Ht & Hsz).
  apply (run_at_rest _ _ _ _ _ _ Hr) in H; [| by right]. exists v.
  cbn [vs_toks length] in Hl1. rewrite Nat.add_0_l in Hl1. rewrite <- Hl1. destruct H as (Hv & _). auto.
Qed.

(** ** The tokens of a text *)

Lemma jsmn_parse_shapes num ps :
  pieces_ok ps = true -> nesting [] ps = Some [] -> len (shapes ps) <= num -> len (render_all ps) < 2 ^ 31 ->
  exists st l, v_run num ps (MkVS None []) = Ok st /\ jsmn_parse (render_all ps) num = Ok l /\
    Forall2 (tok_matches (render_all ps)) l (vs_toks st) /\ map shape (vs_toks st) = shapes ps.
Proof.
  intros Hok Hn Hl Hlen. assert (Hw : well_shaped (MkVS None []) [] []) by (split; reflexivity).
  destruct (v_run_ok num ps _ [] [] [] Hw Hn) as (st & Hr & Ho & Hsh); [change (len (@nil tshape)) with 0; lia |].
  pose proof (jsmn_parse_pieces num ps Hok Hlen) as H. unfold v_parse in H. rewrite Hr in H. cbn [mbind cres_bind] in H.
  assert (E : existsb v_open (vs_toks st) = false).
  { apply not_true_iff_false. intros (x & Hx & Hxo)%existsb_exists. unfold open_types in Ho.
    apply (f_equal (@length _)) in Ho. rewrite length_rev, length_map in Ho.
    assert (Hf : In x (List.filter v_open (vs_toks st))) by (by apply List.filter_In).
    destruct (List.filter v_open (vs_toks st)); [exact Hf | discriminate]. }
  rewrite E in H. destruct H as (l & Hp & Hf). exists st, l. auto.
Qed.
