(* ===== verification/Vector.v ===== *)
(** The growable array of the peer library (libp2p/utils/vector.h, a submodule
    of the repository): operations, laws, and the index loops the program runs
    over it. *)

From S2P Require Import Prelude.

(** [vector_get] of an index outside of the array is NULL. *)
Class Libp2pVector := {
  vector : Type -> Type;
  libp2p_utils_vector_new : forall A, Z -> vector A;
  vector_total : forall A, vector A -> Z;
  libp2p_utils_vector_get : forall A, vector A -> Z -> option A;
  libp2p_utils_vector_add : forall A, vector A -> A -> vector A;
  libp2p_utils_vector_delete : forall A, vector A -> Z -> vector A
}.
Arguments libp2p_utils_vector_new {_} A _.
Arguments vector_total {_ A} _.
Arguments libp2p_utils_vector_get {_ A} _ _.
Arguments libp2p_utils_vector_add {_ A} _ _.
Arguments libp2p_utils_vector_delete {_ A} _ _.

(** The items of a vector, in order. *)
Class Libp2pVectorLaws (VE : Libp2pVector) := {
  items : forall A, vector A -> list A;
  items_new A n : items A (libp2p_utils_vector_new A n) = [];
  vector_total_items A (v : vector A) : vector_total v = len (items A v);
  vector_get_items A (v : vector A) i :
    0 <= i -> libp2p_utils_vector_get v i = items A v !! Z.to_nat i;
  items_add A (v : vector A) a : items A (libp2p_utils_vector_add v a) = items A v ++ [a];
  items_delete A (v : vector A) i :
    0 <= i -> items A (libp2p_utils_vector_delete v i) = list_delete (Z.to_nat i) (items A v)
}.
Arguments items {_ _ A} _.

#[export] Instance list_vector : Libp2pVector := {|
  vector := list;
  libp2p_utils_vector_new A _ := [];
  vector_total A v := len v;
  libp2p_utils_vector_get A v i := if i <? 0 then None else v !! Z.to_nat i;
  libp2p_utils_vector_add A v a := v ++ [a];
  libp2p_utils_vector_delete A v i := if i <? 0 then v else list_delete (Z.to_nat i) v
|}.

#[export] Instance list_vector_laws : Libp2pVectorLaws list_vector.
Proof.
  refine {| items A (v : @vector list_vector A) := v |}; cbn; try reflexivity;
    intros A v i Hi; replace (i <? 0) with false by lia; reflexivity.
Defined.

(** ** Loops *)

Section Loops.
Context {VE : Libp2pVector}.

(** [for (int i = 0; i < v->total; i++) { a = get(v, i); body }], where the
    body leaves [v] alone. *)
Section Fold.
Context {E A S : Type} (body : A -> S -> cres E S) (v : vector A).

Fixpoint vector_loop_from (fuel : nat) (i : Z) (s : S) : cres E S :=
  match fuel with
  | O => NoFuel
  | Datatypes.S fuel =>
      if i <? vector_total v then
        match libp2p_utils_vector_get v i with
        | None => Undef
        | Some a => s ← body a s; vector_loop_from fuel (i + 1) s
        end
      else Ok s
  end.
Definition vector_loop (s : S) : cres E S :=
  vector_loop_from (Datatypes.S (Z.to_nat (vector_total v))) 0 s.
End Fold.

(** The same loop left at the first item that passes a test. *)
Section Search.
Context {E A : Type} (test : A -> cres E bool) (v : vector A).

Fixpoint vector_search_from (fuel : nat) (i : Z) : cres E (option A) :=
  match fuel with
  | O => NoFuel
  | S fuel =>
      if i <? vector_total v then
        match libp2p_utils_vector_get v i with
        | None => Undef
        | Some a =>
            found ← test a;
            if (found : bool) then Ok (Some a) else vector_search_from fuel (i + 1)
        end
      else Ok None
  end.
Definition vector_search : cres E (option A) :=
  vector_search_from (S (Z.to_nat (vector_total v))) 0.
End Search.

(** What the loops compute on the items. *)
Fixpoint list_loop {E A S} (body : A -> S -> cres E S) (l : list A) (s : S) : cres E S :=
  match l with
  | [] => Ok s
  | a :: l => s ← body a s; list_loop body l s
  end.

Fixpoint list_search {E A} (test : A -> cres E bool) (l : list A) : cres E (option A) :=
  match l with
  | [] => Ok None
  | a :: l => found ← test a; if (found : bool) then Ok (Some a) else list_search test l
  end.

Context `{!Libp2pVectorLaws VE}.

Lemma vector_lookup_drop {A} (v : vector A) i a l :
  drop i (items v) = a :: l ->
  (Z.of_nat i <? vector_total v) = true /\
  libp2p_utils_vector_get v (Z.of_nat i) = Some a /\ drop (S i) (items v) = l.
Proof.
  intros Hd. assert (items v !! i = Some a) as Hl.
  { rewrite <- (Nat.add_0_r i), <- lookup_drop, Hd. reflexivity. }
  split_and!.
  - pose proof (lookup_lt_Some _ _ _ Hl). rewrite vector_total_items. unfold len. lia.
  - rewrite vector_get_items, Nat2Z.id by lia. exact Hl.
  - rewrite <- Nat.add_1_r, <- drop_drop, Hd. reflexivity.
Qed.
Lemma vector_end {A} (v : vector A) i :
  drop i (items v) = [] -> (Z.of_nat i <? vector_total v) = false.
Proof.
  intros Hd. apply (f_equal length) in Hd. rewrite length_drop in Hd. cbn in Hd.
  rewrite vector_total_items. unfold len. lia.
Qed.

Lemma vector_loop_items {E A S} (body : A -> S -> cres E S) (v : vector A) s :
  vector_loop body v s = list_loop body (items v) s.
Proof.
  unfold vector_loop.
  assert (forall l fuel i s, drop i (items v) = l -> (length l < fuel)%nat ->
    vector_loop_from body v fuel (Z.of_nat i) s = list_loop body l s) as Hloop.
  { induction l as [| a l IH]; intros [| fuel] i s' Hd Hf; cbn in Hf; try lia;
      cbn [vector_loop_from list_loop].
    - rewrite (vector_end _ _ Hd). reflexivity.
    - destruct (vector_lookup_drop _ _ _ _ Hd) as (-> & -> & Hd').
      destruct (body a s'); cbn; try reflexivity.
      replace (Z.of_nat i + 1) with (Z.of_nat (Datatypes.S i)) by lia.
      apply IH; [exact Hd' | lia]. }
  apply (Hloop _ _ O); [reflexivity |].
  rewrite vector_total_items, len_to_nat. lia.
Qed.

Lemma vector_search_items {E A} (test : A -> cres E bool) (v : vector A) :
  vector_search test v = list_search test (items v).
Proof.
  unfold vector_search.
  assert (forall l fuel i, drop i (items v) = l -> (length l < fuel)%nat ->
    vector_search_from test v fuel (Z.of_nat i) = list_search test l) as Hloop.
  { induction l as [| a l IH]; intros [| fuel] i Hd Hf; cbn in Hf; try lia;
      cbn [vector_search_from list_search].
    - rewrite (vector_end _ _ Hd). reflexivity.
    - destruct (vector_lookup_drop _ _ _ _ Hd) as (-> & -> & Hd').
      destruct (test a) as [[] | | |]; cbn; try reflexivity.
      replace (Z.of_nat i + 1) with (Z.of_nat (S i)) by lia.
      apply IH; [exact Hd' | lia]. }
  apply (Hloop _ _ O); [reflexivity |].
  rewrite vector_total_items, len_to_nat. lia.
Qed.

Lemma list_loop_app {E A S} (body : A -> S -> cres E S) l k s :
  list_loop body (l ++ k) s = (list_loop body l s ≫= list_loop body k).
Proof.
  revert s. induction l as [| a l IH]; intros s; [reflexivity |].
  cbn. destruct (body a s); cbn; auto.
Qed.

(** Deleting the first item as many times as there are items. *)
Lemma delete_all {A} (v : vector A) :
  items (Nat.iter (Z.to_nat (vector_total v)) (fun v => libp2p_utils_vector_delete v 0) v) = [].
Proof.
  rewrite vector_total_items, len_to_nat. remember (length (items v)) as n eqn:Hn.
  revert v Hn. induction n as [| n IH]; intros v Hn.
  - destruct (items v) eqn:E; [exact E | discriminate].
  - rewrite Nat.iter_succ_r. apply IH.
    rewrite items_delete by lia. revert Hn. destruct (items v); [discriminate |].
    intros [= Hn]. exact Hn.
Qed.
End Loops.

(** ** Sums of sizes over the items *)

(** The sum of a size over a list. *)
Definition sum_over {A} (g : A -> Z) (l : list A) : Z := foldr (fun a n => g a + n) 0 l.

Lemma sum_over_cons {A} (g : A -> Z) a l : sum_over g (a :: l) = g a + sum_over g l.
Proof. reflexivity. Qed.
Lemma sum_over_nonneg {A} (g : A -> Z) l : Forall (fun a => 0 <= g a) l -> 0 <= sum_over g l.
Proof. induction 1; [reflexivity |]. rewrite sum_over_cons. lia. Qed.

Lemma sum_over_loop {E A} (body : A -> Z -> cres E Z) (g : A -> Z) l t :
  (forall a t, a ∈ l -> body a t = Ok (u64 (t + g a))) ->
  Forall (fun a => 0 <= g a) l -> 0 <= t -> t + sum_over g l < 2 ^ 64 ->
  list_loop body l t = Ok (t + sum_over g l).
Proof.
  intros Hb Hg. revert t Hb. induction Hg as [| a l Ha Hl IH]; intros t Hb Ht Hs.
  - cbn. rewrite Z.add_0_r. reflexivity.
  - rewrite sum_over_cons in *. cbn [list_loop]. pose proof (sum_over_nonneg g l Hl). rewrite Hb by left. cbn [mbind cres_bind].
    rewrite u64_small by lia. rewrite IH; [f_equal; lia | | lia | lia].
    intros. apply Hb. right. assumption.
Qed.

Lemma sum_over_elem {A} (g : A -> Z) l a :
  a ∈ l -> Forall (fun a => 0 <= g a) l -> g a <= sum_over g l.
Proof.
  intros Hin Hl. induction Hl as [| b l Hb Hl IH]; [inversion Hin |].
  rewrite sum_over_cons. pose proof (sum_over_nonneg g l Hl).
  apply elem_of_cons in Hin as [-> | Hin]; [| apply IH in Hin]; lia.
Qed.
