(* ===== verification/ThreadPool.v ===== *)
(** The thread pool (src/util/thread_pool.c): its job queue, its binary semaphore, and its
    threads as steps that interleave. *)

From stdpp Require Import relations.
From S2P Require Import Prelude.

(** ** The job queue *)

Section Pool.
(** A function pointer and its argument. *)
Context {F A : Type}.

(** [struct job]; [j_prev] is the job that comes behind. *)
Record job := MkJob { j_prev : option nat; j_function : F; j_arg : A }.
(** [struct jobqueue]: the jobs in memory, by their addresses. *)
Record jobqueue := MkQueue { jobs : gmap nat job; front : option nat; rear : option nat; jq_len : Z }.

Definition jobqueue_init : jobqueue := MkQueue ∅ None None 0.

(** The new job at [p]. *)
Definition jobqueue_push (p : nat) (f : F) (a : A) (q : jobqueue) : cres unit jobqueue :=
  let js := <[p := MkJob None f a]> (jobs q) in
  if jq_len q =? 0 then Ok (MkQueue js (Some p) (Some p) (jq_len q + 1))
  else
    match rear q with
    | None => Undef
    | Some r =>
        match js !! r with
        | None => Undef
        | Some j => Ok (MkQueue (<[r := MkJob (Some p) (j_function j) (j_arg j)]> js) (front q) (Some p) (jq_len q + 1))
        end
    end.
(** The job taken off, and whether the semaphore is posted. *)
Definition jobqueue_pull (q : jobqueue) : cres unit (option nat * bool * jobqueue) :=
  let job_p := front q in
  if jq_len q =? 0 then Ok (job_p, false, q)
  else if jq_len q =? 1 then Ok (job_p, false, MkQueue (jobs q) None None 0)
  else
    match job_p with
    | None => Undef
    | Some p =>
        match jobs q !! p with
        | None => Undef
        | Some j => Ok (job_p, true, MkQueue (jobs q) (j_prev j) (rear q) (jq_len q - 1))
        end
    end.
Definition free_job (p : option nat) (q : jobqueue) : jobqueue :=
  match p with
  | Some p => MkQueue (delete p (jobs q)) (front q) (rear q) (jq_len q)
  | None => q
  end.
(** The loop ends when there is no job left. *)
Fixpoint clear_loop (fuel : nat) (q : jobqueue) : cres unit jobqueue :=
  match fuel with
  | O => NoFuel
  | S fuel =>
      if jq_len q =? 0 then Ok q
      else
        r ← jobqueue_pull q;
        clear_loop fuel (free_job r.1.1 r.2)
  end.
(** The value of a new semaphore; another one ends the program. *)
Definition bsem_init (v : Z) : cres unit Z := if (v <? 0) || (1 <? v) then Err () else Ok v.
Definition bsem_reset : cres unit Z := bsem_init 0.
(** With the semaphore's value. *)
Definition jobqueue_clear (fuel : nat) (q : jobqueue) : cres unit (jobqueue * Z) :=
  q ← clear_loop fuel q; v ← bsem_reset; Ok (MkQueue (jobs q) None None 0, v).

(** ** The pool *)

(** What a thread does next in [thread_do]; the parts under a lock are one step, but for the
    last one: the count of the living is read without the lock, so who destroys the pool can
    act between the last thread's decrement and its unlocking. *)
Inductive pc :=
| Starting                     (* before it counts itself among the living *)
| Testing                      (* at the head of the loop *)
| Checking                     (* in [bsem_wait], about to look at the semaphore *)
| Asleep                       (* in [bsem_wait], waiting for the condition *)
| Awake                        (* behind [bsem_wait] *)
| Counted                      (* counted among the working *)
| Holding (p : option nat)     (* with what it pulled *)
| Finishing                    (* before it is no longer counted *)
| Leaving                      (* behind the loop *)
| Unlocking                    (* no longer counted, about to unlock [thcount_lock] *)
| Gone.
#[global] Instance pc_eq_dec : EqDecision pc.
Proof. solve_decision. Defined.
(** The caller of [thpool_wait]. *)
Inductive main_pc := Elsewhere | Looking | Waiting | Returned.

(** What [SIGUSR1] did to a thread: it is on its way, the thread is in [thread_hold], or it is
    there and another one waits behind it. *)
Inductive hold := Pending | InHandler | PendingAgain.
(** What [thpool_destroy] frees. *)
Inductive pool_part := TheSemaphore | AThread (i : nat) | TheThreads | ThePool.
#[global] Instance pool_part_eq_dec : EqDecision pool_part.
Proof. solve_decision. Defined.

(** [struct thpool_], the static variables, what [thpool_destroy] keeps in [threads_total], and
    what was freed. [added] and [ended]: the calls of
    [thpool_add_work] and the functions that were run so far, in order; [started]: the jobs
    that were pulled. *)
Record thpool := MkPool {
  threads : list pc; num_threads_alive : Z; num_threads_working : Z; queue : jobqueue;
  has_jobs : Z; threads_keepalive : Z; threads_on_hold : Z; held : gmap nat hold; waiter : main_pc;
  threads_total : Z; freed : list pool_part;
  added : list (F * A); started : list (F * A); ended : list (F * A)
}.

Definition set_pc (i : nat) (c : pc) (st : thpool) : thpool :=
  MkPool (<[i := c]> (threads st)) (num_threads_alive st) (num_threads_working st) (queue st)
    (has_jobs st) (threads_keepalive st) (threads_on_hold st) (held st) (waiter st) (threads_total st) (freed st)
    (added st) (started st) (ended st).
Definition set_counts (alive working : Z) (st : thpool) : thpool :=
  MkPool (threads st) alive working (queue st)
    (has_jobs st) (threads_keepalive st) (threads_on_hold st) (held st) (waiter st) (threads_total st) (freed st)
    (added st) (started st) (ended st).
Definition set_sem (v : Z) (st : thpool) : thpool :=
  MkPool (threads st) (num_threads_alive st) (num_threads_working st) (queue st)
    v (threads_keepalive st) (threads_on_hold st) (held st) (waiter st) (threads_total st) (freed st) (added st) (started st) (ended st).
Definition set_queue (q : jobqueue) (st : thpool) : thpool :=
  MkPool (threads st) (num_threads_alive st) (num_threads_working st) q
    (has_jobs st) (threads_keepalive st) (threads_on_hold st) (held st) (waiter st) (threads_total st) (freed st)
    (added st) (started st) (ended st).
Definition set_flags (keepalive on_hold : Z) (h : gmap nat hold) (st : thpool) : thpool :=
  MkPool (threads st) (num_threads_alive st) (num_threads_working st) (queue st)
    (has_jobs st) keepalive on_hold h (waiter st) (threads_total st) (freed st) (added st) (started st) (ended st).
Definition set_waiter (m : main_pc) (st : thpool) : thpool :=
  MkPool (threads st) (num_threads_alive st) (num_threads_working st) (queue st)
    (has_jobs st) (threads_keepalive st) (threads_on_hold st) (held st) m (threads_total st) (freed st)
    (added st) (started st) (ended st).
Definition set_history (a s e : list (F * A)) (st : thpool) : thpool :=
  MkPool (threads st) (num_threads_alive st) (num_threads_working st) (queue st)
    (has_jobs st) (threads_keepalive st) (threads_on_hold st) (held st) (waiter st) (threads_total st) (freed st) a s e.

Definition set_freed (total : Z) (ps : list pool_part) (st : thpool) : thpool :=
  MkPool (threads st) (num_threads_alive st) (num_threads_working st) (queue st)
    (has_jobs st) (threads_keepalive st) (threads_on_hold st) (held st) (waiter st) total ps
    (added st) (started st) (ended st).

(** The memory is there; no thread holds [thcount_lock]. *)
Definition touches (x : pool_part) (st : thpool) (r : cres unit thpool) : cres unit thpool :=
  if decide (x ∈ freed st) then Undef else r.
Definition locked (st : thpool) : bool := existsb (fun c => bool_decide (c = Unlocking)) (threads st).
Definition with_thcount_lock (st : thpool) (r : cres unit thpool) : cres unit thpool :=
  touches ThePool st (if locked st then Err () else r).

(** *** The semaphore *)

(** [w]: the sleeping thread the signal wakes. *)
Definition wake (w : nat) (st : thpool) : thpool :=
  match threads st !! w with Some Asleep => set_pc w Checking st | _ => st end.
Definition bsem_post (w : nat) (st : thpool) : thpool := wake w (set_sem 1 st).
Definition woken (c : pc) : pc := match c with Asleep => Checking | _ => c end.
Definition bsem_post_all (st : thpool) : thpool :=
  MkPool (map woken (threads st)) (num_threads_alive st) (num_threads_working st) (queue st)
    1 (threads_keepalive st) (threads_on_hold st) (held st) (waiter st) (threads_total st) (freed st) (added st) (started st) (ended st).
Definition bsem_wait (i : nat) (st : thpool) : thpool :=
  if has_jobs st =? 1 then set_pc i Awake (set_sem 0 st) else set_pc i Asleep st.

(** *** A thread *)

Definition work_of (q : jobqueue) (p : option nat) : list (F * A) :=
  match p with
  | Some p => match jobs q !! p with Some j => [(j_function j, j_arg j)] | None => [] end
  | None => []
  end.

(** The next step of the [i]-th thread; [Err]: there is none now. *)
Definition thread_do (i w : nat) (st : thpool) : cres unit thpool :=
  let keep := negb (threads_keepalive st =? 0) in
  match threads st !! i with
  | None => Err ()
  | Some c =>
      match c with
      | Starting =>
          touches (AThread i) st (with_thcount_lock st
            (Ok (set_pc i Testing (set_counts (num_threads_alive st + 1) (num_threads_working st) st))))
      | Testing => Ok (set_pc i (if keep then Checking else Leaving) st)
      | Checking => touches ThePool st (touches TheSemaphore st (Ok (bsem_wait i st)))
      | Asleep => Err ()
      | Awake =>
          if keep then
            with_thcount_lock st (Ok (set_pc i Counted (set_counts (num_threads_alive st) (num_threads_working st + 1) st)))
          else Ok (set_pc i Testing st)
      | Counted =>
          touches ThePool st
            (match jobqueue_pull (queue st) with
             | Ok (p, post, q) =>
                 let st := set_history (added st) (started st ++ work_of (queue st) p) (ended st) (set_queue q st) in
                 Ok (set_pc i (Holding p) (if post : bool then bsem_post w st else st))
             | Err e => Err e
             | Undef => Undef
             | NoFuel => NoFuel
             end)
      | Holding None => Ok (set_pc i Finishing st)
      | Holding (Some p) =>
          match jobs (queue st) !! p with
          | None => Undef
          | Some j =>
              Ok (set_pc i Finishing (set_history (added st) (started st) (ended st ++ [(j_function j, j_arg j)])
                    (set_queue (free_job (Some p) (queue st)) st)))
          end
      | Finishing =>
          with_thcount_lock st
            (let n := num_threads_working st - 1 in
             let st := set_pc i Testing (set_counts (num_threads_alive st) n st) in
             Ok (if n =? 0 then match waiter st with Waiting => set_waiter Looking st | _ => st end else st))
      | Leaving =>
          with_thcount_lock st (Ok (set_pc i Unlocking (set_counts (num_threads_alive st - 1) (num_threads_working st) st)))
      | Unlocking => touches ThePool st (Ok (set_pc i Gone st))
      | Gone => Err ()
      end
  end.

(** *** The functions of the pool *)

(** [threads_alive]: the threads come alive one by one. *)
Definition thpool_init (num_threads : Z) : thpool :=
  MkPool (replicate (Z.to_nat num_threads) Starting) 0 0 jobqueue_init 0 1 0 ∅ Elsewhere 0 [] [] [] [].
Definition thpool_add_work (p w : nat) (f : F) (a : A) (st : thpool) : cres unit thpool :=
  touches ThePool st
    (q ← jobqueue_push p f a (queue st);
     Ok (bsem_post w (set_history (added st ++ [(f, a)]) (started st) (ended st) (set_queue q st)))).
Definition thpool_wait (st : thpool) : cres unit thpool :=
  match waiter st with
  | Looking =>
      with_thcount_lock st
        (if negb (jq_len (queue st) =? 0) || negb (num_threads_working st =? 0) then Ok (set_waiter Waiting st)
         else Ok (set_waiter Returned st))
  | _ => Err ()
  end.
(** The first [num_threads_alive] threads get a signal; a thread that has ended has no
    [pthread_t] any more. While the handler runs one further signal is kept for later. *)
Definition signalled (h : option hold) : option hold :=
  match h with None | Some Pending => Some Pending | Some _ => Some PendingAgain end.
Definition thpool_pause (st : thpool) : cres unit thpool :=
  let n := Z.to_nat (num_threads_alive st) in
  touches ThePool st
    (if existsb (fun c => bool_decide (c = Gone)) (take n (threads st)) then Undef
     else Ok (set_flags (threads_keepalive st) (threads_on_hold st)
                (foldr (partial_alter signalled) (held st) (seq 0 n)) st)).
Definition thpool_resume (st : thpool) : thpool := set_flags (threads_keepalive st) 0 (held st) st.
Definition thread_hold (i : nat) (st : thpool) : cres unit thpool :=
  if decide (threads st !! i = Some Gone) then Err ()
  else
    match held st !! i with
    | Some Pending => Ok (set_flags (threads_keepalive st) 1 (<[i := InHandler]> (held st)) st)
    | Some h =>
        if threads_on_hold st =? 0 then
          Ok (set_flags (threads_keepalive st) 0
                (match h with PendingAgain => <[i := Pending]> (held st) | _ => delete i (held st) end) st)
        else Err ()
    | None => Err ()
    end.
(** [thpool_destroy] ends the loops of the threads, then posts until none is alive, and frees the
    jobs that are left, the semaphore, the threads and the pool. *)
Definition destroy_begin (st : thpool) : thpool :=
  set_freed (num_threads_alive st) (freed st) (set_flags 0 (threads_on_hold st) (held st) st).
Definition destroy_post (st : thpool) : cres unit thpool :=
  touches ThePool st (if num_threads_alive st =? 0 then Err () else Ok (bsem_post_all st)).
Definition parts (total : Z) : list pool_part :=
  [TheSemaphore] ++ map AThread (seq 0 (Z.to_nat total)) ++ [TheThreads; ThePool].
Definition destroy_end (fuel : nat) (st : thpool) : cres unit thpool :=
  touches ThePool st
    (if num_threads_alive st =? 0 then
       '(q, v) ← jobqueue_clear fuel (queue st);
       Ok (set_freed (threads_total st) (parts (threads_total st)) (set_queue q (set_sem v st)))
     else Err ()).

(** ** Executions *)

Definition sleeps (st : thpool) (i : nat) : Prop := threads st !! i = Some Asleep.
(** A signal wakes a thread that sleeps, if any does. *)
Definition signal_ok (w : nat) (st : thpool) : Prop := sleeps st w \/ forall i, ~ sleeps st i.

(** The pool is made: [thpool_init] waits for its threads. *)
Definition no_starting (st : thpool) : Prop := forall i, threads st !! i <> Some Starting.

(** What the pool does by itself; a thread in the handler does nothing else. *)
Inductive step (st : thpool) : thpool -> Prop :=
| step_thread i w st' :
    held st !! i = None \/ held st !! i = Some Pending -> signal_ok w st -> thread_do i w st = Ok st' -> step st st'
| step_wait st' : thpool_wait st = Ok st' -> step st st'.
(** What is done to it: jobs are added, it is waited for, threads are paused and resumed and
    woken without a signal, and it is destroyed. *)
Inductive outside (st : thpool) : thpool -> Prop :=
| out_add p w f a st' :
    jobs (queue st) !! p = None -> signal_ok w st -> thpool_add_work p w f a st = Ok st' -> outside st st'
| out_wait : waiter st = Elsewhere \/ waiter st = Returned -> outside st (set_waiter Looking st)
| out_pause st' : thpool_pause st = Ok st' -> outside st st'
| out_resume : outside st (thpool_resume st)
| out_hold i st' : thread_hold i st = Ok st' -> outside st st'
| out_spurious i : outside st (wake i st)
| out_destroy : no_starting st -> threads_keepalive st = 1 -> outside st (destroy_begin st)
| out_post st' : threads_keepalive st = 0 -> destroy_post st = Ok st' -> outside st st'
| out_end fuel st' : threads_keepalive st = 0 -> destroy_end fuel st = Ok st' -> outside st st'.
Inductive reachable (n : Z) : thpool -> Prop :=
| reach_init : reachable n (thpool_init n)
| reach_step st st' : reachable n st -> step st st' -> reachable n st'
| reach_outside st st' : reachable n st -> outside st st' -> reachable n st'.

(** * Properties *)

(** ** The queue implements a list *)

(** The jobs at [l] are linked in that order. *)
Fixpoint chain (js : gmap nat job) (l : list nat) : Prop :=
  match l with
  | [] => True
  | p :: l => (exists j, js !! p = Some j /\ j_prev j = head l) /\ chain js l
  end.
Record queue_is (q : jobqueue) (l : list nat) : Prop := {
  qi_front : front q = head l;
  qi_rear : rear q = last l;
  qi_len : jq_len q = len l;
  qi_chain : chain (jobs q) l;
  qi_nodup : NoDup l
}.

Lemma chain_ext js js' l : (forall p, p ∈ l -> js' !! p = js !! p) -> chain js l -> chain js' l.
Proof.
  induction l as [| p l IH]; intros He H; [exact I |]. destruct H as [(j & Hj & Hp) H]. split.
  - exists j. by rewrite He by left.
  - apply IH; [| exact H]. intros q Hq. apply He. by right.
Qed.
Lemma chain_cell js l p : chain js l -> p ∈ l -> is_Some (js !! p).
Proof.
  induction l as [| q l IH]; intros H Hp; [by apply elem_of_nil in Hp |].
  destruct H as [(j & Hj & _) H]. apply elem_of_cons in Hp as [-> | Hp]; [by eexists | by apply IH].
Qed.
(** The last cell gets a cell behind it. *)
Lemma chain_snoc js l r j p f a :
  chain js (l ++ [r]) -> js !! r = Some j -> p ∉ l ++ [r] -> NoDup (l ++ [r]) ->
  chain (<[r := MkJob (Some p) (j_function j) (j_arg j)]> (<[p := MkJob None f a]> js)) ((l ++ [r]) ++ [p]).
Proof.
  intros H Hr Hp Hn. apply NoDup_app in Hn as (_ & Hd & _).
  assert (Hrl : r ∉ l) by (intros Hi; apply (Hd r Hi), list_elem_of_singleton; reflexivity). clear Hd.
  assert (Hpr : p <> r) by (intros ->; apply Hp, elem_of_app; right; by apply list_elem_of_singleton).
  induction l as [| q l IH].
  - cbn. split; [eexists; by rewrite lookup_insert_eq |]. split; [| exact I].
    eexists. rewrite lookup_insert_ne, lookup_insert_eq by congruence. by split.
  - destruct H as [(k & Hk & Hkp) H]. apply not_elem_of_cons in Hrl as [Hqr Hrl].
    apply not_elem_of_cons in Hp as [Hpq Hp]. split; [| by apply IH].
    exists k. rewrite !lookup_insert_ne by congruence. split; [exact Hk |]. rewrite Hkp. by destruct l.
Qed.

Lemma push_is q l p f a :
  queue_is q l -> jobs q !! p = None ->
  exists q', jobqueue_push p f a q = Ok q' /\ queue_is q' (l ++ [p]) /\ work_of q' (Some p) = [(f, a)] /\
    (forall k, k <> p -> work_of q' (Some k) = work_of q (Some k)) /\
    (forall k, is_Some (jobs q' !! k) <-> k = p \/ is_Some (jobs q !! k)).
Proof.
  intros [Hf Hr Hl Hc Hn] Hp. unfold jobqueue_push.
  assert (Hpl : p ∉ l) by (intros Hi; destruct (chain_cell _ _ _ Hc Hi); congruence).
  destruct l as [| r l _] using rev_ind.
  - rewrite Hl. change (len (@nil nat) =? 0) with true. eexists. split; [reflexivity |]. split_and!.
    + constructor; cbn; [reflexivity | reflexivity | reflexivity | | repeat constructor; set_solver].
      split; [| exact I]. eexists. by rewrite lookup_insert_eq.
    + cbn. by rewrite lookup_insert_eq.
    + intros k Hk. cbn. by rewrite lookup_insert_ne by congruence.
    + intros k. cbn. destruct (decide (k = p)) as [-> |].
      * rewrite lookup_insert_eq. split; [by left | by eexists].
      * rewrite lookup_insert_ne by congruence. split; [by right | by intros [|]].
  - rewrite Hl, len_app. replace (len l + len [r] =? 0) with false by (change (len [r]) with 1; pose_len; lia).
    rewrite last_snoc in Hr. rewrite Hr.
    destruct (chain_cell _ _ r Hc) as [j Hj]; [set_solver |].
    assert (Hpr : p <> r) by set_solver. rewrite lookup_insert_ne, Hj by congruence.
    eexists. split; [reflexivity |]. split_and!.
    + constructor; cbn [front rear jq_len jobs].
      * rewrite Hf. by destruct l.
      * by rewrite last_snoc.
      * len_lia.
      * by apply chain_snoc.
      * apply NoDup_app. split; [exact Hn |]. split; [set_solver | repeat constructor; set_solver].
    + cbn. by rewrite lookup_insert_ne, lookup_insert_eq by congruence.
    + intros k Hk. cbn. destruct (decide (k = r)) as [-> |]; [by rewrite lookup_insert_eq, Hj |].
      by rewrite !lookup_insert_ne by congruence.
    + intros k. cbn. destruct (decide (k = r)) as [-> |].
      * rewrite lookup_insert_eq, Hj. split; [right; by eexists | by eexists].
      * rewrite lookup_insert_ne by congruence. destruct (decide (k = p)) as [-> |].
        -- rewrite lookup_insert_eq. split; [by left | by eexists].
        -- rewrite lookup_insert_ne by congruence. split; [by right | by intros [|]].
Qed.
Lemma pull_empty q : queue_is q [] -> jobqueue_pull q = Ok (None, false, q).
Proof. intros [Hf _ Hl _ _]. unfold jobqueue_pull. rewrite Hl. cbn. by rewrite Hf. Qed.
Lemma pull_is q p l :
  queue_is q (p :: l) ->
  exists q', jobqueue_pull q = Ok (Some p, match l with [] => false | _ => true end, q') /\ queue_is q' l /\ jobs q' = jobs q.
Proof.
  intros [Hf Hr Hl Hc Hn]. unfold jobqueue_pull. rewrite Hl, len_cons. destruct Hc as [(j & Hj & Hp) Hc].
  apply NoDup_cons in Hn as [_ Hn]. pose proof (len_nonneg l). replace (1 + len l =? 0) with false by lia.
  destruct l as [| q1 l].
  - cbn. rewrite Hf. eexists. split; [reflexivity |]. split; [| reflexivity]. by constructor.
  - rewrite len_cons in *. pose proof (len_nonneg l). replace (1 + (1 + len l) =? 1) with false by lia.
    rewrite Hf. cbn [head hd_error]. rewrite Hj. eexists. split; [reflexivity |]. split; [| reflexivity].
    constructor; cbn [front rear jq_len jobs]; [exact Hp | exact Hr | rewrite len_cons; lia | exact Hc | exact Hn].
Qed.
Lemma free_is q l p :
  queue_is q l -> p ∉ l ->
  queue_is (free_job (Some p) q) l /\ (forall k, k <> p -> work_of (free_job (Some p) q) (Some k) = work_of q (Some k)).
Proof.
  intros [Hf Hr Hl Hc Hn] Hp. split.
  - constructor; try assumption. eapply chain_ext; [| exact Hc]. intros k Hk. cbn. apply lookup_delete_ne. congruence.
  - intros k Hk. cbn. by rewrite lookup_delete_ne by congruence.
Qed.
(** Clearing frees the jobs of the queue and no other. *)
Lemma clear_loop_is fuel q l :
  queue_is q l ->
  (fuel <= length l)%nat /\ clear_loop fuel q = NoFuel \/
  exists q', clear_loop fuel q = Ok q' /\ forall k, jobs q' !! k = if decide (k ∈ l) then None else jobs q !! k.
Proof.
  revert q l. induction fuel as [| fuel IH]; intros q l H; [left; split; [lia | reflexivity] |]. cbn [clear_loop].
  rewrite (qi_len _ _ H). destruct l as [| p l].
  - right. exists q. split; [reflexivity |]. intros k. by rewrite decide_False by apply not_elem_of_nil.
  - rewrite len_cons. replace (1 + len l =? 0) with false by (pose_len; lia).
    destruct (pull_is _ _ _ H) as (q1 & -> & H1 & Hj). cbn [mbind cres_bind fst snd].
    pose proof (qi_nodup _ _ H) as Hn. apply NoDup_cons in Hn as [Hp _].
    destruct (free_is _ _ _ H1 Hp) as [H2 _]. destruct (IH _ _ H2) as [[Hf E] | (q' & -> & Hk)].
    { left. split; [cbn; lia | exact E]. }
    right. exists q'. split; [reflexivity |]. intros k. rewrite Hk. cbn. rewrite Hj.
    destruct (decide (k = p)) as [-> | Hkp].
    + rewrite (decide_True (P := p ∈ p :: l)) by left. rewrite lookup_delete_eq. by destruct (decide (p ∈ l)).
    + rewrite lookup_delete_ne by congruence. destruct (decide (k ∈ l)), (decide (k ∈ p :: l)); set_solver.
Qed.
Lemma clear_is fuel q l :
  queue_is q l ->
  (fuel <= length l)%nat /\ jobqueue_clear fuel q = NoFuel \/
  exists q', jobqueue_clear fuel q = Ok (q', 0) /\ queue_is q' [] /\
    forall k, jobs q' !! k = if decide (k ∈ l) then None else jobs q !! k.
Proof.
  intros H. unfold jobqueue_clear. destruct (clear_loop_is fuel q l H) as [[Hf ->] | (q' & -> & Hj)]; [by left |].
  right. eexists. split; [reflexivity |]. split; [by constructor; try constructor | exact Hj].
Qed.

(** ** Counting the threads *)

Fixpoint sumf (f : pc -> Z) (l : list pc) : Z :=
  match l with [] => 0 | c :: l => f c + sumf f l end.
Definition working_one (c : pc) : Z := match c with Counted | Holding _ | Finishing => 1 | _ => 0 end.
Definition alive_one (c : pc) : Z := match c with Starting | Unlocking | Gone => 0 | _ => 1 end.
Definition gone_one (c : pc) : Z := match c with Leaving | Unlocking | Gone => 1 | _ => 0 end.
Definition starting_one (c : pc) : Z := match c with Starting => 1 | _ => 0 end.
Definition holder (c : pc) : option nat := match c with Holding p => p | _ => None end.
Definition holders (l : list pc) : list nat := omap holder l.

Lemma sumf_insert f l i c c' : l !! i = Some c -> sumf f (<[i := c']> l) = sumf f l - f c + f c'.
Proof.
  revert i. induction l as [| x l IH]; intros [| i] H; [discriminate | discriminate | |].
  - injection H as ->. change (<[0%nat := c']> (c :: l)) with (c' :: l). cbn [sumf]. lia.
  - change (<[S i := c']> (x :: l)) with (x :: <[i := c']> l). cbn [sumf]. rewrite (IH _ H). lia.
Qed.
Lemma sumf_nonneg f l : (forall c, 0 <= f c) -> 0 <= sumf f l.
Proof. intros Hf. induction l as [| c l IH]; cbn; [lia |]. pose proof (Hf c). lia. Qed.
Lemma sumf_at f l i c : (forall c, 0 <= f c) -> l !! i = Some c -> f c <= sumf f l.
Proof.
  intros Hf. revert i. induction l as [| x l IH]; intros [| i] H; cbn in *; try discriminate.
  - injection H as ->. pose proof (sumf_nonneg f l Hf). lia.
  - pose proof (IH _ H). pose proof (Hf x). lia.
Qed.
Lemma sumf_replicate f n c : sumf f (replicate n c) = Z.of_nat n * f c.
Proof. induction n as [| n IH]; cbn [replicate sumf]; [reflexivity |]. rewrite IH. lia. Qed.
Lemma holders_insert l i c c' :
  l !! i = Some c ->
  holders (<[i := c']> l) ++ option_list (holder c) ≡ₚ holders l ++ option_list (holder c').
Proof.
  intros H. rewrite (insert_take_drop _ _ _ (lookup_lt_Some _ _ _ H)). rewrite <- (take_drop_middle _ _ _ H) at 3.
  unfold holders. rewrite !omap_app. cbn [omap list_omap].
  destruct (holder c) as [x |], (holder c') as [y |]; cbn [option_list]; rewrite ?app_nil_r; try reflexivity;
    solve_Permutation.
Qed.
Lemma holders_same l i c c' :
  l !! i = Some c -> holder c = None -> holder c' = None -> holders (<[i := c']> l) ≡ₚ holders l.
Proof. intros H E E'. pose proof (holders_insert l i c c' H) as P. by rewrite E, E', !app_nil_r in P. Qed.

Lemma sumf_zero f l : (forall i c, l !! i = Some c -> f c = 0) -> sumf f l = 0.
Proof.
  induction l as [| c l IH]; intros H; [reflexivity |]. cbn [sumf]. rewrite (H O c eq_refl), IH; [reflexivity |].
  intros i d Hi. apply (H (S i) d Hi).
Qed.
Lemma holders_none l : (forall c, c ∈ l -> holder c = None) -> holders l = [].
Proof.
  unfold holders. induction l as [| c l IH]; intros H; [reflexivity |]. cbn. rewrite (H c) by left. apply IH.
  intros d Hd. apply H. by right.
Qed.

(** ** The invariant *)

Definition works (q : jobqueue) (l : list nat) : list (F * A) := concat (map (fun p => work_of q (Some p)) l).

(** [l]: the jobs in the queue. *)
Record pool_inv (n : Z) (st : thpool) (l : list nat) : Prop := {
  inv_threads : length (threads st) = Z.to_nat n;
  inv_queue : queue_is (queue st) l;
  inv_apart : NoDup (l ++ holders (threads st));
  inv_cells : forall p, p ∈ holders (threads st) -> is_Some (jobs (queue st) !! p);
  (* no job is lost *)
  inv_known : forall p, is_Some (jobs (queue st) !! p) -> p ∈ l ++ holders (threads st);
  inv_working : num_threads_working st = sumf working_one (threads st);
  inv_alive : num_threads_alive st = sumf alive_one (threads st);
  inv_sem : has_jobs st = 0 \/ has_jobs st = 1;
  (* a job in the queue has a token, or a thread on its way to it *)
  inv_token : threads_keepalive st = 1 -> l <> [] -> has_jobs st = 1 \/ exists i, threads st !! i = Some Awake \/ threads st !! i = Some Counted;
  (* no wake-up is lost *)
  inv_wakeup : has_jobs st = 1 -> (exists i, sleeps st i) -> exists i, threads st !! i = Some Checking;
  inv_waiter : waiter st = Waiting -> freed st = [] -> l <> [] \/ 0 < num_threads_working st;
  inv_keep : threads_keepalive st = 0 \/ threads_keepalive st = 1;
  inv_stay : threads_keepalive st = 1 -> sumf gone_one (threads st) = 0;
  (* the destroyer waits for the threads, which were all there when it began *)
  inv_born : threads_keepalive st = 0 -> sumf starting_one (threads st) = 0;
  inv_total : threads_keepalive st = 0 -> threads_total st = Z.of_nat (Z.to_nat n);
  inv_freed : freed st = [] \/ ThePool ∈ freed st /\ threads_keepalive st = 0 /\ num_threads_alive st = 0;
  inv_order : exists queued, added st = started st ++ queued;
  inv_started : freed st = [] -> added st = started st ++ works (queue st) l;
  inv_ended : ended st ++ works (queue st) (holders (threads st)) ≡ₚ started st
}.

Lemma inv_init n : pool_inv n (thpool_init n) [].
Proof.
  assert (H0 : holders (replicate (Z.to_nat n) Starting) = []) by (induction (Z.to_nat n); [reflexivity | assumption]).
  constructor; cbn [thpool_init threads queue num_threads_working num_threads_alive has_jobs waiter threads_keepalive
    threads_total freed added started ended].
  - apply length_replicate.
  - by constructor; try constructor.
  - rewrite H0. constructor.
  - rewrite H0. intros p Hp. by apply elem_of_nil in Hp.
  - intros p [j Hj]. cbn in Hj. by rewrite lookup_empty in Hj.
  - rewrite sumf_replicate. cbn. lia.
  - rewrite sumf_replicate. cbn. lia.
  - by left.
  - done.
  - discriminate.
  - discriminate.
  - by right.
  - intros _. rewrite sumf_replicate. cbn. lia.
  - discriminate.
  - discriminate.
  - by left.
  - by exists [].
  - reflexivity.
  - by rewrite H0.
Qed.

(** A thread elsewhere stays where it is. *)
Lemma stays (l : list pc) i j c c0 c' :
  l !! j = Some c -> l !! i = Some c0 -> c <> c0 -> <[i := c']> l !! j = Some c.
Proof. intros Hj Hi Hne. rewrite list_lookup_insert_ne; [exact Hj |]. intros ->. congruence. Qed.
Lemma at_now (l : list pc) i c c' : l !! i = Some c -> <[i := c']> l !! i = Some c'.
Proof. intros H. apply list_lookup_insert_eq. by apply lookup_lt_Some in H. Qed.
Lemma sleeper_old (l : list pc) i j c' : <[i := c']> l !! j = Some Asleep -> c' <> Asleep -> l !! j = Some Asleep.
Proof. intros H Hc. destruct (decide (i = j)) as [-> |].
  - destruct (decide (j < length l)%nat); [rewrite list_lookup_insert_eq in H by lia; congruence |].
    rewrite list_insert_ge in H by lia. exact H.
  - by rewrite list_lookup_insert_ne in H.
Qed.

Lemma sumf_nonneg_starting l : 0 <= sumf starting_one l.
Proof. apply sumf_nonneg. by intros []. Qed.
Lemma no_birth l i c c' :
  l !! i = Some c -> starting_one c' = 0 -> sumf starting_one l = 0 -> sumf starting_one (<[i := c']> l) = 0.
Proof.
  intros Hi Hc H. pose proof (sumf_at starting_one _ _ _ ltac:(by intros []) Hi).
  pose proof (sumf_nonneg_starting (<[i := c']> l)). rewrite (sumf_insert _ _ _ _ _ Hi) in *.
  assert (0 <= starting_one c) by (by destruct c). lia.
Qed.
(** As long as a thread is on its way, nothing is freed. *)
Lemma thread_alive n st l i c :
  pool_inv n st l -> threads st !! i = Some c -> c <> Unlocking -> c <> Gone -> freed st = [].
Proof.
  intros I Hi Hu Hg. destruct (inv_freed _ _ _ I) as [H | (_ & Hk & Ha)]; [exact H | exfalso].
  rewrite (inv_alive _ _ _ I) in Ha. pose proof (inv_born _ _ _ I Hk) as Hb.
  pose proof (sumf_at starting_one _ _ _ ltac:(by intros []) Hi). pose proof (sumf_at alive_one _ _ _ ltac:(by intros []) Hi).
  destruct c; cbn in *; try done; lia.
Qed.

(** A thread moves without touching the queue or the semaphore. *)
Lemma inv_move n st l i c c' alive working m :
  pool_inv n st l -> threads st !! i = Some c -> holder c = None -> holder c' = None ->
  freed st = [] -> starting_one c' = 0 -> c <> Checking -> c <> Counted -> c' <> Asleep -> (c = Awake -> c' = Counted \/ threads_keepalive st = 0) ->
  (threads_keepalive st = 1 -> gone_one c' = gone_one c) ->
  alive = num_threads_alive st - alive_one c + alive_one c' ->
  working = num_threads_working st - working_one c + working_one c' ->
  (m = Waiting -> l <> [] \/ 0 < working) ->
  pool_inv n (set_waiter m (set_pc i c' (set_counts alive working st))) l.
Proof.
  intros I Hi Hh Hh' Hfr Hsc Hnc Hnp Hns Haw Hgo Ha Hw Hm.
  pose proof (holders_same _ _ _ c' Hi Hh Hh') as Hhs.
  constructor; cbn [set_waiter set_pc set_counts threads queue num_threads_working num_threads_alive has_jobs waiter
    threads_keepalive threads_total freed added started ended]; try apply I.
  - rewrite length_insert. apply I.
  - rewrite Hhs. apply I.
  - intros p Hp. rewrite Hhs in Hp. by apply I.
  - intros p Hp. rewrite Hhs. by apply I.
  - by rewrite (sumf_insert _ _ _ _ _ Hi), Hw, (inv_working _ _ _ I).
  - by rewrite (sumf_insert _ _ _ _ _ Hi), Ha, (inv_alive _ _ _ I).
  - intros Hk Hl. destruct (inv_token _ _ _ I Hk Hl) as [Ht | (j & [Hj | Hj])]; [by left | |].
    + right. destruct (decide (j = i)) as [-> |].
      * exists i. right. rewrite Hi in Hj. injection Hj as ->. rewrite (at_now _ _ _ _ Hi).
        destruct (Haw eq_refl) as [-> | E]; [reflexivity | congruence].
      * exists j. left. by rewrite list_lookup_insert_ne.
    + right. exists j. right. eapply stays; [exact Hj | exact Hi | congruence].
  - intros Ht (j & Hj). destruct (inv_wakeup _ _ _ I Ht) as (k & Hk).
    { exists j. unfold sleeps in *. cbn in Hj. by eapply sleeper_old. }
    exists k. eapply stays; [exact Hk | exact Hi | congruence].
  - intros Hw' _. by apply Hm.
  - intros Hk. rewrite (sumf_insert _ _ _ _ _ Hi), (Hgo Hk), (inv_stay _ _ _ I Hk). lia.
  - intros Hk. eapply no_birth; [exact Hi | exact Hsc | by apply I].
  - by left.
  - rewrite <- (inv_ended _ _ _ I). unfold works. by rewrite Hhs.
Qed.

Ltac fields := cbn [set_waiter set_pc set_counts set_sem set_queue set_history set_flags set_freed threads queue
  num_threads_working num_threads_alive has_jobs waiter threads_keepalive threads_on_hold held threads_total freed
  added started ended].

(** The semaphore is taken, or the thread goes to sleep. *)
Lemma inv_bsem_wait n st l i :
  pool_inv n st l -> threads st !! i = Some Checking -> pool_inv n (bsem_wait i st) l.
Proof.
  intros I Hi. unfold bsem_wait.
  assert (Hgo : forall c' v, holder c' = None -> working_one c' = 0 -> alive_one c' = 1 -> gone_one c' = 0 -> starting_one c' = 0 -> v = 0 ->
    (threads_keepalive st = 1 -> l <> [] -> exists j, <[i := c']> (threads st) !! j = Some Awake \/ <[i := c']> (threads st) !! j = Some Counted) ->
    pool_inv n (set_pc i c' (set_sem v st)) l).
  { intros c' v Hh Hw Ha Hg Hb -> Ht. pose proof (holders_same _ _ _ c' Hi eq_refl Hh) as Hhs.
    constructor; fields; try apply I.
    - rewrite length_insert. apply I.
    - rewrite Hhs. apply I.
    - intros p Hp. rewrite Hhs in Hp. by apply I.
    - intros p Hp. rewrite Hhs. by apply I.
    - rewrite (sumf_insert _ _ _ _ _ Hi), Hw, (inv_working _ _ _ I). cbn. lia.
    - rewrite (sumf_insert _ _ _ _ _ Hi), Ha, (inv_alive _ _ _ I). cbn. lia.
    - by left.
    - intros Hk Hl. right. by apply Ht.
    - discriminate.
    - intros Hk. rewrite (sumf_insert _ _ _ _ _ Hi), Hg, (inv_stay _ _ _ I Hk). cbn. lia.
    - intros Hk. eapply no_birth; [exact Hi | exact Hb | by apply I].
    - rewrite <- (inv_ended _ _ _ I). unfold works. by rewrite Hhs. }
  destruct (has_jobs st =? 1) eqn:E.
  - apply Hgo; try reflexivity. intros _ _. exists i. left. by eapply at_now.
  - assert (H0 : has_jobs st = 0) by (destruct (inv_sem _ _ _ I); lia).
    replace (set_pc i Asleep st) with (set_pc i Asleep (set_sem 0 st)) by (destruct st; cbn in *; by subst).
    apply Hgo; try reflexivity. intros Hk Hl. destruct (inv_token _ _ _ I Hk Hl) as [Ht | (j & Hj)]; [lia |].
    exists j. destruct Hj as [Hj | Hj]; [left | right]; by eapply stays.
Qed.

(** A thread is woken. *)
Lemma inv_wake n st l w : pool_inv n st l -> pool_inv n (wake w st) l.
Proof.
  intros I. unfold wake. destruct (threads st !! w) as [c |] eqn:Hw; [| exact I]. destruct c; try exact I.
  pose proof (holders_same _ _ _ Checking Hw eq_refl eq_refl) as Hhs.
  constructor; fields; try apply I.
  - rewrite length_insert. apply I.
  - rewrite Hhs. apply I.
  - intros p Hp. rewrite Hhs in Hp. by apply I.
  - intros p Hp. rewrite Hhs. by apply I.
  - rewrite (sumf_insert _ _ _ _ _ Hw), (inv_working _ _ _ I). cbn. lia.
  - rewrite (sumf_insert _ _ _ _ _ Hw), (inv_alive _ _ _ I). cbn. lia.
  - intros Hk Hl. destruct (inv_token _ _ _ I Hk Hl) as [Ht | (j & Hj)]; [by left | right; exists j].
    destruct Hj as [Hj | Hj]; [left | right]; by eapply stays.
  - intros _ _. exists w. by eapply at_now.
  - intros Hk. rewrite (sumf_insert _ _ _ _ _ Hw), (inv_stay _ _ _ I Hk). cbn. lia.
  - intros Hk. eapply no_birth; [exact Hw | reflexivity | by apply I].
  - rewrite <- (inv_ended _ _ _ I). unfold works. by rewrite Hhs.
Qed.
Lemma inv_post n st l w : pool_inv n st l -> signal_ok w st -> pool_inv n (bsem_post w st) l.
Proof.
  intros I Hw. unfold bsem_post. destruct Hw as [Hw | Hnone].
  - pose proof (inv_wake n st l w I) as I'. unfold wake in *. cbn [set_sem threads]. unfold sleeps in Hw. rewrite Hw in *.
    constructor; fields; try apply I'; [by right | by left |]. intros _ _. exists w. by eapply at_now.
  - assert (E : wake w (set_sem 1 st) = set_sem 1 st).
    { unfold wake. cbn [set_sem threads]. destruct (threads st !! w) as [[] |] eqn:E; try reflexivity. by destruct (Hnone w). }
    rewrite E. constructor; fields; try apply I; [by right | by left |]. intros _ (j & Hj). by destruct (Hnone j).
Qed.

Lemma sumf_woken f l : f Asleep = f Checking -> sumf f (map woken l) = sumf f l.
Proof. intros Hf. induction l as [| c l IH]; [reflexivity |]. cbn [map sumf]. rewrite IH. destruct c; cbn; lia. Qed.
Lemma holders_woken l : holders (map woken l) = holders l.
Proof.
  unfold holders. induction l as [| c l IH]; [reflexivity |]. cbn. rewrite IH. by destruct c.
Qed.
Lemma woken_at l i c : l !! i = Some c -> map woken l !! i = Some (woken c).
Proof. intros H. by rewrite list_lookup_fmap, H. Qed.
Lemma inv_post_all n st l : pool_inv n st l -> pool_inv n (bsem_post_all st) l.
Proof.
  intros I. constructor; cbn [bsem_post_all threads queue num_threads_working num_threads_alive has_jobs waiter
    threads_keepalive threads_total freed added started ended]; rewrite ?holders_woken, ?sumf_woken by reflexivity; try apply I.
  - rewrite length_map. apply I.
  - by right.
  - by left.
  - intros _ (j & Hj). unfold sleeps in Hj. cbn in Hj. rewrite list_lookup_fmap in Hj.
    destruct (threads st !! j) as [[] |]; discriminate.
Qed.

(** A job comes in. *)
Lemma inv_enqueue n st l p f a q' :
  pool_inv n st l -> has_jobs st = 1 -> jobs (queue st) !! p = None -> jobqueue_push p f a (queue st) = Ok q' ->
  pool_inv n (set_history (added st ++ [(f, a)]) (started st) (ended st) (set_queue q' st)) (l ++ [p]).
Proof.
  intros I Hv Hp Hq. destruct (push_is _ _ p f a (inv_queue _ _ _ I) Hp) as (q1 & E & Hq1 & Hwp & Hwk & Hcell).
  rewrite E in Hq. injection Hq as ->.
  assert (Hpl : p ∉ l) by (intros Hi; destruct (chain_cell _ _ _ (qi_chain _ _ (inv_queue _ _ _ I)) Hi); congruence).
  assert (Hph : p ∉ holders (threads st)) by (intros Hi; destruct (inv_cells _ _ _ I _ Hi); congruence).
  assert (Hw : forall m, p ∉ m -> works q' m = works (queue st) m).
  { intros m Hm. unfold works. f_equal. apply map_ext_in. intros k Hk. apply Hwk. intros ->. by apply Hm, list_elem_of_In. }
  constructor; fields; try apply I.
  - exact Hq1.
  - rewrite <- app_assoc. pose proof (inv_apart _ _ _ I) as Hn.
    assert (P : l ++ [p] ++ holders (threads st) ≡ₚ p :: l ++ holders (threads st)) by solve_Permutation.
    rewrite P. constructor; [| exact Hn]. rewrite elem_of_app. tauto.
  - intros k Hk. apply Hcell. right. by apply I.
  - intros k Hk. apply Hcell in Hk as [-> | Hk]; [set_solver |]. apply (inv_known _ _ _ I) in Hk. set_solver.
  - intros _ _. by left.
  - intros Hm _. left. by destruct l.
  - destruct (inv_order _ _ _ I) as [qd ->]. exists (qd ++ [(f, a)]). by rewrite <- app_assoc.
  - intros Hfr. unfold works. rewrite map_app, concat_app. fold (works q' l). rewrite (Hw l Hpl). cbn [map concat]. rewrite Hwp.
    rewrite (inv_started _ _ _ I Hfr). by rewrite <- app_assoc.
  - rewrite (Hw _ Hph). apply I.
Qed.

(** A job is pulled. *)
Lemma inv_pull n st l p i q' :
  pool_inv n st (p :: l) -> threads st !! i = Some Counted -> (l <> [] -> has_jobs st = 1) ->
  queue_is q' l -> jobs q' = jobs (queue st) ->
  pool_inv n (set_pc i (Holding (Some p))
    (set_history (added st) (started st ++ work_of (queue st) (Some p)) (ended st) (set_queue q' st))) l.
Proof.
  intros I Hi Hv Hq Hj. pose proof (holders_insert _ _ _ (Holding (Some p)) Hi) as Hh.
  change (option_list (holder Counted)) with (@nil nat) in Hh.
  change (option_list (holder (Holding (Some p)))) with [p] in Hh. rewrite app_nil_r in Hh.
  assert (Hw : forall m, works q' m = works (queue st) m) by (intros m; unfold works, work_of; by rewrite Hj).
  pose proof (thread_alive _ _ _ _ _ I Hi ltac:(done) ltac:(done)) as Hfr.
  constructor; fields; try apply I.
  - rewrite length_insert. apply I.
  - exact Hq.
  - rewrite Hh. pose proof (inv_apart _ _ _ I) as Hn.
    assert (P : l ++ holders (threads st) ++ [p] ≡ₚ (p :: l) ++ holders (threads st)) by solve_Permutation.
    by rewrite P.
  - intros k Hk. rewrite Hh in Hk. rewrite Hj. apply elem_of_app in Hk as [Hk | Hk]; [by apply I |].
    apply list_elem_of_singleton in Hk as ->. eapply chain_cell; [apply (inv_queue _ _ _ I) |]. left.
  - intros k Hk. rewrite Hj in Hk. apply (inv_known _ _ _ I) in Hk. rewrite Hh. set_solver.
  - rewrite (sumf_insert _ _ _ _ _ Hi), (inv_working _ _ _ I). cbn. lia.
  - rewrite (sumf_insert _ _ _ _ _ Hi), (inv_alive _ _ _ I). cbn. lia.
  - intros _ Hl. left. by apply Hv.
  - intros Ht (j & Hs). destruct (inv_wakeup _ _ _ I Ht) as (k & Hk).
    { exists j. unfold sleeps in *. cbn in Hs. by eapply sleeper_old. }
    exists k. by eapply stays.
  - intros _ _. right. rewrite (inv_working _ _ _ I).
    pose proof (sumf_at working_one _ _ _ ltac:(by intros []) Hi). cbn in *. lia.
  - intros Hk. rewrite (sumf_insert _ _ _ _ _ Hi), (inv_stay _ _ _ I Hk). cbn. lia.
  - intros Hk. eapply no_birth; [exact Hi | reflexivity | by apply I].
  - exists (works (queue st) l). rewrite (inv_started _ _ _ I Hfr). by rewrite <- app_assoc.
  - intros _. rewrite (inv_started _ _ _ I Hfr), Hw. by rewrite <- app_assoc.
  - rewrite Hw. unfold works. rewrite Hh, map_app, concat_app. cbn [map concat]. rewrite app_nil_r.
    fold (works (queue st) (holders (threads st))). rewrite app_assoc. by rewrite (inv_ended _ _ _ I).
Qed.

(** A job is run and freed. *)
Lemma inv_run n st l p i j :
  pool_inv n st l -> threads st !! i = Some (Holding (Some p)) -> jobs (queue st) !! p = Some j ->
  pool_inv n (set_pc i Finishing (set_history (added st) (started st) (ended st ++ [(j_function j, j_arg j)])
    (set_queue (free_job (Some p) (queue st)) st))) l.
Proof.
  intros I Hi Hj. pose proof (holders_insert _ _ _ Finishing Hi) as Hh. 
  change (option_list (holder Finishing)) with (@nil nat) in Hh.
  change (option_list (holder (Holding (Some p)))) with [p] in Hh. rewrite app_nil_r in Hh.
  set (hs := holders (<[i := Finishing]> (threads st))) in *.
  pose proof (inv_apart _ _ _ I) as Hn. rewrite <- Hh in Hn.
  assert (P : l ++ hs ++ [p] ≡ₚ p :: l ++ hs) by solve_Permutation. rewrite P in Hn.
  apply NoDup_cons in Hn as [Hp Hn]. rewrite elem_of_app in Hp.
  destruct (free_is _ _ p (inv_queue _ _ _ I)) as [Hq Hwk]; [tauto |].
  assert (Hw : forall m, p ∉ m -> works (free_job (Some p) (queue st)) m = works (queue st) m).
  { intros m Hm. unfold works. f_equal. apply map_ext_in. intros k Hk. apply Hwk. intros ->. by apply Hm, list_elem_of_In. }
  constructor; fields; try apply I.
  - rewrite length_insert. apply I.
  - exact Hq.
  - exact Hn.
  - intros k Hk. cbn [free_job jobs]. rewrite lookup_delete_ne by (intros ->; tauto). apply I. rewrite <- Hh.
    apply elem_of_app. by left.
  - intros k Hk. cbn [free_job jobs] in Hk. destruct (decide (k = p)) as [-> | Hkp].
    { rewrite lookup_delete_eq in Hk. by destruct Hk. }
    rewrite lookup_delete_ne in Hk by congruence. apply (inv_known _ _ _ I) in Hk. rewrite <- Hh in Hk. fold hs. set_solver.
  - rewrite (sumf_insert _ _ _ _ _ Hi), (inv_working _ _ _ I). cbn. lia.
  - rewrite (sumf_insert _ _ _ _ _ Hi), (inv_alive _ _ _ I). cbn. lia.
  - intros Hke Hl. destruct (inv_token _ _ _ I Hke Hl) as [Ht | (k & Hk)]; [by left | right; exists k].
    destruct Hk as [Hk | Hk]; [left | right]; by eapply stays.
  - intros Ht (k & Hs). destruct (inv_wakeup _ _ _ I Ht) as (m & Hm).
    { exists k. unfold sleeps in *. cbn in Hs. by eapply sleeper_old. }
    exists m. by eapply stays.
  - intros Hk. rewrite (sumf_insert _ _ _ _ _ Hi), (inv_stay _ _ _ I Hk). cbn. lia.
  - intros Hk. eapply no_birth; [exact Hi | reflexivity | by apply I].
  - rewrite (Hw l) by tauto. apply I.
  - fold hs. rewrite (Hw hs) by tauto. rewrite <- (inv_ended _ _ _ I).
    unfold works at 2. rewrite <- Hh, map_app, concat_app. cbn [map concat]. unfold work_of at 2. rewrite Hj, app_nil_r.
    fold (works (queue st) hs). solve_Permutation.
Qed.

(** ** Every step keeps it *)

Lemma post_commutes w a s e q st :
  bsem_post w (set_history a s e (set_queue q st)) = set_history a s e (set_queue q (bsem_post w st)).
Proof. unfold bsem_post, wake. fields. by destruct (threads st !! w) as [[] |]. Qed.
Lemma post_keeps w st :
  queue (bsem_post w st) = queue st /\ added (bsem_post w st) = added st /\ started (bsem_post w st) = started st /\
  ended (bsem_post w st) = ended st /\ has_jobs (bsem_post w st) = 1 /\ waiter (bsem_post w st) = waiter st.
Proof. unfold bsem_post, wake. fields. by destruct (threads st !! w) as [[] |]. Qed.
Lemma post_other w st i c : threads st !! i = Some c -> c <> Asleep -> threads (bsem_post w st) !! i = Some c.
Proof.
  intros Hi Hc. unfold bsem_post, wake. fields. destruct (threads st !! w) as [[] |] eqn:Hw; try exact Hi.
  cbn [set_pc threads]. by eapply stays.
Qed.

Lemma pull_step_inv n st l i w :
  pool_inv n st l -> signal_ok w st -> threads st !! i = Some Counted ->
  exists st' l', thread_do i w st = Ok st' /\ pool_inv n st' l'.
Proof.
  intros I Hw Hi. unfold thread_do. rewrite Hi. unfold touches.
  rewrite (thread_alive _ _ _ _ _ I Hi), decide_False by (done || apply not_elem_of_nil).
  pose proof (inv_queue _ _ _ I) as Hq. destruct l as [| p l].
  - rewrite (pull_empty _ Hq). cbn [work_of]. rewrite app_nil_r. do 2 eexists. split; [reflexivity |].
    pose proof (holders_same _ _ _ (Holding None) Hi eq_refl eq_refl) as Hhs.
    constructor; fields; try apply I.
    + rewrite length_insert. apply I.
    + rewrite Hhs. apply I.
    + intros k Hk. rewrite Hhs in Hk. by apply I.
    + intros k Hk. rewrite Hhs. by apply I.
    + rewrite (sumf_insert _ _ _ _ _ Hi), (inv_working _ _ _ I). cbn. lia.
    + rewrite (sumf_insert _ _ _ _ _ Hi), (inv_alive _ _ _ I). cbn. lia.
    + done.
    + intros Ht (j & Hs). destruct (inv_wakeup _ _ _ I Ht) as (k & Hk).
      { exists j. unfold sleeps in *. cbn in Hs. by eapply sleeper_old. }
      exists k. by eapply stays.
    + intros Hk. rewrite (sumf_insert _ _ _ _ _ Hi), (inv_stay _ _ _ I Hk). cbn. lia.
    + intros Hk. eapply no_birth; [exact Hi | reflexivity | by apply I].
    + rewrite <- (inv_ended _ _ _ I). unfold works. by rewrite Hhs.
  - destruct (pull_is _ _ _ Hq) as (q' & -> & Hq' & Hj). destruct l as [| p2 l].
    + do 2 eexists. split; [reflexivity |]. by apply inv_pull.
    + rewrite post_commutes. destruct (post_keeps w st) as (E1 & E2 & E3 & E4 & E5 & _).
      do 2 eexists. split; [reflexivity |]. rewrite <- E1, <- E2, <- E3, <- E4.
      apply inv_pull; [by apply inv_post | by apply post_other | by intros _ | exact Hq' | by rewrite E1].
Qed.
Definition needs_lock (c : pc) (st : thpool) : bool :=
  match c with
  | Starting | Finishing | Leaving => true
  | Awake => negb (threads_keepalive st =? 0)
  | _ => false
  end.
Lemma touches_ok x st r : freed st = [] -> touches x st r = r.
Proof. intros E. unfold touches. rewrite E. by rewrite decide_False by apply not_elem_of_nil. Qed.
Lemma with_lock_ok st r : freed st = [] -> locked st = false -> with_thcount_lock st r = r.
Proof. intros E L. unfold with_thcount_lock. by rewrite touches_ok, L. Qed.
(** A thread that waits for the lock has no step. *)
Lemma thread_blocked st i w c :
  freed st = [] -> threads st !! i = Some c -> needs_lock c st = true -> locked st = true -> thread_do i w st = Err ().
Proof.
  intros E Hi Hn L. unfold thread_do. rewrite Hi. unfold with_thcount_lock.
  destruct c as [| | | | | | [p |] | | | |]; try discriminate; cbn [needs_lock] in Hn; rewrite ?Hn, !touches_ok, L by exact E; reflexivity.
Qed.
(** A thread that is neither asleep, nor gone, nor waits for the lock has a step, and nothing
    undefined happens as long as nothing is freed. *)
Lemma thread_step_inv n st l i w c :
  pool_inv n st l -> freed st = [] -> signal_ok w st -> threads st !! i = Some c -> c <> Asleep -> c <> Gone ->
  needs_lock c st = false \/ locked st = false ->
  exists st' l', thread_do i w st = Ok st' /\ pool_inv n st' l'.
Proof.
  intros I Hfr Hw Hi Hs Hg Hlk. pose proof (inv_keep _ _ _ I) as Hk.
  assert (Hwait : waiter st = Waiting -> l <> [] \/ 0 < num_threads_working st) by (intros Hm; by apply I).
  assert (Hmove := fun c' alive working m Hh Hh' => inv_move n st l i c c' alive working m I Hi Hh Hh' Hfr).
  destruct (decide (c = Counted)) as [-> | Hc]; [by eapply pull_step_inv |].
  unfold thread_do. rewrite Hi.
  destruct c as [| | | | | | [p |] | | | |]; try done; cbn [needs_lock] in Hlk;
    try (destruct Hlk as [Hlk | Hlk]; [discriminate |]); rewrite ?touches_ok, ?with_lock_ok by assumption.
  - do 2 eexists. split; [reflexivity |].
    apply (Hmove Testing (num_threads_alive st + 1) (num_threads_working st) (waiter st)); try done; cbn; lia.
  - do 2 eexists. split; [reflexivity |]. destruct Hk as [Hk | Hk]; rewrite Hk.
    + apply (Hmove Leaving (num_threads_alive st) (num_threads_working st) (waiter st)); try done; cbn; lia.
    + apply (Hmove Checking (num_threads_alive st) (num_threads_working st) (waiter st)); try done; cbn; lia.
  - do 2 eexists. split; [reflexivity |]. by apply inv_bsem_wait.
  - destruct Hk as [Hk | Hk]; rewrite Hk in *; cbn in *.
    + do 2 eexists. split; [reflexivity |].
      apply (Hmove Testing (num_threads_alive st) (num_threads_working st) (waiter st)); try done; cbn; lia.
    + destruct Hlk as [Hlk | Hlk]; [discriminate |]. rewrite with_lock_ok by assumption.
      do 2 eexists. split; [reflexivity |].
      apply (Hmove Counted (num_threads_alive st) (num_threads_working st + 1) (waiter st)); try done; cbn; try lia; [by left |].
      intros Hm. destruct (Hwait Hm); [by left | right; lia].
  - destruct (inv_cells _ _ _ I p) as [j Hj].
    { unfold holders. apply list_elem_of_omap. exists (Holding (Some p)). split; [| reflexivity]. by eapply list_elem_of_lookup_2. }
    rewrite Hj. do 2 eexists. split; [reflexivity |]. by apply inv_run.
  - do 2 eexists. split; [reflexivity |].
    apply (Hmove Finishing (num_threads_alive st) (num_threads_working st) (waiter st)); try done; cbn; lia.
  - pose proof (inv_working _ _ _ I) as Hwk.
    pose proof (sumf_at working_one _ _ _ ltac:(by intros []) Hi) as Hpos. cbn in Hpos.
    do 2 eexists. split; [reflexivity |]. cbv zeta.
    destruct (num_threads_working st - 1 =? 0) eqn:E.
    + set (m := match waiter st with Waiting => Looking | m => m end).
      assert (Hm : m <> Waiting) by (subst m; by destruct (waiter st)).
      assert (G : pool_inv n (set_waiter m (set_pc i Testing (set_counts (num_threads_alive st) (num_threads_working st - 1) st))) l)
        by (apply (Hmove Testing); try done; cbn; lia).
      subst m. revert G. unfold set_waiter, set_pc, set_counts. fields. by destruct (waiter st) eqn:Em; rewrite ?Em.
    + apply (Hmove Testing (num_threads_alive st) (num_threads_working st - 1) (waiter st)); try done; cbn; lia.
  - do 2 eexists. split; [reflexivity |].
    apply (Hmove Unlocking (num_threads_alive st - 1) (num_threads_working st) (waiter st)); try done; cbn; lia.
  - do 2 eexists. split; [reflexivity |].
    apply (Hmove Gone (num_threads_alive st) (num_threads_working st) (waiter st)); try done; cbn; lia.
Qed.
Lemma touches_inv x st r st' : touches x st r = Ok st' -> x ∉ freed st /\ r = Ok st'.
Proof. unfold touches. by destruct (decide _). Qed.
Lemma not_freed n st l : pool_inv n st l -> ThePool ∉ freed st -> freed st = [].
Proof. intros I H. by destruct (inv_freed _ _ _ I) as [E | (E & _)]. Qed.
Lemma freed_pool n st l : pool_inv n st l -> freed st <> [] -> ThePool ∈ freed st.
Proof. intros I H. by destruct (inv_freed _ _ _ I) as [E | (E & _)]. Qed.
Lemma lock_inv n st l r st' :
  pool_inv n st l -> with_thcount_lock st r = Ok st' -> freed st = [] /\ locked st = false /\ r = Ok st'.
Proof.
  intros I H. apply touches_inv in H as [Hp H]. destruct (locked st); [discriminate |].
  split; [by eapply not_freed | by split].
Qed.
Lemma thread_ok_when n st l i w c st' :
  pool_inv n st l -> threads st !! i = Some c -> thread_do i w st = Ok st' ->
  freed st = [] /\ c <> Asleep /\ c <> Gone /\ (needs_lock c st = false \/ locked st = false).
Proof.
  intros I Hi H. assert (Hs : c <> Asleep /\ c <> Gone) by (split; intros ->; unfold thread_do in H; by rewrite Hi in H).
  destruct Hs as [Hs Hg].
  assert (Hfr : freed st = []).
  { destruct (decide (c = Unlocking)) as [-> | Hu]; [| by eapply thread_alive]. unfold thread_do in H. rewrite Hi in H.
    apply touches_inv in H as [H _]. by eapply not_freed. }
  split_and!; try assumption. destruct (needs_lock c st) eqn:En; [right | by left].
  destruct (locked st) eqn:El; [| reflexivity]. by rewrite (thread_blocked st i w c Hfr Hi En El) in H.
Qed.

Lemma waiter_inv n st l m :
  pool_inv n st l -> (m = Waiting -> freed st = [] -> l <> [] \/ 0 < num_threads_working st) -> pool_inv n (set_waiter m st) l.
Proof. intros I Hm. constructor; fields; try apply I. exact Hm. Qed.
Lemma step_inv n st l st' : pool_inv n st l -> step st st' -> exists l', pool_inv n st' l'.
Proof.
  intros I [i w st1 _ Hw H | st1 H].
  - destruct (threads st !! i) as [c |] eqn:Hi; [| unfold thread_do in H; by rewrite Hi in H].
    destruct (thread_ok_when _ _ _ _ _ _ _ I Hi H) as (Hfr & Hs & Hg & Hl).
    destruct (thread_step_inv n st l i w c I Hfr Hw Hi Hs Hg Hl) as (st2 & l' & H2 & I'). exists l'. congruence.
  - exists l. unfold thpool_wait in H. destruct (waiter st); try discriminate.
    apply (lock_inv _ _ _ _ _ I) in H as (_ & _ & H).
    destruct (_ || _) eqn:E; injection H as <-; (apply waiter_inv; [exact I |]); [| discriminate]. intros _ _.
    pose proof (inv_working _ _ _ I). pose proof (sumf_nonneg working_one (threads st) ltac:(by intros [])).
    destruct l as [| p l]; [right | by left]. rewrite (qi_len _ _ (inv_queue _ _ _ I)) in E. len_nils. lia.
Qed.

(** The pool is whole when its destruction begins. *)
Lemma all_alive l :
  sumf starting_one l = 0 -> sumf gone_one l = 0 -> sumf alive_one l = len l.
Proof.
  induction l as [| c l IH]; intros Hs Hg; [reflexivity |]. cbn [sumf] in *. rewrite len_cons.
  pose proof (sumf_nonneg_starting l). pose proof (sumf_nonneg gone_one l ltac:(by intros [])).
  assert (0 <= starting_one c /\ 0 <= gone_one c) as [? ?] by (by destruct c). rewrite IH by lia. destruct c; cbn in *; lia.
Qed.
Lemma no_starting_sum st : no_starting st -> sumf starting_one (threads st) = 0.
Proof. intros H. apply sumf_zero. intros i c Hi. specialize (H i). rewrite Hi in H. by destruct c. Qed.
Lemma sum_no_starting st : sumf starting_one (threads st) = 0 -> no_starting st.
Proof. intros H i Hi. pose proof (sumf_at starting_one _ _ _ ltac:(by intros []) Hi) as Hs. cbn in Hs. lia. Qed.
Lemma begin_inv n st l : pool_inv n st l -> no_starting st -> threads_keepalive st = 1 -> pool_inv n (destroy_begin st) l.
Proof.
  intros I Hs%no_starting_sum Hk. constructor; unfold destroy_begin; fields; try apply I; try done; [by left | |].
  - intros _. rewrite (inv_alive _ _ _ I), all_alive by (assumption || by apply I). unfold len. by rewrite (inv_threads _ _ _ I).
  - destruct (inv_freed _ _ _ I) as [E | (_ & E & _)]; [by left | lia].
Qed.
(** Nobody holds a job when no thread is alive. *)
Lemma dead_no_holder n st l : pool_inv n st l -> num_threads_alive st = 0 -> holders (threads st) = [].
Proof.
  intros I Ha. apply holders_none. intros c [i Hi]%list_elem_of_lookup. rewrite (inv_alive _ _ _ I) in Ha.
  pose proof (sumf_at alive_one _ _ _ ltac:(by intros []) Hi) as Hc1. destruct c; try reflexivity. cbn in Hc1. lia.
Qed.
Lemma end_is n st l fuel st' :
  pool_inv n st l -> threads_keepalive st = 0 -> destroy_end fuel st = Ok st' ->
  num_threads_alive st = 0 /\ freed st = [] /\ pool_inv n st' [] /\ threads st' = threads st /\
  jobs (queue st') = ∅ /\ freed st' = parts (Z.of_nat (Z.to_nat n)).
Proof.
  intros I Hk H. apply touches_inv in H as [Hp H]. pose proof (not_freed _ _ _ I Hp) as Hfr.
  destruct (num_threads_alive st =? 0) eqn:Ea; [| discriminate]. apply Z.eqb_eq in Ea.
  pose proof (dead_no_holder _ _ _ I Ea) as Hno.
  destruct (clear_is fuel _ _ (inv_queue _ _ _ I)) as [[_ E] | (q' & E & Hq' & Hj)]; rewrite E in H; [discriminate |].
  cbn [mbind cres_bind] in H. injection H as <-.
  assert (He : jobs q' = ∅).
  { apply map_empty. intros k. rewrite Hj. destruct (decide (k ∈ l)) as [| Hkl]; [reflexivity |].
    destruct (jobs (queue st) !! k) as [j |] eqn:Ej; [exfalso | reflexivity]. apply Hkl.
    pose proof (inv_known _ _ _ I k ltac:(by eexists)) as Hin. by rewrite Hno, app_nil_r in Hin. }
  split; [exact Ea |]. split; [exact Hfr |]. rewrite (inv_total _ _ _ I Hk). split; [| done].
  constructor; fields; try apply I; rewrite ?Hno; try done.
  - constructor.
  - intros p Hp'. by apply elem_of_nil in Hp'.
  - intros p [j Hpj]. by rewrite He, lookup_empty in Hpj.
  - by left.
  - right. split; [| done]. unfold parts. set_solver.
  - pose proof (inv_ended _ _ _ I) as E'. by rewrite Hno in E'.
Qed.
Lemma outside_inv n st l st' : pool_inv n st l -> outside st st' -> exists l', pool_inv n st' l'.
Proof.
  intros I [p w f a st1 Hp Hw H | Hm | st1 H | | i st1 H | i | Hs Hk | st1 _ H | fuel st1 Hk H].
  - apply touches_inv in H as [_ H]. apply bind_ok in H as (q & Hq & [= <-]). exists (l ++ [p]).
    rewrite post_commutes. destruct (post_keeps w st) as (E1 & E2 & E3 & E4 & E5 & _). rewrite <- E2, <- E3, <- E4.
    apply inv_enqueue; [by apply inv_post | exact E5 | by rewrite E1 | by rewrite E1].
  - exists l. by apply waiter_inv.
  - exists l. apply touches_inv in H as [_ H]. case_match; [discriminate |]. injection H as <-. constructor; fields; apply I.
  - exists l. constructor; fields; apply I.
  - exists l. unfold thread_hold in H. repeat case_match; try discriminate; injection H as <-; constructor; fields; apply I.
  - exists l. by apply inv_wake.
  - exists l. by apply begin_inv.
  - exists l. apply touches_inv in H as [_ H]. case_match; [discriminate |]. injection H as <-. by apply inv_post_all.
  - exists []. by destruct (end_is _ _ _ _ _ I Hk H) as (_ & _ & I' & _).
Qed.
Lemma reachable_inv n st : reachable n st -> exists l, pool_inv n st l.
Proof.
  induction 1 as [| st st' _ [l I] H | st st' _ [l I] H].
  - exists []. apply inv_init.
  - by eapply step_inv.
  - by eapply outside_inv.
Qed.

(** ** The work that is left *)

(** How far a thread is from sleep. *)
Definition rank (c : pc) : Z :=
  match c with
  | Asleep | Gone => 0
  | Checking | Unlocking => 1
  | Leaving => 2
  | Testing => 3
  | Starting => 4
  | Finishing => 5
  | Holding _ => 6
  | Counted => 7
  | Awake => 8
  end.
Definition main_rank (m : main_pc) : Z := match m with Looking => 1 | _ => 0 end.
Definition potential (st : thpool) : Z :=
  20 * jq_len (queue st) + 8 * has_jobs st + sumf rank (threads st) + main_rank (waiter st).

Lemma rank_nonneg c : 0 <= rank c.
Proof. by destruct c. Qed.
Lemma potential_nonneg n st l : pool_inv n st l -> 0 <= potential st.
Proof.
  intros I. unfold potential. rewrite (qi_len _ _ (inv_queue _ _ _ I)).
  pose proof (sumf_nonneg rank (threads st) rank_nonneg). destruct (inv_sem _ _ _ I), (waiter st); cbn; pose_len; lia.
Qed.
Lemma post_rank w st : sumf rank (threads (bsem_post w st)) <= sumf rank (threads st) + 1.
Proof.
  unfold bsem_post, wake. fields. destruct (threads st !! w) as [[] |] eqn:Hw; cbn [set_sem set_pc threads]; try lia.
  rewrite (sumf_insert _ _ _ _ _ Hw). cbn. lia.
Qed.

(** What a thread's step does, when it has one. *)
Lemma thread_cases n st l i w c st' :
  pool_inv n st l -> threads st !! i = Some c -> thread_do i w st = Ok st' ->
  match c with
  | Starting => st' = set_pc i Testing (set_counts (num_threads_alive st + 1) (num_threads_working st) st)
  | Testing => st' = set_pc i (if negb (threads_keepalive st =? 0) then Checking else Leaving) st
  | Checking => st' = bsem_wait i st
  | Awake =>
      threads_keepalive st <> 0 /\ st' = set_pc i Counted (set_counts (num_threads_alive st) (num_threads_working st + 1) st) \/
      threads_keepalive st = 0 /\ st' = set_pc i Testing st
  | Counted => exists p (post : bool) q,
      jobqueue_pull (queue st) = Ok (p, post, q) /\
      st' = set_pc i (Holding p) (set_history (added st) (started st ++ work_of (queue st) p) (ended st)
              (set_queue q (if post then bsem_post w st else st)))
  | Holding p => exists e q, st' = set_pc i Finishing (set_history (added st) (started st) e (set_queue q st)) /\ jq_len q = jq_len (queue st)
  | Finishing => exists m, (m = waiter st \/ waiter st = Waiting /\ m = Looking) /\
      st' = set_waiter m (set_pc i Testing (set_counts (num_threads_alive st) (num_threads_working st - 1) st))
  | Leaving => st' = set_pc i Unlocking (set_counts (num_threads_alive st - 1) (num_threads_working st) st)
  | Unlocking => st' = set_pc i Gone st
  | Asleep | Gone => False
  end.
Proof.
  intros I Hi H. destruct (thread_ok_when _ _ _ _ _ _ _ I Hi H) as (Hfr & Hs & Hg & Hl).
  unfold thread_do in H. rewrite Hi in H.
  destruct c as [| | | | | | [p |] | | | |]; try done; cbn [needs_lock] in Hl;
    try (destruct Hl as [Hl | Hl]; [discriminate |]);
    rewrite ?touches_ok, ?with_lock_ok in H by assumption; try by injection H as <-.
  - destruct (threads_keepalive st =? 0) eqn:E; [right; split; [lia | by injection H as <-] | left].
    destruct Hl as [Hl | Hl]; [discriminate |]. cbn in H. rewrite with_lock_ok in H by assumption. split; [lia | by injection H as <-].
  - destruct (jobqueue_pull (queue st)) as [[[p post] q] | | |] eqn:Ep; try discriminate. injection H as <-.
    exists p, post, q. split; [reflexivity |]. destruct post; [by rewrite post_commutes | reflexivity].
  - destruct (jobs (queue st) !! p); [| discriminate]. injection H as <-. by do 2 eexists.
  - injection H as <-. exists (ended st), (queue st). by destruct st.
  - injection H as <-. cbv zeta. destruct (num_threads_working st - 1 =? 0).
    + exists (match waiter st with Waiting => Looking | m => m end). unfold set_waiter, set_pc, set_counts. fields.
      destruct (waiter st) eqn:E; (split; [tauto |]); by rewrite ?E.
    + exists (waiter st). split; [by left |]. by destruct st.
Qed.
Lemma thread_potential n st l i w st' :
  pool_inv n st l -> thread_do i w st = Ok st' -> potential st' < potential st.
Proof.
  intros I H. destruct (threads st !! i) as [c |] eqn:Hi; [| unfold thread_do in H; by rewrite Hi in H].
  pose proof (thread_cases _ _ _ _ _ _ _ I Hi H) as C. pose proof (inv_sem _ _ _ I) as Hv. unfold potential.
  destruct c; try done.
  - subst. fields. rewrite (sumf_insert _ _ _ _ _ Hi). cbn. lia.
  - subst. fields. rewrite (sumf_insert _ _ _ _ _ Hi). destruct (negb _); cbn; lia.
  - subst. unfold bsem_wait. destruct (has_jobs st =? 1) eqn:E; fields; rewrite (sumf_insert _ _ _ _ _ Hi); cbn; lia.
  - destruct C as [[_ ->] | [_ ->]]; fields; rewrite (sumf_insert _ _ _ _ _ Hi); cbn; lia.
  - destruct C as (p & post & q & E & ->). pose proof (inv_queue _ _ _ I) as Hq. destruct l as [| p' l].
    + rewrite (pull_empty _ Hq) in E. injection E as <- <- <-. fields. rewrite (sumf_insert _ _ _ _ _ Hi). cbn. lia.
    + destruct (pull_is _ _ _ Hq) as (q' & E' & Hq' & _). rewrite E' in E. injection E as <- <- <-.
      pose proof (qi_len _ _ Hq) as L. pose proof (qi_len _ _ Hq') as L'. rewrite len_cons in L.
      destruct l as [| p2 l]; fields.
      * rewrite (sumf_insert _ _ _ _ _ Hi). cbn [rank]. lia.
      * destruct (post_keeps w st) as (_ & _ & _ & _ & E5 & E6). rewrite E5, E6.
        rewrite (sumf_insert _ _ _ _ _ (post_other w _ _ _ Hi ltac:(discriminate))).
        pose proof (post_rank w st). cbn [rank]. lia.
  - destruct C as (e & q & -> & El). fields. rewrite El, (sumf_insert _ _ _ _ _ Hi). cbn. lia.
  - destruct C as (m & Hm & ->). fields. rewrite (sumf_insert _ _ _ _ _ Hi).
    destruct Hm as [-> | [-> ->]]; cbn; lia.
  - subst. fields. rewrite (sumf_insert _ _ _ _ _ Hi). cbn. lia.
  - subst. fields. rewrite (sumf_insert _ _ _ _ _ Hi). cbn. lia.
Qed.
Lemma step_potential n st l st' : pool_inv n st l -> step st st' -> potential st' < potential st.
Proof.
  intros I [i w st1 _ _ H | st1 H]; [by eapply thread_potential |].
  unfold thpool_wait in H. unfold potential. destruct (waiter st) eqn:Em; try discriminate.
  apply (lock_inv _ _ _ _ _ I) in H as (_ & _ & H). destruct (_ || _); injection H as <-; fields; cbn; lia.
Qed.
(** Only so many steps are left. *)
Lemma steps_bounded n st l k st' :
  pool_inv n st l -> nsteps step k st st' -> Z.of_nat k <= potential st /\ exists l', pool_inv n st' l'.
Proof.
  intros I H. revert l I. induction H as [st | k st st1 st' Hs _ IH]; intros l I.
  - pose proof (potential_nonneg _ _ _ I). split; [lia | by exists l].
  - destruct (step_inv _ _ _ _ I Hs) as (l1 & I1). destruct (IH _ I1) as [Hk Hl].
    pose proof (step_potential _ _ _ _ I Hs). split; [lia | exact Hl].
Qed.

(** ** What is left alone *)

Lemma post_leaves w st :
  added (bsem_post w st) = added st /\ held (bsem_post w st) = held st /\
  threads_keepalive (bsem_post w st) = threads_keepalive st /\ freed (bsem_post w st) = freed st /\
  num_threads_alive (bsem_post w st) = num_threads_alive st.
Proof. unfold bsem_post, wake. fields. by destruct (threads st !! w) as [[] |]. Qed.
Lemma step_keeps n st l st' :
  pool_inv n st l -> step st st' ->
  added st' = added st /\ held st' = held st /\ threads_keepalive st' = threads_keepalive st /\ freed st' = freed st.
Proof.
  intros I [i w st1 _ _ H | st1 H].
  - destruct (threads st !! i) as [c |] eqn:Hi; [| unfold thread_do in H; by rewrite Hi in H].
    pose proof (thread_cases _ _ _ _ _ _ _ I Hi H) as C. destruct c; try done; try by subst.
    + subst. unfold bsem_wait. by case_match.
    + by destruct C as [[_ ->] | [_ ->]].
    + destruct C as (p & post & q & _ & ->). destruct (post_leaves w st) as (E1 & E2 & E3 & E4 & _). by destruct post.
    + by destruct C as (e & q & -> & _).
    + by destruct C as (m & _ & ->).
  - unfold thpool_wait in H. destruct (waiter st); try discriminate.
    apply (lock_inv _ _ _ _ _ I) in H as (_ & _ & H). by destruct (_ || _); injection H as <-.
Qed.
Lemma rtc_keeps n st l st' :
  pool_inv n st l -> rtc step st st' ->
  (exists l', pool_inv n st' l') /\
  added st' = added st /\ held st' = held st /\ threads_keepalive st' = threads_keepalive st /\ freed st' = freed st.
Proof.
  intros I H. revert l I. induction H as [st | st st1 st' Hs _ IH]; intros l I; [by split; [exists l |] |].
  destruct (step_inv _ _ _ _ I Hs) as (l1 & I1). destruct (IH _ I1) as (? & E1 & E2 & E3 & E4).
  destruct (step_keeps _ _ _ _ I Hs) as (F1 & F2 & F3 & F4). split; [assumption |]. repeat split; congruence.
Qed.

(** A thread for the signal. *)
Lemma signal_exists st : exists w, signal_ok w st.
Proof.
  destruct (decide (Exists (fun c => c = Asleep) (threads st))) as [H | H].
  - apply Exists_exists in H as (c & Hc & ->). apply list_elem_of_lookup in Hc as [w Hw]. exists w. by left.
  - exists O. right. intros i Hi. apply H, Exists_exists. exists Asleep. split; [| reflexivity].
    by eapply list_elem_of_lookup_2.
Qed.
Lemma not_locked st : (forall i, threads st !! i <> Some Unlocking) -> locked st = false.
Proof.
  intros H. unfold locked. destruct (existsb _ _) eqn:E; [exfalso | reflexivity].
  apply existsb_exists in E as (c & Hc & E). apply bool_decide_eq_true in E as ->.
  apply list_elem_of_In, list_elem_of_lookup in Hc as [i Hi]. by apply (H i).
Qed.
(** When nothing can happen any more, the threads sleep or are gone. *)
Lemma stuck_threads n st l :
  pool_inv n st l -> freed st = [] -> held st = ∅ -> (forall st', ~ step st st') ->
  (forall i c, threads st !! i = Some c -> c = Asleep \/ c = Gone) /\ waiter st <> Looking.
Proof.
  intros I Hfr Hh Hst. destruct (signal_exists st) as [w Hw].
  assert (Hno : forall i c, threads st !! i = Some c -> c <> Asleep -> c <> Gone ->
    ~ (needs_lock c st = false \/ locked st = false)).
  { intros i c Hi Hs Hg Hl. destruct (thread_step_inv n st l i w c I Hfr Hw Hi Hs Hg Hl) as (st' & _ & H & _).
    apply (Hst st'). eapply step_thread; [| exact Hw | exact H]. left. by rewrite Hh. }
  assert (Hlk : locked st = false).
  { apply not_locked. intros i Hi. by apply (Hno i Unlocking Hi); [| | left]. }
  split.
  - intros i c Hi. destruct (decide (c = Asleep)) as [| Hs]; [by left |]. destruct (decide (c = Gone)) as [| Hg]; [by right |].
    exfalso. apply (Hno i c Hi Hs Hg). by right.
  - intros Hm. destruct (thpool_wait st) as [st' | | |] eqn:E; [by apply (Hst st'), step_wait | | |];
      unfold thpool_wait in E; rewrite Hm, (with_lock_ok _ _ Hfr Hlk) in E; by case_match.
Qed.

Lemma working_no_holder l : sumf working_one l = 0 -> holders l = [].
Proof.
  intros H. apply holders_none. intros c [i Hi]%list_elem_of_lookup.
  pose proof (sumf_at working_one _ _ _ ltac:(by intros []) Hi) as Hc. destruct c; try reflexivity. cbn in Hc. lia.
Qed.
Lemma empty_done n st l :
  pool_inv n st l -> freed st = [] -> jq_len (queue st) = 0 -> num_threads_working st = 0 -> ended st ≡ₚ added st.
Proof.
  intros I Hfr Hl Hw. rewrite (qi_len _ _ (inv_queue _ _ _ I)) in Hl. apply len_zero in Hl as ->.
  rewrite (inv_working _ _ _ I) in Hw. pose proof (inv_ended _ _ _ I) as E. rewrite (working_no_holder _ Hw) in E.
  cbn in E. rewrite app_nil_r in E. rewrite E, (inv_started _ _ _ I Hfr). cbn. by rewrite app_nil_r.
Qed.

(** What a thread's step can be. *)
Lemma thread_outcome n st l i w :
  pool_inv n st l -> signal_ok w st ->
  thread_do i w st <> NoFuel /\ (thread_do i w st = Undef <-> freed st <> [] /\ threads st !! i = Some Unlocking).
Proof.
  intros I Hw. destruct (threads st !! i) as [c |] eqn:Hi; [| unfold thread_do; rewrite Hi; split; [done | split; [done | by intros [_ ?]]]].
  destruct (decide (freed st = [])) as [Hfr | Hfr].
  - enough (H : match thread_do i w st with Ok _ | Err _ => True | _ => False end).
    { destruct (thread_do i w st); try contradiction; (split; [done |]); (split; [discriminate |]); by intros [? _]. }
    destruct (decide (c = Asleep \/ c = Gone)) as [[-> | ->] | Hc]; try (unfold thread_do; by rewrite Hi).
    destruct (needs_lock c st) eqn:En, (locked st) eqn:El; [by rewrite (thread_blocked st i w c) | | |];
      (destruct (thread_step_inv n st l i w c I Hfr Hw Hi) as (st' & _ & -> & _); [tauto | tauto | rewrite En, El; tauto | done]).
  - assert (Hc : c = Unlocking \/ c = Gone).
    { destruct (decide (c = Unlocking)) as [| Hu]; [by left |]. destruct (decide (c = Gone)) as [| Hg]; [by right |].
      by destruct (Hfr (thread_alive _ _ _ _ _ I Hi Hu Hg)). }
    pose proof (freed_pool _ _ _ I Hfr) as Hp. unfold thread_do, touches. rewrite Hi.
    destruct Hc as [-> | ->]; [rewrite decide_True by exact Hp; by split |]. split; [discriminate | by split; [| intros [_ ?]]].
Qed.
Lemma ended_spec k (ts : list pc) :
  existsb (fun c => bool_decide (c = Gone)) (take k ts) = true <-> exists i, (i < k)%nat /\ ts !! i = Some Gone.
Proof.
  rewrite existsb_exists. split.
  - intros (c & Hc & E). apply bool_decide_eq_true in E as ->. apply list_elem_of_In, list_elem_of_lookup in Hc as [i Hi].
    apply lookup_take_Some in Hi as [Hi Hk]. by exists i.
  - intros (i & Hk & Hi). exists Gone. split; [| by apply bool_decide_eq_true].
    apply list_elem_of_In, list_elem_of_lookup. exists i. by apply lookup_take_Some.
Qed.
Lemma pause_undef n st l :
  pool_inv n st l ->
  thpool_pause st = Undef <-> freed st <> [] \/ exists i, Z.of_nat i < num_threads_alive st /\ threads st !! i = Some Gone.
Proof.
  intros I. unfold thpool_pause. destruct (decide (freed st = [])) as [Hfr | Hfr].
  - rewrite touches_ok by exact Hfr. destruct (existsb _ _) eqn:E.
    + apply ended_spec in E as (i & Hk & Hi). split; [intros _; right; exists i; split; [lia | exact Hi] | done].
    + split; [done |]. intros [? | (i & Hk & Hi)]; [done |]. apply not_true_iff_false in E. destruct E.
      apply ended_spec. exists i. split; [lia | exact Hi].
  - unfold touches. rewrite (decide_True _ _ (freed_pool _ _ _ I Hfr)). tauto.
Qed.
Lemma pause_ok n st l :
  pool_inv n st l -> threads_keepalive st = 1 -> freed st = [] /\ exists st', thpool_pause st = Ok st'.
Proof.
  intros I Hk. assert (Hfr : freed st = []) by (destruct (inv_freed _ _ _ I) as [E | (_ & E & _)]; [exact E | lia]).
  split; [exact Hfr |]. unfold thpool_pause. rewrite touches_ok by exact Hfr. destruct (existsb _ _) eqn:E; [| by eexists].
  apply ended_spec in E as (i & _ & Hi). pose proof (sumf_at gone_one _ _ _ ltac:(by intros []) Hi) as Hg.
  rewrite (inv_stay _ _ _ I Hk) in Hg. cbn in Hg. lia.
Qed.

(** C32: For every interleaving of the threads, the jobs that are added, the signals, pausing
    and resuming, and the one who destroys the pool: the only undefined step of a thread is
    the last unlock of one that was counted out, behind the destroyer's freeing the pool.
    Adding a job is defined until the pool is freed, and pausing exactly until the pool is
    freed or one of the threads signalled has ended, which none has before the destruction
    begins. Jobs are started in the order in which they were added, each is run at most once,
    and [thpool_wait] only returns when all of them were run. *)
Theorem pool_safe n st :
  reachable n st ->
  (forall i w, signal_ok w st ->
     thread_do i w st <> NoFuel /\ (thread_do i w st = Undef <-> freed st <> [] /\ threads st !! i = Some Unlocking)) /\
  (freed st = [] -> forall p w f a, jobs (queue st) !! p = None -> exists st', thpool_add_work p w f a st = Ok st') /\
  (thpool_pause st = Undef <->
     freed st <> [] \/ exists i, Z.of_nat i < num_threads_alive st /\ threads st !! i = Some Gone) /\
  (threads_keepalive st = 1 -> freed st = [] /\ exists st', thpool_pause st = Ok st') /\
  (exists queued running, added st = started st ++ queued /\ ended st ++ running ≡ₚ started st) /\
  (forall st', thpool_wait st = Ok st' -> waiter st' = Returned -> ended st ≡ₚ added st).
Proof.
  intros [l I]%reachable_inv. split; [| split; [| split; [| split; [| split]]]].
  - intros i w Hw. by eapply thread_outcome.
  - intros Hfr p w f a Hp. unfold thpool_add_work. rewrite touches_ok by exact Hfr.
    destruct (push_is _ _ p f a (inv_queue _ _ _ I) Hp) as (q' & -> & _). by eexists.
  - by eapply pause_undef.
  - intros Hk. by eapply pause_ok.
  - destruct (inv_order _ _ _ I) as [qd Hq]. exists qd, (works (queue st) (holders (threads st))). split; [exact Hq | apply I].
  - intros st' H Hm. unfold thpool_wait in H. destruct (waiter st); try discriminate.
    apply (lock_inv _ _ _ _ _ I) in H as (Hfr & _ & H).
    destruct (_ || _) eqn:E; injection H as <-; [discriminate |]. eapply empty_done; [exact I | exact Hfr | lia | lia].
Qed.

(** C33: When nothing is added any more, no thread is paused and the pool is not destroyed, its
    threads come to rest within a number of steps that is known at the start, however they are
    scheduled; then every job was run, all threads sleep, and who waits for the pool has
    returned. *)
Theorem pool_drains n st :
  0 < n -> reachable n st -> threads_keepalive st = 1 -> held st = ∅ ->
  (forall k st', nsteps step k st st' -> Z.of_nat k <= potential st) /\
  (forall st', rtc step st st' -> (forall st'', ~ step st' st'') ->
     ended st' ≡ₚ added st /\ waiter st' <> Looking /\ waiter st' <> Waiting /\
     forall i c, threads st' !! i = Some c -> c = Asleep).
Proof.
  intros Hn [l I]%reachable_inv Hk Hh. split; [intros k st' H; by eapply steps_bounded in H as [H _] |].
  intros st' Hr Hst. destruct (rtc_keeps _ _ _ _ I Hr) as ([l' I'] & Ea & Eh & Ek & Ef).
  destruct (pause_ok _ _ _ I Hk) as [Hfr _]. rewrite Hh in Eh. rewrite Hk in Ek. rewrite Hfr in Ef.
  destruct (stuck_threads _ _ _ I' Ef Eh Hst) as [Hall Hm].
  assert (Hsleep : forall i c, threads st' !! i = Some c -> c = Asleep).
  { intros i c Hi. destruct (Hall i c Hi) as [-> | ->]; [reflexivity | exfalso].
    pose proof (sumf_at gone_one _ _ _ ltac:(by intros []) Hi) as Hg. rewrite (inv_stay _ _ _ I' Ek) in Hg. cbn in Hg. lia. }
  assert (Hw : num_threads_working st' = 0).
  { rewrite (inv_working _ _ _ I'). apply sumf_zero. intros i c Hi. by rewrite (Hsleep i c Hi). }
  assert (Hl : l' = []).
  { destruct l' as [| p l']; [reflexivity | exfalso].
    destruct (inv_token _ _ _ I' Ek ltac:(discriminate)) as [Hv | (i & [Hi | Hi])];
      [| apply Hsleep in Hi; discriminate | apply Hsleep in Hi; discriminate].
    assert (H0 : exists c, threads st' !! O = Some c).
    { destruct (threads st') as [| c ts] eqn:E; [| by exists c]. pose proof (inv_threads _ _ _ I') as Hlen. rewrite E in Hlen. cbn in Hlen. lia. }
    destruct H0 as [c Hc]. pose proof (Hsleep _ _ Hc) as ->.
    destruct (inv_wakeup _ _ _ I' Hv) as [j Hj]; [by exists O |]. apply Hsleep in Hj. discriminate. }
  subst l'. split; [| split; [exact Hm | split; [| exact Hsleep]]].
  - rewrite <- Ea. eapply empty_done; [exact I' | exact Ef | by rewrite (qi_len _ _ (inv_queue _ _ _ I')) | exact Hw].
  - intros E. destruct (inv_waiter _ _ _ I' E Ef) as [H | H]; [done | lia].
Qed.

(** ** Destruction *)

(** Something is on its way to let a thread go. *)
Definition on_its_way (a : Z) (st : thpool) : Prop :=
  has_jobs st = 1 \/ num_threads_alive st < a \/
  exists i c, threads st !! i = Some c /\ (c = Awake \/ c = Testing \/ c = Leaving).
Lemma thread_on_its_way n st l a i w st' :
  pool_inv n st l -> threads_keepalive st = 0 -> num_threads_alive st <= a -> on_its_way a st ->
  thread_do i w st = Ok st' -> on_its_way a st' /\ num_threads_alive st' <= a.
Proof.
  intros I Hk Ha H Hdo. destruct (threads st !! i) as [c |] eqn:Hi; [| unfold thread_do in Hdo; by rewrite Hi in Hdo].
  pose proof (thread_cases _ _ _ _ _ _ _ I Hi Hdo) as C.
  assert (Hother : forall c', (c = Awake \/ c = Testing -> c' = Testing \/ c' = Leaving) -> c <> Leaving ->
    has_jobs st = 1 \/ num_threads_alive st < a \/
    exists j d, <[i := c']> (threads st) !! j = Some d /\ (d = Awake \/ d = Testing \/ d = Leaving)).
  { intros c' Hc Hl. destruct H as [H | [H | (j & d & Hj & Hd)]]; [by left | by right; left | right; right].
    destruct (decide (j = i)) as [-> | Hij]; [| exists j, d; by rewrite list_lookup_insert_ne].
    exists i, c'. split; [by eapply at_now |]. rewrite Hi in Hj. injection Hj as <-. destruct Hd as [-> | [-> | ->]]; [| | done];
      destruct Hc as [-> | ->]; tauto. }
  rewrite Hk in C. cbn [Z.eqb negb] in C. destruct c; try done.
  - by destruct (sum_no_starting _ (inv_born _ _ _ I Hk) i).
  - subst. split; [| exact Ha]. apply Hother; [by right | done].
  - subst. unfold bsem_wait. destruct (has_jobs st =? 1); (split; [| exact Ha]).
    + right. right. exists i, Awake. split; [by eapply at_now | tauto].
    + apply Hother; [by intros [|] | done].
  - destruct C as [[? _] | [_ ->]]; [done |]. split; [| exact Ha]. apply Hother; [by left | done].
  - destruct C as (p & post & q & _ & ->). destruct (post_leaves w st) as (_ & _ & _ & _ & E). destruct post; fields.
    + rewrite E. split; [| exact Ha]. left. fields. by destruct (post_keeps w st) as (_ & _ & _ & _ & E5 & _).
    + split; [| exact Ha]. apply Hother; [by intros [|] | done].
  - destruct C as (e & q & -> & _). split; [| exact Ha]. apply Hother; [by intros [|] | done].
  - destruct C as (m & _ & ->). split; [| exact Ha]. apply Hother; [by left | done].
  - subst. split; [right; left |]; cbn; lia.
  - subst. split; [| exact Ha]. apply Hother; [by intros [|] | done].
Qed.
Lemma rtc_on_its_way n a s s' l :
  rtc step s s' -> pool_inv n s l -> threads_keepalive s = 0 ->
  num_threads_alive s <= a -> on_its_way a s -> on_its_way a s' /\ num_threads_alive s' <= a.
Proof.
  intros Hr. revert l. induction Hr as [s | s s2 s' Hs _ IH]; intros l1 I2 K2 A2 W2; [by split |].
  destruct (step_inv _ _ _ _ I2 Hs) as [l2 I3]. destruct (step_keeps _ _ _ _ I2 Hs) as (_ & _ & K3 & _).
  assert (G : on_its_way a s2 /\ num_threads_alive s2 <= a).
  { destruct Hs as [i w s2 _ _ Hd | s2 Hd]; [exact (thread_on_its_way _ _ _ _ _ _ _ I2 K2 A2 W2 Hd) |].
    unfold thpool_wait in Hd. destruct (waiter s); try discriminate.
    apply (lock_inv _ _ _ _ _ I2) in Hd as (_ & _ & Hd). destruct (_ || _); injection Hd as <-; auto. }
  destruct G as [G1 G2]. eapply (IH l2); try assumption. congruence.
Qed.

(** What the threads do behind the freeing. *)
Lemma after_the_end n st st' l i c :
  pool_inv n st' l -> freed st' = parts (Z.of_nat (Z.to_nat n)) -> threads st' = threads st -> threads st !! i = Some c ->
  c = Gone /\ (forall w, thread_do i w st' = Err ()) \/ c = Unlocking /\ (forall w, thread_do i w st' = Undef).
Proof.
  intros I Ef Et Hi. rewrite <- Et in Hi. assert (Hp : ThePool ∈ freed st') by (rewrite Ef; unfold parts; set_solver).
  unfold thread_do. rewrite Hi. unfold touches.
  destruct (decide (c = Gone)) as [-> | Hg]; [by left |]. destruct (decide (c = Unlocking)) as [-> | Hu].
  - right. split; [reflexivity |]. intros w. by rewrite decide_True.
  - pose proof (thread_alive _ _ _ _ _ I Hi Hu Hg) as E. rewrite E in Hp. by apply elem_of_nil in Hp.
Qed.

(** C34: Destroying a pool of which no thread is paused: after each round of signals its threads
    come to rest with one thread less alive and the lock free, so it ends after as many rounds
    as there are threads. When none is alive, the jobs left, the semaphore, every thread's
    struct and the pool are freed, and no memory of a job is lost; a thread that has gone by
    then does nothing any more, and for one that was counted out but has still to unlock, the
    unlock is undefined. *)
Theorem pool_destroyed n st :
  reachable n st -> threads_keepalive st = 0 -> held st = ∅ -> freed st = [] ->
  (forall st1, destroy_post st = Ok st1 ->
     (forall k st', nsteps step k st1 st' -> Z.of_nat k <= potential st1) /\
     forall st', rtc step st1 st' -> (forall st'', ~ step st' st'') ->
       num_threads_alive st' < num_threads_alive st /\ forall i, threads st' !! i <> Some Unlocking) /\
  (num_threads_alive st = 0 ->
     exists fuel st', destroy_end fuel st = Ok st' /\
       jobs (queue st') = ∅ /\ front (queue st') = None /\ jq_len (queue st') = 0 /\
       freed st' = [TheSemaphore] ++ map AThread (seq 0 (Z.to_nat n)) ++ [TheThreads; ThePool] /\
       forall i c, threads st !! i = Some c ->
         c = Gone /\ (forall w, thread_do i w st' = Err ()) \/ c = Unlocking /\ (forall w, thread_do i w st' = Undef)).
Proof.
  intros [l I]%reachable_inv Hk Hh Hfr. split.
  - intros st1 Hp. apply touches_inv in Hp as [_ Hp]. destruct (num_threads_alive st =? 0) eqn:E0; [discriminate |]. injection Hp as <-.
    pose proof (inv_post_all _ _ _ I) as I1. split; [intros k st' H; by eapply steps_bounded in H as [H _] |].
    set (a := num_threads_alive st) in *.
    intros st' Hr Hst. destruct (rtc_keeps _ _ _ _ I1 Hr) as ([l' I'] & _ & Eh & _ & Ef).
    destruct (rtc_on_its_way n a _ _ _ Hr I1 Hk ltac:(cbn; lia) ltac:(by left)) as [W A'].
    cbn [bsem_post_all held freed] in Eh, Ef. rewrite Hh in Eh. rewrite Hfr in Ef.
    destruct (stuck_threads _ _ _ I' Ef Eh Hst) as [Hall _].
    split; [| intros i Hi; by destruct (Hall _ _ Hi)].
    destruct W as [Hv | [Hlt | (i & c & Hi & Hc)]]; [| exact Hlt |].
    + destruct (decide (num_threads_alive st' = 0)) as [Ez | Ez].
      { pose proof (inv_alive _ _ _ I). pose proof (sumf_nonneg alive_one (threads st) ltac:(by intros [])). fold a in H. lia. }
      exfalso. apply Ez. rewrite (inv_alive _ _ _ I'). apply sumf_zero. intros i c Hi.
      destruct (Hall i c Hi) as [-> | ->]; [exfalso | reflexivity].
      destruct (inv_wakeup _ _ _ I' Hv) as [j Hj]; [by exists i |]. destruct (Hall _ _ Hj); discriminate.
    + destruct (Hall i c Hi) as [-> | ->]; naive_solver.
  - intros Ha. assert (He : exists st', destroy_end (S (length l)) st = Ok st').
    { unfold destroy_end. rewrite touches_ok, Ha by exact Hfr.
      destruct (clear_is (S (length l)) _ _ (inv_queue _ _ _ I)) as [[? _] | (q' & -> & _)]; [lia | by eexists]. }
    destruct He as [st' He]. exists (S (length l)), st'. split; [exact He |].
    destruct (end_is _ _ _ _ _ I Hk He) as (_ & _ & I' & Et & Ej & Ef). split; [exact Ej |].
    split; [by rewrite (qi_front _ _ (inv_queue _ _ _ I')) |]. split; [by rewrite (qi_len _ _ (inv_queue _ _ _ I')) |].
    split; [unfold parts in Ef; by rewrite Nat2Z.id in Ef |]. intros i c Hi. exact (after_the_end n st st' _ i c I' Ef Et Hi).
Qed.
End Pool.

(** ** A concrete pool *)

(** Two threads and a job. *)
Definition sample_pool : @thpool nat nat :=
  match thpool_add_work 7 0 1%nat 2%nat (thpool_init 2) with Ok st => st | _ => thpool_init 2 end.
Lemma sample_reachable : reachable 2 sample_pool.
Proof.
  apply (reach_outside 2 (thpool_init 2)); [apply reach_init |]. apply (out_add _ 7 0 1%nat 2%nat); [reflexivity | | reflexivity].
  right. intros [| [| [| i]]] H; discriminate.
Qed.
(** The next step of the only thread. *)
Definition only_step (st : @thpool nat nat) : thpool := match thread_do 0 0 st with Ok st => st | _ => st end.
Lemma only_step_reachable st :
  reachable 1 st -> held st = ∅ -> length (threads st) = 1%nat -> ~ sleeps st 0 -> reachable 1 (only_step st).
Proof.
  intros H Hh Hl Hs. unfold only_step. destruct (thread_do 0 0 st) as [st' | | |] eqn:E; try exact H.
  apply (reach_step 1 st); [exact H |]. apply (step_thread st 0 0); [left; by rewrite Hh | | exact E].
  right. intros [| i] Hi; [done |]. apply lookup_lt_Some in Hi. lia.
Qed.
(** One thread that has started, in a pool that is destroyed. *)
Definition sample_end : @thpool nat nat := destroy_begin (only_step (thpool_init 1)).
Lemma sample_end_reachable : reachable 1 sample_end.
Proof.
  apply (reach_outside 1 (only_step (thpool_init 1))); [apply only_step_reachable; [apply reach_init | done..] |].
  apply out_destroy; [by intros [| i] H | reflexivity].
Qed.
(** It leaves the loop and is counted out; before it unlocks the pool is freed. *)
Definition sample_race : @thpool nat nat :=
  match destroy_end 1 (only_step (only_step sample_end)) with Ok st => st | _ => sample_end end.
Lemma sample_race_reachable : reachable 1 sample_race.
Proof.
  apply (reach_outside 1 (only_step (only_step sample_end))).
  - apply only_step_reachable; [apply only_step_reachable; [apply sample_end_reachable | done..] | done..].
  - by apply (out_end _ 1).
Qed.
Lemma pool_safe_witness :
  (exists st', thpool_add_work 8 1 1%nat 3%nat sample_pool = Ok st') /\
  (exists queued running, added sample_pool = started sample_pool ++ queued /\ ended sample_pool ++ running ≡ₚ started sample_pool) /\
  thread_do 0 0 sample_race = Undef /\ thpool_pause sample_race = Undef.
Proof.
  destruct (pool_safe 2 sample_pool sample_reachable) as (_ & H & _ & _ & H' & _).
  destruct (pool_safe 1 sample_race sample_race_reachable) as (Hu & _ & Hp & _).
  split; [by apply H |]. split; [exact H' |]. split; [| apply Hp; by left].
  apply (Hu 0 0)%nat; [| by split]. right. by intros [| i] Hi.
Defined.
Lemma pool_drains_witness :
  potential sample_pool = 36 /\
  forall k st', nsteps step k sample_pool st' -> Z.of_nat k <= potential sample_pool.
Proof.
  split; [reflexivity |]. apply (pool_drains 2 sample_pool); [lia | apply sample_reachable | reflexivity | reflexivity].
Defined.
(** The same pool when the thread's last unlock comes first. *)
Lemma pool_destroyed_witness :
  (exists st1, destroy_post sample_end = Ok st1 /\
    forall st', rtc step st1 st' -> (forall st'', ~ step st' st'') -> num_threads_alive st' < 1) /\
  exists fuel st', destroy_end fuel (only_step (only_step (only_step sample_end))) = Ok st' /\ thread_do 0 0 st' = Err ().
Proof.
  split.
  - eexists. split; [reflexivity |]. intros st' Hr Hst.
    by eapply (pool_destroyed 1 sample_end); [apply sample_end_reachable | | | | | exact Hr | exact Hst].
  - destruct (pool_destroyed 1 (only_step (only_step (only_step sample_end)))) as [_ H]; [| done..|].
    + repeat (apply only_step_reachable; [| done..]). apply sample_end_reachable.
    + destruct (H eq_refl) as (fuel & st' & E & _ & _ & _ & _ & Ht). exists fuel, st'. split; [exact E |].
      destruct (Ht 0%nat Gone eq_refl) as [[_ He] | [? _]]; [apply He | discriminate].
Defined.
