(* ===== verification/Protobuf.v ===== *)
(** The protobuf and varint library the code links against (a submodule of the
    repository, not part of it): its operations are the fields of [Protobuf],
    what the code relies on is [ProtobufLaws]. On top of the interface: the
    sequential emission of fields into a buffer and the field-by-field decoding
    loop that every message of the program uses. *)

From S2P Require Import Prelude Vector.

(** The wire types the code names. *)
Inductive WireType := WIRETYPE_VARINT | WIRETYPE_LENGTH_DELIMITED | WIRETYPE_OTHER.

(** The effect of an encoding call on the buffer it is handed: its verdict and
    the bytes at the start of the buffer that it reports as written. *)
Record enc_out := EncOut { enc_ok : bool; enc_written : bytes }.

(** Arguments follow the C prototypes. An encoder takes the field number, the
    wire type, the value and the size of the buffer; a decoder the bytes its
    pointer designates and the buffer length it is told. *)
Class Protobuf := {
  protobuf_encode_varint : Z -> WireType -> Z -> Z -> enc_out;
  protobuf_encode_length_delimited : Z -> WireType -> bytes -> Z -> enc_out;
  protobuf_encode_string : Z -> WireType -> bytes -> Z -> enc_out;
  protobuf_decode_field_and_type : bytes -> Z -> option (Z * WireType * Z);
  protobuf_decode_varint : bytes -> Z -> option (Z * Z);
  protobuf_decode_length_delimited : bytes -> Z -> option (bytes * Z);
  protobuf_decode_string : bytes -> Z -> option (bytes * Z);
  (* the value and the number of bytes read, 0 when there is none *)
  varint_decode : bytes -> Z -> Z * Z;
  (* [None] when the buffer is too small *)
  varint_encode : Z -> Z -> option bytes
}.

(** Bytes a 64-bit value takes as a varint, seven bits each. *)
Definition varint_size (v : Z) : Z := 1 + Z.log2 v / 7.

(** The documented wire format: a field is a key followed by its payload, a
    varint payload is the value in base 128, a length-delimited payload is the
    length as a varint and the bytes. A call that has room writes exactly that;
    no call writes past the size it is given; decoders read it back whatever
    follows it, and report how many bytes they took. *)
Class ProtobufLaws (PB : Protobuf) := {
  wire_key : Z -> WireType -> bytes;
  wire_uint : Z -> bytes;
  wire_key_len f w : 1 <= f <= 15 -> len (wire_key f w) = 1;
  wire_uint_len v : 0 <= v < 2 ^ 64 -> len (wire_uint v) = varint_size v;
  encode_varint_room f w v n :
    1 <= f <= 15 -> 0 <= v < 2 ^ 64 -> 1 + varint_size v <= n ->
    protobuf_encode_varint f w v n = EncOut true (wire_key f w ++ wire_uint v);
  encode_ld_room f w d n :
    1 <= f <= 15 -> len d < 2 ^ 64 -> 1 + varint_size (len d) + len d <= n ->
    protobuf_encode_length_delimited f w d n =
      EncOut true (wire_key f w ++ wire_uint (len d) ++ d);
  encode_string_room f w d n :
    1 <= f <= 15 -> len d < 2 ^ 64 -> 1 + varint_size (len d) + len d <= n ->
    protobuf_encode_string f w d n =
      EncOut true (wire_key f w ++ wire_uint (len d) ++ d);
  encode_varint_bound f w v n :
    0 <= n -> len (enc_written (protobuf_encode_varint f w v n)) <= n;
  encode_ld_bound f w d n :
    0 <= n -> len (enc_written (protobuf_encode_length_delimited f w d n)) <= n;
  encode_string_bound f w d n :
    0 <= n -> len (enc_written (protobuf_encode_string f w d n)) <= n;
  decode_key f w rest n :
    1 <= f <= 15 -> 1 <= n ->
    protobuf_decode_field_and_type (wire_key f w ++ rest) n = Some (f, w, 1);
  decode_key_progress b n f w r :
    protobuf_decode_field_and_type b n = Some (f, w, r) -> 1 <= r;
  decode_varint_wire v rest n :
    0 <= v < 2 ^ 64 -> varint_size v <= n ->
    protobuf_decode_varint (wire_uint v ++ rest) n = Some (v, varint_size v);
  varint_decode_wire v rest n :
    0 <= v < 2 ^ 64 -> varint_size v <= n ->
    varint_decode (wire_uint v ++ rest) n = (v, varint_size v);
  decode_ld_wire d rest n :
    len d < 2 ^ 64 -> varint_size (len d) + len d <= n ->
    protobuf_decode_length_delimited (wire_uint (len d) ++ d ++ rest) n =
      Some (d, varint_size (len d) + len d);
  decode_string_wire d rest n :
    cstring d -> len d < 2 ^ 64 -> varint_size (len d) + len d <= n ->
    protobuf_decode_string (wire_uint (len d) ++ d ++ rest) n =
      Some (d, varint_size (len d) + len d);
  varint_encode_wire v n :
    0 <= v < 2 ^ 64 -> varint_size v <= n -> varint_encode v n = Some (wire_uint v);
  varint_encode_small v n :
    0 <= v < 2 ^ 64 -> n < varint_size v -> varint_encode v n = None;
  decode_varint_read b n v r : protobuf_decode_varint b n = Some (v, r) -> 0 <= r;
  varint_decode_read b n : 0 <= snd (varint_decode b n);
  decode_ld_read b n d r : protobuf_decode_length_delimited b n = Some (d, r) -> 0 <= r;
  decode_string_read b n d r : protobuf_decode_string b n = Some (d, r) -> 0 <= r
}.

Lemma varint_size_pos v : 1 <= varint_size v.
Proof.
  unfold varint_size. pose proof (Z.log2_nonneg v).
  pose proof (Z.div_pos (Z.log2 v) 7 ltac:(lia) ltac:(lia)). lia.
Qed.

Lemma varint_size_pow v k : 0 <= k -> 0 <= v < 2 ^ (7 * (k + 1)) -> varint_size v <= 1 + k.
Proof.
  intros Hk Hv. unfold varint_size.
  assert (Z.log2 v / 7 < k + 1); [| lia].
  apply Z.div_lt_upper_bound; [lia |].
  destruct (Z.eq_dec v 0) as [-> |]; [cbn; lia |].
  apply Z.log2_lt_pow2; lia.
Qed.

Lemma varint_size_64 v : 0 <= v < 2 ^ 64 -> varint_size v <= 10.
Proof. intros. apply (varint_size_pow v 9); lia. Qed.
Lemma varint_size_1 v : 0 <= v < 128 -> varint_size v = 1.
Proof.
  intros. pose proof (varint_size_pos v).
  pose proof (varint_size_pow v 0 ltac:(lia) ltac:(lia)). lia.
Qed.

Lemma varint_size_8 v : 0 <= v < 2 ^ 8 -> varint_size v <= 2.
Proof. intros. apply (varint_size_pow v 1); [lia |]. change (2 ^ (7 * (1 + 1))) with 16384. lia. Qed.
Lemma varint_size_32 v : 0 <= v < 2 ^ 32 -> varint_size v <= 5.
Proof.
  intros. apply (varint_size_pow v 4); [lia |]. change (2 ^ (7 * (4 + 1))) with 34359738368. lia.
Qed.

Lemma varint_size_28 v : 0 <= v < 2 ^ 28 -> varint_size v <= 4.
Proof.
  intros. apply (varint_size_pow v 3); [lia |]. change (2 ^ (7 * (3 + 1))) with 268435456. lia.
Qed.

(** ** Fields of a message *)

(** A field: its number, its wire type, its payload. *)
Definition wfield : Type := Z * WireType * bytes.

Section Fields.
Context {PB : Protobuf}.

(** [retVal = protobuf_encode_...(&buffer[written], max - written, &used);
    if (retVal == 0) return 0; written += used;] where [out] is what the
    buffer holds so far. *)
Definition emit (o : enc_out) (out : bytes) : cres bytes bytes :=
  if enc_ok o then Ok (out ++ enc_written o) else Err out.

(** [while (pos < buffer_length) { protobuf_decode_field_and_type(&buffer[pos],
    buffer_length, &field_no, &field_type, &bytes_read) ... pos += bytes_read;
    switch (field_no) ... }]. [step pos field_no s] is the body of the switch
    with [pos] after the key: the next state and the bytes it adds to [pos]. The
    position is a [size_t]. A decoder that takes more bytes than there are behind
    its pointer has read past the buffer, which is undefined; that is the one way
    for the position to get past the buffer, and so for it to wrap. *)
(** A position of the buffer or its end; no memory has 2^64 bytes. *)
Definition in_buffer (buffer : bytes) (pos : Z) : bool := pos <=? Z.min (len buffer) (2 ^ 64 - 1).
Section Loop.
Context {S : Type}.
Context (step : Z -> Z -> S -> cres S (S * Z)) (buffer : bytes) (buffer_length : Z).

Fixpoint field_loop (fuel : nat) (pos : Z) (s : S) : cres S S :=
  match fuel with
  | O => NoFuel
  | Datatypes.S fuel =>
      if pos <? buffer_length then
        match protobuf_decode_field_and_type (bdrop pos buffer) buffer_length with
        | None => Err s
        | Some (field_no, _, bytes_read) =>
            if in_buffer buffer (pos + bytes_read) then
              let pos := u64 (pos + bytes_read) in
              '(s, read) ← step pos field_no s;
              if in_buffer buffer (pos + read) then field_loop fuel (u64 (pos + read)) s else Undef
            else Undef
        end
      else Ok s
  end.
End Loop.

(** Enough iterations for any buffer: each one reads a key of at least a byte. *)
Definition loop_fuel (buffer_length : Z) : nat := S (Z.to_nat buffer_length).

Context `{!ProtobufLaws PB}.

Definition varint_field (f v : Z) : wfield := (f, WIRETYPE_VARINT, wire_uint v).
Definition ld_field (f : Z) (d : bytes) : wfield :=
  (f, WIRETYPE_LENGTH_DELIMITED, wire_uint (len d) ++ d).

Definition wire_field (x : wfield) : bytes :=
  let '(f, w, p) := x in wire_key f w ++ p.
Definition wire_msg (fs : list wfield) : bytes := concat (map wire_field fs).

Lemma wire_msg_nil : wire_msg [] = [].
Proof. reflexivity. Qed.
Lemma wire_msg_cons x fs : wire_msg (x :: fs) = wire_field x ++ wire_msg fs.
Proof. reflexivity. Qed.
Lemma wire_msg_app a b : wire_msg (a ++ b) = wire_msg a ++ wire_msg b.
Proof. unfold wire_msg. rewrite map_app, concat_app. reflexivity. Qed.

Lemma len_varint_field f v :
  1 <= f <= 15 -> 0 <= v < 2 ^ 64 ->
  len (wire_field (varint_field f v)) = 1 + varint_size v.
Proof. intros. cbn. rewrite len_app, wire_key_len, wire_uint_len; auto. Qed.
Lemma len_ld_field f d :
  1 <= f <= 15 -> len d < 2 ^ 64 ->
  len (wire_field (ld_field f d)) = 1 + varint_size (len d) + len d.
Proof.
  intros. cbn. pose proof (len_nonneg d).
  rewrite !len_app, wire_key_len, wire_uint_len; auto; lia.
Qed.

(** *** Emission: with room for the field, its wire form is appended. *)
Lemma emit_varint f v max out :
  1 <= f <= 15 -> 0 <= v < 2 ^ 64 -> max < 2 ^ 64 ->
  len out + (1 + varint_size v) <= max ->
  emit (protobuf_encode_varint f WIRETYPE_VARINT v (size_sub max (len out))) out =
    Ok (out ++ wire_field (varint_field f v)).
Proof.
  intros. pose proof (len_nonneg out). pose proof (varint_size_pos v).
  rewrite size_sub_small, encode_varint_room by lia. reflexivity.
Qed.
Lemma emit_ld f d max out :
  1 <= f <= 15 -> max < 2 ^ 64 ->
  len out + (1 + varint_size (len d) + len d) <= max ->
  emit (protobuf_encode_length_delimited f WIRETYPE_LENGTH_DELIMITED d
          (size_sub max (len out))) out =
    Ok (out ++ wire_field (ld_field f d)).
Proof.
  intros. pose proof (len_nonneg out). pose proof (len_nonneg d).
  pose proof (varint_size_pos (len d)).
  rewrite size_sub_small, encode_ld_room by lia. reflexivity.
Qed.
Lemma emit_string f d max out :
  1 <= f <= 15 -> max < 2 ^ 64 ->
  len out + (1 + varint_size (len d) + len d) <= max ->
  emit (protobuf_encode_string f WIRETYPE_LENGTH_DELIMITED d
          (size_sub max (len out))) out =
    Ok (out ++ wire_field (ld_field f d)).
Proof.
  intros. pose proof (len_nonneg out). pose proof (len_nonneg d).
  pose proof (varint_size_pos (len d)).
  rewrite size_sub_small, encode_string_room by lia. reflexivity.
Qed.

(** The first field of a message is given the whole buffer. *)
Lemma emit_varint_first f v max :
  1 <= f <= 15 -> 0 <= v < 2 ^ 64 -> 1 + varint_size v <= max ->
  emit (protobuf_encode_varint f WIRETYPE_VARINT v max) [] =
    Ok (wire_field (varint_field f v)).
Proof. intros. rewrite encode_varint_room by lia. reflexivity. Qed.
Lemma emit_ld_first f d max :
  1 <= f <= 15 -> len d < 2 ^ 64 -> 1 + varint_size (len d) + len d <= max ->
  emit (protobuf_encode_length_delimited f WIRETYPE_LENGTH_DELIMITED d max) [] =
    Ok (wire_field (ld_field f d)).
Proof. intros. rewrite encode_ld_room by lia. reflexivity. Qed.

(** No emission writes past the room it is given. *)
Lemma emit_bound o out out' max :
  len (enc_written o) <= size_sub max (len out) -> len out <= max -> max < 2 ^ 64 ->
  emit o out = Ok out' -> len out' <= max.
Proof.
  unfold emit. intros Hb Ho Hm H. destruct (enc_ok o); [| discriminate].
  injection H as <-. pose proof (len_nonneg out).
  rewrite size_sub_small in Hb by lia. rewrite len_app. lia.
Qed.

(** *** Decoding: a step that understands each field of a message in turn takes
    the loop through the whole message. *)
Section Reads.
Context {S : Type}.

(** [step] of the decoder started on a buffer: it depends on the buffer. *)
Context (step : bytes -> Z -> Z -> Z -> S -> cres S (S * Z)).

(** The payload [p] of a field number [f], wherever it lies in a buffer (shorter
    than 2^64 bytes), takes the state [s] to [s']. *)
Definition reads (f : Z) (p : bytes) (s s' : S) : Prop :=
  forall pre rest,
    let buf := pre ++ p ++ rest in
    len buf < 2 ^ 64 ->
    step buf (len buf) (len pre) f s = Ok (s', len p).

Inductive reads_all : list wfield -> S -> S -> Prop :=
| reads_nil s : reads_all [] s s
| reads_cons f w p fs s s' s'' :
    1 <= f <= 15 -> reads f p s s' -> reads_all fs s' s'' ->
    reads_all ((f, w, p) :: fs) s s''.

Lemma reads_all_app fs gs s s' s'' :
  reads_all fs s s' -> reads_all gs s' s'' -> reads_all (fs ++ gs) s s''.
Proof. induction 1; cbn; eauto using reads_all. Qed.

Lemma field_loop_reads_rest fs s s' (H : reads_all fs s s') pre rest fuel :
  let buf := pre ++ wire_msg fs ++ rest in
  len buf < 2 ^ 64 ->
  field_loop (step buf (len buf)) buf (len buf) (length fs + fuel) (len pre) s =
    field_loop (step buf (len buf)) buf (len buf) fuel (len pre + len (wire_msg fs)) s'.
Proof.
  revert pre. induction H as [s | f w p fs s s' s'' Hf Hr _ IH]; intros pre buf Hl.
  - rewrite wire_msg_nil. len_nils. rewrite Z.add_0_r. reflexivity.
  - cbn [length Nat.add field_loop].
    assert (Hb : buf = (pre ++ wire_key f w) ++ p ++ wire_msg fs ++ rest).
    { subst buf. rewrite wire_msg_cons. cbn [wire_field]. rewrite <- !app_assoc. reflexivity. }
    pose proof (wire_key_len f w Hf) as Hk.
    assert (Hlt : len pre < len buf) by (rewrite Hb; len_lia).
    apply Z.ltb_lt in Hlt as Hlt'. rewrite Hlt'.
    assert (Hd : bdrop (len pre) buf = wire_key f w ++ p ++ wire_msg fs ++ rest).
    { rewrite Hb, <- app_assoc. apply bdrop_app_len. }
    rewrite Hd, decode_key by (pose proof (len_nonneg pre); lia).
    assert (Hlp : len (pre ++ wire_key f w) = len pre + 1) by (rewrite len_app; lia).
    assert (Hlb : len buf = len pre + 1 + len p + len (wire_msg fs ++ rest)) by (rewrite Hb, !len_app in *; lia).
    pose proof (len_nonneg pre). pose proof (len_nonneg p). pose proof (len_nonneg (wire_msg fs ++ rest)).
    unfold in_buffer at 1. rewrite (proj2 (Z.leb_le _ _)) by lia. rewrite u64_small by lia. rewrite <- Hlp.
    specialize (Hr (pre ++ wire_key f w) (wire_msg fs ++ rest)). rewrite <- Hb in Hr.
    cbn zeta in Hr. rewrite Hr by assumption. cbn [mbind cres_bind].
    unfold in_buffer at 1. rewrite (proj2 (Z.leb_le _ _)) by lia. rewrite (u64_small (_ + len p)) by lia.
    specialize (IH ((pre ++ wire_key f w) ++ p)).
    rewrite <- (app_assoc _ p), <- Hb, (len_app _ p) in IH. rewrite IH by assumption.
    f_equal. rewrite Hlp, wire_msg_cons. cbn [wire_field]. rewrite !len_app. lia.
Qed.

Lemma length_wire_msg fs s s' : reads_all fs s s' -> (length fs <= length (wire_msg fs))%nat.
Proof.
  induction 1 as [| f w p fs s s' s'' Hf _ _ IH]; [cbn; lia |].
  rewrite wire_msg_cons. cbn [wire_field length]. rewrite !length_app.
  pose proof (wire_key_len f w Hf) as Hk. unfold len in Hk. lia.
Qed.

Lemma field_loop_reads fs s s' :
  reads_all fs s s' -> len (wire_msg fs) < 2 ^ 64 ->
  let buf := wire_msg fs in
  field_loop (step buf (len buf)) buf (len buf) (loop_fuel (len buf)) 0 s = Ok s'.
Proof.
  intros H Hl buf. pose proof (field_loop_reads_rest fs s s' H [] []
    (loop_fuel (len buf) - length fs)) as Hrest. cbn zeta in Hrest.
  rewrite app_nil_r in Hrest. cbn [app] in Hrest. len_nils.
  rewrite Z.add_0_l in Hrest. fold buf in Hrest.
  apply length_wire_msg in H. unfold loop_fuel in *. rewrite len_to_nat in *.
  replace (length fs + (Datatypes.S (length buf) - length fs))%nat with (Datatypes.S (length buf)) in Hrest
    by (subst buf; lia).
  rewrite Hrest by exact Hl. fold buf in H.
  destruct (Datatypes.S (length buf) - length fs)%nat eqn:E; [lia |].
  cbn [field_loop]. rewrite Z.ltb_irrefl. reflexivity.
Qed.

(** A byte after the message that reads as the key of a field [step] ignores:
    the decoder told to read it too skips it. *)
Lemma field_loop_reads_slack fs s s' x f w :
  reads_all fs s s' -> len (wire_msg fs) + 1 < 2 ^ 64 ->
  let buf := wire_msg fs ++ [x] in
  protobuf_decode_field_and_type [x] (len buf) = Some (f, w, 1) ->
  (forall pos s, step buf (len buf) pos f s = Ok (s, 0)) ->
  field_loop (step buf (len buf)) buf (len buf) (loop_fuel (len buf)) 0 s = Ok s'.
Proof.
  intros H Hl buf Hx Hf. assert (len buf = len (wire_msg fs) + 1) as Hb.
  { subst buf. rewrite len_app. reflexivity. }
  pose proof (field_loop_reads_rest fs s s' H [] [x] (loop_fuel (len buf) - length fs)) as Hrest.
  cbn zeta in Hrest. cbn [app] in Hrest. len_nils.
  rewrite Z.add_0_l in Hrest. fold buf in Hrest. apply length_wire_msg in H.
  assert (2 + length fs <= loop_fuel (len buf))%nat as Hfuel.
  { unfold loop_fuel. rewrite Hb. unfold len. lia. }
  replace (length fs + (loop_fuel (len buf) - length fs))%nat with (loop_fuel (len buf)) in Hrest
    by lia.
  rewrite Hrest by lia.
  destruct (loop_fuel (len buf) - length fs)%nat as [| [| fuel]] eqn:E; [lia | lia |].
  cbn [field_loop]. replace (len (wire_msg fs) <? len buf) with true by lia.
  replace (bdrop (len (wire_msg fs)) buf) with [x] by (symmetry; apply bdrop_app_len).
  pose proof (len_nonneg (wire_msg fs)). unfold in_buffer.
  rewrite Hx, Hf. cbn [mbind cres_bind]. rewrite Z.add_0_r, !u64_small by (rewrite ?u64_small; lia).
  rewrite (proj2 (Z.leb_le _ _)) by lia.
  replace (len (wire_msg fs) + 1 <? len buf) with false by lia. reflexivity.
Qed.
End Reads.

(** *** The reads of a payload where it lies in the buffer. *)
Lemma payload_room (pre p rest : bytes) :
  len (pre ++ p ++ rest) < 2 ^ 64 ->
  len p <= size_sub (len (pre ++ p ++ rest)) (len pre).
Proof. intros. rewrite size_sub_small; len_lia. Qed.

Lemma at_varint v pre rest :
  0 <= v < 2 ^ 64 -> len (pre ++ wire_uint v ++ rest) < 2 ^ 64 ->
  varint_decode (bdrop (len pre) (pre ++ wire_uint v ++ rest))
    (size_sub (len (pre ++ wire_uint v ++ rest)) (len pre)) = (v, len (wire_uint v)).
Proof.
  intros Hv Hl. apply payload_room in Hl.
  rewrite bdrop_app_len, varint_decode_wire, wire_uint_len; auto.
  rewrite <- (wire_uint_len v) by auto. exact Hl.
Qed.
Lemma at_pb_varint v pre rest :
  0 <= v < 2 ^ 64 -> len (pre ++ wire_uint v ++ rest) < 2 ^ 64 ->
  protobuf_decode_varint (bdrop (len pre) (pre ++ wire_uint v ++ rest))
    (size_sub (len (pre ++ wire_uint v ++ rest)) (len pre)) = Some (v, len (wire_uint v)).
Proof.
  intros Hv Hl. apply payload_room in Hl.
  rewrite bdrop_app_len, decode_varint_wire, wire_uint_len; auto.
  rewrite <- (wire_uint_len v) by auto. exact Hl.
Qed.

Definition ld_payload (d : bytes) : bytes := wire_uint (len d) ++ d.

Lemma len_ld_payload d : len d < 2 ^ 64 -> len (ld_payload d) = varint_size (len d) + len d.
Proof.
  intros. unfold ld_payload. pose proof (len_nonneg d).
  rewrite len_app, wire_uint_len; lia.
Qed.
Lemma ld_payload_inner pre d rest :
  len (pre ++ ld_payload d ++ rest) < 2 ^ 64 -> len d < 2 ^ 64.
Proof. unfold ld_payload. intros. len_lia. Qed.

Lemma at_ld d pre rest :
  len (pre ++ ld_payload d ++ rest) < 2 ^ 64 ->
  protobuf_decode_length_delimited (bdrop (len pre) (pre ++ ld_payload d ++ rest))
    (size_sub (len (pre ++ ld_payload d ++ rest)) (len pre)) =
    Some (d, len (ld_payload d)).
Proof.
  intros Hl. pose proof (ld_payload_inner _ _ _ Hl) as Hd.
  apply payload_room in Hl. rewrite bdrop_app_len.
  rewrite len_ld_payload in * by assumption.
  unfold ld_payload. rewrite <- app_assoc. apply decode_ld_wire; auto.
  unfold ld_payload in Hl. rewrite <- app_assoc in Hl. exact Hl.
Qed.
Lemma at_string d pre rest :
  cstring d -> len (pre ++ ld_payload d ++ rest) < 2 ^ 64 ->
  protobuf_decode_string (bdrop (len pre) (pre ++ ld_payload d ++ rest))
    (size_sub (len (pre ++ ld_payload d ++ rest)) (len pre)) =
    Some (d, len (ld_payload d)).
Proof.
  intros Hc Hl. pose proof (ld_payload_inner _ _ _ Hl) as Hd.
  apply payload_room in Hl. rewrite bdrop_app_len.
  rewrite len_ld_payload in * by assumption.
  unfold ld_payload. rewrite <- app_assoc. apply decode_string_wire; auto.
  unfold ld_payload in Hl. rewrite <- app_assoc in Hl. exact Hl.
Qed.

(** *** Termination of the decoding loop. *)
Lemma field_loop_returns {S} (step : Z -> Z -> S -> cres S (S * Z)) buffer n fuel pos s :
  (forall pos f s, returns (step pos f s)) ->
  (forall pos f s s' r, step pos f s = Ok (s', r) -> 0 <= r) ->
  0 <= pos -> n - pos < Z.of_nat fuel -> (0 < fuel)%nat ->
  returns (field_loop step buffer n fuel pos s).
Proof.
  intros Hret Hread. revert pos s.
  induction fuel as [| fuel IH]; intros pos s H0 Hf Hpos; [lia |]. cbn [field_loop].
  destruct (pos <? n) eqn:Hlt; [| exact I]. apply Z.ltb_lt in Hlt.
  destruct (protobuf_decode_field_and_type _ _) as [[[f w] r] |] eqn:Hk; [| exact I].
  apply decode_key_progress in Hk. cbn zeta.
  destruct (in_buffer buffer (pos + r)) eqn:E1; [| exact I]. unfold in_buffer in E1. apply Z.leb_le in E1.
  rewrite u64_small by lia. specialize (Hret (pos + r) f s).
  destruct (step (pos + r) f s) as [[s' r'] | | |] eqn:Hs; cbn in Hret |- *; auto. apply Hread in Hs.
  destruct (in_buffer buffer (pos + r + r')) eqn:E2; [| exact I]. unfold in_buffer in E2. apply Z.leb_le in E2.
  rewrite u64_small by lia. apply IH; lia.
Qed.

Lemma field_loop_terminates {S} (step : Z -> Z -> S -> cres S (S * Z)) buffer n s :
  (forall pos f s, returns (step pos f s)) ->
  (forall pos f s s' r, step pos f s = Ok (s', r) -> 0 <= r) ->
  returns (field_loop step buffer n (loop_fuel n) 0 s).
Proof. intros. apply field_loop_returns; auto; unfold loop_fuel; lia. Qed.
End Fields.

Create Rewrite HintDb wire.
#[export] Hint Rewrite @wire_msg_nil @wire_msg_cons @wire_msg_app : wire.
#[export] Hint Constructors reads_all : cipfs.

(** A field read by [varint_decode] or [protobuf_decode_varint] leaves the
    decoder's position in range. *)
Ltac step_reads :=
  intros; repeat case_match; simplify_eq/=; try lia;
  match goal with
  | H : varint_decode ?b ?n = (_, ?r) |- 0 <= ?r =>
      pose proof (varint_decode_read b n) as Hr; rewrite H in Hr; exact Hr
  | H : protobuf_decode_varint _ _ = Some (_, ?r) |- 0 <= ?r =>
      exact (decode_varint_read _ _ _ _ H)
  | H : protobuf_decode_length_delimited _ _ = Some (_, ?r) |- 0 <= ?r =>
      exact (decode_ld_read _ _ _ _ H)
  | H : protobuf_decode_string _ _ = Some (_, ?r) |- 0 <= ?r =>
      exact (decode_string_read _ _ _ _ H)
  | _ => idtac
  end.

(** The length of a message, by its fields. *)
Ltac wire_len :=
  autorewrite with wire in *; rewrite ?app_nil_r, ?len_app in *; len_nils;
  rewrite ?len_varint_field, ?len_ld_field in * by lia;
  rewrite ?Z.add_0_l, ?Z.add_0_r in *.

(** ** One field per item of a list *)

Section FieldPerItem.
Context {PB : Protobuf} `{!ProtobufLaws PB}.

(** A loop that emits one field per item. *)
Lemma emit_loop {A} (body : A -> bytes -> cres bytes bytes) (f : A -> wfield) n l out :
  (forall a out, a ∈ l -> len out + len (wire_field (f a)) <= n ->
    body a out = Ok (out ++ wire_field (f a))) ->
  len out + len (wire_msg (map f l)) <= n ->
  list_loop body l out = Ok (out ++ wire_msg (map f l)).
Proof.
  revert out. induction l as [| a l IH]; intros out Hb Hn; cbn [map list_loop] in *.
  - rewrite wire_msg_nil, app_nil_r. reflexivity.
  - rewrite wire_msg_cons, len_app in Hn. pose proof (len_nonneg (wire_msg (map f l))).
    rewrite Hb by (try left; lia). cbn [mbind cres_bind].
    rewrite IH; [rewrite wire_msg_cons, <- app_assoc; reflexivity | | rewrite len_app; lia].
    intros. apply Hb; [right |]; assumption.
Qed.

(** A length-delimited field takes at most ten bytes for its length. *)
Lemma len_ld_field_max f d :
  1 <= f <= 15 -> len d < 2 ^ 64 -> len (wire_field (ld_field f d)) <= 11 + len d.
Proof.
  intros. rewrite len_ld_field by assumption.
  pose proof (len_nonneg d). pose proof (varint_size_64 (len d) ltac:(lia)). lia.
Qed.
Lemma wire_field_inner f d :
  1 <= f <= 15 -> len (wire_field (ld_field f d)) < 2 ^ 64 -> len d < 2 ^ 64.
Proof.
  intros Hf. cbn [wire_field ld_field]. rewrite !len_app, wire_key_len by assumption.
  pose proof (len_nonneg (wire_uint (len d))). lia.
Qed.

Lemma fields_sum {A} (f : A -> wfield) (g : A -> Z) l :
  (forall a, a ∈ l -> len (wire_field (f a)) <= g a) ->
  len (wire_msg (map f l)) <= sum_over g l.
Proof.
  induction l as [| a l IH]; intros Hg; [reflexivity |].
  cbn [map]. rewrite wire_msg_cons, len_app, sum_over_cons. pose proof (Hg a ltac:(left)).
  specialize (IH ltac:(intros; apply Hg; right; assumption)). lia.
Qed.

Lemma emit_ld_total f d max out :
  1 <= f <= 15 -> max < 2 ^ 64 -> len out + len (wire_field (ld_field f d)) <= max ->
  emit (protobuf_encode_length_delimited f WIRETYPE_LENGTH_DELIMITED d
          (size_sub max (len out))) out = Ok (out ++ wire_field (ld_field f d)).
Proof.
  intros Hf Hm Hr. pose proof (len_nonneg out).
  pose proof (wire_field_inner f d Hf ltac:(lia)).
  rewrite len_ld_field in Hr by assumption. apply emit_ld; auto.
Qed.
End FieldPerItem.
