(* ===== verification/ProtobufRef.v ===== *)
(** A concrete protobuf library, base-128 varints and single-byte-checked keys,
    with the laws of [ProtobufLaws]: the interface can be implemented, and the
    concrete runs of the other files use it. It is no model of the submodule. *)

From S2P Require Import Prelude Protobuf.

Fixpoint uint_enc (fuel : nat) (v : Z) : bytes :=
  match fuel with
  | O => []
  | S fuel => if v <? 128 then [byte_of v]
              else byte_of (v mod 128 + 128) :: uint_enc fuel (v / 128)
  end.

Fixpoint uint_dec (fuel : nat) (b : bytes) : option (Z * Z) :=
  match fuel, b with
  | S fuel, x :: b =>
      let v := byte_val x in
      if v <? 128 then Some (v, 1)
      else '(w, k) ← uint_dec fuel b; Some (v - 128 + 128 * w, k + 1)
  | _, _ => None
  end.

Lemma uint_dec_enc fuel v rest :
  0 <= v < 128 ^ Z.of_nat fuel -> (0 < fuel)%nat ->
  uint_dec fuel (uint_enc fuel v ++ rest) = Some (v, len (uint_enc fuel v)).
Proof.
  revert v. induction fuel as [| fuel IH]; intros v Hv Hf; [lia |]. cbn [uint_enc].
  destruct (v <? 128) eqn:Hs; cbn [app uint_dec]; rewrite byte_val_of.
  - apply Z.ltb_lt in Hs. rewrite Z.mod_small by lia.
    replace (v <? 128) with true by lia. reflexivity.
  - apply Z.ltb_ge in Hs. pose proof (Z.mod_pos_bound v 128 ltac:(lia)).
    rewrite (Z.mod_small (v mod 128 + 128)) by lia.
    replace (v mod 128 + 128 <? 128) with false by lia.
    rewrite Nat2Z.inj_succ, Z.pow_succ_r in Hv by lia.
    destruct fuel; [cbn in Hv; lia |].
    rewrite IH; [cbn; rewrite len_cons | split | lia].
    + pose proof (Z.div_mod v 128 ltac:(lia)). do 2 f_equal; lia.
    + apply Z.div_pos; lia.
    + apply Z.div_lt_upper_bound; lia.
Qed.

Lemma uint_enc_len fuel v :
  0 <= v < 128 ^ Z.of_nat fuel -> (0 < fuel)%nat ->
  len (uint_enc fuel v) = varint_size v.
Proof.
  revert v. induction fuel as [| fuel IH]; intros v Hv Hf; [lia |]. cbn [uint_enc].
  destruct (v <? 128) eqn:Hs.
  - apply Z.ltb_lt in Hs. rewrite varint_size_1 by lia. reflexivity.
  - apply Z.ltb_ge in Hs. rewrite len_cons.
    rewrite Nat2Z.inj_succ, Z.pow_succ_r in Hv by lia.
    destruct fuel; [cbn in Hv; lia |].
    assert (0 <= v / 128 < 128 ^ Z.of_nat (S fuel)).
    { split; [apply Z.div_pos; lia | apply Z.div_lt_upper_bound; lia]. }
    rewrite IH by (auto; lia). unfold varint_size.
    change 128 with (2 ^ 7). rewrite <- Z.shiftr_div_pow2, Z.log2_shiftr by lia.
    assert (7 <= Z.log2 v) by (apply Z.log2_le_pow2; lia).
    rewrite Z.max_r by lia. replace (Z.log2 v) with ((Z.log2 v - 7) + 1 * 7) at 2 by lia.
    rewrite Z.div_add by lia. lia.
Qed.

Lemma uint_dec_pos fuel b v k : uint_dec fuel b = Some (v, k) -> 1 <= k.
Proof.
  revert b v k. induction fuel as [| fuel IH]; intros [| x b] v k H; try discriminate.
  cbn in H. destruct (byte_val x <? 128); simplify_eq; [lia |].
  destruct (uint_dec fuel b) as [[w j] |] eqn:E; simplify_eq/=. apply IH in E. lia.
Qed.

Definition wire_code (w : WireType) : Z :=
  match w with
  | WIRETYPE_VARINT => 0
  | WIRETYPE_LENGTH_DELIMITED => 2
  | WIRETYPE_OTHER => 5
  end.
Definition wire_of_code (z : Z) : WireType :=
  if z =? 0 then WIRETYPE_VARINT
  else if z =? 2 then WIRETYPE_LENGTH_DELIMITED
  else WIRETYPE_OTHER.

Definition ref_uint (v : Z) : bytes := uint_enc 10 (u64 v).
Definition ref_key (f : Z) (w : WireType) : bytes := ref_uint (8 * f + wire_code w).

Definition ref_write (room : Z) (b : bytes) : enc_out :=
  if len b <=? room then EncOut true b else EncOut false [].

Definition ref_varint_decode (b : bytes) (n : Z) : option (Z * Z) :=
  '(v, k) ← uint_dec 10 b; if k <=? n then Some (v, k) else None.

Definition ref_decode_ld (b : bytes) (n : Z) : option (bytes * Z) :=
  '(l, k) ← ref_varint_decode b n;
  let d := btake l (bdrop k b) in
  if (k + l <=? n) && (len d =? l) then Some (d, k + l) else None.

Arguments ref_uint : simpl never.
Arguments ref_key : simpl never.
Arguments ref_varint_decode : simpl never.
Arguments ref_decode_ld : simpl never.
Arguments ref_write : simpl never.

#[export] Instance ref_protobuf : Protobuf := {
  protobuf_encode_varint f w v n := ref_write n (ref_key f w ++ ref_uint v);
  protobuf_encode_length_delimited f w d n :=
    ref_write n (ref_key f w ++ ref_uint (len d) ++ d);
  protobuf_encode_string f w d n :=
    ref_write n (ref_key f w ++ ref_uint (len d) ++ d);
  protobuf_decode_field_and_type b n :=
    '(v, k) ← ref_varint_decode b n; Some (v / 8, wire_of_code (v mod 8), k);
  protobuf_decode_varint := ref_varint_decode;
  protobuf_decode_length_delimited := ref_decode_ld;
  protobuf_decode_string := ref_decode_ld;
  varint_decode b n := match ref_varint_decode b n with Some r => r | None => (0, 0) end;
  varint_encode v n := if len (ref_uint v) <=? n then Some (ref_uint v) else None
}.

Lemma ref_uint_len v : 0 <= v < 2 ^ 64 -> len (ref_uint v) = varint_size v.
Proof.
  intros. unfold ref_uint. rewrite u64_small by lia. apply uint_enc_len; [| lia].
  change (128 ^ Z.of_nat 10) with (2 ^ 70). lia.
Qed.
Lemma ref_decode_uint v rest n :
  0 <= v < 2 ^ 64 -> varint_size v <= n ->
  ref_varint_decode (ref_uint v ++ rest) n = Some (v, varint_size v).
Proof.
  intros Hv Hn. unfold ref_varint_decode. pose proof (ref_uint_len v Hv) as Hl.
  unfold ref_uint in *. rewrite u64_small in * by lia.
  rewrite uint_dec_enc; [| change (128 ^ Z.of_nat 10) with (2 ^ 70); lia | lia].
  cbn [mbind option_bind]. rewrite Hl.
  replace (varint_size v <=? n) with true by lia. reflexivity.
Qed.
Lemma ref_varint_pos b n v k : ref_varint_decode b n = Some (v, k) -> 1 <= k.
Proof.
  unfold ref_varint_decode. destruct (uint_dec 10 b) as [[w j] |] eqn:E; cbn; [| discriminate].
  case_match; intros; simplify_eq. eauto using uint_dec_pos.
Qed.
Lemma ref_decode_ld_wire d rest n :
  len d < 2 ^ 64 -> varint_size (len d) + len d <= n ->
  ref_decode_ld (ref_uint (len d) ++ d ++ rest) n = Some (d, varint_size (len d) + len d).
Proof.
  intros Hd Hn. unfold ref_decode_ld. pose proof (len_nonneg d).
  rewrite ref_decode_uint by lia. cbn [mbind option_bind].
  rewrite <- (ref_uint_len (len d)), bdrop_app_len, btake_app_len by lia.
  rewrite ref_uint_len, Z.eqb_refl, andb_true_r by lia.
  replace (_ <=? n) with true by lia. reflexivity.
Qed.
Lemma ref_write_room n b : len b <= n -> ref_write n b = EncOut true b.
Proof. intros. unfold ref_write. replace (len b <=? n) with true by lia. reflexivity. Qed.
Lemma ref_write_bound n b : 0 <= n -> len (enc_written (ref_write n b)) <= n.
Proof. intros. unfold ref_write. destruct (len b <=? n) eqn:E; cbn; [| rewrite len_nil]; lia. Qed.

Lemma wire_code_range w : 0 <= wire_code w < 8.
Proof. destruct w; cbn; lia. Qed.
Lemma wire_of_wire_code w : wire_of_code (wire_code w) = w.
Proof. destruct w; reflexivity. Qed.
Lemma ref_key_len f w : 1 <= f <= 15 -> len (ref_key f w) = 1.
Proof.
  intros. pose proof (wire_code_range w). unfold ref_key.
  rewrite ref_uint_len, varint_size_1 by lia. reflexivity.
Qed.
Lemma ref_decode_ld_read b n d r : ref_decode_ld b n = Some (d, r) -> 0 <= r.
Proof.
  unfold ref_decode_ld. destruct (ref_varint_decode b n) as [[v k] |] eqn:E; cbn; [| discriminate].
  apply ref_varint_pos in E. case_match eqn:Hc; intros; simplify_eq.
  apply andb_prop in Hc as [_ Hc]. apply Z.eqb_eq in Hc. len_lia.
Qed.

Lemma ref_decode_key f w rest n :
  1 <= f <= 15 -> 1 <= n ->
  protobuf_decode_field_and_type (ref_key f w ++ rest) n = Some (f, w, 1).
Proof.
  intros Hf Hn. pose proof (wire_code_range w).
  unfold protobuf_decode_field_and_type, ref_protobuf, ref_key.
  rewrite ref_decode_uint by (rewrite ?varint_size_1; lia). cbn [mbind option_bind].
  rewrite varint_size_1 by lia.
  rewrite (Z.mul_comm 8), Z.div_add_l, Z.div_small, Z.add_0_r by lia.
  rewrite Z.add_comm, Z.mod_add, Z.mod_small, wire_of_wire_code by lia. reflexivity.
Qed.

#[export] Instance ref_protobuf_laws : ProtobufLaws ref_protobuf.
Proof.
  refine {| wire_key := ref_key; wire_uint := ref_uint |};
    try solve [cbn; eauto using ref_key_len, ref_uint_len, ref_decode_uint,
      ref_decode_ld_wire, ref_write_bound, ref_decode_ld_read, ref_decode_key].
  - cbn; intros f w v n ? ? ?. apply ref_write_room.
    rewrite len_app, ref_key_len, ref_uint_len; auto.
  - cbn; intros f w d n ? ? ?. apply ref_write_room. pose proof (len_nonneg d).
    rewrite !len_app, ref_key_len, ref_uint_len; auto; lia.
  - cbn; intros f w d n ? ? ?. apply ref_write_room. pose proof (len_nonneg d).
    rewrite !len_app, ref_key_len, ref_uint_len; auto; lia.
  - exact ref_decode_key.
  - cbn; intros b n f w r H.
    destruct (ref_varint_decode b n) as [[v k] |] eqn:E; simplify_eq/=.
    eauto using ref_varint_pos.
  - cbn; intros v rest n ? ?. rewrite ref_decode_uint by auto. reflexivity.
  - cbn; intros v n ? ?. rewrite ref_uint_len by auto.
    replace (varint_size v <=? n) with true by lia. reflexivity.
  - cbn; intros v n ? ?. rewrite ref_uint_len by auto.
    replace (varint_size v <=? n) with false by lia. reflexivity.
  - cbn; intros b n v r H. apply ref_varint_pos in H. lia.
  - cbn; intros b n. destruct (ref_varint_decode b n) as [[v k] |] eqn:E; cbn; [| lia].
    apply ref_varint_pos in E. lia.
Defined.
