(* ===== verification/Libs.v ===== *)
(** The hash and encoding libraries the code links against (submodules of the
    repository): multihash, SHA-256 and the text encodings. Operations are
    class fields, the documented behaviour the theorems rely on the laws. *)

From S2P Require Import Prelude.

(** ** c-multihash *)

(** [None]: a negative return value, where nothing else is returned. *)
Class Multihash := {
  MH_H_SHA2_256 : Z;
  (* code, digest: the multihash written *)
  mh_new : Z -> bytes -> option bytes;
  (* code, digest length *)
  mh_new_length : Z -> Z -> Z;
  (* multihash, its length: the digest length, or a negative error *)
  mh_multihash_length : bytes -> Z -> Z;
  mh_multihash_digest : bytes -> Z -> option bytes
}.

(** A multihash is the code, the digest's length, and the digest; codes and
    lengths below 128 take one byte. *)
Class MultihashLaws (MH : Multihash) := {
  mh_sha2_256_code : MH_H_SHA2_256 = 18;
  mh_new_sha2 d :
    len d < 128 -> mh_new MH_H_SHA2_256 d = Some (byte_of 18 :: byte_of (len d) :: d);
  mh_new_length_sha2 n : 0 <= n < 128 -> mh_new_length MH_H_SHA2_256 n = n + 2;
  mh_multihash_length_sha2 d :
    len d < 128 ->
    mh_multihash_length (byte_of 18 :: byte_of (len d) :: d) (len d + 2) = len d;
  mh_multihash_digest_sha2 d :
    len d < 128 ->
    mh_multihash_digest (byte_of 18 :: byte_of (len d) :: d) (len d + 2) = Some d
}.

(** ** SHA-256 (libp2p_crypto_hashing_sha256) *)

Class Sha256 := { libp2p_crypto_hashing_sha256 : bytes -> option bytes }.
Class Sha256Laws (SH : Sha256) := {
  sha256_ok b : exists h, libp2p_crypto_hashing_sha256 b = Some h /\ len h = 32
}.

(** ** Text encodings (libp2p_crypto_encoding) *)

(** An encoder or decoder takes its input and the room in the buffer. *)
Class Encoding := {
  enc_encode : bytes -> Z -> option bytes;
  enc_decode : bytes -> Z -> option bytes;
  enc_encode_size : Z -> Z;
  enc_decode_size : Z -> Z
}.
Class EncodingLaws (EN : Encoding) := {
  (* the advertised sizes are enough, and decoding inverts encoding *)
  enc_total b n : enc_encode_size (len b) <= n -> is_Some (enc_encode b n);
  enc_size_mono a b : 0 <= a <= b -> enc_encode_size a <= enc_encode_size b;
  enc_len b n s : enc_encode b n = Some s -> len s <= enc_encode_size (len b);
  enc_room b n s : enc_encode b n = Some s -> len s <= n;
  enc_roundtrip b n s m :
    enc_encode b n = Some s -> enc_decode_size (len s) <= m -> enc_decode s m = Some b;
  enc_decode_room s m b : enc_decode s m = Some b -> len b <= m;
  enc_text b n s : enc_encode b n = Some s -> cstring s
}.

(** The three encodings are three instances, told apart by these classes. *)
Class Base16 := { base16 : Encoding }.
Class Base32 := { base32 : Encoding }.
Class Base58 := { base58 : Encoding }.

(** Base 58 of a SHA-256 multihash: 46 characters, the first two [Qm]. *)
Class Base58Multihash (B : Base58) := {
  base58_laws :: EncodingLaws base58;
  base58_Qm d n s :
    len d = 32 -> @enc_encode base58 (byte_of 18 :: byte_of 32 :: d) n = Some s ->
    exists r, s = str "Qm" ++ r /\ len r = 44;
  (* letters and digits only *)
  base58_no_slash b n s : @enc_encode base58 b n = Some s -> byte_of 47 ∉ s
}.

(** Base 32 text is made of letters and digits: no slash. *)
Class Base32Laws (B : Base32) := {
  base32_laws :: EncodingLaws base32;
  base32_no_slash b n s :
    @enc_encode base32 b n = Some s -> byte_of 47 ∉ s
}.

Lemma enc_inj {EN : Encoding} {EL : EncodingLaws EN} a b n m s :
  enc_encode a n = Some s -> enc_encode b m = Some s -> a = b.
Proof.
  intros Ha Hb. pose proof (enc_roundtrip a n s _ Ha ltac:(reflexivity)) as Ra.
  pose proof (enc_roundtrip b m s _ Hb ltac:(reflexivity)) as Rb. congruence.
Qed.
