(* ===== verification/LibsRef.v ===== *)
(** Concrete hash and encoding libraries satisfying the laws of Libs: positional
    text encodings over an alphabet (base 58 with the Bitcoin alphabet), plain
    multihashes, and a fixed-length digest. They serve the concrete runs. *)

From S2P Require Import Prelude Libs.

(** ** Positional numerals, most significant digit first *)

Section Radix.
Context (B : Z).

Definition val (l : list Z) : Z := fold_left (fun n d => B * n + d) l 0.

Fixpoint digits_fuel (fuel : nat) (n : Z) (acc : list Z) : list Z :=
  match fuel with
  | O => acc
  | S fuel => if n <=? 0 then acc else digits_fuel fuel (n / B) (n mod B :: acc)
  end.
Definition digits (n : Z) : list Z := digits_fuel (Z.to_nat (Z.log2 n + 1)) n [].

Definition is_digit (d : Z) : Prop := 0 <= d < B.

Context (HB : 2 <= B).

Lemma val_snoc l d : val (l ++ [d]) = B * val l + d.
Proof. unfold val. rewrite fold_left_app. reflexivity. Qed.
Lemma val_nonneg l : Forall is_digit l -> 0 <= val l.
Proof.
  induction l as [| d l IH] using rev_ind; [cbn; lia |].
  rewrite Forall_app, Forall_singleton. intros [Hl Hd]. rewrite val_snoc.
  specialize (IH Hl). destruct Hd. nia.
Qed.
Lemma val_app a b : val (a ++ b) = val a * B ^ len b + val b.
Proof.
  induction b as [| d b IH] using rev_ind; [rewrite app_nil_r, len_nil, Z.pow_0_r; cbn; lia |].
  rewrite app_assoc, !val_snoc, IH, len_app, len_cons, len_nil.
  rewrite Z.add_0_r, Z.pow_add_r, Z.pow_1_r by (pose proof (len_nonneg b); lia). ring.
Qed.
Lemma val_bound l : Forall is_digit l -> val l < B ^ len l.
Proof.
  induction l as [| d l IH] using rev_ind; [intros _; change (0 < B ^ 0); rewrite Z.pow_0_r; lia |].
  rewrite Forall_app, Forall_singleton. intros [Hl Hd]. rewrite val_snoc.
  specialize (IH Hl). rewrite len_app, len_cons, len_nil, Z.add_0_r.
  rewrite Z.pow_add_r, Z.pow_1_r by (pose proof (len_nonneg l); lia).
  destruct Hd. nia.
Qed.
Lemma val_lower d l : Forall is_digit (d :: l) -> d <> 0 -> B ^ len l <= val (d :: l).
Proof.
  intros Hl Hd. change (d :: l) with ([d] ++ l). rewrite val_app.
  apply Forall_cons in Hl as [Hd' Hl]. pose proof (val_nonneg l Hl).
  change (val [d]) with (B * 0 + d). destruct Hd'.
  pose proof (Z.pow_pos_nonneg B (len l) ltac:(lia) (len_nonneg l)). nia.
Qed.

Lemma digits_fuel_spec fuel n acc :
  0 <= n < 2 ^ Z.of_nat fuel ->
  exists l, digits_fuel fuel n acc = l ++ acc /\ Forall is_digit l /\ val l = n /\
    hd_error l <> Some 0.
Proof.
  revert n acc. induction fuel as [| fuel IH]; intros n acc Hn; cbn [digits_fuel].
  - exists []. rewrite Z.pow_0_r in Hn. repeat split; [constructor | cbn; lia | discriminate].
  - destruct (n <=? 0) eqn:Hz.
    + exists []. repeat split; [constructor | cbn; lia | discriminate].
    + rewrite Nat2Z.inj_succ, Z.pow_succ_r in Hn by lia.
      pose proof (Z.div_mod n B ltac:(lia)). pose proof (Z.mod_pos_bound n B ltac:(lia)).
      destruct (IH (n / B) (n mod B :: acc)) as (l & Hl & Hd & Hv & Hh).
      { split; [apply Z.div_pos; lia |]. apply Z.div_lt_upper_bound; [lia |]. nia. }
      exists (l ++ [n mod B]). rewrite Hl, <- app_assoc. split; [reflexivity |].
      rewrite Forall_app, Forall_singleton, val_snoc, Hv. split; [split; [assumption | exact H0] |].
      split; [lia |]. destruct l; [| exact Hh]. cbn in Hv |- *. intros [= E]. lia.
Qed.

Lemma digits_spec n :
  0 <= n -> Forall is_digit (digits n) /\ val (digits n) = n /\ hd_error (digits n) <> Some 0.
Proof.
  intros Hn. unfold digits.
  destruct (digits_fuel_spec (Z.to_nat (Z.log2 n + 1)) n []) as (l & -> & H).
  - split; [assumption |]. pose proof (Z.log2_nonneg n). rewrite Z2Nat.id by lia.
    destruct (Z.eq_dec n 0) as [-> |]; [cbn; lia |].
    apply Z.log2_spec. lia.
  - rewrite app_nil_r. exact H.
Qed.

(** Numerals without a leading zero are determined by their value. *)
Lemma val_inj a b :
  Forall is_digit a -> Forall is_digit b -> len a = len b -> val a = val b -> a = b.
Proof.
  revert b. induction a as [| x a IH] using rev_ind; intros b Ha Hb Hl Hv.
  - symmetry in Hl. apply len_zero in Hl. congruence.
  - destruct b as [| y b _] using rev_ind; [len_lia |].
    rewrite !val_snoc in Hv. rewrite Forall_app, Forall_singleton in Ha, Hb.
    destruct Ha as [Ha [? ?]], Hb as [Hb [? ?]].
    assert (val a = val b) by nia. assert (x = y) by nia.
    rewrite (IH b); [congruence | assumption | assumption | len_lia | assumption].
Qed.
Lemma val_pow_len l k :
  Forall is_digit l -> hd_error l <> Some 0 -> B ^ k <= val l < B ^ (k + 1) -> 0 <= k ->
  len l = k + 1.
Proof.
  intros Hl Hh [H1 H2] Hk. destruct l as [| d l].
  - pose proof (Z.pow_pos_nonneg B k ltac:(lia) Hk). cbn in H1. lia.
  - pose proof (val_lower d l Hl ltac:(cbn in Hh; congruence)) as Hlow.
    pose proof (val_bound _ Hl) as Hup. pose proof (len_nonneg l).
    rewrite len_cons in *.
    assert (len l < k + 1) by (apply (Z.pow_lt_mono_r_iff B); lia).
    assert (k < 1 + len l) by (apply (Z.pow_lt_mono_r_iff B); lia). lia.
Qed.
Lemma digits_val l :
  Forall is_digit l -> hd_error l <> Some 0 -> digits (val l) = l.
Proof.
  intros Hl Hh. destruct (digits_spec (val l) (val_nonneg l Hl)) as (Hd & Hv & Hz).
  apply val_inj; auto. destruct l as [| d l].
  - destruct (digits _) as [| e m]; [reflexivity |].
    pose proof (val_lower e m Hd ltac:(cbn in Hz; congruence)).
    pose proof (Z.pow_pos_nonneg B (len m) ltac:(lia) (len_nonneg m)). cbn in Hv. cbn in H. lia.
  - pose proof (val_lower d l Hl ltac:(cbn in Hh; congruence)).
    pose proof (val_bound _ Hl) as Hup. rewrite len_cons in Hup |- *.
    rewrite (val_pow_len _ (len l)); auto using len_nonneg; [lia |].
    rewrite Hv. replace (len l + 1) with (1 + len l) by lia. auto.
Qed.
End Radix.

(** ** A text encoding: leading zero bytes one to one, the rest as a numeral *)

Section Text.
Context (alphabet : bytes).

Definition radix : Z := len alphabet.
Definition char_of (d : Z) : byte := default x00 (alphabet !! Z.to_nat d).
Fixpoint index_of (c : byte) (l : bytes) : Z :=
  match l with
  | [] => 0
  | x :: l => if decide (x = c) then 0 else 1 + index_of c l
  end.
Definition digit_of (c : byte) : Z := index_of c alphabet.

Fixpoint split_zeros (z : byte) (l : bytes) : nat * bytes :=
  match l with
  | x :: l' => if decide (x = z) then let '(n, r) := split_zeros z l' in (S n, r) else (O, l)
  | [] => (O, [])
  end.

Definition text_encode (b : bytes) : bytes :=
  let '(n, r) := split_zeros x00 b in
  replicate n (char_of 0) ++ map char_of (digits radix (val 256 (map byte_val r))).
Definition text_decode (s : bytes) : bytes :=
  let '(n, r) := split_zeros (char_of 0) s in
  replicate n x00 ++ map byte_of (digits 256 (val radix (map digit_of r))).

Context (Hnd : NoDup alphabet) (Hlen : 16 <= radix <= 256).

Lemma index_of_lookup l k c : NoDup l -> l !! k = Some c -> index_of c l = Z.of_nat k.
Proof.
  intros H. revert k. induction H as [| x l Hx H IH]; intros [| k] Hk; simplify_eq/=.
  - rewrite decide_True by reflexivity. reflexivity.
  - rewrite decide_False; [rewrite (IH k) by assumption; lia |].
    intros ->. apply list_elem_of_lookup_2 in Hk. contradiction.
Qed.
Lemma char_of_digit d : is_digit radix d -> alphabet !! Z.to_nat d = Some (char_of d).
Proof.
  intros [H1 H2]. unfold char_of, radix, len in *.
  destruct (lookup_lt_is_Some_2 alphabet (Z.to_nat d)) as [c ->]; [lia | reflexivity].
Qed.
Lemma digit_of_char d : is_digit radix d -> digit_of (char_of d) = d.
Proof.
  intros H. pose proof (char_of_digit d H) as Hc. destruct H.
  unfold digit_of. rewrite (index_of_lookup _ _ _ Hnd Hc). lia.
Qed.

Lemma split_zeros_app z n l :
  hd_error l <> Some z -> split_zeros z (replicate n z ++ l) = (n, l).
Proof.
  intros Hl. induction n as [| n IH]; cbn.
  - destruct l as [| x l]; [reflexivity |]. cbn in Hl |- *.
    rewrite decide_False by congruence. reflexivity.
  - rewrite decide_True, IH by reflexivity. reflexivity.
Qed.
Lemma split_zeros_spec z l n r :
  split_zeros z l = (n, r) -> l = replicate n z ++ r /\ hd_error r <> Some z.
Proof.
  revert n r. induction l as [| x l IH]; intros n r; cbn.
  - intros [= <- <-]. split; [reflexivity | discriminate].
  - case_decide as Hx.
    + destruct (split_zeros z l) as [m q]. intros [= <- <-].
      destruct (IH m q eq_refl) as [-> ?]. subst. auto.
    + intros [= <- <-]. split; [reflexivity |]. cbn. congruence.
Qed.

Lemma bytes_digits r : Forall (is_digit 256) (map byte_val r).
Proof.
  induction r as [| x r IH]; cbn; constructor; [| assumption].
  pose proof (byte_val_range x). split; lia.
Qed.
Lemma map_byte_of_val r : map byte_of (map byte_val r) = r.
Proof. rewrite map_map. erewrite map_ext; [apply map_id | apply byte_of_val]. Qed.
Lemma map_digit_of_char l : Forall (is_digit radix) l -> map digit_of (map char_of l) = l.
Proof.
  intros H. rewrite map_map. induction H as [| d l Hd _ IH]; cbn; [reflexivity |].
  rewrite digit_of_char, IH by assumption. reflexivity.
Qed.
Lemma hd_map {A B} (f : A -> B) l : hd_error (map f l) = f <$> hd_error l.
Proof. destruct l; reflexivity. Qed.

Lemma numeral_of r :
  Forall (is_digit radix) (digits radix (val 256 (map byte_val r))) /\
  val radix (digits radix (val 256 (map byte_val r))) = val 256 (map byte_val r) /\
  hd_error (digits radix (val 256 (map byte_val r))) <> Some 0.
Proof. apply digits_spec; [lia |]. apply val_nonneg, bytes_digits. lia. Qed.

Lemma text_roundtrip b : text_decode (text_encode b) = b.
Proof.
  unfold text_encode. destruct (split_zeros x00 b) as [n r] eqn:E.
  apply split_zeros_spec in E as [-> Hr]. destruct (numeral_of r) as (Hd & Hv & Hh).
  unfold text_decode. rewrite split_zeros_app.
  - rewrite map_digit_of_char, Hv by assumption.
    rewrite digits_val; [rewrite map_byte_of_val; reflexivity | lia | apply bytes_digits |].
    rewrite hd_map. destruct r as [| x r]; cbn in Hr |- *; [congruence |].
    intros [= E]. apply Hr. f_equal. apply byte_val_inj. rewrite E. reflexivity.
  - rewrite hd_map. destruct (digits radix _) as [| d l]; cbn in Hh |- *; [congruence |].
    intros [= E]. apply Forall_cons in Hd as [Hd _].
    apply (f_equal digit_of) in E. rewrite !digit_of_char in E; [congruence | split; lia | assumption].
Qed.

(** Between one and two characters a byte. *)
Lemma text_len b : len b <= len (text_encode b) <= 2 * len b.
Proof.
  unfold text_encode. destruct (split_zeros x00 b) as [n r] eqn:E.
  apply split_zeros_spec in E as [-> Hr]. destruct (numeral_of r) as (Hd & Hv & Hh).
  autorewrite with len.
  assert (len r <= len (digits radix (val 256 (map byte_val r))) <= 2 * len r); [| len_lia].
  pose proof (val_bound 256 ltac:(lia) _ (bytes_digits r)) as Hup.
  pose proof (val_bound radix ltac:(lia) _ Hd) as Hup'.
  rewrite Hv in Hup'. rewrite len_map in Hup.
  set (l := digits radix _) in *. split.
  - destruct r as [| x r]; [len_lia |].
    assert (Hlow : 256 ^ len r <= val 256 (map byte_val (x :: r))).
    { cbn [map]. rewrite <- (len_map byte_val). apply val_lower; [lia | apply (bytes_digits (x :: r)) |].
      intros E. apply Hr. cbn. f_equal. apply byte_val_inj. rewrite E. reflexivity. }
    assert (len r < len l); [| len_lia].
    apply (Z.pow_lt_mono_r_iff 256); [lia | len_lia |].
    eapply Z.le_lt_trans; [exact Hlow | eapply Z.lt_le_trans; [exact Hup' |]].
    apply Z.pow_le_mono_l. lia.
  - destruct l as [| d l]; [len_lia |].
    pose proof (val_lower radix ltac:(lia) d l Hd ltac:(cbn in Hh; congruence)) as Hlow.
    rewrite Hv in Hlow.
    assert (len l < 2 * len r); [| len_lia].
    apply (Z.pow_lt_mono_r_iff 16); [lia | len_lia |].
    rewrite Z.pow_mul_r by len_lia. change (16 ^ 2) with 256.
    eapply Z.le_lt_trans; [| eapply Z.le_lt_trans; [exact Hlow | exact Hup]].
    apply Z.pow_le_mono_l. lia.
Qed.

Lemma char_of_in d : is_digit radix d -> char_of d ∈ alphabet.
Proof. intros H. eapply list_elem_of_lookup_2, char_of_digit, H. Qed.
Lemma text_alphabet b c : c ∈ text_encode b -> c ∈ alphabet.
Proof.
  unfold text_encode. destruct (split_zeros x00 b) as [n r]. rewrite elem_of_app.
  destruct (numeral_of r) as (Hd & _ & _). intros [H | H].
  - apply elem_of_replicate in H as [-> _]. apply char_of_in. split; lia.
  - apply list_elem_of_fmap in H as (d & -> & H). apply char_of_in.
    rewrite Forall_forall in Hd. auto.
Qed.

Definition ref_encoding : Encoding := {|
  enc_encode b n := let s := text_encode b in if len s <=? n then Some s else None;
  enc_decode s n :=
    let b := text_decode s in
    if len b <=? n then Some b else None;
  enc_encode_size n := 2 * n;
  enc_decode_size n := n
|}.

Lemma ref_encoding_laws : x00 ∉ alphabet -> EncodingLaws ref_encoding.
Proof.
  intros Hz. constructor; cbn; intros.
  - pose proof (text_len b). case_match; [eauto | lia].
  - lia.
  - case_match; simplify_eq. pose proof (text_len b). lia.
  - case_match; simplify_eq. lia.
  - case_match; simplify_eq. rewrite text_roundtrip. pose proof (text_len b).
    case_match; [reflexivity | lia].
  - case_match; simplify_eq. lia.
  - case_match; simplify_eq. intros Hin. eauto using text_alphabet.
Qed.
End Text.

(** ** The instances *)

#[export] Instance ref_base58 : Base58 := {
  base58 := ref_encoding (str "123456789ABCDEFGHJKLMNPQRSTUVWXYZabcdefghijkmnopqrstuvwxyz")
}.
#[export] Instance ref_base32 : Base32 := {
  base32 := ref_encoding (str "ABCDEFGHIJKLMNOPQRSTUVWXYZ234567")
}.
#[export] Instance ref_base16 : Base16 := {
  base16 := ref_encoding (str "0123456789abcdef")
}.

Ltac alphabet_laws :=
  apply ref_encoding_laws;
  [ apply (bool_decide_unpack _); vm_compute; exact I
  | vm_compute; split; discriminate
  | apply (bool_decide_unpack _); vm_compute; exact I ].

Ltac no_slash :=
  cbn [enc_encode ref_encoding]; case_match; intros; simplify_eq;
  let H := fresh in intros H;
  apply text_alphabet in H; [| vm_compute; split; discriminate];
  revert H; apply (bool_decide_unpack _); vm_compute; exact I.

#[export] Instance ref_base32_laws : Base32Laws ref_base32.
Proof.
  constructor; [alphabet_laws |]. intros b n s. cbn [base32 ref_base32]. no_slash.
Qed.
#[export] Instance ref_base16_laws : EncodingLaws base16.
Proof. alphabet_laws. Qed.
Lemma ref_base58_laws : EncodingLaws base58.
Proof. alphabet_laws. Qed.

(** The numeral of a SHA-256 multihash has 46 digits, and the leading two only
    depend on the multihash's two leading bytes. *)
Lemma sha2_multihash_digits d :
  len d = 32 ->
  exists r, digits 58 (val 256 (map byte_val (byte_of 18 :: byte_of 32 :: d))) = [23; 44] ++ r /\
    len r = 44 /\ Forall (is_digit 58) r.
Proof.
  intros Hd. set (n := val 256 _).
  assert (Hn : n = 4640 * 256 ^ 32 + val 256 (map byte_val d)).
  { unfold n. rewrite !map_cons, !byte_val_of.
    change (?a :: ?b :: ?l) with ([a; b] ++ l). rewrite val_app, len_map, Hd by lia. reflexivity. }
  assert (Hr : 0 <= val 256 (map byte_val d) < 256 ^ 32).
  { split; [apply val_nonneg, bytes_digits; lia |].
    rewrite <- Hd, <- (len_map byte_val). apply val_bound; [lia | apply bytes_digits]. }
  destruct (digits_spec 58 ltac:(lia) n) as (Hg & Hv & Hh); [lia |].
  set (l := digits 58 n) in *.
  assert (Hl : len l = 46).
  { change 46 with (45 + 1). apply (val_pow_len 58); auto; [lia | | lia]. rewrite Hv. lia. }
  destruct l as [| a [| b r]]; [len_lia | len_lia |].
  change (a :: b :: r) with ([a; b] ++ r) in Hg, Hv, Hl |- *.
  rewrite val_app in Hv by lia. rewrite len_app in Hl. change (len [a; b]) with 2 in Hl.
  rewrite Forall_app in Hg. destruct Hg as [Hab Hg].
  assert (len r = 44) as Hlr by lia.
  pose proof (val_nonneg 58 ltac:(lia) r Hg). pose proof (val_bound 58 ltac:(lia) r Hg) as Hb.
  rewrite Hlr in *. apply Forall_cons in Hab as [[? ?] [[? ?] _]%Forall_cons].
  change (val 58 [a; b]) with (58 * (58 * 0 + a) + b) in Hv.
  assert (a = 23 /\ b = 44) as [-> ->] by lia. eauto.
Qed.

#[export] Instance ref_base58_multihash : Base58Multihash ref_base58.
Proof.
  constructor; [exact ref_base58_laws | | intros b n s; cbn [base58 ref_base58]; no_slash].
  intros d n s Hd. cbn [enc_encode base58 ref_base58 ref_encoding].
  case_match; intros; simplify_eq. unfold text_encode.
  cbn [split_zeros]. rewrite decide_False by discriminate. cbn [replicate app].
  change (radix _) with 58. destruct (sha2_multihash_digits d Hd) as (r & -> & Hr & _).
  exists (map (char_of (str "123456789ABCDEFGHJKLMNPQRSTUVWXYZabcdefghijkmnopqrstuvwxyz")) r).
  split; [reflexivity | rewrite len_map; exact Hr].
Qed.

#[export] Instance ref_multihash : Multihash := {
  MH_H_SHA2_256 := 18;
  mh_new code d := if len d <? 128 then Some (byte_of code :: byte_of (len d) :: d) else None;
  mh_new_length code n := n + 2;
  mh_multihash_length b n := match b with _ :: l :: _ => byte_val l | _ => -1 end;
  mh_multihash_digest b n := match b with _ :: _ :: d => Some (btake (n - 2) d) | _ => None end
}.
#[export] Instance ref_multihash_laws : MultihashLaws ref_multihash.
Proof.
  constructor; cbn; auto; intros.
  - replace (_ <? _) with true by lia. reflexivity.
  - rewrite byte_val_of, Z.mod_small; len_lia.
  - f_equal. apply btake_all. lia.
Qed.

(** A digest that distinguishes short inputs: the first 31 bytes and the length. *)
Definition ref_digest (b : bytes) : bytes :=
  take 32 (byte_of (len b) :: take 31 b ++ replicate 31 x00).
#[export] Instance ref_sha256 : Sha256 := {
  libp2p_crypto_hashing_sha256 b := Some (ref_digest b)
}.
#[export] Instance ref_sha256_laws : Sha256Laws ref_sha256.
Proof.
  constructor. intros b. exists (ref_digest b). split; [reflexivity |]. unfold ref_digest, len.
  rewrite length_take. cbn [length]. rewrite length_app, length_replicate, length_take. lia.
Qed.
