(* ===== verification/Multibase.v ===== *)
(** Texts with a letter in front for their base (src/multibase/multibase.c). *)

From S2P Require Import Prelude Libc Libs LibsRef.

Section Multibase.
Context {B16 : Base16} {B58 : Base58}.

Definition MULTIBASE_BASE58_BTC : byte := byte_of 122.
Definition MULTIBASE_BASE16 : byte := byte_of 102.

(** The encodings supported. *)
Definition encoding_of (base : byte) : option Encoding :=
  if decide (base = MULTIBASE_BASE58_BTC) then Some base58
  else if decide (base = MULTIBASE_BASE16) then Some base16
  else None.

(** [results] afterwards. The text is moved by one with [memcpy], whose blocks must not
    overlap: they do when the text has two characters. *)
Definition multibase_encode (base : byte) (incoming : bytes) (results_max_length : Z)
  : cres unit bytes :=
  match encoding_of base with
  | None => Err ()
  | Some EN =>
      match @enc_encode EN incoming results_max_length with
      | None => Err ()
      | Some results =>
          if results_max_length <=? len results then Err ()
          else if 1 <? len results then Undef
          else Ok (base :: results)
      end
  end.

(** The room for the letter is added for one of the bases. *)
Definition multibase_encode_size (base : byte) (incoming_length : Z) : Z :=
  if decide (base = MULTIBASE_BASE58_BTC) then @enc_encode_size base58 incoming_length + 1
  else if decide (base = MULTIBASE_BASE16) then @enc_encode_size base16 incoming_length
  else 0.

Definition multibase_decode (incoming : bytes) (results_max_length : Z) : cres unit bytes :=
  match incoming with
  | [] => Undef
  | base :: text =>
      match encoding_of base with
      | None => Err ()
      | Some EN =>
          match @enc_decode EN text results_max_length with
          | None => Err ()
          | Some results => Ok results
          end
      end
  end.
Definition multibase_decode_size (base : byte) (incoming_length : Z) : Z :=
  if decide (base = MULTIBASE_BASE58_BTC) then @enc_decode_size base58 incoming_length + 1
  else if decide (base = MULTIBASE_BASE16) then @enc_decode_size base16 incoming_length
  else 0.

Context `{!EncodingLaws (@base16 B16)} `{!EncodingLaws (@base58 B58)}.

(** A text with its letter is decoded, into a buffer of the advertised size. *)
Lemma multibase_decode_text base EN b s n m :
  encoding_of base = Some EN -> @enc_encode EN b n = Some s ->
  multibase_decode_size base (len s) <= m -> multibase_decode (base :: s) m = Ok b.
Proof.
  unfold encoding_of, multibase_decode, multibase_decode_size. unfold encoding_of.
  intros HE Hs Hm. repeat case_decide; try discriminate; injection HE as <-.
  - rewrite (enc_roundtrip (EN := base58) _ _ _ m Hs) by lia. reflexivity.
  - rewrite (enc_roundtrip (EN := base16) _ _ _ m Hs) by lia. reflexivity.
Qed.

(** Encoding never gives a text of two characters or more. *)
Lemma multibase_encode_short base b n s : multibase_encode base b n = Ok s -> len s <= 2.
Proof.
  unfold multibase_encode. destruct (encoding_of base) as [EN |]; [| discriminate].
  destruct (enc_encode b n) as [r |]; [| discriminate].
  destruct (n <=? len r); [discriminate |]. destruct (1 <? len r) eqn:E; [discriminate |].
  intros [= <-]. rewrite len_cons. lia.
Qed.
End Multibase.
