(* ===== verification/Cid.v ===== *)
(** Content identifiers (src/cid/cid.c, include/ipfs/cid/cid.h): the structure,
    its protobuf form, its text forms and its comparison. *)

From S2P Require Import Prelude Libc Protobuf Libs ProtobufRef LibsRef.

Definition CID_RAW : Z := 0x55.
Definition CID_DAG_PROTOBUF : Z := 0x70.
Definition CID_DAG_CBOR : Z := 0x71.
Definition CID_GIT_RAW : Z := 0x78.
Definition CID_ETHEREUM_BLOCK : Z := 0x90.
Definition CID_BITCOIN_BLOCK : Z := 0xb0.

(** [hash] is a pointer: [None] is NULL, [Some h] the bytes it designates. *)
Record Cid := MkCid {
  cid_version : Z;
  cid_codec : Z;
  cid_hash : option bytes;
  cid_hash_length : Z
}.

#[export] Instance Cid_eq_dec : EqDecision Cid.
Proof. solve_decision. Defined.

(** What the C types allow, and a hash of the length the structure records. *)
Record cid_wf (c : Cid) : Prop := {
  cid_wf_version : - 2 ^ 31 <= cid_version c < 2 ^ 31;
  cid_wf_codec : - 2 ^ 31 <= cid_codec c < 2 ^ 31;
  cid_wf_hash : match cid_hash c with
                | Some h => cid_hash_length c = len h
                | None => cid_hash_length c = 0
                end
}.

(** The bytes of the hash. *)
Definition cid_digest (c : Cid) : bytes := default [] (cid_hash c).

(** ** Construction *)

(** The last parameter is a [char]. The allocations are taken to succeed. *)
Definition ipfs_cid_new {E} (version : Z) (hash : option bytes) (hash_length codec : Z)
  : cres E Cid :=
  hash' ← (if (hash_length =? 0) || bool_decide (hash = None) then Ok None
           else Some <$> mem_read hash hash_length);
  Ok (MkCid version (i8 codec) hash' hash_length).

(** [malloc(0)] is taken to return a pointer, as the C library's does. *)
Definition ipfs_cid_copy {E} (original : Cid) : cres E Cid :=
  h ← mem_read (cid_hash original) (cid_hash_length original);
  Ok (MkCid (cid_version original) (cid_codec original) (Some h)
        (cid_hash_length original)).

(** ** Protobuf form *)

Section Protobuf.
Context {PB : Protobuf}.

Definition ipfs_cid_protobuf_encode_size (cid : option Cid) : Z :=
  match cid with
  | Some cid => u64 (11 + 12 + cid_hash_length cid + 11)
  | None => 0
  end.

(** The value parameter of [protobuf_encode_varint] is an unsigned 64-bit one. *)
Definition ipfs_cid_protobuf_encode (cid : option Cid) (buffer_length : Z)
  : cres bytes bytes :=
  match cid with
  | None => Ok []
  | Some cid =>
      out ← emit (protobuf_encode_varint 1 WIRETYPE_VARINT (u64 (cid_version cid))
                    buffer_length) [];
      out ← emit (protobuf_encode_varint 2 WIRETYPE_VARINT (u64 (cid_codec cid))
                    (size_sub buffer_length (len out))) out;
      hash ← mem_read (cid_hash cid) (cid_hash_length cid);
      emit (protobuf_encode_length_delimited 3 WIRETYPE_LENGTH_DELIMITED hash
              (size_sub buffer_length (len out))) out
  end.

(** The locals of the decoder; [hash] and [hash_length] start uninitialised. *)
Record cid_decoding := CidDecoding {
  cd_version : Z;
  cd_codec : Z;
  cd_hash : option bytes
}.

Definition cid_decode_field (buffer : bytes) (buffer_length pos field_no : Z)
  (s : cid_decoding) : cres cid_decoding (cid_decoding * Z) :=
  let at_pos := bdrop pos buffer in
  let room := size_sub buffer_length pos in
  if field_no =? 1 then
    let '(v, bytes_read) := varint_decode at_pos room in
    Ok (CidDecoding (i32 v) (cd_codec s) (cd_hash s), bytes_read)
  else if field_no =? 2 then
    let '(v, bytes_read) := varint_decode at_pos room in
    Ok (CidDecoding (cd_version s) (i8 v) (cd_hash s), bytes_read)
  else if field_no =? 3 then
    match protobuf_decode_length_delimited at_pos room with
    | Some (hash, bytes_read) =>
        Ok (CidDecoding (cd_version s) (cd_codec s) (Some hash), bytes_read)
    | None => Err s
    end
  else Ok (s, 0).

(** [*output] on success; it is left alone on failure. *)
Definition ipfs_cid_protobuf_decode (buffer : bytes) (buffer_length : Z)
  : cres unit (option Cid) :=
  if buffer_length =? 0 then Ok None
  else
    s ← on_err (field_loop (cid_decode_field buffer buffer_length) buffer buffer_length
                  (loop_fuel buffer_length) 0 (CidDecoding 0 0 None)) ();
    match cd_hash s with
    | None => Undef (* the uninitialised [hash] is passed on and freed *)
    | Some hash =>
        cid ← ipfs_cid_new (cd_version s) (Some hash) (len hash) (cd_codec s);
        Ok (Some cid)
    end.
End Protobuf.

(** ** Text forms *)

Section Text.
Context {MH : Multihash} {B58 : Base58}.

Definition ipfs_cid_decode_hash_from_base58 (incoming : bytes) (incoming_length : Z)
  : cres unit Cid :=
  if incoming_length <? 2 then Err ()
  else if (incoming_length =? 46) && starts_with (str "Qm") incoming then
    let hash_length := @enc_decode_size base58 incoming_length in
    match @enc_decode base58 (btake incoming_length incoming) hash_length with
    | None => Err ()
    | Some hash =>
        ipfs_cid_new 0 (Some (bdrop 2 hash)) (size_sub (len hash) 2) CID_DAG_PROTOBUF
    end
  else Err ().

(** The outcome, and what the caller's string holds afterwards: the function
    writes a NUL over the first slash. *)
Definition ipfs_cid_decode_hash_from_ipfs_ipns_string (incoming : option bytes)
  : cres unit Cid * option bytes :=
  match incoming with
  | None => (Err (), incoming)
  | Some s =>
      if negb (bool_decide (strstr s (str "/ipfs/") = Some O)) &&
         negb (bool_decide (strstr s (str "/ipns/") = Some O))
      then (Err (), incoming)
      else
        let s' := match strstr s (str "/") with
                  | Some slash => <[slash := x00]> s
                  | None => s
                  end in
        let base58 := bdrop 6 s' in
        (ipfs_cid_decode_hash_from_base58 (c_str base58) (strlen base58), Some s')
  end.

(** [buffer] afterwards. The local array has [(int) hash_length + 2] bytes. *)
Definition ipfs_cid_hash_to_base58 (hash : option bytes) (hash_length max_buffer_length : Z)
  : cres unit bytes :=
  let multihash_len := i32 (hash_length + 2) in
  if negb (hash_length + 2 =? multihash_len) then Undef
  else
    digest ← mem_read hash hash_length;
    match mh_new MH_H_SHA2_256 digest with
    | None => Err ()
    | Some multihash =>
        let b58_size := @enc_encode_size base58 multihash_len in
        if max_buffer_length <? b58_size then Err ()
        else
          multihash ← mem_read (Some multihash) multihash_len;
          match @enc_encode base58 multihash max_buffer_length with
          | None => Err ()
          | Some s => Ok s
          end
    end.

Definition ipfs_cid_to_string (cid : Cid) : cres unit bytes :=
  let str_len := @enc_encode_size base58 (cid_hash_length cid) + 1 in
  hash ← mem_read (cid_hash cid) (cid_hash_length cid);
  match @enc_encode base58 hash str_len with
  | None => Err ()
  | Some s => Ok s
  end.
End Text.

(** ** Binary form *)

Section Cast.
Context {PB : Protobuf} {MH : Multihash}.

(** [cid] is filled in; on failure it may be half filled. The hash is a pointer
    into [incoming]. *)
Definition ipfs_cid_cast (incoming : bytes) (incoming_size : Z) (cid : Cid) : cres Cid Cid :=
  if (incoming_size =? 34) && starts_with [byte_of 18; byte_of 32] incoming then
    let hash_length := u64 (mh_multihash_length incoming incoming_size) in
    match mh_multihash_digest incoming incoming_size with
    | Some digest => Ok (MkCid 0 CID_DAG_PROTOBUF (Some digest) (len digest))
    | None => Ok (MkCid 0 CID_DAG_PROTOBUF (cid_hash cid) hash_length)
    end
  else
    let '(v, num_bytes) := varint_decode incoming incoming_size in
    let cid := MkCid (i32 v) (cid_codec cid) (cid_hash cid) (cid_hash_length cid) in
    if (num_bytes =? 0) || (1 <? cid_version cid) || (cid_version cid <? 0) then Err cid
    else
      let pos := i32 num_bytes in
      let '(c, num_bytes) := varint_decode (bdrop pos incoming) (size_sub incoming_size pos) in
      if num_bytes =? 0 then Err cid
      else
        let codec := u32 c in
        let pos := i32 (pos + num_bytes) in
        Ok (MkCid (cid_version cid) (i32 codec) (Some (bdrop pos incoming))
              (size_sub incoming_size pos)).
End Cast.

(** ** Comparison *)

(** [b - a] on [int]: a result out of range is undefined. *)
Definition int_sub {E} (b a : Z) : cres E Z :=
  let d := b - a in
  if (- 2 ^ 31 <=? d) && (d <? 2 ^ 31) then Ok d else Undef.

(** The loop over the hashes, [n] bytes of each; NULL is an empty object. *)
Fixpoint cmp_hash (n : nat) (a b : bytes) : cres unit Z :=
  match n, a, b with
  | O, _, _ => Ok 0
  | S n, x :: a, y :: b =>
      if decide (x = y) then cmp_hash n a b else Ok (byte_val y - byte_val x)
  | _, _, _ => Undef
  end.

Definition ipfs_cid_compare (a b : option Cid) : cres unit Z :=
  match a, b with
  | None, None => Ok 0
  | Some _, None => Ok (-1)
  | None, Some _ => Ok 1
  | Some a, Some b =>
      if negb (cid_version a =? cid_version b) then int_sub (cid_version b) (cid_version a)
      else if negb (cid_codec a =? cid_codec b) then int_sub (cid_codec b) (cid_codec a)
      else if negb (cid_hash_length a =? cid_hash_length b) then
        Ok (i32 (size_sub (cid_hash_length b) (cid_hash_length a)))
      else
        cmp_hash (Z.to_nat (cid_hash_length a)) (cid_digest a) (cid_digest b)
  end.

(** * Properties *)

(** The value a CID stands for: without the pointer. *)
Definition cid_value (c : Cid) : Z * Z * bytes := (cid_version c, cid_codec c, cid_digest c).

Lemma cid_digest_len c : cid_wf c -> len (cid_digest c) = cid_hash_length c.
Proof.
  intros [_ _ H]. unfold cid_digest. destruct (cid_hash c); cbn; [congruence |].
  rewrite len_nil. congruence.
Qed.
Lemma cid_hash_read {E} c :
  cid_wf c -> @mem_read E (cid_hash c) (cid_hash_length c) = Ok (cid_digest c).
Proof.
  intros [_ _ H]. unfold cid_digest. destruct (cid_hash c) as [h |]; cbn; rewrite H.
  - apply mem_read_all.
  - reflexivity.
Qed.

Lemma cid_new_bytes {E} version h n codec :
  0 < n <= len h ->
  @ipfs_cid_new E version (Some h) n codec =
    Ok (MkCid version (i8 codec) (Some (btake n h)) n).
Proof.
  intros Hn. unfold ipfs_cid_new, mem_read.
  replace (n =? 0) with false by lia. cbn [orb].
  rewrite bool_decide_eq_false_2 by discriminate.
  replace (n <=? len h) with true by lia. reflexivity.
Qed.

(** A new CID of any bytes (none included) has these bytes as its hash. *)
Lemma cid_new_full {E} version h codec :
  exists c, @ipfs_cid_new E version (Some h) (len h) codec = Ok c /\
    cid_version c = version /\ cid_codec c = i8 codec /\ cid_digest c = h /\
    cid_hash_length c = len h.
Proof.
  destruct (Z.eq_dec (len h) 0) as [H0 | H0].
  - apply len_zero in H0 as ->. eexists. split; [reflexivity |]. auto.
  - pose proof (len_nonneg h). rewrite cid_new_bytes, btake_all by lia.
    eexists. split; [reflexivity |]. auto.
Qed.

Lemma cid_new_wf version h codec c :
  - 2 ^ 31 <= version < 2 ^ 31 ->
  @ipfs_cid_new () version (Some h) (len h) codec = Ok c -> cid_wf c.
Proof.
  intros Hv. destruct (Z.eq_dec (len h) 0) as [H0 | H0].
  - apply len_zero in H0 as ->. cbn. intros [= <-]. constructor; cbn; auto.
    unfold i8. pose proof (Z.mod_pos_bound (codec + 2 ^ 7) (2 ^ 8)). lia.
  - pose proof (len_nonneg h). rewrite cid_new_bytes, btake_all by lia.
    intros [= <-]. constructor; cbn; auto.
    unfold i8. pose proof (Z.mod_pos_bound (codec + 2 ^ 7) (2 ^ 8)). lia.
Qed.

Lemma cid_copy_value {E} c :
  cid_wf c -> exists c', @ipfs_cid_copy E c = Ok c' /\ cid_value c' = cid_value c /\ cid_wf c'.
Proof.
  intros Hc. unfold ipfs_cid_copy. rewrite cid_hash_read by assumption.
  eexists. split; [reflexivity |]. split; [reflexivity |].
  pose proof (cid_digest_len c Hc). destruct Hc. constructor; cbn; auto.
Qed.

Section ProtobufFacts.
Context {PB : Protobuf} `{!ProtobufLaws PB}.

Definition cid_fields (c : Cid) : list wfield :=
  [varint_field 1 (u64 (cid_version c)); varint_field 2 (u64 (cid_codec c));
   ld_field 3 (cid_digest c)].

(** The room the encoding of a CID takes, at most. *)
Lemma cid_fields_len c :
  cid_wf c -> cid_hash_length c < 2 ^ 63 ->
  len (wire_msg (cid_fields c)) =
    (1 + varint_size (u64 (cid_version c))) + (1 + varint_size (u64 (cid_codec c))) +
    (1 + varint_size (cid_hash_length c) + cid_hash_length c).
Proof.
  intros Hc Hl. pose proof (cid_digest_len c Hc) as Hd.
  unfold cid_fields. autorewrite with wire. rewrite !len_app, len_nil.
  rewrite !len_varint_field by (try apply u64_range; lia).
  rewrite len_ld_field by lia. rewrite Hd. lia.
Qed.

Lemma cid_fields_bound c :
  cid_wf c -> cid_hash_length c < 2 ^ 63 ->
  len (wire_msg (cid_fields c)) <= 11 + 12 + cid_hash_length c + 11.
Proof.
  intros Hc Hl. rewrite cid_fields_len by assumption.
  pose proof (cid_digest_len c Hc). pose proof (len_nonneg (cid_digest c)).
  pose proof (varint_size_64 _ (u64_range (cid_version c))).
  pose proof (varint_size_64 _ (u64_range (cid_codec c))).
  pose proof (varint_size_64 (cid_hash_length c) ltac:(lia)). lia.
Qed.

Lemma cid_encode_fields c n :
  cid_wf c -> cid_hash_length c < 2 ^ 63 -> n < 2 ^ 64 ->
  len (wire_msg (cid_fields c)) <= n ->
  ipfs_cid_protobuf_encode (Some c) n = Ok (wire_msg (cid_fields c)).
Proof.
  intros Hc Hl Hn Hroom. rewrite cid_fields_len in Hroom by assumption.
  pose proof (cid_digest_len c Hc) as Hd. pose proof (len_nonneg (cid_digest c)).
  pose proof (u64_range (cid_version c)) as Hv. pose proof (u64_range (cid_codec c)) as Hk.
  pose proof (varint_size_pos (u64 (cid_codec c))).
  pose proof (varint_size_pos (cid_hash_length c)).
  unfold ipfs_cid_protobuf_encode.
  rewrite emit_varint_first by lia. cbn [mbind cres_bind].
  rewrite emit_varint by (rewrite ?len_varint_field; lia). cbn [mbind cres_bind].
  rewrite cid_hash_read by assumption. cbn [mbind cres_bind].
  rewrite emit_ld by (rewrite ?Hd, ?len_app, ?len_varint_field; lia).
  unfold cid_fields. autorewrite with wire. rewrite app_nil_r, <- !app_assoc. reflexivity.
Qed.

(** The decoder on its own wire form. *)
Lemma cid_reads_1 v s :
  0 <= v < 2 ^ 64 ->
  reads cid_decode_field 1 (wire_uint v) s (CidDecoding (i32 v) (cd_codec s) (cd_hash s)).
Proof.
  intros Hv pre rest buf Hl. unfold cid_decode_field. cbn [Z.eqb Pos.eqb].
  subst buf. rewrite at_varint by assumption. reflexivity.
Qed.
Lemma cid_reads_2 v s :
  0 <= v < 2 ^ 64 ->
  reads cid_decode_field 2 (wire_uint v) s (CidDecoding (cd_version s) (i8 v) (cd_hash s)).
Proof.
  intros Hv pre rest buf Hl. unfold cid_decode_field. cbn [Z.eqb Pos.eqb].
  subst buf. rewrite at_varint by assumption. reflexivity.
Qed.
Lemma cid_reads_3 d s :
  reads cid_decode_field 3 (ld_payload d) s (CidDecoding (cd_version s) (cd_codec s) (Some d)).
Proof.
  intros pre rest buf Hl. unfold cid_decode_field. cbn [Z.eqb Pos.eqb].
  subst buf. rewrite at_ld by assumption. reflexivity.
Qed.

Lemma wire_msg_cid_pos c : 0 < len (wire_msg (cid_fields c)).
Proof.
  unfold cid_fields. rewrite wire_msg_cons, len_app. cbn [wire_field varint_field].
  rewrite len_app, wire_key_len by lia. len_lia.
Qed.

Lemma cid_decode_fields c :
  cid_wf c -> cid_hash_length c < 2 ^ 63 ->
  exists c', ipfs_cid_protobuf_decode (wire_msg (cid_fields c)) (len (wire_msg (cid_fields c))) =
      Ok (Some c') /\
    cid_version c' = cid_version c /\ cid_codec c' = i8 (cid_codec c) /\
    cid_digest c' = cid_digest c /\ cid_hash_length c' = cid_hash_length c.
Proof.
  intros Hc Hl. pose proof (cid_fields_bound c Hc Hl) as Hb.
  pose proof (wire_msg_cid_pos c) as Hpos.
  unfold ipfs_cid_protobuf_decode. replace (_ =? 0) with false by lia.
  rewrite (field_loop_reads cid_decode_field (cid_fields c) _
             (CidDecoding (cid_version c) (i8 (cid_codec c)) (Some (cid_digest c)))).
  - cbn [on_err mbind cres_bind cd_hash cd_version cd_codec].
    destruct (@cid_new_full unit (cid_version c) (cid_digest c) (i8 (cid_codec c)))
      as (c' & -> & Hv & Hk & Hd & Hn).
    exists c'. split; [reflexivity |]. split; [assumption |].
    rewrite Hk, i8_i8, Hn, cid_digest_len by assumption. auto.
  - destruct Hc as [Hv Hk _]. unfold cid_fields, varint_field, ld_field.
    eapply reads_cons; [lia | apply cid_reads_1, u64_range |].
    eapply reads_cons; [lia | apply cid_reads_2, u64_range |].
    eapply reads_cons; [lia | apply cid_reads_3 |].
    cbn [cd_version cd_codec cd_hash]. rewrite i32_u64, i8_u64, i32_small by assumption.
    constructor.
  - lia.
Qed.

Lemma cid_decode_returns buffer n : returns (ipfs_cid_protobuf_decode buffer n).
Proof.
  unfold ipfs_cid_protobuf_decode. case_match; [exact I |].
  assert (returns (field_loop (cid_decode_field buffer n) buffer n (loop_fuel n) 0
                     (CidDecoding 0 0 None))) as Hret.
  { apply field_loop_terminates.
    - intros. unfold cid_decode_field. repeat case_match; exact I.
    - unfold cid_decode_field. step_reads. }
  destruct (field_loop _ _ _ _ _ _) as [s | | |]; cbn; auto.
  destruct (cd_hash s) as [h |]; [| exact I].
  destruct (@cid_new_full unit (cd_version s) h (cd_codec s)) as (c' & -> & _). exact I.
Qed.
End ProtobufFacts.

(** ** Text forms *)

Section TextFacts.
Context {MH : Multihash} {B58 : Base58}.
Context `{!MultihashLaws MH} `{!Base58Multihash B58}.

Lemma decode_base58_Qm (d : bytes) n s :
  len d = 32 ->
  @enc_encode base58 (byte_of 18 :: byte_of 32 :: d) n = Some s ->
  ipfs_cid_decode_hash_from_base58 s (len s) = Ok (MkCid 0 CID_DAG_PROTOBUF (Some d) 32).
Proof.
  intros Hd He. destruct (base58_Qm d n s Hd He) as (r & -> & Hr).
  unfold ipfs_cid_decode_hash_from_base58.
  assert (Hl : len (str "Qm" ++ r) = 46) by (rewrite len_app, Hr; reflexivity).
  rewrite Hl, btake_all by lia. cbn [Z.ltb Z.compare Pos.compare Pos.compare_cont Z.eqb Pos.eqb].
  rewrite starts_with_app. cbn [andb].
  rewrite (enc_roundtrip _ _ _ _ He) by (rewrite Hl; reflexivity).
  rewrite !len_cons, Hd. change (bdrop 2 (byte_of 18 :: byte_of 32 :: d)) with d.
  rewrite size_sub_small by lia. rewrite cid_new_bytes, btake_all by lia. reflexivity.
Qed.

Lemma hash_to_base58_ok (d : bytes) n :
  len d = 32 -> @enc_encode_size base58 34 <= n ->
  exists s, ipfs_cid_hash_to_base58 (Some d) 32 n = Ok s /\
    @enc_encode base58 (byte_of 18 :: byte_of 32 :: d) n = Some s.
Proof.
  intros Hd Hn. unfold ipfs_cid_hash_to_base58.
  rewrite (i32_small (32 + 2)), Z.eqb_refl by lia. cbn [negb].
  rewrite (mem_read_len d) by lia. cbn [mbind cres_bind].
  rewrite mh_new_sha2 by lia. rewrite Hd. change (32 + 2) with 34.
  replace (n <? _) with false by lia.
  rewrite mem_read_len by (rewrite !len_cons; lia). cbn [mbind cres_bind].
  destruct (enc_total (EN := base58) (byte_of 18 :: byte_of 32 :: d) n) as [s ->];
    [rewrite !len_cons, Hd; exact Hn |]. eauto.
Qed.

(** What the function does on a string it accepts: whatever follows the prefix
    is decoded, and the caller's string is cut to nothing. *)
Lemma ipns_string_accepted (p r : bytes) :
  p = str "/ipfs/" \/ p = str "/ipns/" -> cstring r ->
  ipfs_cid_decode_hash_from_ipfs_ipns_string (Some (p ++ r)) =
    (ipfs_cid_decode_hash_from_base58 r (len r), Some (x00 :: drop 1 (p ++ r))).
Proof.
  intros Hp Hr. unfold ipfs_cid_decode_hash_from_ipfs_ipns_string.
  assert (Hs : strstr (p ++ r) (str "/") = Some O).
  { apply strstr_prefix. destruct Hp as [-> | ->]; reflexivity. }
  rewrite Hs. replace (negb _ && negb _) with false.
  - unfold strlen. replace (bdrop 6 (<[0%nat:=x00]> (p ++ r))) with r.
    + rewrite c_str_id by assumption. f_equal. destruct Hp as [-> | ->]; reflexivity.
    + destruct Hp as [-> | ->]; reflexivity.
  - symmetry. apply andb_false_iff. destruct Hp as [-> | ->].
    + left. rewrite bool_decide_eq_true_2; [reflexivity |].
      apply strstr_prefix, starts_with_app.
    + right. rewrite bool_decide_eq_true_2; [reflexivity |].
      apply strstr_prefix, starts_with_app.
Qed.
End TextFacts.

(** ** Binary form *)

Section CastFacts.
Context {PB : Protobuf} {MH : Multihash} `{!ProtobufLaws PB} `{!MultihashLaws MH}.

Lemma cast_varints version codec h cid :
  0 <= version -> 0 <= codec < 2 ^ 31 ->
  (version < 18 \/ 19 <= version < 128) ->
  let b := wire_uint version ++ wire_uint codec ++ h in
  len b < 2 ^ 31 -> starts_with [byte_of 18; byte_of 32] b = false ->
  ipfs_cid_cast b (len b) cid =
    if 1 <? version then Err (MkCid version (cid_codec cid) (cid_hash cid) (cid_hash_length cid))
    else Ok (MkCid version codec (Some h) (len h)).
Proof.
  intros Hv Hk Hr b Hb Hs. unfold ipfs_cid_cast. rewrite Hs, andb_false_r.
  assert (Hl : len b = varint_size version + varint_size codec + len h).
  { subst b. rewrite !len_app, !wire_uint_len by lia. lia. }
  pose proof (varint_size_pos version). pose proof (varint_size_pos codec).
  pose proof (len_nonneg h).
  pose proof (varint_size_1 version ltac:(lia)) as Hone.
  unfold b at 1. rewrite varint_decode_wire by lia. cbn [cid_version cid_codec cid_hash cid_hash_length].
  rewrite (i32_small version) by lia. replace (varint_size version =? 0) with false by lia.
  replace (version <? 0) with false by lia. rewrite orb_false_r. cbn [orb].
  destruct (1 <? version) eqn:Hgt; [reflexivity |].
  rewrite (i32_small (varint_size version)) by lia.
  assert (Hd : bdrop (varint_size version) b = wire_uint codec ++ h).
  { rewrite <- (wire_uint_len version) by lia. apply bdrop_app_len. }
  rewrite Hd, size_sub_small, varint_decode_wire by lia.
  replace (varint_size codec =? 0) with false by lia.
  rewrite u32_small, !i32_small, size_sub_small by lia.
  rewrite <- (bdrop_bdrop (varint_size codec)) by lia.
  rewrite Hd, <- (wire_uint_len codec), bdrop_app_len by lia.
  rewrite wire_uint_len by lia. f_equal. f_equal. lia.
Qed.

Lemma cast_multihash d cid :
  len d = 32 ->
  ipfs_cid_cast (byte_of 18 :: byte_of 32 :: d) 34 cid =
    Ok (MkCid 0 CID_DAG_PROTOBUF (Some d) 32).
Proof.
  intros Hd. unfold ipfs_cid_cast. cbn [Z.eqb Pos.eqb andb starts_with].
  rewrite !bool_decide_eq_true_2 by reflexivity. cbn [andb].
  pose proof (mh_multihash_digest_sha2 d ltac:(lia)) as Hg. rewrite Hd in Hg.
  change (32 + 2) with 34 in Hg. rewrite Hg, Hd. reflexivity.
Qed.
End CastFacts.

(** ** Comparison *)

Lemma byte_sub_zero x y : byte_val y - byte_val x = 0 -> x = y.
Proof. intros. apply byte_val_inj. lia. Qed.

(** On hashes of one length the loop finds the first difference. *)
Lemma cmp_hash_spec a b :
  length a = length b ->
  exists r, cmp_hash (length a) a b = Ok r /\ cmp_hash (length b) b a = Ok (- r) /\
    (r = 0 <-> a = b) /\ - 256 < r < 256.
Proof.
  revert b. induction a as [| x a IH]; intros [| y b] Hl; try discriminate; cbn.
  - exists 0. repeat split; auto; lia.
  - injection Hl as Hl. destruct (IH b Hl) as (r & H1 & H2 & H3 & H4).
    destruct (decide (x = y)) as [-> | Hne].
    + rewrite decide_True by reflexivity. exists r.
      split; [assumption |]. split; [assumption |]. split; [| assumption].
      rewrite H3. split; congruence.
    + rewrite decide_False by congruence. exists (byte_val y - byte_val x).
      pose proof (byte_val_range x). pose proof (byte_val_range y).
      split; [reflexivity |]. split; [f_equal; lia |]. split; [| lia].
      split; [| congruence]. intros E. apply byte_sub_zero in E. contradiction.
Qed.

Lemma cmp_hash_trans a b c r s :
  length a = length b -> length b = length c ->
  cmp_hash (length a) a b = Ok r -> cmp_hash (length b) b c = Ok s -> r < 0 -> s < 0 ->
  exists t, cmp_hash (length a) a c = Ok t /\ t < 0.
Proof.
  revert b c. induction a as [| x a IH]; intros [| y b] [| z c] H1 H2; try discriminate; cbn.
  - intros [= <-]. lia.
  - injection H1 as H1. injection H2 as H2.
    repeat case_decide; subst; try (intros; simplify_eq; eauto; fail).
    all: intros; simplify_eq; first [lia | eexists; split; [reflexivity | lia]].
Qed.

(** Ranges for which no difference overflows an [int]. *)
Record cid_small (c : Cid) : Prop := {
  cid_small_wf : cid_wf c;
  cid_small_version : - 2 ^ 30 <= cid_version c < 2 ^ 30;
  cid_small_codec : - 2 ^ 30 <= cid_codec c < 2 ^ 30;
  cid_small_length : cid_hash_length c < 2 ^ 31
}.

Lemma int_sub_ok {E} a b : - 2 ^ 30 <= a < 2 ^ 30 -> - 2 ^ 30 <= b < 2 ^ 30 ->
  @int_sub E a b = Ok (a - b).
Proof.
  intros. unfold int_sub. replace ((_ <=? _) && _) with true by lia. reflexivity.
Qed.
Lemma length_sub_ok a b : 0 <= a < 2 ^ 31 -> 0 <= b < 2 ^ 31 -> i32 (size_sub a b) = a - b.
Proof. intros. unfold size_sub. rewrite i32_u64, i32_small; lia. Qed.

(** The comparison is the lexicographic one, sign reversed. *)
Lemma cid_compare_eq a b :
  cid_small a -> cid_small b ->
  ipfs_cid_compare (Some a) (Some b) =
    if negb (cid_version a =? cid_version b) then Ok (cid_version b - cid_version a)
    else if negb (cid_codec a =? cid_codec b) then Ok (cid_codec b - cid_codec a)
    else if negb (cid_hash_length a =? cid_hash_length b)
      then Ok (cid_hash_length b - cid_hash_length a)
    else cmp_hash (length (cid_digest a)) (cid_digest a) (cid_digest b).
Proof.
  intros [Ha Va Ka La] [Hb Vb Kb Lb]. unfold ipfs_cid_compare.
  pose proof (cid_digest_len a Ha). pose proof (cid_digest_len b Hb).
  pose proof (len_nonneg (cid_digest a)). pose proof (len_nonneg (cid_digest b)).
  rewrite !int_sub_ok, length_sub_ok by lia.
  replace (Z.to_nat (cid_hash_length a)) with (length (cid_digest a)) by (unfold len in *; lia).
  reflexivity.
Qed.

Lemma cid_digest_length_eq a b :
  cid_wf a -> cid_wf b -> cid_hash_length a = cid_hash_length b ->
  length (cid_digest a) = length (cid_digest b).
Proof.
  intros Ha Hb. rewrite <- (cid_digest_len a), <- (cid_digest_len b) by assumption.
  unfold len. lia.
Qed.

(** The first differing field decides. *)
Ltac cmp_diff :=
  eexists; split; [reflexivity |]; split; [f_equal; lia |];
  split; [lia | intros E; injection E; intros; first [lia | congruence]].

Lemma cid_compare_flip a b :
  cid_small a -> cid_small b ->
  exists r, ipfs_cid_compare (Some a) (Some b) = Ok r /\
    ipfs_cid_compare (Some b) (Some a) = Ok (- r) /\
    (r = 0 <-> cid_value a = cid_value b).
Proof.
  intros Ha Hb. rewrite !cid_compare_eq by assumption.
  pose proof (cid_digest_len a (cid_small_wf a Ha)) as La.
  pose proof (cid_digest_len b (cid_small_wf b Hb)) as Lb.
  unfold cid_value.
  rewrite (Z.eqb_sym (cid_version b)), (Z.eqb_sym (cid_codec b)),
    (Z.eqb_sym (cid_hash_length b)).
  destruct (cid_version a =? cid_version b) eqn:Ev; cbn [negb].
  2: solve [cmp_diff].
  destruct (cid_codec a =? cid_codec b) eqn:Ek; cbn [negb].
  2: solve [cmp_diff].
  destruct (cid_hash_length a =? cid_hash_length b) eqn:El; cbn [negb].
  2: { apply Z.eqb_neq in El. cmp_diff. }
  apply Z.eqb_eq in Ev, Ek, El.
  destruct (cmp_hash_spec (cid_digest a) (cid_digest b)) as (r & H1 & H2 & H3 & _);
    [apply cid_digest_length_eq; auto using cid_small_wf |].
  exists r. split; [exact H1 |]. rewrite <- (cid_digest_length_eq a b) in H2 by
    auto using cid_small_wf.
  rewrite H3, Ev, Ek, <- (cid_digest_length_eq a b) by auto using cid_small_wf.
  split; [exact H2 |]. split; congruence.
Qed.

Lemma cid_compare_trans a b c r s t :
  cid_small a -> cid_small b -> cid_small c ->
  ipfs_cid_compare (Some a) (Some b) = Ok r -> ipfs_cid_compare (Some b) (Some c) = Ok s ->
  ipfs_cid_compare (Some a) (Some c) = Ok t -> r < 0 -> s < 0 -> t < 0.
Proof.
  intros Ha Hb Hc. rewrite !cid_compare_eq by assumption.
  destruct (cid_version a =? cid_version b) eqn:?, (cid_version b =? cid_version c) eqn:?,
    (cid_version a =? cid_version c) eqn:?; cbn [negb]; try (intros; simplify_eq; lia).
  destruct (cid_codec a =? cid_codec b) eqn:?, (cid_codec b =? cid_codec c) eqn:?,
    (cid_codec a =? cid_codec c) eqn:?; cbn [negb]; try (intros; simplify_eq; lia).
  destruct (cid_hash_length a =? cid_hash_length b) eqn:E1,
    (cid_hash_length b =? cid_hash_length c) eqn:E2,
    (cid_hash_length a =? cid_hash_length c) eqn:?; cbn [negb]; try (intros; simplify_eq; lia).
  intros H1 H2 H3 Hr Hs. apply Z.eqb_eq in E1, E2.
  destruct (cmp_hash_trans (cid_digest a) (cid_digest b) (cid_digest c) r s) as (t' & Ht & ?);
    auto using cid_digest_length_eq, cid_small_wf.
  congruence.
Qed.

(** ** The properties of this file *)

Section ProtobufProperties.
Context {PB : Protobuf} `{!ProtobufLaws PB}.

(** A CID written with [ipfs_cid_protobuf_encode] into a buffer of
    [ipfs_cid_protobuf_encode_size] bytes fits, and [ipfs_cid_protobuf_decode]
    reads back the version, the hash and its length; the codec comes back
    through the decoder's [char], so exactly the codecs from -128 to 127 do. *)
Theorem cid_protobuf_roundtrip c :
  cid_wf c -> cid_hash_length c < 2 ^ 63 ->
  exists b c',
    ipfs_cid_protobuf_encode (Some c) (ipfs_cid_protobuf_encode_size (Some c)) = Ok b /\
    len b <= ipfs_cid_protobuf_encode_size (Some c) /\
    ipfs_cid_protobuf_decode b (len b) = Ok (Some c') /\
    cid_version c' = cid_version c /\ cid_codec c' = i8 (cid_codec c) /\
    cid_digest c' = cid_digest c /\ cid_hash_length c' = cid_hash_length c /\
    (cid_value c' = cid_value c <-> -128 <= cid_codec c < 128).
Proof.
  intros Hc Hl. pose proof (cid_fields_bound c Hc Hl) as Hb.
  pose proof (cid_digest_len c Hc) as Hd. pose proof (len_nonneg (cid_digest c)).
  assert (Hs : ipfs_cid_protobuf_encode_size (Some c) = 11 + 12 + cid_hash_length c + 11)
    by (apply u64_small; lia).
  destruct (cid_decode_fields c Hc Hl) as (c' & Hdec & Hv & Hk & Hg & Hn).
  exists (wire_msg (cid_fields c)), c'. rewrite Hs.
  rewrite cid_encode_fields by (assumption || lia).
  do 7 (split; [solve [auto] |]). unfold cid_value. rewrite Hv, Hk, Hg. split.
  - intros E. assert (Hi : i8 (cid_codec c) = cid_codec c) by congruence.
    rewrite <- Hi. pose proof (i8_range (cid_codec c)). lia.
  - intros E. rewrite i8_small by lia. reflexivity.
Qed.

End ProtobufProperties.

Section TextProperties.
Context {MH : Multihash} {B58 : Base58}.
Context `{!MultihashLaws MH} `{!Base58Multihash B58}.

(** A 32-byte hash written as base 58 and parsed back is the version 0 CID
    of that hash; parsing it behind [/ipfs/] gives the same CID, and leaves the
    caller's string empty, since the slash overwritten is the first one. *)
Theorem cid_base58_roundtrip d n :
  len d = 32 -> @enc_encode_size base58 34 <= n ->
  exists s, ipfs_cid_hash_to_base58 (Some d) 32 n = Ok s /\
    ipfs_cid_decode_hash_from_base58 s (len s) = Ok (MkCid 0 CID_DAG_PROTOBUF (Some d) 32) /\
    exists s', ipfs_cid_decode_hash_from_ipfs_ipns_string (Some (str "/ipfs/" ++ s)) =
        (Ok (MkCid 0 CID_DAG_PROTOBUF (Some d) 32), Some s') /\ c_str s' = [].
Proof.
  intros Hd Hn. destruct (hash_to_base58_ok d n Hd Hn) as (s & He & Hs).
  exists s. split; [assumption |].
  pose proof (decode_base58_Qm d n s Hd Hs) as Hdec. split; [assumption |].
  rewrite ipns_string_accepted; [| auto | exact (enc_text (EN := base58) _ _ _ Hs)].
  rewrite Hdec. eauto.
Qed.
End TextProperties.

(** On CIDs whose fields are far from overflow the comparison is defined,
    antisymmetric, zero exactly on CIDs with the same value, and transitive. *)
Theorem cid_compare_order a b c :
  cid_small a -> cid_small b -> cid_small c ->
  exists r s t, ipfs_cid_compare (Some a) (Some b) = Ok r /\
    ipfs_cid_compare (Some b) (Some a) = Ok (- r) /\
    ipfs_cid_compare (Some b) (Some c) = Ok s /\
    ipfs_cid_compare (Some a) (Some c) = Ok t /\
    (r = 0 <-> cid_value a = cid_value b) /\ (r < 0 -> s < 0 -> t < 0).
Proof.
  intros Ha Hb Hc.
  destruct (cid_compare_flip a b Ha Hb) as (r & H1 & H2 & H3).
  destruct (cid_compare_flip b c Hb Hc) as (s & H4 & _ & _).
  destruct (cid_compare_flip a c Ha Hc) as (t & H5 & _ & _).
  exists r, s, t. do 5 (split; [assumption |]). intros Hr Hs.
  eauto using cid_compare_trans.
Qed.

Section CastProperties.
Context {PB : Protobuf} {MH : Multihash} `{!ProtobufLaws PB} `{!MultihashLaws MH}.

(** [ipfs_cid_cast] reads a 34-byte SHA-256 multihash as a version 0 CID; it
    reads a version and a codec written as varints before a hash as that CID
    when the version is 0 or 1, and refuses a larger version. *)
Theorem cid_cast_spec cid d version codec h :
  let b := wire_uint version ++ wire_uint codec ++ h in
  len d = 32 -> 0 <= version < 18 -> 0 <= codec < 2 ^ 31 -> len b < 2 ^ 31 ->
  starts_with [byte_of 18; byte_of 32] b = false ->
  ipfs_cid_cast (byte_of 18 :: byte_of 32 :: d) 34 cid =
    Ok (MkCid 0 CID_DAG_PROTOBUF (Some d) 32) /\
  (version <= 1 -> ipfs_cid_cast b (len b) cid = Ok (MkCid version codec (Some h) (len h))) /\
  (1 < version -> exists e, ipfs_cid_cast b (len b) cid = Err e).
Proof.
  intros b Hd Hv Hk Hb Hs. split; [apply cast_multihash, Hd |].
  unfold b. rewrite cast_varints by first [assumption | lia]. split; intros.
  - replace (1 <? version) with false by lia. reflexivity.
  - replace (1 <? version) with true by lia. eauto.
Qed.
End CastProperties.

(** * Concrete runs *)

Definition sample_digest : bytes := replicate 32 (byte_of 7).
Definition sample_cid : Cid := MkCid 1 CID_DAG_PROTOBUF (Some sample_digest) 32.

Lemma sample_cid_small : cid_small sample_cid.
Proof. repeat constructor; vm_compute; congruence. Qed.

Lemma cid_protobuf_roundtrip_witness :
  exists b c', ipfs_cid_protobuf_encode (Some sample_cid) 66 = Ok b /\
    ipfs_cid_protobuf_decode b (len b) = Ok (Some c') /\ cid_value c' = cid_value sample_cid.
Proof.
  destruct (cid_protobuf_roundtrip sample_cid) as (b & c' & He & _ & Hd & _ & _ & _ & _ & Hv).
  - exact (cid_small_wf _ sample_cid_small).
  - cbn. lia.
  - exists b, c'. split; [exact He |]. split; [exact Hd |]. apply Hv. vm_compute. split; congruence.
Defined.

Lemma cid_base58_roundtrip_witness :
  exists s, ipfs_cid_hash_to_base58 (Some sample_digest) 32 100 = Ok s /\
    ipfs_cid_decode_hash_from_base58 s (len s) =
      Ok (MkCid 0 CID_DAG_PROTOBUF (Some sample_digest) 32).
Proof.
  destruct (cid_base58_roundtrip sample_digest 100) as (s & He & Hd & _).
  - reflexivity.
  - vm_compute. discriminate.
  - exists s. split; assumption.
Defined.

Lemma cid_compare_order_witness :
  exists r, ipfs_cid_compare (Some sample_cid) (Some sample_cid) = Ok r /\ r = 0.
Proof.
  destruct (cid_compare_order sample_cid sample_cid sample_cid sample_cid_small sample_cid_small
              sample_cid_small) as (r & s & t & Hr & _ & _ & _ & Hz & _).
  exists r. split; [exact Hr | apply Hz; reflexivity].
Defined.

Lemma cid_cast_spec_witness :
  ipfs_cid_cast (byte_of 1 :: byte_of 85 :: sample_digest) 34 sample_cid =
    Ok (MkCid 1 CID_RAW (Some sample_digest) 32).
Proof.
  destruct (cid_cast_spec sample_cid sample_digest 1 CID_RAW sample_digest) as (_ & H & _);
    [reflexivity | lia | unfold CID_RAW; lia | vm_compute; reflexivity | vm_compute; reflexivity |].
  apply H. lia.
Defined.
