(* ===== verification/CidSet.v ===== *)
(** Sets of CIDs (src/cid/set.c), a linked list told apart by the hashes, against
    a finite map from hashes to CIDs. *)

From S2P Require Import Prelude Libc Protobuf Libs ProtobufRef LibsRef Cid.

Definition ErrInvalidParam : Z := 19.

(** The CIDs of the list in order; the head of an empty set holds none.
    [cs_dangling]: the last node's [next] points to a freed node. *)
Record CidSet := MkCidSet { cs_cids : list Cid; cs_dangling : bool }.

Definition ipfs_cid_set_new : CidSet := MkCidSet [] false.

(** Same length and same bytes. *)
Definition same_hash {E} (a b : Cid) : cres E bool :=
  if cid_hash_length a =? cid_hash_length b then
    x ← mem_read (cid_hash a) (cid_hash_length b);
    y ← mem_read (cid_hash b) (cid_hash_length b);
    Ok (bool_decide (x = y))
  else Ok false.

(** The structure copied, its hash into a block of its own. *)
Definition set_copy {E} (cid : Cid) : cres E Cid :=
  h ← mem_read (cid_hash cid) (cid_hash_length cid);
  Ok (MkCid (cid_version cid) (cid_codec cid) (Some h) (cid_hash_length cid)).

(** The loop over a list that is not empty. *)
Fixpoint set_add (l : list Cid) (dangling : bool) (cid : Cid) (visit : Z)
  : cres unit (list Cid) :=
  match l with
  | [] => if dangling then Undef else c ← set_copy cid; Ok [c]
  | x :: l =>
      same ← same_hash x cid;
      if (same : bool) then
        if visit =? 0 then c ← set_copy cid; Ok (c :: l) else Ok (x :: l)
      else l ← set_add l dangling cid visit; Ok (x :: l)
  end.
(** The value returned and the set. *)
Definition ipfs_cid_set_add (set : option CidSet) (cid : option Cid) (visit : Z)
  : cres unit (Z * option CidSet) :=
  match set, cid with
  | Some s, Some cid =>
      l ← set_add (cs_cids s) (cs_dangling s) cid visit;
      Ok (0, Some (MkCidSet l (cs_dangling s)))
  | _, _ => Ok (ErrInvalidParam, set)
  end.

Fixpoint set_has (l : list Cid) (dangling : bool) (cid : Cid) : cres unit Z :=
  match l with
  | [] => if dangling then Undef else Ok 0
  | x :: l =>
      same ← same_hash x cid;
      if (same : bool) then Ok 1 else set_has l dangling cid
  end.
Definition ipfs_cid_set_has (set : option CidSet) (cid : option Cid) : cres unit Z :=
  match set, cid with
  | Some s, Some cid => set_has (cs_cids s) (cs_dangling s) cid
  | _, _ => Ok 0
  end.

(** Behind the first node. *)
Fixpoint set_remove (l : list Cid) (dangling : bool) (cid : Cid)
  : cres unit (option (list Cid)) :=
  match l with
  | [] => if dangling then Undef else Ok None
  | x :: l =>
      same ← same_hash x cid;
      if (same : bool) then Ok (Some l)
      else r ← set_remove l dangling cid; Ok (option_map (cons x) r)
  end.
(** The first node takes the second one's CID; the second is freed, while the
    first goes on pointing at it. *)
Definition ipfs_cid_set_remove (set : option CidSet) (cid : option Cid)
  : cres unit (Z * option CidSet) :=
  match set, cid with
  | Some s, Some cid =>
      match cs_cids s with
      | [] => Ok (0, set)
      | x :: l =>
          same ← same_hash x cid;
          if (same : bool) then
            match l with
            | [] => if cs_dangling s then Undef else Ok (1, Some ipfs_cid_set_new)
            | y :: _ => Ok (1, Some (MkCidSet [y] true))
            end
          else
            r ← set_remove l (cs_dangling s) cid;
            Ok (match r with
                | None => (0, set)
                | Some l => (1, Some (MkCidSet (x :: l) (cs_dangling s)))
                end)
      end
  | _, _ => Ok (0, set)
  end.

Definition ipfs_cid_set_len (set : option CidSet) : cres unit Z :=
  match set with
  | None => Ok 0
  | Some s =>
      if bool_decide (cs_cids s = []) then Ok 0
      else if cs_dangling s then Undef else Ok (i32 (len (cs_cids s)))
  end.

(** [len] grows with every round and [i] does not, so the loop only ends by
    following [next] of no node. *)
Fixpoint set_keys (l : list Cid) : cres unit (list bytes) :=
  match l with
  | [] => Undef
  | x :: l => h ← mem_read (cid_hash x) (cid_hash_length x); set_keys l
  end.
Definition ipfs_cid_set_keys (set : option CidSet) : cres unit (list bytes) :=
  n ← ipfs_cid_set_len set;
  if n <=? 0 then Ok []
  else match set with
       | None => Ok []
       | Some s => set_keys (cs_cids s)
       end.

(** [func] acts on a state; the first error ends the loop. *)
Fixpoint set_foreach {S} (func : Cid -> S -> Z * S) (l : list Cid) (dangling : bool) (err : Z)
  (s : S) : cres unit (Z * S) :=
  match l with
  | [] => if dangling then Undef else Ok (err, s)
  | x :: l =>
      let '(err, s) := func x s in
      if err =? 0 then set_foreach func l dangling err s else Ok (err, s)
  end.
Definition ipfs_cid_set_foreach {S} (set : option CidSet) (func : Cid -> S -> Z * S) (s : S)
  : cres unit (Z * S) :=
  match set with
  | None => Ok (0, s)
  | Some set => set_foreach func (cs_cids set) (cs_dangling set) 0 s
  end.

(** Every node is freed, and the caller's pointer is NULL in the end. *)
Definition ipfs_cid_set_destroy (set : option (option CidSet)) : cres unit (option (option CidSet)) :=
  match set with
  | Some (Some s) => if cs_dangling s then Undef else Ok (Some None)
  | _ => Ok set
  end.

(** * Properties *)

(** ** The set as a finite map *)

(** What is kept of every hash. *)
Fixpoint set_values (l : list Cid) : gmap bytes (Z * Z * bytes) :=
  match l with
  | [] => ∅
  | c :: l => <[cid_digest c := cid_value c]> (set_values l)
  end.

(** Every CID carries the hash it records, and no hash twice. *)
Record set_wf (s : CidSet) : Prop := {
  set_wf_cids : Forall cid_wf (cs_cids s);
  set_wf_nodup : NoDup (map cid_digest (cs_cids s));
  set_wf_live : cs_dangling s = false
}.

Lemma same_hash_eq {E} a b :
  cid_wf a -> cid_wf b -> @same_hash E a b = Ok (bool_decide (cid_digest a = cid_digest b)).
Proof.
  intros Ha Hb. pose proof (cid_digest_len a Ha) as La. pose proof (cid_digest_len b Hb) as Lb.
  unfold same_hash. destruct (cid_hash_length a =? cid_hash_length b) eqn:E'.
  - apply Z.eqb_eq in E'. rewrite <- E' at 1. rewrite !cid_hash_read by assumption. reflexivity.
  - rewrite bool_decide_eq_false_2; [reflexivity |]. intros He. rewrite He in La. lia.
Qed.
Lemma set_copy_ok {E} c :
  cid_wf c -> exists c', @set_copy E c = Ok c' /\ cid_value c' = cid_value c /\ cid_wf c'.
Proof. exact (cid_copy_value c). Qed.

Lemma digest_of_value a b : cid_value a = cid_value b -> cid_digest a = cid_digest b.
Proof. unfold cid_value. congruence. Qed.

Lemma set_values_none l d : set_values l !! d = None <-> d ∉ map cid_digest l.
Proof.
  induction l as [| x l IH]; cbn; [split; [intros _ H; inversion H | reflexivity] |].
  rewrite lookup_insert_None, IH, not_elem_of_cons. intuition congruence.
Qed.
Lemma set_values_some l d : is_Some (set_values l !! d) <-> d ∈ map cid_digest l.
Proof.
  rewrite <- not_eq_None_Some, set_values_none. destruct (decide (d ∈ map cid_digest l)); tauto.
Qed.
Lemma set_values_size l : NoDup (map cid_digest l) -> size (set_values l) = length l.
Proof.
  induction l as [| x l IH]; cbn; [reflexivity |]. intros [Hx Hl]%NoDup_cons.
  rewrite map_size_insert_None by (apply set_values_none, Hx). rewrite IH by exact Hl. reflexivity.
Qed.

(** The hash of [c] is in the list. *)
Definition in_set (l : list Cid) (c : Cid) : bool :=
  bool_decide (cid_digest c ∈ map cid_digest l).
Lemma in_set_cons x l c : in_set (x :: l) c = bool_decide (cid_digest x = cid_digest c) || in_set l c.
Proof.
  unfold in_set. cbn [map]. rewrite (bool_decide_ext _ _ (elem_of_cons _ _ _)), bool_decide_or.
  f_equal. apply bool_decide_ext. split; congruence.
Qed.
Lemma in_set_spec l c : in_set l c = true <-> cid_digest c ∈ map cid_digest l.
Proof. apply bool_decide_eq_true. Qed.

Lemma set_has_ok l c :
  Forall cid_wf l -> cid_wf c -> set_has l false c = Ok (if in_set l c then 1 else 0).
Proof.
  intros Hl Hc. induction Hl as [| x l Hx Hl IH]; [reflexivity |]. cbn [set_has].
  rewrite same_hash_eq, in_set_cons by assumption. cbn [mbind cres_bind]. rewrite IH.
  destruct (bool_decide _); reflexivity.
Qed.

Lemma set_add_ok l c visit :
  Forall cid_wf l -> cid_wf c ->
  exists l', set_add l false c visit = Ok l' /\ Forall cid_wf l' /\
    map cid_digest l' = map cid_digest l ++ (if in_set l c then [] else [cid_digest c]) /\
    set_values l' =
      if in_set l c && negb (visit =? 0) then set_values l
      else <[cid_digest c := cid_value c]> (set_values l).
Proof.
  intros Hl Hc. destruct (@set_copy_ok unit c Hc) as (c' & Hcp & Hv & Hw).
  pose proof (digest_of_value c' c Hv) as Hd.
  induction Hl as [| x l Hx Hl (l' & Ha & Hw' & Hm & Hs)].
  - exists [c']. cbn [set_add map set_values]. rewrite Hcp, Hd, Hv. auto.
  - cbn [set_add]. rewrite same_hash_eq, in_set_cons by assumption. cbn [mbind cres_bind].
    case_bool_decide as E; cbn [orb].
    + rewrite app_nil_r. destruct (visit =? 0); cbn [andb negb].
      * exists (c' :: l). rewrite Hcp. cbn [mbind cres_bind map set_values]. rewrite Hd, Hv, E.
        rewrite insert_insert_eq. auto.
      * exists (x :: l). auto.
    + rewrite Ha. cbn [mbind cres_bind]. exists (x :: l'). split; [reflexivity |].
      split; [auto |]. cbn [map set_values]. rewrite Hm, Hs. split; [reflexivity |].
      destruct (in_set l c && negb (visit =? 0)); [reflexivity |].
      apply insert_insert_ne. congruence.
Qed.

Lemma set_remove_ok l c :
  Forall cid_wf l -> cid_wf c -> NoDup (map cid_digest l) ->
  exists r, set_remove l false c = Ok r /\
    match r with
    | None => in_set l c = false
    | Some l' => in_set l c = true /\ sublist l' l /\
                 set_values l' = delete (cid_digest c) (set_values l)
    end.
Proof.
  intros Hl Hc. induction Hl as [| x l Hx Hl IH]; intros Hnd; [exists None; auto |].
  apply NoDup_cons in Hnd as [Hni Hnd]. destruct (IH Hnd) as (r & Hr & Hs). clear IH.
  cbn [set_remove]. rewrite same_hash_eq, in_set_cons by assumption. cbn [mbind cres_bind].
  case_bool_decide as E; cbn [orb].
  - exists (Some l). split; [reflexivity |].
    split; [reflexivity |]. split; [apply sublist_cons; reflexivity |]. cbn [set_values].
    rewrite <- E, delete_insert_eq, delete_id; [reflexivity | apply set_values_none, Hni].
  - rewrite Hr. eexists. split; [reflexivity |].
    destruct r as [l' |]; cbn [option_map]; [| exact Hs].
    destruct Hs as (Hin & Hsub & Hv). split; [exact Hin |].
    split; [apply sublist_skip, Hsub |]. cbn [set_values].
    rewrite delete_insert_ne, Hv by congruence. reflexivity.
Qed.

Lemma set_keys_runs_off l : Forall cid_wf l -> set_keys l = Undef.
Proof.
  induction 1 as [| c l Hc _ IH]; [reflexivity |]. cbn [set_keys].
  rewrite cid_hash_read by exact Hc. exact IH.
Qed.

Lemma sublist_map_nodup (l' l : list Cid) :
  sublist l' l -> NoDup (map cid_digest l) -> NoDup (map cid_digest l').
Proof. intros Hs Hn. eapply sublist_NoDup; [exact Hn |]. apply (fmap_sublist cid_digest), Hs. Qed.
Lemma sublist_forall {A} (P : A -> Prop) l' l : sublist l' l -> Forall P l -> Forall P l'.
Proof. induction 1; inversion 1; subst; auto. Qed.

(** Removing the first CID, and one behind it. *)
Lemma remove_first x l c :
  cid_wf x -> cid_wf c -> cid_digest x = cid_digest c ->
  ipfs_cid_set_remove (Some (MkCidSet (x :: l) false)) (Some c) =
    Ok (1, Some (match l with [] => ipfs_cid_set_new | y :: _ => MkCidSet [y] true end)).
Proof.
  intros Hx Hc E. cbn [ipfs_cid_set_remove cs_cids cs_dangling]. rewrite same_hash_eq by assumption.
  rewrite bool_decide_eq_true_2 by exact E. destruct l; reflexivity.
Qed.
Lemma remove_behind x l c :
  set_wf (MkCidSet (x :: l) false) -> cid_wf c -> cid_digest x <> cid_digest c ->
  if in_set l c then
    exists s', ipfs_cid_set_remove (Some (MkCidSet (x :: l) false)) (Some c) = Ok (1, Some s') /\
      set_wf s' /\ set_values (cs_cids s') = delete (cid_digest c) (set_values (x :: l))
  else ipfs_cid_set_remove (Some (MkCidSet (x :: l) false)) (Some c) = Ok (0, Some (MkCidSet (x :: l) false)).
Proof.
  intros [Hw Hnd _] Hc E. cbn [cs_cids map] in Hw, Hnd. apply Forall_cons in Hw as [Hx Hl].
  apply NoDup_cons in Hnd as [Hni Hnd]. cbn [ipfs_cid_set_remove cs_cids cs_dangling].
  rewrite same_hash_eq by assumption. rewrite bool_decide_eq_false_2 by exact E. cbn [mbind cres_bind].
  destruct (set_remove_ok l c Hl Hc Hnd) as ([l' |] & Hr & Hs); rewrite Hr.
  - destruct Hs as (-> & Hsub & Hv). eexists. split; [reflexivity |].
    cbn [cs_cids set_values]. rewrite delete_insert_ne, Hv by congruence. split; [| reflexivity].
    pose proof (fmap_sublist cid_digest _ _ Hsub) as Hsm.
    constructor; cbn [cs_cids cs_dangling map];
      [constructor; [exact Hx | exact (sublist_forall _ _ _ Hsub Hl)] | | reflexivity].
    apply NoDup_cons. split; [| exact (sublist_map_nodup _ _ Hsub Hnd)].
    intros Hin. apply Hni. exact (elem_of_submseteq _ _ _ Hin (sublist_submseteq _ _ Hsm)).
  - rewrite Hs. reflexivity.
Qed.
Lemma remove_absent s c :
  set_wf s -> cid_wf c -> in_set (cs_cids s) c = false -> ipfs_cid_set_remove (Some s) (Some c) = Ok (0, Some s).
Proof.
  intros Hs Hc Hin. pose proof Hs as [_ _ Hlive]. destruct s as [[| x l] d]; cbn in Hlive; subst d; [reflexivity |].
  cbn [cs_cids] in Hin. rewrite in_set_cons in Hin. apply orb_false_iff in Hin as [E Hin]. apply bool_decide_eq_false in E.
  pose proof (remove_behind x l c Hs Hc E) as H. rewrite Hin in H. exact H.
Qed.
(** The set that is left when the first of several was removed. *)
Lemma left_dangling y :
  cid_wf y ->
  ipfs_cid_set_len (Some (MkCidSet [y] true)) = Undef /\
  forall c visit, cid_wf c -> cid_digest c <> cid_digest y ->
    ipfs_cid_set_has (Some (MkCidSet [y] true)) (Some c) = Undef /\
    ipfs_cid_set_add (Some (MkCidSet [y] true)) (Some c) visit = Undef /\
    ipfs_cid_set_remove (Some (MkCidSet [y] true)) (Some c) = Undef.
Proof.
  intros Hy. split; [reflexivity |]. intros c visit Hc Hne. cbn.
  rewrite !same_hash_eq, !bool_decide_eq_false_2 by (assumption || congruence). cbn. auto.
Qed.

Lemma decide_is_some {A} l c (x y : A) :
  (if decide (is_Some (set_values l !! cid_digest c)) then x else y) = if in_set l c then x else y.
Proof.
  destruct (in_set l c) eqn:E; [rewrite decide_True | rewrite decide_False]; try reflexivity;
    rewrite set_values_some, <- in_set_spec; congruence.
Qed.

(** C21: a set is a map from the hashes of its CIDs to their values. Adding a CID
    maps its hash to it, unless there is one and [visit] keeps the first; [has]
    and [len] are membership and size; removing takes the hash out, and leaves the set
    alone when it is not there, but of several it must not be the first: removing that leaves the second
    one, behind which the list goes on with freed memory, so that counting, and
    looking for, adding or removing any CID but the second, is undefined. The list of
    keys is only defined on the empty set. *)
Theorem cid_set_spec s c visit :
  set_wf s -> cid_wf c -> len (cs_cids s) < 2 ^ 31 ->
  let m := set_values (cs_cids s) in
  let d := cid_digest c in
  ipfs_cid_set_has (Some s) (Some c) = Ok (if decide (is_Some (m !! d)) then 1 else 0) /\
  (exists s', ipfs_cid_set_add (Some s) (Some c) visit = Ok (0, Some s') /\ set_wf s' /\
     set_values (cs_cids s') =
       if decide (is_Some (m !! d)) then if visit =? 0 then <[d := cid_value c]> m else m
       else <[d := cid_value c]> m) /\
  ipfs_cid_set_len (Some s) = Ok (Z.of_nat (size m)) /\
  (m !! d = None -> ipfs_cid_set_remove (Some s) (Some c) = Ok (0, Some s)) /\
  (forall x l, cs_cids s = x :: l -> cid_digest x <> d -> is_Some (m !! d) ->
     exists s', ipfs_cid_set_remove (Some s) (Some c) = Ok (1, Some s') /\
       set_wf s' /\ set_values (cs_cids s') = delete d m) /\
  (forall x, cs_cids s = [x] -> cid_digest x = d -> ipfs_cid_set_remove (Some s) (Some c) = Ok (1, Some ipfs_cid_set_new)) /\
  (forall x y l, cs_cids s = x :: y :: l -> cid_digest x = d ->
     exists s', ipfs_cid_set_remove (Some s) (Some c) = Ok (1, Some s') /\
       cs_cids s' = [y] /\ cs_dangling s' = true /\ ipfs_cid_set_len (Some s') = Undef /\
       forall c' visit', cid_wf c' -> cid_digest c' <> cid_digest y ->
         ipfs_cid_set_has (Some s') (Some c') = Undef /\
         ipfs_cid_set_add (Some s') (Some c') visit' = Undef /\
         ipfs_cid_set_remove (Some s') (Some c') = Undef) /\
  ipfs_cid_set_keys (Some s) = if bool_decide (cs_cids s = []) then Ok [] else Undef.
Proof.
  intros Hs Hc Hlen m d. pose proof (remove_absent s c Hs Hc) as Habs. pose proof Hs as [Hw Hnd Hlive].
  pose proof (len_nonneg (cs_cids s)).
  assert (Hl : ipfs_cid_set_len (Some s) = Ok (len (cs_cids s))).
  { unfold ipfs_cid_set_len. rewrite Hlive. case_bool_decide as E; [rewrite E; reflexivity |].
    rewrite i32_small by lia. reflexivity. }
  unfold m, d. rewrite !decide_is_some. split_and!.
  - unfold ipfs_cid_set_has. rewrite Hlive. apply set_has_ok; assumption.
  - destruct (set_add_ok (cs_cids s) c visit Hw Hc) as (l' & Ha & Hw' & Hm & Hv).
    exists (MkCidSet l' false). unfold ipfs_cid_set_add. rewrite Hlive, Ha. split; [reflexivity |].
    cbn [cs_cids]. split; [| rewrite Hv; destruct (in_set _ _), (visit =? 0); reflexivity].
    constructor; cbn [cs_cids cs_dangling]; [exact Hw' | rewrite Hm | reflexivity].
    destruct (in_set (cs_cids s) c) eqn:E; [rewrite app_nil_r; exact Hnd |].
    apply NoDup_app. split; [exact Hnd |]. split; [| apply NoDup_singleton].
    intros x Hx ->%list_elem_of_singleton. apply in_set_spec in Hx. congruence.
  - rewrite Hl, set_values_size by exact Hnd. reflexivity.
  - intros Hn. apply Habs. destruct (in_set (cs_cids s) c) eqn:E; [| reflexivity].
    apply in_set_spec, set_values_some in E. rewrite Hn in E. destruct E. discriminate.
  - intros x l Hx Hne Hin%set_values_some%in_set_spec. destruct s as [l0 b]. cbn in *. subst l0 b.
    rewrite in_set_cons, bool_decide_eq_false_2 in Hin by exact Hne. cbn in Hin.
    pose proof (remove_behind x l c Hs Hc Hne) as H0. rewrite Hin in H0. exact H0.
  - intros x Hx E. destruct s as [l0 b]. cbn in *. subst l0 b. apply Forall_cons in Hw as [Hwx _].
    exact (remove_first x [] c Hwx Hc E).
  - intros x y l Hx E. destruct s as [l0 b]. cbn in *. subst l0 b. apply Forall_cons in Hw as [Hwx Hw].
    apply Forall_cons in Hw as [Hwy _]. exists (MkCidSet [y] true). split; [exact (remove_first x (y :: l) c Hwx Hc E) |].
    split; [reflexivity |]. split; [reflexivity |]. exact (left_dangling y Hwy).
  - unfold ipfs_cid_set_keys. rewrite Hl. cbn [mbind cres_bind].
    case_bool_decide as E; [rewrite E; reflexivity |].
    destruct (Z.leb_spec (len (cs_cids s)) 0) as [Hz |]; [| apply set_keys_runs_off, Hw].
    destruct E. apply len_zero. lia.
Qed.

(** * Concrete runs *)

Lemma cid_set_spec_witness :
  let c := sample_cid in
  ipfs_cid_set_has (Some (MkCidSet [c] false)) (Some c) = Ok 1 /\
  exists s', ipfs_cid_set_add (Some ipfs_cid_set_new) (Some c) 1 = Ok (0, Some s') /\
    set_values (cs_cids s') = <[cid_digest c := cid_value c]> ∅.
Proof.
  pose proof (cid_small_wf _ sample_cid_small) as Hc.
  assert (Hw1 : set_wf (MkCidSet [sample_cid] false)).
  { constructor; cbn [cs_cids map]; [repeat constructor; apply Hc | apply NoDup_singleton | reflexivity]. }
  assert (Hw0 : set_wf ipfs_cid_set_new) by (constructor; [constructor | apply NoDup_nil_2 | reflexivity]).
  destruct (cid_set_spec _ sample_cid 1 Hw1 Hc ltac:(reflexivity)) as (Hh & _).
  destruct (cid_set_spec _ sample_cid 1 Hw0 Hc ltac:(reflexivity)) as (_ & (s' & Ha & _ & Hv) & _).
  split; [exact Hh |]. exists s'. split; [exact Ha | exact Hv].
Defined.
