(* ===== verification/Proquint.v ===== *)
(** Proquints, pronounceable words for pairs of bytes (src/namesys/proquint.c). *)

From S2P Require Import Prelude Libc.

Definition conse : bytes := str "bdfghjklmnprstvz".
Definition vowse : bytes := str "aiou".
Definition dash : byte := byte_of 45.

(** The place of a character, 0 when it has none. *)
Fixpoint place_of (c : byte) (l : bytes) (i : Z) : Z :=
  match l with
  | [] => 0
  | x :: l => if decide (c = x) then i else place_of c l (i + 1)
  end.
Definition consd (c : byte) : Z := place_of c conse 0.
Definition vowsd (c : byte) : Z := place_of c vowse 0.
(** [conse[n]] and [vowse[n]]. *)
Definition cons_at (n : Z) : byte := default x00 (conse !! Z.to_nat n).
Definition vows_at (n : Z) : byte := default x00 (vowse !! Z.to_nat n).

(** The character at [i]. Strings are shorter than [INT_MAX], so that [l] is their
    length. *)
Definition proquint_char (i : nat) (c : byte) : bool :=
  if (S i mod 6 =? 0)%nat then bool_decide (c = dash)
  else if (S i mod 2 =? 0)%nat then bool_decide (c = vows_at (vowsd c))
  else bool_decide (c = cons_at (consd c)).
Fixpoint proquint_chars (i : nat) (s : bytes) : bool :=
  match s with
  | [] => true
  | c :: s => proquint_char i c && proquint_chars (S i) s
  end.
Definition ipfs_proquint_is_proquint (s : bytes) : bool :=
  if (S (length s) mod 6 =? 0)%nat then proquint_chars 0 s else false.

(** Two bytes and the six characters they become. *)
Definition proquint_word (a b : byte) : bytes :=
  let n := Z.lor (Z.shiftl (byte_val a) 8) (byte_val b) in
  [cons_at (Z.land (Z.shiftr n 12) 15); vows_at (Z.land (Z.shiftr n 10) 3);
   cons_at (Z.land (Z.shiftr n 6) 15); vows_at (Z.land (Z.shiftr n 4) 3);
   cons_at (Z.land n 15); dash].
Fixpoint proquint_words (b : bytes) : bytes :=
  match b with
  | a :: b :: rest => proquint_word a b ++ proquint_words rest
  | _ => []
  end.

(** An error is the NULL returned. [size * 3] is an [int], and a negative one asks
    [malloc] for more than the address space. The last character is overwritten with
    the terminator; without one that is a write in front of the block. *)
Definition ipfs_proquint_encode (buf : option bytes) (size : Z) : cres unit bytes :=
  if negb (Z.rem size 2 =? 0) then Err ()
  else match buf with
       | None => Err ()
       | Some _ =>
           if negb ((- 2 ^ 31 <=? size * 3) && (size * 3 <? 2 ^ 31)) then Undef
           else if size * 3 <? 0 then Err ()
           else
           b ← mem_read buf size;
           match proquint_words b with
           | [] => Undef
           | w => Ok (removelast w)
           end
       end.

(** [str[i]]: the terminator can be read, nothing behind it. *)
Definition char_at (s : bytes) (i : nat) : cres unit byte :=
  match (s ++ [x00]) !! i with Some c => Ok c | None => Undef end.

(** The loop; [size]: the room in the block. *)
Fixpoint proquint_decode (fuel : nat) (s : bytes) (size : Z) (i : nat) (ret : bytes)
  : cres unit bytes :=
  match fuel with
  | O => NoFuel
  | S fuel =>
      if (i <? length s)%nat then
        c0 ← char_at s i; c1 ← char_at s (i + 1); c2 ← char_at s (i + 2);
        c3 ← char_at s (i + 3); c4 ← char_at s (i + 4);
        let x := Z.lor (Z.lor (Z.lor (Z.lor (Z.shiftl (consd c0) 12) (Z.shiftl (vowsd c1) 10))
                         (Z.shiftl (consd c2) 6)) (Z.shiftl (vowsd c3) 4)) (consd c4) in
        if len ret + 2 <=? size then
          proquint_decode fuel s size (i + 6)
            (ret ++ [byte_of (Z.shiftr x 8); byte_of (Z.land x 255)])
        else Undef
      else Ok ret
  end.
(** A string is refused when it is no proquint and its length fits as well. *)
Definition ipfs_proquint_decode (s : bytes) : cres unit bytes :=
  if negb (ipfs_proquint_is_proquint s) && (Z.rem (len s + 1) 3 =? 0) then Err ()
  else proquint_decode (S (length s)) s (Z.quot (len s + 1) 3) 0 [].

(** * Properties *)

(** ** One word *)

Lemma cons_place n : 0 <= n < 16 -> consd (cons_at n) = n.
Proof.
  intros H. assert (Hn : n ∈ seqZ 0 16) by (apply elem_of_seqZ; lia).
  revert n Hn H. apply (Forall_forall (fun n => 0 <= n < 16 -> consd (cons_at n) = n)).
  repeat constructor.
Qed.
Lemma vows_place n : 0 <= n < 4 -> vowsd (vows_at n) = n.
Proof.
  intros H. assert (Hn : n ∈ seqZ 0 4) by (apply elem_of_seqZ; lia).
  revert n Hn H. apply (Forall_forall (fun n => 0 <= n < 4 -> vowsd (vows_at n) = n)).
  repeat constructor.
Qed.
Lemma cons_char n : 0 <= n < 16 -> cons_at (consd (cons_at n)) = cons_at n.
Proof. intros H. rewrite cons_place by exact H. reflexivity. Qed.
Lemma vows_char n : 0 <= n < 4 -> vows_at (vowsd (vows_at n)) = vows_at n.
Proof. intros H. rewrite vows_place by exact H. reflexivity. Qed.

Lemma land_range n k : 0 <= k -> 0 <= Z.land n (Z.ones k) < 2 ^ k.
Proof. intros Hk. rewrite Z.land_ones by exact Hk. apply Z.mod_pos_bound. lia. Qed.

(** Bits at concrete places: those of constants are computed, those in front of a
    number are 0, and those of a shifted number are those of the number. *)
Ltac concrete_bits :=
  repeat match goal with
  | |- context [Z.testbit ?a ?i] =>
      progress (let j := eval vm_compute in i in change i with j)
  end;
  repeat match goal with
  | |- context [Z.testbit ?a (Z.neg ?i)] => change (Z.testbit a (Z.neg i)) with false
  | |- context [Z.testbit (Zpos ?a) ?i] =>
      let b := eval vm_compute in (Z.testbit (Zpos a) i) in change (Z.testbit (Zpos a) i) with b
  end;
  rewrite ?Z.shiftr_spec by lia; cbn [andb orb]; rewrite ?andb_false_r, ?andb_true_r, ?orb_false_r;
  cbn [Z.add Pos.add Pos.succ Pos.add_carry].

(** The five groups of bits make up the number. *)
Lemma bits_join n :
  0 <= n < 2 ^ 16 ->
  Z.lor (Z.lor (Z.lor (Z.lor (Z.shiftl (Z.land (Z.shiftr n 12) 15) 12)
    (Z.shiftl (Z.land (Z.shiftr n 10) 3) 10)) (Z.shiftl (Z.land (Z.shiftr n 6) 15) 6))
    (Z.shiftl (Z.land (Z.shiftr n 4) 3) 4)) (Z.land n 15) = n.
Proof.
  intros Hn. apply Z.bits_inj'. intros k Hk.
  assert (Hc : k < 16 \/ 16 <= k) by lia. destruct Hc as [Hc | Hc].
  - rewrite !Z.lor_spec, !Z.shiftl_spec, !Z.land_spec by lia.
    rewrite <- (Z2Nat.id k) in * by lia. remember (Z.to_nat k) as m eqn:E. clear E k.
    do 16 (destruct m as [| m]; [concrete_bits; destruct (Z.testbit n _); reflexivity |]). lia.
  - assert (Hl : Z.log2 n < 16).
    { destruct (Z.eq_dec n 0) as [-> |]; [reflexivity | apply Z.log2_lt_pow2; lia]. }
    rewrite (Z.bits_above_log2 n k) by lia.
    rewrite !Z.lor_spec, !Z.shiftl_spec, !Z.land_spec by lia.
    rewrite !(Z.bits_above_log2 15), !(Z.bits_above_log2 3) by (cbn; lia).
    rewrite !andb_false_r. reflexivity.
Qed.

Lemma consd_range c : 0 <= consd c < 16.
Proof. unfold consd. cbn. repeat case_decide; lia. Qed.
Lemma vowsd_range c : 0 <= vowsd c < 4.
Proof. unfold vowsd. cbn. repeat case_decide; lia. Qed.

(** The 16-bit number of two bytes. *)
Lemma pair_value a b :
  Z.lor (Z.shiftl (byte_val a) 8) (byte_val b) = byte_val a * 256 + byte_val b.
Proof.
  pose proof (byte_val_range a). pose proof (byte_val_range b).
  rewrite Z.shiftl_mul_pow2 by lia. change (2 ^ 8) with 256.
  symmetry. apply Z.add_nocarry_lor. apply Z.bits_inj'. intros k Hk.
  rewrite Z.land_spec, Z.bits_0. change 256 with (2 ^ 8).
  destruct (Z.lt_ge_cases k 8).
  - rewrite Z.mul_pow2_bits_low by lia. reflexivity.
  - rewrite <- (Z.mod_small (byte_val b) (2 ^ 8)) by lia.
    rewrite Z.mod_pow2_bits_high by lia. apply andb_false_r.
Qed.
Lemma pair_range a b : 0 <= byte_val a * 256 + byte_val b < 2 ^ 16.
Proof. pose proof (byte_val_range a). pose proof (byte_val_range b). lia. Qed.
Lemma pair_high a b : byte_of (Z.shiftr (byte_val a * 256 + byte_val b) 8) = a.
Proof.
  pose proof (byte_val_range b). rewrite Z.shiftr_div_pow2 by lia. change (2 ^ 8) with 256.
  rewrite Z.div_add_l, Z.div_small, Z.add_0_r by lia. apply byte_of_val.
Qed.
Lemma pair_low a b : byte_of (Z.land (byte_val a * 256 + byte_val b) 255) = b.
Proof.
  pose proof (byte_val_range b). change 255 with (Z.ones 8). rewrite Z.land_ones by lia.
  change (2 ^ 8) with 256. rewrite Z.add_comm, Z.mod_add, Z.mod_small by lia. apply byte_of_val.
Qed.

(** The number a word stands for, from its characters. *)
Lemma word_chars_value a b :
  exists c0 c1 c2 c3 c4, proquint_word a b = [c0; c1; c2; c3; c4; dash] /\
    proquint_chars 0 [c0; c1; c2; c3; c4; dash] = true /\
    Z.lor (Z.lor (Z.lor (Z.lor (Z.shiftl (consd c0) 12) (Z.shiftl (vowsd c1) 10))
      (Z.shiftl (consd c2) 6)) (Z.shiftl (vowsd c3) 4)) (consd c4) = byte_val a * 256 + byte_val b.
Proof.
  unfold proquint_word. rewrite pair_value. pose proof (pair_range a b) as Hn.
  set (n := byte_val a * 256 + byte_val b) in *.
  assert (H16 : forall m, 0 <= Z.land m 15 < 16) by (intros m; apply (land_range m 4); lia).
  assert (H4 : forall m, 0 <= Z.land m 3 < 4) by (intros m; apply (land_range m 2); lia).
  do 5 eexists. split; [reflexivity |]. split.
  - cbn [proquint_chars proquint_char Nat.modulo Nat.divmod Nat.eqb Nat.sub fst snd].
    unfold proquint_char. cbn [Nat.modulo Nat.divmod Nat.eqb Nat.sub fst snd].
    rewrite !cons_place, !vows_place by auto. rewrite !bool_decide_true by reflexivity. reflexivity.
  - rewrite !cons_place, !vows_place by auto. apply bits_join. exact Hn.
Qed.

(** ** Whole strings *)

Lemma proquint_char_period i c : proquint_char (i + 6) c = proquint_char i c.
Proof.
  unfold proquint_char. change (S (i + 6)) with (S i + 6)%nat.
  replace ((S i + 6) mod 6)%nat with (S i mod 6)%nat
    by (rewrite <- (Nat.Div0.mod_add (S i) 1 6); f_equal; lia).
  replace ((S i + 6) mod 2)%nat with (S i mod 2)%nat
    by (rewrite <- (Nat.Div0.mod_add (S i) 3 2); f_equal; lia).
  reflexivity.
Qed.
Lemma proquint_chars_period i s : proquint_chars (i + 6) s = proquint_chars i s.
Proof.
  revert i. induction s as [| c s IH]; intros i; cbn [proquint_chars]; [reflexivity |].
  rewrite proquint_char_period. f_equal. apply (IH (S i)).
Qed.
Lemma proquint_chars_app i s t :
  proquint_chars i (s ++ t) = proquint_chars i s && proquint_chars (i + length s) t.
Proof.
  revert i. induction s as [| c s IH]; intros i; cbn [proquint_chars app length].
  - rewrite Nat.add_0_r. reflexivity.
  - rewrite IH, andb_assoc. do 2 f_equal. lia.
Qed.
Lemma word_length a b : length (proquint_word a b) = 6%nat.
Proof. reflexivity. Qed.

(** Induction on byte strings of even length. *)
Lemma pairs_ind (P : bytes -> Prop) :
  P [] -> (forall a b l, P l -> P (a :: b :: l)) -> forall l, Nat.Even (length l) -> P l.
Proof.
  intros H0 H2. fix IH 1. intros [| a [| b l]] H; [exact H0 | |].
  - exfalso. destruct H as [k H]. cbn in H. lia.
  - apply H2, IH. destruct H as [k H]. exists (k - 1)%nat. cbn in H. lia.
Qed.

Lemma proquint_words_length b : Nat.Even (length b) -> length (proquint_words b) = (3 * length b)%nat.
Proof.
  revert b. apply pairs_ind; [reflexivity |]. intros a b l IH.
  cbn [proquint_words]. rewrite length_app, word_length, IH. cbn. lia.
Qed.
Lemma proquint_words_chars b : Nat.Even (length b) -> proquint_chars 0 (proquint_words b) = true.
Proof.
  revert b. apply pairs_ind; [reflexivity |]. intros a b l IH.
  cbn [proquint_words]. rewrite proquint_chars_app, word_length, (proquint_chars_period 0), IH.
  destruct (word_chars_value a b) as (c0 & c1 & c2 & c3 & c4 & -> & -> & _). reflexivity.
Qed.

(** Six characters at their places are the word of two bytes. *)
Lemma word_of_chars c0 c1 c2 c3 c4 c5 :
  proquint_chars 0 [c0; c1; c2; c3; c4; c5] = true ->
  exists a b, [c0; c1; c2; c3; c4; c5] = proquint_word a b.
Proof.
  cbn [proquint_chars]. unfold proquint_char. cbn [Nat.modulo Nat.divmod Nat.eqb Nat.sub fst snd].
  rewrite !andb_true_iff, !bool_decide_eq_true. intros (H0 & H1 & H2 & H3 & H4 & H5 & _).
  pose proof (consd_range c0). pose proof (vowsd_range c1). pose proof (consd_range c2).
  pose proof (vowsd_range c3). pose proof (consd_range c4).
  set (n := (((consd c0 * 4 + vowsd c1) * 16 + consd c2) * 4 + vowsd c3) * 16 + consd c4).
  exists (byte_of (n / 256)), (byte_of (n mod 256)). unfold proquint_word.
  rewrite pair_value, !byte_val_of, Z.mod_mod by lia.
  rewrite (Z.mod_small (n / 256)) by (subst n; split; [apply Z.div_pos | apply Z.div_lt_upper_bound]; lia).
  replace (n / 256 * 256 + n mod 256) with n by (rewrite (Z.div_mod n 256) at 1; lia).
  change 15 with (Z.ones 4). change 3 with (Z.ones 2).
  rewrite !Z.land_ones, !Z.shiftr_div_pow2 by lia. subst n.
  repeat f_equal; (etransitivity; [eassumption |]); f_equal; Z.div_mod_to_equations; lia.
Qed.
Lemma proquint_words_onto n w :
  length w = (6 * n)%nat -> proquint_chars 0 w = true ->
  exists b, length b = (2 * n)%nat /\ w = proquint_words b.
Proof.
  revert w. induction n as [| n IH]; intros w Hl Hw.
  - apply nil_length_inv in Hl as ->. exists []. split; reflexivity.
  - destruct w as [| c0 [| c1 [| c2 [| c3 [| c4 [| c5 w]]]]]]; cbn in Hl; try lia.
    change (c0 :: c1 :: c2 :: c3 :: c4 :: c5 :: w) with ([c0; c1; c2; c3; c4; c5] ++ w) in *.
    rewrite proquint_chars_app in Hw. apply andb_true_iff in Hw as [H6 Hw].
    apply word_of_chars in H6 as (x & y & ->). cbn [length] in Hw. rewrite (proquint_chars_period 0) in Hw.
    destruct (IH w ltac:(lia) Hw) as (b & Hb & ->).
    exists (x :: y :: b). split; [cbn; lia | reflexivity].
Qed.

(** A string with a dash behind it is made of words. *)
Lemma words_dash b :
  b <> [] -> Nat.Even (length b) -> exists s, proquint_words b = s ++ [dash].
Proof.
  intros Hb He. revert b He Hb. apply (pairs_ind (fun b => b <> [] -> exists s, _ = s ++ [dash])).
  - done.
  - intros x y l IH _. cbn [proquint_words]. destruct l as [| z l].
    + eexists. cbn [proquint_words]. rewrite app_nil_r.
      unfold proquint_word. apply (f_equal (fun l => l)).
      instantiate (1 := removelast (proquint_word x y)). reflexivity.
    + destruct (IH ltac:(done)) as [s ->]. exists (proquint_word x y ++ s). by rewrite app_assoc.
Qed.
Lemma is_proquint_dash s :
  ipfs_proquint_is_proquint s = true <->
  (S (length s) mod 6 = 0)%nat /\ proquint_chars 0 (s ++ [dash]) = true.
Proof.
  unfold ipfs_proquint_is_proquint. destruct (Nat.eqb_spec (S (length s) mod 6) 0) as [E | E].
  - rewrite proquint_chars_app. cbn [proquint_chars]. unfold proquint_char. cbn [Nat.add].
    rewrite E. cbn [Nat.eqb]. rewrite bool_decide_true, !andb_true_r by reflexivity. tauto.
  - split; [discriminate | tauto].
Qed.

Lemma char_at_word pre w post s i c :
  pre ++ w ++ post = s ++ [dash] -> w !! i = Some c -> (S i < length w)%nat ->
  char_at s (length pre + i) = Ok c.
Proof.
  intros E Hc Hi. unfold char_at.
  assert (Hl : (length pre + i < length s)%nat)
    by (apply (f_equal length) in E; rewrite !length_app in E; cbn in E; lia).
  assert (E2 : (s ++ [dash]) !! (length pre + i)%nat = Some c).
  { rewrite <- E, lookup_app_r, lookup_app_l by lia.
    replace (length pre + i - length pre)%nat with i by lia. exact Hc. }
  rewrite lookup_app_l in E2 by exact Hl. rewrite lookup_app_l, E2 by exact Hl. reflexivity.
Qed.
Lemma proquint_decode_words b :
  Nat.Even (length b) -> forall fuel pre s size ret,
  pre ++ proquint_words b = s ++ [dash] -> (length b < fuel)%nat -> len ret + len b <= size ->
  (b = [] -> length pre = S (length s)) ->
  proquint_decode fuel s size (length pre) ret = Ok (ret ++ b).
Proof.
  revert b. apply (pairs_ind (fun b => forall fuel pre s size ret, _ -> _ -> _ -> _ -> _)).
  - intros [| fuel] pre s size ret E Hf Hs Hn; [cbn in Hf; lia |]. cbn [proquint_decode].
    rewrite (proj2 (Nat.ltb_ge _ _)) by (rewrite Hn by reflexivity; lia).
    rewrite app_nil_r. reflexivity.
  - intros x y l IH [| fuel] pre s size ret E Hf Hs _; [cbn in Hf; lia |].
    cbn [proquint_words] in E. cbn [proquint_decode].
    destruct (word_chars_value x y) as (c0 & c1 & c2 & c3 & c4 & Ew & _ & Ev). rewrite Ew in E.
    assert (Hl : (length pre + 6 + 3 * length l = S (length s))%nat \/ (length pre + 6 <= S (length s))%nat).
    { right. apply (f_equal length) in E. rewrite !length_app in E. cbn in E. lia. }
    rewrite (proj2 (Nat.ltb_lt _ _)) by (destruct Hl; lia).
    assert (Hc := fun i c => char_at_word pre _ _ s i c E).
    rewrite <- (Nat.add_0_r (length pre)) at 1.
    rewrite (Hc 0%nat c0), (Hc 1%nat c1), (Hc 2%nat c2), (Hc 3%nat c3), (Hc 4%nat c4)
      by (cbn; lia || reflexivity).
    cbn [mbind cres_bind].
    rewrite Ev, pair_high, pair_low. rewrite !len_cons in Hs.
    rewrite (proj2 (Z.leb_le _ _)) by (pose proof (len_nonneg l); lia).
    replace (length pre + 6)%nat with (length (pre ++ [c0; c1; c2; c3; c4; dash]))
      by (rewrite length_app; reflexivity).
    rewrite IH.
    + rewrite <- app_assoc. reflexivity.
    + rewrite <- app_assoc. exact E.
    + cbn in Hf. lia.
    + rewrite len_app. change (len [x; y]) with 2. lia.
    + intros ->. apply (f_equal length) in E. rewrite !length_app in E. rewrite length_app. cbn in *. lia.
Qed.

Lemma encode_words buf s :
  buf <> [] -> Nat.Even (length buf) -> 3 * len buf < 2 ^ 31 ->
  proquint_words buf = s ++ [dash] -> ipfs_proquint_encode (Some buf) (len buf) = Ok s.
Proof.
  intros Hb [k Hk] Hm E. unfold ipfs_proquint_encode. pose proof (len_nonneg buf).
  assert (Hr : Z.rem (len buf) 2 = 0).
  { unfold len. rewrite Hk, Nat2Z.inj_mul, Z.mul_comm. apply Z.rem_mul. lia. }
  rewrite Hr. cbn [negb Z.eqb].
  rewrite (proj2 (Z.leb_le _ _)), (proj2 (Z.ltb_lt _ _)), (proj2 (Z.ltb_ge _ _)) by lia.
  cbn [negb andb]. rewrite mem_read_all. cbn [mbind cres_bind]. rewrite E.
  destruct (s ++ [dash]) eqn:E2; [by apply app_nil in E2 as [_ ?] |].
  rewrite <- E2, removelast_last. reflexivity.
Qed.
Lemma encode_inv buf s :
  ipfs_proquint_encode (Some buf) (len buf) = Ok s ->
  buf <> [] /\ Nat.Even (length buf) /\ 3 * len buf < 2 ^ 31 /\ proquint_words buf = s ++ [dash].
Proof.
  unfold ipfs_proquint_encode. destruct (Z.eqb_spec (Z.rem (len buf) 2) 0) as [Hr |]; [| discriminate].
  cbn [negb]. destruct (_ && _) eqn:Hm; [| discriminate]. apply andb_true_iff in Hm as [_ Hm].
  cbn [negb]. destruct (_ <? 0); [discriminate |]. rewrite mem_read_all. cbn [mbind cres_bind].
  assert (He : Nat.Even (length buf)).
  { apply Z.rem_divide in Hr as [k Hk]; [| lia]. exists (Z.to_nat k). unfold len in Hk. lia. }
  intros H. assert (Hb : buf <> []) by (intros ->; discriminate).
  destruct (words_dash buf Hb He) as [t E]. rewrite E in *.
  destruct (t ++ [dash]) eqn:E2; [discriminate |]. rewrite <- E2, removelast_last in H.
  injection H as <-. repeat split; [exact Hb | exact He | apply Z.ltb_lt in Hm; lia | done].
Qed.
Lemma decode_encoded buf s :
  buf <> [] -> Nat.Even (length buf) -> proquint_words buf = s ++ [dash] ->
  len s = 3 * len buf - 1 /\ ipfs_proquint_is_proquint s = true /\ ipfs_proquint_decode s = Ok buf.
Proof.
  intros Hb He E. pose proof (proquint_words_length buf He) as Hl.
  rewrite E, length_app in Hl. cbn in Hl.
  assert (Hp : ipfs_proquint_is_proquint s = true).
  { apply is_proquint_dash. rewrite <- E, proquint_words_chars by exact He. split; [| reflexivity].
    destruct He as [k Hk]. replace (S (length s)) with (k * 6)%nat by lia. apply Nat.Div0.mod_mul. }
  assert (Hs : len s = 3 * len buf - 1) by (unfold len; lia).
  split; [exact Hs |]. split; [exact Hp |]. unfold ipfs_proquint_decode. rewrite Hp. cbn [negb andb].
  change 0%nat with (length (@nil byte)). change buf with ([] ++ buf) at 1.
  apply (proquint_decode_words buf He); [exact E | lia | | done].
  rewrite Hs. replace (3 * len buf - 1 + 1) with (len buf * 3) by lia. rewrite Z.quot_mul by lia.
  len_lia.
Qed.

(** Every non-empty string of an even number of bytes whose encoding fits an
    [int] is encoded to a proquint of five characters a pair with a dash between
    pairs, and decoding that gives the bytes back. *)
Theorem proquint_roundtrip buf :
  buf <> [] -> Nat.Even (length buf) -> 3 * len buf < 2 ^ 31 ->
  exists s, ipfs_proquint_encode (Some buf) (len buf) = Ok s /\ len s = 3 * len buf - 1 /\
    ipfs_proquint_is_proquint s = true /\ ipfs_proquint_decode s = Ok buf.
Proof.
  intros Hb He Hm. destruct (words_dash buf Hb He) as [s E]. exists s.
  split; [by apply encode_words | by apply decode_encoded].
Qed.
Lemma proquint_roundtrip_witness :
  exists s, ipfs_proquint_encode (Some [x7f; x00; x00; x01]) 4 = Ok s /\ len s = 11 /\
    ipfs_proquint_is_proquint s = true /\ ipfs_proquint_decode s = Ok [x7f; x00; x00; x01].
Proof.
  apply (proquint_roundtrip [x7f; x00; x00; x01]); [discriminate | exists 2%nat; reflexivity | reflexivity].
Defined.

Example localhost_is_lusab_babad :
  ipfs_proquint_encode (Some [x7f; x00; x00; x01]) 4 = Ok (str "lusab-babad").
Proof. reflexivity. Qed.

(** The strings the test accepts are exactly those the encoder makes (up to
    the size the encoder can handle), and no two byte strings have the same one. *)
Theorem is_proquint_iff s :
  len s + 1 < 2 ^ 31 ->
  (ipfs_proquint_is_proquint s = true <->
   exists buf, ipfs_proquint_encode (Some buf) (len buf) = Ok s) /\
  (forall b c, ipfs_proquint_encode (Some b) (len b) = Ok s ->
     ipfs_proquint_encode (Some c) (len c) = Ok s -> b = c).
Proof.
  intros Hm. split; [split |].
  - intros [H6 Hc]%is_proquint_dash. apply Nat.Div0.mod_divides in H6 as [n Hn].
    assert (Hl : length (s ++ [dash]) = (6 * n)%nat) by (rewrite length_app; cbn [length]; lia).
    destruct (proquint_words_onto n _ Hl Hc) as (b & Hb & E).
    assert (He : Nat.Even (length b)) by (exists n; exact Hb).
    exists b. apply encode_words; [| exact He | unfold len in *; lia | symmetry; exact E].
    intros ->. cbn in Hb. lia.
  - intros (b & (Hb & He & _ & E)%encode_inv). by apply (decode_encoded b s).
  - intros b c (Hb & Hbe & _ & Eb)%encode_inv (Hc & Hce & _ & Ec)%encode_inv.
    apply decode_encoded in Eb as (_ & _ & Eb), Ec as (_ & _ & Ec); [congruence | done..].
Qed.
Lemma is_proquint_iff_witness :
  let s := str "lusab-babad" in
  (ipfs_proquint_is_proquint s = true <->
   exists buf, ipfs_proquint_encode (Some buf) (len buf) = Ok s) /\
  (forall b c, ipfs_proquint_encode (Some b) (len b) = Ok s ->
     ipfs_proquint_encode (Some c) (len c) = Ok s -> b = c).
Proof. apply (is_proquint_iff (str "lusab-babad")). reflexivity. Defined.
