(* ===== verification/Errs.v ===== *)
(** Error codes and their messages (src/util/errs.c, include/ipfs/util/errs.h). *)

From S2P Require Import Prelude.

(** The enumeration starts at 1. *)
Inductive ErrsIdx : Set :=
| ErrAllocFailed
| ErrNULLPointer
| ErrUnknow
| ErrPipe
| ErrPoll
| ErrPublishFailed
| ErrResolveFailed
| ErrResolveRecursion
| ErrExpiredRecord
| ErrUnrecognizedValidity
| ErrInvalidProquint
| ErrInvalidDomain
| ErrInvalidDNSLink
| ErrBadPath
| ErrNoComponents
| ErrCidDecode
| ErrNoLink
| ErrNoLinkFmt
| ErrInvalidParam
| ErrResolveLimit
| ErrInvalidSignature
| ErrInvalidSignatureFmt
| ErrNoRecord
| ErrCidDecodeFailed
| ErrOffline.

Definition all_errs : list ErrsIdx :=
  [ErrAllocFailed; ErrNULLPointer; ErrUnknow; ErrPipe; ErrPoll; ErrPublishFailed;
   ErrResolveFailed; ErrResolveRecursion; ErrExpiredRecord; ErrUnrecognizedValidity;
   ErrInvalidProquint; ErrInvalidDomain; ErrInvalidDNSLink; ErrBadPath; ErrNoComponents;
   ErrCidDecode; ErrNoLink; ErrNoLinkFmt; ErrInvalidParam; ErrResolveLimit;
   ErrInvalidSignature; ErrInvalidSignatureFmt; ErrNoRecord; ErrCidDecodeFailed; ErrOffline].

#[export] Instance errs_eq_dec : EqDecision ErrsIdx.
Proof. solve_decision. Defined.

(** The value of the constant. *)
Definition err_code (e : ErrsIdx) : Z :=
  match e with
  | ErrAllocFailed => 1
  | ErrNULLPointer => 2
  | ErrUnknow => 3
  | ErrPipe => 4
  | ErrPoll => 5
  | ErrPublishFailed => 6
  | ErrResolveFailed => 7
  | ErrResolveRecursion => 8
  | ErrExpiredRecord => 9
  | ErrUnrecognizedValidity => 10
  | ErrInvalidProquint => 11
  | ErrInvalidDomain => 12
  | ErrInvalidDNSLink => 13
  | ErrBadPath => 14
  | ErrNoComponents => 15
  | ErrCidDecode => 16
  | ErrNoLink => 17
  | ErrNoLinkFmt => 18
  | ErrInvalidParam => 19
  | ErrResolveLimit => 20
  | ErrInvalidSignature => 21
  | ErrInvalidSignatureFmt => 22
  | ErrNoRecord => 23
  | ErrCidDecodeFailed => 24
  | ErrOffline => 25
  end.

(** The table: there is no comma after the sixth message, so the compiler joins it
    with the next one. *)
Definition Err_table : list (option bytes) :=
  [None;
   Some (str "ErrAllocFailed");
   Some (str "ErrNULLPointer");
   Some (str "ErrUnknow");
   Some (str "ErrPipe");
   Some (str "ErrPoll");
   Some (str "Could not publish name." ++ str "Could not resolve name.");
   Some (str "Could not resolve name (recursion limit exceeded).");
   Some (str "expired record");
   Some (str "unrecognized validity type");
   Some (str "not a valid proquint string");
   Some (str "not a valid domain name");
   Some (str "not a valid dnslink entry");
   Some (str "invalid 'ipfs ref' path");
   Some (str "path must contain at least one component");
   Some (str "TODO: ErrCidDecode");
   None;
   Some (str "no link named %s under %s");
   Some (str "ErrInvalidParam");
   Some (str "resolve depth exceeded");
   None;
   Some (str "Invalid value. Not signed by PrivateKey corresponding to %s");
   Some (str "no usable records in given set");
   Some (str "failed to decode empty key constant");
   Some (str "routing system in offline mode")].

(** [Err[e]]: a message, NULL, or a read behind the table. *)
Definition err_message (e : ErrsIdx) : cres unit (option bytes) :=
  match Err_table !! Z.to_nat (err_code e) with
  | Some m => Ok m
  | None => Undef
  end.

(** * Properties *)

Lemma all_errs_complete e : e ∈ all_errs.
Proof. apply list_elem_of_In. destruct e; cbn; tauto. Qed.

(** The constants are numbered from 1 in their order. *)
Lemma err_codes : map err_code all_errs = map Z.of_nat (seq 1 25).
Proof. reflexivity. Qed.
Lemma err_code_inj a b : err_code a = err_code b -> a = b.
Proof. destruct a, b; intros H; (reflexivity || discriminate H). Qed.

(** From the resolve error on, a constant has the message meant for the next one;
    the last one has none. *)
Lemma err_message_shifted :
  err_message ErrExpiredRecord = Ok (Some (str "unrecognized validity type")) /\
  err_message ErrNoLink = Ok (Some (str "no link named %s under %s")) /\
  err_message ErrCidDecode = Ok None /\
  err_message ErrOffline = Undef.
Proof. repeat split. Qed.
