(* ===== verification/Times.v ===== *)
(** Time stamps as text (src/util/time.c), with what they use of the C library's calendar; and the address
    type that is a copied text (src/thirdparty/ipfsaddr/ipfs_addr.c). *)

From S2P Require Import Prelude Libc.

(** ** The calendar *)

(** The fields of [struct tm] in use, the month from 0 and the year as it is. *)
Record tm := MkTm { tm_year : Z; tm_mon : Z; tm_mday : Z; tm_hour : Z; tm_min : Z; tm_sec : Z; tm_isdst : Z }.
Definition with_isdst (isdst : Z) (t : tm) : tm :=
  MkTm (tm_year t) (tm_mon t) (tm_mday t) (tm_hour t) (tm_min t) (tm_sec t) isdst.

(** The days from 1970-01-01 to a day: years begin in March, an era has 400 of them. A day behind the end
    of its month is one of the next. *)
Definition days_before_era_year (yoe : Z) : Z := yoe * 365 + yoe / 4 - yoe / 100.
Definition days_before_month (mp : Z) : Z := (153 * mp + 2) / 5.
Definition days_of_civil (year mon mday : Z) : Z :=
  let y := if mon <? 2 then year - 1 else year in
  let mp := if mon <? 2 then mon + 10 else mon - 2 in
  (y / 400) * 146097 + days_before_era_year (y mod 400) + days_before_month mp + mday - 1 - 719468.

(** The year of an era, from March on, that holds a day of the era. *)
Definition year_of_era (doe : Z) : Z := (doe - doe / 1460 + doe / 36524 - doe / 146096) / 365.
Definition civil_of_days (days : Z) : Z * Z * Z :=
  let z := days + 719468 in
  let doe := z mod 146097 in
  let yoe := year_of_era doe in
  let doy := doe - days_before_era_year yoe in
  let mp := (5 * doy + 2) / 153 in
  let mon := if mp <? 10 then mp + 2 else mp - 10 in
  (yoe + (z / 146097) * 400 + (if mon <? 2 then 1 else 0), mon, doy - days_before_month mp + 1).

(** [gmtime]; NULL when the year does not fit. *)
Definition gmtime (sec : Z) : option tm :=
  let '(year, mon, mday) := civil_of_days (sec / 86400) in
  let rem := sec mod 86400 in
  if (- 2 ^ 31 <=? year - 1900) && (year - 1900 <? 2 ^ 31)
  then Some (MkTm year mon mday (rem / 3600) (rem / 60 mod 60) (rem mod 60) 0)
  else None.
(** [mktime]: the time of the local zone. [zone]: the seconds the zone is taken to be ahead of UTC at the local
    time, which depends on [tm_isdst] too: that says whether there is daylight saving (positive), none (0), or that
    the library is to find out (negative). *)
Definition mktime (zone : tm -> Z) (t : tm) : Z :=
  days_of_civil (tm_year t) (tm_mon t) (tm_mday t) * 86400 + tm_hour t * 3600 + tm_min t * 60 + tm_sec t - zone t.

(** ** Conversions *)

Fixpoint fixed_digits (n : nat) (v : Z) (acc : bytes) : bytes :=
  match n with O => acc | S n => fixed_digits n (v / 10) (byte_of (48 + v mod 10) :: acc) end.
(** [%02d] of a number of two digits. *)
Definition two_digits (v : Z) : bytes := fixed_digits 2 v [].
(** [%09d]: zeros up to nine characters. *)
Definition nine_wide (v : Z) : bytes :=
  let d := decimal (Z.abs v) in
  let sign := if v <? 0 then [byte_of 45] else [] in
  sign ++ repeat (byte_of 48) (9 - length sign - length d) ++ d.
Definition hyphen : byte := byte_of 45.
Definition colon_sign : byte := byte_of 58.
(** [strptime]'s numbers: spaces, then at most [n] digits, as long as the number stays within [to]. *)
Fixpoint skip_blanks (s : bytes) : bytes :=
  match s with c :: r => if byte_val c =? 32 then skip_blanks r else s | [] => [] end.
Fixpoint more_digits (n : nat) (to v : Z) (s : bytes) : Z * bytes :=
  match n, s with
  | S n, c :: r =>
      if isdigit c && (v * 10 <=? to) then more_digits n to (10 * v + (byte_val c - 48)) r else (v, s)
  | _, _ => (v, s)
  end.
Definition get_number (from to : Z) (n : nat) (s : bytes) : option (Z * bytes) :=
  match skip_blanks s with
  | c :: r =>
      if isdigit c then
        let '(v, r) := more_digits (n - 1) to (byte_val c - 48) r in
        if (from <=? v) && (v <=? to) then Some (v, r) else None
      else None
  | [] => None
  end.
Definition expect (c : byte) (s : bytes) : option bytes :=
  match s with x :: r => if decide (x = c) then Some r else None | [] => None end.
(** [strptime(s, "%Y-%m-%dT%H:%M:%S", &tm)]; it leaves [tm_isdst] as it was. *)
Definition strptime (isdst : Z) (s : bytes) : option (tm * bytes) :=
  '(y, s) ← get_number 0 9999 4 s; s ← expect hyphen s;
  '(mo, s) ← get_number 1 12 2 s; s ← expect hyphen s;
  '(d, s) ← get_number 1 31 2 s; s ← expect (byte_of 84) s;
  '(h, s) ← get_number 0 23 2 s; s ← expect colon_sign s;
  '(mi, s) ← get_number 0 59 2 s; s ← expect colon_sign s;
  '(sec, s) ← get_number 0 61 2 s;
  Some (MkTm y (mo - 1) d h mi sec isdst, s).
Definition atoll (s : bytes) : Z :=
  match skip_space s with
  | c :: rest =>
      if byte_val c =? 45 then Z.max (- 2 ^ 63) (- digits_value rest 0)
      else if byte_val c =? 43 then Z.min (2 ^ 63 - 1) (digits_value rest 0)
      else Z.min (2 ^ 63 - 1) (digits_value (c :: rest) 0)
  | [] => 0
  end.

(** ** The program *)

Record timespec := MkTimespec { tv_sec : Z; tv_nsec : Z }.

(** 1 and 2 are the errors. [isdst]: what the memory of the [struct tm] holds, which is not initialised. *)
Definition ipfs_util_time_parse_RFC3339 (zone : tm -> Z) (isdst : Z) (ts : bool) (s : option bytes) : cres Z timespec :=
  match s with
  | Some s =>
      if negb ts || negb (strlen s =? 35) then Err 1
      else
        match strptime isdst (c_str s) with
        | Some (t, r :: rest) =>
            if decide (r = byte_of 46) then Ok (MkTimespec (mktime zone t) (atoll rest)) else Err 2
        | _ => Err 2
        end
  | None => Err 1
  end.

(** [strftime] with the format "%Y-%m-%dT%H:%M:%S.%%09dZ00:00", cut in two at the %09d. *)
Definition date_text (t : tm) : bytes :=
  int_decimal (tm_year t) ++ hyphen :: two_digits (tm_mon t + 1) ++ hyphen :: two_digits (tm_mday t) ++
  byte_of 84 :: two_digits (tm_hour t) ++ colon_sign :: two_digits (tm_min t) ++ colon_sign :: two_digits (tm_sec t) ++ [byte_of 46].
Definition zone_text : bytes := str "Z00:00".
Definition ipfs_util_time_format_RFC3339 (ts : timespec) : cres unit (option bytes) :=
  match gmtime (tv_sec ts) with
  | None => Undef (* strftime of NULL *)
  | Some t =>
      let written := len (date_text t) + 4 + len zone_text in
      if negb ((if 31 <=? written then 0 else written) =? 30) then Ok None
      else
        let ret := date_text t ++ nine_wide (i32 (tv_nsec ts)) ++ zone_text in
        if negb (len ret =? 35) then Ok None else Ok (Some ret)
  end.

(** The copy of a text: its characters, behind which is what the memory held: the end of the text is not
    copied. *)
Definition ipfsaddr_new (junk : byte) (string : bytes) : bytes := c_str string ++ [junk].

Example epoch_text : ipfs_util_time_format_RFC3339 (MkTimespec 951782400 5) = Ok (Some (str "2000-02-29T00:00:00.000000005Z00:00")).
Proof. vm_compute. reflexivity. Qed.
Example epoch_back :
  ipfs_util_time_parse_RFC3339 (fun _ => 0) 77 true (Some (str "2000-02-29T00:00:00.000000005Z00:00")) = Ok (MkTimespec 951782400 5).
Proof. vm_compute. reflexivity. Qed.

(** * Facts *)

Lemma era_day doe :
  0 <= doe < 146097 ->
  0 <= year_of_era doe <= 399 /\ 0 <= doe - days_before_era_year (year_of_era doe) <= 365.
Proof.
  intros H. unfold days_before_era_year, year_of_era.
  assert (0 <= (doe - doe / 1460 + doe / 36524 - doe / 146096) / 365 <= 399) by (Z.div_mod_to_equations; lia).
  split; [assumption |]. (Z.div_mod_to_equations; lia).
Qed.
Lemma month_of_day doy :
  0 <= doy <= 365 ->
  let mp := (5 * doy + 2) / 153 in 0 <= mp <= 11 /\ 1 <= doy - days_before_month mp + 1 <= 31.
Proof. intros H. cbn zeta. unfold days_before_month. split; Z.div_mod_to_equations; lia. Qed.
(** The days of a day that [gmtime] gives are the days it was given. *)
Lemma days_of_civil_of_days d :
  let '(year, mon, mday) := civil_of_days d in
  days_of_civil year mon mday = d /\ 0 <= mon <= 11 /\ 1 <= mday <= 31.
Proof.
  unfold civil_of_days. set (z := d + 719468). pose proof (Z.mod_pos_bound z 146097 ltac:(lia)) as Hz.
  destruct (era_day _ Hz) as [Hy Hd]. pose proof (Z.div_mod z 146097 ltac:(lia)) as Hdm.
  set (doe := z mod 146097) in *. set (yoe := year_of_era doe) in *. set (doy := doe - days_before_era_year yoe) in *.
  destruct (month_of_day doy Hd) as [Hm Hday]. set (mp := (5 * doy + 2) / 153) in *.
  set (mon := if mp <? 10 then mp + 2 else mp - 10).
  assert (Hmon : 0 <= mon <= 11 /\ (if mon <? 2 then mon + 10 else mon - 2) = mp) by (subst mon; destruct (mp <? 10) eqn:E; [| ]; [assert ((mp + 2 <? 2) = false) as -> by lia | assert ((mp - 10 <? 2) = true) as -> by lia]; lia).
  split; [| lia]. unfold days_of_civil. rewrite (proj2 Hmon).
  replace (if mon <? 2 then yoe + z / 146097 * 400 + (if mon <? 2 then 1 else 0) - 1
           else yoe + z / 146097 * 400 + (if mon <? 2 then 1 else 0)) with (yoe + z / 146097 * 400)
    by (destruct (mon <? 2); lia).
  rewrite Z.div_add, Z.mod_add, (Z.div_small yoe), (Z.mod_small yoe) by lia. lia.
Qed.
Lemma gmtime_mktime sec zone isdst t :
  gmtime sec = Some t ->
  mktime zone (with_isdst isdst t) = sec - zone (with_isdst isdst t) /\ 0 <= tm_mon t <= 11 /\ 1 <= tm_mday t <= 31 /\
  0 <= tm_hour t <= 23 /\ 0 <= tm_min t <= 59 /\ 0 <= tm_sec t <= 59.
Proof.
  unfold gmtime. pose proof (days_of_civil_of_days (sec / 86400)) as H.
  destruct (civil_of_days (sec / 86400)) as [[year mon] mday]. destruct H as (H & Hm & Hd).
  destruct (_ && _); [| discriminate]. intros [= <-]. unfold mktime. cbn [with_isdst tm_year tm_mon tm_mday tm_hour tm_min tm_sec].
  rewrite H. pose proof (Z.mod_pos_bound sec 86400 ltac:(lia)). pose proof (Z.div_mod sec 86400 ltac:(lia)).
  set (r := sec mod 86400) in *. split_and!; try lia; Z.div_mod_to_equations; lia.
Qed.

(** ** Reading what was written *)

Lemma digit_byte v : 0 <= v <= 9 -> byte_val (byte_of (48 + v)) = 48 + v /\ isdigit (byte_of (48 + v)) = true.
Proof.
  intros H. assert (E : byte_val (byte_of (48 + v)) = 48 + v) by (rewrite byte_val_of; apply Z.mod_small; lia).
  split; [exact E | unfold isdigit; rewrite E; lia].
Qed.
Lemma two_digits_eq v : two_digits v = [byte_of (48 + v / 10 mod 10); byte_of (48 + v mod 10)].
Proof. reflexivity. Qed.
Lemma get_two_digits from to v c s :
  0 <= from -> to <= 99 -> from <= v <= to -> isdigit c = false ->
  get_number from to 2 (two_digits v ++ c :: s) = Some (v, c :: s).
Proof.
  intros Hf Ht Hv Hc. rewrite two_digits_eq.
  assert (H1 : 0 <= v / 10 mod 10 <= 9) by (Z.div_mod_to_equations; lia).
  assert (H2 : 0 <= v mod 10 <= 9) by (Z.div_mod_to_equations; lia).
  destruct (digit_byte _ H1) as [E1 D1]. destruct (digit_byte _ H2) as [E2 D2].
  assert (Hval : v = 10 * (v / 10 mod 10) + v mod 10) by (Z.div_mod_to_equations; lia).
  unfold get_number. cbn [app skip_blanks]. rewrite E1. replace (48 + v / 10 mod 10 =? 32) with false by lia.
  rewrite D1, E1. cbn [Nat.sub more_digits]. rewrite D2, E2.
  replace (48 + v / 10 mod 10 - 48) with (v / 10 mod 10) by lia.
  replace (v / 10 mod 10 * 10 <=? to) with true by lia. cbn [andb].
  replace (10 * (v / 10 mod 10) + (48 + v mod 10 - 48)) with v by lia.
  replace ((from <=? v) && (v <=? to)) with true by lia. reflexivity.
Qed.
Lemma year_text y : 1000 <= y <= 9999 -> int_decimal y = fixed_digits 4 y [].
Proof.
  intros H. unfold int_decimal, decimal. replace (y <? 0) with false by lia. cbn [decimal_fuel fixed_digits].
  assert (Ha : (y / 10 =? 0) = false) by (Z.div_mod_to_equations; lia).
  assert (Hb : (y / 10 / 10 =? 0) = false) by (Z.div_mod_to_equations; lia).
  assert (Hc : (y / 10 / 10 / 10 =? 0) = false) by (Z.div_mod_to_equations; lia).
  assert (Hd : (y / 10 / 10 / 10 / 10 =? 0) = true) by (Z.div_mod_to_equations; lia).
  rewrite Ha, Hb, Hc, Hd. reflexivity.
Qed.
Lemma get_year y c s :
  1000 <= y <= 9999 -> isdigit c = false -> get_number 0 9999 4 (int_decimal y ++ c :: s) = Some (y, c :: s).
Proof.
  intros H Hc. rewrite year_text by exact H. cbn [fixed_digits app].
  set (a := y / 10 / 10 / 10 mod 10). set (b := y / 10 / 10 mod 10). set (e := y / 10 mod 10). set (f := y mod 10).
  assert (Ha : 0 <= a <= 9) by (subst a; Z.div_mod_to_equations; lia).
  assert (Hb : 0 <= b <= 9) by (subst b; Z.div_mod_to_equations; lia).
  assert (He : 0 <= e <= 9) by (subst e; Z.div_mod_to_equations; lia).
  assert (Hf : 0 <= f <= 9) by (subst f; Z.div_mod_to_equations; lia).
  assert (Hv : y = 1000 * a + 100 * b + 10 * e + f) by (subst a b e f; Z.div_mod_to_equations; lia).
  clearbody a b e f. destruct (digit_byte _ Ha) as [Ea Da]. destruct (digit_byte _ Hb) as [Eb Db].
  destruct (digit_byte _ He) as [Ee De]. destruct (digit_byte _ Hf) as [Ef Df].
  unfold get_number. cbn [skip_blanks]. rewrite Ea. replace (48 + a =? 32) with false by lia. rewrite Da, Ea.
  cbn [Nat.sub more_digits]. rewrite Db, Eb, De, Ee, Df, Ef.
  replace ((48 + a - 48) * 10 <=? 9999) with true by lia. cbn [andb].
  replace ((10 * (48 + a - 48) + (48 + b - 48)) * 10 <=? 9999) with true by lia. cbn [andb].
  replace ((10 * (10 * (48 + a - 48) + (48 + b - 48)) + (48 + e - 48)) * 10 <=? 9999) with true by lia. cbn [andb].
  replace (10 * (10 * (10 * (48 + a - 48) + (48 + b - 48)) + (48 + e - 48)) + (48 + f - 48)) with y by lia.
  replace ((0 <=? y) && (y <=? 9999)) with true by lia. reflexivity.
Qed.
Lemma decimal_fuel_acc fuel n acc rest : decimal_fuel fuel n acc ++ rest = decimal_fuel fuel n (acc ++ rest).
Proof.
  revert n acc. induction fuel as [| fuel IH]; intros n acc; [reflexivity |]. cbn [decimal_fuel].
  destruct (n / 10 =? 0); [reflexivity |]. apply (IH (n / 10) (_ :: acc)).
Qed.
Lemma zeros_value k s : digits_value (repeat (byte_of 48) k ++ s) 0 = digits_value s 0.
Proof. induction k as [| k IH]; [reflexivity | exact IH]. Qed.
Lemma nine_wide_len n : 0 <= n < 10 ^ 9 -> length (nine_wide n) = 9%nat.
Proof.
  intros H. unfold nine_wide. replace (n <? 0) with false by lia. rewrite Z.abs_eq by lia. cbn [length app].
  rewrite length_app, repeat_length. pose proof (decimal_fuel_len 20 9 n [] ltac:(lia) ltac:(lia) ltac:(lia)) as Hl.
  fold (decimal n) in Hl. unfold len in Hl. cbn [length] in Hl. lia.
Qed.
Lemma nine_wide_value n c rest : 0 <= n < 10 ^ 9 -> isdigit c = false -> atoll (nine_wide n ++ c :: rest) = n.
Proof.
  intros H Hc. unfold nine_wide. replace (n <? 0) with false by lia. rewrite Z.abs_eq by lia. cbn [length app].
  rewrite <- app_assoc. set (k := (9 - 0 - length (decimal n))%nat).
  assert (Hv : digits_value (repeat (byte_of 48) k ++ decimal n ++ c :: rest) 0 = n).
  { rewrite zeros_value. unfold decimal. rewrite decimal_fuel_acc. cbn [app].
    rewrite decimal_fuel_value by lia. cbn [digits_value]. rewrite Hc. lia. }
  assert (Hh : exists d r, repeat (byte_of 48) k ++ decimal n ++ c :: rest = d :: r /\ 48 <= byte_val d <= 57).
  { destruct k as [| k]; [| eexists _, _; split; [reflexivity | vm_compute; split; discriminate]].
    destruct (decimal_fuel_head 20 n [] ltac:(lia)) as (d & r & E & Hd). unfold decimal. rewrite E. eexists _, _. split; [reflexivity | exact Hd]. }
  destruct Hh as (d & r & E & Hd). rewrite E in *. unfold atoll. cbn [skip_space].
  replace (isspace d) with false by (unfold isspace; lia). replace (byte_val d =? 45) with false by lia.
  replace (byte_val d =? 43) with false by lia. rewrite Hv. lia.
Qed.
Lemma expect_here c s : expect c (c :: s) = Some s.
Proof. unfold expect. rewrite decide_True by reflexivity. reflexivity. Qed.
(** The fields of a date read back. *)
Record tm_ok (t : tm) : Prop := {
  ok_year : 1000 <= tm_year t <= 9999;
  ok_mon : 0 <= tm_mon t <= 11;
  ok_mday : 1 <= tm_mday t <= 31;
  ok_hour : 0 <= tm_hour t <= 23;
  ok_min : 0 <= tm_min t <= 59;
  ok_sec : 0 <= tm_sec t <= 59
}.
Ltac read_field :=
  rewrite <- !app_assoc, <- !app_comm_cons, get_two_digits by (lia || reflexivity); cbn [mbind option_bind];
  rewrite expect_here; cbn [mbind option_bind].
Lemma strptime_date isdst t rest :
  tm_ok t -> strptime isdst (date_text t ++ rest) = Some (with_isdst isdst t, byte_of 46 :: rest).
Proof.
  intros [Hy Hmo Hd Hh Hmi Hs]. unfold date_text, strptime. rewrite <- !app_assoc, <- !app_comm_cons.
  rewrite get_year by (exact Hy || reflexivity). cbn [mbind option_bind]. rewrite expect_here. cbn [mbind option_bind].
  do 4 read_field.
  rewrite <- !app_assoc. cbn [app]. rewrite get_two_digits by (lia || reflexivity). cbn [mbind option_bind].
  unfold with_isdst. do 3 f_equal. lia.
Qed.

Lemma digit_nonzero v : 0 <= v <= 9 -> byte_of (48 + v) <> x00.
Proof. intros H E. apply (f_equal byte_val) in E. rewrite (proj1 (digit_byte v H)) in E. change (byte_val x00) with 0 in E. lia. Qed.
Lemma digits_cstring n v acc : cstring acc -> cstring (fixed_digits n v acc).
Proof.
  revert v acc. induction n as [| n IH]; intros v acc H; [exact H |]. apply IH. unfold cstring. rewrite not_elem_of_cons.
  split; [apply not_eq_sym, digit_nonzero; Z.div_mod_to_equations; lia | exact H].
Qed.
Lemma decimal_fuel_cstring fuel n acc : cstring acc -> cstring (decimal_fuel fuel n acc).
Proof.
  revert n acc. induction fuel as [| fuel IH]; intros n acc H; [exact H |]. cbn [decimal_fuel].
  assert (Hc : cstring (byte_of (48 + n mod 10) :: acc)).
  { unfold cstring. rewrite not_elem_of_cons. split; [apply not_eq_sym, digit_nonzero; Z.div_mod_to_equations; lia | exact H]. }
  destruct (_ =? 0); [exact Hc | apply IH, Hc].
Qed.
Lemma cstring_nil : cstring [].
Proof. apply not_elem_of_nil. Qed.
Lemma cstring_cons c s : c <> x00 -> cstring s -> cstring (c :: s).
Proof. intros Hc Hs. unfold cstring. rewrite not_elem_of_cons. split; [congruence | exact Hs]. Qed.
Lemma date_cstring t : tm_ok t -> cstring (date_text t).
Proof.
  intros [Hy _ _ _ _ _]. unfold date_text. rewrite year_text by exact Hy.
  repeat first [apply cstring_app; split; [apply digits_cstring, cstring_nil |] | apply cstring_cons; [discriminate |]].
  apply cstring_nil.
Qed.
Lemma nine_wide_cstring n : 0 <= n -> cstring (nine_wide n).
Proof.
  intros H. unfold nine_wide. replace (n <? 0) with false by lia. cbn [app].
  apply cstring_app. split; [| apply decimal_fuel_cstring, cstring_nil].
  generalize (9 - length (@nil byte) - length (decimal (Z.abs n)))%nat. intros k.
  induction k as [| k IH]; [apply cstring_nil | apply cstring_cons; [discriminate | exact IH]].
Qed.
Lemma two_digits_len v : length (two_digits v) = 2%nat.
Proof. reflexivity. Qed.
Lemma date_len t : len (date_text t) = len (int_decimal (tm_year t)) + 16.
Proof.
  unfold date_text, len. rewrite !length_app. cbn [length]. rewrite !length_app. cbn [length]. rewrite !length_app. cbn [length].
  rewrite !length_app. cbn [length]. rewrite !length_app. cbn [length]. rewrite !length_app, !two_digits_len. cbn [length]. lia.
Qed.

Lemma decimal_fuel_long fuel k n acc :
  10 ^ Z.of_nat k <= n -> (k < fuel)%nat -> Z.of_nat k + 1 + len acc <= len (decimal_fuel fuel n acc).
Proof.
  revert k n acc. induction fuel as [| fuel IH]; intros k n acc Hn Hk; [lia |]. cbn [decimal_fuel].
  assert (Hgrow : forall m l, len l <= len (decimal_fuel fuel m l)).
  { clear. induction fuel as [| fuel IH]; intros m l; [reflexivity |]. cbn [decimal_fuel].
    destruct (_ =? 0); [rewrite len_cons; lia | etransitivity; [| apply IH]; rewrite len_cons; lia]. }
  destruct k as [| k].
  - destruct (_ =? 0); [rewrite len_cons; lia | etransitivity; [| apply Hgrow]; rewrite len_cons; lia].
  - assert (Hd : 10 ^ Z.of_nat k <= n / 10).
    { apply Z.div_le_lower_bound; [lia |]. rewrite <- Z.pow_succ_r by lia. replace (Z.succ (Z.of_nat k)) with (Z.of_nat (S k)) by lia. exact Hn. }
    pose proof (Z.pow_pos_nonneg 10 (Z.of_nat k)). replace (n / 10 =? 0) with false by lia.
    etransitivity; [| apply (IH k); [exact Hd | lia]]. rewrite len_cons. lia.
Qed.
Lemma late_year_len y : 9999 < y -> 5 <= len (int_decimal y).
Proof.
  intros H. unfold int_decimal, decimal. replace (y <? 0) with false by lia.
  pose proof (decimal_fuel_long 20 4 y [] ltac:(lia) ltac:(lia)) as Hl. rewrite len_nil in Hl. exact Hl.
Qed.

(** The text of a time, and what it reads back as. *)
Lemma format_parses sec nsec zone t :
  gmtime sec = Some t -> 0 <= nsec < 10 ^ 9 -> 1000 <= tm_year t <= 9999 ->
  exists s, ipfs_util_time_format_RFC3339 (MkTimespec sec nsec) = Ok (Some s) /\ len s = 35 /\
    forall isdst more, ipfs_util_time_parse_RFC3339 zone isdst true (Some (s ++ x00 :: more)) =
      Ok (MkTimespec (sec - zone (with_isdst isdst t)) nsec).
Proof.
  intros Ht Hn Hy. destruct (gmtime_mktime sec zone 0 t Ht) as (_ & Hmo & Hd & Hh & Hmi & Hs).
  unfold ipfs_util_time_format_RFC3339. cbn [tv_sec tv_nsec]. rewrite Ht, date_len. change (len zone_text) with 6.
  assert (Hok : tm_ok t) by (split; assumption).
  assert (Hyl : len (int_decimal (tm_year t)) = 4) by (rewrite year_text by exact Hy; reflexivity).
  rewrite Hyl. cbn [Z.add Z.leb Z.eqb Z.compare Pos.add Pos.succ Pos.compare Pos.compare_cont Pos.eqb negb].
  rewrite i32_small by lia.
  set (s := date_text t ++ nine_wide nsec ++ zone_text).
  assert (Hl : len s = 35).
  { subst s. rewrite !len_app, date_len, Hyl. unfold len at 1. rewrite nine_wide_len by exact Hn. reflexivity. }
  rewrite Hl. exists s. split; [reflexivity |]. split; [exact Hl |]. intros isdst more.
  destruct (gmtime_mktime sec zone isdst t Ht) as (Hmk & _).
  assert (Hc : c_str (s ++ x00 :: more) = s).
  { apply c_str_nul. subst s. apply cstring_app. split; [apply date_cstring, Hok |].
    apply cstring_app. split; [apply nine_wide_cstring; lia | apply (bool_decide_unpack _); vm_compute; exact I]. }
  unfold ipfs_util_time_parse_RFC3339, strlen. rewrite Hc, Hl. cbn [negb orb Z.eqb Pos.eqb].
  subst s. rewrite strptime_date by exact Hok. rewrite decide_True by reflexivity.
  unfold zone_text at 1. change (str "Z00:00") with (byte_of 90 :: str "00:00").
  rewrite Hmk, nine_wide_value by (exact Hn || reflexivity). reflexivity.
Qed.

(** * Properties *)

(** C28: a time of a year of four digits has a text of 35 characters, which reads back as the same
    nanoseconds and the seconds less what the local zone is ahead. The zone is asked with the local time and with
    [tm_isdst], which nothing has set: whatever that happens to be. So the time that is read is the one that was written
    exactly where the zone is not ahead of UTC for the flag that is found, since the text is written in UTC and read in
    local time; and where daylight saving makes a difference it is not determined by the text. A time of a later year has
    no text. *)
Theorem time_text_roundtrip sec nsec zone t :
  gmtime sec = Some t -> 0 <= nsec < 10 ^ 9 ->
  (1000 <= tm_year t <= 9999 ->
   exists s, ipfs_util_time_format_RFC3339 (MkTimespec sec nsec) = Ok (Some s) /\ len s = 35 /\
     forall isdst more,
       let read := ipfs_util_time_parse_RFC3339 zone isdst true (Some (s ++ x00 :: more)) in
       read = Ok (MkTimespec (sec - zone (with_isdst isdst t)) nsec) /\
       (read = Ok (MkTimespec sec nsec) <-> zone (with_isdst isdst t) = 0)) /\
  (9999 < tm_year t -> ipfs_util_time_format_RFC3339 (MkTimespec sec nsec) = Ok None).
Proof.
  intros Ht Hn. split.
  - intros Hy. destruct (format_parses sec nsec zone t Ht Hn Hy) as (s & Hf & Hl & Hp). exists s. split; [exact Hf |].
    split; [exact Hl |]. intros isdst more read. subst read. rewrite Hp. split; [reflexivity |].
    split; [intros [= H]; lia | intros ->; rewrite Z.sub_0_r; reflexivity].
  - intros Hy. unfold ipfs_util_time_format_RFC3339. cbn [tv_sec tv_nsec]. rewrite Ht, date_len. change (len zone_text) with 6.
    pose proof (late_year_len _ Hy) as Hyl. replace (31 <=? _) with true by lia. reflexivity.
Qed.

(** An hour ahead of UTC, two with daylight saving: what was in the memory decides. *)
Definition central_europe (t : tm) : Z := if 0 <? tm_isdst t then 7200 else 3600.
Lemma time_text_roundtrip_witness :
  exists s, ipfs_util_time_format_RFC3339 (MkTimespec 951782400 5) = Ok (Some s) /\
    ipfs_util_time_parse_RFC3339 central_europe 0 true (Some (s ++ [x00])) = Ok (MkTimespec 951778800 5) /\
    ipfs_util_time_parse_RFC3339 central_europe 77 true (Some (s ++ [x00])) = Ok (MkTimespec 951775200 5).
Proof.
  destruct (time_text_roundtrip 951782400 5 central_europe (MkTm 2000 1 29 0 0 0 0)) as [H _]; [reflexivity | lia |].
  destruct H as (s & Hf & _ & Hp); [cbn; lia |]. exists s. split; [exact Hf |].
  split; [exact (proj1 (Hp 0 [])) | exact (proj1 (Hp 77 []))].
Defined.
