(* ===== verification/Path.v ===== *)
(** Paths (src/path/path.c): splitting, joining, cleaning and parsing. *)

From S2P Require Import Prelude Libc Errs.

(** ** Operations *)

(** The string behind a hash: it has to have a terminator. [None]: NULL. *)
Definition ipfs_path_from_cid (hash : option bytes) : cres unit bytes :=
  match hash with
  | None => Undef
  | Some hash => if decide (cstring hash) then Undef else Ok (str "/ipfs/" ++ c_str hash)
  end.

(** One more than the delimiters of [c]. An empty delimiter is found for ever. *)
Fixpoint count_parts (fuel : nat) (delim c : bytes) : cres unit nat :=
  match fuel with
  | O => NoFuel
  | S fuel =>
      match strstr c delim with
      | None => Ok 1%nat
      | Some k => S <$> count_parts fuel delim (drop (k + length delim) c)
      end
  end.

(** The first [n] parts; what is behind them is lost. *)
Fixpoint split_parts (n : nat) (delim c : bytes) : list bytes :=
  match n with
  | O => []
  | S n =>
      match strstr c delim with
      | None => [c]
      | Some k => take k c :: split_parts n delim (drop (k + length delim) c)
      end
  end.

(** [Ok None]: NULL. *)
Definition ipfs_path_split_n (p delim : bytes) (n : Z) : cres unit (option (list bytes)) :=
  if n =? 0 then Ok None
  else if n <? 0 then
    n ← count_parts (S (length p)) delim p;
    Ok (Some (split_parts n delim p))
  else if 2 ^ 31 - 2 <=? n then Undef
  else Ok (Some (split_parts (Z.to_nat (n + 1)) delim p)).

Definition ipfs_path_split_segments (p : bytes) : cres unit (option (list bytes)) :=
  match p with
  | c :: rest => ipfs_path_split_n (if decide (c = slash) then rest else p) [slash] (-1)
  | [] => ipfs_path_split_n p [slash] (-1)
  end.

Definition ipfs_path_segments_length (s : option (list bytes)) : Z :=
  match s with
  | Some s => len s
  | None => 0
  end.

(** [strncat(r, x, l - strlen(r))]. *)
Definition cat_room (l : Z) (r x : bytes) : bytes := r ++ btake (l - len r) x.
Definition ends_with_slash (r : bytes) : bool := bool_decide (last r = Some slash).

(** One element of the path. [l]: the room in the buffer. *)
Definition clean_element (l : Z) (r p : bytes) : bytes :=
  match p, r with
  | [], [] => btake l (str "/")
  | _, _ =>
      if decide (p = str "..") then
        match strrchr r slash with
        | Some s => if decide (s = O) then r else take s r
        | None => r
        end
      else
        match p with
        | [] => r
        | c :: _ =>
            if decide (c = slash \/ p = str ".") then r
            else
              let r := match r with
                       | [] => cat_room l r (str "./")
                       | _ => if ends_with_slash r then r else cat_room l r (str "/")
                       end in
              cat_room l r p
        end
  end.

Definition ipfs_path_clean_path (s : bytes) : cres unit bytes :=
  let l := len s + 2 in
  path ← ipfs_path_split_n s [slash] (-1);
  match path with
  | None => Err ()
  | Some path => Ok (foldl (clean_element l) [] path)
  end.

Definition ipfs_path_is_just_a_key (p : bytes) : cres unit bool :=
  parts ← ipfs_path_split_segments p;
  match parts with
  | Some ((first :: _) as parts) =>
      Ok ((ipfs_path_segments_length (Some parts) =? 2) && str_eq first (str "ipfs"))
  | _ => Ok false
  end.

(** The path afterwards and the last segment; [None]: the path is just a key, and
    the caller's pointer is not set. *)
Definition ipfs_path_pop_last_segment (p : bytes) : cres ErrsIdx (bytes * option bytes) :=
  match ipfs_path_is_just_a_key p with
  | Ok true => Ok (p, None)
  | Ok false =>
      match strrchr p slash with
      | None => Err ErrBadPath
      | Some i => Ok (take i p, Some (drop (S i) p))
      end
  | Err _ | Undef => Undef
  | NoFuel => NoFuel
  end.

(** [None]: a NULL argument, and NULL is returned. *)
Definition ipfs_path_from_segments (prefix : option bytes) (seg : option (list bytes))
  : option bytes :=
  match prefix, seg with
  | Some prefix, Some seg =>
      let retlen := foldr (fun s n => len s + 1 + n) (len prefix) seg in
      Some (foldl (fun ret s => cat_room retlen (cat_room retlen ret (str "/")) s)
                  (btake retlen prefix) seg)
  | _, _ => None
  end.

(** The decoding of the CID is commented out: [c] stays NULL. The results are what
    is written to [dst]. *)
Definition ipfs_path_parse_from_cid (txt : option bytes) : cres ErrsIdx bytes :=
  match txt with
  | None | Some [] => Err ErrNoComponents
  | Some _ =>
      let c : option (option bytes) := None in
      match c with
      | None => Err ErrCidDecode
      | Some hash => on_err (ipfs_path_from_cid hash) ErrCidDecode
      end
  end.

Fixpoint count_char (c : byte) (s : bytes) : Z :=
  match s with
  | [] => 0
  | x :: s => (if decide (x = c) then 1 else 0) + count_char c s
  end.

(** What is written to [dst] and from which offset; nothing for a name. *)
Definition ipfs_path_parse (txt : option bytes) : cres ErrsIdx (option bytes) :=
  let prefix := str "/ipfs/" in
  match txt with
  | None | Some [] => Err ErrNoComponents
  | Some ((c :: rest) as txt) =>
      if bool_decide (c <> slash) || bool_decide (strchr rest slash = None) then
        r ← ipfs_path_parse_from_cid (Some (if decide (c = slash) then rest else txt));
        Ok (Some (prefix ++ r))
      else if count_char slash txt <? 3 then Err ErrBadPath
      else if str_eq txt prefix then
        let buf := drop 6 txt in
        let buf := match strchr buf slash with
                   | Some i => take i buf
                   | None => buf
                   end in
        Some <$> ipfs_path_parse_from_cid (Some buf)
      else if negb (str_eq txt (str "/ipns/")) then Err ErrBadPath
      else Ok None
  end.

Definition ipfs_path_is_valid (p : option bytes) : cres ErrsIdx unit :=
  _ ← ipfs_path_parse p;
  Ok ().

(** * Properties *)

(** ** Splitting and joining *)

Fixpoint join (d : bytes) (ps : list bytes) : bytes :=
  match ps with
  | [] => []
  | [p] => p
  | p :: ps => p ++ d ++ join d ps
  end.

Lemma join_cons d p ps : ps <> [] -> join d (p :: ps) = p ++ d ++ join d ps.
Proof. destruct ps; [congruence | reflexivity]. Qed.

Lemma strstr_some s d k :
  strstr s d = Some k -> s = take k s ++ d ++ drop (k + length d) s.
Proof.
  revert k. induction s as [| x s IH]; intros k; cbn [strstr].
  - destruct (starts_with d []) eqn:Hs; [| discriminate]. intros [= <-].
    apply starts_with_spec in Hs as [r Hr]. symmetry in Hr. apply app_nil in Hr as [-> _]. reflexivity.
  - destruct (starts_with d (x :: s)) eqn:Hs; intros H.
    + simplify_eq. apply starts_with_spec in Hs as [r ->]. cbn.
      rewrite drop_app_length. reflexivity.
    + destruct (strstr s d) eqn:E; [| discriminate]. cbn in H. simplify_eq. cbn.
      f_equal. apply IH. reflexivity.
Qed.

Lemma strstr_bound s d k : strstr s d = Some k -> (k + length d <= length s)%nat.
Proof.
  revert k. induction s as [| x s IH]; intros k; cbn [strstr].
  - destruct (starts_with d []) eqn:Hs; [| discriminate]. intros [= <-].
    apply starts_with_spec in Hs as [r Hr]. symmetry in Hr. apply app_nil in Hr as [-> _]. cbn. lia.
  - destruct (starts_with d (x :: s)) eqn:Hs; intros H.
    + simplify_eq. apply starts_with_spec in Hs as [r ->]. rewrite length_app. lia.
    + destruct (strstr s d) eqn:E; [| discriminate]. cbn in H. simplify_eq. cbn.
      specialize (IH _ eq_refl). lia.
Qed.

(** The delimiter found is the first one. *)
Lemma strstr_first s d k : d <> [] -> strstr s d = Some k -> strstr (take k s) d = None.
Proof.
  intros Hd. assert (Hn : strstr [] d = None) by (destruct d; [congruence | reflexivity]).
  revert k. induction s as [| x s IH]; intros k; cbn [strstr].
  - destruct (starts_with d []); intros; simplify_eq; apply Hn.
  - destruct (starts_with d (x :: s)) eqn:Hs; intros H; [simplify_eq; apply Hn |].
    destruct (strstr s d) as [j |] eqn:E; [| discriminate]. cbn in H. simplify_eq. cbn [take strstr].
    replace (starts_with d (x :: take j s)) with false; [rewrite IH by reflexivity; reflexivity |].
    symmetry. apply not_true_iff_false. intros Ht. apply starts_with_spec in Ht as [r Hr].
    rewrite <- (take_drop j s), app_comm_cons, Hr, <- app_assoc, starts_with_app in Hs. discriminate.
Qed.

Section Split.
Context (d : bytes) (d_some : d <> []).

Lemma count_parts_ok fuel c :
  (length c < fuel)%nat -> exists n, count_parts fuel d c = Ok n.
Proof using d_some.
  revert c. induction fuel as [| fuel IH]; intros c Hf; [lia |]. cbn.
  destruct (strstr c d) as [k |] eqn:E; [| eauto].
  destruct (IH (drop (k + length d) c)) as (n & ->).
  - apply strstr_bound in E. rewrite length_drop. destruct d; [congruence | cbn in *; lia].
  - cbn. eauto.
Qed.
Lemma count_parts_pos fuel c n : count_parts fuel d c = Ok n -> (1 <= n)%nat.
Proof.
  destruct fuel as [| fuel]; cbn; [discriminate |]. destruct (strstr c d); [| intros [= <-]; lia].
  destruct (count_parts fuel d _); cbn; intros H; try discriminate. simplify_eq. lia.
Qed.

(** As many parts as there are: all of the string, cut at every delimiter. *)
Lemma split_all fuel c n :
  count_parts fuel d c = Ok n ->
  join d (split_parts n d c) = c /\ length (split_parts n d c) = n /\
  Forall (fun p => strstr p d = None) (split_parts n d c).
Proof using d_some.
  revert c n. induction fuel as [| fuel IH]; intros c n; cbn; [discriminate |].
  destruct (strstr c d) as [k |] eqn:E.
  - destruct (count_parts fuel d _) as [m | | |] eqn:Em; cbn; try discriminate.
    intros [= <-]. pose proof Em as Ep. apply IH in Em as (Hj & Hl & Hf). cbn. rewrite E. cbn [length].
    split_and!; [| congruence | constructor; [by eapply strstr_first | exact Hf]].
    rewrite join_cons, Hj; [symmetry; by apply strstr_some |].
    apply count_parts_pos in Ep. intros Hx. rewrite Hx in Hl. cbn in Hl. lia.
  - intros [= <-]. cbn. rewrite E. auto.
Qed.
End Split.

Lemma split_n_all p d :
  d <> [] ->
  exists parts, ipfs_path_split_n p d (-1) = Ok (Some parts) /\ parts <> [] /\
                join d parts = p /\ Forall (fun x => strstr x d = None) parts.
Proof.
  intros Hd. unfold ipfs_path_split_n. cbn [Z.eqb Z.ltb Z.compare].
  destruct (count_parts_ok d Hd (S (length p)) p ltac:(lia)) as (n & Hn).
  destruct (split_all d Hd _ _ _ Hn) as (Hj & Hl & Hf). apply count_parts_pos in Hn as Hp.
  rewrite Hn. cbn. exists (split_parts n d p). split_and!; try done.
  intros E. rewrite E in Hl. cbn in Hl. lia.
Qed.

Lemma strstr_char s c : strstr s [c] = strchr s c.
Proof.
  induction s as [| x s IH]; [reflexivity |]. cbn [strstr strchr starts_with]. rewrite IH.
  destruct (decide (x = c)) as [-> |]; [rewrite bool_decide_eq_true_2 by reflexivity; reflexivity |].
  rewrite bool_decide_eq_false_2 by congruence. reflexivity.
Qed.
Lemma strchr_none s c : strchr s c = None <-> c ∉ s.
Proof.
  induction s as [| x s IH]; [split; [intros; apply not_elem_of_nil | reflexivity] |].
  cbn. rewrite not_elem_of_cons. destruct (decide (x = c)) as [-> |].
  - split; [discriminate | tauto].
  - destruct (strchr s c); cbn; split.
    + discriminate.
    + intros [_ H]. apply IH in H. discriminate.
    + intros _. split; [congruence | by apply IH].
    + reflexivity.
Qed.

(** There is one way to take a string apart at a character. *)
Lemma join_char_inj c a b :
  a <> [] -> b <> [] -> Forall (fun x => c ∉ x) a -> Forall (fun x => c ∉ x) b ->
  join [c] a = join [c] b -> a = b.
Proof.
  assert (Hs : forall x y r, c ∉ x -> c ∉ y -> x ++ c :: r <> y).
  { intros x y r Hx Hy <-. apply Hy. apply elem_of_app. right. left. }
  revert b. induction a as [| x a IH]; intros b Ha Hb Fa Fb He; [congruence |].
  destruct b as [| y b]; [congruence |].
  apply Forall_cons in Fa as [Hx Fa]. apply Forall_cons in Fb as [Hy Fb].
  destruct a as [| x' a], b as [| y' b].
  - cbn in He. congruence.
  - rewrite (join_cons _ y) in He by discriminate. symmetry in He. by apply Hs in He.
  - rewrite (join_cons _ x) in He by discriminate. by apply Hs in He.
  - rewrite !join_cons in He by discriminate. cbn in He.
    assert (E : length x = length y).
    { pose proof (f_equal (fun l => strchr l c) He) as E. cbn beta in E.
      rewrite !strchr_app in E by assumption. congruence. }
    apply app_inj_1 in He as [-> He]; [| exact E]. simplify_eq.
    f_equal. apply IH; auto; discriminate.
Qed.

Lemma split_char_join c parts :
  parts <> [] -> Forall (fun x => c ∉ x) parts ->
  ipfs_path_split_n (join [c] parts) [c] (-1) = Ok (Some parts).
Proof.
  intros Hp Hf. destruct (split_n_all (join [c] parts) [c] ltac:(discriminate))
    as (ps & -> & Hn & Hj & Hs). do 2 f_equal. apply (join_char_inj c); auto.
  eapply Forall_impl; [exact Hs |]. intros x. cbn beta. rewrite strstr_char. apply strchr_none.
Qed.

(** Every string is the join of the parts it is split in. *)
Lemma split_char p c :
  exists parts, ipfs_path_split_n p [c] (-1) = Ok (Some parts) /\ parts <> [] /\
                p = join [c] parts /\ Forall (fun x => c ∉ x) parts.
Proof.
  destruct (split_n_all p [c] ltac:(discriminate)) as (ps & H & Hn & Hj & Hs).
  exists ps. split_and!; auto. eapply Forall_impl; [exact Hs |]. intros x. cbn beta.
  rewrite strstr_char. apply strchr_none.
Qed.

(** ** Segments *)

Lemma cat_room_fits l r x : len r + len x <= l -> cat_room l r x = r ++ x.
Proof. intros H. unfold cat_room. rewrite btake_all by lia. reflexivity. Qed.

(** Nothing is cut off. *)
Lemma from_segments_spec prefix seg :
  ipfs_path_from_segments (Some prefix) (Some seg) =
  Some (prefix ++ concat (map (fun s => slash :: s) seg)).
Proof.
  unfold ipfs_path_from_segments. f_equal.
  set (retlen := foldr _ _ _).
  assert (H : forall r, len r + foldr (fun s n => len s + 1 + n) 0 seg <= retlen ->
            foldl (fun ret s => cat_room retlen (cat_room retlen ret (str "/")) s) r seg =
            r ++ concat (map (fun s => slash :: s) seg)).
  { clearbody retlen. induction seg as [| s seg IH]; intros r Hr.
    - cbn. rewrite app_nil_r. reflexivity.
    - cbn [foldl foldr map concat] in *.
      assert (0 <= foldr (fun s n => len s + 1 + n) 0 seg)
        by (clear; induction seg; cbn; len_lia).
      change (str "/") with [slash].
      rewrite (cat_room_fits _ r), (cat_room_fits _ (r ++ [slash])), IH by len_lia.
      cbn. rewrite <- !app_assoc. reflexivity. }
  assert (E : retlen = len prefix + foldr (fun s n => len s + 1 + n) 0 seg)
    by (unfold retlen; clear; induction seg; cbn in *; lia).
  rewrite btake_all by (rewrite E; assert (0 <= foldr (fun s n => len s + 1 + n) 0 seg)
    by (clear; induction seg; cbn; len_lia); lia).
  apply H. lia.
Qed.

(** ** Cleaning

    What the loop over the elements computes, on the elements: where the path
    starts and the elements kept. *)
Inductive start := Unset | Rooted | Relative.
Definition clean_state : Type := start * list bytes.

Definition clean_step (st : clean_state) (p : bytes) : clean_state :=
  let '(b, stack) := st in
  if decide (p = []) then (match b with Unset => Rooted | _ => b end, stack)
  else if decide (p = str ".") then st
  else if decide (p = str "..") then
    match b with
    | Unset => st
    | Rooted => (b, if decide (length stack <= 1)%nat then stack else removelast stack)
    | Relative => (b, removelast stack)
    end
  else (match b with Unset => Relative | _ => b end, stack ++ [p]).

Definition clean_text (st : clean_state) : bytes :=
  match st with
  | (Unset, _) => []
  | (Rooted, stack) => slash :: join [slash] stack
  | (Relative, stack) => str "." ++ concat (map (fun s => slash :: s) stack)
  end.

(** Only proper names are kept. *)
Definition proper (p : bytes) : bool :=
  bool_decide (slash ∉ p) &&
  negb (bool_decide (p = []) || bool_decide (p = str ".") || bool_decide (p = str "..")).
Definition clean_ok (st : clean_state) : Prop :=
  Forall (fun p => proper p = true) (snd st) /\ (fst st = Unset -> snd st = []).

Lemma proper_spec p :
  proper p = true <-> (slash ∉ p) /\ p <> [] /\ p <> str "." /\ p <> str "..".
Proof.
  unfold proper. rewrite andb_true_iff, negb_true_iff, !orb_false_iff, bool_decide_eq_true,
    !bool_decide_eq_false. tauto.
Qed.

Lemma clean_step_ok st p : clean_ok st -> slash ∉ p -> clean_ok (clean_step st p).
Proof.
  destruct st as [b stack]. intros [Hf Hu] Hp. cbn in Hf, Hu. unfold clean_step.
  assert (Hr : Forall (fun p => proper p = true) (removelast stack)).
  { rewrite removelast_firstn_len. by apply Forall_take. }
  repeat case_decide; destruct b; split; cbn; auto; try discriminate.
  all: apply Forall_app; split; [assumption |]; apply Forall_singleton, proper_spec; auto.
Qed.

Lemma join_snoc d ps p : ps <> [] -> join d (ps ++ [p]) = join d ps ++ d ++ p.
Proof.
  induction ps as [| q ps IH]; intros H; [congruence |]. destruct ps as [| q' ps]; [reflexivity |].
  change ((q :: q' :: ps) ++ [p]) with (q :: ((q' :: ps) ++ [p])).
  rewrite !join_cons, IH by (try destruct ps; discriminate). rewrite <- !app_assoc. reflexivity.
Qed.

Lemma strrchr_app a c r : c ∉ r -> strrchr (a ++ c :: r) c = Some (length a).
Proof.
  intros Hr. assert (Hn : strrchr r c = None).
  { clear a. induction r as [| x r IH]; [reflexivity |]. apply not_elem_of_cons in Hr as [Hx Hr].
    cbn. rewrite IH, decide_False by congruence. reflexivity. }
  induction a as [| x a IH]; cbn; [rewrite Hn, decide_True by reflexivity; reflexivity |].
  rewrite IH. reflexivity.
Qed.

(** What goes between the text so far and the next name. *)
Definition sep (st : clean_state) : bytes :=
  match st with
  | (Rooted, []) => []
  | _ => [slash]
  end.

Lemma text_snoc b stack p :
  b <> Unset -> clean_text (b, stack ++ [p]) = clean_text (b, stack) ++ sep (b, stack) ++ p.
Proof.
  intros Hb. destruct b; [congruence | |]; cbn [clean_text].
  - destruct stack as [| q stack]; [reflexivity |].
    rewrite join_snoc by discriminate. reflexivity.
  - rewrite map_app, concat_app, <- !app_assoc. cbn. rewrite app_nil_r. reflexivity.
Qed.

(** The text ends with a slash when there is nothing behind the root. *)
Lemma text_ends b stack :
  b <> Unset -> Forall (fun p => proper p = true) stack ->
  ends_with_slash (clean_text (b, stack)) = bool_decide (sep (b, stack) = []).
Proof.
  intros Hb Hf. unfold ends_with_slash. destruct (decide (stack = [])) as [-> | Hs].
  { destruct b; [congruence | reflexivity | reflexivity]. }
  destruct (exists_last Hs) as (st & p & ->). apply Forall_app in Hf as [_ Hp].
  apply Forall_singleton, proper_spec in Hp as (Hp & Hn & _).
  destruct (exists_last Hn) as (q & c & ->). rewrite text_snoc by assumption.
  rewrite !app_assoc, last_snoc. rewrite !bool_decide_eq_false_2; [reflexivity | |].
  - destruct b, st; discriminate.
  - intros [= ->]. apply Hp. apply elem_of_app. right. left.
Qed.

(** Going up: the last slash is in front of the last name. *)
Lemma text_up b stack :
  clean_ok (b, stack) ->
  match strrchr (clean_text (b, stack)) slash with
  | Some i => if decide (i = O) then clean_text (b, stack) else take i (clean_text (b, stack))
  | None => clean_text (b, stack)
  end = clean_text (clean_step (b, stack) (str "..")).
Proof.
  intros [Hf Hu]. cbn in Hf, Hu. unfold clean_step. cbn -[clean_text strrchr].
  rewrite !decide_False by discriminate. rewrite decide_True by reflexivity.
  destruct (decide (stack = [])) as [-> | Hs].
  { destruct b; reflexivity. }
  destruct (exists_last Hs) as (st & p & ->). apply Forall_app in Hf as [_ Hp].
  apply Forall_singleton, proper_spec in Hp as (Hp & _).
  rewrite removelast_last. destruct b.
  - exfalso. apply Hs, Hu. reflexivity.
  - destruct st as [| q st].
    { rewrite decide_True by (cbn; lia). cbn [app clean_text join].
      pose proof (strrchr_app [] slash p Hp) as E. cbn [app] in E. rewrite E. reflexivity. }
    rewrite decide_False by (cbn; rewrite length_app; cbn; lia).
    rewrite text_snoc by discriminate. cbn [sep]. cbn [app].
    rewrite strrchr_app by exact Hp. rewrite decide_False by discriminate.
    apply take_app_length.
  - rewrite text_snoc by discriminate. cbn [sep app].
    rewrite strrchr_app by exact Hp. rewrite decide_False by discriminate.
    apply take_app_length.
Qed.

(** One turn of the loop. *)
Lemma clean_element_step l st p :
  clean_ok st -> slash ∉ p -> 2 <= l ->
  len (clean_text st) + 1 + len p <= l + match st with (Unset, _) => -1 | _ => 0 end ->
  clean_element l (clean_text st) p = clean_text (clean_step st p).
Proof.
  intros Hok Hp Hl Hroom. destruct st as [b stack]. destruct (decide (p = [])) as [-> | Hn].
  { destruct b; [| reflexivity | reflexivity].
    pose proof (proj2 Hok eq_refl) as Hs. cbn in Hs. subst stack. cbn [clean_text clean_element].
    rewrite btake_all by (change (len (str "/")) with 1; lia). reflexivity. }
  destruct p as [| c p]; [congruence |]. destruct (decide (c :: p = str "..")) as [-> | Hu].
  { rewrite <- text_up by exact Hok. unfold clean_element. rewrite decide_True by reflexivity. reflexivity. }
  unfold clean_element. destruct (clean_text (b, stack)) as [| t0 text] eqn:Et.
  - destruct b; try discriminate. pose proof (proj2 Hok eq_refl) as Hs. cbn in Hs. subst stack.
    rewrite decide_False by exact Hu. unfold clean_step.
    rewrite (decide_False (P := c :: p = [])), (decide_False (P := c :: p = str "..")) by assumption.
    destruct (decide (c :: p = str ".")) as [-> |]; [by rewrite decide_True by tauto |].
    rewrite decide_False by (intros [-> |]; [apply Hp; left | tauto]).
    change (len (clean_text (Unset, []))) with 0 in Hroom.
    assert (H2 : len (str "./") = 2) by reflexivity. pose_len.
    rewrite (cat_room_fits l []) by (len_nils; lia). cbn [app].
    rewrite cat_room_fits by lia.
    cbn. rewrite app_nil_r. reflexivity.
  - assert (Hb : b <> Unset) by (intros ->; discriminate Et).
    rewrite decide_False by exact Hu. unfold clean_step.
    rewrite (decide_False (P := c :: p = [])), (decide_False (P := c :: p = str "..")) by assumption.
    destruct (decide (c :: p = str ".")) as [-> |]; [by rewrite decide_True, Et by tauto |].
    rewrite decide_False by (intros [-> |]; [apply Hp; left | tauto]).
    replace (match b with Unset => Relative | _ => b end) with b by (destruct b; congruence).
    rewrite text_snoc, <- Et by exact Hb. rewrite <- Et in Hroom.
    rewrite text_ends by (assumption || apply Hok).
    assert (Hr : len (clean_text (b, stack)) + 1 + len (c :: p) <= l) by (destruct b; lia).
    case_bool_decide as Hsep.
    { rewrite Hsep. cbn [app]. apply cat_room_fits. lia. }
    replace (sep (b, stack)) with [slash] by (destruct b, stack; cbn in Hsep |- *; congruence).
    change (str "/") with [slash]. assert (H1 : len [slash] = 1) by reflexivity. pose_len.
    rewrite (cat_room_fits _ (clean_text _)) by lia.
    rewrite cat_room_fits by (rewrite len_app; lia). by rewrite <- app_assoc.
Qed.

(** The room each element may need. *)
Definition cost (ps : list bytes) : Z := foldr (fun p n => 1 + len p + n) 0 ps.
Lemma cost_join ps : ps <> [] -> cost ps = len (join [slash] ps) + 1.
Proof.
  induction ps as [| p ps IH]; intros H; [congruence |]. destruct ps as [| q ps].
  - cbn. lia.
  - rewrite join_cons by discriminate. change (cost (p :: q :: ps)) with (1 + len p + cost (q :: ps)).
    rewrite IH by discriminate. rewrite !len_app, len_cons. len_nils. lia.
Qed.

Lemma cost_nonneg ps : 0 <= cost ps.
Proof. induction ps as [| p ps IH]; [reflexivity |]. cbn. pose_len. unfold cost in *. lia. Qed.

(** The first slash or dot is not paid for by a separator. *)
Definition slack (st : clean_state) : Z := match st with (Unset, _) => -1 | _ => 0 end.

Lemma len_take {A} n (l : list A) : len (take n l) <= len l.
Proof. unfold len. rewrite length_take. lia. Qed.

Lemma clean_step_len st p :
  clean_ok st ->
  len (clean_text (clean_step st p)) - slack (clean_step st p) <=
  len (clean_text st) - slack st + 1 + len p.
Proof.
  intros Hok. destruct st as [b stack]. pose proof (len_nonneg p) as Hl.
  destruct (decide (p = str "..")) as [-> | Hu].
  - assert (Hs : slack (clean_step (b, stack) (str "..")) = slack (b, stack)) by (destruct b; reflexivity).
    rewrite Hs, <- text_up by exact Hok. pose_len.
    destruct (strrchr _ _) as [i |]; [case_decide |]; try lia.
    pose proof (len_take i (clean_text (b, stack))). lia.
  - unfold clean_step. rewrite (decide_False (P := p = str "..")) by exact Hu.
    case_decide as Hn; [| case_decide; [lia |]].
    + subst. destruct b; cbn [slack]; try (len_nils; lia).
      destruct Hok as [_ Hs]. cbn in Hs. rewrite Hs by reflexivity. cbn. autorewrite with len. len_nils. lia.
    + destruct b; [destruct Hok as [_ Hs]; cbn in Hs; rewrite Hs by reflexivity | |].
      * cbn. autorewrite with len. len_nils. lia.
      * rewrite text_snoc by discriminate. rewrite !len_app. cbn [slack].
        destruct stack; cbn [sep]; autorewrite with len; lia.
      * rewrite text_snoc by discriminate. rewrite !len_app. cbn [slack sep]. autorewrite with len. lia.
Qed.

Lemma clean_loop l ps st :
  clean_ok st -> Forall (fun p => slash ∉ p) ps -> 2 <= l ->
  len (clean_text st) + cost ps <= l + slack st ->
  foldl (clean_element l) (clean_text st) ps = clean_text (foldl clean_step st ps).
Proof.
  revert st. induction ps as [| p ps IH]; intros st Hok Hf Hl Hr; [reflexivity |].
  apply Forall_cons in Hf as [Hp Hf]. pose proof (cost_nonneg ps).
  change (cost (p :: ps)) with (1 + len p + cost ps) in Hr. cbn [foldl].
  rewrite clean_element_step by (try assumption; unfold slack in Hr; lia).
  apply IH; auto using clean_step_ok.
  pose proof (clean_step_len st p Hok). lia.
Qed.

Lemma clean_path_parts ps :
  ps <> [] -> Forall (fun p => slash ∉ p) ps ->
  ipfs_path_clean_path (join [slash] ps) = Ok (clean_text (foldl clean_step (Unset, []) ps)).
Proof.
  intros Hn Hf. unfold ipfs_path_clean_path. rewrite split_char_join by assumption.
  cbn [mbind cres_bind]. f_equal.
  pose proof (cost_join ps Hn). pose proof (len_nonneg (join [slash] ps)).
  apply (clean_loop _ _ (Unset, [])); [split; [constructor | reflexivity] | assumption | lia |].
  cbn [clean_text slack]. len_nils. lia.
Qed.

Lemma clean_fold_ok ps st :
  Forall (fun p => slash ∉ p) ps -> clean_ok st -> clean_ok (foldl clean_step st ps).
Proof.
  revert st. induction ps as [| p ps IH]; intros st Hf Hok; [exact Hok |].
  apply Forall_cons in Hf as [Hp Hf]. cbn. apply IH; auto using clean_step_ok.
Qed.

Lemma clean_fold_proper b stack ps :
  b <> Unset -> Forall (fun p => proper p = true) ps ->
  foldl clean_step (b, stack) ps = (b, stack ++ ps).
Proof.
  intros Hb. revert stack. induction ps as [| p ps IH]; intros stack Hf; cbn.
  - rewrite app_nil_r. reflexivity.
  - apply Forall_cons in Hf as [Hp Hf]. apply proper_spec in Hp as (_ & H1 & H2 & H3).
    rewrite !decide_False by assumption.
    replace (match b with Unset => Relative | _ => b end) with b by (destruct b; congruence).
    rewrite IH, <- app_assoc by exact Hf. reflexivity.
Qed.

Lemma join_concat d p ps : join d (p :: ps) = p ++ concat (map (fun s => d ++ s) ps).
Proof.
  revert p. induction ps as [| q ps IH]; intros p; [cbn; by rewrite app_nil_r |].
  rewrite join_cons, IH by discriminate. cbn. by rewrite <- app_assoc.
Qed.

(** Cleaning a cleaned path with a name in it. *)
Lemma clean_text_clean b stack :
  b <> Unset -> stack <> [] -> Forall (fun p => proper p = true) stack ->
  ipfs_path_clean_path (clean_text (b, stack)) = Ok (clean_text (b, stack)).
Proof.
  intros Hb Hs Hf.
  assert (Hsl : Forall (fun p => slash ∉ p) stack)
    by (eapply Forall_impl; [exact Hf |]; intros p Hp; apply proper_spec in Hp; apply Hp).
  set (first := match b with Rooted => [] | _ => str "." end).
  assert (E : clean_text (b, stack) = join [slash] (first :: stack)).
  { destruct b; [congruence | |]; subst first.
    - rewrite join_cons by exact Hs. reflexivity.
    - rewrite join_concat. reflexivity. }
  rewrite E, clean_path_parts; [| discriminate |].
  - rewrite <- E. do 2 f_equal. cbn [foldl]. subst first. destruct b; [congruence | |].
    + change (clean_step (Unset, []) []) with (Rooted, @nil bytes).
      by rewrite clean_fold_proper.
    + destruct stack as [| p stack]; [congruence |]. apply Forall_cons in Hf as [Hp Hf].
      apply proper_spec in Hp as (_ & H1 & H2 & H3).
      change (clean_step (Unset, []) (str ".")) with (Unset, @nil bytes). cbn [foldl].
      assert (Ep : clean_step (Unset, []) p = (Relative, [p]))
        by (unfold clean_step; by rewrite !decide_False by assumption).
      rewrite Ep. by rewrite clean_fold_proper.
  - constructor; [| exact Hsl]. destruct b; subst first; try apply not_elem_of_nil; apply strchr_none; reflexivity.
Qed.

(** ** Properties *)

(** C29: [ipfs_path_clean_path] computes, on every path, what the walk over its
    elements computes: empty elements and dots are dropped, [..] drops the name
    before it except the first one of a rooted path, and no text is ever cut off by
    the room in the buffer. The names left are proper, and cleaning a cleaned path
    that has one gives it back. *)
Theorem clean_path_spec s ps :
  ipfs_path_split_n s [slash] (-1) = Ok (Some ps) ->
  let st := foldl clean_step (Unset, []) ps in
  ipfs_path_clean_path s = Ok (clean_text st) /\ clean_ok st /\
  (snd st <> [] -> ipfs_path_clean_path (clean_text st) = Ok (clean_text st)).
Proof.
  destruct (split_char s slash) as (qs & Hq & Hn & -> & Hf). rewrite Hq. intros [= <-].
  assert (Hok : clean_ok (foldl clean_step (Unset, []) qs))
    by (apply clean_fold_ok; [exact Hf | split; [constructor | reflexivity]]).
  cbn zeta. split; [by apply clean_path_parts | split; [exact Hok |]].
  destruct (foldl clean_step (Unset, []) qs) as [b stack]. destruct Hok as [Hp Hu]. intros Hs.
  cbn in *. apply clean_text_clean; auto.
Qed.
Lemma clean_path_spec_witness :
  ipfs_path_clean_path (str "/a//b/./c/../d/") = Ok (str "/a/b/d") /\
  ipfs_path_clean_path (str "/a/b/d") = Ok (str "/a/b/d").
Proof.
  pose proof (clean_path_spec (str "/a//b/./c/../d/")
    [[]; str "a"; []; str "b"; str "."; str "c"; str ".."; str "d"; []] eq_refl) as (H & _ & Hi).
  split; [exact H | apply Hi; discriminate].
Defined.

(** A path of names and the names of a path. *)
Lemma segments_text s segs :
  Forall (fun p => slash ∉ p) (s :: segs) ->
  ipfs_path_split_segments (concat (map (fun p => slash :: p) (s :: segs))) =
  Ok (Some (s :: segs)).
Proof.
  intros Hf. cbn [map concat app].
  pose proof (join_concat [slash] s segs) as E. cbn [app] in E. rewrite <- E.
  unfold ipfs_path_split_segments. rewrite decide_True by reflexivity.
  apply split_char_join; [discriminate | exact Hf].
Qed.

(** Joining segments without slashes with [ipfs_path_from_segments] and splitting
    the path with [ipfs_path_split_segments] gives the segments back, whatever they
    are; [ipfs_path_pop_last_segment] takes the last one of them off, unless there
    are two and the first is [ipfs]. *)
Theorem path_segments_roundtrip segs last :
  Forall (fun p => slash ∉ p) (segs ++ [last]) ->
  exists path,
    ipfs_path_from_segments (Some []) (Some (segs ++ [last])) = Some path /\
    ipfs_path_split_segments path = Ok (Some (segs ++ [last])) /\
    ipfs_path_pop_last_segment path =
      if decide (segs = [str "ipfs"]) then Ok (path, None)
      else Ok (default [] (ipfs_path_from_segments (Some []) (Some segs)), Some last).
Proof.
  intros Hf. rewrite !from_segments_spec. cbn [app default].
  set (path := concat _). exists path. split; [reflexivity |].
  assert (Hs : ipfs_path_split_segments path = Ok (Some (segs ++ [last]))).
  { subst path. destruct segs as [| s segs]; apply segments_text; auto. }
  split; [exact Hs |]. unfold ipfs_path_pop_last_segment, ipfs_path_is_just_a_key. rewrite Hs.
  cbn [mbind cres_bind ipfs_path_segments_length].
  assert (Hpath : path = concat (map (fun s => slash :: s) segs) ++ slash :: last).
  { subst path. rewrite map_app, concat_app. cbn. by rewrite app_nil_r. }
  apply Forall_app in Hf as [_ Hl]. rewrite Forall_singleton in Hl.
  assert (Hr : strrchr path slash = Some (length (concat (map (fun s => slash :: s) segs))))
    by (rewrite Hpath; exact (strrchr_app _ _ _ Hl)).
  case_decide as Hk.
  - subst segs. cbn [app]. replace (str_eq _ _) with true by reflexivity.
    reflexivity.
  - destruct segs as [| s segs].
    + cbn [app]. replace (len [last] =? 2) with false by reflexivity. cbn [andb].
      rewrite Hr, Hpath. reflexivity.
    + cbn [app]. replace ((len (s :: segs ++ [last]) =? 2) && str_eq s (str "ipfs")) with false.
      * rewrite Hr, Hpath, take_app_length. cbn [app]. rewrite drop_app_ge by lia.
        do 3 f_equal. rewrite Nat.sub_succ_l, Nat.sub_diag by lia. reflexivity.
      * symmetry. apply andb_false_iff. destruct segs; [right | left].
        { apply bool_decide_eq_false_2. congruence. }
        apply Z.eqb_neq. len_lia.
Qed.
Lemma path_segments_roundtrip_witness :
  ipfs_path_split_segments (str "/a/b/c") = Ok (Some [str "a"; str "b"; str "c"]) /\
  ipfs_path_pop_last_segment (str "/a/b/c") = Ok (str "/a/b", Some (str "c")).
Proof.
  destruct (path_segments_roundtrip [str "a"; str "b"] (str "c")) as (p & [= <-] & Hs & Hp).
  - repeat constructor; apply strchr_none; reflexivity.
  - split; [exact Hs | exact Hp].
Defined.

(** No path is parsed. *)
Lemma path_parse_all txt :
  ipfs_path_parse txt =
  match txt with
  | None => Err ErrNoComponents
  | Some txt =>
      if decide (txt = [] \/ txt = [slash]) then Err ErrNoComponents
      else if decide (head txt <> Some slash \/ slash ∉ tail txt) then Err ErrCidDecode
      else Err ErrBadPath
  end /\
  ipfs_path_is_valid txt <> Ok ().
Proof.
  unfold ipfs_path_is_valid.
  set (r := match txt with None => _ | Some _ => _ end).
  assert (E : ipfs_path_parse txt = r); [| rewrite E; split; [reflexivity |]].
  2: { subst r. destruct txt; [repeat case_decide |]; discriminate. }
  subst r. destruct txt as [[| c rest] |]; [rewrite decide_True by auto | | ]; try reflexivity.
  unfold ipfs_path_parse. destruct (decide (c = slash)) as [-> | Hc].
  - rewrite bool_decide_eq_false_2 by congruence. cbn [orb head tail].
    destruct (decide (slash ∈ rest)) as [Hin | Hin].
    + rewrite bool_decide_eq_false_2 by (rewrite strchr_none; auto).
      rewrite decide_False by (intros [|]; [discriminate | simplify_eq; by apply not_elem_of_nil in Hin]).
      rewrite decide_False by (intros [|]; [congruence | auto]).
      destruct (count_char slash (slash :: rest) <? 3) eqn:Hn; [reflexivity |].
      apply Z.ltb_ge in Hn. unfold str_eq.
      rewrite bool_decide_eq_false_2 by (intros E; rewrite E in Hn; vm_compute in Hn; congruence).
      rewrite bool_decide_eq_false_2 by (intros E; rewrite E in Hn; vm_compute in Hn; congruence).
      reflexivity.
    + rewrite bool_decide_eq_true_2 by by rewrite strchr_none. destruct rest as [| x rest]; [by rewrite decide_True by auto |].
      rewrite decide_False by (intros [|]; discriminate). rewrite decide_True by auto. reflexivity.
  - rewrite bool_decide_eq_true_2 by exact Hc. cbn [orb].
    rewrite decide_False by (intros [|]; simplify_eq; auto).
    rewrite decide_True by (left; cbn; congruence). reflexivity.
Qed.
Lemma parse_outcome txt : exists e, ipfs_path_parse txt = Err e.
Proof. rewrite (proj1 (path_parse_all txt)). destruct txt; [repeat case_decide |]; eauto. Qed.

(** [ipfs_path_parse] accepts no path: nothing there and a slash alone have no
    components, text without a second slash is a CID that is not decoded, and every
    other path is a bad one, among them [/ipfs/] and a CID. *)
Theorem path_parse_spec txt :
  ipfs_path_parse txt =
  match txt with
  | None => Err ErrNoComponents
  | Some txt =>
      if decide (txt = [] \/ txt = [slash]) then Err ErrNoComponents
      else if decide (head txt <> Some slash \/ slash ∉ tail txt) then Err ErrCidDecode
      else Err ErrBadPath
  end /\
  ipfs_path_is_valid txt <> Ok ().
Proof. apply path_parse_all. Qed.
