(* ===== verification/Tlds.v ===== *)
(** The table of top level domains (include/ipfs/namesys/isdomain.h). *)

From S2P Require Import Prelude.

(** A row of the table: the domain in upper case and its condition. *)
Definition tlds : Type := bytes * Z.
Definition tld (s : String.string) : tlds := (str s, 1).

(** ICANN's domains in 2014, in the order of the table. *)
Definition TLDs_a_b : list tlds := [
  tld "AC"%string; tld "ACADEMY"%string; tld "ACCOUNTANTS"%string; tld "ACTIVE"%string;
  tld "ACTOR"%string; tld "AD"%string; tld "AE"%string; tld "AERO"%string; tld "AF"%string;
  tld "AG"%string; tld "AGENCY"%string; tld "AI"%string; tld "AIRFORCE"%string;
  tld "AL"%string; tld "ALLFINANZ"%string; tld "AM"%string; tld "AN"%string;
  tld "AO"%string; tld "AQ"%string; tld "AR"%string; tld "ARCHI"%string; tld "ARMY"%string;
  tld "ARPA"%string; tld "AS"%string; tld "ASIA"%string; tld "ASSOCIATES"%string;
  tld "AT"%string; tld "ATTORNEY"%string; tld "AU"%string; tld "AUCTION"%string;
  tld "AUDIO"%string; tld "AUTOS"%string; tld "AW"%string; tld "AX"%string;
  tld "AXA"%string; tld "AZ"%string; tld "BA"%string; tld "BAR"%string;
  tld "BARGAINS"%string; tld "BAYERN"%string; tld "BB"%string; tld "BD"%string;
  tld "BE"%string; tld "BEER"%string; tld "BERLIN"%string; tld "BEST"%string;
  tld "BF"%string; tld "BG"%string; tld "BH"%string; tld "BI"%string; tld "BID"%string;
  tld "BIKE"%string; tld "BIO"%string; tld "BIZ"%string; tld "BJ"%string;
  tld "BLACK"%string; tld "BLACKFRIDAY"%string; tld "BLUE"%string; tld "BM"%string;
  tld "BMW"%string; tld "BN"%string; tld "BNPPARIBAS"%string; tld "BO"%string;
  tld "BOO"%string; tld "BOUTIQUE"%string; tld "BR"%string; tld "BRUSSELS"%string;
  tld "BS"%string; tld "BT"%string; tld "BUDAPEST"%string; tld "BUILD"%string;
  tld "BUILDERS"%string; tld "BUSINESS"%string; tld "BUZZ"%string; tld "BV"%string;
  tld "BW"%string; tld "BY"%string; tld "BZ"%string; tld "BZH"%string].

Definition TLDs_c_f : list tlds := [
  tld "CA"%string; tld "CAB"%string; tld "CAL"%string; tld "CAMERA"%string;
  tld "CAMP"%string; tld "CANCERRESEARCH"%string; tld "CAPETOWN"%string;
  tld "CAPITAL"%string; tld "CARAVAN"%string; tld "CARDS"%string; tld "CARE"%string;
  tld "CAREER"%string; tld "CAREERS"%string; tld "CASA"%string; tld "CASH"%string;
  tld "CAT"%string; tld "CATERING"%string; tld "CC"%string; tld "CD"%string;
  tld "CENTER"%string; tld "CEO"%string; tld "CERN"%string; tld "CF"%string;
  tld "CG"%string; tld "CH"%string; tld "CHANNEL"%string; tld "CHEAP"%string;
  tld "CHRISTMAS"%string; tld "CHROME"%string; tld "CHURCH"%string; tld "CI"%string;
  tld "CITIC"%string; tld "CITY"%string; tld "CK"%string; tld "CL"%string;
  tld "CLAIMS"%string; tld "CLEANING"%string; tld "CLICK"%string; tld "CLINIC"%string;
  tld "CLOTHING"%string; tld "CLUB"%string; tld "CM"%string; tld "CN"%string;
  tld "CO"%string; tld "CODES"%string; tld "COFFEE"%string; tld "COLLEGE"%string;
  tld "COLOGNE"%string; tld "COM"%string; tld "COMMUNITY"%string; tld "COMPANY"%string;
  tld "COMPUTER"%string; tld "CONDOS"%string; tld "CONSTRUCTION"%string;
  tld "CONSULTING"%string; tld "CONTRACTORS"%string; tld "COOKING"%string;
  tld "COOL"%string; tld "COOP"%string; tld "COUNTRY"%string; tld "CR"%string;
  tld "CREDIT"%string; tld "CREDITCARD"%string; tld "CRUISES"%string; tld "CU"%string;
  tld "CUISINELLA"%string; tld "CV"%string; tld "CW"%string; tld "CX"%string;
  tld "CY"%string; tld "CYMRU"%string; tld "CZ"%string; tld "DAD"%string;
  tld "DANCE"%string; tld "DATING"%string; tld "DAY"%string; tld "DE"%string;
  tld "DEALS"%string; tld "DEGREE"%string; tld "DEMOCRAT"%string; tld "DENTAL"%string;
  tld "DENTIST"%string; tld "DESI"%string; tld "DIAMONDS"%string; tld "DIET"%string;
  tld "DIGITAL"%string; tld "DIRECT"%string; tld "DIRECTORY"%string; tld "DISCOUNT"%string;
  tld "DJ"%string; tld "DK"%string; tld "DM"%string; tld "DNP"%string; tld "DO"%string;
  tld "DOMAINS"%string; tld "DURBAN"%string; tld "DVAG"%string; tld "DZ"%string;
  tld "EAT"%string; tld "EC"%string; tld "EDU"%string; tld "EDUCATION"%string;
  tld "EE"%string; tld "EG"%string; tld "EMAIL"%string; tld "ENGINEER"%string;
  tld "ENGINEERING"%string; tld "ENTERPRISES"%string; tld "EQUIPMENT"%string;
  tld "ER"%string; tld "ES"%string; tld "ESQ"%string; tld "ESTATE"%string; tld "ET"%string;
  tld "EU"%string; tld "EUS"%string; tld "EVENTS"%string; tld "EXCHANGE"%string;
  tld "EXPERT"%string; tld "EXPOSED"%string; tld "FAIL"%string; tld "FARM"%string;
  tld "FEEDBACK"%string; tld "FI"%string; tld "FINANCE"%string; tld "FINANCIAL"%string;
  tld "FISH"%string; tld "FISHING"%string; tld "FITNESS"%string; tld "FJ"%string;
  tld "FK"%string; tld "FLIGHTS"%string; tld "FLORIST"%string; tld "FLY"%string;
  tld "FM"%string; tld "FO"%string; tld "FOO"%string; tld "FORSALE"%string;
  tld "FOUNDATION"%string; tld "FR"%string; tld "FRL"%string; tld "FROGANS"%string;
  tld "FUND"%string; tld "FURNITURE"%string; tld "FUTBOL"%string].

Definition TLDs_g_l : list tlds := [
  tld "GA"%string; tld "GAL"%string; tld "GALLERY"%string; tld "GB"%string;
  tld "GBIZ"%string; tld "GD"%string; tld "GE"%string; tld "GENT"%string; tld "GF"%string;
  tld "GG"%string; tld "GH"%string; tld "GI"%string; tld "GIFT"%string; tld "GIFTS"%string;
  tld "GIVES"%string; tld "GL"%string; tld "GLASS"%string; tld "GLE"%string;
  tld "GLOBAL"%string; tld "GLOBO"%string; tld "GM"%string; tld "GMAIL"%string;
  tld "GMO"%string; tld "GMX"%string; tld "GN"%string; tld "GOOGLE"%string;
  tld "GOP"%string; tld "GOV"%string; tld "GP"%string; tld "GQ"%string; tld "GR"%string;
  tld "GRAPHICS"%string; tld "GRATIS"%string; tld "GREEN"%string; tld "GRIPE"%string;
  tld "GS"%string; tld "GT"%string; tld "GU"%string; tld "GUIDE"%string;
  tld "GUITARS"%string; tld "GURU"%string; tld "GW"%string; tld "GY"%string;
  tld "HAMBURG"%string; tld "HAUS"%string; tld "HEALTHCARE"%string; tld "HELP"%string;
  tld "HERE"%string; tld "HIPHOP"%string; tld "HIV"%string; tld "HK"%string;
  tld "HM"%string; tld "HN"%string; tld "HOLDINGS"%string; tld "HOLIDAY"%string;
  tld "HOMES"%string; tld "HORSE"%string; tld "HOST"%string; tld "HOSTING"%string;
  tld "HOUSE"%string; tld "HOW"%string; tld "HR"%string; tld "HT"%string; tld "HU"%string;
  tld "IBM"%string; tld "ID"%string; tld "IE"%string; tld "IL"%string; tld "IM"%string;
  tld "IMMO"%string; tld "IMMOBILIEN"%string; tld "IN"%string; tld "INDUSTRIES"%string;
  tld "INFO"%string; tld "ING"%string; tld "INK"%string; tld "INSTITUTE"%string;
  tld "INSURE"%string; tld "INT"%string; tld "INTERNATIONAL"%string;
  tld "INVESTMENTS"%string; tld "IO"%string; tld "IQ"%string; tld "IR"%string;
  tld "IS"%string; tld "IT"%string; tld "JE"%string; tld "JETZT"%string; tld "JM"%string;
  tld "JO"%string; tld "JOBS"%string; tld "JOBURG"%string; tld "JP"%string;
  tld "JUEGOS"%string; tld "KAUFEN"%string; tld "KE"%string; tld "KG"%string;
  tld "KH"%string; tld "KI"%string; tld "KIM"%string; tld "KITCHEN"%string;
  tld "KIWI"%string; tld "KM"%string; tld "KN"%string; tld "KOELN"%string; tld "KP"%string;
  tld "KR"%string; tld "KRD"%string; tld "KRED"%string; tld "KW"%string; tld "KY"%string;
  tld "KZ"%string; tld "LA"%string; tld "LACAIXA"%string; tld "LAND"%string;
  tld "LAWYER"%string; tld "LB"%string; tld "LC"%string; tld "LEASE"%string;
  tld "LGBT"%string; tld "LI"%string; tld "LIFE"%string; tld "LIGHTING"%string;
  tld "LIMITED"%string; tld "LIMO"%string; tld "LINK"%string; tld "LK"%string;
  tld "LOANS"%string; tld "LONDON"%string; tld "LOTTO"%string; tld "LR"%string;
  tld "LS"%string; tld "LT"%string; tld "LTDA"%string; tld "LU"%string; tld "LUXE"%string;
  tld "LUXURY"%string; tld "LV"%string; tld "LY"%string].

Definition TLDs_m_r : list tlds := [
  tld "MA"%string; tld "MAISON"%string; tld "MANAGEMENT"%string; tld "MANGO"%string;
  tld "MARKET"%string; tld "MARKETING"%string; tld "MC"%string; tld "MD"%string;
  tld "ME"%string; tld "MEDIA"%string; tld "MEET"%string; tld "MELBOURNE"%string;
  tld "MEME"%string; tld "MENU"%string; tld "MG"%string; tld "MH"%string;
  tld "MIAMI"%string; tld "MIL"%string; tld "MINI"%string; tld "MK"%string;
  tld "ML"%string; tld "MM"%string; tld "MN"%string; tld "MO"%string; tld "MOBI"%string;
  tld "MODA"%string; tld "MOE"%string; tld "MONASH"%string; tld "MORTGAGE"%string;
  tld "MOSCOW"%string; tld "MOTORCYCLES"%string; tld "MOV"%string; tld "MP"%string;
  tld "MQ"%string; tld "MR"%string; tld "MS"%string; tld "MT"%string; tld "MU"%string;
  tld "MUSEUM"%string; tld "MV"%string; tld "MW"%string; tld "MX"%string; tld "MY"%string;
  tld "MZ"%string; tld "NA"%string; tld "NAGOYA"%string; tld "NAME"%string;
  tld "NAVY"%string; tld "NC"%string; tld "NE"%string; tld "NET"%string;
  tld "NETWORK"%string; tld "NEUSTAR"%string; tld "NEW"%string; tld "NEXUS"%string;
  tld "NF"%string; tld "NG"%string; tld "NGO"%string; tld "NHK"%string; tld "NI"%string;
  tld "NINJA"%string; tld "NL"%string; tld "NO"%string; tld "NP"%string; tld "NR"%string;
  tld "NRA"%string; tld "NRW"%string; tld "NU"%string; tld "NYC"%string; tld "NZ"%string;
  tld "OKINAWA"%string; tld "OM"%string; tld "ONG"%string; tld "ONL"%string;
  tld "OOO"%string; tld "ORG"%string; tld "ORGANIC"%string; tld "OTSUKA"%string;
  tld "OVH"%string; tld "PA"%string; tld "PARIS"%string; tld "PARTNERS"%string;
  tld "PARTS"%string; tld "PE"%string; tld "PF"%string; tld "PG"%string; tld "PH"%string;
  tld "PHARMACY"%string; tld "PHOTO"%string; tld "PHOTOGRAPHY"%string; tld "PHOTOS"%string;
  tld "PHYSIO"%string; tld "PICS"%string; tld "PICTURES"%string; tld "PINK"%string;
  tld "PIZZA"%string; tld "PK"%string; tld "PL"%string; tld "PLACE"%string;
  tld "PLUMBING"%string; tld "PM"%string; tld "PN"%string; tld "POHL"%string;
  tld "POST"%string; tld "PR"%string; tld "PRAXI"%string; tld "PRESS"%string;
  tld "PRO"%string; tld "PROD"%string; tld "PRODUCTIONS"%string; tld "PROF"%string;
  tld "PROPERTIES"%string; tld "PROPERTY"%string; tld "PS"%string; tld "PT"%string;
  tld "PUB"%string; tld "PW"%string; tld "PY"%string; tld "QA"%string; tld "QPON"%string;
  tld "QUEBEC"%string; tld "RE"%string; tld "REALTOR"%string; tld "RECIPES"%string;
  tld "RED"%string; tld "REHAB"%string; tld "REISE"%string; tld "REISEN"%string;
  tld "REN"%string; tld "RENTALS"%string; tld "REPAIR"%string; tld "REPORT"%string;
  tld "REPUBLICAN"%string; tld "REST"%string; tld "RESTAURANT"%string;
  tld "REVIEWS"%string; tld "RICH"%string; tld "RIO"%string; tld "RO"%string;
  tld "ROCKS"%string; tld "RODEO"%string; tld "RS"%string; tld "RSVP"%string;
  tld "RU"%string; tld "RUHR"%string; tld "RW"%string; tld "RYUKYU"%string].

Definition TLDs_s_w : list tlds := [
  tld "SA"%string; tld "SAARLAND"%string; tld "SARL"%string; tld "SB"%string;
  tld "SC"%string; tld "SCA"%string; tld "SCB"%string; tld "SCHMIDT"%string;
  tld "SCHULE"%string; tld "SCOT"%string; tld "SD"%string; tld "SE"%string;
  tld "SERVICES"%string; tld "SEXY"%string; tld "SG"%string; tld "SH"%string;
  tld "SHIKSHA"%string; tld "SHOES"%string; tld "SI"%string; tld "SINGLES"%string;
  tld "SJ"%string; tld "SK"%string; tld "SL"%string; tld "SM"%string; tld "SN"%string;
  tld "SO"%string; tld "SOCIAL"%string; tld "SOFTWARE"%string; tld "SOHU"%string;
  tld "SOLAR"%string; tld "SOLUTIONS"%string; tld "SOY"%string; tld "SPACE"%string;
  tld "SPIEGEL"%string; tld "SR"%string; tld "ST"%string; tld "SU"%string;
  tld "SUPPLIES"%string; tld "SUPPLY"%string; tld "SUPPORT"%string; tld "SURF"%string;
  tld "SURGERY"%string; tld "SUZUKI"%string; tld "SV"%string; tld "SX"%string;
  tld "SY"%string; tld "SYSTEMS"%string; tld "SZ"%string; tld "TATAR"%string;
  tld "TATTOO"%string; tld "TAX"%string; tld "TC"%string; tld "TD"%string;
  tld "TECHNOLOGY"%string; tld "TEL"%string; tld "TF"%string; tld "TG"%string;
  tld "TH"%string; tld "TIENDA"%string; tld "TIPS"%string; tld "TIROL"%string;
  tld "TJ"%string; tld "TK"%string; tld "TL"%string; tld "TM"%string; tld "TN"%string;
  tld "TO"%string; tld "TODAY"%string; tld "TOKYO"%string; tld "TOOLS"%string;
  tld "TOP"%string; tld "TOWN"%string; tld "TOYS"%string; tld "TP"%string; tld "TR"%string;
  tld "TRADE"%string; tld "TRAINING"%string; tld "TRAVEL"%string; tld "TT"%string;
  tld "TUI"%string; tld "TV"%string; tld "TW"%string; tld "TZ"%string; tld "UA"%string;
  tld "UG"%string; tld "UK"%string; tld "UNIVERSITY"%string; tld "UNO"%string;
  tld "UOL"%string; tld "US"%string; tld "UY"%string; tld "UZ"%string; tld "VA"%string;
  tld "VACATIONS"%string; tld "VC"%string; tld "VE"%string; tld "VEGAS"%string;
  tld "VENTURES"%string; tld "VERSICHERUNG"%string; tld "VET"%string; tld "VG"%string;
  tld "VI"%string; tld "VIAJES"%string; tld "VILLAS"%string; tld "VISION"%string;
  tld "VLAANDEREN"%string; tld "VN"%string; tld "VODKA"%string; tld "VOTE"%string;
  tld "VOTING"%string; tld "VOTO"%string; tld "VOYAGE"%string; tld "VU"%string;
  tld "WALES"%string; tld "WANG"%string; tld "WATCH"%string; tld "WEBCAM"%string;
  tld "WEBSITE"%string; tld "WED"%string; tld "WF"%string; tld "WHOSWHO"%string;
  tld "WIEN"%string; tld "WIKI"%string; tld "WILLIAMHILL"%string; tld "WME"%string;
  tld "WORK"%string; tld "WORKS"%string; tld "WORLD"%string; tld "WS"%string;
  tld "WTC"%string; tld "WTF"%string].

Definition TLDs_x_z : list tlds := [
  tld "XN--1QQW23A"%string; tld "XN--3BST00M"%string; tld "XN--3DS443G"%string;
  tld "XN--3E0B707E"%string; tld "XN--45BRJ9C"%string; tld "XN--4GBRIM"%string;
  tld "XN--55QW42G"%string; tld "XN--55QX5D"%string; tld "XN--6FRZ82G"%string;
  tld "XN--6QQ986B3XL"%string; tld "XN--80ADXHKS"%string; tld "XN--80AO21A"%string;
  tld "XN--80ASEHDB"%string; tld "XN--80ASWG"%string; tld "XN--90A3AC"%string;
  tld "XN--C1AVG"%string; tld "XN--CG4BKI"%string; tld "XN--CLCHC0EA0B2G2A9GCD"%string;
  tld "XN--CZR694B"%string; tld "XN--CZRU2D"%string; tld "XN--D1ACJ3B"%string;
  tld "XN--FIQ228C5HS"%string; tld "XN--FIQ64B"%string; tld "XN--FIQS8S"%string;
  tld "XN--FIQZ9S"%string; tld "XN--FPCRJ9C3D"%string; tld "XN--FZC2C9E2C"%string;
  tld "XN--GECRJ9C"%string; tld "XN--H2BRJ9C"%string; tld "XN--I1B6B1A6A2E"%string;
  tld "XN--IO0A7I"%string; tld "XN--J1AMH"%string; tld "XN--J6W193G"%string;
  tld "XN--KPRW13D"%string; tld "XN--KPRY57D"%string; tld "XN--KPUT3I"%string;
  tld "XN--L1ACC"%string; tld "XN--LGBBAT1AD8J"%string; tld "XN--MGB9AWBF"%string;
  tld "XN--MGBA3A4F16A"%string; tld "XN--MGBAAM7A8H"%string; tld "XN--MGBAB2BD"%string;
  tld "XN--MGBAYH7GPA"%string; tld "XN--MGBBH1A71E"%string; tld "XN--MGBC0A9AZCG"%string;
  tld "XN--MGBERP4A5D4AR"%string; tld "XN--MGBX4CD0AB"%string; tld "XN--NGBC5AZD"%string;
  tld "XN--NQV7F"%string; tld "XN--NQV7FS00EMA"%string; tld "XN--O3CW4H"%string;
  tld "XN--OGBPF8FL"%string; tld "XN--P1ACF"%string; tld "XN--P1AI"%string;
  tld "XN--PGBS0DH"%string; tld "XN--Q9JYB4C"%string; tld "XN--RHQV96G"%string;
  tld "XN--S9BRJ9C"%string; tld "XN--SES554G"%string; tld "XN--UNUP4Y"%string;
  tld "XN--VERMGENSBERATER-CTB"%string; tld "XN--VERMGENSBERATUNG-PWB"%string;
  tld "XN--VHQUV"%string; tld "XN--WGBH1C"%string; tld "XN--WGBL6A"%string;
  tld "XN--XHQ521B"%string; tld "XN--XKC2AL3HYE2A"%string; tld "XN--XKC2DL3A5EE0H"%string;
  tld "XN--YFRO4I67O"%string; tld "XN--YGBI2AMMX"%string; tld "XN--ZFR164B"%string;
  tld "XXX"%string; tld "XYZ"%string; tld "YACHTS"%string; tld "YANDEX"%string;
  tld "YE"%string; tld "YOKOHAMA"%string; tld "YOUTUBE"%string; tld "YT"%string;
  tld "ZA"%string; tld "ZIP"%string; tld "ZM"%string; tld "ZONE"%string; tld "ZW"%string].

Definition TLDs : list tlds := TLDs_a_b ++ TLDs_c_f ++ TLDs_g_l ++ TLDs_m_r ++ TLDs_s_w ++ TLDs_x_z.

(** Domains of other name systems. *)
Definition ExtendedTLDs : list tlds := [tld "BIT"%string; tld "ONION"%string].

(** Every row is in upper case and has the condition set. *)
Definition upper_char (b : byte) : bool :=
  let v := byte_val b in
  (65 <=? v) && (v <=? 90) || (48 <=? v) && (v <=? 57) || (v =? 45).
Lemma tlds_upper :
  forallb (fun r => forallb upper_char (fst r) && (snd r =? 1)) (TLDs ++ ExtendedTLDs) = true.
Proof. vm_compute. reflexivity. Qed.
