(* ===== verification/IsDomain.v ===== *)
(** Which names are domains (src/namesys/isdomain.c). *)

From S2P Require Import Prelude Libc Path Tlds.

Definition dot : byte := byte_of 46.

Definition ipfs_isdomain_to_upper (src : bytes) : bytes := map toupper src.

(** The comparison starts before a string shorter than the suffix. *)
Definition ipfs_isdomain_has_suffix (s suf : bytes) : cres unit bool :=
  if len s <? len suf then Undef else Ok (str_eq (bdrop (len s - len suf) s) suf).

Fixpoint find_condition (a : list tlds) (s : bytes) : Z :=
  match a with
  | [] => 0
  | (t, condition) :: a => if str_eq t s then condition else find_condition a s
  end.
Definition ipfs_isdomain_is_at_array (a : list tlds) (s : bytes) : Z :=
  find_condition a (ipfs_isdomain_to_upper s).

Definition letter (b : byte) : bool := (65 <=? byte_val b) && (byte_val b <=? 90).
Definition domain_char (b : byte) : bool :=
  letter b || isdigit b || bool_decide (b = dot) || (byte_val b =? 45).

(** The last two characters are read after the first one was seen not to be a dot. *)
Definition ipfs_isdomain_match_string (d : bytes) : cres unit bool :=
  let s := ipfs_isdomain_to_upper d in
  if decide (head s = Some dot) then Ok false
  else match drop (length s - 2) s with
       | [l0; l1] => Ok (letter l0 && letter l1 && forallb domain_char s)
       | _ => Undef
       end.

Definition ipfs_isdomain_is_icann_tld (s : bytes) : Z := ipfs_isdomain_is_at_array TLDs s.
Definition ipfs_isdomain_is_extended_tld (s : bytes) : Z :=
  ipfs_isdomain_is_at_array ExtendedTLDs s.
Definition ipfs_isdomain_is_tld (s : bytes) : bool :=
  negb (ipfs_isdomain_is_icann_tld s =? 0) || negb (ipfs_isdomain_is_extended_tld s =? 0).

Definition ipfs_isdomain_is_domain (s : bytes) : cres unit bool :=
  ends ← ipfs_isdomain_has_suffix s [dot];
  let s := if (ends : bool) then btake (len s - 1) s else s in
  match strrchr s dot with
  | None => Ok false
  | Some i =>
      if ipfs_isdomain_is_tld (drop (S i) s) then ipfs_isdomain_match_string s
      else Ok false
  end.

(** * Properties *)

(** The classification of src/namesys/is_domain_test.c. *)
Definition domain_tests : list (bytes * bool) :=
  [(str "foo.bar.baz.com", true); (str "foo.bar.baz", false); (str "foo.bar.baz.com.", true);
   (str "com", false); (str ".", false); (str "..", false); (str ".foo.com.", false);
   (str ".foo.com", false); (str "fo o.com", false); (str "example.com", true);
   (str "fjdoisajfdiosafdsa8fd8saf8dsa8fdsafdsa-fd-sa-fd-saf-dsa.org", true);
   (str "fjdoisajfdiosafdsa8fd8saf8dsa8fdsafdsa-fd-sa-fd-saf-dsa.bit", true);
   (str "fjdoisajfdiosafdsa8fd8saf8dsa8fdsafdsa-fd-sa-fd-saf-dsa.onion", true);
   (str "a.b.c.d.e.f.g.h.i.j.k.l.museum", true); (str "a.b.c.d.e.f.g.h.i.j.k.l", false)].
Lemma domain_tests_pass :
  Forall (fun '(s, b) => ipfs_isdomain_is_domain s = Ok b) domain_tests.
Proof. repeat constructor. Qed.

(** ** Case *)

Lemma toupper_idem b : toupper (toupper b) = toupper b.
Proof. destruct b; reflexivity. Qed.
Lemma toupper_dot b : toupper b = dot <-> b = dot.
Proof. destruct b; split; intros H; (reflexivity || discriminate H). Qed.
Lemma to_upper_idem s :
  ipfs_isdomain_to_upper (ipfs_isdomain_to_upper s) = ipfs_isdomain_to_upper s.
Proof. unfold ipfs_isdomain_to_upper. induction s as [| x s IH]; [reflexivity |]. cbn. by rewrite toupper_idem, IH. Qed.
Lemma to_upper_dot s : dot ∈ ipfs_isdomain_to_upper s <-> dot ∈ s.
Proof.
  unfold ipfs_isdomain_to_upper. induction s as [| x s IH]; [reflexivity |].
  cbn. rewrite !elem_of_cons, IH. split; intros [H | H]; auto; left.
  - symmetry in H. by apply (proj1 (toupper_dot x)) in H.
  - subst. reflexivity.
Qed.
Lemma to_upper_strrchr s : strrchr (ipfs_isdomain_to_upper s) dot = strrchr s dot.
Proof.
  unfold ipfs_isdomain_to_upper. induction s as [| x s IH]; [reflexivity |]. cbn. rewrite IH.
  destruct (strrchr s dot); [reflexivity |].
  destruct (decide (x = dot)) as [-> |]; [reflexivity |].
  rewrite decide_False; [reflexivity |]. by rewrite toupper_dot.
Qed.
Lemma to_upper_len s : len (ipfs_isdomain_to_upper s) = len s.
Proof. apply len_map. Qed.
Lemma drop_upper n s :
  drop n (ipfs_isdomain_to_upper s) = ipfs_isdomain_to_upper (drop n s).
Proof. apply skipn_map. Qed.
Lemma is_tld_upper s : ipfs_isdomain_is_tld (ipfs_isdomain_to_upper s) = ipfs_isdomain_is_tld s.
Proof.
  unfold ipfs_isdomain_is_tld, ipfs_isdomain_is_icann_tld, ipfs_isdomain_is_extended_tld,
    ipfs_isdomain_is_at_array. by rewrite to_upper_idem.
Qed.

(** ** What a domain is *)

Definition known_tld (t : bytes) : Prop :=
  ipfs_isdomain_to_upper t ∈ map fst (TLDs ++ ExtendedTLDs).

Lemma find_condition_spec a s :
  Forall (fun r => snd r <> 0) a -> (find_condition a s <> 0 <-> s ∈ map fst a).
Proof.
  induction a as [| [t c] a IH]; intros Hf; cbn.
  - split; [congruence | intros H; by apply not_elem_of_nil in H].
  - apply Forall_cons in Hf as [Hc Hf]. cbn in Hc. unfold str_eq. rewrite elem_of_cons.
    case_bool_decide as Ht; [split; auto |]. rewrite IH by exact Hf. split; [auto |].
    intros [|]; [congruence | assumption].
Qed.
Lemma conditions_set a :
  forallb (fun r : tlds => forallb upper_char (fst r) && (snd r =? 1)) a = true ->
  Forall (fun r : tlds => snd r <> 0) a.
Proof.
  intros H. apply Forall_forall. intros r Hr. rewrite forallb_forall in H.
  apply list_elem_of_In, H, andb_true_iff in Hr as [_ Hr]. lia.
Qed.
Lemma is_tld_spec t : ipfs_isdomain_is_tld t = true <-> known_tld t.
Proof.
  pose proof (conditions_set _ tlds_upper) as Hf. apply Forall_app in Hf as [H1 H2].
  unfold ipfs_isdomain_is_tld, ipfs_isdomain_is_icann_tld, ipfs_isdomain_is_extended_tld,
    ipfs_isdomain_is_at_array, known_tld.
  rewrite orb_true_iff, !negb_true_iff, !Z.eqb_neq, !find_condition_spec by assumption.
  rewrite map_app, elem_of_app. reflexivity.
Qed.

(** A name, a dot and a known top level domain, made of letters, digits, dots and
    dashes, not starting with a dot and with two letters at the end. *)
Record domain_text (s : bytes) : Prop := {
  domain_tld : exists name t, s = name ++ dot :: t /\ (dot ∉ t) /\ known_tld t;
  domain_chars : forallb domain_char (ipfs_isdomain_to_upper s) = true;
  domain_start : head s <> Some dot;
  domain_end : exists front a b,
    ipfs_isdomain_to_upper s = front ++ [a; b] /\ letter a = true /\ letter b = true
}.

(** One dot at the end is dropped. *)
Definition strip_dot (s : bytes) : bytes :=
  if decide (last s = Some dot) then removelast s else s.

Lemma strrchr_none s c : strrchr s c = None <-> c ∉ s.
Proof.
  induction s as [| x s IH]; [split; [intros; apply not_elem_of_nil | reflexivity] |].
  cbn. rewrite not_elem_of_cons. destruct (strrchr s c).
  - split; [discriminate |]. intros [_ H]. apply IH in H. discriminate.
  - case_decide; [split; [discriminate | intros [? _]; congruence] |].
    split; [intros _; split; [congruence | by apply IH] | reflexivity].
Qed.
Lemma strrchr_split s c i :
  strrchr s c = Some i -> s = take i s ++ c :: drop (S i) s /\ c ∉ drop (S i) s.
Proof.
  revert i. induction s as [| x s IH]; intros i; cbn; [discriminate |].
  destruct (strrchr s c) as [j |] eqn:E.
  - intros [= <-]. destruct (IH j eq_refl) as [H1 H2]. cbn. split; [by rewrite <- H1 | exact H2].
  - case_decide; [| discriminate]. intros [= <-]. cbn. subst. split; [by rewrite drop_0 |].
    rewrite drop_0. by apply strrchr_none.
Qed.

Lemma head_upper s : head (ipfs_isdomain_to_upper s) = Some dot <-> head s = Some dot.
Proof.
  destruct s as [| x s]; [reflexivity |]. cbn. split; intros [= H].
  - apply (proj1 (toupper_dot x)) in H. congruence.
  - subst. reflexivity.
Qed.

Lemma match_string_spec d :
  2 <= len d ->
  exists b, ipfs_isdomain_match_string d = Ok b /\
    (b = true <-> forallb domain_char (ipfs_isdomain_to_upper d) = true /\ head d <> Some dot /\
      exists front a c, ipfs_isdomain_to_upper d = front ++ [a; c] /\
                        letter a = true /\ letter c = true).
Proof.
  intros Hl. unfold ipfs_isdomain_match_string. case_decide as Hd.
  { exists false. split; [reflexivity |]. apply (proj1 (head_upper d)) in Hd. split; [discriminate | tauto]. }
  assert (Hh : head d <> Some dot) by (by rewrite <- head_upper).
  set (u := ipfs_isdomain_to_upper d).
  assert (Hu : u = take (length u - 2) u ++ drop (length u - 2) u) by by rewrite take_drop.
  assert (Hn : length (drop (length u - 2) u) = 2%nat).
  { rewrite length_drop. subst u. pose proof (to_upper_len d). unfold len in *. lia. }
  destruct (drop (length u - 2) u) as [| a [| c [|]]] eqn:E; try discriminate Hn.
  exists (letter a && letter c && forallb domain_char u). split; [reflexivity |].
  rewrite !andb_true_iff. split.
  - intros [[Ha Hc] Hf]. split_and!; auto. exists (take (length u - 2) u), a, c. auto.
  - intros (Hf & _ & front & a' & c' & H & Ha & Hc).
    rewrite H in Hu at 1. apply app_inj_2 in Hu as [_ [= <- <-]]; auto.
Qed.

Lemma has_suffix_dot s :
  s <> [] -> ipfs_isdomain_has_suffix s [dot] = Ok (bool_decide (last s = Some dot)).
Proof.
  intros Hs. destruct (exists_last Hs) as (f & c & ->). unfold ipfs_isdomain_has_suffix, str_eq.
  replace (len (f ++ [c]) <? len [dot]) with false by (symmetry; apply Z.ltb_ge; len_lia).
  replace (len (f ++ [c]) - len [dot]) with (len f) by len_lia.
  rewrite bdrop_app_len, last_snoc. f_equal. apply bool_decide_ext. split; congruence.
Qed.
Lemma strip_dot_take s :
  s <> [] ->
  (if bool_decide (last s = Some dot) then btake (len s - 1) s else s) = strip_dot s.
Proof.
  intros Hs. unfold strip_dot. case_bool_decide as Hd; [rewrite decide_True by exact Hd | by rewrite decide_False].
  destruct (exists_last Hs) as (f & c & ->).
  replace (len (f ++ [c]) - 1) with (len f) by len_lia. by rewrite btake_app_len, removelast_last.
Qed.

(** No top level domain is shorter than two characters. *)
Lemma tld_len t : known_tld t -> 2 <= len t.
Proof.
  intros H. rewrite <- to_upper_len. unfold known_tld in H.
  assert (Hf : forallb (fun s => 2 <=? len s) (map fst (TLDs ++ ExtendedTLDs)) = true)
    by (vm_compute; reflexivity).
  rewrite forallb_forall in Hf. apply list_elem_of_In, Hf in H. lia.
Qed.

Lemma is_domain_text s :
  s <> [] ->
  exists b, ipfs_isdomain_is_domain s = Ok b /\ (b = true <-> domain_text (strip_dot s)).
Proof.
  intros Hs. unfold ipfs_isdomain_is_domain. rewrite has_suffix_dot by exact Hs.
  cbn [mbind cres_bind]. rewrite strip_dot_take by exact Hs. set (d := strip_dot s).
  destruct (strrchr d dot) as [i |] eqn:E.
  - apply strrchr_split in E as [Hd Ht]. set (t := drop (S i) d) in *.
    destruct (ipfs_isdomain_is_tld t) eqn:Hk.
    + apply is_tld_spec in Hk. pose proof (tld_len _ Hk).
      destruct (match_string_spec d) as (b & -> & Hb).
      { rewrite Hd, len_app, len_cons. pose_len. lia. }
      exists b. split; [reflexivity |]. rewrite Hb. split.
      * intros (H1 & H2 & H3). constructor; auto. exists (take i d), t. auto.
      * intros [_ H1 H2 H3]. auto.
    + exists false. split; [reflexivity |]. split; [discriminate |].
      intros [(name & t' & Hd' & Ht' & Hk') _ _ _]. rewrite Hd' in Hd.
      assert (t' = t) as ->; [| apply is_tld_spec in Hk'; congruence].
      pose proof (strrchr_app name dot t' Ht') as E1. rewrite Hd in E1.
      rewrite strrchr_app in E1 by exact Ht. injection E1 as E1.
      symmetry in Hd. apply app_inj_1 in Hd as [_ [= ->]]; [reflexivity | congruence].
  - exists false. split; [reflexivity |]. split; [discriminate |].
    intros [(name & t & Hd & _) _ _ _]. apply strrchr_none in E. exfalso. apply E.
    rewrite Hd. apply elem_of_app. right. left.
Qed.

Lemma strip_dot_upper s :
  strip_dot (ipfs_isdomain_to_upper s) = ipfs_isdomain_to_upper (strip_dot s).
Proof.
  destruct (decide (s = [])) as [-> | Hs]; [reflexivity |].
  destruct (exists_last Hs) as (f & c & ->). unfold strip_dot, ipfs_isdomain_to_upper.
  rewrite map_app. cbn [map]. rewrite !last_snoc, !removelast_last.
  destruct (decide (c = dot)) as [-> | Hc]; [by rewrite !decide_True |].
  rewrite !decide_False; [by rewrite map_app | congruence |].
  intros [= H]. by apply (proj1 (toupper_dot c)) in H.
Qed.

Lemma is_domain_upper s :
  s <> [] -> ipfs_isdomain_is_domain (ipfs_isdomain_to_upper s) = ipfs_isdomain_is_domain s.
Proof.
  intros Hs. assert (Hu : ipfs_isdomain_to_upper s <> []) by (destruct s; [congruence | discriminate]).
  unfold ipfs_isdomain_is_domain.
  rewrite (has_suffix_dot s Hs), (has_suffix_dot _ Hu).
  cbn [mbind cres_bind]. rewrite (strip_dot_take s Hs), (strip_dot_take _ Hu).
  rewrite strip_dot_upper, to_upper_strrchr. destruct (strrchr (strip_dot s) dot); [| reflexivity].
  rewrite drop_upper, is_tld_upper. unfold ipfs_isdomain_match_string. by rewrite to_upper_idem.
Qed.

(** C30: on every string that is not empty [ipfs_isdomain_is_domain] says whether it is,
    after one dot at its end is dropped, a name, a dot and a top level domain of the
    tables, made of letters, digits, dots and dashes, without a dot in front and with
    two letters at the end; upper and lower case make no difference. On the empty
    string it looks at the byte in front of it. *)
Theorem is_domain_spec s :
  match s with
  | [] => ipfs_isdomain_is_domain s = Undef
  | _ =>
      exists b, ipfs_isdomain_is_domain s = Ok b /\
                ipfs_isdomain_is_domain (ipfs_isdomain_to_upper s) = Ok b /\
                (b = true <-> domain_text (strip_dot s))
  end.
Proof.
  destruct s as [| x s]; [reflexivity |].
  destruct (is_domain_text (x :: s) ltac:(discriminate)) as (b & Hb & Hs). exists b.
  rewrite is_domain_upper by discriminate. auto.
Qed.
