(* ===== verification/DnsLink.v ===== *)
(** DNS links: paths in the TXT records of a domain (src/dnslink/dnslink.c). *)

From S2P Require Import Prelude Libc Errs Path Tlds IsDomain.

Definition DefaultDepthLimit : Z := 32.

(** ** Records *)

(** The result of a function of the other files whose error says nothing here. *)
Definition of_unit {E A} (m : cres unit A) (e : E) : cres E A := on_err m e.

(** [path]: the caller's pointer is not NULL. The check behind the cleaning looks at
    that pointer and not at the cleaned path. *)
Definition ipfs_dnslink_parse_txt (path : bool) (txt : option bytes) : cres ErrsIdx bytes :=
  match txt with
  | Some txt =>
      if negb path then Err ErrInvalidParam
      else
        parts ← of_unit (ipfs_path_split_n txt (str "=") 2) ErrAllocFailed;
        match parts with
        | None => Err ErrAllocFailed
        | Some [key; value] =>
            if str_eq key (str "dnslink") && starts_with (str "/") value
            then of_unit (ipfs_path_clean_path value) ErrAllocFailed
            else Err ErrInvalidDNSLink
        | Some _ => Err ErrInvalidDNSLink
        end
  | None => Err ErrInvalidParam
  end.

(** The domain and the rest of the link. *)
Definition ipfs_dnslink_parse_link_domain (txt : option bytes)
  : cres ErrsIdx (bytes * option bytes) :=
  match txt with
  | None => Err ErrInvalidParam
  | Some txt =>
      parts ← of_unit (ipfs_path_split_n txt [slash] 4) ErrInvalidDNSLink;
      match parts with
      | Some ([] :: dns :: domain :: more) =>
          if str_eq dns (str "dns") then
            valid ← of_unit (ipfs_isdomain_is_domain domain) ErrInvalidDomain;
            if (valid : bool) then Ok (domain, head more) else Err ErrInvalidDomain
          else Err ErrInvalidDNSLink
      | _ => Err ErrInvalidDNSLink
      end
  end.

Section DnsLink.
(** [res_query] with the parsing of libresolv: the data of each answer, [None] for one
    that is not parsed; [None] when the query or the message fails. *)
Context (res_query : bytes -> option (list (option bytes))).

(** The text of the records, written one behind the other to a buffer of 4096 bytes:
    the first character string of each and a terminator. *)
Fixpoint copy_records (room : Z) (answers : list (option bytes)) : cres ErrsIdx (list bytes) :=
  match answers with
  | [] => Ok []
  | None :: _ => Err ErrResolveFailed
  | Some [] :: _ => Undef
  | Some (n :: rdata) :: answers =>
      if len rdata <? byte_val n then Undef
      else if room <? byte_val n + 1 then Undef
      else
        txt ← copy_records (room - (byte_val n + 1)) answers;
        Ok (btake (byte_val n) rdata :: txt)
  end.

(** The pointers are stored through [*txt[i]]: the first one is the first of the array,
    the next one is stored through what is behind the caller's pointer. *)
Definition ipfs_dnslink_resolv_lookupTXT (domain : bytes) : cres ErrsIdx (list bytes) :=
  match res_query domain with
  | None => Err ErrResolveFailed
  | Some answers =>
      txt ← copy_records 4096 answers;
      match txt with
      | [] => Ok []
      | [r] => Ok [c_str r]
      | _ => Undef
      end
  end.

(** The function pointer [ipfs_dnslink_lookup_txt] is set to another function or NULL. *)
Context (lookup_txt : option (bytes -> cres ErrsIdx (list bytes))).
Definition lookup (domain : bytes) : cres ErrsIdx (list bytes) :=
  match lookup_txt with
  | Some f => f domain
  | None => ipfs_dnslink_resolv_lookupTXT domain
  end.

(** The records are parsed into [*p], which was set to NULL. *)
Fixpoint first_link (err : ErrsIdx) (txt : list bytes) : cres ErrsIdx bytes :=
  match txt with
  | [] => Err err
  | t :: txt =>
      match ipfs_dnslink_parse_txt false (Some t) with
      | Err err => first_link err txt
      | r => r
      end
  end.
(** [p]: the caller's pointer is not NULL. *)
Definition ipfs_dnslink_resolve_once (p : bool) (domain : option bytes) : cres ErrsIdx bytes :=
  match domain with
  | Some domain =>
      if negb p then Err ErrInvalidParam
      else
        valid ← of_unit (ipfs_isdomain_is_domain domain) ErrInvalidDomain;
        if (valid : bool) then
          txt ← lookup domain;
          first_link ErrResolveFailed txt
        else Err ErrInvalidDomain
  | None => Err ErrInvalidParam
  end.

(** [tail]: [None] before it is written. The arrays have 500 bytes; a string that fills
    the 499 that are written has no terminator. The last byte of the result is written
    through [*p[l]]. *)
Fixpoint resolve_links (depth : nat) (domain : bytes) (tail : option bytes)
  : cres ErrsIdx bytes :=
  match depth with
  | O =>
      match tail with
      | None => Undef
      | Some _ => Err ErrResolveLimit
      end
  | S depth =>
      link ← ipfs_dnslink_resolve_once true (Some domain);
      if negb (starts_with (str "/dns/") link) then
        match tail with
        | None => Undef
        | Some tail => if len link + len tail =? 0 then Ok [] else Undef
        end
      else
        '(d, rest) ← ipfs_dnslink_parse_link_domain (Some link);
        match tail, rest with
        | Some tail, Some rest =>
            if (499 <=? len tail) || (499 <=? len rest) then Undef
            else resolve_links depth (btake 499 d) (Some (btake 499 (rest ++ tail)))
        | _, _ => Undef
        end
  end.
Definition ipfs_dnslink_resolve_n (d : bytes) (depth : Z) : cres ErrsIdx bytes :=
  resolve_links (Z.to_nat depth) (btake 499 d) None.
Definition ipfs_dnslink_resolve (domain : bytes) : cres ErrsIdx bytes :=
  ipfs_dnslink_resolve_n domain DefaultDepthLimit.

(** ** The command [ipfs dns] *)

Fixpoint dns_loop (n : nat) (r : bool) (param : bytes) : cres ErrsIdx bytes :=
  match n with
  | O => Ok param
  | S n =>
      txt ← ipfs_dnslink_resolv_lookupTXT
              (if starts_with (str "/ipns/") param then drop 6 param else param);
      path ← ipfs_dnslink_parse_txt true (head txt);
      if negb r then Ok path
      else if starts_with (str "/ipfs/") path then Ok path
      else dns_loop n r path
  end.

(** The line printed, or the exit value. The closing [while (--r)] is a loop of its own:
    from 0 it counts down until the integer overflows. *)
Definition ipfs_dns (argv : list bytes) : cres Z bytes :=
  let '(r, argv) :=
    match argv with
    | [_; a1; a2; a3] => if str_eq (str "-r") a2 then (true, [a1; a2; a3]) else (false, argv)
    | _ => (false, argv)
    end in
  match argv with
  | [_; _; name] =>
      match dns_loop (Z.to_nat DefaultDepthLimit) r name with
      | Ok param => if r then Ok param else Undef
      | Err e => Err (err_code e)
      | Undef => Undef
      | NoFuel => NoFuel
      end
  | _ => Err (-1)
  end.
End DnsLink.

(** * Properties *)

Section Facts.

Lemma split_two key v :
  byte_of 61 ∉ key -> byte_of 61 ∉ v ->
  ipfs_path_split_n (key ++ str "=" ++ v) (str "=") 2 = Ok (Some [key; v]).
Proof.
  intros Hk Hv. unfold ipfs_path_split_n. cbn [Z.eqb Z.ltb Z.compare Z.leb Z.pow Z.sub].
  change (str "=") with [byte_of 61]. change (Z.to_nat (2 + 1)) with 3%nat. cbn [split_parts].
  rewrite strstr_char. cbn [app]. rewrite strchr_app by exact Hk. rewrite take_app_length.
  replace (drop (length key + length [byte_of 61]) (key ++ byte_of 61 :: v)) with v.
  - rewrite strstr_char. destruct (strchr v (byte_of 61)) eqn:E; [| reflexivity].
    apply strchr_none in Hv. congruence.
  - change (byte_of 61 :: v) with ([byte_of 61] ++ v).
    rewrite app_assoc, <- length_app. by rewrite drop_app_length.
Qed.

(** A record [dnslink=v]. *)
Lemma parse_txt_link v :
  byte_of 61 ∉ v ->
  ipfs_dnslink_parse_txt true (Some (str "dnslink=" ++ v)) =
  if starts_with (str "/") v then on_err (ipfs_path_clean_path v) ErrAllocFailed
  else Err ErrInvalidDNSLink.
Proof.
  intros Hv. unfold ipfs_dnslink_parse_txt. cbn [negb].
  change (str "dnslink=" ++ v) with (str "dnslink" ++ str "=" ++ v).
  rewrite split_two by (try exact Hv; apply strchr_none; reflexivity). reflexivity.
Qed.

(** Cut at the third sign, a value with one has two parts. *)
Lemma parse_txt_two_signs a b :
  byte_of 61 ∉ a -> 
  ipfs_dnslink_parse_txt true (Some (str "dnslink=" ++ a ++ str "=" ++ b)) = Err ErrInvalidDNSLink.
Proof.
  intros Ha. unfold ipfs_dnslink_parse_txt. cbn [negb].
  change (str "dnslink=" ++ a ++ str "=" ++ b) with (str "dnslink" ++ byte_of 61 :: a ++ byte_of 61 :: b).
  unfold ipfs_path_split_n. cbn [Z.eqb Z.ltb Z.compare Z.leb Z.pow Z.sub].
  change (str "=") with [byte_of 61]. change (Z.to_nat (2 + 1)) with 3%nat. cbn [split_parts].
  rewrite !strstr_char.
  rewrite (strchr_app (str "dnslink") (byte_of 61)) by (apply strchr_none; reflexivity).
  cbn [split_parts]. change (length (str "dnslink") + length [byte_of 61])%nat with 8%nat.
  change (drop 8 (str "dnslink" ++ byte_of 61 :: a ++ byte_of 61 :: b)) with (a ++ byte_of 61 :: b).
  rewrite strstr_char, strchr_app by exact Ha. destruct (strstr _ _); reflexivity.
Qed.

(** The one answer of a domain with one record. *)
Definition one_record (record : bytes) : option (list (option bytes)) :=
  Some [Some (byte_of (len record) :: record)].

Lemma lookup_one res domain record :
  res domain = one_record record -> len record < 256 -> cstring record ->
  ipfs_dnslink_resolv_lookupTXT res domain = Ok [record].
Proof.
  intros Hr Hl Hc. unfold ipfs_dnslink_resolv_lookupTXT. rewrite Hr. cbn [one_record].
  pose proof (len_nonneg record). cbn [copy_records].
  rewrite byte_val_of, Z.mod_small by lia.
  rewrite Z.ltb_irrefl. replace (4096 <? len record + 1) with false by lia. cbn.
  by rewrite btake_all, c_str_id by (assumption || lia).
Qed.

Definition domain_of (p : bytes) : bytes := if starts_with (str "/ipns/") p then drop 6 p else p.

(** The only record of the name [a] is a link to [b]. *)
Definition links_to (res : bytes -> option (list (option bytes))) (a b : bytes) : Prop :=
  exists v, res (domain_of a) = one_record (str "dnslink=" ++ v) /\
    len v < 248 /\ cstring v /\ (byte_of 61 ∉ v) /\ starts_with (str "/") v = true /\
    ipfs_path_clean_path v = Ok b.

(** A chain of links from a name to a path that starts with [/ipfs/]. *)
Fixpoint chain (res : bytes -> option (list (option bytes))) (a : bytes) (ps : list bytes) : Prop :=
  match ps with
  | [] => False
  | [b] => links_to res a b /\ starts_with (str "/ipfs/") b = true
  | b :: ps => links_to res a b /\ starts_with (str "/ipfs/") b = false /\ chain res b ps
  end.

Lemma dns_step res n r a b :
  links_to res a b ->
  dns_loop res (S n) r a = if negb r || starts_with (str "/ipfs/") b then Ok b else dns_loop res n r b.
Proof.
  intros (v & Hr & Hl & Hc & He & Hs & Hb). cbn [dns_loop]. fold (domain_of a).
  assert (Hd : len (str "dnslink=") = 8) by reflexivity.
  rewrite (lookup_one _ _ (str "dnslink=" ++ v)); auto.
  - cbn [mbind cres_bind head]. rewrite parse_txt_link, Hs, Hb by exact He. cbn.
    destruct r; reflexivity.
  - rewrite len_app. lia.
  - apply cstring_app. split; [by_decide | exact Hc].
Qed.

Lemma dns_chain res n a ps :
  chain res a ps -> (length ps <= n)%nat -> dns_loop res n true a = Ok (default [] (last ps)).
Proof.
  revert n a. induction ps as [| b ps IH]; intros n a Hc Hn; [destruct Hc |].
  destruct n as [| n]; [cbn in Hn; lia |]. destruct ps as [| b' ps].
  - destruct Hc as [Hl Hs]. by rewrite (dns_step _ _ _ _ _ Hl), Hs.
  - destruct Hc as (Hl & Hs & Hc). rewrite (dns_step _ _ _ _ _ Hl), Hs. cbn [negb orb].
    rewrite IH; [reflexivity | exact Hc | cbn in *; lia].
Qed.
End Facts.

(** [ipfs dns -r] on a name with a chain of at most 32 links to a path in [/ipfs/]
    prints that path; without [-r] it finds the first link and then runs into the loop
    that counts down until the integer overflows. *)
Theorem ipfs_dns_spec res prog cmd name b ps :
  chain res name (b :: ps) -> len (b :: ps) <= 32 ->
  ipfs_dns res [prog; cmd; str "-r"; name] = Ok (default [] (last (b :: ps))) /\
  ipfs_dns res [prog; cmd; name] = Undef.
Proof.
  intros Hc Hl. unfold ipfs_dns. replace (str_eq (str "-r") (str "-r")) with true by reflexivity.
  change (Z.to_nat DefaultDepthLimit) with 32%nat. split.
  - by rewrite (dns_chain res 32 name (b :: ps)) by (assumption || (unfold len in Hl; lia)).
  - assert (Hlk : links_to res name b) by (destruct ps; apply Hc).
    change 32%nat with (S 31). by rewrite (dns_step _ _ _ _ _ Hlk).
Qed.
Lemma ipfs_dns_spec_witness :
  let res d :=
    if str_eq d (str "a.com") then one_record (str "dnslink=/ipns/b.com")
    else if str_eq d (str "b.com") then one_record (str "dnslink=/ipfs//Qm/")
    else None in
  ipfs_dns res [str "ipfs"; str "dns"; str "-r"; str "a.com"] = Ok (str "/ipfs/Qm") /\
  ipfs_dns res [str "ipfs"; str "dns"; str "a.com"] = Undef.
Proof.
  intros res.
  apply (ipfs_dns_spec res (str "ipfs") (str "dns") (str "a.com") (str "/ipns/b.com") [str "/ipfs/Qm"]).
  - split; [| split; [reflexivity | split; [| reflexivity]]].
    + exists (str "/ipns/b.com"). split_and!; reflexivity || by_decide || idtac.
    + exists (str "/ipfs//Qm/"). split_and!; reflexivity || by_decide || idtac.
  - by_decide.
Defined.

(** [ipfs_dnslink_resolve] resolves no domain: the records are parsed into a
    pointer that was set to NULL, which the parser refuses. What is not a domain is
    an invalid one, a domain whose lookup fails gives the error of the lookup, one
    without records is not resolved, and one with records gives the error for a bad
    parameter. *)
Theorem dnslink_never_resolves res lookup_txt d :
  btake 499 d <> [] ->
  ipfs_dnslink_resolve res lookup_txt d =
  match ipfs_isdomain_is_domain (btake 499 d) with
  | Ok true =>
      match lookup res lookup_txt (btake 499 d) with
      | Ok [] => Err ErrResolveFailed
      | Ok (_ :: _) => Err ErrInvalidParam
      | Err e => Err e
      | Undef => Undef
      | NoFuel => NoFuel
      end
  | _ => Err ErrInvalidDomain
  end.
Proof.
  intros Hd. unfold ipfs_dnslink_resolve, ipfs_dnslink_resolve_n.
  change (Z.to_nat DefaultDepthLimit) with (S 31). cbn [resolve_links ipfs_dnslink_resolve_once negb].
  destruct (is_domain_text _ Hd) as (b & -> & _). cbn. destruct b; [| reflexivity].
  destruct (lookup res lookup_txt (btake 499 d)) as [txt | | |]; try reflexivity. cbn.
  assert (H : forall err l, exists e, first_link err l = Err e /\
                       (e = match l with [] => err | _ => ErrInvalidParam end)).
  { intros err l. revert err. induction l as [| t l IH]; intros err; cbn; [eauto |].
    destruct (IH ErrInvalidParam) as (e & -> & ->). exists ErrInvalidParam. destruct l; auto. }
  destruct (H ErrResolveFailed txt) as (e & -> & ->). destruct txt; reflexivity.
Qed.
Lemma dnslink_never_resolves_witness :
  ipfs_dnslink_resolve (fun _ => one_record (str "dnslink=/ipfs/Qm")) None (str "ipfs.io") =
  Err ErrInvalidParam.
Proof.
  rewrite dnslink_never_resolves by discriminate. reflexivity.
Defined.
