(* ===== verification/UnixFS.v ===== *)
(** The UnixFS data section of a node (src/unixfs/unixfs.c,
    include/ipfs/unixfs/unixfs.h): the structure, its list of block sizes, its
    protobuf form. *)

From S2P Require Import Prelude Protobuf Libs ProtobufRef LibsRef.

(** [enum UnixFSDataType], an unsigned int. *)
Definition UNIXFS_RAW : Z := 0.
Definition UNIXFS_DIRECTORY : Z := 1.
Definition UNIXFS_FILE : Z := 2.
Definition UNIXFS_METADATA : Z := 3.
Definition UNIXFS_SYMLINK : Z := 4.

(** The linked list of block sizes is the list of its values. *)
Record UnixFS := MkUnixFS {
  ux_data_type : Z;
  ux_bytes_size : Z;
  ux_bytes : option bytes;
  ux_file_size : Z;
  ux_block_sizes : list Z;
  ux_hash : option bytes;
  ux_hash_length : Z
}.

#[export] Instance UnixFS_eq_dec : EqDecision UnixFS.
Proof. solve_decision. Defined.

Definition ipfs_unixfs_new : UnixFS := MkUnixFS UNIXFS_RAW 0 None 0 [] None 0.

(** The last node of the list: its position. *)
Definition ipfs_unixfs_get_last_block_size (obj : UnixFS) : option nat :=
  match ux_block_sizes obj with
  | [] => None
  | l => Some (pred (length l))
  end.

Definition set_block_sizes (obj : UnixFS) (l : list Z) : UnixFS :=
  MkUnixFS (ux_data_type obj) (ux_bytes_size obj) (ux_bytes obj) (ux_file_size obj) l
    (ux_hash obj) (ux_hash_length obj).

(** [to_delete] is a node of the list, by its position, or another pointer
    ([None]). Without a previous node the head pointer is cleared, whatever
    follows it. *)
Definition ipfs_unixfs_remove_blocksize (obj : UnixFS) (to_delete : option nat) : UnixFS :=
  let l := ux_block_sizes obj in
  let current := match to_delete with
                 | Some i => Nat.min i (length l)
                 | None => length l
                 end in
  match current with
  | O => set_block_sizes obj []
  | S previous => set_block_sizes obj (take (S previous) l ++ drop (S current) l)
  end.

(** The loop of [ipfs_unixfs_free]: the last node is removed until none is left. *)
Fixpoint ipfs_unixfs_free_blocks (fuel : nat) (obj : UnixFS) : cres unit UnixFS :=
  match fuel with
  | O => NoFuel
  | S fuel =>
      match ipfs_unixfs_get_last_block_size obj with
      | None => Ok obj
      | current => ipfs_unixfs_free_blocks fuel (ipfs_unixfs_remove_blocksize obj current)
      end
  end.

Definition ipfs_unixfs_add_blocksize (block_size : Z) (unix_fs : UnixFS) : UnixFS :=
  match ux_block_sizes unix_fs with
  | [] => set_block_sizes unix_fs [block_size]
  | l => set_block_sizes unix_fs (l ++ [block_size])
  end.

Section Hash.
Context {SH : Sha256}.

(** On a failed hash the structure is left with freed pointers. *)
Definition ipfs_unixfs_add_data (data : bytes) (data_length : Z) (unix_fs : UnixFS)
  : cres unit UnixFS :=
  bytes ← mem_read (Some data) data_length;
  match libp2p_crypto_hashing_sha256 bytes with
  | None => Err ()
  | Some hash =>
      Ok (MkUnixFS (ux_data_type unix_fs) data_length (Some bytes) (ux_file_size unix_fs)
            (ux_block_sizes unix_fs) (Some hash) 32)
  end.
End Hash.

(** ** Protobuf form *)

Section Protobuf.
Context {PB : Protobuf}.

Definition ipfs_unixfs_protobuf_encode_size (obj : UnixFS) : Z :=
  let sz := u64 (ux_bytes_size obj + 11) in
  let sz := u64 (sz + 2) in
  let sz := u64 (sz + 11) in
  fold_left (fun sz _ => u64 (sz + 11)) (ux_block_sizes obj) sz.

(** The verdicts of the block size encodings are not looked at. *)
Definition unixfs_encode_block_sizes (max_buffer_size : Z) (l : list Z) (out : bytes) : bytes :=
  fold_left (fun out block_size =>
    out ++ enc_written (protobuf_encode_varint 4 WIRETYPE_VARINT block_size
                          (size_sub max_buffer_size (len out)))) l out.

Definition ipfs_unixfs_protobuf_encode (incoming : option UnixFS) (max_buffer_size : Z)
  : cres bytes bytes :=
  match incoming with
  | None => Ok []
  | Some incoming =>
      out ← emit (protobuf_encode_varint 1 WIRETYPE_VARINT (ux_data_type incoming)
                    (size_sub max_buffer_size 0)) [];
      out ← (if 0 <? ux_bytes_size incoming then
               bytes ← mem_read (ux_bytes incoming) (ux_bytes_size incoming);
               emit (protobuf_encode_length_delimited 2 WIRETYPE_LENGTH_DELIMITED bytes
                       (size_sub max_buffer_size (len out))) out
             else Ok out);
      out ← (if 0 <? ux_file_size incoming then
               emit (protobuf_encode_varint 3 WIRETYPE_VARINT (ux_file_size incoming)
                       (size_sub max_buffer_size (len out))) out
             else Ok out);
      Ok (unixfs_encode_block_sizes max_buffer_size (ux_block_sizes incoming) out)
  end.

Definition unixfs_decode_field (incoming : bytes) (incoming_size pos field_no : Z)
  (result : UnixFS) : cres UnixFS (UnixFS * Z) :=
  let at_pos := bdrop pos incoming in
  let room := size_sub incoming_size pos in
  let '(MkUnixFS data_type bytes_size bytes file_size block_sizes hash hash_length) := result in
  if field_no =? 1 then
    let '(v, bytes_read) := varint_decode at_pos room in
    Ok (MkUnixFS (u32 v) bytes_size bytes file_size block_sizes hash hash_length, bytes_read)
  else if field_no =? 2 then
    match protobuf_decode_length_delimited at_pos room with
    | Some (b, bytes_read) =>
        Ok (MkUnixFS data_type (len b) (Some b) file_size block_sizes hash hash_length,
            bytes_read)
    | None => Err result
    end
  else if field_no =? 3 then
    let '(v, bytes_read) := varint_decode at_pos room in
    Ok (MkUnixFS data_type bytes_size bytes v block_sizes hash hash_length, bytes_read)
  else if field_no =? 4 then
    let '(v, bytes_read) := varint_decode at_pos room in
    Ok (ipfs_unixfs_add_blocksize v result, bytes_read)
  else Ok (result, 0).

(** An error leaves [*outgoing] at NULL or at what was decoded so far. *)
Definition ipfs_unixfs_protobuf_decode (incoming : bytes) (incoming_size : Z)
  : cres (option UnixFS) UnixFS :=
  if incoming_size =? 0 then Err None
  else
    match field_loop (unixfs_decode_field incoming incoming_size) incoming incoming_size
            (loop_fuel incoming_size) 0 ipfs_unixfs_new with
    | Ok result => Ok result
    | Err result => Err (Some result)
    | Undef => Undef
    | NoFuel => NoFuel
    end.
End Protobuf.

(** * Properties *)

(** ** The list of block sizes *)

Lemma add_blocksize_app n obj :
  ipfs_unixfs_add_blocksize n obj = set_block_sizes obj (ux_block_sizes obj ++ [n]).
Proof. unfold ipfs_unixfs_add_blocksize. destruct (ux_block_sizes obj); reflexivity. Qed.

Lemma remove_blocksize_last obj :
  ux_block_sizes
    (ipfs_unixfs_remove_blocksize obj (ipfs_unixfs_get_last_block_size obj)) =
  removelast (ux_block_sizes obj).
Proof.
  unfold ipfs_unixfs_remove_blocksize, ipfs_unixfs_get_last_block_size.
  destruct (ux_block_sizes obj) as [| x l] eqn:E; [reflexivity |].
  cbn [length pred]. rewrite Nat.min_l by lia.
  destruct l as [| y l]; [reflexivity |].
  cbn [length set_block_sizes ux_block_sizes].
  rewrite removelast_firstn_len. cbn [length pred].
  rewrite (skipn_all2 (n := S (S (length l)))) by (cbn; lia). apply app_nil_r.
Qed.

Lemma free_blocks_terminates fuel obj :
  (length (ux_block_sizes obj) < fuel)%nat ->
  exists obj', ipfs_unixfs_free_blocks fuel obj = Ok obj' /\ ux_block_sizes obj' = [].
Proof.
  revert obj. induction fuel as [| fuel IH]; intros obj Hf; [lia |]. cbn.
  pose proof (remove_blocksize_last obj) as Hr.
  unfold ipfs_unixfs_get_last_block_size in *.
  destruct (ux_block_sizes obj) as [| x l] eqn:E; [eauto |].
  apply IH. rewrite Hr, removelast_firstn_len, length_firstn. cbn in *. lia.
Qed.

(** ** Protobuf *)

(** The value of the fields that are saved. *)
Definition unixfs_bytes (u : UnixFS) : bytes := default [] (ux_bytes u).
Definition unixfs_value (u : UnixFS) : Z * bytes * Z * list Z :=
  (ux_data_type u, unixfs_bytes u, ux_file_size u, ux_block_sizes u).

Record unixfs_wf (u : UnixFS) : Prop := {
  unixfs_wf_type : 0 <= ux_data_type u < 5;
  unixfs_wf_size : ux_bytes_size u = len (unixfs_bytes u);
  unixfs_wf_file : 0 <= ux_file_size u < 2 ^ 64;
  unixfs_wf_blocks : Forall (fun n => 0 <= n < 2 ^ 64) (ux_block_sizes u);
  unixfs_wf_room : ux_bytes_size u + 11 * len (ux_block_sizes u) < 2 ^ 63
}.

Section ProtobufFacts.
Context {PB : Protobuf} `{!ProtobufLaws PB}.

Definition unixfs_fields (u : UnixFS) : list wfield :=
  [varint_field 1 (ux_data_type u)]
  ++ (if 0 <? ux_bytes_size u then [ld_field 2 (unixfs_bytes u)] else [])
  ++ (if 0 <? ux_file_size u then [varint_field 3 (ux_file_size u)] else [])
  ++ map (varint_field 4) (ux_block_sizes u).

Lemma len_block_fields l :
  Forall (fun n => 0 <= n < 2 ^ 64) l ->
  len (wire_msg (map (varint_field 4) l)) <= 11 * len l.
Proof.
  induction 1 as [| n l Hn _ IH]; [reflexivity |].
  cbn [map]. rewrite wire_msg_cons, len_app, len_varint_field, len_cons by lia.
  pose proof (varint_size_64 n Hn). lia.
Qed.

Lemma fold_size {A} (l : list A) z :
  0 <= z -> z + 11 * len l < 2 ^ 64 ->
  fold_left (fun sz _ => u64 (sz + 11)) l z = z + 11 * len l.
Proof.
  revert z. induction l as [| n l IH]; intros z Hz Hb; cbn [fold_left]; [len_lia |].
  rewrite u64_small by len_lia. rewrite IH; len_lia.
Qed.
Lemma bytes_size_nonneg u : unixfs_wf u -> 0 <= ux_bytes_size u.
Proof. intros [_ -> _ _ _]. apply len_nonneg. Qed.

Lemma encode_size_eq u :
  unixfs_wf u ->
  ipfs_unixfs_protobuf_encode_size u =
    ux_bytes_size u + 24 + 11 * len (ux_block_sizes u).
Proof.
  intros Hu. pose proof (bytes_size_nonneg u Hu). destruct Hu as [_ _ _ _ Hr].
  unfold ipfs_unixfs_protobuf_encode_size.
  rewrite (u64_small (ux_bytes_size u + 11)), (u64_small (_ + 2)), (u64_small (_ + 11))
    by len_lia.
  rewrite fold_size by len_lia. lia.
Qed.

(** The encoding fits in the estimate. *)
Lemma unixfs_fields_bound u :
  unixfs_wf u ->
  len (wire_msg (unixfs_fields u)) <= ux_bytes_size u + 24 + 11 * len (ux_block_sizes u).
Proof.
  intros Hu. pose proof (bytes_size_nonneg u Hu). destruct Hu as [Ht Hs Hf Hb Hr].
  pose proof (len_block_fields _ Hb). pose proof (varint_size_64 _ Hf).
  pose proof (len_nonneg (ux_block_sizes u)).
  unfold unixfs_fields.
  destruct (0 <? ux_bytes_size u) eqn:E1, (0 <? ux_file_size u) eqn:E2; wire_len;
    rewrite varint_size_1 by lia; rewrite <- ?Hs;
    try pose proof (varint_size_64 (ux_bytes_size u) ltac:(lia)); lia.
Qed.

Lemma encode_block_sizes_ok l max out :
  Forall (fun n => 0 <= n < 2 ^ 64) l -> max < 2 ^ 64 ->
  len out + len (wire_msg (map (varint_field 4) l)) <= max ->
  unixfs_encode_block_sizes max l out = out ++ wire_msg (map (varint_field 4) l).
Proof.
  intros Hl Hm. revert out. induction Hl as [| n l Hn _ IH]; intros out Hr.
  - cbn. change (wire_msg []) with (@nil byte); rewrite app_nil_r. reflexivity.
  - cbn [map] in *. rewrite wire_msg_cons, len_app, len_varint_field in Hr by lia.
    pose proof (varint_size_pos n). pose proof (len_nonneg out).
    pose proof (len_nonneg (wire_msg (map (varint_field 4) l))).
    unfold unixfs_encode_block_sizes in *. cbn [fold_left].
    rewrite size_sub_small, encode_varint_room by lia. cbn [enc_written].
    change (wire_key 4 WIRETYPE_VARINT ++ wire_uint n) with (wire_field (varint_field 4 n)).
    rewrite IH by (rewrite len_app, len_varint_field; lia).
    rewrite wire_msg_cons, app_assoc. reflexivity.
Qed.

Lemma unixfs_encode_fields u n :
  unixfs_wf u -> n < 2 ^ 64 -> len (wire_msg (unixfs_fields u)) <= n ->
  ipfs_unixfs_protobuf_encode (Some u) n = Ok (wire_msg (unixfs_fields u)).
Proof.
  intros Hu Hn Hroom. pose proof (bytes_size_nonneg u Hu). destruct Hu as [Ht Hs Hf Hb Hr].
  unfold unixfs_fields in *. unfold ipfs_unixfs_protobuf_encode.
  pose proof (len_nonneg (wire_msg (map (varint_field 4) (ux_block_sizes u)))). pose proof (len_nonneg (unixfs_bytes u)).
  pose proof (varint_size_pos (ux_data_type u)). pose proof (varint_size_pos (ux_file_size u)).
  pose proof (varint_size_pos (len (unixfs_bytes u))). pose proof (len_nonneg (ux_block_sizes u)).
  destruct (0 <? ux_bytes_size u) eqn:E1, (0 <? ux_file_size u) eqn:E2; wire_len;
    rewrite size_sub_small, Z.sub_0_r, emit_varint_first by lia; cbn [mbind cres_bind].
  1,2: unfold unixfs_bytes in *; destruct (ux_bytes u) as [b |]; cbn [from_option id] in *;
    [| len_nils; lia]; rewrite mem_read_len by assumption; cbn [mbind cres_bind];
    rewrite emit_ld by (wire_len; lia); cbn [mbind cres_bind].
  all: rewrite ?emit_varint by (wire_len; lia); cbn [mbind cres_bind];
    rewrite encode_block_sizes_ok by (assumption || wire_len; lia);
    rewrite <- ?app_assoc; reflexivity.
Qed.

(** *** Decoding *)

Lemma unixfs_reads_1 v u :
  0 <= v < 2 ^ 64 ->
  reads unixfs_decode_field 1 (wire_uint v) u
    (MkUnixFS (u32 v) (ux_bytes_size u) (ux_bytes u) (ux_file_size u) (ux_block_sizes u)
       (ux_hash u) (ux_hash_length u)).
Proof.
  intros Hv pre rest buf Hl. subst buf. destruct u. unfold unixfs_decode_field.
  cbn [Z.eqb Pos.eqb]. rewrite at_varint by assumption. reflexivity.
Qed.
Lemma unixfs_reads_2 d u :
  reads unixfs_decode_field 2 (ld_payload d) u
    (MkUnixFS (ux_data_type u) (len d) (Some d) (ux_file_size u) (ux_block_sizes u)
       (ux_hash u) (ux_hash_length u)).
Proof.
  intros pre rest buf Hl. subst buf. destruct u. unfold unixfs_decode_field.
  cbn [Z.eqb Pos.eqb]. rewrite at_ld by assumption. reflexivity.
Qed.
Lemma unixfs_reads_3 v u :
  0 <= v < 2 ^ 64 ->
  reads unixfs_decode_field 3 (wire_uint v) u
    (MkUnixFS (ux_data_type u) (ux_bytes_size u) (ux_bytes u) v (ux_block_sizes u)
       (ux_hash u) (ux_hash_length u)).
Proof.
  intros Hv pre rest buf Hl. subst buf. destruct u. unfold unixfs_decode_field.
  cbn [Z.eqb Pos.eqb]. rewrite at_varint by assumption. reflexivity.
Qed.
Lemma unixfs_reads_4 v u :
  0 <= v < 2 ^ 64 ->
  reads unixfs_decode_field 4 (wire_uint v) u (ipfs_unixfs_add_blocksize v u).
Proof.
  intros Hv pre rest buf Hl. subst buf. destruct u. unfold unixfs_decode_field.
  cbn [Z.eqb Pos.eqb]. rewrite at_varint by assumption. reflexivity.
Qed.

Lemma unixfs_reads_blocks l u :
  Forall (fun n => 0 <= n < 2 ^ 64) l ->
  reads_all unixfs_decode_field (map (varint_field 4) l) u
    (set_block_sizes u (ux_block_sizes u ++ l)).
Proof.
  intros Hl. revert u. induction Hl as [| n l Hn _ IH]; intros u; cbn [map].
  - rewrite app_nil_r. destruct u. constructor.
  - econstructor; [lia | apply unixfs_reads_4, Hn |].
    specialize (IH (ipfs_unixfs_add_blocksize n u)). rewrite add_blocksize_app in *.
    cbn [ux_block_sizes set_block_sizes] in IH. rewrite <- app_assoc in IH. exact IH.
Qed.

(** What decoding the fields of [u] yields: [u] without the unsaved parts. *)
Definition unixfs_saved (u : UnixFS) : UnixFS :=
  MkUnixFS (ux_data_type u) (ux_bytes_size u)
    (if 0 <? ux_bytes_size u then Some (unixfs_bytes u) else None)
    (ux_file_size u) (ux_block_sizes u) None 0.

Lemma unixfs_saved_value u : unixfs_wf u -> unixfs_value (unixfs_saved u) = unixfs_value u.
Proof.
  intros Hu. pose proof (bytes_size_nonneg u Hu). destruct Hu as [_ Hs _ _ _].
  unfold unixfs_value, unixfs_saved, unixfs_bytes at 1. cbn.
  destruct (0 <? ux_bytes_size u) eqn:E; [reflexivity |].
  cbn. rewrite (len_zero (unixfs_bytes u)) by lia. reflexivity.
Qed.

Lemma unixfs_reads u :
  unixfs_wf u ->
  reads_all unixfs_decode_field (unixfs_fields u) ipfs_unixfs_new (unixfs_saved u).
Proof.
  intros Hu. pose proof (bytes_size_nonneg u Hu). destruct Hu as [Ht Hs Hf Hb _].
  unfold unixfs_fields, unixfs_saved, varint_field, ld_field. cbn [app].
  econstructor; [lia | apply unixfs_reads_1; lia |].
  cbn [ux_data_type ux_bytes_size ux_bytes ux_file_size ux_block_sizes ux_hash ux_hash_length
    ipfs_unixfs_new].
  rewrite u32_small by lia. rewrite Hs.
  destruct (0 <? len (unixfs_bytes u)) eqn:E1, (0 <? ux_file_size u) eqn:E2; cbn [app].
  all: repeat first
    [ eapply reads_cons; [lia | apply unixfs_reads_2 |]
    | eapply reads_cons; [lia | apply unixfs_reads_3; assumption |] ].
  all: try replace (ux_file_size u) with 0 by lia;
    try replace (len (unixfs_bytes u)) with 0 by lia;
    match goal with |- reads_all _ _ ?s _ => exact (unixfs_reads_blocks _ s Hb) end.
Qed.

Lemma unixfs_wire_pos u : 0 < len (wire_msg (unixfs_fields u)).
Proof.
  unfold unixfs_fields. cbn [app]. rewrite wire_msg_cons, len_app. cbn [wire_field varint_field].
  rewrite len_app, wire_key_len by lia. len_lia.
Qed.

Lemma unixfs_decode_fields u :
  unixfs_wf u ->
  let b := wire_msg (unixfs_fields u) in
  ipfs_unixfs_protobuf_decode b (len b) = Ok (unixfs_saved u).
Proof.
  intros Hu b. pose proof (unixfs_fields_bound u Hu) as Hb. pose proof (unixfs_wire_pos u).
  pose proof (len_nonneg (ux_block_sizes u)). destruct (unixfs_wf_room u Hu).
  unfold ipfs_unixfs_protobuf_decode. fold b in Hb, H. replace (len b =? 0) with false by lia.
  unfold b. rewrite (field_loop_reads unixfs_decode_field _ _ _ (unixfs_reads u Hu)); [reflexivity |].
  pose proof (unixfs_wf_room u Hu). fold b. lia.
Qed.

Lemma unixfs_decode_returns b n : returns (ipfs_unixfs_protobuf_decode b n).
Proof.
  unfold ipfs_unixfs_protobuf_decode. case_match; [exact I |].
  assert (returns (field_loop (unixfs_decode_field b n) b n (loop_fuel n) 0 ipfs_unixfs_new)) as Hret.
  { apply field_loop_terminates.
    - intros. unfold unixfs_decode_field. repeat case_match; exact I.
    - unfold unixfs_decode_field. step_reads. }
  destruct (field_loop _ _ _ _ _ _); cbn; auto.
Qed.
End ProtobufFacts.

(** ** The properties of this file *)

Section Properties.
Context {PB : Protobuf} `{!ProtobufLaws PB}.

(** A UnixFS structure written with [ipfs_unixfs_protobuf_encode] into a
    buffer of [ipfs_unixfs_protobuf_encode_size] bytes fits, and decoding gives
    back its type, its data, its file size and its block sizes in order. *)
Theorem unixfs_protobuf_roundtrip u :
  unixfs_wf u ->
  exists b u',
    ipfs_unixfs_protobuf_encode (Some u) (ipfs_unixfs_protobuf_encode_size u) = Ok b /\
    len b <= ipfs_unixfs_protobuf_encode_size u /\
    ipfs_unixfs_protobuf_decode b (len b) = Ok u' /\
    unixfs_value u' = unixfs_value u /\ ux_bytes_size u' = ux_bytes_size u.
Proof.
  intros Hu. pose proof (unixfs_fields_bound u Hu) as Hb.
  pose proof (len_nonneg (ux_block_sizes u)). pose proof (unixfs_wf_room u Hu).
  pose proof (encode_size_eq u Hu) as Hs.
  exists (wire_msg (unixfs_fields u)), (unixfs_saved u). rewrite Hs.
  rewrite unixfs_encode_fields by (assumption || lia).
  rewrite unixfs_decode_fields, unixfs_saved_value by assumption. auto.
Qed.

End Properties.

(** [ipfs_unixfs_remove_blocksize] removes exactly the node it is given when
    a node precedes it; given the first node of the list it drops the whole list.
    The loop of [ipfs_unixfs_free], which removes the last node until there is
    none, always ends with an empty list. *)
Theorem unixfs_remove_blocksize_spec u a n c :
  ux_block_sizes u = a ++ n :: c ->
  ux_block_sizes (ipfs_unixfs_remove_blocksize u (Some (length a))) =
    match a with [] => [] | _ => a ++ c end /\
  exists u', ipfs_unixfs_free_blocks (S (length (ux_block_sizes u))) u = Ok u' /\
    ux_block_sizes u' = [].
Proof.
  intros H. split; [| apply free_blocks_terminates; lia]. unfold ipfs_unixfs_remove_blocksize. rewrite H.
  rewrite Nat.min_l by (rewrite length_app; lia).
  destruct a as [| x a]; [reflexivity |]. cbn [length set_block_sizes ux_block_sizes].
  change (x :: a) with ([x] ++ a). change (S (length a)) with (length (x :: a)).
  rewrite take_app_length. rewrite (drop_app_ge (x :: a)) by (cbn; lia).
  replace (S (length (x :: a)) - length (x :: a))%nat with 1%nat by lia. reflexivity.
Qed.

(** * Concrete runs *)

Definition sample_unixfs : UnixFS :=
  MkUnixFS UNIXFS_FILE 3 (Some (str "abc")) 700 [300; 400] None 0.

Lemma sample_unixfs_wf : unixfs_wf sample_unixfs.
Proof. repeat constructor; vm_compute; congruence. Qed.

Lemma unixfs_protobuf_roundtrip_witness :
  exists b u', ipfs_unixfs_protobuf_encode (Some sample_unixfs) 49 = Ok b /\
    ipfs_unixfs_protobuf_decode b (len b) = Ok u' /\
    unixfs_value u' = unixfs_value sample_unixfs.
Proof.
  destruct (unixfs_protobuf_roundtrip sample_unixfs sample_unixfs_wf)
    as (b & u' & He & _ & Hd & Hv & _).
  exists b, u'. auto.
Defined.

Lemma unixfs_remove_blocksize_spec_witness :
  ux_block_sizes (ipfs_unixfs_remove_blocksize sample_unixfs (Some 0%nat)) = [] /\
  ux_block_sizes (ipfs_unixfs_remove_blocksize sample_unixfs (Some 1%nat)) = [300].
Proof.
  split.
  - apply (unixfs_remove_blocksize_spec sample_unixfs [] 300 [400] eq_refl).
  - apply (unixfs_remove_blocksize_spec sample_unixfs [300] 400 [] eq_refl).
Defined.
