(* ===== verification/MerkleNode.v ===== *)
(** Merkledag nodes and their links (src/merkledag/node.c,
    include/ipfs/merkledag/node.h). *)

From S2P Require Import Prelude Libc Protobuf Libs ProtobufRef LibsRef UnixFS.

Record NodeLink := MkNodeLink {
  nl_hash_size : Z;
  nl_hash : option bytes;
  nl_name : option bytes;
  nl_t_size : Z
}.

(** [nd_links] is the chain from [head_link]. It ends in NULL, or, when
    [nd_dangling], in a pointer to a freed link. *)
Record HashtableNode := MkNode {
  nd_data_size : Z;
  nd_data : option bytes;
  nd_links : list NodeLink;
  nd_dangling : bool;
  nd_encoded : option bytes;
  nd_hash : option bytes;
  nd_hash_size : Z
}.

#[export] Instance NodeLink_eq_dec : EqDecision NodeLink.
Proof. solve_decision. Defined.
#[export] Instance HashtableNode_eq_dec : EqDecision HashtableNode.
Proof. solve_decision. Defined.

Definition set_links (n : HashtableNode) (l : list NodeLink) (dangling : bool) : HashtableNode :=
  MkNode (nd_data_size n) (nd_data n) l dangling (nd_encoded n) (nd_hash n) (nd_hash_size n).

(** ** Links *)

Definition ipfs_node_link_new : NodeLink := MkNodeLink 0 None None 0.

Definition ipfs_node_link_create {E} (name ahash : option bytes) (hash_size : Z)
  : cres E NodeLink :=
  hash ← mem_read ahash hash_size;
  let name := match name with
              | Some s => if 0 <? strlen s then Some (c_str s) else None
              | None => None
              end in
  Ok (MkNodeLink hash_size (Some hash) name 0).

(** [strlen] of the name, where there is one. *)
Definition link_name (l : NodeLink) : bytes :=
  match nl_name l with Some s => c_str s | None => [] end.

Definition ipfs_node_link_protobuf_encode_size (link : option NodeLink) : Z :=
  match link with
  | None => 0
  | Some link =>
      u64 ((if 0 <? nl_hash_size link then 11 + nl_hash_size link else 0)
           + (if 0 <? len (link_name link) then 11 + len (link_name link) else 0)
           + (if 0 <? nl_t_size link then 22 else 0))
  end.

(** ** Nodes: construction and accessors *)

Definition ipfs_hashtable_node_new : HashtableNode := MkNode 0 None [] false None None 0.

Definition ipfs_hashtable_node_set_hash {E} (node : HashtableNode) (hash : option bytes)
  (hash_size : Z) : cres E HashtableNode :=
  let '(MkNode data_size data links dangling encoded old_hash old_size) := node in
  let '(h, size) := if negb (bool_decide (old_hash = None)) && negb (hash_size =? old_size)
                    then (None, 0) else (old_hash, old_size) in
  if 0 <? hash_size then
    new_hash ← mem_read hash hash_size;
    Ok (MkNode data_size data links dangling encoded (Some new_hash) hash_size)
  else Ok (MkNode data_size data links dangling encoded h size).

Definition ipfs_hashtable_node_set_data (node : option HashtableNode) (Data : option bytes)
  (data_size : Z) : cres unit HashtableNode :=
  match node, Data with
  | Some n, Some _ =>
      data ← mem_read Data data_size;
      Ok (MkNode data_size (Some data) (nd_links n) (nd_dangling n) (nd_encoded n)
            (nd_hash n) (nd_hash_size n))
  | _, _ => Err ()
  end.

Definition ipfs_hashtable_node_set_encoded (N : option HashtableNode) (Data : option bytes)
  : cres unit HashtableNode :=
  match N, Data with
  | Some n, Some _ =>
      Ok (MkNode (nd_data_size n) (nd_data n) (nd_links n) (nd_dangling n) Data
            (nd_hash n) (nd_hash_size n))
  | _, _ => Err ()
  end.

Definition ipfs_hashtable_node_get_data (N : HashtableNode) : option bytes := nd_data N.

Definition ipfs_hashtable_node_new_from_data (data : option bytes) (data_size : Z)
  : cres unit HashtableNode :=
  match data with
  | Some _ => ipfs_hashtable_node_set_data (Some ipfs_hashtable_node_new) data data_size
  | None => Err ()
  end.

Definition ipfs_hashtable_node_new_from_encoded (data : option bytes)
  : cres unit HashtableNode :=
  match data with
  | Some _ => Ok (MkNode 0 None [] false data None 0)
  | None => Err ()
  end.

(** ** Nodes: the chain of links *)

(** A walk to the end of the chain. *)
Definition all_links {E} (node : HashtableNode) : cres E (list NodeLink) :=
  if nd_dangling node then Undef else Ok (nd_links node).

(** The last link: its position. *)
Definition ipfs_node_link_last (node : HashtableNode) : cres unit (option nat) :=
  l ← all_links node;
  Ok (match l with [] => None | _ => Some (pred (length l)) end).

(** [mylink] is a link with nothing after it. *)
Definition ipfs_hashtable_node_add_link {E} (node : HashtableNode) (mylink : NodeLink)
  : cres E HashtableNode :=
  l ← all_links node;
  match l with
  | [] => Ok (set_links node [mylink] false)
  | l => Ok (set_links node (l ++ [mylink]) false)
  end.

Definition ipfs_hashtable_node_new_from_link (mylink : NodeLink) : cres unit HashtableNode :=
  n ← ipfs_hashtable_node_add_link ipfs_hashtable_node_new mylink;
  Ok (MkNode 0 None (nd_links n) (nd_dangling n) None None 0).

(** [toRemove] is the position of a link of the chain, or another pointer. A
    link in the middle is freed and stays linked. *)
Definition ipfs_node_remove_link (node : HashtableNode) (toRemove : option nat)
  : cres HashtableNode HashtableNode :=
  let l := nd_links node in
  match toRemove with
  | Some i =>
      if (i <? length l)%nat then
        match i with
        | O => Ok (set_links node (tail l) (nd_dangling node))
        | S _ => Ok (set_links node (take i l) true)
        end
      else if nd_dangling node then Undef else Err node
  | None => if nd_dangling node then Undef else Err node
  end.

(** The first link that [stop] accepts; a link [stop] cannot judge is a NULL
    dereference. *)
Fixpoint find_link (stop : NodeLink -> option bool) (l : list NodeLink) (dangling : bool)
  : cres unit (option nat) :=
  match l with
  | [] => if dangling then Undef else Ok None
  | x :: l =>
      match stop x with
      | None => Undef
      | Some true => Ok (Some O)
      | Some false => r ← find_link stop l dangling; Ok (option_map S r)
      end
  end.

(** [strcmp] on the link's name, which may be NULL. *)
Definition ipfs_hashtable_node_get_link_by_name (N : HashtableNode) (Name : bytes)
  : cres unit (option nat) :=
  find_link (fun l => s ← nl_name l; Some (str_eq (c_str Name) (c_str s)))
    (nd_links N) (nd_dangling N).

Definition name_matches (Name : option bytes) (l : NodeLink) : bool :=
  match Name, nl_name l with
  | None, None => true
  | Some a, Some b => str_eq (c_str a) (c_str b)
  | _, _ => false
  end.

(** A match at the head is only dropped when another link follows. *)
Definition ipfs_hashtable_node_remove_link_by_name (Name : option bytes)
  (mynode : HashtableNode) : cres unit HashtableNode :=
  let l := nd_links mynode in
  found ← find_link (fun l => Some (name_matches Name l)) l (nd_dangling mynode);
  match found with
  | None => Err ()
  | Some O =>
      match tail l, nd_dangling mynode with
      | [], false => Ok mynode
      | t, d => Ok (set_links mynode t d)
      end
  | Some i => Ok (set_links mynode (take i l ++ drop (S i) l) (nd_dangling mynode))
  end.

(** ** Protobuf form *)

Section Protobuf.
Context {PB : Protobuf} {MH : Multihash}.

(** The multihash is built in a local array of [mh_new_length] bytes. *)
Definition ipfs_node_link_protobuf_encode (link : NodeLink) (max_buffer_length : Z)
  : cres bytes bytes :=
  out ← (if 0 <? nl_hash_size link then
           digest ← mem_read (nl_hash link) (nl_hash_size link);
           match mh_new MH_H_SHA2_256 digest with
           | None => Undef
           | Some hash =>
               hash ← mem_read (Some hash)
                        (u64 (mh_new_length MH_H_SHA2_256 (nl_hash_size link)));
               emit (protobuf_encode_length_delimited 1 WIRETYPE_LENGTH_DELIMITED hash
                       (size_sub max_buffer_length 0)) []
           end
         else Ok []);
  out ← emit (protobuf_encode_string 2 WIRETYPE_LENGTH_DELIMITED (link_name link)
                (size_sub max_buffer_length (len out))) out;
  if 0 <? nl_t_size link then
    emit (protobuf_encode_varint 3 WIRETYPE_VARINT (nl_t_size link)
            (size_sub max_buffer_length (len out))) out
  else Ok out.

Definition link_decode_field (buffer : bytes) (buffer_length pos field_no : Z)
  (link : NodeLink) : cres NodeLink (NodeLink * Z) :=
  let at_pos := bdrop pos buffer in
  let room := size_sub buffer_length pos in
  if field_no =? 1 then
    match protobuf_decode_length_delimited at_pos room with
    | None => Err link
    | Some (hash, bytes_read) =>
        if len hash <? 2 then Err link
        else Ok (MkNodeLink (len hash - 2) (Some (bdrop 2 hash)) (nl_name link)
                   (nl_t_size link), bytes_read)
    end
  else if field_no =? 2 then
    match protobuf_decode_string at_pos room with
    | None => Err link
    | Some (name, bytes_read) =>
        Ok (MkNodeLink (nl_hash_size link) (nl_hash link) (Some name) (nl_t_size link),
            bytes_read)
    end
  else if field_no =? 3 then
    match protobuf_decode_varint at_pos room with
    | None => Err link
    | Some (v, bytes_read) =>
        Ok (MkNodeLink (nl_hash_size link) (nl_hash link) (nl_name link) v, bytes_read)
    end
  else Ok (link, 0).

(** On failure the link is freed. *)
Definition ipfs_node_link_protobuf_decode (buffer : bytes) (buffer_length : Z)
  : cres unit NodeLink :=
  on_err (field_loop (link_decode_field buffer buffer_length) buffer buffer_length
            (loop_fuel buffer_length) 0 ipfs_node_link_new) ().

Definition sum (l : list Z) : Z := fold_right Z.add 0 l.

Definition ipfs_hashtable_node_protobuf_encode_size {E} (node : HashtableNode) : cres E Z :=
  links ← all_links node;
  Ok (u64 (sum (map (fun l => 11 + ipfs_node_link_protobuf_encode_size (Some l)) links)
           + (if 0 <? nd_data_size node then 11 + nd_data_size node else 0))).

Fixpoint node_encode_links (links : list NodeLink) (max_buffer_length : Z) (out : bytes)
  : cres bytes bytes :=
  match links with
  | [] => Ok out
  | current :: links =>
      let temp_size := ipfs_node_link_protobuf_encode_size (Some current) in
      temp ← on_err (ipfs_node_link_protobuf_encode current temp_size) out;
      out ← emit (protobuf_encode_length_delimited 2 WIRETYPE_LENGTH_DELIMITED temp
                    (size_sub max_buffer_length (len out))) out;
      node_encode_links links max_buffer_length out
  end.

Definition ipfs_hashtable_node_protobuf_encode (node : HashtableNode) (max_buffer_length : Z)
  : cres bytes bytes :=
  links ← all_links node;
  out ← node_encode_links links max_buffer_length [];
  if 0 <? nd_data_size node then
    data ← mem_read (nd_data node) (nd_data_size node);
    emit (protobuf_encode_length_delimited 1 WIRETYPE_LENGTH_DELIMITED data
            (size_sub max_buffer_length (len out))) out
  else Ok out.

Definition set_data_field (n : HashtableNode) (d : bytes) : HashtableNode :=
  MkNode (len d) (Some d) (nd_links n) (nd_dangling n) (nd_encoded n) (nd_hash n)
    (nd_hash_size n).

(** A link that does not decode is left out. *)
Definition node_decode_field (buffer : bytes) (buffer_length pos field_no : Z)
  (node : HashtableNode) : cres HashtableNode (HashtableNode * Z) :=
  let at_pos := bdrop pos buffer in
  let room := size_sub buffer_length pos in
  if field_no =? 1 then
    match protobuf_decode_length_delimited at_pos room with
    | None => Err node
    | Some (data, bytes_read) => Ok (set_data_field node data, bytes_read)
    end
  else if field_no =? 2 then
    match protobuf_decode_length_delimited at_pos room with
    | None => Err node
    | Some (temp_buffer, bytes_read) =>
        match ipfs_node_link_protobuf_decode temp_buffer (len temp_buffer) with
        | Ok temp_link =>
            node ← ipfs_hashtable_node_add_link node temp_link;
            Ok (node, bytes_read)
        | Err _ => Ok (node, bytes_read)
        | Undef => Undef
        | NoFuel => NoFuel
        end
    end
  else Ok (node, 0).

(** An empty buffer makes the function free what the caller's [*node] holds:
    [caller_node] says that it is NULL or a node. *)
Definition ipfs_hashtable_node_protobuf_decode (buffer : bytes) (buffer_length : Z)
  (caller_node : bool) : cres unit HashtableNode :=
  if buffer_length =? 0 then if caller_node then Err () else Undef
  else
    on_err (field_loop (node_decode_field buffer buffer_length) buffer buffer_length
              (loop_fuel buffer_length) 0 ipfs_hashtable_node_new) ().

(** ** Directories *)

Definition ipfs_hashtable_node_create_directory : cres unit HashtableNode :=
  let unix_fs := MkUnixFS UNIXFS_DIRECTORY 0 None 0 [] None 0 in
  let protobuf_len := ipfs_unixfs_protobuf_encode_size unix_fs in
  protobuf ← on_err (ipfs_unixfs_protobuf_encode (Some unix_fs) protobuf_len) ();
  ipfs_hashtable_node_set_data (Some ipfs_hashtable_node_new) (Some protobuf) (len protobuf).

Definition ipfs_hashtable_node_is_directory (node : HashtableNode) : cres unit bool :=
  if nd_data_size node <? 2 then Ok false
  else
    data ← mem_read (nd_data node) (nd_data_size node);
    match ipfs_unixfs_protobuf_decode data (nd_data_size node) with
    | Ok unix_fs => Ok (ux_data_type unix_fs =? UNIXFS_DIRECTORY)
    | Err _ => Ok false
    | Undef => Undef
    | NoFuel => NoFuel
    end.
End Protobuf.

(** ** Freeing *)

(** The loop of [ipfs_hashtable_node_free]: each link in turn, by then the head,
    is handed to [ipfs_node_remove_link]. *)
Fixpoint node_free_links (fuel : nat) (N : HashtableNode) : cres HashtableNode HashtableNode :=
  match fuel with
  | O => NoFuel
  | S fuel =>
      match nd_links N with
      | [] => if nd_dangling N then Undef else Ok N
      | _ => N ← ipfs_node_remove_link N (Some O); node_free_links fuel N
      end
  end.

Definition ipfs_hashtable_node_free (N : option HashtableNode) : cres HashtableNode unit :=
  match N with
  | None => Ok ()
  | Some N => _ ← node_free_links (S (length (nd_links N))) N; Ok ()
  end.

(** ** Paths *)

Definition Node_Resolve_Max_Size (input1 : option bytes) : Z :=
  match input1 with
  | None => -1
  | Some s => len (strtok_all (c_str s) (str "/"))
  end.

(** The strings put in the result array. *)
Definition Node_Resolve (input1 : option bytes) : option (list bytes) :=
  match input1 with
  | None => None
  | Some s => Some (strtok_all (c_str s) (str "/"))
  end.

(** The loop over the names: the node after it, and the links copied. A link
    found is copied only when [malloc] fails, and then freed while it still is
    in the chain. *)
Fixpoint resolve_links_loop (N : HashtableNode) (names : list bytes) (ammount : Z)
  : cres unit (HashtableNode * Z) :=
  match names with
  | [] => Ok (N, ammount)
  | name :: names =>
      proclink ← ipfs_hashtable_node_get_link_by_name N name;
      match proclink with
      | None => resolve_links_loop N names ammount
      | Some i => resolve_links_loop (set_links N (take i (nd_links N)) true) names ammount
      end
  end.

Definition Node_Resolve_Links (N : option HashtableNode) (path : option bytes)
  : cres unit (HashtableNode * Z) :=
  match N, path with
  | Some n, Some _ =>
      match Node_Resolve path with
      | Some names => resolve_links_loop n names 0
      | None => Err ()
      end
  | _, _ => Err ()
  end.

Definition Node_Tree (input1 : option bytes) : option bytes :=
  match input1 with
  | None => None
  | Some s => Some (map (fun c => if decide (c = byte_of 47) then byte_of 32 else c) (c_str s))
  end.

(** * Properties *)

Definition link_digest (l : NodeLink) : bytes := default [] (nl_hash l).
Definition link_value (l : NodeLink) : bytes * bytes * Z :=
  (link_digest l, link_name l, nl_t_size l).
Definition node_data (n : HashtableNode) : bytes := default [] (nd_data n).
(** What of a node is saved. *)
Definition node_value (n : HashtableNode) : bytes * list (bytes * bytes * Z) :=
  (node_data n, map link_value (nd_links n)).

(** The estimates without wrap-around. *)
Definition link_room (l : NodeLink) : Z :=
  (if 0 <? nl_hash_size l then 11 + nl_hash_size l else 0)
  + (if 0 <? len (link_name l) then 11 + len (link_name l) else 0)
  + (if 0 <? nl_t_size l then 22 else 0).
Definition node_room (n : HashtableNode) : Z :=
  sum (map (fun l => 11 + link_room l) (nd_links n))
  + (if 0 <? nd_data_size n then 11 + nd_data_size n else 0).

(** A link with a hash whose multihash length takes one byte. *)
Record link_wf (l : NodeLink) : Prop := {
  link_wf_hash : nl_hash_size l = len (link_digest l);
  link_wf_size : 0 < nl_hash_size l < 128;
  link_wf_name : match nl_name l with Some s => cstring s | None => True end;
  link_wf_tsize : 0 <= nl_t_size l < 2 ^ 64
}.
Record node_wf (n : HashtableNode) : Prop := {
  node_wf_live : nd_dangling n = false;
  node_wf_data : nd_data_size n = len (node_data n);
  node_wf_links : Forall link_wf (nd_links n);
  node_wf_room : node_room n < 2 ^ 63
}.

Lemma link_room_pos l : link_wf l -> 12 <= link_room l.
Proof.
  intros [_ H _ _]. unfold link_room. pose proof (len_nonneg (link_name l)).
  repeat case_match; lia.
Qed.
Lemma sum_room_nonneg ls :
  Forall link_wf ls -> 0 <= sum (map (fun l => 11 + link_room l) ls).
Proof.
  induction 1 as [| l ls Hl _ IH]; cbn; [lia |]. pose proof (link_room_pos l Hl).
  unfold sum in IH. lia.
Qed.
Lemma sum_room_in l ls :
  Forall link_wf ls -> l ∈ ls -> link_room l <= sum (map (fun l => 11 + link_room l) ls).
Proof.
  intros H Hin. induction H as [| x ls Hx H IH]; [inversion Hin |].
  cbn [map sum fold_right]. fold (sum (map (fun l => 11 + link_room l) ls)).
  pose proof (sum_room_nonneg ls H). pose proof (link_room_pos x Hx).
  apply elem_of_cons in Hin as [-> | Hin]; [lia | specialize (IH Hin); lia].
Qed.
Lemma data_size_nonneg n : node_wf n -> 0 <= nd_data_size n.
Proof. intros [_ -> _ _]. apply len_nonneg. Qed.
Lemma node_room_nonneg n : node_wf n -> 0 <= node_room n.
Proof.
  intros Hn. pose proof (data_size_nonneg n Hn) as Hd. destruct Hn as [_ _ H _].
  pose proof (sum_room_nonneg _ H). unfold node_room. case_match; lia.
Qed.
Lemma node_link_room n l : node_wf n -> l ∈ nd_links n -> link_room l < 2 ^ 63.
Proof.
  intros Hn Hin. pose proof (data_size_nonneg n Hn) as Hd. destruct Hn as [_ _ H Hr].
  pose proof (sum_room_in l _ H Hin). unfold node_room in Hr. case_match; lia.
Qed.

Section ProtobufFacts.
Context {PB : Protobuf} {MH : Multihash} `{!ProtobufLaws PB} `{!MultihashLaws MH}.

Definition sha2_multihash (d : bytes) : bytes := byte_of 18 :: byte_of (len d) :: d.

Definition link_fields (l : NodeLink) : list wfield :=
  [ld_field 1 (sha2_multihash (link_digest l)); ld_field 2 (link_name l)]
  ++ (if 0 <? nl_t_size l then [varint_field 3 (nl_t_size l)] else []).
Definition link_wire (l : NodeLink) : bytes := wire_msg (link_fields l).

Definition node_fields (n : HashtableNode) : list wfield :=
  map (fun l => ld_field 2 (link_wire l)) (nd_links n)
  ++ (if 0 <? nd_data_size n then [ld_field 1 (node_data n)] else []).
Definition node_wire (n : HashtableNode) : bytes := wire_msg (node_fields n).

Lemma link_encode_size l :
  link_wf l -> link_room l < 2 ^ 63 ->
  ipfs_node_link_protobuf_encode_size (Some l) = link_room l.
Proof.
  intros Hl Hr. pose proof (link_room_pos l Hl). unfold link_room in *.
  apply u64_small. lia.
Qed.

Lemma len_sha2_multihash d : len (sha2_multihash d) = len d + 2.
Proof. unfold sha2_multihash. rewrite !len_cons. lia. Qed.

(** The estimate leaves room for the name field that is always written. *)
Lemma link_wire_bound l :
  link_wf l -> link_room l < 2 ^ 63 -> len (link_wire l) <= link_room l.
Proof.
  intros Hl Hr. destruct Hl as [Hh Hs _ Ht]. unfold link_wire, link_fields, link_room in *.
  pose proof (len_nonneg (link_name l)) as Hn.
  pose proof (len_sha2_multihash (link_digest l)) as Hm. rewrite <- Hh in Hm.
  replace (0 <? nl_hash_size l) with true in * by lia.
  assert (len (link_name l) < 2 ^ 63) as Hn' by (repeat case_match; lia).
  pose proof (varint_size_pow (nl_hash_size l + 2) 1 ltac:(lia) ltac:(lia)).
  pose proof (varint_size_64 (len (link_name l)) ltac:(lia)).
  pose proof (varint_size_64 (nl_t_size l) Ht).
  destruct (0 <? nl_t_size l) eqn:E; cbn [app]; wire_len; rewrite Hm;
    destruct (0 <? len (link_name l)) eqn:E2; try lia;
    rewrite (varint_size_1 (len (link_name l))) by lia; lia.
Qed.

Lemma link_encode_fields l :
  link_wf l -> link_room l < 2 ^ 63 ->
  ipfs_node_link_protobuf_encode l (ipfs_node_link_protobuf_encode_size (Some l)) =
    Ok (link_wire l).
Proof.
  intros Hl Hr. rewrite link_encode_size by assumption.
  pose proof (link_wire_bound l Hl Hr) as Hb. pose proof (link_room_pos l Hl).
  destruct Hl as [Hh Hs _ Ht].
  unfold link_wire, link_fields in *. unfold ipfs_node_link_protobuf_encode.
  pose proof (len_nonneg (link_name l)).
  assert (len (link_name l) < 2 ^ 63) as Hn' by (unfold link_room in Hr; repeat case_match; lia).
  pose proof (len_sha2_multihash (link_digest l)) as Hm. rewrite <- Hh in Hm.
  pose proof (varint_size_pos (len (link_name l))). pose proof (varint_size_pos (nl_t_size l)).
  pose proof (varint_size_pos (len (sha2_multihash (link_digest l)))).
  replace (0 <? nl_hash_size l) with true by lia.
  replace (mem_read (nl_hash l) (nl_hash_size l)) with (@Ok bytes bytes (link_digest l)).
  2: { symmetry. unfold link_digest in *. destruct (nl_hash l); cbn in Hh |- *;
       [apply mem_read_len; exact Hh | len_nils; lia]. }
  cbn [mbind cres_bind]. rewrite mh_new_sha2 by lia.
  fold (sha2_multihash (link_digest l)).
  rewrite mh_new_length_sha2, u64_small, mem_read_len by lia. cbn [mbind cres_bind].
  destruct (0 <? nl_t_size l) eqn:E; cbn [app] in *; wire_len;
    rewrite size_sub_small, Z.sub_0_r, emit_ld_first by lia; cbn [mbind cres_bind];
    rewrite emit_string by (wire_len; lia); cbn [mbind cres_bind].
  - rewrite emit_varint by (wire_len; lia). rewrite <- app_assoc. reflexivity.
  - reflexivity.
Qed.

(** *** Links read back *)

Definition link_saved (l : NodeLink) : NodeLink :=
  MkNodeLink (nl_hash_size l) (Some (link_digest l)) (Some (link_name l)) (nl_t_size l).

Lemma link_name_cstring l : cstring (link_name l).
Proof.
  unfold link_name. destruct (nl_name l); [apply c_str_cstring |].
  unfold cstring. apply not_elem_of_nil.
Qed.
Lemma link_saved_value l : link_value (link_saved l) = link_value l.
Proof.
  unfold link_value, link_saved, link_digest, link_name at 1. cbn.
  rewrite c_str_id by apply link_name_cstring. reflexivity.
Qed.

Lemma link_reads_1 d l :
  reads link_decode_field 1 (ld_payload (sha2_multihash d)) l
    (MkNodeLink (len d) (Some d) (nl_name l) (nl_t_size l)).
Proof.
  intros pre rest buf Hl. subst buf. unfold link_decode_field. cbn [Z.eqb Pos.eqb].
  rewrite at_ld, len_sha2_multihash by assumption. pose proof (len_nonneg d).
  replace (len d + 2 <? 2) with false by lia. repeat f_equal. lia.
Qed.
Lemma link_reads_2 d l :
  cstring d ->
  reads link_decode_field 2 (ld_payload d) l
    (MkNodeLink (nl_hash_size l) (nl_hash l) (Some d) (nl_t_size l)).
Proof.
  intros Hd pre rest buf Hl. subst buf. unfold link_decode_field. cbn [Z.eqb Pos.eqb].
  rewrite at_string by assumption. reflexivity.
Qed.
Lemma link_reads_3 v l :
  0 <= v < 2 ^ 64 ->
  reads link_decode_field 3 (wire_uint v) l
    (MkNodeLink (nl_hash_size l) (nl_hash l) (nl_name l) v).
Proof.
  intros Hv pre rest buf Hl. subst buf. unfold link_decode_field. cbn [Z.eqb Pos.eqb].
  rewrite at_pb_varint by assumption. reflexivity.
Qed.

Lemma link_reads l :
  link_wf l -> reads_all link_decode_field (link_fields l) ipfs_node_link_new (link_saved l).
Proof.
  intros [Hh _ _ Ht]. unfold link_fields, link_saved, ld_field, varint_field. cbn [app].
  econstructor; [lia | apply link_reads_1 |].
  econstructor; [lia | apply link_reads_2, link_name_cstring |].
  cbn [nl_hash_size nl_hash nl_name nl_t_size]. rewrite Hh.
  destruct (0 <? nl_t_size l) eqn:E.
  - econstructor; [lia | apply link_reads_3, Ht | constructor].
  - cbn. replace (nl_t_size l) with 0 by lia. constructor.
Qed.

Lemma link_decode_wire l :
  link_wf l -> link_room l < 2 ^ 63 ->
  ipfs_node_link_protobuf_decode (link_wire l) (len (link_wire l)) = Ok (link_saved l).
Proof.
  intros Hl Hr. pose proof (link_wire_bound l Hl Hr). unfold ipfs_node_link_protobuf_decode.
  unfold link_wire in *. rewrite (field_loop_reads link_decode_field _ _ _ (link_reads l Hl)) by lia.
  reflexivity.
Qed.

(** *** Nodes *)

Lemma link_field_bound l :
  link_wf l -> link_room l < 2 ^ 63 ->
  len (wire_field (ld_field 2 (link_wire l))) <= 11 + link_room l.
Proof.
  intros Hl Hr. pose proof (link_wire_bound l Hl Hr). pose proof (len_nonneg (link_wire l)).
  rewrite len_ld_field by lia. pose proof (varint_size_64 (len (link_wire l)) ltac:(lia)). lia.
Qed.
Lemma links_wire_bound ls :
  Forall link_wf ls -> Forall (fun l => link_room l < 2 ^ 63) ls ->
  len (wire_msg (map (fun l => ld_field 2 (link_wire l)) ls)) <=
    sum (map (fun l => 11 + link_room l) ls).
Proof.
  intros H. induction H as [| l ls Hl _ IH]; intros Hr; [reflexivity |].
  apply Forall_cons in Hr as [Hr Hrs]. cbn [map]. rewrite wire_msg_cons, len_app.
  pose proof (link_field_bound l Hl Hr). specialize (IH Hrs). cbn [sum fold_right].
  unfold sum in IH. lia.
Qed.
Lemma node_rooms n : node_wf n -> Forall (fun l => link_room l < 2 ^ 63) (nd_links n).
Proof. intros Hn. apply Forall_forall. eauto using node_link_room. Qed.

Lemma node_wire_bound n : node_wf n -> len (node_wire n) <= node_room n.
Proof.
  intros Hn. pose proof (data_size_nonneg n Hn). pose proof (node_rooms n Hn) as Hrs.
  pose proof (node_room_nonneg n Hn). destruct Hn as [_ Hd Hls Hr].
  pose proof (links_wire_bound _ Hls Hrs) as Hb. pose proof (sum_room_nonneg _ Hls).
  unfold node_wire, node_fields, node_room in *.
  destruct (0 <? nd_data_size n) eqn:E; wire_len; [| lia].
  rewrite <- Hd. pose proof (varint_size_64 (nd_data_size n) ltac:(lia)). lia.
Qed.

Lemma node_encode_size_eq {E} n :
  node_wf n -> @ipfs_hashtable_node_protobuf_encode_size E n = Ok (node_room n).
Proof.
  intros Hn. pose proof (node_room_nonneg n Hn). pose proof (node_rooms n Hn) as Hrs.
  destruct Hn as [Hlive Hd Hls Hr].
  unfold ipfs_hashtable_node_protobuf_encode_size, all_links. rewrite Hlive.
  cbn [mbind cres_bind]. f_equal. unfold node_room in *.
  rewrite <- (u64_small _ ltac:(split; [exact H | eapply Z.lt_trans; [exact Hr | lia]])).
  f_equal. f_equal. f_equal. clear -Hls Hrs ProtobufLaws0.
  induction Hls as [| l ls Hl _ IH]; [reflexivity |].
  apply Forall_cons in Hrs as [Hr Hrs]. cbn [map]. rewrite link_encode_size, IH by assumption.
  reflexivity.
Qed.

Lemma encode_links_ok ls max out :
  Forall link_wf ls -> Forall (fun l => link_room l < 2 ^ 63) ls -> max < 2 ^ 64 ->
  len out + len (wire_msg (map (fun l => ld_field 2 (link_wire l)) ls)) <= max ->
  node_encode_links ls max out =
    Ok (out ++ wire_msg (map (fun l => ld_field 2 (link_wire l)) ls)).
Proof.
  intros Hls Hrs Hm. revert out. induction Hls as [| l ls Hl _ IH]; intros out Hmax.
  - cbn. change (wire_msg []) with (@nil byte). rewrite app_nil_r. reflexivity.
  - apply Forall_cons in Hrs as [Hr Hrs]. cbn [map] in Hmax |- *.
    rewrite wire_msg_cons, len_app in Hmax.
    pose proof (len_nonneg (wire_msg (map (fun l => ld_field 2 (link_wire l)) ls))).
    pose proof (link_wire_bound l Hl Hr).
    cbn [node_encode_links]. rewrite link_encode_fields by assumption.
    cbn [mbind cres_bind on_err].
    rewrite emit_ld by (rewrite len_ld_field in Hmax by lia; lia). cbn [mbind cres_bind].
    rewrite IH by (rewrite ?len_app; assumption || lia).
    rewrite wire_msg_cons, app_assoc. reflexivity.
Qed.

Lemma node_data_read {E} n :
  node_wf n -> @mem_read E (nd_data n) (nd_data_size n) = Ok (node_data n).
Proof.
  intros [_ Hd _ _]. unfold node_data in *. destruct (nd_data n); cbn in Hd |- *.
  - apply mem_read_len, Hd.
  - rewrite Hd. reflexivity.
Qed.

Lemma node_encode_fields n max :
  node_wf n -> max < 2 ^ 64 -> len (node_wire n) <= max ->
  ipfs_hashtable_node_protobuf_encode n max = Ok (node_wire n).
Proof.
  intros Hn Hm Hmax. pose proof (data_size_nonneg n Hn). pose proof (node_rooms n Hn) as Hrs.
  pose proof (@node_data_read bytes n Hn) as Hread. pose proof (node_wire_bound n Hn).
  pose proof Hn as [Hlive Hd Hls Hr].
  unfold node_wire, node_fields in *. unfold ipfs_hashtable_node_protobuf_encode, all_links.
  rewrite Hlive. cbn [mbind cres_bind]. rewrite wire_msg_app, len_app in *.
  match type of Hmax with _ + len ?w <= _ => pose proof (len_nonneg w) end.
  rewrite encode_links_ok by (assumption || len_nils; lia). cbn [mbind cres_bind app].
  assert (len (node_data n) < 2 ^ 63) by (pose proof (sum_room_nonneg _ Hls);
    unfold node_room in Hr; rewrite <- Hd; case_match; lia).
  destruct (0 <? nd_data_size n) eqn:E.
  - rewrite Hread. cbn [mbind cres_bind].
    rewrite emit_ld by (wire_len; lia).
    rewrite wire_msg_cons, wire_msg_nil, app_nil_r. reflexivity.
  - change (wire_msg []) with (@nil byte). rewrite app_nil_r. reflexivity.
Qed.

(** *** Nodes read back *)

Lemma add_link_live {E} n l :
  nd_dangling n = false ->
  @ipfs_hashtable_node_add_link E n l = Ok (set_links n (nd_links n ++ [l]) false).
Proof.
  intros H. unfold ipfs_hashtable_node_add_link, all_links. rewrite H. cbn.
  destruct (nd_links n); reflexivity.
Qed.

Lemma node_reads_2 l n :
  link_wf l -> link_room l < 2 ^ 63 -> nd_dangling n = false ->
  reads node_decode_field 2 (ld_payload (link_wire l)) n
    (set_links n (nd_links n ++ [link_saved l]) false).
Proof.
  intros Hl Hr Hlive pre rest buf Hb. subst buf. unfold node_decode_field. cbn [Z.eqb Pos.eqb].
  rewrite at_ld, link_decode_wire, add_link_live by assumption. reflexivity.
Qed.
Lemma node_reads_1 d n : reads node_decode_field 1 (ld_payload d) n (set_data_field n d).
Proof.
  intros pre rest buf Hb. subst buf. unfold node_decode_field. cbn [Z.eqb Pos.eqb].
  rewrite at_ld by assumption. reflexivity.
Qed.

Lemma node_reads_links ls n :
  Forall link_wf ls -> Forall (fun l => link_room l < 2 ^ 63) ls -> nd_dangling n = false ->
  reads_all node_decode_field (map (fun l => ld_field 2 (link_wire l)) ls) n
    (set_links n (nd_links n ++ map link_saved ls) false).
Proof.
  intros Hls. revert n. induction Hls as [| l ls Hl _ IH]; intros n Hrs Hlive.
  - cbn. rewrite app_nil_r. destruct n; cbn in *; subst. constructor.
  - apply Forall_cons in Hrs as [Hr Hrs]. cbn [map].
    econstructor; [lia | apply node_reads_2; assumption |].
    specialize (IH (set_links n (nd_links n ++ [link_saved l]) false) Hrs eq_refl).
    cbn [nd_links set_links] in IH. rewrite <- app_assoc in IH. exact IH.
Qed.

(** What decoding yields: the saved parts. *)
Definition node_saved (n : HashtableNode) : HashtableNode :=
  MkNode (nd_data_size n) (if 0 <? nd_data_size n then Some (node_data n) else None)
    (map link_saved (nd_links n)) false None None 0.

Lemma node_saved_data n : node_wf n -> node_data (node_saved n) = node_data n.
Proof.
  intros Hn. pose proof (data_size_nonneg n Hn). destruct Hn as [_ Hd _ _].
  unfold node_data at 1, node_saved. cbn. destruct (0 <? nd_data_size n) eqn:E; [reflexivity |].
  cbn. rewrite (len_zero (node_data n)) by lia. reflexivity.
Qed.
Lemma node_saved_value n : node_wf n -> node_value (node_saved n) = node_value n.
Proof.
  intros Hn. unfold node_value. rewrite node_saved_data by assumption. cbn [node_saved nd_links].
  rewrite map_map. erewrite map_ext; [reflexivity |]. apply link_saved_value.
Qed.

Lemma node_reads n :
  node_wf n -> reads_all node_decode_field (node_fields n) ipfs_hashtable_node_new (node_saved n).
Proof.
  intros Hn. pose proof (data_size_nonneg n Hn). pose proof (node_rooms n Hn) as Hrs.
  destruct Hn as [Hlive Hd Hls _].
  unfold node_fields, node_saved.
  eapply reads_all_app; [apply (node_reads_links _ ipfs_hashtable_node_new Hls Hrs eq_refl) |].
  cbn [nd_links ipfs_hashtable_node_new app set_links].
  destruct (0 <? nd_data_size n) eqn:E.
  - econstructor; [lia | apply node_reads_1 |]. unfold set_data_field. cbn.
    rewrite <- Hd. constructor.
  - replace (nd_data_size n) with 0 by lia. constructor.
Qed.

Lemma wire_field_pos f w p : 1 <= f <= 15 -> 0 < len (wire_field (f, w, p)).
Proof. intros. cbn. rewrite len_app, wire_key_len by lia. len_lia. Qed.

(** The one node without a wire form: neither links nor data. *)
Lemma node_wire_pos n :
  node_wf n -> nd_links n <> [] \/ 0 < nd_data_size n -> 0 < len (node_wire n).
Proof.
  intros Hn H. unfold node_wire, node_fields. rewrite wire_msg_app, len_app.
  match goal with |- 0 < ?a + ?b => assert (0 <= a) by apply len_nonneg; assert (0 <= b) by apply len_nonneg end.
  destruct H as [H | H].
  - destruct (nd_links n) as [| l ls]; [congruence |]. cbn [map] in *. rewrite wire_msg_cons, len_app in *.
    pose proof (wire_field_pos 2 WIRETYPE_LENGTH_DELIMITED (ld_payload (link_wire l)) ltac:(lia)) as Hp.
    change (2, WIRETYPE_LENGTH_DELIMITED, ld_payload (link_wire l)) with (ld_field 2 (link_wire l)) in Hp.
    pose proof (len_nonneg (wire_msg (map (fun l => ld_field 2 (link_wire l)) ls))). lia.
  - replace (0 <? nd_data_size n) with true in * by lia. rewrite wire_msg_cons, len_app in *.
    pose proof (wire_field_pos 1 WIRETYPE_LENGTH_DELIMITED (ld_payload (node_data n)) ltac:(lia)) as Hp.
    change (1, WIRETYPE_LENGTH_DELIMITED, ld_payload (node_data n)) with (ld_field 1 (node_data n)) in Hp.
    pose proof (len_nonneg (wire_msg [])). lia.
Qed.

Lemma node_decode_wire n c :
  node_wf n -> nd_links n <> [] \/ 0 < nd_data_size n ->
  ipfs_hashtable_node_protobuf_decode (node_wire n) (len (node_wire n)) c = Ok (node_saved n).
Proof.
  intros Hn Hne. pose proof (node_wire_bound n Hn). pose proof (node_wire_pos n Hn Hne).
  pose proof (node_wf_room n Hn). unfold ipfs_hashtable_node_protobuf_decode.
  replace (_ =? 0) with false by lia. unfold node_wire in *.
  rewrite (field_loop_reads node_decode_field _ _ _ (node_reads n Hn)) by lia. reflexivity.
Qed.

Lemma link_decode_returns b n : returns (ipfs_node_link_protobuf_decode b n).
Proof.
  unfold ipfs_node_link_protobuf_decode.
  assert (returns (field_loop (link_decode_field b n) b n (loop_fuel n) 0 ipfs_node_link_new)) as Hret.
  { apply field_loop_terminates.
    - intros. unfold link_decode_field. repeat case_match; exact I.
    - unfold link_decode_field. step_reads. }
  destruct (field_loop _ _ _ _ _ _); cbn; auto.
Qed.

Lemma node_decode_returns b n c : returns (ipfs_hashtable_node_protobuf_decode b n c).
Proof.
  unfold ipfs_hashtable_node_protobuf_decode. case_match; [case_match; exact I |].
  assert (returns (field_loop (node_decode_field b n) b n (loop_fuel n) 0
                     ipfs_hashtable_node_new)) as Hret.
  { apply field_loop_terminates.
    - intros. unfold node_decode_field, ipfs_hashtable_node_add_link, all_links.
      match goal with |- context [ipfs_node_link_protobuf_decode ?d ?m] => idtac | _ => idtac end.
      repeat (case_match; try exact I).
      all: match goal with
           | H : ipfs_node_link_protobuf_decode ?d ?m = NoFuel |- _ =>
               pose proof (link_decode_returns d m) as Hr; rewrite H in Hr; exact Hr
           | |- _ => cbn; repeat case_match; exact I
           end.
    - unfold node_decode_field, ipfs_hashtable_node_add_link, all_links.
      intros; repeat case_match; simplify_eq/=; try lia; repeat case_match; simplify_eq/=; step_reads. }
  destruct (field_loop _ _ _ _ _ _); cbn; auto.
Qed.
End ProtobufFacts.

Section MoreFacts.
Context {PB : Protobuf} {MH : Multihash} `{!ProtobufLaws PB} `{!MultihashLaws MH}.

Lemma link_saved_room l : link_room (link_saved l) = link_room l.
Proof.
  unfold link_room, link_saved, link_name at 1 2. cbn.
  rewrite c_str_id by apply link_name_cstring. reflexivity.
Qed.
Lemma link_saved_wf l : link_wf l -> link_wf (link_saved l).
Proof. intros [H1 H2 H3 H4]. constructor; cbn; auto using link_name_cstring. Qed.
Lemma node_saved_wf n : node_wf n -> node_wf (node_saved n).
Proof.
  intros Hn. pose proof (node_saved_data n Hn) as Hs. destruct Hn as [H1 H2 H3 H4].
  constructor; [reflexivity | rewrite Hs; exact H2 | |].
  - cbn. apply Forall_map. eapply Forall_impl; [exact H3 |]. apply link_saved_wf.
  - replace (node_room (node_saved n)) with (node_room n); [exact H4 |].
    unfold node_room. cbn [node_saved nd_links nd_data_size]. rewrite map_map.
    f_equal. f_equal. apply map_ext. intros l. rewrite link_saved_room. reflexivity.
Qed.

(** *** Directories *)

Lemma unixfs_encoded u :
  unixfs_wf u ->
  exists d, ipfs_unixfs_protobuf_encode (Some u) (ipfs_unixfs_protobuf_encode_size u) = Ok d /\
    ipfs_unixfs_protobuf_decode d (len d) = Ok (unixfs_saved u) /\ 2 <= len d.
Proof.
  intros Hu. pose proof (unixfs_fields_bound u Hu) as Hb.
  pose proof (len_nonneg (ux_block_sizes u)). pose proof (unixfs_wf_room u Hu).
  exists (wire_msg (unixfs_fields u)). rewrite encode_size_eq by assumption.
  rewrite unixfs_encode_fields, unixfs_decode_fields by (assumption || lia).
  split_and!; auto. destruct Hu as [Ht _ _ _ _]. unfold unixfs_fields. rewrite wire_msg_app, len_app, wire_msg_cons, len_app.
  rewrite len_varint_field, varint_size_1 by lia. len_lia.
Qed.

Definition directory_unixfs : UnixFS := MkUnixFS UNIXFS_DIRECTORY 0 None 0 [] None 0.
Lemma directory_unixfs_wf : unixfs_wf directory_unixfs.
Proof. repeat constructor; vm_compute; congruence. Qed.

Lemma is_directory_ext n m :
  nd_data n = nd_data m -> nd_data_size n = nd_data_size m ->
  ipfs_hashtable_node_is_directory n = ipfs_hashtable_node_is_directory m.
Proof. intros H1 H2. unfold ipfs_hashtable_node_is_directory. rewrite H1, H2. reflexivity. Qed.

Lemma directory_node :
  exists d n, ipfs_hashtable_node_create_directory = Ok n /\
    n = MkNode (len d) (Some d) [] false None None 0 /\
    ipfs_hashtable_node_is_directory n = Ok true /\ node_wf n /\ len (node_wire n) <= 64 /\
    2 <= len d.
Proof.
  destruct (unixfs_encoded directory_unixfs directory_unixfs_wf) as (d & He & Hd & Hl).
  pose proof (unixfs_fields_bound directory_unixfs directory_unixfs_wf) as Hb.
  assert (Hdb : len d <= 24).
  { rewrite encode_size_eq, unixfs_encode_fields in He by
      first [exact directory_unixfs_wf | exact Hb | vm_compute; reflexivity]. injection He as <-. exact Hb. }
  exists d. eexists. split; [| split; [reflexivity | split]].
  - unfold ipfs_hashtable_node_create_directory. fold directory_unixfs. rewrite He.
    cbn [on_err mbind cres_bind]. unfold ipfs_hashtable_node_set_data.
    rewrite mem_read_all. reflexivity.
  - unfold ipfs_hashtable_node_is_directory. cbn [nd_data nd_data_size].
    replace (len d <? 2) with false by lia. rewrite mem_read_all. cbn [mbind cres_bind].
    rewrite Hd. reflexivity.
  - assert (Hw : node_wf (MkNode (len d) (Some d) [] false None None 0)).
    { constructor; cbn; auto. unfold node_room. cbn. case_match; lia. }
    split; [exact Hw |]. split; [| exact Hl]. eapply Z.le_trans; [exact (node_wire_bound _ Hw) |].
    unfold node_room. cbn. case_match; lia.
Qed.
End MoreFacts.

(** ** The chain of links *)

(** A search that can judge every link stops at the first one accepted. *)
Lemma find_link_spec stop l :
  (forall x, x ∈ l -> is_Some (stop x)) ->
  (exists a x b, l = a ++ x :: b /\ stop x = Some true /\
     Forall (fun y => stop y = Some false) a /\
     forall d, find_link stop l d = Ok (Some (length a))) \/
  (Forall (fun y => stop y = Some false) l /\ find_link stop l false = Ok None).
Proof.
  induction l as [| x l IH]; intros Hs; [right; split; [constructor | reflexivity] |].
  destruct (Hs x) as [b Hb]; [apply elem_of_cons; auto |].
  destruct b.
  - left. exists [], x, l. cbn. rewrite Hb. auto.
  - destruct IH as [(a & y & c & -> & Hy & Ha & Hf) | [Ha Hf]].
    + intros z Hz. apply Hs, elem_of_cons. auto.
    + left. exists (x :: a), y, c. cbn. rewrite Hb. split_and!; auto.
      intros d. rewrite Hf. reflexivity.
    + right. split; [auto |]. cbn. rewrite Hb, Hf. reflexivity.
Qed.

Lemma remove_by_name_spec Name n :
  nd_dangling n = false ->
  let l := nd_links n in
  (exists a x b, l = a ++ x :: b /\ name_matches Name x = true /\
     Forall (fun y => name_matches Name y = false) a /\
     ipfs_hashtable_node_remove_link_by_name Name n =
       Ok (if decide (l = [x]) then n else set_links n (a ++ b) false)) \/
  (Forall (fun y => name_matches Name y = false) l /\
     ipfs_hashtable_node_remove_link_by_name Name n = Err ()).
Proof.
  intros Hlive l. unfold ipfs_hashtable_node_remove_link_by_name. rewrite Hlive. fold l.
  destruct (find_link_spec (fun l => Some (name_matches Name l)) l) as
    [(a & x & b & Hl & Hx & Ha & Hf) | [Ha Hf]]; [eauto | left | right].
  - exists a, x, b. rewrite Hf, Hl. split_and!; [reflexivity | congruence | |].
    + eapply Forall_impl; [exact Ha |]. cbn. intros y E. congruence.
    + cbn [mbind cres_bind]. destruct a as [| y a]; cbn [length app tail].
      * destruct b as [| z b]; case_decide; congruence || reflexivity.
      * rewrite decide_False by (intros E; apply (f_equal length) in E; cbn in E;
          rewrite length_app in E; cbn in E; lia).
        do 2 f_equal. change (y :: a ++ x :: b) with ((y :: a) ++ x :: b).
        change (S (length a)) with (length (y :: a)). rewrite take_app_length.
        rewrite (drop_app_ge (y :: a)) by lia.
        replace (S (length (y :: a)) - length (y :: a))%nat with 1%nat by lia. reflexivity.
  - rewrite Hf. split; [| reflexivity].
    eapply Forall_impl; [exact Ha |]. cbn. intros y E. congruence.
Qed.

(** Freeing a node whose chain is whole goes through. *)
Lemma free_links_live fuel n :
  nd_dangling n = false -> (length (nd_links n) < fuel)%nat ->
  exists n', node_free_links fuel n = Ok n' /\ nd_links n' = [].
Proof.
  revert n. induction fuel as [| fuel IH]; intros n Hlive Hf; [lia |]. cbn [node_free_links].
  destruct (nd_links n) as [| l ls] eqn:E; [rewrite Hlive; eauto |].
  unfold ipfs_node_remove_link. rewrite E. cbn [length Nat.ltb Nat.leb mbind cres_bind tail].
  apply IH; cbn in *; [assumption | lia].
Qed.
Lemma free_links_dangling fuel n :
  nd_dangling n = true -> (length (nd_links n) < fuel)%nat -> node_free_links fuel n = Undef.
Proof.
  revert n. induction fuel as [| fuel IH]; intros n Hd Hf; [lia |]. cbn [node_free_links].
  destruct (nd_links n) as [| l ls] eqn:E; [rewrite Hd; reflexivity |].
  unfold ipfs_node_remove_link. rewrite E. cbn [length Nat.ltb Nat.leb mbind cres_bind tail].
  apply IH; cbn in *; [assumption | lia].
Qed.

Lemma resolve_links_amount n names a n' a' :
  resolve_links_loop n names a = Ok (n', a') -> a' = a.
Proof.
  revert n. induction names as [| s names IH]; intros n; cbn; [congruence |].
  destruct (ipfs_hashtable_node_get_link_by_name n s) as [[i |] | | |]; cbn; try discriminate; eauto.
Qed.

(** ** The properties of this file *)

Section Properties.
Context {PB : Protobuf} {MH : Multihash} `{!ProtobufLaws PB} `{!MultihashLaws MH}.

(** C11: a node with data or links, its links each carrying a hash, encodes into
    a buffer of [ipfs_hashtable_node_protobuf_encode_size] bytes, and decoding
    gives back its data and its links: hashes, names and sizes, in order. *)
Theorem node_protobuf_roundtrip n c :
  node_wf n -> nd_links n <> [] \/ 0 < nd_data_size n ->
  exists b size n',
    @ipfs_hashtable_node_protobuf_encode_size unit n = Ok size /\
    ipfs_hashtable_node_protobuf_encode n size = Ok b /\ 0 < len b <= size /\
    ipfs_hashtable_node_protobuf_decode b (len b) c = Ok n' /\
    node_value n' = node_value n /\ nd_data_size n' = nd_data_size n /\ node_wf n'.
Proof.
  intros Hn Hne. pose proof (node_wire_bound n Hn). pose proof (node_wire_pos n Hn Hne).
  pose proof (node_wf_room n Hn).
  exists (node_wire n), (node_room n), (node_saved n).
  rewrite node_encode_size_eq, node_encode_fields, node_decode_wire, node_saved_value
    by (assumption || lia).
  split_and!; auto using node_saved_wf.
Qed.

(** The node [ipfs_hashtable_node_create_directory] makes has no links and
    is recognised by [ipfs_hashtable_node_is_directory], also after saving and
    reading it back; a node holding a saved UnixFS structure is recognised
    exactly when the structure's type is directory. *)
Theorem directory_recognised u c :
  unixfs_wf u ->
  (exists n b n', ipfs_hashtable_node_create_directory = Ok n /\ nd_links n = [] /\
    ipfs_hashtable_node_is_directory n = Ok true /\
    ipfs_hashtable_node_protobuf_encode n 64 = Ok b /\
    ipfs_hashtable_node_protobuf_decode b (len b) c = Ok n' /\
    ipfs_hashtable_node_is_directory n' = Ok true) /\
  exists d, ipfs_unixfs_protobuf_encode (Some u) (ipfs_unixfs_protobuf_encode_size u) = Ok d /\
    forall n, nd_data n = Some d -> nd_data_size n = len d ->
      ipfs_hashtable_node_is_directory n = Ok (ux_data_type u =? UNIXFS_DIRECTORY).
Proof.
  intros Hu. split.
  - destruct directory_node as (d & n & Hn & Hv & Hd & Hw & Hlen & Hpos).
    assert (Hne : nd_links n <> [] \/ 0 < nd_data_size n) by (right; rewrite Hv; cbn; lia).
    exists n, (node_wire n), (node_saved n). rewrite Hn, Hd.
    rewrite node_encode_fields, node_decode_wire by (try assumption; lia).
    split_and!; auto; [rewrite Hv; reflexivity |].
    rewrite <- Hd. apply is_directory_ext; [| reflexivity]. rewrite Hv. cbn [node_saved nd_data nd_data_size].
    replace (0 <? len d) with true; [reflexivity | rewrite Hv in Hne; cbn in Hne; destruct Hne; [congruence | lia]].
  - destruct (unixfs_encoded u Hu) as (d & Hd & Hdec & Hlen). exists d. split; [exact Hd |].
    intros n H1 H2. unfold ipfs_hashtable_node_is_directory. rewrite H1, H2.
    replace (len d <? 2) with false by lia. rewrite mem_read_all. cbn [mbind cres_bind].
    rewrite Hdec. reflexivity.
Qed.
End Properties.

(** [ipfs_hashtable_node_remove_link_by_name] on a whole chain removes the
    first link of that name and no other, and fails when there is none; the one
    exception is a name carried by the only link, which stays although the call
    succeeds. [ipfs_hashtable_node_add_link] puts a link at the end. *)
Theorem node_links_spec Name n l :
  nd_dangling n = false ->
  ipfs_hashtable_node_add_link n l = @Ok unit _ (set_links n (nd_links n ++ [l]) false) /\
  ((exists a x b, nd_links n = a ++ x :: b /\ name_matches Name x = true /\
      Forall (fun y => name_matches Name y = false) a /\
      ipfs_hashtable_node_remove_link_by_name Name n =
        Ok (if decide (nd_links n = [x]) then n else set_links n (a ++ b) false)) \/
   (Forall (fun y => name_matches Name y = false) (nd_links n) /\
      ipfs_hashtable_node_remove_link_by_name Name n = Err ())).
Proof. intros H. split; [apply add_link_live, H | apply remove_by_name_spec, H]. Qed.

(** Removing the link at the head of the chain with [ipfs_node_remove_link]
    leaves a chain that [ipfs_hashtable_node_free] frees; removing any later link
    leaves a freed link in the chain, and freeing the node is undefined. *)
Theorem node_remove_link_dangling n a x b :
  nd_dangling n = false -> nd_links n = a ++ x :: b ->
  exists n', ipfs_node_remove_link n (Some (length a)) = Ok n' /\
    (a = [] -> nd_links n' = b /\ nd_dangling n' = false /\
               ipfs_hashtable_node_free (Some n') = Ok ()) /\
    (a <> [] -> nd_links n' = a /\ nd_dangling n' = true /\
                ipfs_hashtable_node_free (Some n') = Undef).
Proof.
  intros Hlive Hl. unfold ipfs_node_remove_link. rewrite Hl.
  replace (length a <? length (a ++ x :: b))%nat with true
    by (symmetry; apply Nat.ltb_lt; rewrite length_app; cbn; lia).
  destruct a as [| y a]; cbn [length app tail].
  - eexists. split; [reflexivity |]. split; [intros _ | congruence].
    split_and!; [reflexivity | exact Hlive |]. unfold ipfs_hashtable_node_free.
    match goal with |- context [node_free_links ?f ?m] =>
      destruct (free_links_live f m) as (n' & -> & _) end; [exact Hlive | lia | reflexivity].
  - eexists. split; [reflexivity |]. split; [congruence | intros _].
    change (y :: a ++ x :: b) with ((y :: a) ++ x :: b).
    change (S (length a)) with (length (y :: a)). rewrite take_app_length.
    split_and!; [reflexivity | reflexivity |]. unfold ipfs_hashtable_node_free.
    rewrite free_links_dangling by (cbn; lia). reflexivity.
Qed.

(** [Node_Resolve] splits a path into non-empty names without a slash, as
    many as [Node_Resolve_Max_Size] counts; [Node_Resolve_Links] never reports a
    link, however many of the names the node has. *)
Theorem node_resolve_spec path N names :
  Node_Resolve (Some path) = Some names ->
  Node_Resolve_Max_Size (Some path) = len names /\
  Forall (fun s => s <> [] /\ byte_of 47 ∉ s) names /\
  forall n a, Node_Resolve_Links (Some N) (Some path) = Ok (n, a) -> a = 0.
Proof.
  cbn. intros [= <-]. split; [reflexivity |]. split.
  - apply Forall_forall. intros s Hs. apply tokens_spec in Hs as [H1 H2];
      [| intros z Hz; inversion Hz].
    split; [exact H1 |]. intros Hin. apply (H2 _ Hin). apply elem_of_cons. auto.
  - intros n a. apply resolve_links_amount.
Qed.

(** * Concrete runs *)

Definition sample_link : NodeLink :=
  MkNodeLink 32 (Some (replicate 32 (byte_of 5))) (Some (str "a")) 10.
Definition sample_link2 : NodeLink :=
  MkNodeLink 32 (Some (replicate 32 (byte_of 6))) None 0.
Definition sample_node : HashtableNode :=
  MkNode 3 (Some (str "xyz")) [sample_link; sample_link2] false None None 0.

Lemma sample_node_wf : node_wf sample_node.
Proof.
  constructor; [reflexivity | reflexivity | | vm_compute; reflexivity].
  repeat constructor; cbn; try (vm_compute; congruence).
  apply (bool_decide_unpack _). vm_compute. exact I.
Qed.

Lemma node_protobuf_roundtrip_witness :
  exists b n', ipfs_hashtable_node_protobuf_encode sample_node 156 = Ok b /\
    ipfs_hashtable_node_protobuf_decode b (len b) true = Ok n' /\
    node_value n' = node_value sample_node.
Proof.
  destruct (node_protobuf_roundtrip sample_node true sample_node_wf) as
    (b & size & n' & Hs & He & _ & Hd & Hv & _); [left; discriminate |].
  vm_compute in Hs. injection Hs as <-. exists b, n'. auto.
Defined.

Lemma directory_recognised_witness :
  exists n, ipfs_hashtable_node_create_directory = Ok n /\
    ipfs_hashtable_node_is_directory n = Ok true.
Proof.
  destruct (directory_recognised sample_unixfs true sample_unixfs_wf) as [(n & b & n' & H1 & _ & H2 & _) _].
  eauto.
Defined.

Lemma node_links_spec_witness :
  ipfs_hashtable_node_add_link sample_node sample_link =
    @Ok unit _ (set_links sample_node [sample_link; sample_link2; sample_link] false).
Proof. apply (node_links_spec None sample_node sample_link eq_refl). Defined.

Lemma node_remove_link_dangling_witness :
  exists n', ipfs_node_remove_link sample_node (Some 1%nat) = Ok n' /\
    ipfs_hashtable_node_free (Some n') = Undef.
Proof.
  destruct (node_remove_link_dangling sample_node [sample_link] sample_link2 [] eq_refl eq_refl)
    as (n' & Hr & _ & Hd).
  exists n'. split; [exact Hr |]. apply Hd. discriminate.
Defined.

Lemma node_resolve_spec_witness :
  Node_Resolve_Max_Size (Some (str "foo//bar")) = 2.
Proof.
  apply (node_resolve_spec (str "foo//bar") sample_node [str "foo"; str "bar"]).
  vm_compute. reflexivity.
Defined.
