(* ===== verification/Block.v ===== *)
(** Blocks (src/blocks/block.c, include/ipfs/blocks/block.h): raw data with the
    CID it is stored under. *)

From S2P Require Import Prelude Libc Protobuf Libs ProtobufRef LibsRef Cid.

Record Block := MkBlock {
  bl_cid : option Cid;
  bl_data : option bytes;
  bl_data_length : Z
}.

#[export] Instance Block_eq_dec : EqDecision Block.
Proof. solve_decision. Defined.

Definition ipfs_block_new : Block := MkBlock None None 0.

Definition ipfs_block_copy {E} (original : Block) : cres E Block :=
  data ← mem_read (bl_data original) (bl_data_length original);
  match bl_cid original with
  | None => Undef (* [ipfs_cid_copy] of a NULL pointer *)
  | Some cid =>
      cid ← ipfs_cid_copy cid;
      Ok (MkBlock (Some cid) (Some data) (bl_data_length original))
  end.

Section AddData.
Context {SH : Sha256}.

Definition ipfs_blocks_block_add_data (data : bytes) (data_size : Z) (block : Block)
  : cres unit Block :=
  data ← mem_read (Some data) data_size;
  match libp2p_crypto_hashing_sha256 data with
  | None => Err ()
  | Some hash =>
      cid ← ipfs_cid_new 0 (Some hash) 32 CID_DAG_PROTOBUF;
      Ok (MkBlock (Some cid) (Some data) data_size)
  end.
End AddData.

(** ** Protobuf form *)

Section Protobuf.
Context {PB : Protobuf}.

Definition ipfs_blocks_block_protobuf_encode_size (block : Block) : Z :=
  u64 (22 + ipfs_cid_protobuf_encode_size (bl_cid block) + bl_data_length block).

(** The verdict of the first encoding is overwritten. A local array of no
    bytes, for a block without CID, is taken as the compiler takes it. *)
Definition ipfs_blocks_block_protobuf_encode (block : Block) (max_buffer_length : Z)
  : cres bytes bytes :=
  data ← mem_read (bl_data block) (bl_data_length block);
  let out := enc_written (protobuf_encode_length_delimited 1 WIRETYPE_LENGTH_DELIMITED data
                            (size_sub max_buffer_length 0)) in
  let cid_size := ipfs_cid_protobuf_encode_size (bl_cid block) in
  cid ← on_err (ipfs_cid_protobuf_encode (bl_cid block) cid_size) out;
  emit (protobuf_encode_length_delimited 2 WIRETYPE_LENGTH_DELIMITED cid
          (size_sub max_buffer_length (len out))) out.

Definition block_decode_field (buffer : bytes) (buffer_length pos field_no : Z)
  (block : Block) : cres Block (Block * Z) :=
  let at_pos := bdrop pos buffer in
  let room := size_sub buffer_length pos in
  if field_no =? 1 then
    match protobuf_decode_length_delimited at_pos room with
    | None => Err block
    | Some (data, bytes_read) => Ok (MkBlock (bl_cid block) (Some data) (len data), bytes_read)
    end
  else if field_no =? 2 then
    match protobuf_decode_length_delimited at_pos room with
    | None => Err block
    | Some (temp_buffer, bytes_read) =>
        cid ← on_err (ipfs_cid_protobuf_decode temp_buffer (len temp_buffer)) block;
        Ok (MkBlock cid (bl_data block) (bl_data_length block), bytes_read)
    end
  else Ok (block, 0).

(** On failure the new block is freed and [*block] left pointing at it. *)
Definition ipfs_blocks_block_protobuf_decode (buffer : bytes) (buffer_length : Z)
  : cres unit Block :=
  on_err (field_loop (block_decode_field buffer buffer_length) buffer buffer_length
            (loop_fuel buffer_length) 0 ipfs_block_new) ().
End Protobuf.

(** * Properties *)

Definition block_data (b : Block) : bytes := default [] (bl_data b).
Definition block_value (b : Block) : option (Z * Z * bytes) * bytes :=
  (cid_value <$> bl_cid b, block_data b).

Record block_wf (b : Block) : Prop := {
  block_wf_cid : match bl_cid b with
                 | Some c => cid_wf c /\ -128 <= cid_codec c < 128 /\ cid_hash_length c < 2 ^ 62
                 | None => True
                 end;
  block_wf_data : bl_data_length b = len (block_data b);
  block_wf_room : bl_data_length b < 2 ^ 62
}.

(** Lengths that agree with the data and the hash they are of. *)
Definition cid_copyable (c : option Cid) : Prop :=
  match c with Some c => cid_hash_length c = len (cid_digest c) | None => True end.
Definition block_copyable (b : Block) : Prop :=
  bl_data_length b = len (block_data b) /\ cid_copyable (bl_cid b).

Lemma block_copy_value {E} b :
  block_copyable b -> bl_cid b <> None ->
  exists b', ipfs_block_copy (E := E) b = Ok b' /\ block_value b' = block_value b.
Proof.
  intros [Hd Hc] Hn. unfold ipfs_block_copy, block_value, block_data in *.
  rewrite mem_read_default by exact Hd. cbn [mbind cres_bind].
  destruct (bl_cid b) as [c |] eqn:E1; [| contradiction]. unfold ipfs_cid_copy, cid_digest in *.
  rewrite mem_read_default by exact Hc. eexists. split; reflexivity.
Qed.
Lemma block_copy_copyable {E} b b' :
  block_copyable b -> bl_cid b <> None -> ipfs_block_copy (E := E) b = Ok b' -> block_copyable b'.
Proof.
  intros [Hd Hc] Hn. unfold ipfs_block_copy, block_data in *.
  rewrite mem_read_default by exact Hd. cbn [mbind cres_bind].
  destruct (bl_cid b) as [c |] eqn:E1; [| contradiction]. unfold ipfs_cid_copy, cid_digest in *.
  rewrite mem_read_default by exact Hc. intros [= <-]. split; assumption.
Qed.

Section ProtobufFacts.
Context {PB : Protobuf} `{!ProtobufLaws PB}.

Definition cid_opt_wire (c : option Cid) : bytes :=
  match c with Some c => wire_msg (cid_fields c) | None => [] end.
Definition block_fields (b : Block) : list wfield :=
  [ld_field 1 (block_data b); ld_field 2 (cid_opt_wire (bl_cid b))].
Definition block_wire (b : Block) : bytes := wire_msg (block_fields b).

Lemma cid_opt_size b :
  block_wf b ->
  0 <= len (cid_opt_wire (bl_cid b)) <= ipfs_cid_protobuf_encode_size (bl_cid b) /\
  ipfs_cid_protobuf_encode_size (bl_cid b) < 2 ^ 62 + 34.
Proof.
  intros [Hc _ _]. split; [split; [apply len_nonneg |] |];
    destruct (bl_cid b) as [c |];
    cbn [cid_opt_wire ipfs_cid_protobuf_encode_size]; len_nils; try lia.
  all: destruct Hc as (Hc & _ & Hl); pose proof (cid_fields_bound c Hc ltac:(lia));
    pose proof (cid_digest_len c Hc); pose proof (len_nonneg (cid_digest c));
    rewrite u64_small by lia; lia.
Qed.

Lemma cid_opt_encode b :
  block_wf b ->
  ipfs_cid_protobuf_encode (bl_cid b) (ipfs_cid_protobuf_encode_size (bl_cid b)) =
    Ok (cid_opt_wire (bl_cid b)).
Proof.
  intros Hb. pose proof (cid_opt_size b Hb) as Hs. destruct Hb as [Hc _ _].
  destruct (bl_cid b) as [c |]; [| reflexivity].
  cbn [cid_opt_wire] in Hs.
  destruct Hc as (Hc & _ & Hl). apply cid_encode_fields; auto; lia.
Qed.

Lemma data_length_nonneg b : block_wf b -> 0 <= bl_data_length b.
Proof. intros [_ -> _]. apply len_nonneg. Qed.

Definition block_room (b : Block) : Z :=
  22 + ipfs_cid_protobuf_encode_size (bl_cid b) + bl_data_length b.

Lemma block_room_range b : block_wf b -> 0 <= block_room b < 2 ^ 64.
Proof.
  intros Hb. pose proof (cid_opt_size b Hb). pose proof (data_length_nonneg b Hb).
  destruct Hb. unfold block_room. lia.
Qed.
Lemma block_encode_size b :
  block_wf b -> ipfs_blocks_block_protobuf_encode_size b = block_room b.
Proof. intros Hb. apply u64_small, block_room_range, Hb. Qed.

Lemma block_wire_bound b : block_wf b -> len (block_wire b) <= block_room b.
Proof.
  intros Hb. pose proof (cid_opt_size b Hb) as [? ?]. pose proof (data_length_nonneg b Hb).
  destruct Hb as [_ Hd Hr]. unfold block_wire, block_fields, block_room.
  wire_len. rewrite <- Hd.
  pose proof (varint_size_64 (bl_data_length b) ltac:(lia)).
  pose proof (varint_size_64 (len (cid_opt_wire (bl_cid b))) ltac:(lia)). lia.
Qed.

Lemma block_encode_fields b n :
  block_wf b -> n < 2 ^ 64 -> len (block_wire b) <= n ->
  ipfs_blocks_block_protobuf_encode b n = Ok (block_wire b).
Proof.
  intros Hb Hn Hroom. pose proof (cid_opt_size b Hb) as [? ?].
  pose proof (data_length_nonneg b Hb). pose proof (cid_opt_encode b Hb) as Hc.
  destruct Hb as [_ Hd Hr]. unfold block_wire, block_fields in *.
  unfold ipfs_blocks_block_protobuf_encode.
  pose proof (varint_size_pos (len (cid_opt_wire (bl_cid b)))).
  pose proof (varint_size_pos (len (block_data b))). pose proof (len_nonneg (block_data b)).
  replace (mem_read (bl_data b) (bl_data_length b)) with (@Ok bytes bytes (block_data b)).
  2: { symmetry. apply mem_read_default, Hd. }
  cbn [mbind cres_bind]. wire_len.
  rewrite (size_sub_small n 0), Z.sub_0_r, encode_ld_room by lia. cbn [enc_written].
  change (wire_key 1 WIRETYPE_LENGTH_DELIMITED ++ wire_uint (len (block_data b)) ++ block_data b)
    with (wire_field (ld_field 1 (block_data b))).
  rewrite Hc. cbn [on_err mbind cres_bind].
  rewrite emit_ld by (wire_len; lia). reflexivity.
Qed.

Lemma block_reads_1 d b :
  reads block_decode_field 1 (ld_payload d) b (MkBlock (bl_cid b) (Some d) (len d)).
Proof.
  intros pre rest buf Hl. subst buf. unfold block_decode_field. cbn [Z.eqb Pos.eqb].
  rewrite at_ld by assumption. reflexivity.
Qed.

(** The CID comes back with the same value. *)
Lemma block_reads_2 b b0 :
  block_wf b ->
  exists c, cid_value <$> c = cid_value <$> bl_cid b /\ cid_copyable c /\
    reads block_decode_field 2 (ld_payload (cid_opt_wire (bl_cid b))) b0
      (MkBlock c (bl_data b0) (bl_data_length b0)).
Proof.
  intros [Hc _ _].
  assert (exists c, cid_value <$> c = cid_value <$> bl_cid b /\ cid_copyable c /\
    ipfs_cid_protobuf_decode (cid_opt_wire (bl_cid b)) (len (cid_opt_wire (bl_cid b))) = Ok c)
    as (c & Hv & Hcopy & Hdec).
  { destruct (bl_cid b) as [c |]; [| exists None; cbn; auto].
    destruct Hc as (Hc & Hk & Hl).
    destruct (cid_decode_fields c Hc ltac:(lia)) as (c' & Hd & E1 & E2 & E3 & E4).
    exists (Some c'). split; [| split; [| exact Hd]]; cbn.
    - unfold cid_value. rewrite E1, E2, E3, i8_small by lia. reflexivity.
    - rewrite E3, E4, cid_digest_len by exact Hc. reflexivity. }
  exists c. split; [exact Hv |]. split; [exact Hcopy |].
  intros pre rest buf Hl. subst buf. unfold block_decode_field. cbn [Z.eqb Pos.eqb].
  rewrite at_ld by assumption. rewrite Hdec. reflexivity.
Qed.

Lemma block_wire_pos b : 0 < len (block_wire b).
Proof.
  unfold block_wire, block_fields. rewrite wire_msg_cons, len_app. cbn [wire_field ld_field].
  rewrite len_app, wire_key_len by lia. len_lia.
Qed.

Lemma block_decode_wire b :
  block_wf b ->
  exists b', ipfs_blocks_block_protobuf_decode (block_wire b) (len (block_wire b)) = Ok b' /\
    block_value b' = block_value b /\ bl_data b' = Some (block_data b) /\
    bl_data_length b' = bl_data_length b /\ block_copyable b'.
Proof.
  intros Hb. pose proof (block_wire_bound b Hb). pose proof (block_room_range b Hb).
  destruct (block_reads_2 b (MkBlock None (Some (block_data b)) (len (block_data b))) Hb)
    as (c & Hv & Hcopy & Hc).
  exists (MkBlock c (Some (block_data b)) (len (block_data b))). split_and!.
  - unfold ipfs_blocks_block_protobuf_decode, block_wire in *.
    erewrite (field_loop_reads block_decode_field); [reflexivity | | lia].
    unfold block_fields, ld_field.
    econstructor; [lia | apply block_reads_1 |]. econstructor; [lia | exact Hc | constructor].
  - unfold block_value. cbn. rewrite Hv. reflexivity.
  - reflexivity.
  - cbn. destruct Hb. auto.
  - split; [reflexivity | exact Hcopy].
Qed.

Lemma block_decode_returns b n : returns (ipfs_blocks_block_protobuf_decode b n).
Proof.
  unfold ipfs_blocks_block_protobuf_decode.
  assert (returns (field_loop (block_decode_field b n) b n (loop_fuel n) 0 ipfs_block_new)) as Hret.
  { apply field_loop_terminates.
    - intros. unfold block_decode_field. repeat (case_match; try exact I).
      match goal with |- context [ipfs_cid_protobuf_decode ?d ?m] =>
        pose proof (cid_decode_returns d m); destruct (ipfs_cid_protobuf_decode d m) end;
      cbn; auto.
    - unfold block_decode_field. intros; repeat case_match; simplify_eq/=; try lia; [step_reads |].
      match goal with H : context [ipfs_cid_protobuf_decode ?d ?m] |- _ =>
        destruct (ipfs_cid_protobuf_decode d m); simplify_eq/= end. step_reads. }
  destruct (field_loop _ _ _ _ _ _); cbn; auto.
Qed.
End ProtobufFacts.

(** ** The properties of this file *)

Section Properties.
Context {PB : Protobuf} `{!ProtobufLaws PB}.

(** A block encodes into a buffer of [ipfs_blocks_block_protobuf_encode_size]
    bytes and decoding gives back its data and, for codecs that fit a [char], the
    value of its CID; a block without CID comes back without one. *)
Theorem block_protobuf_roundtrip b :
  block_wf b ->
  exists w b', ipfs_blocks_block_protobuf_encode b (ipfs_blocks_block_protobuf_encode_size b) = Ok w /\
    0 < len w <= ipfs_blocks_block_protobuf_encode_size b /\
    ipfs_blocks_block_protobuf_decode w (len w) = Ok b' /\
    block_value b' = block_value b /\ bl_data_length b' = bl_data_length b.
Proof.
  intros Hb. pose proof (block_wire_bound b Hb). pose proof (block_room_range b Hb).
  pose proof (block_wire_pos b).
  destruct (block_decode_wire b Hb) as (b' & Hd & Hv & _ & Hl & _).
  exists (block_wire b), b'. rewrite block_encode_size by assumption.
  rewrite block_encode_fields by (assumption || lia). auto.
Qed.

End Properties.

(** * Concrete runs *)

Definition sample_block : Block := MkBlock (Some sample_cid) (Some (str "hello")) 5.
Lemma sample_block_wf : block_wf sample_block.
Proof.
  constructor; [split; [exact (cid_small_wf _ sample_cid_small) |] | |]; vm_compute; try done.
Qed.

Lemma block_protobuf_roundtrip_witness :
  exists w b', ipfs_blocks_block_protobuf_encode sample_block 93 = Ok w /\
    ipfs_blocks_block_protobuf_decode w (len w) = Ok b' /\
    block_value b' = block_value sample_block.
Proof.
  destruct (block_protobuf_roundtrip sample_block sample_block_wf) as (w & b' & He & _ & Hd & Hv & _).
  exists w, b'. auto.
Defined.
