(* ===== verification/BitswapMessage.v ===== *)
(** Bitswap messages (src/exchange/bitswap/message.c,
    include/ipfs/exchange/bitswap/message.h): blocks with a CID prefix, want-list
    entries, want-lists, messages, their protobuf forms, and how a message is
    filled from the queues of a peer. *)

From S2P Require Import Prelude Vector Libc Protobuf Libs ProtobufRef LibsRef Cid Block.

(** A decoder fills a structure that [malloc] returned: what its fields hold
    before is the last argument of the decoder. *)
Record BitswapBlock := MkBitswapBlock {
  bb_prefix : option bytes;
  bb_prefix_size : Z;
  bb_bytes : option bytes;
  bb_bytes_size : Z
}.

Record WantlistEntry := MkWantlistEntry {
  we_block : option bytes;
  we_block_size : Z;
  we_priority : Z;
  we_cancel : Z
}.

#[export] Instance WantlistEntry_eq_dec : EqDecision WantlistEntry.
Proof. solve_decision. Defined.

(** The result parameter of a decoder points at the structure being filled,
    on failure too. *)
Definition out_ptr {S} (m : cres S S) : cres (option S) (option S) :=
  match m with
  | Ok s => Ok (Some s)
  | Err s => Err (Some s)
  | Undef => Undef
  | NoFuel => NoFuel
  end.

Definition ipfs_bitswap_block_new : BitswapBlock := MkBitswapBlock None 0 None 0.
Definition ipfs_bitswap_wantlist_entry_new : WantlistEntry := MkWantlistEntry None 0 1 0.

Section Entries.
Context {PB : Protobuf}.

Definition ipfs_bitswap_message_block_protobuf_size (block : BitswapBlock) : Z :=
  u64 (33 + bb_prefix_size block + bb_bytes_size block).

Definition ipfs_bitswap_message_block_protobuf_encode (incoming : option BitswapBlock)
  (max_size : Z) : cres bytes bytes :=
  match incoming with
  | None => Ok []
  | Some incoming =>
      prefix ← mem_read (bb_prefix incoming) (bb_prefix_size incoming);
      out ← emit (protobuf_encode_length_delimited 1 WIRETYPE_LENGTH_DELIMITED prefix max_size) [];
      data ← mem_read (bb_bytes incoming) (bb_bytes_size incoming);
      emit (protobuf_encode_length_delimited 2 WIRETYPE_LENGTH_DELIMITED data
              (size_sub max_size (len out))) out
  end.

(** Neither field moves the position past its payload. *)
Definition bitswap_block_decode_field (buffer : bytes) (buffer_length pos field_no : Z)
  (block : BitswapBlock) : cres BitswapBlock (BitswapBlock * Z) :=
  let at_pos := bdrop pos buffer in
  let room := size_sub buffer_length pos in
  if field_no =? 1 then
    match protobuf_decode_length_delimited at_pos room with
    | None => Err block
    | Some (d, bytes_read) =>
        Ok (MkBitswapBlock (Some d) (len d) (bb_bytes block) (bb_bytes_size block), 0)
    end
  else if field_no =? 2 then
    match protobuf_decode_length_delimited at_pos room with
    | None => Err block
    | Some (d, bytes_read) =>
        Ok (MkBitswapBlock (bb_prefix block) (bb_prefix_size block) (Some d) (len d), 0)
    end
  else Ok (block, 0).

Definition ipfs_bitswap_message_block_protobuf_decode (buffer : bytes) (buffer_length : Z)
  (malloced : BitswapBlock) : cres unit (option BitswapBlock) :=
  if buffer_length =? 0 then Ok None
  else
    block ← on_err (field_loop (bitswap_block_decode_field buffer buffer_length) buffer
                      buffer_length (loop_fuel buffer_length) 0 malloced) ();
    Ok (Some block).

Definition ipfs_bitswap_wantlist_entry_protobuf_encode_size (entry : WantlistEntry) : Z :=
  u64 (33 + we_block_size entry).

Definition ipfs_bitswap_wantlist_entry_protobuf_encode (entry : option WantlistEntry)
  (buffer_length : Z) : cres bytes bytes :=
  match entry with
  | None => Ok []
  | Some entry =>
      block ← mem_read (we_block entry) (we_block_size entry);
      out ← emit (protobuf_encode_length_delimited 1 WIRETYPE_LENGTH_DELIMITED block
                    buffer_length) [];
      out ← emit (protobuf_encode_varint 2 WIRETYPE_VARINT (we_cancel entry)
                    (size_sub buffer_length (len out))) out;
      emit (protobuf_encode_varint 3 WIRETYPE_VARINT (we_priority entry)
              (size_sub buffer_length (len out))) out
  end.

Definition wantlist_entry_decode_field (buffer : bytes) (buffer_length pos field_no : Z)
  (entry : WantlistEntry) : cres WantlistEntry (WantlistEntry * Z) :=
  let at_pos := bdrop pos buffer in
  let room := size_sub buffer_length pos in
  if field_no =? 1 then
    match protobuf_decode_length_delimited at_pos room with
    | None => Err entry
    | Some (d, bytes_read) =>
        Ok (MkWantlistEntry (Some d) (len d) (we_priority entry) (we_cancel entry), bytes_read)
    end
  else if field_no =? 2 then
    let '(v, bytes_read) := varint_decode at_pos room in
    Ok (MkWantlistEntry (we_block entry) (we_block_size entry) (we_priority entry) (u8 v),
        bytes_read)
  else if field_no =? 3 then
    let '(v, bytes_read) := varint_decode at_pos room in
    Ok (MkWantlistEntry (we_block entry) (we_block_size entry) (u32 v) (we_cancel entry),
        bytes_read)
  else Ok (entry, 0).

Definition ipfs_bitswap_wantlist_entry_protobuf_decode (buffer : bytes) (buffer_length : Z)
  (malloced : WantlistEntry) : cres unit (option WantlistEntry) :=
  if buffer_length =? 0 then Ok None
  else
    entry ← on_err (field_loop (wantlist_entry_decode_field buffer buffer_length) buffer
                      buffer_length (loop_fuel buffer_length) 0 malloced) ();
    Ok (Some entry).
End Entries.

(** ** Want-lists and messages *)

(** What one node wants to get from or send to another: an entry of the queue of
    a peer (include/ipfs/exchange/bitswap/peer_request_queue.h). *)
Record CidEntry := MkCidEntry {
  ce_cid : option Cid;
  ce_cancel : Z;
  ce_cancel_has_been_sent : Z;
  ce_request_has_been_sent : Z
}.

(** The vectors of a peer's queue hold pointers to entries, which the program
    changes through them. *)
Abbreviation entry_ptr := positive.
Abbreviation entry_heap := (gmap positive CidEntry).

Section Messages.
Context {PB : Protobuf} {VE : Libp2pVector}.

(** The entries of a want-list are pointers that may be NULL. *)
Record BitswapWantlist := MkBitswapWantlist {
  wl_entries : option (vector (option WantlistEntry));
  wl_full : Z
}.

Record BitswapMessage := MkBitswapMessage {
  bm_wantlist : option BitswapWantlist;
  bm_blocks : option (vector Block);
  bm_payload : option (vector Block)
}.

Definition ipfs_bitswap_wantlist_new : BitswapWantlist := MkBitswapWantlist None 1.
Definition ipfs_bitswap_message_new : BitswapMessage := MkBitswapMessage None None None.

Definition wantlist_add_entry_size {E} (entry : option WantlistEntry) (total : Z) : cres E Z :=
  match entry with
  | None => Undef
  | Some entry => Ok (u64 (total + ipfs_bitswap_wantlist_entry_protobuf_encode_size entry))
  end.

Definition ipfs_bitswap_wantlist_protobuf_encode_size {E} (list : option BitswapWantlist)
  : cres E Z :=
  match list with
  | None => Ok 0
  | Some list =>
      match wl_entries list with
      | None => Undef (* [list->entries->total] *)
      | Some entries =>
          total ← vector_loop wantlist_add_entry_size entries 0;
          Ok (u64 (total + (11 + 12 + 11)))
      end
  end.

Definition wantlist_encode_entry (buffer_length : Z) (entry : option WantlistEntry)
  (out : bytes) : cres bytes bytes :=
  match entry with
  | None => Undef
  | Some e =>
      temp ← on_err (ipfs_bitswap_wantlist_entry_protobuf_encode entry
                       (ipfs_bitswap_wantlist_entry_protobuf_encode_size e)) out;
      emit (protobuf_encode_length_delimited 1 WIRETYPE_LENGTH_DELIMITED temp
              (size_sub buffer_length (len out))) out
  end.

Definition ipfs_bitswap_wantlist_protobuf_encode (list : option BitswapWantlist)
  (buffer_length : Z) : cres bytes bytes :=
  match list with
  | None => Ok []
  | Some list =>
      match wl_entries list with
      | None => Undef
      | Some entries =>
          out ← vector_loop (wantlist_encode_entry buffer_length) entries [];
          emit (protobuf_encode_varint 2 WIRETYPE_VARINT (wl_full list)
                  (size_sub buffer_length (len out))) out
      end
  end.

(** [if (v == NULL) v = libp2p_utils_vector_new(1); libp2p_utils_vector_add(v, a);] *)
Definition add_to {A} (v : option (vector A)) (a : A) : vector A :=
  libp2p_utils_vector_add (default (libp2p_utils_vector_new A 1) v) a.

Definition wantlist_decode_field (malloced : WantlistEntry) (buffer : bytes)
  (buffer_length pos field_no : Z) (list : BitswapWantlist)
  : cres BitswapWantlist (BitswapWantlist * Z) :=
  let at_pos := bdrop pos buffer in
  let room := size_sub buffer_length pos in
  if field_no =? 1 then
    match protobuf_decode_length_delimited at_pos room with
    | None => Err list
    | Some (temp, bytes_read) =>
        entry ← on_err (ipfs_bitswap_wantlist_entry_protobuf_decode temp (len temp) malloced) list;
        Ok (MkBitswapWantlist (Some (add_to (wl_entries list) entry)) (wl_full list), bytes_read)
    end
  else if field_no =? 2 then
    let '(v, bytes_read) := varint_decode at_pos room in
    Ok (MkBitswapWantlist (wl_entries list) (u8 v), bytes_read)
  else Ok (list, 0).

Definition ipfs_bitswap_wantlist_protobuf_decode (buffer : bytes) (buffer_length : Z)
  (malloced : WantlistEntry) : cres (option BitswapWantlist) (option BitswapWantlist) :=
  if buffer_length =? 0 then Ok None
  else out_ptr (field_loop (wantlist_decode_field malloced buffer buffer_length) buffer
                  buffer_length (loop_fuel buffer_length) 0 ipfs_bitswap_wantlist_new).

(** [if (v != NULL) for (...)] *)
Definition loop_over {E A S} (body : A -> S -> cres E S) (v : option (vector A)) (s : S)
  : cres E S :=
  match v with
  | None => Ok s
  | Some v => vector_loop body v s
  end.

Definition message_add_block_size {E} (entry : Block) (total : Z) : cres E Z :=
  Ok (u64 (total + (11 + bl_data_length entry))).
Definition message_add_payload_size {E} (entry : Block) (total : Z) : cres E Z :=
  Ok (u64 (total + (11 + ipfs_blocks_block_protobuf_encode_size entry))).

Definition ipfs_bitswap_message_protobuf_encode_size {E} (message : option BitswapMessage)
  : cres E Z :=
  match message with
  | None => Ok 0
  | Some message =>
      total ← loop_over message_add_block_size (bm_blocks message) 0;
      total ← loop_over message_add_payload_size (bm_payload message) total;
      wantlist ← ipfs_bitswap_wantlist_protobuf_encode_size (bm_wantlist message);
      Ok (u64 (total + wantlist + (11 + 12 + 11)))
  end.

Definition message_encode_block (buffer_length : Z) (entry : Block) (out : bytes)
  : cres bytes bytes :=
  data ← mem_read (bl_data entry) (bl_data_length entry);
  emit (protobuf_encode_length_delimited 1 WIRETYPE_LENGTH_DELIMITED data
          (size_sub buffer_length (len out))) out.

Definition message_encode_payload (buffer_length : Z) (entry : Block) (out : bytes)
  : cres bytes bytes :=
  temp ← on_err (ipfs_blocks_block_protobuf_encode entry
                   (ipfs_blocks_block_protobuf_encode_size entry)) out;
  emit (protobuf_encode_length_delimited 2 WIRETYPE_LENGTH_DELIMITED temp
          (size_sub buffer_length (len out))) out.

Definition ipfs_bitswap_message_protobuf_encode (message : option BitswapMessage)
  (buffer_length : Z) : cres bytes bytes :=
  match message with
  | None => Ok []
  | Some message =>
      out ← loop_over (message_encode_block buffer_length) (bm_blocks message) [];
      out ← loop_over (message_encode_payload buffer_length) (bm_payload message) out;
      match bm_wantlist message with
      | None => Ok out
      | Some wantlist =>
          temp_size ← ipfs_bitswap_wantlist_protobuf_encode_size (Some wantlist);
          temp ← on_err (ipfs_bitswap_wantlist_protobuf_encode (Some wantlist) temp_size) out;
          emit (protobuf_encode_length_delimited 3 WIRETYPE_LENGTH_DELIMITED temp
                  (size_sub buffer_length (len out))) out
      end
  end.

Definition message_decode_field (malloced : WantlistEntry) (buffer : bytes)
  (buffer_length pos field_no : Z) (message : BitswapMessage)
  : cres BitswapMessage (BitswapMessage * Z) :=
  let at_pos := bdrop pos buffer in
  let room := size_sub buffer_length pos in
  if field_no =? 1 then
    match protobuf_decode_length_delimited at_pos room with
    | None => Err message
    | Some (data, bytes_read) =>
        let temp := MkBlock (bl_cid ipfs_block_new) (Some data) (len data) in
        Ok (MkBitswapMessage (bm_wantlist message) (Some (add_to (bm_blocks message) temp))
              (bm_payload message), bytes_read)
    end
  else if field_no =? 2 then
    match protobuf_decode_length_delimited at_pos room with
    | None => Err message
    | Some (temp, bytes_read) =>
        block ← on_err (ipfs_blocks_block_protobuf_decode temp (len temp)) message;
        Ok (MkBitswapMessage (bm_wantlist message) (bm_blocks message)
              (Some (add_to (bm_payload message) block)), bytes_read)
    end
  else if field_no =? 3 then
    match protobuf_decode_length_delimited at_pos room with
    | None => Err message
    | Some (temp, bytes_read) =>
        let set w := MkBitswapMessage w (bm_blocks message) (bm_payload message) in
        match ipfs_bitswap_wantlist_protobuf_decode temp (len temp) malloced with
        | Ok w => Ok (set w, bytes_read)
        | Err w => Err (set w)
        | Undef => Undef
        | NoFuel => NoFuel
        end
    end
  else Ok (message, 0).

Definition ipfs_bitswap_message_protobuf_decode (buffer : bytes) (buffer_length : Z)
  (malloced : WantlistEntry) : cres (option BitswapMessage) (option BitswapMessage) :=
  if buffer_length =? 0 then Ok None
  else out_ptr (field_loop (message_decode_field malloced buffer buffer_length) buffer
                  buffer_length (loop_fuel buffer_length) 0 ipfs_bitswap_message_new).

(** *** Filling a message *)

(** One CID of [ipfs_bitswap_message_add_wantlist_items]: the entries of the
    message and the flags of the queue. *)
Definition wantlist_item (p : entry_ptr) (s : vector (option WantlistEntry) * entry_heap)
  : cres (vector (option WantlistEntry) * entry_heap)
         (vector (option WantlistEntry) * entry_heap) :=
  let '(entries, heap) := s in
  match heap !! p with
  | None => Undef
  | Some cidEntry =>
      let cancel := negb (ce_cancel cidEntry =? 0) in
      if cancel && negb (ce_cancel_has_been_sent cidEntry =? 0) then Ok s
      else if negb cancel && negb (ce_request_has_been_sent cidEntry =? 0) then Ok s
      else
        block ← on_err (ipfs_cid_protobuf_encode (ce_cid cidEntry)
                          (ipfs_cid_protobuf_encode_size (ce_cid cidEntry))) s;
        let entry := MkWantlistEntry (Some block) (len block) 1 (u8 (ce_cancel cidEntry)) in
        let cidEntry' :=
          if cancel
          then MkCidEntry (ce_cid cidEntry) (ce_cancel cidEntry) 1
                 (ce_request_has_been_sent cidEntry)
          else MkCidEntry (ce_cid cidEntry) (ce_cancel cidEntry)
                 (ce_cancel_has_been_sent cidEntry) 1 in
        Ok (libp2p_utils_vector_add entries (Some entry), <[p := cidEntry']> heap)
  end.

Definition with_entries (message : BitswapMessage) (full : Z)
  (s : vector (option WantlistEntry) * entry_heap) : BitswapMessage * entry_heap :=
  (MkBitswapMessage (Some (MkBitswapWantlist (Some s.1) full)) (bm_blocks message)
     (bm_payload message), s.2).

Definition ipfs_bitswap_message_add_wantlist_items (message : BitswapMessage)
  (cids : vector entry_ptr) (heap : entry_heap)
  : cres (BitswapMessage * entry_heap) (BitswapMessage * entry_heap) :=
  let wantlist := default ipfs_bitswap_wantlist_new (bm_wantlist message) in
  let entries := default (libp2p_utils_vector_new (option WantlistEntry) 1) (wl_entries wantlist) in
  match vector_loop wantlist_item cids (entries, heap) with
  | Ok s => Ok (with_entries message (wl_full wantlist) s)
  | Err s => Err (with_entries message (wl_full wantlist) s)
  | Undef => Undef
  | NoFuel => NoFuel
  end.

(** The verdict (found or not) and the entries afterwards. *)
Definition ipfs_bitswap_message_cancel_cid {E} (cids : vector entry_ptr)
  (incoming_cid : option Cid) (heap : entry_heap) : cres E (Z * entry_heap) :=
  found ← vector_search (fun p =>
      match heap !! p with
      | None => Undef
      | Some entry =>
          match ipfs_cid_compare (ce_cid entry) incoming_cid with
          | Ok c => Ok (c =? 0)
          | _ => Undef
          end
      end) cids;
  match found with
  | None => Ok (0, heap)
  | Some p =>
      Ok (1, alter (fun e => MkCidEntry (ce_cid e) 1 (ce_cancel_has_been_sent e)
                               (ce_request_has_been_sent e)) p heap)
  end.

Definition add_block {E} (cids_they_want : vector entry_ptr) (current : Block)
  (s : vector Block * entry_heap) : cres E (vector Block * entry_heap) :=
  let '(payload, heap) := s in
  '(_, heap) ← ipfs_bitswap_message_cancel_cid cids_they_want (bl_cid current) heap;
  Ok (libp2p_utils_vector_add payload current, heap).

(** The message, the vector of blocks and the entries afterwards. *)
Definition ipfs_bitswap_message_add_blocks (message : option BitswapMessage)
  (blocks : option (vector Block)) (cids_they_want : vector entry_ptr) (heap : entry_heap)
  : cres unit (BitswapMessage * vector Block * entry_heap) :=
  match message, blocks with
  | Some message, Some blocks =>
      let tot_blocks := vector_total blocks in
      if tot_blocks =? 0 then Err ()
      else
        let payload := default (libp2p_utils_vector_new Block tot_blocks) (bm_payload message) in
        '(payload, heap) ← vector_loop (add_block cids_they_want) blocks (payload, heap);
        Ok (MkBitswapMessage (bm_wantlist message) (bm_blocks message) (Some payload),
            Nat.iter (Z.to_nat tot_blocks) (fun v => libp2p_utils_vector_delete v 0) blocks, heap)
  | _, _ => Err ()
  end.
End Messages.

(** * Properties *)

Definition opt_items {VE : Libp2pVector} `{!Libp2pVectorLaws VE} {A}
  (v : option (vector A)) : list A := match v with Some v => items v | None => [] end.

Section LoopFacts.
Context {VE : Libp2pVector} `{!Libp2pVectorLaws VE}.

Lemma loop_over_items {E A S} (body : A -> S -> cres E S) v s :
  loop_over body v s = list_loop body (opt_items v) s.
Proof. destruct v; [apply vector_loop_items | reflexivity]. Qed.

Lemma items_add_to {A} (v : option (vector A)) a : items (add_to v a) = opt_items v ++ [a].
Proof.
  unfold add_to. rewrite items_add. destruct v; cbn; [| rewrite items_new]; reflexivity.
Qed.

End LoopFacts.

(** ** Entries *)

Definition entry_block (e : WantlistEntry) : bytes := default [] (we_block e).
Definition entry_value (e : WantlistEntry) : bytes * Z * Z :=
  (entry_block e, we_priority e, we_cancel e).

Record entry_wf (e : WantlistEntry) : Prop := {
  entry_wf_block : we_block_size e = len (entry_block e);
  entry_wf_room : we_block_size e < 2 ^ 62;
  entry_wf_priority : 0 <= we_priority e < 2 ^ 32;
  entry_wf_cancel : 0 <= we_cancel e < 2 ^ 8
}.

(** An entry as the decoder builds it. *)
Definition entry_saved (e : WantlistEntry) : WantlistEntry :=
  MkWantlistEntry (Some (entry_block e)) (len (entry_block e)) (we_priority e) (we_cancel e).

Section EntryFacts.
Context {PB : Protobuf} `{!ProtobufLaws PB}.

Definition entry_fields (e : WantlistEntry) : list wfield :=
  [ld_field 1 (entry_block e); varint_field 2 (we_cancel e); varint_field 3 (we_priority e)].
Definition entry_wire (e : WantlistEntry) : bytes := wire_msg (entry_fields e).

Lemma entry_wire_bound e :
  entry_wf e -> 0 < len (entry_wire e) <= 33 + we_block_size e /\
  0 <= we_block_size e /\ len (entry_wire e) <= 20 + we_block_size e.
Proof.
  intros [Hb Hr Hp Hc]. unfold entry_wire, entry_fields. pose proof (len_nonneg (entry_block e)).
  wire_len. rewrite <- Hb.
  pose proof (varint_size_64 (we_block_size e) ltac:(lia)).
  pose proof (varint_size_8 (we_cancel e) ltac:(lia)).
  pose proof (varint_size_32 (we_priority e) ltac:(lia)).
  pose proof (varint_size_pos (we_block_size e)). pose proof (varint_size_pos (we_cancel e)).
  pose proof (varint_size_pos (we_priority e)). lia.
Qed.

Lemma entry_encode_size e :
  entry_wf e -> ipfs_bitswap_wantlist_entry_protobuf_encode_size e = 33 + we_block_size e.
Proof. intros He. pose proof (entry_wire_bound e He). destruct He. apply u64_small. lia. Qed.

Lemma entry_encode_fields e n :
  entry_wf e -> len (entry_wire e) <= n -> n < 2 ^ 64 ->
  ipfs_bitswap_wantlist_entry_protobuf_encode (Some e) n = Ok (entry_wire e).
Proof.
  intros [Hb Hr Hp Hc] Hn Hm. unfold entry_wire, entry_fields in *.
  pose proof (len_nonneg (entry_block e)). pose proof (varint_size_pos (len (entry_block e))).
  pose proof (varint_size_pos (we_cancel e)). pose proof (varint_size_pos (we_priority e)).
  cbn [ipfs_bitswap_wantlist_entry_protobuf_encode].
  unfold entry_block in *. rewrite mem_read_default by assumption. cbn [mbind cres_bind].
  wire_len. rewrite emit_ld_first by lia. cbn [mbind cres_bind].
  rewrite emit_varint by (wire_len; lia). cbn [mbind cres_bind].
  rewrite emit_varint by (wire_len; lia). rewrite <- !app_assoc. reflexivity.
Qed.

Lemma entry_reads_1 d e :
  reads wantlist_entry_decode_field 1 (ld_payload d) e
    (MkWantlistEntry (Some d) (len d) (we_priority e) (we_cancel e)).
Proof.
  intros pre rest buf Hl. subst buf. unfold wantlist_entry_decode_field. cbn [Z.eqb Pos.eqb].
  rewrite at_ld by assumption. reflexivity.
Qed.
Lemma entry_reads_2 v e :
  0 <= v < 2 ^ 8 ->
  reads wantlist_entry_decode_field 2 (wire_uint v) e
    (MkWantlistEntry (we_block e) (we_block_size e) (we_priority e) v).
Proof.
  intros Hv pre rest buf Hl. subst buf. unfold wantlist_entry_decode_field. cbn [Z.eqb Pos.eqb].
  rewrite at_varint by (assumption || lia). rewrite u8_small by lia. reflexivity.
Qed.
Lemma entry_reads_3 v e :
  0 <= v < 2 ^ 32 ->
  reads wantlist_entry_decode_field 3 (wire_uint v) e
    (MkWantlistEntry (we_block e) (we_block_size e) v (we_cancel e)).
Proof.
  intros Hv pre rest buf Hl. subst buf. unfold wantlist_entry_decode_field. cbn [Z.eqb Pos.eqb].
  rewrite at_varint by (assumption || lia). rewrite u32_small by lia. reflexivity.
Qed.

Lemma entry_decode_wire e junk :
  entry_wf e ->
  ipfs_bitswap_wantlist_entry_protobuf_decode (entry_wire e) (len (entry_wire e)) junk =
    Ok (Some (entry_saved e)).
Proof.
  intros He. pose proof (entry_wire_bound e He). destruct He as [Hb Hr Hp Hc].
  unfold ipfs_bitswap_wantlist_entry_protobuf_decode.
  replace (len (entry_wire e) =? 0) with false by lia.
  unfold entry_wire in *.
  erewrite (field_loop_reads wantlist_entry_decode_field); [reflexivity | | lia].
  econstructor; [lia | apply entry_reads_1 |].
  econstructor; [lia | apply entry_reads_2; assumption |].
  econstructor; [lia | apply entry_reads_3; assumption | constructor].
Qed.

Lemma entry_decode_returns b n junk :
  returns (ipfs_bitswap_wantlist_entry_protobuf_decode b n junk).
Proof.
  unfold ipfs_bitswap_wantlist_entry_protobuf_decode. case_match; [exact I |].
  assert (returns (field_loop (wantlist_entry_decode_field b n) b n (loop_fuel n) 0 junk)) as Hr.
  { apply field_loop_terminates; unfold wantlist_entry_decode_field.
    - intros. repeat (case_match; try exact I).
    - step_reads. }
  destruct (field_loop _ _ _ _ _ _); cbn; auto.
Qed.
End EntryFacts.

(** ** Want-lists *)


(** ** Want-lists *)

Section WantlistFacts.
Context {PB : Protobuf} `{!ProtobufLaws PB} {VE : Libp2pVector} `{!Libp2pVectorLaws VE}.

Definition wantlist_items (l : BitswapWantlist) : list (option WantlistEntry) :=
  opt_items (wl_entries l).
Definition wantlist_value (l : BitswapWantlist) : list (option (bytes * Z * Z)) * Z :=
  (map (fmap entry_value) (wantlist_items l), wl_full l).

Definition entry_ok (e : option WantlistEntry) : Prop :=
  match e with Some e => entry_wf e | None => False end.
Definition entry_room (e : option WantlistEntry) : Z :=
  match e with Some e => 33 + we_block_size e | None => 0 end.
Definition entry_field (e : option WantlistEntry) : wfield :=
  ld_field 1 (match e with Some e => entry_wire e | None => [] end).

Record wantlist_wf (l : BitswapWantlist) : Prop := {
  wantlist_wf_entries : wl_entries l <> None;
  wantlist_wf_items : Forall entry_ok (wantlist_items l);
  wantlist_wf_full : 0 <= wl_full l < 2 ^ 8;
  wantlist_wf_room : sum_over entry_room (wantlist_items l) < 2 ^ 62
}.

Definition wantlist_room (l : BitswapWantlist) : Z :=
  sum_over entry_room (wantlist_items l) + 34.
Definition wantlist_fields (l : BitswapWantlist) : list wfield :=
  map entry_field (wantlist_items l) ++ [varint_field 2 (wl_full l)].
Definition wantlist_wire (l : BitswapWantlist) : bytes := wire_msg (wantlist_fields l).

Lemma entry_rooms l : Forall entry_ok l -> Forall (fun e => 0 <= entry_room e) l.
Proof.
  intros Hl. eapply Forall_impl; [exact Hl |]. intros [e |] He; [| contradiction].
  pose proof (entry_wire_bound e He). cbn [entry_room]. lia.
Qed.

Lemma entry_field_room e : entry_ok e -> len (wire_field (entry_field e)) <= entry_room e.
Proof.
  destruct e as [e |]; [| contradiction]. intros He. pose proof (entry_wire_bound e He).
  destruct He. unfold entry_field. cbn [entry_room].
  assert (len (entry_wire e) < 2 ^ 64) as Hl by lia.
  pose proof (len_ld_field_max 1 (entry_wire e) ltac:(lia) Hl). lia.
Qed.

Lemma wantlist_wire_bound l :
  wantlist_wf l -> 0 < len (wantlist_wire l) <= wantlist_room l /\ wantlist_room l < 2 ^ 62 + 34.
Proof.
  intros [_ Hi Hf Hr]. unfold wantlist_wire, wantlist_fields, wantlist_room.
  pose proof (fields_sum entry_field entry_room (wantlist_items l)) as Hs.
  pose proof (varint_size_8 (wl_full l) Hf). pose proof (varint_size_pos (wl_full l)).
  pose proof (len_nonneg (wire_msg (map entry_field (wantlist_items l)))).
  wire_len. rewrite Forall_forall in Hi.
  specialize (Hs ltac:(intros; apply entry_field_room, Hi; assumption)). lia.
Qed.

Lemma wantlist_size {E} l :
  wantlist_wf l ->
  @ipfs_bitswap_wantlist_protobuf_encode_size _ E (Some l) = Ok (wantlist_room l).
Proof.
  intros Hl. pose proof (wantlist_wire_bound l Hl). destruct Hl as [He Hi Hf Hr].
  cbn [ipfs_bitswap_wantlist_protobuf_encode_size].
  unfold wantlist_room, wantlist_items in *. destruct (wl_entries l) as [v |]; [| contradiction].
  cbn [opt_items] in *. rewrite vector_loop_items.
  pose proof (sum_over_nonneg _ _ (entry_rooms _ Hi)).
  rewrite (sum_over_loop _ entry_room).
  - cbn [mbind cres_bind]. f_equal. apply u64_small. lia.
  - rewrite Forall_forall in Hi. intros [e |] t Hin; [| destruct (Hi _ Hin)].
    cbn [wantlist_add_entry_size entry_room]. rewrite entry_encode_size by (apply Hi in Hin; exact Hin).
    reflexivity.
  - apply entry_rooms, Hi.
  - lia.
  - lia.
Qed.

Lemma wantlist_encode_fields l n :
  wantlist_wf l -> len (wantlist_wire l) <= n -> n < 2 ^ 64 ->
  ipfs_bitswap_wantlist_protobuf_encode (Some l) n = Ok (wantlist_wire l).
Proof.
  intros [He Hi Hf Hr] Hn Hm. unfold wantlist_wire, wantlist_fields, wantlist_items in *.
  cbn [ipfs_bitswap_wantlist_protobuf_encode].
  destruct (wl_entries l) as [v |]; [| contradiction]. cbn [opt_items] in *.
  rewrite vector_loop_items. pose proof (varint_size_pos (wl_full l)). wire_len.
  rewrite Forall_forall in Hi. rewrite (emit_loop _ entry_field n).
  - cbn [mbind cres_bind app]. rewrite emit_varint by lia. reflexivity.
  - intros [e |] out Hin Hroom; [| destruct (Hi _ Hin)]. apply Hi in Hin.
    pose proof (entry_wire_bound e Hin). destruct (Hin).
    cbn [wantlist_encode_entry]. rewrite entry_encode_size by exact Hin.
    rewrite entry_encode_fields by (assumption || lia). cbn [on_err mbind cres_bind].
    apply emit_ld_total; [lia | lia | exact Hroom].
  - len_nils. lia.
Qed.

Lemma wantlist_reads_1 e l junk :
  entry_wf e ->
  reads (wantlist_decode_field junk) 1 (ld_payload (entry_wire e)) l
    (MkBitswapWantlist (Some (add_to (wl_entries l) (Some (entry_saved e)))) (wl_full l)).
Proof.
  intros He pre rest buf Hl. subst buf. unfold wantlist_decode_field. cbn [Z.eqb Pos.eqb].
  rewrite at_ld by assumption. rewrite entry_decode_wire by assumption. reflexivity.
Qed.
Lemma wantlist_reads_2 v l junk :
  0 <= v < 2 ^ 8 ->
  reads (wantlist_decode_field junk) 2 (wire_uint v) l (MkBitswapWantlist (wl_entries l) v).
Proof.
  intros Hv pre rest buf Hl. subst buf. unfold wantlist_decode_field. cbn [Z.eqb Pos.eqb].
  rewrite at_varint by (assumption || lia). rewrite u8_small by lia. reflexivity.
Qed.

Lemma wantlist_reads_entries es l junk :
  Forall entry_ok es ->
  exists l', reads_all (wantlist_decode_field junk) (map entry_field es) l l' /\
    wantlist_items l' = wantlist_items l ++ map (fmap entry_saved) es /\ wl_full l' = wl_full l.
Proof.
  intros He. revert l. induction He as [| [e |] es He Hes IH]; intros l; [| | contradiction].
  - exists l. rewrite app_nil_r. auto with cipfs.
  - destruct (IH (MkBitswapWantlist (Some (add_to (wl_entries l) (Some (entry_saved e))))
      (wl_full l))) as (l' & Hr & Hi & Hf).
    exists l'. split_and!; [| | exact Hf].
    + cbn [map]. unfold entry_field at 1, ld_field.
      econstructor; [lia | apply wantlist_reads_1; exact He | exact Hr].
    + rewrite Hi. unfold wantlist_items. cbn [wl_entries opt_items].
      rewrite items_add_to, <- app_assoc. reflexivity.
Qed.

Lemma entry_saved_value (es : list (option WantlistEntry)) :
  map (fmap entry_value) (map (fmap entry_saved) es) = map (fmap entry_value) es.
Proof. rewrite map_map. apply map_ext. intros [e |]; reflexivity. Qed.

Lemma wantlist_decode_wire l junk :
  wantlist_wf l ->
  exists l', ipfs_bitswap_wantlist_protobuf_decode (wantlist_wire l) (len (wantlist_wire l)) junk =
      Ok (Some l') /\ wantlist_value l' = wantlist_value l /\
    wantlist_items l' = map (fmap entry_saved) (wantlist_items l).
Proof.
  intros Hl. pose proof (wantlist_wire_bound l Hl). destruct Hl as [He Hi Hf Hr].
  destruct (wantlist_reads_entries _ ipfs_bitswap_wantlist_new junk Hi) as (l' & Hreads & Hitems & _).
  exists (MkBitswapWantlist (wl_entries l') (wl_full l)). split; [| split; [| exact Hitems]].
  - unfold ipfs_bitswap_wantlist_protobuf_decode.
    replace (len (wantlist_wire l) =? 0) with false by lia. unfold wantlist_wire in *.
    erewrite (field_loop_reads (wantlist_decode_field junk)); [reflexivity | | lia].
    eapply reads_all_app; [exact Hreads |].
    econstructor; [lia | apply wantlist_reads_2; exact Hf | constructor].
  - unfold wantlist_value in *. cbn [wl_full]. unfold wantlist_items in *. cbn [wl_entries].
    rewrite Hitems. cbn [wl_entries ipfs_bitswap_wantlist_new opt_items app].
    rewrite entry_saved_value. reflexivity.
Qed.
End WantlistFacts.

(** ** Messages *)

Section MessageFacts.
Context {PB : Protobuf} `{!ProtobufLaws PB} {VE : Libp2pVector} `{!Libp2pVectorLaws VE}.

Definition message_blocks (m : BitswapMessage) : list Block := opt_items (bm_blocks m).
Definition message_payload (m : BitswapMessage) : list Block := opt_items (bm_payload m).

(** What a message says: the data of its blocks, its payload, its want-list. A
    message that says nothing is the same as none. *)
Definition message_value (m : option BitswapMessage)
  : list bytes * list (option (Z * Z * bytes) * bytes) *
    option (list (option (bytes * Z * Z)) * Z) :=
  match m with
  | None => ([], [], None)
  | Some m => (map block_data (message_blocks m), map block_value (message_payload m),
               wantlist_value <$> bm_wantlist m)
  end.

Definition data_need (b : Block) : Z := 11 + bl_data_length b.
Definition payload_need (b : Block) : Z := 11 + block_room b.
Definition message_room (m : BitswapMessage) : Z :=
  sum_over data_need (message_blocks m) + sum_over payload_need (message_payload m) +
  match bm_wantlist m with Some l => wantlist_room l | None => 0 end + 34.

Record message_wf (m : BitswapMessage) : Prop := {
  message_wf_blocks : Forall (fun b => bl_data_length b = len (block_data b)) (message_blocks m);
  message_wf_payload : Forall block_wf (message_payload m);
  message_wf_wantlist : match bm_wantlist m with Some l => wantlist_wf l | None => True end;
  message_wf_room : message_room m < 2 ^ 62
}.

Definition data_field (b : Block) : wfield := ld_field 1 (block_data b).
Definition payload_field (b : Block) : wfield := ld_field 2 (block_wire b).
Definition wantlist_field (w : option BitswapWantlist) : list wfield :=
  match w with Some l => [ld_field 3 (wantlist_wire l)] | None => [] end.
Definition message_fields (m : BitswapMessage) : list wfield :=
  map data_field (message_blocks m) ++ map payload_field (message_payload m) ++
  wantlist_field (bm_wantlist m).
Definition message_wire (m : BitswapMessage) : bytes := wire_msg (message_fields m).

(** The rooms are those of the parts. *)
Record message_rooms (m : BitswapMessage) : Prop := {
  rooms_data : Forall (fun b => 0 <= data_need b) (message_blocks m);
  rooms_payload : Forall (fun b => 0 <= payload_need b) (message_payload m);
  rooms_data_sum : 0 <= sum_over data_need (message_blocks m) < 2 ^ 62;
  rooms_payload_sum : 0 <= sum_over payload_need (message_payload m) < 2 ^ 62;
  rooms_wantlist :
    match bm_wantlist m with
    | Some l => 0 < len (wantlist_wire l) <= wantlist_room l /\ wantlist_room l < 2 ^ 62
    | None => True
    end;
  rooms_total : 34 <= message_room m
}.

Lemma message_rooms_of m : message_wf m -> message_rooms m.
Proof.
  intros [Hb Hp Hw Hr].
  assert (Forall (fun b => 0 <= data_need b) (message_blocks m)) as Hd.
  { eapply Forall_impl; [exact Hb |]. intros b Hl. cbv beta in Hl. unfold data_need.
    pose proof (len_nonneg (block_data b)). lia. }
  assert (Forall (fun b => 0 <= payload_need b) (message_payload m)) as Hq.
  { eapply Forall_impl; [exact Hp |]. intros b Hl. pose proof (block_room_range b Hl).
    unfold payload_need. lia. }
  pose proof (sum_over_nonneg _ _ Hd). pose proof (sum_over_nonneg _ _ Hq).
  unfold message_room in Hr.
  constructor; auto; unfold message_room; destruct (bm_wantlist m) as [l |]; try exact I; try lia.
  all: pose proof (wantlist_wire_bound l Hw); lia.
Qed.

Lemma data_field_room m b :
  message_wf m -> b ∈ message_blocks m -> len (wire_field (data_field b)) <= data_need b.
Proof.
  intros Hm Hin. destruct (message_rooms_of m Hm). destruct Hm as [Hb _ _ _].
  rewrite Forall_forall in Hb. specialize (Hb b Hin).
  pose proof (sum_over_elem data_need _ b Hin rooms_data0). unfold data_need, data_field in *.
  assert (len (block_data b) < 2 ^ 64) as Hl by lia.
  pose proof (len_ld_field_max 1 (block_data b) ltac:(lia) Hl). lia.
Qed.

Lemma payload_field_room m b :
  message_wf m -> b ∈ message_payload m -> len (wire_field (payload_field b)) <= payload_need b.
Proof.
  intros Hm Hin. destruct (message_rooms_of m Hm). destruct Hm as [_ Hb _ _].
  rewrite Forall_forall in Hb. specialize (Hb b Hin).
  pose proof (sum_over_elem payload_need _ b Hin rooms_payload0).
  unfold payload_need, payload_field in *. pose proof (block_wire_bound b Hb).
  assert (len (block_wire b) < 2 ^ 64) as Hl by lia.
  pose proof (len_ld_field_max 2 (block_wire b) ltac:(lia) Hl). lia.
Qed.

Lemma wantlist_field_room m :
  message_wf m -> len (wire_msg (wantlist_field (bm_wantlist m))) <=
    match bm_wantlist m with Some l => 11 + wantlist_room l | None => 0 end.
Proof.
  intros Hm. destruct (message_rooms_of m Hm). destruct (bm_wantlist m) as [l |]; [| reflexivity].
  cbn [wantlist_field]. rewrite wire_msg_cons, wire_msg_nil, app_nil_r.
  assert (len (wantlist_wire l) < 2 ^ 64) as Hl by lia.
  pose proof (len_ld_field_max 3 (wantlist_wire l) ltac:(lia) Hl). lia.
Qed.

Lemma message_wire_bound m : message_wf m -> len (message_wire m) <= message_room m.
Proof.
  intros Hm. unfold message_wire, message_fields, message_room. rewrite !wire_msg_app, !len_app.
  pose proof (fields_sum data_field data_need (message_blocks m)
    (fun b => data_field_room m b Hm)).
  pose proof (fields_sum payload_field payload_need (message_payload m)
    (fun b => payload_field_room m b Hm)).
  pose proof (wantlist_field_room m Hm). destruct (bm_wantlist m); lia.
Qed.

Lemma message_size {E} m :
  message_wf m -> ipfs_bitswap_message_protobuf_encode_size (E := E) (Some m) = Ok (message_room m).
Proof.
  intros Hm. pose proof (message_rooms_of m Hm) as [Hd Hq Hds Hqs Hw _].
  destruct Hm as [Hb Hp Hwl Hr]. rewrite Forall_forall in Hp.
  cbn [ipfs_bitswap_message_protobuf_encode_size]. rewrite !loop_over_items.
  rewrite (sum_over_loop _ data_need); [| reflexivity | assumption | lia | unfold message_blocks in *; lia].
  cbn [mbind cres_bind]. rewrite Z.add_0_l, loop_over_items.
  rewrite (sum_over_loop _ payload_need).
  - cbn [mbind cres_bind]. unfold message_room, message_blocks, message_payload in *.
    destruct (bm_wantlist m) as [l |].
    + rewrite wantlist_size by assumption. cbn [mbind cres_bind]. f_equal. apply u64_small. lia.
    + cbn [ipfs_bitswap_wantlist_protobuf_encode_size mbind cres_bind]. f_equal. apply u64_small. lia.
  - intros b t Hin. unfold message_add_payload_size, payload_need.
    rewrite block_encode_size by (apply Hp, Hin). reflexivity.
  - assumption.
  - unfold message_blocks in *. lia.
  - unfold message_blocks, message_payload in *. lia.
Qed.

Lemma message_encode_fields m n :
  message_wf m -> len (message_wire m) <= n -> n < 2 ^ 64 ->
  ipfs_bitswap_message_protobuf_encode (Some m) n = Ok (message_wire m).
Proof.
  intros Hm Hn Hn64. pose proof (message_rooms_of m Hm) as [_ _ _ _ Hw _].
  destruct Hm as [Hb Hp Hwl Hr]. rewrite Forall_forall in Hb, Hp.
  unfold message_wire, message_fields in *. rewrite !wire_msg_app, !len_app in Hn.
  pose proof (len_nonneg (wire_msg (map payload_field (message_payload m)))).
  pose proof (len_nonneg (wire_msg (wantlist_field (bm_wantlist m)))).
  cbn [ipfs_bitswap_message_protobuf_encode]. rewrite !loop_over_items.
  rewrite (emit_loop _ data_field n).
  2: { intros b out Hin Hroom. unfold message_encode_block.
       rewrite mem_read_default by (apply Hb, Hin). apply emit_ld_total; [lia | exact Hn64 | exact Hroom]. }
  2: { len_nils. unfold message_blocks in *. lia. }
  cbn [mbind cres_bind app]. rewrite loop_over_items, (emit_loop _ payload_field n).
  2: { intros b out Hin Hroom. specialize (Hp b Hin). unfold message_encode_payload.
       pose proof (block_wire_bound b Hp). pose proof (block_room_range b Hp).
       rewrite block_encode_size by assumption.
       rewrite block_encode_fields by (assumption || lia). cbn [on_err mbind cres_bind].
       apply emit_ld_total; [lia | exact Hn64 | exact Hroom]. }
  2: { unfold message_blocks, message_payload in *. lia. }
  cbn [mbind cres_bind]. rewrite !wire_msg_app, app_assoc.
  destruct (bm_wantlist m) as [l |]; [| cbn [wantlist_field]; rewrite wire_msg_nil, app_nil_r; reflexivity].
  rewrite wantlist_size by assumption. cbn [mbind cres_bind].
  rewrite wantlist_encode_fields by (assumption || lia). cbn [on_err mbind cres_bind].
  cbn [wantlist_field] in *. rewrite wire_msg_cons, wire_msg_nil, app_nil_r in *.
  apply emit_ld_total; [lia | exact Hn64 |]. rewrite len_app.
  unfold message_blocks, message_payload in *. lia.
Qed.

Lemma message_reads_1 d m junk :
  reads (message_decode_field junk) 1 (ld_payload d) m
    (MkBitswapMessage (bm_wantlist m)
       (Some (add_to (bm_blocks m) (MkBlock None (Some d) (len d)))) (bm_payload m)).
Proof.
  intros pre rest buf Hl. subst buf. unfold message_decode_field. cbn [Z.eqb Pos.eqb].
  rewrite at_ld by assumption. reflexivity.
Qed.

Lemma message_reads_2 b m junk :
  block_wf b ->
  exists b', block_value b' = block_value b /\ block_copyable b' /\
    reads (message_decode_field junk) 2 (ld_payload (block_wire b)) m
      (MkBitswapMessage (bm_wantlist m) (bm_blocks m) (Some (add_to (bm_payload m) b'))).
Proof.
  intros Hb. destruct (block_decode_wire b Hb) as (b' & Hd & Hv & _ & _ & Hcopy).
  exists b'. split; [exact Hv |]. split; [exact Hcopy |].
  intros pre rest buf Hl. subst buf. unfold message_decode_field. cbn [Z.eqb Pos.eqb].
  rewrite at_ld by assumption. rewrite Hd. reflexivity.
Qed.

Lemma message_reads_3 l m junk :
  wantlist_wf l ->
  exists l', wantlist_value l' = wantlist_value l /\
    wantlist_items l' = map (fmap entry_saved) (wantlist_items l) /\
    reads (message_decode_field junk) 3 (ld_payload (wantlist_wire l)) m
      (MkBitswapMessage (Some l') (bm_blocks m) (bm_payload m)).
Proof.
  intros Hwl. destruct (wantlist_decode_wire l junk Hwl) as (l' & Hd & Hv & Hitems).
  exists l'. split; [exact Hv |]. split; [exact Hitems |].
  intros pre rest buf Hl. subst buf. unfold message_decode_field. cbn [Z.eqb Pos.eqb].
  rewrite at_ld by assumption. rewrite Hd. reflexivity.
Qed.

Lemma message_reads_blocks bs m junk :
  exists m', reads_all (message_decode_field junk) (map data_field bs) m m' /\
    map block_data (message_blocks m') = map block_data (message_blocks m) ++ map block_data bs /\
    bm_payload m' = bm_payload m /\ bm_wantlist m' = bm_wantlist m.
Proof.
  revert m. induction bs as [| b bs IH]; intros m.
  - exists m. rewrite app_nil_r. auto with cipfs.
  - destruct (IH (MkBitswapMessage (bm_wantlist m) (Some (add_to (bm_blocks m)
      (MkBlock None (Some (block_data b)) (len (block_data b))))) (bm_payload m)))
      as (m' & Hr & Hb & Hp & Hw).
    exists m'. split_and!; [| | exact Hp | exact Hw].
    + cbn [map]. unfold data_field at 1, ld_field.
      econstructor; [lia | apply message_reads_1 | exact Hr].
    + rewrite Hb. unfold message_blocks. cbn [bm_blocks opt_items].
      rewrite items_add_to, map_app, <- app_assoc. reflexivity.
Qed.

Lemma message_reads_payload bs m junk :
  Forall block_wf bs ->
  exists m', reads_all (message_decode_field junk) (map payload_field bs) m m' /\
    map block_value (message_payload m') =
      map block_value (message_payload m) ++ map block_value bs /\
    (Forall block_copyable (message_payload m) -> Forall block_copyable (message_payload m')) /\
    bm_blocks m' = bm_blocks m /\ bm_wantlist m' = bm_wantlist m.
Proof.
  intros Hbs. revert m. induction Hbs as [| b bs Hb _ IH]; intros m.
  - exists m. rewrite app_nil_r. auto 6 with cipfs.
  - destruct (message_reads_2 b m junk Hb) as (b' & Hv & Hcopy & Hread).
    destruct (IH (MkBitswapMessage (bm_wantlist m) (bm_blocks m)
      (Some (add_to (bm_payload m) b')))) as (m' & Hr & Hp & Hcp & Hbl & Hw).
    exists m'. split_and!; [| | | exact Hbl | exact Hw].
    + cbn [map]. unfold payload_field at 1, ld_field.
      econstructor; [lia | exact Hread | exact Hr].
    + rewrite Hp. unfold message_payload. cbn [bm_payload opt_items].
      rewrite items_add_to, map_app, <- app_assoc. cbn. rewrite Hv. reflexivity.
    + intros Hm. apply Hcp. unfold message_payload. cbn [bm_payload opt_items].
      rewrite items_add_to. apply Forall_app. split; [exact Hm |].
      apply Forall_cons. split; [exact Hcopy | constructor].
Qed.

(** A message as it was loaded: its blocks and entries are fit for use. *)
Definition message_loaded (m m' : BitswapMessage) : Prop :=
  Forall block_copyable (message_payload m') /\
  match bm_wantlist m, bm_wantlist m' with
  | Some l, Some l' => wantlist_items l' = map (fmap entry_saved) (wantlist_items l)
  | None, None => True
  | _, _ => False
  end.

Lemma message_reads_all m junk :
  message_wf m ->
  exists m', reads_all (message_decode_field junk) (message_fields m) ipfs_bitswap_message_new m' /\
    message_value (Some m') = message_value (Some m) /\ message_loaded m m'.
Proof.
  intros [_ Hp Hw _].
  destruct (message_reads_blocks (message_blocks m) ipfs_bitswap_message_new junk)
    as (m1 & Hr1 & Hb1 & Hp1 & Hw1).
  destruct (message_reads_payload (message_payload m) m1 junk Hp)
    as (m2 & Hr2 & Hp2 & Hcp & Hb2 & Hw2).
  assert (exists m3, reads_all (message_decode_field junk) (wantlist_field (bm_wantlist m)) m2 m3 /\
    bm_blocks m3 = bm_blocks m2 /\ bm_payload m3 = bm_payload m2 /\
    wantlist_value <$> bm_wantlist m3 = wantlist_value <$> bm_wantlist m /\
    match bm_wantlist m, bm_wantlist m3 with
    | Some l, Some l' => wantlist_items l' = map (fmap entry_saved) (wantlist_items l)
    | None, None => True
    | _, _ => False
    end)
    as (m3 & Hr3 & Hb3 & Hp3 & Hw3 & Hl3).
  { destruct (bm_wantlist m) as [l |].
    - destruct (message_reads_3 l m2 junk Hw) as (l' & Hv & Hitems & Hread).
      eexists. split; [econstructor; [lia | exact Hread | constructor] |].
      cbn. rewrite Hv. auto.
    - exists m2. rewrite Hw2, Hw1. auto with cipfs. }
  exists m3. split; [| split].
  - eapply reads_all_app; [exact Hr1 |]. eapply reads_all_app; [exact Hr2 | exact Hr3].
  - unfold message_value. rewrite Hw3. unfold message_blocks, message_payload in *.
    rewrite Hb3, Hb2, Hb1, Hp3, Hp2, Hp1. reflexivity.
  - split; [| exact Hl3]. unfold message_payload in *. rewrite Hp3. apply Hcp.
    rewrite Hp1. constructor.
Qed.

Lemma message_decode_loaded m junk :
  message_wf m -> message_fields m <> [] ->
  exists m', ipfs_bitswap_message_protobuf_decode (message_wire m) (len (message_wire m)) junk =
      Ok (Some m') /\ message_value (Some m') = message_value (Some m) /\ message_loaded m m'.
Proof.
  intros Hm Hne. pose proof (message_wire_bound m Hm). pose proof (message_rooms_of m Hm) as [].
  destruct (message_reads_all m junk Hm) as (m' & Hr & Hv). destruct Hm as [_ _ _ Hroom].
  exists m'. split; [| exact Hv]. unfold ipfs_bitswap_message_protobuf_decode.
  apply length_wire_msg in Hr as Hlen.
  assert (0 < len (message_wire m)).
  { unfold message_wire, len. destruct (message_fields m); [contradiction |]. cbn [length] in Hlen. lia. }
  replace (len (message_wire m) =? 0) with false by lia. unfold message_wire in *.
  erewrite (field_loop_reads (message_decode_field junk)); [reflexivity | exact Hr | lia].
Qed.

Lemma message_decode_wire m junk :
  message_wf m ->
  exists o, ipfs_bitswap_message_protobuf_decode (message_wire m) (len (message_wire m)) junk = Ok o /\
    message_value o = message_value (Some m).
Proof.
  intros Hm. destruct (message_fields m) eqn:Hf.
  - exists None. unfold message_wire. rewrite Hf, wire_msg_nil. split; [reflexivity |].
    destruct (message_reads_all m junk Hm) as (m' & Hr & <- & _). rewrite Hf in Hr.
    inversion Hr. reflexivity.
  - destruct (message_decode_loaded m junk Hm) as (m' & Hd & Hv & _); [congruence | eauto].
Qed.

Lemma bitswap_block_decode_returns b n block :
  returns (ipfs_bitswap_message_block_protobuf_decode b n block).
Proof.
  unfold ipfs_bitswap_message_block_protobuf_decode. case_match; [exact I |].
  assert (returns (field_loop (bitswap_block_decode_field b n) b n (loop_fuel n) 0 block)) as Hr.
  { apply field_loop_terminates; unfold bitswap_block_decode_field.
    - intros. repeat (case_match; try exact I).
    - intros. repeat case_match; simplify_eq/=; lia. }
  destruct (field_loop _ _ _ _ _ _); cbn; auto.
Qed.

Lemma wantlist_decode_returns b n junk :
  returns (ipfs_bitswap_wantlist_protobuf_decode b n junk).
Proof.
  unfold ipfs_bitswap_wantlist_protobuf_decode. case_match; [exact I |].
  assert (returns (field_loop (wantlist_decode_field junk b n) b n (loop_fuel n) 0
    ipfs_bitswap_wantlist_new)) as Hr.
  { apply field_loop_terminates; unfold wantlist_decode_field.
    - intros. repeat (case_match; try exact I).
      match goal with |- context [ipfs_bitswap_wantlist_entry_protobuf_decode ?d ?m ?j] =>
        pose proof (entry_decode_returns d m j);
        destruct (ipfs_bitswap_wantlist_entry_protobuf_decode d m j) end; cbn; auto.
    - intros; repeat case_match; simplify_eq/=; try lia; [| step_reads].
      match goal with H : context [ipfs_bitswap_wantlist_entry_protobuf_decode ?d ?m ?j] |- _ =>
        destruct (ipfs_bitswap_wantlist_entry_protobuf_decode d m j); simplify_eq/= end.
      step_reads. }
  destruct (field_loop _ _ _ _ _ _); cbn; auto.
Qed.

Lemma message_decode_returns b n junk :
  returns (ipfs_bitswap_message_protobuf_decode b n junk).
Proof.
  unfold ipfs_bitswap_message_protobuf_decode. case_match; [exact I |].
  assert (returns (field_loop (message_decode_field junk b n) b n (loop_fuel n) 0
    ipfs_bitswap_message_new)) as Hr.
  { apply field_loop_terminates; unfold message_decode_field.
    - intros. repeat (case_match; try exact I).
      match goal with |- context [ipfs_blocks_block_protobuf_decode ?d ?m] =>
        pose proof (block_decode_returns d m);
        destruct (ipfs_blocks_block_protobuf_decode d m) end; cbn; auto.
      match goal with H : ipfs_bitswap_wantlist_protobuf_decode ?d ?m ?j = NoFuel |- _ =>
        pose proof (wantlist_decode_returns d m j) as Hret; rewrite H in Hret; exact Hret end.
    - intros; repeat case_match; simplify_eq/=; try lia; [step_reads | | step_reads].
      match goal with H : context [ipfs_blocks_block_protobuf_decode ?d ?m] |- _ =>
        destruct (ipfs_blocks_block_protobuf_decode d m); simplify_eq/= end.
      step_reads. }
  destruct (field_loop _ _ _ _ _ _); cbn; auto.
Qed.
End MessageFacts.

(** ** Filling a message from the queues *)

Definition cid_ok (c : option Cid) : Prop :=
  match c with Some c => cid_small c | None => True end.
Definition entries_ok (heap : entry_heap) (ps : list entry_ptr) : Prop :=
  Forall (fun p => exists e, heap !! p = Some e /\ cid_ok (ce_cid e)) ps.

(** An entry the peer has not been told about: a request or a cancellation. *)
Definition pending (e : CidEntry) : bool :=
  if ce_cancel e =? 0 then ce_request_has_been_sent e =? 0 else ce_cancel_has_been_sent e =? 0.
Definition settle (e : CidEntry) : CidEntry :=
  if negb (pending e) then e
  else if ce_cancel e =? 0
  then MkCidEntry (ce_cid e) (ce_cancel e) (ce_cancel_has_been_sent e) 1
  else MkCidEntry (ce_cid e) (ce_cancel e) 1 (ce_request_has_been_sent e).
Definition cancelled (e : CidEntry) : CidEntry :=
  MkCidEntry (ce_cid e) 1 (ce_cancel_has_been_sent e) (ce_request_has_been_sent e).

Definition cid_at (heap : entry_heap) (p : entry_ptr) : option (option (Z * Z * bytes)) :=
  (fun e => cid_value <$> ce_cid e) <$> heap !! p.
(** The first entry of a queue for a CID. *)
Definition find_cid (heap : entry_heap) (ps : list entry_ptr) (c : option Cid) : option entry_ptr :=
  find (fun p => bool_decide (cid_at heap p = Some (cid_value <$> c))) ps.

Lemma settle_done e : pending (settle e) = false.
Proof.
  unfold settle. destruct (pending e) eqn:E; [| exact E]. cbn [negb].
  destruct (ce_cancel e =? 0) eqn:C; unfold pending; cbn; rewrite C; reflexivity.
Qed.
Lemma settle_id e : pending e = false -> settle e = e.
Proof. unfold settle. intros ->. reflexivity. Qed.

Lemma compare_options a b :
  cid_ok a -> cid_ok b ->
  exists r, ipfs_cid_compare a b = Ok r /\ (r =? 0) = bool_decide (cid_value <$> a = cid_value <$> b).
Proof.
  destruct a as [a |], b as [b |]; cbn [cid_ok fmap option_fmap option_map]; intros Ha Hb.
  - destruct (cid_compare_flip a b Ha Hb) as (r & Hr & _ & Hz). exists r. split; [exact Hr |].
    case_bool_decide as Hd; [apply (inj Some), Hz in Hd; lia |].
    apply Z.eqb_neq. intros ->. apply Hd. f_equal. apply Hz. reflexivity.
  - exists (-1). split; [reflexivity |]. rewrite bool_decide_eq_false_2 by discriminate. reflexivity.
  - exists 1. split; [reflexivity |]. rewrite bool_decide_eq_false_2 by discriminate. reflexivity.
  - exists 0. split; [reflexivity |]. rewrite bool_decide_eq_true_2 by reflexivity. reflexivity.
Qed.

Lemma list_search_find {E A} (test : A -> cres E bool) (f : A -> bool) l :
  (forall a, a ∈ l -> test a = Ok (f a)) -> list_search test l = Ok (find f l).
Proof.
  induction l as [| a l IH]; intros Ht; [reflexivity |].
  cbn [list_search find]. rewrite Ht by left. cbn [mbind cres_bind].
  destruct (f a); [reflexivity |]. apply IH. intros. apply Ht. right. assumption.
Qed.

Section FillFacts.
Context {PB : Protobuf} `{!ProtobufLaws PB} {VE : Libp2pVector} `{!Libp2pVectorLaws VE}.

Definition request_of (e : CidEntry) : WantlistEntry :=
  MkWantlistEntry (Some (cid_opt_wire (ce_cid e))) (len (cid_opt_wire (ce_cid e))) 1
    (u8 (ce_cancel e)).

Lemma cid_ok_encode c :
  cid_ok c -> ipfs_cid_protobuf_encode c (ipfs_cid_protobuf_encode_size c) = Ok (cid_opt_wire c).
Proof.
  destruct c as [c |]; [| reflexivity]. intros [Hc _ _ Hl].
  pose proof (cid_fields_bound c Hc ltac:(lia)). pose proof (cid_digest_len c Hc).
  pose proof (len_nonneg (cid_digest c)).
  cbn [cid_opt_wire ipfs_cid_protobuf_encode_size]. rewrite u64_small by lia.
  apply cid_encode_fields; auto; lia.
Qed.

Lemma wantlist_item_eq p e v heap :
  heap !! p = Some e -> cid_ok (ce_cid e) ->
  wantlist_item p (v, heap) =
    Ok (if pending e then libp2p_utils_vector_add v (Some (request_of e)) else v,
        <[p := settle e]> heap).
Proof.
  intros Hp Hc. unfold wantlist_item. rewrite Hp, cid_ok_encode by assumption.
  unfold settle, pending, request_of.
  destruct (ce_cancel e =? 0), (ce_cancel_has_been_sent e =? 0) eqn:?,
    (ce_request_has_been_sent e =? 0) eqn:?; cbn;
    rewrite ?(insert_id heap p e Hp); reflexivity.
Qed.

(** The pending entries of a queue without duplicates, and the queue after. *)
Definition pending_at (heap : entry_heap) (ps : list entry_ptr) : list CidEntry :=
  List.filter pending (omap (fun p => heap !! p) ps).

Lemma wantlist_loop ps v heap :
  NoDup ps -> entries_ok heap ps ->
  exists v' heap', list_loop wantlist_item ps (v, heap) = Ok (v', heap') /\
    items v' = items v ++ map (fun e => Some (request_of e)) (pending_at heap ps) /\
    forall p, heap' !! p = (if bool_decide (p ∈ ps) then settle else id) <$> heap !! p.
Proof.
  intros Hnd. revert v heap. induction Hnd as [| p ps Hp _ IH]; intros v heap Hok.
  - exists v, heap. split_and!; [reflexivity | cbn; rewrite app_nil_r; reflexivity |].
    intros p. rewrite bool_decide_eq_false_2 by (intros Hin; inversion Hin).
    destruct (heap !! p); reflexivity.
  - apply Forall_cons in Hok as [(e & He & Hc) Hok].
    assert (forall q, q ∈ ps -> <[p:=settle e]> heap !! q = heap !! q) as Hsame.
    { intros q Hq. apply lookup_insert_ne. intros ->. contradiction. }
    destruct (IH (if pending e then libp2p_utils_vector_add v (Some (request_of e)) else v)
      (<[p:=settle e]> heap)) as (v' & heap' & Hl & Hi & Hh).
    { apply Forall_forall. intros q Hq. rewrite Hsame by assumption.
      unfold entries_ok in Hok. rewrite Forall_forall in Hok. exact (Hok q Hq). }
    exists v', heap'. split_and!.
    + cbn [list_loop]. rewrite (wantlist_item_eq p e) by assumption. exact Hl.
    + rewrite Hi. unfold pending_at. cbn [omap list_omap]. rewrite He. cbn [List.filter].
      replace (omap (fun p0 => <[p:=settle e]> heap !! p0) ps) with (omap (fun p0 => heap !! p0) ps).
      * destruct (pending e); cbn [map]; rewrite ?items_add, <- ?app_assoc; reflexivity.
      * apply list_omap_ext, Forall_Forall2_diag, Forall_forall.
        intros q Hq. symmetry. apply Hsame, Hq.
    + intros q. rewrite Hh. destruct (decide (q = p)) as [-> | Hne].
      * rewrite lookup_insert_eq, He, bool_decide_eq_false_2 by assumption.
        rewrite bool_decide_eq_true_2 by left. reflexivity.
      * rewrite lookup_insert_ne by congruence. f_equal.
        rewrite (bool_decide_ext _ (q ∈ p :: ps)); [reflexivity |].
        rewrite elem_of_cons. intuition congruence.
Qed.

Definition message_requests (m : BitswapMessage) : list (option WantlistEntry) :=
  match bm_wantlist m with Some l => wantlist_items l | None => [] end.

Lemma add_wantlist_items_eq m v heap :
  NoDup (items v) -> entries_ok heap (items v) ->
  exists m' heap', ipfs_bitswap_message_add_wantlist_items m v heap = Ok (m', heap') /\
    message_requests m' =
      message_requests m ++ map (fun e => Some (request_of e)) (pending_at heap (items v)) /\
    bm_blocks m' = bm_blocks m /\ bm_payload m' = bm_payload m /\
    (forall p, heap' !! p = (if bool_decide (p ∈ items v) then settle else id) <$> heap !! p) /\
    exists es, bm_wantlist m' = Some (MkBitswapWantlist (Some es)
      (wl_full (default ipfs_bitswap_wantlist_new (bm_wantlist m)))).
Proof.
  intros Hnd Hok. unfold ipfs_bitswap_message_add_wantlist_items. rewrite vector_loop_items.
  edestruct (wantlist_loop (items v)) as (v' & heap' & -> & Hi & Hh); [eassumption.. |].
  eexists _, _. split; [reflexivity |]. split_and!;
    [| reflexivity | reflexivity | exact Hh | eexists; reflexivity].
  unfold message_requests, with_entries. cbn [fst bm_wantlist wantlist_items wl_entries opt_items].
  unfold wantlist_items at 1. cbn [wl_entries opt_items]. rewrite Hi. f_equal.
  destruct (bm_wantlist m) as [l |]; cbn; [unfold wantlist_items; destruct (wl_entries l) |];
    cbn; rewrite ?items_new; reflexivity.
Qed.

(** Nothing is left pending. *)
Lemma pending_settled (heap heap' : entry_heap) ps :
  (forall p, heap' !! p = (if bool_decide (p ∈ ps) then settle else id) <$> heap !! p) ->
  forall qs, qs ⊆ ps -> pending_at heap' qs = [].
Proof.
  intros Hh qs Hqs. unfold pending_at. induction qs as [| q qs IH]; [reflexivity |].
  cbn [omap list_omap]. rewrite Hh, bool_decide_eq_true_2 by (apply Hqs; left).
  destruct (heap !! q) as [e |]; cbn; [rewrite settle_done |]; apply IH; set_solver.
Qed.

(** The entries that blocks sent cancel: the first of the queue for each CID. *)
Definition cancel_of (heap : entry_heap) (ps : list entry_ptr) (bs : list Block)
  (p : entry_ptr) : bool :=
  existsb (fun b => bool_decide (find_cid heap ps (bl_cid b) = Some p)) bs.

Lemma cancel_cid_eq {E} v c heap :
  entries_ok heap (items v) -> cid_ok c ->
  @ipfs_bitswap_message_cancel_cid _ E v c heap =
    Ok (match find_cid heap (items v) c with
        | Some p => (1, alter cancelled p heap)
        | None => (0, heap)
        end).
Proof.
  intros Hok Hc. unfold ipfs_bitswap_message_cancel_cid. rewrite vector_search_items.
  rewrite (list_search_find _ (fun p => bool_decide (cid_at heap p = Some (cid_value <$> c)))).
  - cbn [mbind cres_bind]. unfold find_cid. destruct (find _ _); reflexivity.
  - intros p Hp. unfold entries_ok in Hok. rewrite Forall_forall in Hok.
    destruct (Hok p Hp) as (e & He & Hec). rewrite He. unfold cid_at. rewrite He.
    destruct (compare_options _ _ Hec Hc) as (r & -> & Hr). rewrite Hr. f_equal.
    cbn. apply bool_decide_ext. split; [congruence |]. intros Hs. apply (inj Some) in Hs. exact Hs.
Qed.

Lemma find_cid_ext heap heap' ps c :
  (forall p, cid_at heap' p = cid_at heap p) -> find_cid heap' ps c = find_cid heap ps c.
Proof.
  intros Hat. unfold find_cid. induction ps as [| p ps IH]; [reflexivity |].
  cbn [find]. rewrite Hat, IH. reflexivity.
Qed.

(** Marking entries cancelled leaves their CIDs. *)
Lemma cancel_marks (heap heap' : entry_heap) (f : positive -> bool) :
  (forall p, heap' !! p = (if f p then cancelled else id) <$> heap !! p) ->
  (forall p, cid_at heap' p = cid_at heap p) /\
  forall ps, entries_ok heap ps -> entries_ok heap' ps.
Proof.
  intros Hh. split.
  - intros p. unfold cid_at. rewrite Hh. destruct (heap !! p), (f p); reflexivity.
  - intros ps. unfold entries_ok. rewrite !Forall_forall. intros Hok p Hp.
    destruct (Hok p Hp) as (e & He & Hc). rewrite Hh, He.
    destruct (f p); eexists; (split; [reflexivity | exact Hc]).
Qed.

Lemma cancel_step (heap : entry_heap) (o : option positive) :
  forall p, (match o with Some q => alter cancelled q heap | None => heap end) !! p =
    (if bool_decide (o = Some p) then cancelled else id) <$> heap !! p.
Proof.
  intros p. destruct o as [q |].
  - case_bool_decide as Hd.
    + injection Hd as ->. rewrite lookup_alter_eq. reflexivity.
    + rewrite lookup_alter_ne by congruence. destruct (heap !! p); reflexivity.
  - rewrite bool_decide_eq_false_2 by discriminate. destruct (heap !! p); reflexivity.
Qed.

Lemma cancel_of_ext heap heap' ps bs p :
  (forall p, cid_at heap' p = cid_at heap p) -> cancel_of heap' ps bs p = cancel_of heap ps bs p.
Proof.
  intros Hat. unfold cancel_of. induction bs as [| b bs IH]; [reflexivity |].
  cbn [existsb]. rewrite (find_cid_ext heap), IH by exact Hat. reflexivity.
Qed.

Lemma add_block_eq {E} cids b payload heap :
  entries_ok heap (items cids) -> cid_ok (bl_cid b) ->
  @add_block _ E cids b (payload, heap) =
    Ok (libp2p_utils_vector_add payload b,
        match find_cid heap (items cids) (bl_cid b) with
        | Some p => alter cancelled p heap
        | None => heap
        end).
Proof.
  intros Hok Hb. unfold add_block. rewrite cancel_cid_eq by assumption.
  destruct (find_cid _ _ _); reflexivity.
Qed.

Lemma add_blocks_loop {E} cids bs payload heap :
  entries_ok heap (items cids) -> Forall (fun b => cid_ok (bl_cid b)) bs ->
  exists payload' heap', @list_loop E _ _ (add_block cids) bs (payload, heap) = Ok (payload', heap') /\
    items payload' = items payload ++ bs /\
    forall p, heap' !! p = (if cancel_of heap (items cids) bs p then cancelled else id) <$> heap !! p.
Proof.
  intros Hok Hbs. revert payload heap Hok.
  induction Hbs as [| b bs Hb _ IH]; intros payload heap Hok.
  - exists payload, heap. split_and!; [reflexivity | rewrite app_nil_r; reflexivity |].
    intros p. cbn. destruct (heap !! p); reflexivity.
  - set (o := find_cid heap (items cids) (bl_cid b)).
    set (heap1 := match o with Some q => alter cancelled q heap | None => heap end).
    destruct (cancel_marks heap heap1 _ (cancel_step heap o)) as [Hat Hok1].
    destruct (IH (libp2p_utils_vector_add payload b) heap1 (Hok1 _ Hok))
      as (payload' & heap' & Hl & Hi & Hh).
    exists payload', heap'. split_and!.
    + cbn [list_loop]. rewrite add_block_eq by assumption. exact Hl.
    + rewrite Hi, items_add, <- app_assoc. reflexivity.
    + intros p. rewrite Hh. subst heap1. rewrite cancel_step. unfold cancel_of at 2. cbn [existsb].
      fold o. rewrite <- option_fmap_compose. f_equal.
      rewrite (cancel_of_ext heap _ _ _ _ Hat). fold (cancel_of heap (items cids) bs p).
      destruct (cancel_of heap (items cids) bs p), (bool_decide (o = Some p)); reflexivity.
Qed.
Lemma add_blocks_eq m blocks cids heap :
  items blocks <> [] -> entries_ok heap (items cids) ->
  Forall (fun b => cid_ok (bl_cid b)) (items blocks) ->
  exists m' blocks' heap',
    ipfs_bitswap_message_add_blocks (Some m) (Some blocks) cids heap = Ok (m', blocks', heap') /\
    message_payload m' = message_payload m ++ items blocks /\ items blocks' = [] /\
    bm_wantlist m' = bm_wantlist m /\ bm_blocks m' = bm_blocks m /\
    forall p, heap' !! p =
      (if cancel_of heap (items cids) (items blocks) p then cancelled else id) <$> heap !! p.
Proof.
  intros Hne Hok Hbs. unfold ipfs_bitswap_message_add_blocks.
  replace (vector_total blocks =? 0) with false.
  2: { symmetry. apply Z.eqb_neq. rewrite vector_total_items. intros Hz. apply Hne, len_zero, Hz. }
  rewrite vector_loop_items.
  edestruct (add_blocks_loop (E := unit) cids (items blocks)) as (v & heap' & -> & Hi & Hh);
    [eassumption.. |].
  eexists _, _, heap'. split; [reflexivity |].
  split_and!; [| apply delete_all | reflexivity | reflexivity | exact Hh].
  unfold message_payload. cbn [bm_payload opt_items]. rewrite Hi. f_equal.
  destruct (bm_payload m); [| cbn; rewrite items_new]; reflexivity.
Qed.
End FillFacts.

(** ** The properties of this file *)

Section Properties.
Context {PB : Protobuf} `{!ProtobufLaws PB} {VE : Libp2pVector} `{!Libp2pVectorLaws VE}.

(** C12: a message encodes into a buffer of [ipfs_bitswap_message_protobuf_encode_size]
    bytes, and decoding gives back the data of its blocks, its payload with the
    CIDs, and its want-list with blocks, priorities and cancellations, in order,
    whatever the memory the decoder allocates held before. *)
Theorem message_protobuf_roundtrip m junk :
  message_wf m ->
  exists n w o, ipfs_bitswap_message_protobuf_encode_size (E := unit) (Some m) = Ok n /\
    ipfs_bitswap_message_protobuf_encode (Some m) n = Ok w /\ len w <= n /\
    ipfs_bitswap_message_protobuf_decode w (len w) junk = Ok o /\
    message_value o = message_value (Some m).
Proof.
  intros Hm. pose proof (message_wire_bound m Hm).
  destruct (message_decode_wire m junk Hm) as (o & Hd & Hv).
  exists (message_room m), (message_wire m), o. split; [apply message_size, Hm |].
  split; [| auto]. apply message_encode_fields; [exact Hm | lia |]. destruct Hm. lia.
Qed.

(** Adding a queue of CIDs to a message asks, in order, for each entry the
    peer has not been told about (or withdraws it, if cancelled), marks these
    entries and no others as sent, keeps the rest of the message, and adds
    nothing when done again. *)
Theorem add_wantlist_items_spec m cids heap :
  NoDup (items cids) -> entries_ok heap (items cids) ->
  exists m' heap', ipfs_bitswap_message_add_wantlist_items m cids heap = Ok (m', heap') /\
    message_requests m' =
      message_requests m ++ map (fun e => Some (request_of e)) (pending_at heap (items cids)) /\
    bm_blocks m' = bm_blocks m /\ bm_payload m' = bm_payload m /\
    (forall p, heap' !! p = (if bool_decide (p ∈ items cids) then settle else id) <$> heap !! p) /\
    exists m'' heap'', ipfs_bitswap_message_add_wantlist_items m' cids heap' = Ok (m'', heap'') /\
      message_requests m'' = message_requests m'.
Proof.
  intros Hnd Hok. destruct (add_wantlist_items_eq m cids heap Hnd Hok)
    as (m' & heap' & He & Hr & Hb & Hp & Hh & _).
  exists m', heap'. split_and!; auto.
  destruct (add_wantlist_items_eq m' cids heap') as (m'' & heap'' & He' & Hr' & _).
  - exact Hnd.
  - unfold entries_ok in *. rewrite Forall_forall in *. intros p Hp'.
    destruct (Hok p Hp') as (e & Hpe & Hc). rewrite Hh, Hpe. eexists. split; [reflexivity |].
    case_bool_decide; [| exact Hc]. unfold settle. repeat case_match; exact Hc.
  - exists m'', heap''. split; [exact He' |].
    rewrite Hr', (pending_settled heap heap' (items cids) Hh) by reflexivity.
    rewrite app_nil_r. reflexivity.
Qed.

(** Adding blocks to a message moves all of them, in order, from the queue
    into its payload, and marks as cancelled, for each block, the first entry
    the peer wants with its CID, and no other entry. *)
Theorem add_blocks_spec m blocks cids heap :
  items blocks <> [] -> entries_ok heap (items cids) ->
  Forall (fun b => cid_ok (bl_cid b)) (items blocks) ->
  exists m' blocks' heap',
    ipfs_bitswap_message_add_blocks (Some m) (Some blocks) cids heap = Ok (m', blocks', heap') /\
    message_payload m' = message_payload m ++ items blocks /\ items blocks' = [] /\
    bm_wantlist m' = bm_wantlist m /\ bm_blocks m' = bm_blocks m /\
    forall p, heap' !! p =
      (if cancel_of heap (items cids) (items blocks) p then cancelled else id) <$> heap !! p.
Proof. apply add_blocks_eq. Qed.
End Properties.

(** The decoder of prefixed blocks does not move past a field's payload, so
    it reads payload bytes as keys: a block whose data are the bytes 10 and 0
    decodes, with success, to a block that lost its prefix, and one with the
    prefix of a SHA-256 CID of version 1 is refused. *)
Theorem bitswap_block_misread junk :
  let b := MkBitswapBlock (Some [x01]) 1 (Some [x0a; x00]) 2 in
  let c := MkBitswapBlock (Some [x01; x70; x12; x20]) 4 (Some (str "hello")) 5 in
  (exists w b', ipfs_bitswap_message_block_protobuf_encode (Some b)
      (ipfs_bitswap_message_block_protobuf_size b) = Ok w /\
    ipfs_bitswap_message_block_protobuf_decode w (len w) junk = Ok (Some b') /\
    bb_prefix b' = Some [] /\ bb_bytes b' = bb_bytes b) /\
  exists w, ipfs_bitswap_message_block_protobuf_encode (Some c)
      (ipfs_bitswap_message_block_protobuf_size c) = Ok w /\
    ipfs_bitswap_message_block_protobuf_decode w (len w) junk = Err ().
Proof.
  split; [eexists _, _ | eexists]; (split; [vm_compute; reflexivity |]);
    (split; [vm_compute; reflexivity |]) || (vm_compute; reflexivity).
  split; reflexivity.
Qed.

(** * Concrete runs *)

Definition sample_entry : WantlistEntry := MkWantlistEntry (Some (str "cid")) 3 1 0.
Definition sample_message : BitswapMessage :=
  MkBitswapMessage (Some (MkBitswapWantlist (Some [Some sample_entry]) 1))
    (Some [sample_block]) (Some [sample_block]).

Lemma sample_message_wf : message_wf sample_message.
Proof.
  constructor; [| | | reflexivity].
  - repeat constructor.
  - constructor; [exact sample_block_wf | constructor].
  - constructor; [discriminate | | split; [discriminate | reflexivity] | reflexivity].
    repeat constructor; vm_compute; discriminate.
Qed.

Lemma message_protobuf_roundtrip_witness :
  exists n w o, ipfs_bitswap_message_protobuf_encode_size (E := unit) (Some sample_message) = Ok n /\
    ipfs_bitswap_message_protobuf_encode (Some sample_message) n = Ok w /\
    ipfs_bitswap_message_protobuf_decode w (len w) sample_entry = Ok o /\
    message_value o = message_value (Some sample_message).
Proof.
  destruct (message_protobuf_roundtrip sample_message sample_entry sample_message_wf)
    as (n & w & o & Hn & He & _ & Hd & Hv).
  exists n, w, o. auto.
Defined.

Definition sample_heap : entry_heap :=
  {[ 1%positive := MkCidEntry (Some sample_cid) 0 0 0;
     2%positive := MkCidEntry None 1 1 1 ]}.
Definition sample_cids : @vector list_vector positive := [1%positive; 2%positive].
Definition sample_blocks : @vector list_vector Block := [sample_block].
Lemma sample_entries : entries_ok sample_heap (items sample_cids).
Proof. repeat constructor; eexists; (split; [reflexivity |]); [exact sample_cid_small | exact I]. Qed.

Lemma add_wantlist_items_spec_witness :
  exists m heap', ipfs_bitswap_message_add_wantlist_items ipfs_bitswap_message_new
      sample_cids sample_heap = Ok (m, heap') /\
    length (message_requests m) = 1%nat.
Proof.
  destruct (add_wantlist_items_spec ipfs_bitswap_message_new sample_cids sample_heap)
    as (m & heap' & He & Hr & _).
  - apply (bool_decide_unpack _). vm_compute. exact I.
  - exact sample_entries.
  - exists m, heap'. split; [exact He |]. rewrite Hr. reflexivity.
Defined.

Lemma add_blocks_spec_witness :
  exists m blocks heap', ipfs_bitswap_message_add_blocks (Some ipfs_bitswap_message_new)
      (Some sample_blocks) sample_cids sample_heap = Ok (m, blocks, heap') /\
    message_payload m = [sample_block] /\ items blocks = [] /\
    heap' !! 1%positive = Some (MkCidEntry (Some sample_cid) 1 0 0).
Proof.
  destruct (add_blocks_spec ipfs_bitswap_message_new sample_blocks sample_cids
    sample_heap) as (m & blocks & heap' & He & Hp & Hb & _ & _ & Hh).
  - discriminate.
  - exact sample_entries.
  - constructor; [exact sample_cid_small | constructor].
  - exists m, blocks, heap'. split_and!; [exact He | exact Hp | exact Hb |].
    rewrite Hh. vm_compute. reflexivity.
Defined.
