(* ===== verification/PeerQueue.v ===== *)
(** The queue of requests per peer of the bitswap exchange
    (src/exchange/bitswap/peer_request_queue.c and its header): a doubly linked
    list of entries in memory, with an entry per peer. *)

From S2P Require Import Prelude Vector Libc Protobuf Libs ProtobufRef LibsRef Cid Block BitswapMessage.

(** [prior], [current] and [next] are pointers, NULL or into the stores below. *)
Record PeerRequestEntry := MkPeerRequestEntry {
  pe_prior : option positive;
  pe_current : option positive;
  pe_next : option positive
}.

Definition ipfs_bitswap_peer_request_entry_new : PeerRequestEntry :=
  MkPeerRequestEntry None None None.
Definition ipfs_bitswap_peer_request_cid_entry_new : CidEntry := MkCidEntry None 0 0 0.

Definition set_next (n : option positive) (e : PeerRequestEntry) : PeerRequestEntry :=
  MkPeerRequestEntry (pe_prior e) (pe_current e) n.

Section Queue.
Context {VE : Libp2pVector}.

(** Peers belong to the peer library; [libp2p_peer_compare] is its comparison,
    [peer_connected] whether a peer's connection is up and [peek] what the peek
    at its stream returns. *)
Context {Peer : Type} (libp2p_peer_compare : option Peer -> option Peer -> Z).
Context (peer_connected : Peer -> bool) (peek : Peer -> Z).

Record PeerRequest := MkPeerRequest {
  pr_peer : option Peer;
  pr_cids_they_want : vector positive;
  pr_cids_we_want : vector positive;
  pr_blocks_we_want_to_send : vector Block
}.

(** The memory of the queue: entries, requests and the entries of the vectors
    of CIDs, by address, and the fields of [struct PeerRequestQueue]. *)
Record PeerRequestQueue := MkPeerRequestQueue {
  q_entries : gmap positive PeerRequestEntry;
  q_requests : gmap positive PeerRequest;
  q_cids : entry_heap;
  q_first : option positive;
  q_last : option positive
}.

Definition ipfs_bitswap_peer_request_new : PeerRequest :=
  MkPeerRequest None (libp2p_utils_vector_new _ 1) (libp2p_utils_vector_new _ 1)
    (libp2p_utils_vector_new _ 1).

(** A new queue, in memory that holds nothing of it. *)
Definition ipfs_bitswap_peer_request_queue_new : PeerRequestQueue :=
  MkPeerRequestQueue ∅ ∅ ∅ None None.

(** [entry->current] of an entry, a dereference that may fail. *)
Definition entry_request (q : PeerRequestQueue) (p : positive)
  : option (PeerRequestEntry * positive * PeerRequest) :=
  e ← q_entries q !! p; r ← pe_current e; req ← q_requests q !! r; Some (e, r, req).

(** [while (current != NULL) { if (compare(current->current->peer, peer) == 0)
    return current; current = current->next; }], at most [fuel] iterations. *)
Fixpoint queue_find (q : PeerRequestQueue) (peer : option Peer) (fuel : nat)
  (current : option positive) : cres unit (option positive) :=
  match current with
  | None => Ok None
  | Some p =>
      match fuel with
      | O => NoFuel
      | S fuel =>
          match entry_request q p with
          | None => Undef
          | Some (e, _, req) =>
              if libp2p_peer_compare (pr_peer req) peer =? 0 then Ok (Some p)
              else queue_find q peer fuel (pe_next e)
          end
      end
  end.

(** Enough iterations for a list without cycle. *)
Definition queue_fuel (q : PeerRequestQueue) : nat := S (size (q_entries q)).

Definition ipfs_bitswap_peer_request_queue_find_entry (q : PeerRequestQueue) (fuel : nat)
  (peer : option Peer) : cres unit (option positive) :=
  match peer with
  | None => Ok None
  | Some _ => queue_find q peer fuel (q_first q)
  end.

(** The new entry is chained to the last one, which is not chained to it. *)
Definition ipfs_bitswap_peer_request_queue_add (q : PeerRequestQueue) (request : option positive)
  : Z * PeerRequestQueue :=
  match request with
  | None => (0, q)
  | Some r =>
      let p := fresh (dom (q_entries q)) in
      let entry := MkPeerRequestEntry (q_last q) (Some r) None in
      (1, MkPeerRequestQueue (<[p := entry]> (q_entries q)) (q_requests q) (q_cids q)
            (Some (default p (q_first q))) (Some p))
  end.

Definition free_cid_entry {E} (p : positive) (heap : entry_heap) : cres E entry_heap :=
  match heap !! p with
  | None => Undef (* freed twice *)
  | Some _ => Ok (delete p heap)
  end.

(** What is left of the entries of CIDs; the vectors and blocks are freed too. *)
Definition ipfs_bitswap_peer_request_free {E} (req : PeerRequest) (heap : entry_heap)
  : cres E entry_heap :=
  heap ← vector_loop free_cid_entry (pr_cids_we_want req) heap;
  vector_loop free_cid_entry (pr_cids_they_want req) heap.

Definition ipfs_bitswap_peer_request_entry_free (p : positive) (q : PeerRequestQueue)
  : cres unit PeerRequestQueue :=
  match entry_request q p with
  | None => Undef
  | Some (_, r, req) =>
      heap ← ipfs_bitswap_peer_request_free req (q_cids q);
      Ok (MkPeerRequestQueue (delete p (q_entries q)) (delete r (q_requests q)) heap
            (q_first q) (q_last q))
  end.

(** [entry->prior->next = entry->next]; neither the next entry nor the queue is
    told. *)
Definition ipfs_bitswap_peer_request_queue_remove (q : PeerRequestQueue) (fuel : nat)
  (request : option positive) : cres unit (Z * PeerRequestQueue) :=
  match request with
  | None => Ok (0, q)
  | Some r =>
      match q_requests q !! r with
      | None => Undef
      | Some req =>
          found ← ipfs_bitswap_peer_request_queue_find_entry q fuel (pr_peer req);
          match found with
          | None => Ok (0, q)
          | Some p =>
              match q_entries q !! p ≫= pe_prior, q_entries q !! p with
              | Some prior, Some entry =>
                  match q_entries q !! prior with
                  | None => Undef
                  | Some _ =>
                      let entries := alter (set_next (pe_next entry)) prior (q_entries q) in
                      let q := MkPeerRequestQueue entries (q_requests q) (q_cids q) (q_first q)
                                 (q_last q) in
                      q ← ipfs_bitswap_peer_request_entry_free p q;
                      Ok (1, q)
                  end
              | _, _ => Undef
              end
          end
      end
  end.

(** The request of a peer, made if there is none. *)
Definition ipfs_peer_request_queue_find_peer (q : PeerRequestQueue) (fuel : nat)
  (peer : option Peer) : cres unit (positive * PeerRequestQueue) :=
  found ← queue_find q peer fuel (q_first q);
  match found with
  | Some p =>
      match entry_request q p with
      | Some (_, r, _) => Ok (r, q)
      | None => Undef
      end
  | None =>
      let p := fresh (dom (q_entries q)) in
      let r := fresh (dom (q_requests q)) in
      let req := MkPeerRequest peer (pr_cids_they_want ipfs_bitswap_peer_request_new)
                   (pr_cids_we_want ipfs_bitswap_peer_request_new)
                   (pr_blocks_we_want_to_send ipfs_bitswap_peer_request_new) in
      let requests := <[r := req]> (q_requests q) in
      match q_first q with
      | None =>
          let entry := MkPeerRequestEntry None (Some r) None in
          Ok (r, MkPeerRequestQueue (<[p := entry]> (q_entries q)) requests (q_cids q)
                   (Some p) (Some p))
      | Some _ =>
          match q_last q with
          | None => Undef
          | Some last =>
              match q_entries q !! last with
              | None => Undef
              | Some _ =>
                  let entry := MkPeerRequestEntry (Some last) (Some r) None in
                  Ok (r, MkPeerRequestQueue
                           (<[p := entry]> (alter (set_next (Some p)) last (q_entries q)))
                           requests (q_cids q) (q_first q) (Some p))
              end
          end
      end
  end.

(** *** What there is to do *)

Definition ipfs_bitswap_peer_request_cids_waiting {E} (cids : option (vector positive))
  (heap : entry_heap) : cres E bool :=
  match cids with
  | None => Ok false
  | Some cids =>
      found ← vector_search (fun p =>
        match heap !! p with
        | None => Undef
        | Some e => Ok (ce_cancel e =? 0)
        end) cids;
      Ok (bool_decide (is_Some found))
  end.

Definition ipfs_bitswap_peer_request_we_want_cids {E} (cids : option (vector positive))
  (heap : entry_heap) : cres E bool :=
  match cids with
  | None => Ok false
  | Some cids =>
      if vector_total cids =? 0 then Ok false
      else
        found ← vector_search (fun p =>
          match heap !! p with
          | None => Undef
          | Some e => Ok ((negb (ce_cancel e =? 0) && (ce_cancel_has_been_sent e =? 0)) ||
                          ((ce_cancel e =? 0) && (ce_request_has_been_sent e =? 0)))
          end) cids;
        Ok (bool_decide (is_Some found))
  end.

Definition ipfs_bitswap_peer_request_something_to_do (q : PeerRequestQueue)
  (entry : option positive) : cres unit Z :=
  match entry with
  | None => Ok 0
  | Some p =>
      match entry_request q p with
      | None => Undef
      | Some (_, _, request) =>
          if 0 <? vector_total (pr_blocks_we_want_to_send request) then Ok 1
          else if 0 <? vector_total (pr_cids_we_want request) then Ok 1
          else
            waiting ← ipfs_bitswap_peer_request_cids_waiting
                        (Some (pr_cids_they_want request)) (q_cids q);
            if (waiting : bool) then Ok 1
            else
              match pr_peer request with
              | None => Undef
              | Some peer =>
                  if peer_connected peer then
                    let retVal := peek peer in
                    if retVal <? 0 then Ok 0 else Ok retVal
                  else Ok 0
              end
      end
  end.

(** The request handled next. Its entry moves to the end, still chained to the
    one that followed it. *)
Definition ipfs_bitswap_peer_request_queue_pop (q : PeerRequestQueue)
  : cres unit (option positive * PeerRequestQueue) :=
  match q_first q with
  | None => Ok (None, q)
  | Some p =>
      todo ← ipfs_bitswap_peer_request_something_to_do q (Some p);
      if todo =? 0 then Ok (None, q)
      else
        match q_entries q !! p with
        | None => Undef
        | Some entry =>
            match pe_next entry with
            | None => Ok (pe_current entry, q)
            | Some second =>
                match q_last q with
                | None => Undef
                | Some last =>
                    match q_entries q !! last with
                    | None => Undef
                    | Some _ =>
                        Ok (pe_current entry,
                            MkPeerRequestQueue (alter (set_next (Some p)) last (q_entries q))
                              (q_requests q) (q_cids q) (Some second) (Some p))
                    end
                end
            end
        end
  end.

(** The block is added to the request of the peer; the verdict is always 0. *)
Definition ipfs_bitswap_peer_request_queue_fill (q : PeerRequestQueue) (fuel : nat)
  (who : option Peer) (block : Block) : cres unit (Z * PeerRequestQueue) :=
  '(r, q) ← ipfs_peer_request_queue_find_peer q fuel who;
  Ok (0, MkPeerRequestQueue (q_entries q)
           (alter (fun req => MkPeerRequest (pr_peer req) (pr_cids_they_want req)
              (pr_cids_we_want req)
              (libp2p_utils_vector_add (pr_blocks_we_want_to_send req) block)) r (q_requests q))
           (q_cids q) (q_first q) (q_last q)).
End Queue.

(** * Properties *)

Section QueueFacts.
Context {VE : Libp2pVector} `{!Libp2pVectorLaws VE}.
Context {Peer : Type} (libp2p_peer_compare : option Peer -> option Peer -> Z).

Abbreviation queue_find := (queue_find libp2p_peer_compare).
Implicit Types q : PeerRequestQueue (Peer := Peer).

(** [l] are the entries met from [cur] on, each with a request; [nxt] is where
    the last one leads. *)
Fixpoint path q (cur : option positive) (l : list positive) (nxt : option positive) : Prop :=
  match l with
  | [] => cur = nxt
  | p :: l =>
      cur = Some p /\
      exists e r req, entry_request q p = Some (e, r, req) /\ path q (pe_next e) l nxt
  end.

(** The peer of an entry. *)
Definition peer_at q (p : positive) : option (option Peer) :=
  (fun x => pr_peer x.2) <$> entry_request q p.
Definition is_for q (peer : option Peer) (p : positive) : bool :=
  match peer_at q p with Some pr => libp2p_peer_compare pr peer =? 0 | None => false end.

Lemma queue_find_path q peer l cur nxt fuel :
  path q cur l nxt -> (length l <= fuel)%nat ->
  queue_find q peer fuel cur =
    match find (is_for q peer) l with
    | Some p => Ok (Some p)
    | None => queue_find q peer (fuel - length l) nxt
    end.
Proof.
  revert cur fuel. induction l as [| p l IH]; intros cur fuel Hp Hf; cbn [path] in Hp.
  - subst cur. cbn. rewrite Nat.sub_0_r. reflexivity.
  - destruct Hp as [-> (e & r & req & He & Hp)]. cbn in Hf. destruct fuel as [| fuel]; [lia |].
    cbn [PeerQueue.queue_find find]. rewrite He. unfold is_for at 1, peer_at. rewrite He. cbn.
    destruct (libp2p_peer_compare (pr_peer req) peer =? 0); [reflexivity |].
    rewrite (IH _ fuel Hp) by lia. reflexivity.
Qed.

(** On a path without the peer, fewer iterations than entries do not suffice. *)
Lemma queue_find_short q peer l cur nxt fuel :
  path q cur l nxt -> (fuel < length l)%nat -> find (is_for q peer) l = None ->
  queue_find q peer fuel cur = NoFuel.
Proof.
  revert cur fuel. induction l as [| p l IH]; intros cur fuel Hp Hf Hn; cbn in Hf; [lia |].
  destruct Hp as [-> (e & r & req & He & Hp)]. cbn [find] in Hn.
  destruct fuel as [| fuel]; [reflexivity |]. cbn [PeerQueue.queue_find]. rewrite He.
  unfold is_for at 1, peer_at in Hn. rewrite He in Hn. cbn in Hn.
  destruct (libp2p_peer_compare (pr_peer req) peer =? 0); [discriminate |].
  apply (IH _ fuel Hp); [lia | exact Hn].
Qed.

(** On a cycle without the peer, no number of iterations suffices. *)
Lemma queue_find_cycle q peer l cur fuel :
  path q cur l cur -> l <> [] -> find (is_for q peer) l = None ->
  queue_find q peer fuel cur = NoFuel.
Proof.
  intros Hp Hl Hn. induction fuel as [fuel IH] using lt_wf_ind.
  destruct (decide (fuel < length l)%nat) as [Hf | Hf]; [eapply queue_find_short; eassumption |].
  rewrite (queue_find_path q peer l cur cur fuel Hp ltac:(lia)), Hn. apply IH.
  destruct l; [contradiction |]. cbn in *. lia.
Qed.

Lemma path_app q cur l mid l' nxt :
  path q cur l mid -> path q mid l' nxt -> path q cur (l ++ l') nxt.
Proof.
  revert cur. induction l as [| p l IH]; intros cur Hl Hl'; cbn in *.
  - subst. exact Hl'.
  - destruct Hl as [-> (e & r & req & He & Hp)]. eauto 10.
Qed.

(** The stores may change where the path does not go. *)
Lemma path_frame q q' cur l nxt :
  (forall p, p ∈ l -> entry_request q' p = entry_request q p) ->
  path q cur l nxt -> path q' cur l nxt.
Proof.
  revert cur. induction l as [| p l IH]; intros cur Hs Hp; cbn in *; [exact Hp |].
  destruct Hp as [-> (e & r & req & He & Hp)]. split; [reflexivity |].
  exists e, r, req. rewrite Hs by left. split; [exact He |].
  apply IH; [| exact Hp]. intros. apply Hs. right. assumption.
Qed.

Lemma path_elem q cur l nxt p :
  path q cur l nxt -> p ∈ l -> exists e r req, entry_request q p = Some (e, r, req).
Proof.
  revert cur. induction l as [| p' l IH]; intros cur Hp Hin; [inversion Hin |].
  destruct Hp as [_ (e & r & req & He & Hp)]. apply elem_of_cons in Hin as [-> | Hin]; eauto.
Qed.

Lemma entry_request_inv q p e r req :
  entry_request q p = Some (e, r, req) ->
  q_entries q !! p = Some e /\ pe_current e = Some r /\ q_requests q !! r = Some req.
Proof.
  unfold entry_request. destruct (q_entries q !! p) as [e' |] eqn:E; [| discriminate]. cbn.
  destruct (pe_current e') as [r' |] eqn:Er; [| discriminate]. cbn.
  destruct (q_requests q !! r') as [req' |] eqn:Eq; [| discriminate]. cbn.
  intros [= -> -> ->]. auto.
Qed.
(** A well-formed queue: the list from the first entry to the last, chained both
    ways, no two of them for the same request. *)
Record queue_list q (l : list positive) : Prop := {
  ql_nodup : NoDup l;
  ql_path : path q (q_first q) l None;
  ql_last : q_last q = last l;
  ql_prior p : p ∈ l -> exists e, q_entries q !! p = Some e;
  ql_links i p : l !! i = Some p ->
    q_entries q !! p ≫= pe_prior = match i with O => None | S j => l !! j end;
  ql_current p p' r : p ∈ l -> p' ∈ l ->
    q_entries q !! p ≫= pe_current = Some r -> q_entries q !! p' ≫= pe_current = Some r -> p = p'
}.

Lemma queue_list_new : queue_list ipfs_bitswap_peer_request_queue_new [].
Proof.
  constructor; try reflexivity; try apply NoDup_nil_2; intros p; intros;
    repeat match goal with H : _ ∈ [] |- _ => inversion H end; discriminate.
Qed.

Lemma queue_list_first q l : queue_list q l -> q_first q = head l.
Proof. intros [_ Hp _ _ _ _]. destruct l; cbn in Hp; [exact Hp | apply Hp]. Qed.

Lemma path_size q cur l nxt : path q cur l nxt -> NoDup l -> (length l < queue_fuel q)%nat.
Proof.
  intros Hp Hn. unfold queue_fuel.
  rewrite <- size_dom, <- (size_list_to_set (C := gset positive) l Hn).
  apply le_n_S, subseteq_size. intros p Hin. apply elem_of_list_to_set in Hin.
  destruct (path_elem _ _ _ _ _ Hp Hin) as (e & r & req & He).
  apply entry_request_inv in He as [He _]. apply elem_of_dom. eauto.
Qed.

Lemma queue_find_end q l cur peer :
  path q cur l None -> NoDup l ->
  queue_find q peer (queue_fuel q) cur = Ok (find (is_for q peer) l).
Proof.
  intros Hp Hn. pose proof (path_size q cur l None Hp Hn).
  rewrite (queue_find_path q peer l _ None) by (assumption || lia).
  destruct (find _ l); [reflexivity |]. destruct (queue_fuel q - length l)%nat eqn:E; [lia |].
  reflexivity.
Qed.

Lemma queue_find_list q l peer :
  queue_list q l ->
  queue_find q peer (queue_fuel q) (q_first q) = Ok (find (is_for q peer) l).
Proof. intros [Hn Hp _ _ _ _]. apply queue_find_end; assumption. Qed.

Lemma find_is_for q peer l p : find (is_for q peer) l = Some p -> p ∈ l /\ is_for q peer p = true.
Proof. intros H. apply find_some in H as [Hin Hf]. split; [apply list_elem_of_In, Hin | exact Hf]. Qed.

Lemma is_for_request q peer p :
  is_for q peer p = true -> exists e r req, entry_request q p = Some (e, r, req).
Proof.
  unfold is_for, peer_at. destruct (entry_request q p) as [[[e r] req] |]; [eauto | discriminate].
Qed.

Lemma path_app_inv q cur l l' nxt :
  path q cur (l ++ l') nxt -> exists mid, path q cur l mid /\ path q mid l' nxt.
Proof.
  revert cur. induction l as [| p l IH]; intros cur Hp; cbn in *; [eauto |].
  destruct Hp as [-> (e & r & req & He & Hp)]. destruct (IH _ Hp) as (mid & H1 & H2). eauto 10.
Qed.

Lemma entry_request_intro q p e r req :
  q_entries q !! p = Some e -> pe_current e = Some r -> q_requests q !! r = Some req ->
  entry_request q p = Some (e, r, req).
Proof. unfold entry_request. intros -> Hr Hq. cbn. rewrite Hr. cbn. rewrite Hq. reflexivity. Qed.

(** The same entry and a store with at least its request. *)
Lemma entry_request_frame q q' p :
  q_entries q' !! p = q_entries q !! p ->
  (forall r req, q_requests q !! r = Some req -> q_requests q' !! r = Some req) ->
  is_Some (entry_request q p) -> entry_request q' p = entry_request q p.
Proof.
  intros He Hr [[[e r] req] Hp]. rewrite Hp. apply entry_request_inv in Hp as (Hp & Hc & Hq).
  apply entry_request_intro; [congruence | exact Hc | auto].
Qed.

Lemma fresh_lookup {A} (m : gmap positive A) : m !! fresh (dom m) = None.
Proof. apply not_elem_of_dom, is_fresh. Qed.

(** Leading the last entry elsewhere. *)
Lemma path_relink q q' cur l z nxt :
  path q cur (l ++ [z]) None ->
  (forall p, p ∈ l -> q_entries q' !! p = q_entries q !! p) ->
  q_entries q' !! z = set_next nxt <$> q_entries q !! z ->
  (forall r req, q_requests q !! r = Some req -> q_requests q' !! r = Some req) ->
  path q' cur (l ++ [z]) nxt.
Proof.
  intros Hp Hl Hz Hr. apply path_app_inv in Hp as (mid & H1 & H2).
  apply (path_app _ _ _ mid).
  - eapply path_frame; [| exact H1]. intros p Hin.
    destruct (path_elem _ _ _ _ _ H1 Hin) as (? & ? & ? & He).
    apply entry_request_frame; [apply Hl, Hin | exact Hr | rewrite He; eauto].
  - destruct H2 as [-> (e & r & req & He & _)]. split; [reflexivity |].
    apply entry_request_inv in He as (He & Hc & Hq).
    exists (set_next nxt e), r, req. split; [| reflexivity].
    apply entry_request_intro; [rewrite Hz, He; reflexivity | exact Hc | apply Hr, Hq].
Qed.

Lemma queue_list_last_entry q l z :
  queue_list q (l ++ [z]) -> q_last q = Some z /\ exists e, q_entries q !! z = Some e.
Proof.
  intros [_ _ Hl Hp _ _]. rewrite Hl, last_snoc. split; [reflexivity |].
  apply Hp. apply elem_of_app. right. left.
Qed.

Lemma links_snoc {A} (l : list A) z n i p :
  (l ++ [z; n]) !! i = Some p ->
  (i <= length l)%nat /\ (l ++ [z]) !! i = Some p \/ i = S (length l) /\ p = n.
Proof.
  intros Hi. destruct (decide (i <= length l)%nat) as [Hle | Hgt].
  - left. split; [exact Hle |]. replace (l ++ [z; n]) with ((l ++ [z]) ++ [n]) in Hi
      by (rewrite <- app_assoc; reflexivity).
    rewrite lookup_app_l in Hi by (rewrite length_app; cbn; lia). exact Hi.
  - right. assert (i = S (length l)) as ->.
    { apply lookup_lt_Some in Hi. rewrite length_app in Hi. cbn in Hi. lia. }
    rewrite lookup_app_r in Hi by lia. replace (S (length l) - length l)%nat with 1%nat in Hi by lia.
    cbn in Hi. split; congruence.
Qed.

Lemma queue_list_snoc q q' l z n en rn reqn :
  queue_list q (l ++ [z]) -> n ∉ l ++ [z] ->
  q_first q' = q_first q -> q_last q' = Some n ->
  (forall p, p ∈ l -> q_entries q' !! p = q_entries q !! p) ->
  q_entries q' !! z = set_next (Some n) <$> q_entries q !! z ->
  (forall r req, q_requests q !! r = Some req -> q_requests q' !! r = Some req) ->
  entry_request q' n = Some (en, rn, reqn) -> pe_next en = None -> pe_prior en = Some z ->
  q_requests q !! rn = None -> queue_list q' (l ++ [z; n]).
Proof.
  intros Hq Hn Hf Hlast Hl Hz Hr Hen Hnext Hprior Hrn.
  replace (l ++ [z; n]) with ((l ++ [z]) ++ [n]) by (rewrite <- app_assoc; reflexivity).
  pose proof (entry_request_inv _ _ _ _ _ Hen) as (Hne & _ & _).
  assert (Hprior_of : forall p, p ∈ l ++ [z] ->
    q_entries q' !! p ≫= pe_prior = q_entries q !! p ≫= pe_prior).
  { intros p [Hin | Hin]%elem_of_app; [rewrite Hl by assumption; reflexivity |].
    apply list_elem_of_singleton in Hin as ->. rewrite Hz. destruct (q_entries q !! z); reflexivity. }
  destruct Hq as [Hnd Hp _ Hex Hlk Hcu]. constructor.
  - apply NoDup_app. split; [exact Hnd |]. split; [| apply NoDup_singleton].
    intros x Hx Hx'. apply list_elem_of_singleton in Hx' as ->. contradiction.
  - rewrite Hf. apply (path_app _ _ _ (Some n)); [eapply path_relink; eassumption |].
    split; [reflexivity |]. exists en, rn, reqn. split; [exact Hen | exact Hnext].
  - rewrite Hlast, last_snoc. reflexivity.
  - intros p [Hin | Hin]%elem_of_app.
    + destruct (Hex p Hin) as [e He]. apply elem_of_app in Hin as [Hin | Hin].
      * exists e. rewrite Hl; assumption.
      * apply list_elem_of_singleton in Hin as ->. rewrite Hz, He. cbn. eauto.
    + apply list_elem_of_singleton in Hin as ->. eauto.
  - intros i p Hi. rewrite <- app_assoc in Hi |- *. cbn [app] in *.
    destruct (links_snoc l z n i p Hi) as [[Hle Hi'] | [-> ->]].
    + rewrite Hprior_of by (eapply list_elem_of_lookup_2; exact Hi'). rewrite (Hlk i p Hi').
      destruct i as [| j]; [reflexivity |].
      rewrite !lookup_app_l by lia. reflexivity.
    + rewrite Hne. cbn. rewrite Hprior. rewrite lookup_app_r, Nat.sub_diag by lia. reflexivity.
  - assert (Hcur_of : forall p r, p ∈ l ++ [z] -> q_entries q' !! p ≫= pe_current = Some r ->
      q_entries q !! p ≫= pe_current = Some r /\ r <> rn).
    { intros p r Hin Hcur. assert (q_entries q !! p ≫= pe_current = Some r) as Hcur'.
      { apply elem_of_app in Hin as [Hin | Hin]; [rewrite <- Hl by assumption; exact Hcur |].
        apply list_elem_of_singleton in Hin as ->. rewrite Hz in Hcur.
        destruct (q_entries q !! z); exact Hcur. }
      split; [exact Hcur' |]. intros ->.
      destruct (path_elem _ _ _ _ _ Hp Hin) as (e' & r' & req' & He').
      apply entry_request_inv in He' as (He' & Hc' & Hq'). rewrite He' in Hcur'. cbn in Hcur'.
      congruence. }
    pose proof (entry_request_inv _ _ _ _ _ Hen) as (_ & Hcn & _).
    assert (Hnew : forall p r, p ∈ (l ++ [z]) ++ [n] -> q_entries q' !! p ≫= pe_current = Some r ->
      p ∈ l ++ [z] \/ (p = n /\ r = rn)).
    { intros p r [Hin | Hin]%elem_of_app Hcur; [left; exact Hin | right].
      apply list_elem_of_singleton in Hin as ->. rewrite Hne in Hcur. cbn in Hcur.
      split; congruence. }
    intros p p' r Hin Hin' Hcur Hcur'.
    destruct (Hnew p r Hin Hcur) as [Hi | [E1 E2]], (Hnew p' r Hin' Hcur') as [Hi' | [E3 E4]].
    + apply (Hcu p p' r); [exact Hi | exact Hi' | apply Hcur_of; assumption ..].
    + destruct (Hcur_of p r Hi Hcur). contradiction.
    + destruct (Hcur_of p' r Hi' Hcur'). contradiction.
    + congruence.
Qed.
End QueueFacts.

(** ** Operations on a well-formed queue *)

Section OperationFacts.
Context {VE : Libp2pVector} `{!Libp2pVectorLaws VE}.
Context {Peer : Type} (libp2p_peer_compare : option Peer -> option Peer -> Z).
Context (peer_connected : Peer -> bool) (peek : Peer -> Z).

Abbreviation is_for := (is_for libp2p_peer_compare).
Abbreviation find_peer := (ipfs_peer_request_queue_find_peer libp2p_peer_compare).
Implicit Types q : PeerRequestQueue (Peer := Peer).

Definition new_request (peer : option Peer) : PeerRequest :=
  let new := ipfs_bitswap_peer_request_new (Peer := Peer) in
  MkPeerRequest peer (pr_cids_they_want new) (pr_cids_we_want new)
    (pr_blocks_we_want_to_send new).

Lemma exists_last_or_nil {A} (l : list A) : l = [] \/ exists l0 z, l = l0 ++ [z].
Proof.
  destruct l as [| a l]; [left; reflexivity | right].
  destruct (exists_last (l := a :: l)) as (l0 & z & ->); [discriminate | eauto].
Qed.

Lemma find_peer_known q l peer p e r req :
  queue_list q l -> find (is_for q peer) l = Some p -> entry_request q p = Some (e, r, req) ->
  find_peer q (queue_fuel q) peer = Ok (r, q).
Proof.
  intros Hq Hf He. unfold ipfs_peer_request_queue_find_peer.
  rewrite (queue_find_list _ q l) by assumption. rewrite Hf. cbn [mbind cres_bind].
  rewrite He. reflexivity.
Qed.

Lemma alter_lookup (m : gmap positive PeerRequestEntry) n z e :
  m !! n = None -> n <> z ->
  <[n := e]> (alter (set_next (Some n)) z m) !! z = set_next (Some n) <$> m !! z /\
  <[n := e]> (alter (set_next (Some n)) z m) !! n = Some e /\
  forall p, p <> n -> p <> z -> <[n := e]> (alter (set_next (Some n)) z m) !! p = m !! p.
Proof.
  intros Hn Hz. split; [rewrite lookup_insert_ne, lookup_alter_eq by congruence; reflexivity |].
  split; [apply lookup_insert_eq |].
  intros p Hp Hpz. rewrite lookup_insert_ne, lookup_alter_ne by congruence. reflexivity.
Qed.

Lemma insert_request q r req r' req' :
  q_requests q !! r = None -> q_requests q !! r' = Some req' ->
  <[r := req]> (q_requests q) !! r' = Some req'.
Proof. intros Hr Hr'. rewrite lookup_insert_ne; [exact Hr' | congruence]. Qed.

(** Whose an entry is depends on its request alone. *)
Lemma is_for_frame q q' peer x :
  is_Some (entry_request q x) ->
  (forall e, q_entries q !! x = Some e ->
    exists e', q_entries q' !! x = Some e' /\ pe_current e' = pe_current e) ->
  (forall r req, q_requests q !! r = Some req -> q_requests q' !! r = Some req) ->
  is_for q' peer x = is_for q peer x.
Proof.
  intros [[[e r] req] He] Hent Hreq. unfold PeerQueue.is_for, peer_at. rewrite He.
  apply entry_request_inv in He as (He & Hc & Hr). destruct (Hent e He) as (e' & He' & Hc').
  rewrite (entry_request_intro q' x e' r req); [reflexivity | exact He' | congruence | auto].
Qed.

Lemma queue_list_one q p e r req :
  entry_request q p = Some (e, r, req) -> pe_next e = None -> pe_prior e = None ->
  q_first q = Some p -> q_last q = Some p -> queue_list q [p].
Proof.
  intros He Hn Hpr Hf Hl. pose proof (entry_request_inv _ _ _ _ _ He) as (Hpe & _ & _).
  constructor.
  - apply NoDup_singleton.
  - split; [exact Hf |]. exists e, r, req. split; [exact He | exact Hn].
  - exact Hl.
  - intros p' Hp'. apply list_elem_of_singleton in Hp' as ->. eauto.
  - intros [| i] p' Hi; [| destruct i; discriminate]. injection Hi as <-.
    rewrite Hpe. exact Hpr.
  - intros p1 p2 r0 H1 H2 _ _. apply list_elem_of_singleton in H1, H2. congruence.
Qed.

Lemma find_peer_new q l peer :
  queue_list q l -> find (is_for q peer) l = None ->
  exists p r q', find_peer q (queue_fuel q) peer = Ok (r, q') /\ (p ∉ l) /\
    queue_list q' (l ++ [p]) /\ q_requests q !! r = None /\
    q_requests q' = <[r := new_request peer]> (q_requests q) /\
    (exists e, entry_request q' p = Some (e, r, new_request peer)) /\
    forall peer' x, x ∈ l -> is_for q' peer' x = is_for q peer' x.
Proof.
  intros Hq Hn. unfold ipfs_peer_request_queue_find_peer.
  rewrite (queue_find_list _ q l), Hn by assumption. cbn [mbind cres_bind].
  pose proof (fresh_lookup (q_entries q)) as Hp. pose proof (fresh_lookup (q_requests q)) as Hr.
  set (p := fresh (dom (q_entries q))) in *. set (r := fresh (dom (q_requests q))) in *.
  fold (new_request peer). rewrite (queue_list_first q l Hq).
  assert (p ∉ l) as Hpl. { intros Hin. apply (ql_prior q l Hq) in Hin as [e He]. congruence. }
  destruct (exists_last_or_nil l) as [-> | (l0 & z & ->)].
  - cbn [head]. eexists p, r, _. split; [reflexivity |]. split; [exact Hpl |].
    assert (He : entry_request (MkPeerRequestQueue (<[p:=MkPeerRequestEntry None (Some r) None]>
      (q_entries q)) (<[r:=new_request peer]> (q_requests q)) (q_cids q) (Some p) (Some p)) p =
      Some (MkPeerRequestEntry None (Some r) None, r, new_request peer))
      by (apply entry_request_intro; [apply lookup_insert_eq | reflexivity | apply lookup_insert_eq]).
    split; [| split; [exact Hr | split; [reflexivity | split; [eauto |]]]].
    2: { intros peer' x Hx. inversion Hx. }
    eapply queue_list_one; try exact He; reflexivity.
  - destruct (queue_list_last_entry q l0 z Hq) as (Hlast & ez & Hez).
    assert (p <> z) as Hpz by (intros ->; congruence).
    destruct (alter_lookup (q_entries q) p z (MkPeerRequestEntry (Some z) (Some r) None) Hp Hpz)
      as (Hz' & Hp' & Hoth).
    replace (head (l0 ++ [z])) with (Some (default z (head l0))) by (destruct l0; reflexivity).
    rewrite Hlast, Hez. eexists p, r, _. split; [reflexivity |]. split; [exact Hpl |].
    assert (He : entry_request (MkPeerRequestQueue (<[p:=MkPeerRequestEntry (Some z) (Some r) None]>
      (alter (set_next (Some p)) z (q_entries q))) (<[r:=new_request peer]> (q_requests q))
      (q_cids q) (Some (default z (head l0))) (Some p)) p =
      Some (MkPeerRequestEntry (Some z) (Some r) None, r, new_request peer))
      by (apply entry_request_intro; [exact Hp' | reflexivity | apply lookup_insert_eq]).
    split; [| split; [exact Hr | split; [reflexivity | split; [eauto |]]]].
    2: { intros peer' x Hx. destruct (path_elem _ _ _ _ _ (ql_path _ _ Hq) Hx) as (e1 & r1 & req1 & H1).
         apply is_for_frame; [rewrite H1; eauto | | intros r' req'; apply insert_request, Hr].
         intros e0 He0. cbn. destruct (decide (x = z)) as [-> | Hxz].
         - rewrite Hz', He0. eexists. split; reflexivity.
         - exists e0. rewrite Hoth; [auto | | exact Hxz]. intros ->. congruence. }
    rewrite <- app_assoc. eapply (queue_list_snoc q); try exact He; try exact Hq; try reflexivity.
    + exact Hpl.
    + cbn. rewrite (queue_list_first q _ Hq). destruct l0; reflexivity.
    + intros p' Hin. apply Hoth; [intros ->; apply Hpl, elem_of_app; left; exact Hin |].
      intros ->. destruct Hq as [Hnd _ _ _ _ _]. apply NoDup_app in Hnd as (_ & Hd & _).
      apply (Hd z Hin). left.
    + exact Hz'.
    + intros r' req'. apply insert_request, Hr.
    + exact Hr.
Qed.

Abbreviation queue_find := (queue_find libp2p_peer_compare).
Abbreviation pop := (ipfs_bitswap_peer_request_queue_pop peer_connected peek).
Abbreviation something_to_do := (ipfs_bitswap_peer_request_something_to_do peer_connected peek).

(** Changing where entries lead does not change whose they are. *)
Lemma is_for_relink q q' f z peer p :
  q_entries q' = alter (set_next f) z (q_entries q) -> q_requests q' = q_requests q ->
  is_for q' peer p = is_for q peer p.
Proof.
  intros He Hr. unfold PeerQueue.is_for, peer_at, entry_request. rewrite He, Hr.
  destruct (decide (p = z)) as [-> | Hne]; [rewrite lookup_alter_eq | rewrite lookup_alter_ne by congruence];
    destruct (q_entries q !! _) as [e |]; [cbn | reflexivity | reflexivity | reflexivity].
  destruct (pe_current e) as [r |]; [cbn | reflexivity].
  destruct (q_requests q !! r); reflexivity.
Qed.

Lemma find_ext {A} (f g : A -> bool) l : (forall a, f a = g a) -> find f l = find g l.
Proof. intros Hfg. induction l as [| a l IH]; [reflexivity |]. cbn. rewrite Hfg, IH. reflexivity. Qed.

(** The queue after its first entry moved to the end: a cycle. *)
Lemma pop_cycle q p p2 l todo :
  queue_list q (p :: p2 :: l) -> something_to_do q (Some p) = Ok todo -> todo <> 0 ->
  exists e r req q', entry_request q p = Some (e, r, req) /\ pop q = Ok (Some r, q') /\
    path q' (q_first q') ((p2 :: l) ++ [p]) (q_first q') /\
    queue_fuel q' = queue_fuel q /\ forall peer p', is_for q' peer p' = is_for q peer p'.
Proof.
  intros Hq Htodo Hnz. pose proof Hq as [Hnd Hp Hlast Hex _ _].
  destruct Hp as [Hfirst (e & r & req & He & Hp)]. pose proof Hp as [Hnext _].
  pose proof (entry_request_inv _ _ _ _ _ He) as (Hpe & Hcur & Hreq).
  destruct (exists_last_or_nil (p2 :: l)) as [Hnil | (l0 & z & Hz)]; [discriminate |].
  assert (q_last q = Some z) as Hql.
  { rewrite Hlast, Hz. change (p :: l0 ++ [z]) with ((p :: l0) ++ [z]). apply last_snoc. }
  destruct (Hex z) as [ez Hez]. { rewrite Hz. apply elem_of_cons. right. apply elem_of_app. right. left. }
  rewrite Hz in Hnd. apply NoDup_cons in Hnd as [Hpl Hnd].
  assert (p <> z) as Hpz. { intros ->. apply Hpl, elem_of_app. right. left. }
  exists e, r, req, (MkPeerRequestQueue (alter (set_next (Some p)) z (q_entries q)) (q_requests q)
    (q_cids q) (Some p2) (Some p)).
  split; [exact He |]. split; [| split; [| split]].
  - unfold ipfs_bitswap_peer_request_queue_pop. rewrite Hfirst, Htodo. cbn [mbind cres_bind].
    replace (todo =? 0) with false by lia. rewrite Hpe, Hnext, Hql, Hez, Hcur. reflexivity.
  - cbn [q_first]. rewrite Hz, Hnext in *. apply (path_app _ _ _ (Some p)).
    + apply (path_relink q); [exact Hp | | cbn; apply lookup_alter_eq | cbn; auto].
      intros p' Hin. cbn. apply lookup_alter_ne. intros <-.
      apply NoDup_app in Hnd as (_ & Hd & _). apply (Hd z Hin). left.
    + split; [reflexivity |]. exists e, r, req. rewrite Hnext. split; [| reflexivity].
      apply entry_request_intro; [cbn; rewrite lookup_alter_ne by congruence; exact Hpe | exact Hcur
        | exact Hreq].
  - unfold queue_fuel. cbn. rewrite <- !size_dom, dom_alter_L. reflexivity.
  - intros peer p'. eapply is_for_relink; reflexivity.
Qed.

Abbreviation remove := (ipfs_bitswap_peer_request_queue_remove libp2p_peer_compare).

(** Unlinking an entry that is not the first. *)
Definition unlinked q (prior p r : positive) (next : option positive) (cids : entry_heap) :
  PeerRequestQueue (Peer := Peer) :=
  MkPeerRequestQueue (delete p (alter (set_next next) prior (q_entries q)))
    (delete r (q_requests q)) cids (q_first q) (q_last q).

Lemma unlinked_other q l prior p e r req nxt cids x :
  queue_list q l -> p ∈ l -> x ∈ l -> x <> p -> x <> prior -> entry_request q p = Some (e, r, req) ->
  entry_request (unlinked q prior p r nxt cids) x = entry_request q x.
Proof.
  intros Hq Hp Hx Hxp Hxprior He. pose proof Hq as [_ Hpath _ _ _ Hcu].
  destruct (path_elem _ _ _ _ _ Hpath Hx) as (e' & r' & req' & He').
  rewrite He'. apply entry_request_inv in He as (He & Hc & _), He' as (He' & Hc' & Hr').
  apply entry_request_intro; [| exact Hc' |]; cbn.
  - rewrite lookup_delete_ne, lookup_alter_ne by congruence. exact He'.
  - rewrite lookup_delete_ne; [exact Hr' |]. intros <-. apply Hxp.
    apply (Hcu x p r Hx Hp); [rewrite He' | rewrite He]; assumption.
Qed.

Lemma unlinked_path q l1 prior p l2 e r req cids :
  queue_list q (l1 ++ prior :: p :: l2) -> entry_request q p = Some (e, r, req) ->
  let q' := unlinked q prior p r (pe_next e) cids in
  path q' (q_first q') (l1 ++ prior :: l2) None /\
  forall peer x, x ∈ l1 ++ prior :: l2 -> is_for q' peer x = is_for q peer x.
Proof.
  intros Hq He q'. pose proof Hq as [Hnd Hpath _ _ _ Hcu].
  assert (Hin : forall x, x ∈ l1 ++ prior :: l2 -> x ∈ l1 ++ prior :: p :: l2 /\ x <> p).
  { intros x Hx. apply NoDup_app in Hnd as (_ & Hd & [Hpr Hnd]%NoDup_cons).
    apply NoDup_cons in Hnd as [Hp2 _].
    apply elem_of_app in Hx as [Hx | [-> | Hx]%elem_of_cons].
    - split; [apply elem_of_app; left; exact Hx |]. intros ->. apply (Hd p Hx). right. left.
    - split; [apply elem_of_app; right; left |]. intros ->. apply Hpr. left.
    - split; [apply elem_of_app; right; right; right; exact Hx |]. intros ->. contradiction. }
  assert (Hpin : p ∈ l1 ++ prior :: p :: l2) by (apply elem_of_app; right; right; left).
  assert (Hprior : exists e', entry_request q prior =
      Some (e', default r (pe_current e'), default req (q_requests q !! default r (pe_current e'))) /\
    entry_request q' prior = Some (set_next (pe_next e) e', default r (pe_current e'),
      default req (q_requests q !! default r (pe_current e')))).
  { destruct (path_elem _ _ _ _ prior Hpath) as (e' & r' & req' & He').
    { apply elem_of_app. right. left. }
    exists e'. apply entry_request_inv in He' as (He' & Hc' & Hr').
    rewrite Hc'. cbn. rewrite Hr'. cbn. split; [apply entry_request_intro; assumption |].
    destruct (Hin prior) as [Hpi Hpp]; [apply elem_of_app; right; left |].
    pose proof (entry_request_inv _ _ _ _ _ He) as (Hpe & Hpc & _).
    apply entry_request_intro; [| exact Hc' |]; cbn.
    - rewrite lookup_delete_ne, lookup_alter_eq, He' by congruence. reflexivity.
    - rewrite lookup_delete_ne; [exact Hr' |]. intros <-. apply Hpp.
      apply (Hcu prior p r Hpi Hpin); [rewrite He' | rewrite Hpe]; assumption. }
  destruct Hprior as (e' & He1 & He2).
  assert (Hoth : forall x, x ∈ l1 ++ l2 -> x <> prior -> entry_request q' x = entry_request q x).
  { intros x Hx Hxp. destruct (Hin x) as [Hxi Hxn].
    { apply elem_of_app in Hx as [Hx | Hx]; apply elem_of_app; [left | right; right]; assumption. }
    eapply unlinked_other; eassumption. }
  split.
  - apply NoDup_app in Hnd as (_ & Hd & [Hpr _]%NoDup_cons).
    apply path_app_inv in Hpath as (mid & H1 & H2). apply (path_app _ _ _ mid).
    + eapply path_frame; [| exact H1]. intros x Hx. apply Hoth; [apply elem_of_app; left; exact Hx |].
      intros ->. apply (Hd prior Hx). left.
    + destruct H2 as [-> (e0 & r0 & req0 & He0 & [_ (e3 & r3 & req3 & He3 & H3)])].
      rewrite He in He3. injection He3 as <- <- <-.
      split; [reflexivity |]. eexists _, _, _. split; [exact He2 |]. cbn [set_next pe_next].
      eapply path_frame; [| exact H3]. intros x Hx. apply Hoth; [apply elem_of_app; right; exact Hx |].
      intros ->. apply Hpr. right. exact Hx.
  - intros peer x Hx. unfold PeerQueue.is_for, peer_at.
    destruct (decide (x = prior)) as [-> | Hne]; [rewrite He1, He2; reflexivity |].
    rewrite Hoth; [reflexivity | | exact Hne].
    apply elem_of_app in Hx as [Hx | [-> | Hx]%elem_of_cons]; [| contradiction |];
      apply elem_of_app; [left | right]; assumption.
Qed.

Lemma find_ext_in {A} (f g : A -> bool) l :
  (forall a, a ∈ l -> f a = g a) -> find f l = find g l.
Proof.
  induction l as [| a l IH]; intros Hfg; [reflexivity |]. cbn. rewrite (Hfg a) by left.
  rewrite IH; [reflexivity |]. intros. apply Hfg. right. assumption.
Qed.
Lemma find_app {A} (f : A -> bool) l k :
  find f (l ++ k) = match find f l with Some a => Some a | None => find f k end.
Proof. induction l as [| a l IH]; [reflexivity |]. cbn. destruct (f a); auto. Qed.

(** Removing the entry found for the peer of a request. *)
Definition remove_found q (p : positive) : cres unit (Z * PeerRequestQueue) :=
  match q_entries q !! p ≫= pe_prior, q_entries q !! p with
  | Some prior, Some entry =>
      match q_entries q !! prior with
      | None => Undef
      | Some _ =>
          q ← ipfs_bitswap_peer_request_entry_free p
                (MkPeerRequestQueue (alter (set_next (pe_next entry)) prior (q_entries q))
                   (q_requests q) (q_cids q) (q_first q) (q_last q));
          Ok (1, q)
      end
  | _, _ => Undef
  end.

Lemma remove_eq q l r0 req0 peer :
  queue_list q l -> q_requests q !! r0 = Some req0 -> pr_peer req0 = Some peer ->
  remove q (queue_fuel q) (Some r0) =
    match find (is_for q (Some peer)) l with
    | None => Ok (0, q)
    | Some p => remove_found q p
    end.
Proof.
  intros Hq Hr0 Hpeer. unfold ipfs_bitswap_peer_request_queue_remove. rewrite Hr0, Hpeer.
  cbn [ipfs_bitswap_peer_request_queue_find_entry]. rewrite (queue_find_list _ q l) by assumption.
  cbn [mbind cres_bind]. destruct (find _ l); reflexivity.
Qed.

Lemma remove_found_middle q l1 prior p l2 e r req cids :
  queue_list q (l1 ++ prior :: p :: l2) -> entry_request q p = Some (e, r, req) ->
  ipfs_bitswap_peer_request_free (E := unit) req (q_cids q) = Ok cids ->
  remove_found q p = Ok (1, unlinked q prior p r (pe_next e) cids).
Proof.
  intros Hq He Hfree. pose proof (entry_request_inv _ _ _ _ _ He) as (Hpe & Hcur & Hreq).
  pose proof (ql_nodup _ _ Hq) as Hnd. apply NoDup_app in Hnd as (_ & _ & [Hpp _]%NoDup_cons).
  assert (prior <> p) as Hne by (intros ->; apply Hpp; left).
  assert (q_entries q !! p ≫= pe_prior = Some prior) as Hprior.
  { rewrite (ql_links _ _ Hq (S (length l1)) p).
    - rewrite lookup_app_r, Nat.sub_diag by lia. reflexivity.
    - rewrite lookup_app_r by lia. replace (S (length l1) - length l1)%nat with 1%nat by lia.
      reflexivity. }
  destruct (ql_prior _ _ Hq prior) as [ep Hep]; [apply elem_of_app; right; left |].
  unfold remove_found. rewrite Hprior, Hpe, Hep. unfold ipfs_bitswap_peer_request_entry_free.
  rewrite (entry_request_intro _ p e r req); [| | exact Hcur | exact Hreq].
  - cbn [mbind cres_bind q_cids]. rewrite Hfree. reflexivity.
  - cbn. rewrite lookup_alter_ne by congruence. exact Hpe.
Qed.

(** The queue still takes an entry removed for its last one. *)
Lemma unlinked_last q l1 prior p e r req cids peer :
  queue_list q (l1 ++ [prior; p]) -> entry_request q p = Some (e, r, req) ->
  let q' := unlinked q prior p r (pe_next e) cids in
  find (is_for q' peer) (l1 ++ [prior]) = None -> find_peer q' (queue_fuel q') peer = Undef.
Proof.
  intros Hq He q' Hf. destruct (unlinked_path q l1 prior p [] e r req cids Hq He) as [Hp _].
  pose proof (ql_nodup _ _ Hq) as Hnd. pose proof (queue_list_first _ _ Hq) as Hfirst.
  unfold ipfs_peer_request_queue_find_peer. fold q' in Hp.
  rewrite (queue_find_end _ q' (l1 ++ [prior])), Hf; [| exact Hp |].
  - cbn [mbind cres_bind]. subst q'. cbn [unlinked q_first q_last q_entries].
    rewrite Hfirst, (ql_last _ _ Hq).
    replace (l1 ++ [prior; p]) with ((l1 ++ [prior]) ++ [p]) by (rewrite <- app_assoc; reflexivity).
    rewrite last_snoc, lookup_delete_eq. destruct l1; reflexivity.
  - replace (l1 ++ [prior; p]) with ((l1 ++ [prior]) ++ [p]) in Hnd
      by (rewrite <- app_assoc; reflexivity).
    apply NoDup_app in Hnd as [Hnd _]. exact Hnd.
Qed.
End OperationFacts.

(** ** What there is to ask for *)

Section WantFacts.
Context {VE : Libp2pVector} `{!Libp2pVectorLaws VE}.

Lemma find_pending (heap : entry_heap) ps :
  bool_decide (is_Some (find (fun p => match heap !! p with Some e => pending e | None => false end) ps)) =
    bool_decide (pending_at heap ps <> []).
Proof.
  induction ps as [| p ps IH]; [reflexivity |]. unfold pending_at in *. cbn [find omap list_omap].
  destruct (heap !! p) as [e |]; [| exact IH]. cbn [List.filter]. destruct (pending e); [| exact IH].
  rewrite !bool_decide_eq_true_2; [reflexivity | discriminate | eauto].
Qed.

Lemma we_want_pending {E} cids heap :
  entries_ok heap (items cids) ->
  ipfs_bitswap_peer_request_we_want_cids (E := E) (Some cids) heap =
    Ok (bool_decide (pending_at heap (items cids) <> [])).
Proof.
  intros Hok. cbn [ipfs_bitswap_peer_request_we_want_cids].
  rewrite vector_total_items. destruct (len (items cids) =? 0) eqn:Hz.
  - apply Z.eqb_eq, len_zero in Hz. rewrite Hz. reflexivity.
  - rewrite vector_search_items. rewrite (list_search_find _
      (fun p => match heap !! p with Some e => pending e | None => false end)).
    + cbn [mbind cres_bind]. rewrite find_pending. reflexivity.
    + intros p Hp. unfold entries_ok in Hok. rewrite Forall_forall in Hok.
      destruct (Hok p Hp) as (e & He & _). rewrite He. unfold pending.
      destruct (ce_cancel e =? 0), (ce_cancel_has_been_sent e =? 0),
        (ce_request_has_been_sent e =? 0); reflexivity.
Qed.
End WantFacts.

(** ** The properties of this file *)

Section Properties.
Context {VE : Libp2pVector} `{!Libp2pVectorLaws VE}.
Context {Peer : Type} (libp2p_peer_compare : option Peer -> option Peer -> Z).
Context (peer_connected : Peer -> bool) (peek : Peer -> Z).
Abbreviation find_peer := (ipfs_peer_request_queue_find_peer libp2p_peer_compare).
Abbreviation is_for := (is_for libp2p_peer_compare).

(** In a well-formed queue, the request of a peer is found and nothing
    changes; a peer without one gets a new, empty request at the end, the other
    requests stay, the queue stays well formed, and the same request is found
    when the peer is looked up again. *)
Theorem queue_find_peer_spec q l peer :
  queue_list q l -> libp2p_peer_compare peer peer = 0 ->
  match find (is_for q peer) l with
  | Some p => exists e r req, entry_request q p = Some (e, r, req) /\
      find_peer q (queue_fuel q) peer = Ok (r, q)
  | None => exists p r q', find_peer q (queue_fuel q) peer = Ok (r, q') /\
      queue_list q' (l ++ [p]) /\ (p ∉ l) /\ q_requests q !! r = None /\
      q_requests q' = <[r := new_request peer]> (q_requests q) /\
      find_peer q' (queue_fuel q') peer = Ok (r, q')
  end.
Proof.
  intros Hq Hrefl. destruct (find (is_for q peer) l) as [p |] eqn:Hf.
  - destruct (find_is_for _ _ _ _ _ Hf) as [_ Hp]. destruct (is_for_request _ _ _ _ Hp) as (e & r & req & He).
    exists e, r, req. split; [exact He |]. eapply find_peer_known; eassumption.
  - destruct (find_peer_new _ q l peer Hq Hf)
      as (p & r & q' & Hfp & Hpl & Hq' & Hr & Hreqs & (e & He) & Hfor).
    exists p, r, q'. split_and!; auto.
    apply (find_peer_known _ q' (l ++ [p]) peer p e r (new_request peer)); [exact Hq' | | exact He].
    rewrite find_app, (find_ext_in _ (is_for q peer) l (Hfor peer)), Hf.
    cbn [find]. unfold PeerQueue.is_for, peer_at. rewrite He. cbn. rewrite Hrefl. reflexivity.
Qed.

(** C18: popping a well-formed queue returns the request of its first entry when
    there is something to do for it, and nothing when there is not, whatever waits
    behind it; with one entry the queue stays as it is. With more, the entries form a cycle: peers that have an entry
    are still found, but looking up any other peer never returns. *)
Theorem queue_pop_spec q l todo :
  queue_list q l ->
  ipfs_bitswap_peer_request_something_to_do peer_connected peek q (q_first q) = Ok todo ->
  let pop := ipfs_bitswap_peer_request_queue_pop peer_connected peek q in
  match l with
  | [] => pop = Ok (None, q)
  | p :: l' =>
      if todo =? 0 then pop = Ok (None, q)
      else exists e r req q', entry_request q p = Some (e, r, req) /\ pop = Ok (Some r, q') /\
        match l' with
        | [] => q' = q
        | _ => forall peer, match find (is_for q peer) (l' ++ [p]) with
               | Some p' => queue_find libp2p_peer_compare q' peer (queue_fuel q') (q_first q') =
                   Ok (Some p')
               | None => forall fuel, find_peer q' fuel peer = NoFuel
               end
        end
  end.
Proof.
  intros Hq Htodo pop. subst pop. pose proof (queue_list_first q l Hq) as Hfirst.
  destruct l as [| p [| p2 l]].
  - unfold ipfs_bitswap_peer_request_queue_pop. rewrite Hfirst. reflexivity.
  - rewrite Hfirst in Htodo. destruct (todo =? 0) eqn:Hz.
    + unfold ipfs_bitswap_peer_request_queue_pop. rewrite Hfirst. cbn [head] in *. rewrite Htodo.
      cbn [mbind cres_bind]. rewrite Hz. reflexivity.
    + destruct (ql_path _ _ Hq) as [_ (e & r & req & He & Hp)].
      pose proof (entry_request_inv _ _ _ _ _ He) as (Hpe & Hcur & _).
      exists e, r, req, q. split; [exact He |]. split; [| reflexivity].
      unfold ipfs_bitswap_peer_request_queue_pop. rewrite Hfirst. cbn [head] in *. rewrite Htodo.
      cbn [mbind cres_bind]. rewrite Hz, Hpe. cbn in Hp. rewrite Hp, Hcur. reflexivity.
  - rewrite Hfirst in Htodo. destruct (todo =? 0) eqn:Hz.
    + unfold ipfs_bitswap_peer_request_queue_pop. rewrite Hfirst. cbn [head] in *. rewrite Htodo.
      cbn [mbind cres_bind]. rewrite Hz. reflexivity.
    + destruct (pop_cycle libp2p_peer_compare peer_connected peek q p p2 l todo Hq Htodo ltac:(lia))
        as (e & r & req & q' & He & Hpop & Hcyc & Hfuel & Hfor).
      exists e, r, req, q'. split; [exact He |]. split; [exact Hpop |]. intros peer.
      rewrite <- (find_ext _ _ _ (Hfor peer)).
      destruct (find (is_for q' peer) ((p2 :: l) ++ [p])) as [p' |] eqn:Hf.
      * rewrite (queue_find_path _ q' peer _ _ _ _ Hcyc), Hf; [reflexivity |].
        apply Nat.lt_le_incl, (path_size _ _ _ _ Hcyc). destruct Hq as [Hnd _ _ _ _ _].
        apply NoDup_cons in Hnd as [Hp Hnd]. apply NoDup_app. split; [exact Hnd |].
        split; [| apply NoDup_singleton]. intros x Hx Hx'.
        apply list_elem_of_singleton in Hx' as ->. contradiction.
      * intros fuel. unfold ipfs_peer_request_queue_find_peer.
        rewrite (queue_find_cycle _ q' peer _ _ fuel Hcyc); [reflexivity | discriminate | exact Hf].
Qed.

(** Removing the request of a peer: a peer without an entry is refused; the
    first entry cannot be removed, the attempt is undefined; removing another
    takes it out of the list, but after the last one is removed the next peer to
    be added is undefined. *)
Theorem queue_remove_spec q l r0 req0 peer :
  queue_list q l -> q_requests q !! r0 = Some req0 -> pr_peer req0 = Some peer ->
  let remove := ipfs_bitswap_peer_request_queue_remove libp2p_peer_compare q (queue_fuel q) (Some r0) in
  (find (is_for q (Some peer)) l = None -> remove = Ok (0, q)) /\
  (forall p l', l = p :: l' -> is_for q (Some peer) p = true -> remove = Undef) /\
  (forall l1 prior p l2 e r req cids, l = l1 ++ prior :: p :: l2 ->
    find (is_for q (Some peer)) l = Some p -> entry_request q p = Some (e, r, req) ->
    ipfs_bitswap_peer_request_free (E := unit) req (q_cids q) = Ok cids ->
    exists q', remove = Ok (1, q') /\
      forall peer', queue_find libp2p_peer_compare q' peer' (queue_fuel q') (q_first q') =
          Ok (find (is_for q peer') (l1 ++ prior :: l2)) /\
        (l2 = [] -> find (is_for q peer') (l1 ++ [prior]) = None ->
          find_peer q' (queue_fuel q') peer' = Undef)).
Proof.
  intros Hq Hr0 Hpeer remove.
  assert (Hrun : remove = match find (is_for q (Some peer)) l with
    | None => Ok (0, q) | Some p => remove_found q p end) by exact (remove_eq _ q l r0 req0 peer Hq Hr0 Hpeer).
  split; [intros Hn; rewrite Hrun, Hn; reflexivity |]. split.
  - intros p l' -> Hp. rewrite Hrun. cbn [find]. rewrite Hp. unfold remove_found.
    rewrite (ql_links _ _ Hq O p eq_refl). reflexivity.
  - intros l1 prior p l2 e r req cids -> Hf He Hfree.
    exists (unlinked q prior p r (pe_next e) cids).
    rewrite Hrun, Hf. split; [eapply remove_found_middle; eassumption |]. intros peer'.
    destruct (unlinked_path libp2p_peer_compare q l1 prior p l2 e r req cids Hq He) as [Hp Hfor].
    split.
    + rewrite (queue_find_end _ _ (l1 ++ prior :: l2)); [| exact Hp |].
      * f_equal. apply find_ext_in, Hfor.
      * pose proof (ql_nodup _ _ Hq) as Hnd. eapply sublist_NoDup; [exact Hnd |].
        apply sublist_app; [reflexivity |]. apply sublist_skip, sublist_cons. reflexivity.
    + intros -> Hn. eapply unlinked_last; [exact Hq | exact He |].
      rewrite (find_ext_in _ _ _ (Hfor peer')). exact Hn.
Qed.

(** Adding a request to an empty queue makes it the one entry of a
    well-formed queue; added to any other queue, the request is not reached from
    the first entry: every peer is looked up as before. *)
Theorem queue_add_spec q l r req :
  queue_list q l -> q_requests q !! r = Some req ->
  let '(verdict, q') := ipfs_bitswap_peer_request_queue_add q (Some r) in
  verdict = 1 /\
  match l with
  | [] => exists p e, queue_list q' [p] /\ entry_request q' p = Some (e, r, req)
  | _ => forall peer,
      queue_find libp2p_peer_compare q' peer (queue_fuel q') (q_first q') =
        queue_find libp2p_peer_compare q peer (queue_fuel q) (q_first q)
  end.
Proof.
  intros Hq Hr. unfold ipfs_bitswap_peer_request_queue_add. cbv zeta.
  split; [reflexivity |]. pose proof (fresh_lookup (q_entries q)) as Hp.
  set (p := fresh (dom (q_entries q))) in *. pose proof (queue_list_first q l Hq) as Hfirst.
  destruct l as [| p1 l].
  - cbn [head] in Hfirst. pose proof (ql_last _ _ Hq) as Hlast. cbn in Hlast.
    rewrite Hfirst, Hlast. cbn [default].
    set (q' := MkPeerRequestQueue _ _ _ _ _).
    assert (entry_request q' p = Some (MkPeerRequestEntry None (Some r) None, r, req)) as He.
    { apply entry_request_intro; [cbn; apply lookup_insert_eq | reflexivity | exact Hr]. }
    exists p, (MkPeerRequestEntry None (Some r) None). split; [| exact He].
    apply (queue_list_one q' p _ r req He); reflexivity.
  - change (q_first q = Some p1) in Hfirst. intros peer. rewrite Hfirst.
    set (q' := MkPeerRequestQueue _ _ _ _ _).
    assert (Hframe : forall x, x ∈ p1 :: l -> entry_request q' x = entry_request q x).
    { intros x Hx. destruct (path_elem _ _ _ _ _ (ql_path _ _ Hq) Hx) as (e & r' & req' & He).
      apply entry_request_frame; [| auto | rewrite He; eauto].
      cbn. apply lookup_insert_ne. intros <-. apply entry_request_inv in He as [He _]. congruence. }
    pose proof (path_frame q q' _ _ _ Hframe (ql_path _ _ Hq)) as Hpath. rewrite Hfirst in Hpath.
    change (q_first q') with (Some p1). pose proof (ql_nodup _ _ Hq) as Hnd.
    rewrite (queue_find_end _ q' (p1 :: l) _ peer Hpath Hnd).
    pose proof (queue_find_list libp2p_peer_compare q (p1 :: l) peer Hq) as Hold.
    rewrite Hfirst in Hold. rewrite Hold. f_equal. apply find_ext_in.
    intros x Hx. unfold PeerQueue.is_for, peer_at. rewrite Hframe by exact Hx. reflexivity.
Qed.

(** There is something to ask a peer for exactly when adding its queue to a
    message adds an entry, and nothing once it was added. *)
Theorem we_want_cids_spec {PB : Protobuf} `{!ProtobufLaws PB} m cids heap :
  NoDup (items cids) -> entries_ok heap (items cids) ->
  exists m' heap', ipfs_bitswap_message_add_wantlist_items m cids heap = Ok (m', heap') /\
    ipfs_bitswap_peer_request_we_want_cids (E := unit) (Some cids) heap =
      Ok (bool_decide (message_requests m' <> message_requests m)) /\
    ipfs_bitswap_peer_request_we_want_cids (E := unit) (Some cids) heap' = Ok false.
Proof.
  intros Hnd Hok. destruct (add_wantlist_items_eq m cids heap Hnd Hok)
    as (m' & heap' & He & Hr & _ & _ & Hh & _).
  exists m', heap'. split; [exact He |].
  assert (entries_ok heap' (items cids)) as Hok'.
  { unfold entries_ok in *. rewrite Forall_forall in *. intros p Hp. destruct (Hok p Hp) as (e & Hpe & Hc).
    rewrite Hh, Hpe. eexists. split; [reflexivity |]. case_bool_decide; [| exact Hc].
    unfold settle. repeat case_match; exact Hc. }
  rewrite !we_want_pending by assumption.
  rewrite (pending_settled heap heap' (items cids) Hh) by reflexivity. split; [| reflexivity].
  f_equal. apply bool_decide_ext. rewrite Hr. split.
  - intros Hne E. apply Hne. apply (f_equal length) in E. rewrite length_app, length_map in E.
    destruct (pending_at heap (items cids)); [reflexivity | cbn in E; lia].
  - intros Hne E. apply Hne. rewrite E. apply app_nil_r.
Qed.
End Properties.

(** * Concrete runs *)

(** Peers numbered; a queue of two, with a block for the first. *)
Definition compare_numbers (a b : option Z) : Z :=
  match a, b with Some a, Some b => a - b | None, None => 0 | _, _ => 1 end.
Definition sample_request (peer : Z) (blocks : list Block) : PeerRequest (Peer := Z) :=
  MkPeerRequest (VE := list_vector) (Some peer) ([] : list positive) ([] : list positive) blocks.
Definition sample_queue : PeerRequestQueue (VE := list_vector) (Peer := Z) :=
  MkPeerRequestQueue
    {[ 1%positive := MkPeerRequestEntry None (Some 1%positive) (Some 2%positive);
       2%positive := MkPeerRequestEntry (Some 1%positive) (Some 2%positive) None ]}
    {[ 1%positive := sample_request 10 [sample_block]; 2%positive := sample_request 20 [] ]}
    ∅ (Some 1%positive) (Some 2%positive).

Lemma sample_queue_list : queue_list sample_queue [1%positive; 2%positive].
Proof.
  constructor.
  - apply (bool_decide_unpack _). vm_compute. exact I.
  - split; [reflexivity |]. eexists _, _, _. split; [vm_compute; reflexivity |].
    split; [reflexivity |]. eexists _, _, _. split; vm_compute; reflexivity.
  - reflexivity.
  - intros p Hp. repeat (apply elem_of_cons in Hp as [-> | Hp]); [| | inversion Hp];
      eexists; vm_compute; reflexivity.
  - intros [| [| i]] p Hi; [injection Hi as <- .. | destruct i; discriminate]; vm_compute; reflexivity.
  - intros p p' r Hp Hp'.
    repeat (apply elem_of_cons in Hp as [-> | Hp]); [| | inversion Hp];
      repeat (apply elem_of_cons in Hp' as [-> | Hp']); try (inversion Hp');
      vm_compute; congruence.
Qed.

Lemma queue_find_peer_spec_witness :
  exists p r q', ipfs_peer_request_queue_find_peer compare_numbers sample_queue 3 (Some 30) = Ok (r, q') /\
    queue_list q' [1%positive; 2%positive; p].
Proof.
  pose proof (queue_find_peer_spec compare_numbers sample_queue [1%positive; 2%positive] (Some 30)
    sample_queue_list eq_refl) as H.
  destruct H as (p & r & q' & Hf & Hq & _). exists p, r, q'. split; [exact Hf | exact Hq].
Defined.

Lemma queue_pop_spec_witness :
  exists q', ipfs_bitswap_peer_request_queue_pop (fun _ => false) (fun _ => 0) sample_queue =
      Ok (Some 1%positive, q') /\
    forall fuel, ipfs_peer_request_queue_find_peer compare_numbers q' fuel (Some 30) = NoFuel.
Proof.
  destruct (queue_pop_spec compare_numbers (fun _ => false) (fun _ => 0) sample_queue
    [1%positive; 2%positive] 1 sample_queue_list eq_refl) as (e & r & req & q' & He & Hp & Hc).
  exists q'. split.
  - rewrite Hp. vm_compute in He. congruence.
  - apply (Hc (Some 30)).
Defined.

Lemma queue_remove_spec_witness :
  ipfs_bitswap_peer_request_queue_remove compare_numbers sample_queue (queue_fuel sample_queue)
    (Some 1%positive) = Undef /\
  exists q', ipfs_bitswap_peer_request_queue_remove compare_numbers sample_queue
    (queue_fuel sample_queue) (Some 2%positive) = Ok (1, q').
Proof.
  split.
  - destruct (queue_remove_spec compare_numbers sample_queue [1%positive; 2%positive] 1%positive
      (sample_request 10 [sample_block]) 10 sample_queue_list eq_refl eq_refl) as (_ & Hu & _).
    apply (Hu 1%positive [2%positive]); reflexivity.
  - destruct (queue_remove_spec compare_numbers sample_queue [1%positive; 2%positive] 2%positive
      (sample_request 20 []) 20 sample_queue_list eq_refl eq_refl) as (_ & _ & Hm).
    destruct (Hm [] 1%positive 2%positive [] _ _ _ ∅ eq_refl eq_refl eq_refl eq_refl) as (q' & Hq & _).
    exists q'. exact Hq.
Defined.

Lemma queue_add_spec_witness :
  let q' := snd (ipfs_bitswap_peer_request_queue_add sample_queue (Some 1%positive)) in
  queue_find compare_numbers q' (Some 20) (queue_fuel q') (q_first q') = Ok (Some 2%positive).
Proof.
  destruct (queue_add_spec compare_numbers sample_queue [1%positive; 2%positive] 1%positive
    (sample_request 10 [sample_block]) sample_queue_list eq_refl) as [_ H].
  etransitivity; [exact (H (Some 20)) | reflexivity].
Defined.

Lemma we_want_cids_spec_witness :
  exists m heap', ipfs_bitswap_message_add_wantlist_items ipfs_bitswap_message_new sample_cids
      sample_heap = Ok (m, heap') /\
    ipfs_bitswap_peer_request_we_want_cids (E := unit) (Some sample_cids) sample_heap = Ok true /\
    ipfs_bitswap_peer_request_we_want_cids (E := unit) (Some sample_cids) heap' = Ok false.
Proof.
  destruct (we_want_cids_spec ipfs_bitswap_message_new sample_cids sample_heap) as (m & heap' & Ha & _ & Hf).
  - apply (bool_decide_unpack _). vm_compute. exact I.
  - exact sample_entries.
  - exists m, heap'. split; [exact Ha |]. split; [vm_compute; reflexivity | exact Hf].
Defined.
