(* ===== verification/BitswapNetwork.v ===== *)
(** What a node sends to a peer and does with what it receives
    (src/exchange/bitswap/network.c; the processing of a request in
    src/exchange/bitswap/peer_request_queue.c). *)

From S2P Require Import Prelude Vector Libc Protobuf Libs ProtobufRef LibsRef Cid Block BitswapMessage PeerQueue.

Definition bitswap_header : bytes := str "/ipfs/bitswap/1.1.0" ++ [byte_of 10].

Section Network.
Context {PB : Protobuf} {VE : Libp2pVector}.

(** [connected]: whether the peer is connected once a missing connection was
    tried; [write]: what writing to its stream returns. The verdict, and the
    bytes written. *)
Definition ipfs_bitswap_network_send_message (connected : bool) (write : bytes -> Z)
  (message : BitswapMessage) : cres unit (Z * option bytes) :=
  if negb connected then Ok (0, None)
  else
    buf_size ← ipfs_bitswap_message_protobuf_encode_size (Some message);
    match ipfs_bitswap_message_protobuf_encode (Some message) buf_size with
    | Err _ => Ok (0, None)
    | Undef => Undef
    | NoFuel => NoFuel
    | Ok out =>
        let data := bitswap_header ++ out in
        Ok (if write data <=? 0 then 0 else 1, Some data)
    end.

(** The loop advances the collection instead of the index: when the first entry
    is not the one, the next iteration looks at memory past the collection. *)
Definition ipfs_bitswap_network_adjust_cid_queue {E} (collection : vector positive)
  (cid : option Cid) (cancel : bool) (heap : entry_heap)
  : cres E (Z * vector positive * entry_heap) :=
  match cid with
  | None => Ok (0, collection, heap)
  | Some _ =>
      if 0 <? vector_total collection then
        match libp2p_utils_vector_get collection 0 with
        | None => Undef
        | Some p =>
            match heap !! p with
            | None => Undef
            | Some current =>
                match ipfs_cid_compare (ce_cid current) cid with
                | Ok c =>
                    if c =? 0 then
                      Ok (1, if cancel then libp2p_utils_vector_delete collection 0
                             else collection, heap)
                    else Undef
                | _ => Undef
                end
            end
        end
      else if cancel then Ok (0, collection, heap)
      else
        let p := fresh (dom heap) in
        Ok (0, libp2p_utils_vector_add collection p, <[p := MkCidEntry cid 0 0 0]> heap)
  end.

(** One entry of a want-list received, put in the queue of CIDs the peer wants.
    An error return of the caller is [Err]. *)
Definition bitswap_want (entry : option WantlistEntry) (s : vector positive * entry_heap)
  : cres (vector positive * entry_heap) (vector positive * entry_heap) :=
  let '(they_want, heap) := s in
  match entry with
  | None => Undef
  | Some entry =>
      block ← mem_read (we_block entry) (we_block_size entry);
      cid ← on_err (ipfs_cid_protobuf_decode block (we_block_size entry)) s;
      match cid with
      | None => Undef (* [cid->hash_length] *)
      | Some c =>
          if cid_hash_length c =? 0 then Err s
          else
            '(_, they_want, heap) ← ipfs_bitswap_network_adjust_cid_queue they_want cid
                                      (negb (we_cancel entry =? 0)) heap;
            Ok (they_want, heap)
      end
  end.

(** The blocks received, copied for the exchange. *)
Definition bitswap_has_block (blk : Block) (blocks : list Block) : cres unit (list Block) :=
  blk ← ipfs_block_copy blk; Ok (blocks ++ [blk]).

Section Receive.
Context {Peer : Type} (libp2p_peer_compare : option Peer -> option Peer -> Z).

Definition set_they_want (v : vector positive) (req : PeerRequest (Peer := Peer)) : PeerRequest :=
  MkPeerRequest (pr_peer req) v (pr_cids_we_want req) (pr_blocks_we_want_to_send req).

(** [remote] is the peer of the session in the peer store, if there is one. The
    verdict, the blocks the exchange is told of and the queue. *)
Definition ipfs_bitswap_network_handle_message (q : PeerRequestQueue (Peer := Peer)) (fuel : nat)
  (remote : option Peer) (data : bytes) (bytes_length : Z) (malloced : WantlistEntry)
  : cres unit (Z * list Block * PeerRequestQueue) :=
  match strchr (btake bytes_length data) (byte_of 10) with
  | None => Ok (0, [], q)
  | Some i =>
      let start := Z.of_nat i + 1 in
      match ipfs_bitswap_message_protobuf_decode (bdrop start data) (size_sub bytes_length start)
              malloced with
      | Err _ => Ok (0, [], q)
      | Undef | Ok None => Undef
      | NoFuel => NoFuel
      | Ok (Some message) =>
          blocks ← loop_over bitswap_has_block (bm_payload message) [];
          match bm_wantlist message ≫= wl_entries with
          | None => Ok (1, blocks, q)
          | Some entries =>
              if vector_total entries <=? 0 then Ok (1, blocks, q)
              else
                match remote with
                | None => Ok (0, blocks, q)
                | Some _ =>
                    '(r, q) ← ipfs_peer_request_queue_find_peer libp2p_peer_compare q fuel remote;
                    match q_requests q !! r with
                    | None => Undef
                    | Some req =>
                        let store s := MkPeerRequestQueue (q_entries q)
                              (<[r := set_they_want s.1 req]> (q_requests q)) s.2
                              (q_first q) (q_last q) in
                        match vector_loop bitswap_want entries (pr_cids_they_want req, q_cids q) with
                        | Ok s => Ok (1, blocks, store s)
                        | Err s => Ok (0, blocks, store s)
                        | Undef => Undef
                        | NoFuel => NoFuel
                        end
                    end
                end
          end
      end
  end.
End Receive.

(** ** Processing a request *)

Section Process.
Context {Peer : Type}.

(** The peer is local, connected, has an address, or gets connected when tried;
    whether it is connected when the message is sent; the block store and the
    stream. The store gives the block of a CID, none when it has no file for it, and leaves a block that
    was freed when the file does not decode, which is undefined to look at. *)
Context (is_local is_connected has_address connect : Peer -> bool).
Context (reachable : Peer -> bool) (write : Peer -> bytes -> Z).
Context (blockstore_get : option Cid -> cres unit (option Block)).

Definition get_block_they_want (p : positive) (s : vector Block * entry_heap)
  : cres unit (vector Block * entry_heap) :=
  let '(blocks, heap) := s in
  match heap !! p with
  | None => Undef
  | Some cidEntry =>
      if ce_cancel cidEntry =? 0 then
        block ← blockstore_get (ce_cid cidEntry);
        match block with
        | Some block => Ok (libp2p_utils_vector_add blocks block, <[p := cancelled cidEntry]> heap)
        | None => Ok s
        end
      else Ok s
  end.

Definition ipfs_bitswap_peer_request_get_blocks_they_want (request : PeerRequest (Peer := Peer))
  (heap : entry_heap) : cres unit (PeerRequest * entry_heap) :=
  '(blocks, heap) ← vector_loop get_block_they_want (pr_cids_they_want request)
                      (pr_blocks_we_want_to_send request, heap);
  Ok (MkPeerRequest (pr_peer request) (pr_cids_they_want request) (pr_cids_we_want request) blocks,
      heap).

(** What the message to a peer is filled with; the verdicts of the filling are
    not looked at. *)
Definition process_message (request : PeerRequest (Peer := Peer)) (heap : entry_heap)
  : cres unit (BitswapMessage * PeerRequest * entry_heap) :=
  let msg := ipfs_bitswap_message_new in
  '(request, heap) ← ipfs_bitswap_peer_request_get_blocks_they_want request heap;
  '(msg, blocks, heap) ←
    match ipfs_bitswap_message_add_blocks (Some msg) (Some (pr_blocks_we_want_to_send request))
            (pr_cids_they_want request) heap with
    | Err _ => Ok (msg, pr_blocks_we_want_to_send request, heap)
    | r => r
    end;
  let request := MkPeerRequest (pr_peer request) (pr_cids_they_want request)
                   (pr_cids_we_want request) blocks in
  match ipfs_bitswap_message_add_wantlist_items msg (pr_cids_we_want request) heap with
  | Ok (msg, heap) | Err (msg, heap) => Ok (msg, request, heap)
  | Undef => Undef
  | NoFuel => NoFuel
  end.

(** The verdict, the bytes written, and the request and entries afterwards. *)
Definition ipfs_bitswap_peer_request_process_entry (request : option (PeerRequest (Peer := Peer)))
  (heap : entry_heap)
  : cres unit (Z * option bytes * option (PeerRequest (Peer := Peer)) * entry_heap) :=
  let idle := Ok (0, None, request, heap) in
  match request with
  | None => idle
  | Some req =>
      match pr_peer req with
      | None => idle
      | Some peer =>
          if negb (is_local peer) && negb (is_connected peer) && negb (has_address peer) then idle
          else
            let connected := is_local peer || is_connected peer in
            want ← ipfs_bitswap_peer_request_we_want_cids (Some (pr_cids_we_want req)) heap;
            need_to_connect ←
              (if (want : bool) then Ok true
               else
                 waiting ← ipfs_bitswap_peer_request_cids_waiting (Some (pr_cids_they_want req)) heap;
                 if (waiting : bool) then Ok true
                 else Ok (negb (vector_total (pr_blocks_we_want_to_send req) =? 0)));
            if (need_to_connect : bool) && (connected || connect peer)
            then
              '(msg, req, heap) ← process_message req heap;
              '(sent, data) ← ipfs_bitswap_network_send_message (reachable peer) (write peer) msg;
              Ok (if sent =? 0 then 0 else 1, data, Some req, heap)
            else idle
      end
  end.
End Process.
End Network.

(** * Properties *)

(** ** Sending *)

Section ProcessFacts.
Context {PB : Protobuf} `{!ProtobufLaws PB} {VE : Libp2pVector} `{!Libp2pVectorLaws VE}.
Context {Peer : Type} (blockstore_get : option Cid -> cres unit (option Block)).

(** A block the peer wants and the node has. *)
Definition served (heap : entry_heap) (p : positive) : option Block :=
  e ← heap !! p;
  if ce_cancel e =? 0 then match blockstore_get (ce_cid e) with Ok block => block | _ => None end else None.
(** What the peer waits for is not in a file that does not decode. *)
Definition readable (heap : entry_heap) (ps : list positive) : Prop :=
  forall p e, p ∈ ps -> heap !! p = Some e -> ce_cancel e = 0 -> exists o, blockstore_get (ce_cid e) = Ok o.

Lemma get_blocks_loop ps blocks heap :
  NoDup ps -> entries_ok heap ps -> readable heap ps ->
  exists blocks' heap' f,
    list_loop (get_block_they_want blockstore_get) ps (blocks, heap) = Ok (blocks', heap') /\
    items blocks' = items blocks ++ omap (served heap) ps /\
    (forall p, heap' !! p = (if (f p : bool) then cancelled else id) <$> heap !! p) /\
    forall p, f p = true -> p ∈ ps.
Proof.
  intros Hnd. revert blocks heap. induction Hnd as [| p ps Hp _ IH]; intros blocks heap Hok Hread.
  - exists blocks, heap, (fun _ => false). split_and!; [reflexivity | rewrite app_nil_r; reflexivity | |].
    + intros p. destruct (heap !! p); reflexivity.
    + discriminate.
  - apply Forall_cons in Hok as [(e & He & Hc) Hok].
    assert (Hs : get_block_they_want blockstore_get p (blocks, heap) =
      Ok (match served heap p with Some b => libp2p_utils_vector_add blocks b | None => blocks end,
          match served heap p with Some _ => <[p := cancelled e]> heap | None => heap end)).
    { unfold get_block_they_want, served. rewrite He. cbn [mbind option_bind].
      destruct (Z.eqb_spec (ce_cancel e) 0) as [Ec |]; [| reflexivity].
      destruct (Hread p e ltac:(left) He Ec) as (o & ->). destruct o; reflexivity. }
    set (heap1 := match served heap p with Some _ => <[p := cancelled e]> heap | None => heap end) in *.
    assert (Hh1 : forall x, heap1 !! x = (if bool_decide (x = p /\ is_Some (served heap p))
      then cancelled else id) <$> heap !! x).
    { intros x. subst heap1. destruct (served heap p) as [b |] eqn:Hb.
      - destruct (decide (x = p)) as [-> | Hx].
        + rewrite lookup_insert_eq, bool_decide_eq_true_2 by eauto. rewrite He. reflexivity.
        + rewrite lookup_insert_ne, bool_decide_eq_false_2 by (congruence || (intros [? _]; congruence)).
          destruct (heap !! x); reflexivity.
      - rewrite bool_decide_eq_false_2 by (intros [_ [b Hb']]; discriminate).
        destruct (heap !! x); reflexivity. }
    destruct (cancel_marks heap heap1 _ Hh1) as [_ Hok1].
    assert (Hread1 : readable heap1 ps).
    { intros x ex Hx Hex. rewrite Hh1, bool_decide_eq_false_2 in Hex by (intros [-> _]; contradiction).
      apply (Hread x ex); [right; exact Hx |]. destruct (heap !! x); exact Hex. }
    destruct (IH (match served heap p with Some b => libp2p_utils_vector_add blocks b | None => blocks end)
      heap1 (Hok1 _ Hok) Hread1) as (blocks' & heap' & f & Hl & Hi & Hh & Hf).
    exists blocks', heap', (fun x => f x || bool_decide (x = p /\ is_Some (served heap p))).
    split_and!.
    + cbn [list_loop]. rewrite Hs. exact Hl.
    + rewrite Hi. cbn [omap list_omap].
      replace (omap (served heap1) ps) with (omap (served heap) ps).
      * destruct (served heap p); [rewrite items_add, <- app_assoc |]; reflexivity.
      * apply list_omap_ext, Forall_Forall2_diag, Forall_forall. intros x Hx.
        unfold served at 2. rewrite Hh1, bool_decide_eq_false_2 by (intros [-> _]; contradiction).
        unfold served. destruct (heap !! x); reflexivity.
    + intros x. rewrite Hh, Hh1, <- option_fmap_compose. f_equal.
      destruct (f x), (bool_decide (x = p /\ is_Some (served heap p))); reflexivity.
    + intros x Hx. apply orb_true_iff in Hx as [Hx | Hx]; [right; apply Hf, Hx |].
      apply bool_decide_eq_true in Hx as [-> _]. left.
Qed.

(** What a peer asked of a request: the vectors of a request that is in order. *)
Record request_ok (heap : entry_heap) (req : PeerRequest (Peer := Peer)) : Prop := {
  ro_they : NoDup (items (pr_cids_they_want req));
  ro_we : NoDup (items (pr_cids_we_want req));
  ro_they_ok : entries_ok heap (items (pr_cids_they_want req));
  ro_we_ok : entries_ok heap (items (pr_cids_we_want req));
  ro_disjoint p : p ∈ items (pr_cids_they_want req) -> p ∉ items (pr_cids_we_want req)
}.

(** The blocks the message to the peer carries. *)
Definition blocks_to_send (heap : entry_heap) (req : PeerRequest (Peer := Peer)) : list Block :=
  items (pr_blocks_we_want_to_send req) ++ omap (served heap) (items (pr_cids_they_want req)).
Definition wants_to_send (heap : entry_heap) (req : PeerRequest (Peer := Peer)) : list CidEntry :=
  pending_at heap (items (pr_cids_we_want req)).

(** Marks on the entries the peer wants leave the entries we want. *)
Lemma marks_leave (heap heap' : entry_heap) (f : positive -> bool) (ps qs : list positive) :
  (forall p, heap' !! p = (if f p then cancelled else id) <$> heap !! p) ->
  (forall p, f p = true -> p ∈ ps) -> (forall p, p ∈ ps -> p ∉ qs) ->
  forall q, q ∈ qs -> heap' !! q = heap !! q.
Proof.
  intros Hh Hf Hd q Hq. rewrite Hh. destruct (f q) eqn:E; [destruct (Hd q (Hf q E) Hq) |].
  destruct (heap !! q); reflexivity.
Qed.

Lemma pending_at_ext (heap heap' : entry_heap) (qs : list positive) :
  (forall q, q ∈ qs -> heap' !! q = heap !! q) -> pending_at heap' qs = pending_at heap qs.
Proof.
  intros Hs. unfold pending_at. f_equal.
  apply list_omap_ext, Forall_Forall2_diag, Forall_forall. exact Hs.
Qed.

Lemma cancel_of_elem heap ps bs p : cancel_of heap ps bs p = true -> p ∈ ps.
Proof.
  unfold cancel_of. intros H. apply existsb_exists in H as (b & _ & Hb).
  apply bool_decide_eq_true in Hb. unfold find_cid in Hb. apply find_some in Hb as [Hb _].
  apply list_elem_of_In, Hb.
Qed.

(** The message a request in order is processed into. *)
Lemma process_message_eq req heap :
  request_ok heap req -> readable heap (items (pr_cids_they_want req)) ->
  Forall (fun b => cid_ok (bl_cid b)) (blocks_to_send heap req) ->
  exists m req' heap' es, process_message blockstore_get req heap = Ok (m, req', heap') /\
    message_blocks m = [] /\ message_payload m = blocks_to_send heap req /\
    bm_wantlist m = Some (MkBitswapWantlist (Some es) 1) /\
    items es = map (fun e => Some (request_of e)) (wants_to_send heap req) /\
    items (pr_blocks_we_want_to_send req') = [] /\
    pr_peer req' = pr_peer req /\ wants_to_send heap' req' = [].
Proof.
  intros [Hthey Hwe Hthey_ok Hwe_ok Hdis] Hread Hcids. unfold process_message.
  unfold ipfs_bitswap_peer_request_get_blocks_they_want. rewrite vector_loop_items.
  destruct (get_blocks_loop _ (pr_blocks_we_want_to_send req) heap Hthey Hthey_ok Hread)
    as (bs & heap1 & f & -> & Hbs & Hh1 & Hf).
  cbn [mbind cres_bind pr_blocks_we_want_to_send pr_cids_they_want pr_cids_we_want pr_peer].
  fold (blocks_to_send heap req) in Hbs.
  pose proof (marks_leave heap heap1 f _ (items (pr_cids_we_want req)) Hh1 Hf Hdis) as Hwe1.
  destruct (cancel_marks heap heap1 f Hh1) as [_ Hok1].
  assert (exists m2 bs2 heap2,
    match ipfs_bitswap_message_add_blocks (Some ipfs_bitswap_message_new) (Some bs)
        (pr_cids_they_want req) heap1 with
    | Err _ => Ok (ipfs_bitswap_message_new, bs, heap1)
    | r => r
    end = Ok (m2, bs2, heap2) /\ items bs2 = [] /\ message_blocks m2 = [] /\
    message_payload m2 = blocks_to_send heap req /\ bm_wantlist m2 = None /\
    forall q, q ∈ items (pr_cids_we_want req) -> heap2 !! q = heap !! q)
    as (m2 & bs2 & heap2 & -> & Hbs2 & Hmb & Hmp & Hmw & Hwe2).
  { destruct (decide (items bs = [])) as [Hnil | Hne].
    - exists ipfs_bitswap_message_new, bs, heap1. unfold ipfs_bitswap_message_add_blocks.
      rewrite vector_total_items, Hnil. split; [reflexivity |].
      rewrite Hnil in Hbs. rewrite <- Hbs. auto.
    - destruct (add_blocks_eq ipfs_bitswap_message_new bs (pr_cids_they_want req) heap1)
        as (m2 & bs2 & heap2 & -> & Hp & Hb & Hw & Hbl & Hh2);
        [exact Hne | apply Hok1, Hthey_ok | rewrite Hbs; exact Hcids |].
      exists m2, bs2, heap2. split; [reflexivity |]. split; [exact Hb |].
      split; [unfold message_blocks; rewrite Hbl; reflexivity |].
      split; [rewrite Hp, Hbs; reflexivity |]. split; [exact Hw |].
      intros q Hq. rewrite <- Hwe1 by exact Hq.
      apply (marks_leave heap1 heap2 _ _ (items (pr_cids_we_want req)) Hh2
        (cancel_of_elem _ _ _) Hdis q Hq). }
  cbn [mbind cres_bind pr_cids_we_want].
  destruct (add_wantlist_items_eq m2 (pr_cids_we_want req) heap2 Hwe)
    as (m & heap3 & -> & Hr & Hb3 & Hp3 & Hh3 & es & Hes).
  { unfold entries_ok in *. rewrite Forall_forall in *. intros q Hq. rewrite Hwe2 by exact Hq. auto. }
  unfold message_requests in Hr. rewrite Hmw, Hes in Hr. cbn in Hr.
  rewrite Hmw in Hes. eexists m, _, heap3, es. split; [reflexivity |].
  unfold message_blocks, message_payload in *. rewrite Hb3, Hp3.
  split_and!; [exact Hmb | exact Hmp | exact Hes | | exact Hbs2 | reflexivity |].
  - unfold wantlist_items in Hr. cbn in Hr. rewrite Hr. unfold wants_to_send.
    rewrite (pending_at_ext heap heap2) by exact Hwe2. reflexivity.
  - unfold wants_to_send. cbn [pr_cids_we_want].
    apply (pending_settled heap2 heap3 (items (pr_cids_we_want req)) Hh3). reflexivity.
Qed.

(** The message is one that encodes. *)
Definition send_room (heap : entry_heap) (req : PeerRequest (Peer := Peer)) : Z :=
  sum_over payload_need (blocks_to_send heap req) +
  sum_over (fun e => 33 + len (cid_opt_wire (ce_cid e))) (wants_to_send heap req) + 68.

Lemma pending_cid_ok heap ps e :
  entries_ok heap ps -> e ∈ pending_at heap ps -> cid_ok (ce_cid e).
Proof.
  intros Hok Hin. unfold pending_at in Hin. apply list_elem_of_In, filter_In in Hin as [Hin _].
  apply list_elem_of_In, list_elem_of_omap in Hin as (p & Hp & He).
  unfold entries_ok in Hok. rewrite Forall_forall in Hok. destruct (Hok p Hp) as (e' & He' & Hc).
  congruence.
Qed.

Lemma cid_ok_wire_len c : cid_ok c -> len (cid_opt_wire c) < 2 ^ 62.
Proof.
  destruct c as [c |]; cbn [cid_ok cid_opt_wire]; [| reflexivity]. intros [Hc _ _ Hl].
  pose proof (cid_fields_bound c Hc ltac:(lia)). lia.
Qed.

Lemma sum_over_map {A B} (f : A -> B) (g : B -> Z) l :
  sum_over g (map f l) = sum_over (fun a => g (f a)) l.
Proof. induction l as [| a l IH]; [reflexivity |]. cbn [map]. rewrite !sum_over_cons, IH. reflexivity. Qed.

Lemma process_message_wf req heap m es :
  request_ok heap req -> Forall block_wf (blocks_to_send heap req) ->
  send_room heap req < 2 ^ 62 ->
  message_blocks m = [] -> message_payload m = blocks_to_send heap req ->
  bm_wantlist m = Some (MkBitswapWantlist (Some es) 1) ->
  items es = map (fun e => Some (request_of e)) (wants_to_send heap req) ->
  message_wf m.
Proof.
  intros [_ _ _ Hok _] Hbs Hroom Hb Hp Hw Hes.
  assert (Hsum : sum_over entry_room (items es) =
    sum_over (fun e => 33 + len (cid_opt_wire (ce_cid e))) (wants_to_send heap req)).
  { rewrite Hes, sum_over_map. reflexivity. }
  assert (Hpos : 0 <= sum_over payload_need (blocks_to_send heap req)).
  { apply sum_over_nonneg. eapply Forall_impl; [exact Hbs |]. intros b Hbw.
    pose proof (block_room_range b Hbw). unfold payload_need. lia. }
  unfold send_room in Hroom. constructor.
  - rewrite Hb. constructor.
  - rewrite Hp. exact Hbs.
  - rewrite Hw. constructor; unfold wantlist_items; cbn [wl_entries wl_full opt_items];
      [discriminate | | lia | lia].
    rewrite Hes. apply Forall_forall. intros x Hx.
    apply list_elem_of_fmap in Hx as (e & -> & He). cbn.
    pose proof (cid_ok_wire_len _ (pending_cid_ok _ _ _ Hok He)).
    constructor; cbn; [reflexivity | assumption | lia |].
    apply Z.mod_pos_bound. lia.
  - unfold message_room, wantlist_room. rewrite Hb, Hp, Hw. unfold wantlist_items. cbn [wl_entries opt_items].
    rewrite Hsum. cbn [sum_over foldr]. change (sum_over data_need []) with 0. lia.
Qed.
End ProcessFacts.

(** *** What calls for a message *)

Definition awaited (heap : entry_heap) (p : positive) : bool :=
  match heap !! p with Some e => ce_cancel e =? 0 | None => false end.

Section NeedFacts.
Context {PB : Protobuf} `{!ProtobufLaws PB} {VE : Libp2pVector} `{!Libp2pVectorLaws VE}.
Context {Peer : Type}.

Lemma find_existsb {A} (f : A -> bool) l : bool_decide (is_Some (find f l)) = existsb f l.
Proof.
  induction l as [| a l IH]; [reflexivity |]. cbn [find existsb]. destruct (f a); [| exact IH].
  apply bool_decide_eq_true_2. eauto.
Qed.

Lemma cids_waiting_eq {E} cids heap :
  entries_ok heap (items cids) ->
  ipfs_bitswap_peer_request_cids_waiting (E := E) (Some cids) heap =
    Ok (existsb (awaited heap) (items cids)).
Proof.
  intros Hok. cbn [ipfs_bitswap_peer_request_cids_waiting]. rewrite vector_search_items.
  rewrite (list_search_find _ (awaited heap)).
  - cbn [mbind cres_bind]. rewrite find_existsb. reflexivity.
  - intros p Hp. unfold entries_ok in Hok. rewrite Forall_forall in Hok.
    destruct (Hok p Hp) as (e & He & _). unfold awaited. rewrite He. reflexivity.
Qed.

Definition needed (heap : entry_heap) (req : PeerRequest (Peer := Peer)) : bool :=
  bool_decide (wants_to_send heap req <> []) ||
  existsb (awaited heap) (items (pr_cids_they_want req)) ||
  negb (len (items (pr_blocks_we_want_to_send req)) =? 0).
End NeedFacts.

(** ** Receiving *)

Section ReceiveFacts.
Context {PB : Protobuf} `{!ProtobufLaws PB} {VE : Libp2pVector} `{!Libp2pVectorLaws VE}.

Lemma has_block_loop bs acc :
  Forall block_copyable bs -> Forall (fun b => bl_cid b <> None) bs ->
  exists bs', list_loop bitswap_has_block bs acc = Ok (acc ++ bs') /\
    map block_value bs' = map block_value bs /\ Forall block_copyable bs'.
Proof.
  intros Hc Hn. revert acc. induction Hc as [| b bs Hb _ IH]; intros acc.
  - exists []. rewrite app_nil_r. auto.
  - apply Forall_cons in Hn as [Hbn Hn]. destruct (block_copy_value (E := unit) b Hb Hbn) as (b' & Hcopy & Hv).
    pose proof (block_copy_copyable b b' Hb Hbn Hcopy).
    destruct (IH Hn (acc ++ [b'])) as (bs' & Hl & Hm & Hall). exists (b' :: bs').
    assert (Hs : bitswap_has_block b acc = Ok (acc ++ [b']))
      by (unfold bitswap_has_block; rewrite Hcopy; reflexivity).
    cbn [list_loop map]. rewrite Hs. cbn [mbind cres_bind].
    rewrite Hl, Hm, Hv, <- app_assoc. auto.
Qed.

(** A want for a CID. *)
Record want_of (e : WantlistEntry) (c : Cid) : Prop := {
  want_wire : entry_block e = cid_opt_wire (Some c);
  want_small : cid_small c;
  want_codec : -128 <= cid_codec c < 128;
  want_hash : cid_hash_length c <> 0
}.

Lemma cid_decoded c :
  cid_small c -> -128 <= cid_codec c < 128 ->
  exists c', ipfs_cid_protobuf_decode (cid_opt_wire (Some c)) (len (cid_opt_wire (Some c))) =
      Ok (Some c') /\ cid_value c' = cid_value c /\ cid_hash_length c' = cid_hash_length c /\
    cid_small c'.
Proof.
  intros Hs Hk. pose proof Hs as [Hc Hv Hkr Hl].
  destruct (cid_decode_fields c Hc ltac:(lia)) as (c' & Hd & E1 & E2 & E3 & E4).
  exists c'. split; [exact Hd |]. unfold cid_value. rewrite E1, E2, E3, i8_small by lia.
  split; [reflexivity |]. split; [exact E4 |]. destruct Hc as [Hcv Hck _].
  constructor; [| rewrite E1; lia | rewrite E2, i8_small by lia; lia | lia].
  constructor; [rewrite E1; lia | rewrite E2, i8_small by lia; lia |].
  pose proof (cid_digest_len c (cid_small_wf c Hs)) as Hlen. rewrite <- E3, <- E4 in Hlen.
  unfold cid_digest in Hlen. destruct (cid_hash c'); cbn in Hlen; [congruence |].
  rewrite <- Hlen. reflexivity.
Qed.

(** The entry of a want, decoded, on a queue of wants. *)
Lemma want_step e c they heap :
  want_of e c ->
  exists c', cid_value c' = cid_value c /\ cid_small c' /\
    bitswap_want (Some (entry_saved e)) (they, heap) =
      ('(_, they, heap) ← ipfs_bitswap_network_adjust_cid_queue they (Some c')
                           (negb (we_cancel e =? 0)) heap; Ok (they, heap)).
Proof.
  intros [Hw Hs Hk Hh]. destruct (cid_decoded c Hs Hk) as (c' & Hd & Hv & Hl & Hs').
  exists c'. split; [exact Hv |]. split; [exact Hs' |].
  unfold bitswap_want, entry_saved. cbn [we_block we_block_size we_cancel].
  rewrite Hw, mem_read_all. cbn [mbind cres_bind]. rewrite Hd. cbn [on_err mbind cres_bind].
  replace (cid_hash_length c' =? 0) with false by lia. reflexivity.
Qed.

Lemma want_first e c they heap :
  want_of e c -> we_cancel e = 0 -> items they = [] ->
  exists c' they', cid_value c' = cid_value c /\ cid_small c' /\
    items they' = [fresh (dom heap)] /\
    bitswap_want (Some (entry_saved e)) (they, heap) =
      Ok (they', <[fresh (dom heap) := MkCidEntry (Some c') 0 0 0]> heap).
Proof.
  intros Hw Hcan Hn. destruct (want_step e c they heap Hw) as (c' & Hv & Hs & ->).
  exists c', (libp2p_utils_vector_add they (fresh (dom heap))). split; [exact Hv |].
  split; [exact Hs |]. split; [rewrite items_add, Hn; reflexivity |].
  unfold ipfs_bitswap_network_adjust_cid_queue.
  rewrite vector_total_items, Hn, Hcan. reflexivity.
Qed.

Lemma want_other e c they heap p ce c0 :
  want_of e c -> items they = [p] -> heap !! p = Some ce -> ce_cid ce = Some c0 ->
  cid_small c0 -> cid_value c0 <> cid_value c ->
  bitswap_want (Some (entry_saved e)) (they, heap) = Undef.
Proof.
  intros Hw Hn Hp Hce Hs0 Hne. destruct (want_step e c they heap Hw) as (c' & Hv & Hs & ->).
  unfold ipfs_bitswap_network_adjust_cid_queue.
  rewrite vector_total_items, Hn, vector_get_items, Hn by lia.
  change (0 <? len [p]) with true. change ([p] !! Z.to_nat 0) with (Some p).
  cbv beta iota. rewrite Hp, Hce.
  destruct (cid_compare_flip c0 c' Hs0 Hs) as (r & -> & _ & Hz).
  replace (r =? 0) with false; [reflexivity |]. symmetry. apply Z.eqb_neq. intros E.
  apply Hne. rewrite <- Hv. apply Hz, E.
Qed.
End ReceiveFacts.

(** *** A segment with a message *)

Section SegmentFacts.
Context {PB : Protobuf} `{!ProtobufLaws PB} {VE : Libp2pVector} `{!Libp2pVectorLaws VE}.
Context {Peer : Type} (libp2p_peer_compare : option Peer -> option Peer -> Z).

Abbreviation handle := (ipfs_bitswap_network_handle_message libp2p_peer_compare).

Lemma segment_split hdr (wire : bytes) :
  byte_of 10 ∉ hdr ->
  let data := hdr ++ byte_of 10 :: wire in
  strchr (btake (len data) data) (byte_of 10) = Some (length hdr) /\
  bdrop (Z.of_nat (length hdr) + 1) data = wire /\
  (len data < 2 ^ 64 -> size_sub (len data) (Z.of_nat (length hdr) + 1) = len wire).
Proof.
  intros Hh data. split; [| split].
  - rewrite btake_all by reflexivity. apply strchr_app, Hh.
  - subst data. replace (hdr ++ byte_of 10 :: wire) with ((hdr ++ [byte_of 10]) ++ wire)
      by (rewrite <- app_assoc; reflexivity).
    fold (len hdr). replace (len hdr + 1) with (len (hdr ++ [byte_of 10])) by len_lia.
    apply bdrop_app_len.
  - intros Hl. fold (len hdr). subst data. rewrite len_app, len_cons in *.
    pose proof (len_nonneg hdr). pose proof (len_nonneg wire).
    rewrite size_sub_small by lia. lia.
Qed.

(** The wants of a message that arrived, put in the request of its sender. *)
Definition receive_wants (q : PeerRequestQueue (Peer := Peer)) (fuel : nat) (remote : option Peer)
  (blocks : list Block) (es : list (option WantlistEntry))
  : cres unit (Z * list Block * PeerRequestQueue) :=
  match es with
  | [] => Ok (1, blocks, q)
  | _ =>
      match remote with
      | None => Ok (0, blocks, q)
      | Some _ =>
          '(r, q) ← ipfs_peer_request_queue_find_peer libp2p_peer_compare q fuel remote;
          match q_requests q !! r with
          | None => Undef
          | Some req =>
              let store s := MkPeerRequestQueue (q_entries q)
                    (<[r := set_they_want s.1 req]> (q_requests q)) s.2 (q_first q) (q_last q) in
              match list_loop bitswap_want es (pr_cids_they_want req, q_cids q) with
              | Ok s => Ok (1, blocks, store s)
              | Err s => Ok (0, blocks, store s)
              | Undef => Undef
              | NoFuel => NoFuel
              end
          end
      end
  end.

(** Handling a segment whose message decodes: the blocks go to the exchange,
    then the wants to the queue. *)
Lemma handle_segment hdr m junk q fuel remote :
  byte_of 10 ∉ hdr -> message_wf m -> message_fields m <> [] ->
  len hdr + 1 + len (message_wire m) < 2 ^ 64 ->
  Forall (fun b => bl_cid b <> None) (message_payload m) ->
  let data := hdr ++ byte_of 10 :: message_wire m in
  exists blocks, map block_value blocks = map block_value (message_payload m) /\ Forall block_copyable blocks /\
    handle q fuel remote data (len data) junk =
      receive_wants q fuel remote blocks (map (fmap entry_saved) (message_requests m)).
Proof.
  intros Hh Hm Hne Hlen Hcids data.
  destruct (segment_split hdr (message_wire m) Hh) as (Hs & Hd & Hsz). fold data in Hs, Hd, Hsz.
  assert (Hsize : size_sub (len data) (Z.of_nat (length hdr) + 1) = len (message_wire m)).
  { apply Hsz. subst data. rewrite len_app, len_cons. lia. }
  destruct (message_decode_loaded m junk Hm Hne) as (m' & Hdec & Hv & Hcopy & Hreq).
  unfold message_value in Hv. injection Hv as _ Hp Hw.
  destruct (has_block_loop (message_payload m') [] Hcopy) as (blocks & Hloop & Hvals & Hall).
  { apply Forall_forall. intros b Hin. rewrite Forall_forall in Hcids.
    assert (block_value b ∈ map block_value (message_payload m)) as Hb.
    { rewrite <- Hp. apply list_elem_of_fmap. eauto. }
    apply list_elem_of_fmap in Hb as (b0 & Hb & Hin0). apply Hcids in Hin0.
    intros Hn. apply (f_equal fst) in Hb. unfold block_value in Hb. rewrite Hn in Hb.
    destruct (bl_cid b0); [discriminate | contradiction]. }
  exists blocks. split; [rewrite Hvals, Hp; reflexivity |]. split; [exact Hall |].
  unfold ipfs_bitswap_network_handle_message. rewrite Hs, Hd, Hsize, Hdec, loop_over_items.
  fold (message_payload m'). rewrite Hloop. cbn [mbind cres_bind app].
  unfold message_requests, receive_wants.
  destruct (bm_wantlist m) as [l |], (bm_wantlist m') as [l' |]; try contradiction; [| reflexivity].
  cbn [mbind option_bind]. rewrite <- Hreq. unfold wantlist_items.
  destruct (wl_entries l') as [es |]; [| reflexivity]. cbn [opt_items].
  rewrite vector_total_items. destruct (items es) as [| e es'] eqn:Hes; [reflexivity |]. rewrite len_cons.
  pose proof (len_nonneg es'). replace (1 + len es' <=? 0) with false by lia.
  destruct remote as [peer |]; [| reflexivity].
  destruct (ipfs_peer_request_queue_find_peer _ _ _ _) as [[r q'] | | |]; [| reflexivity ..].
  cbn [mbind cres_bind]. destruct (q_requests q' !! r); [| reflexivity].
  rewrite vector_loop_items, Hes. reflexivity.
Qed.

(** A want put in the request [r] of its sender. *)
Definition with_want (q : PeerRequestQueue (Peer := Peer)) (r : positive) (req : PeerRequest)
  (they : vector positive) (c : Cid) : PeerRequestQueue :=
  MkPeerRequestQueue (q_entries q) (<[r := set_they_want they req]> (q_requests q))
    (<[fresh (dom (q_cids q)) := MkCidEntry (Some c) 0 0 0]> (q_cids q)) (q_first q) (q_last q).
Lemma receive_one_want q l remote p0 e0 r req blocks e c :
  queue_list q l -> find (is_for libp2p_peer_compare q (Some remote)) l = Some p0 ->
  entry_request q p0 = Some (e0, r, req) -> items (pr_cids_they_want req) = [] ->
  want_of e c -> we_cancel e = 0 ->
  exists they c', receive_wants q (queue_fuel q) (Some remote) blocks [Some (entry_saved e)] =
      Ok (1, blocks, with_want q r req they c') /\
    items they = [fresh (dom (q_cids q))] /\ cid_value c' = cid_value c /\ cid_small c'.
Proof.
  intros Hq Hfind He Hthey Hwant Hcancel. unfold receive_wants.
  rewrite (find_peer_known _ q l (Some remote) p0 e0 r req Hq Hfind He). cbn [mbind cres_bind].
  destruct (entry_request_inv _ _ _ _ _ He) as (_ & _ & Hreq). rewrite Hreq.
  destruct (want_first e c (pr_cids_they_want req) (q_cids q) Hwant Hcancel Hthey)
    as (c' & they' & Hv & Hs & Hthey' & Hstep).
  cbn [list_loop]. rewrite Hstep. exists they', c'. split; [reflexivity |]. auto.
Qed.
End SegmentFacts.

(** ** The properties of this file *)

Section Properties.
Context {PB : Protobuf} `{!ProtobufLaws PB} {VE : Libp2pVector} `{!Libp2pVectorLaws VE}.
Context {Peer : Type} (libp2p_peer_compare : option Peer -> option Peer -> Z).
Context (is_local is_connected has_address connect reachable : Peer -> bool).
Context (write : Peer -> bytes -> Z) (blockstore_get : option Cid -> cres unit (option Block)).

(** Processing a request there is something to do for: the message behind the header. *)
Lemma process_entry_sends req peer heap :
  request_ok heap req -> readable blockstore_get heap (items (pr_cids_they_want req)) -> pr_peer req = Some peer ->
  Forall block_wf (blocks_to_send blockstore_get heap req) ->
  Forall (fun b => cid_ok (bl_cid b)) (blocks_to_send blockstore_get heap req) ->
  send_room blockstore_get heap req < 2 ^ 62 ->
  is_local peer || is_connected peer || (has_address peer && connect peer) = true ->
  reachable peer = true ->
  let out := ipfs_bitswap_peer_request_process_entry is_local is_connected has_address connect
               reachable write blockstore_get (Some req) heap in
  if needed heap req then
    exists m req' heap' es, let data := bitswap_header ++ message_wire m in
      out = Ok (if write peer data <=? 0 then 0 else 1, Some data, Some req', heap') /\ message_wf m /\
      message_blocks m = [] /\ message_payload m = blocks_to_send blockstore_get heap req /\
      bm_wantlist m = Some (MkBitswapWantlist (Some es) 1) /\
      items es = map (fun e => Some (request_of e)) (wants_to_send heap req) /\
      items (pr_blocks_we_want_to_send req') = [] /\ wants_to_send heap' req' = []
  else out = Ok (0, None, Some req, heap).
Proof.
  intros Hok Hread Hpeer Hbs Hcids Hroom Hconn Hreach out. subst out.
  unfold ipfs_bitswap_peer_request_process_entry. rewrite Hpeer.
  replace (negb (is_local peer) && negb (is_connected peer) && negb (has_address peer)) with false
    by (destruct (is_local peer), (is_connected peer), (has_address peer); cbn in *; congruence).
  rewrite we_want_pending by apply Hok. cbn [mbind cres_bind].
  rewrite cids_waiting_eq by apply Hok. cbn [mbind cres_bind].
  rewrite vector_total_items. fold (wants_to_send heap req).
  assert (Hc : is_local peer || is_connected peer || connect peer = true)
    by (destruct (is_local peer), (is_connected peer), (has_address peer), (connect peer); cbn in *; congruence).
  unfold needed. rewrite Hc.
  destruct (bool_decide (wants_to_send heap req <> []) ||
            existsb (awaited heap) (items (pr_cids_they_want req)) ||
            negb (len (items (pr_blocks_we_want_to_send req)) =? 0)) eqn:Hneed.
  - assert (forall (f : bool -> cres unit (Z * option bytes * option (PeerRequest (Peer := Peer)) * entry_heap)),
      (need ← (if bool_decide (wants_to_send heap req <> []) then Ok true
        else if existsb (awaited heap) (items (pr_cids_they_want req)) then Ok true
        else Ok (negb (len (items (pr_blocks_we_want_to_send req)) =? 0))); f need) = f true) as Hn.
    { intros f. destruct (bool_decide _), (existsb _ _), (negb _); reflexivity || discriminate. }
    rewrite Hn. cbn [andb]. clear Hn.
    destruct (process_message_eq blockstore_get req heap Hok Hread Hcids)
      as (m & req' & heap' & es & -> & Hmb & Hmp & Hmw & Hes & Hq & Hpr & Hwants).
    pose proof (process_message_wf blockstore_get req heap m es Hok Hbs Hroom Hmb Hmp Hmw Hes) as Hm.
    exists m, req', heap', es. split_and!; auto.
    cbn [mbind cres_bind]. unfold ipfs_bitswap_network_send_message. rewrite Hreach. cbn [negb].
    rewrite message_size by exact Hm. cbn [mbind cres_bind].
    rewrite message_encode_fields by (exact Hm || apply message_wire_bound, Hm || (destruct Hm; lia)).
    cbn [mbind cres_bind]. destruct (write peer _ <=? 0); reflexivity.
  - apply orb_false_iff in Hneed as [Hneed H3]. apply orb_false_iff in Hneed as [H1 H2].
    rewrite H1, H2, H3. reflexivity.
Qed.

(** Processing the request of a peer that can be reached. With nothing to
    send and nothing wanted on either side, nothing happens. Otherwise one message
    is written behind the protocol's header; decoded, it carries the blocks
    queued for the peer and those it wants that the node has, and asks for
    exactly the CIDs wanted that were not asked for yet; the queue of blocks is
    then empty and nothing is left to ask for. The verdict is that of the write. *)
Theorem process_entry_spec req peer heap junk :
  request_ok heap req -> readable blockstore_get heap (items (pr_cids_they_want req)) -> pr_peer req = Some peer ->
  Forall block_wf (blocks_to_send blockstore_get heap req) ->
  Forall (fun b => cid_ok (bl_cid b)) (blocks_to_send blockstore_get heap req) ->
  send_room blockstore_get heap req < 2 ^ 62 ->
  is_local peer || is_connected peer || (has_address peer && connect peer) = true ->
  reachable peer = true ->
  let out := ipfs_bitswap_peer_request_process_entry is_local is_connected has_address connect
               reachable write blockstore_get (Some req) heap in
  if needed heap req then
    exists w req' heap' o,
      out = Ok (if write peer (bitswap_header ++ w) <=? 0 then 0 else 1,
                Some (bitswap_header ++ w), Some req', heap') /\
      ipfs_bitswap_message_protobuf_decode w (len w) junk = Ok o /\
      message_value o =
        ([], map block_value (blocks_to_send blockstore_get heap req),
         Some (map (fun e => Some (entry_value (request_of e))) (wants_to_send heap req), 1)) /\
      items (pr_blocks_we_want_to_send req') = [] /\ wants_to_send heap' req' = []
  else out = Ok (0, None, Some req, heap).
Proof.
  intros Hok Hread Hpeer Hbs Hcids Hroom Hconn Hreach out.
  pose proof (process_entry_sends req peer heap Hok Hread Hpeer Hbs Hcids Hroom Hconn Hreach) as Hrun.
  cbv zeta in Hrun. fold out in Hrun. destruct (needed heap req); [| exact Hrun].
  destruct Hrun as (m & req' & heap' & es & Hrun & Hm & Hmb & Hmp & Hmw & Hes & Hq & Hwants).
  destruct (message_decode_wire m junk Hm) as (o & Hd & Hv).
  exists (message_wire m), req', heap', o. split_and!; auto.
  rewrite Hv. unfold message_value. rewrite Hmb, Hmp, Hmw. cbn. unfold wantlist_value, wantlist_items.
  cbn. rewrite Hes, map_map. reflexivity.
Qed.

(** Receiving a segment. A header line without a message is undefined. The
    blocks of a message are passed on in order; a message without wants changes
    no queue; a first want is put in the empty queue of its sender; with a
    second want for another CID, receiving the message is undefined. *)
Theorem bitswap_receive_spec hdr m junk q l remote p0 e0 r req :
  byte_of 10 ∉ hdr -> message_wf m -> message_fields m <> [] ->
  len hdr + 1 + len (message_wire m) < 2 ^ 64 ->
  Forall (fun b => bl_cid b <> None) (message_payload m) ->
  queue_list q l -> find (is_for libp2p_peer_compare q (Some remote)) l = Some p0 ->
  entry_request q p0 = Some (e0, r, req) -> items (pr_cids_they_want req) = [] ->
  let handle wire := let data := hdr ++ byte_of 10 :: wire in
    ipfs_bitswap_network_handle_message libp2p_peer_compare q (queue_fuel q) (Some remote) data
      (len data) junk in
  handle [] = Undef /\
  match message_requests m with
  | [] => exists blocks, handle (message_wire m) = Ok (1, blocks, q) /\
      map block_value blocks = map block_value (message_payload m)
  | Some e :: rest => forall c, want_of e c -> we_cancel e = 0 ->
      match rest with
      | [] => exists blocks q' req' p c', handle (message_wire m) = Ok (1, blocks, q') /\
          map block_value blocks = map block_value (message_payload m) /\
          q_requests q' !! r = Some req' /\ items (pr_cids_they_want req') = [p] /\
          q_cids q' !! p = Some (MkCidEntry (Some c') 0 0 0) /\ cid_value c' = cid_value c
      | Some e2 :: _ => forall c2, want_of e2 c2 -> cid_value c <> cid_value c2 ->
          handle (message_wire m) = Undef
      | None :: _ => True
      end
  | None :: _ => True
  end.
Proof.
  intros Hh Hm Hne Hlen Hcids Hq Hfind He Hthey handle. split.
  { subst handle. cbv beta zeta. destruct (segment_split hdr [] Hh) as (Hs & Hd & Hsz).
    unfold ipfs_bitswap_network_handle_message. rewrite Hs, Hd, Hsz; [reflexivity |].
    rewrite len_app, len_cons. len_nils. pose proof (len_nonneg (message_wire m)). lia. }
  destruct (handle_segment libp2p_peer_compare hdr m junk q (queue_fuel q) (Some remote)
    Hh Hm Hne Hlen Hcids) as (blocks & Hblocks & _ & Hhandle).
  fold (handle (message_wire m)) in Hhandle.
  destruct (message_requests m) as [| [e |] rest].
  - exists blocks. split; [exact Hhandle | exact Hblocks].
  - intros c Hwant Hcancel. cbn [map fmap option_fmap option_map] in Hhandle.
    destruct rest as [| [e2 |] rest]; [| | exact I].
    + destruct (receive_one_want libp2p_peer_compare q l remote p0 e0 r req blocks e c Hq Hfind He Hthey Hwant Hcancel)
        as (they' & c' & Hrun & Hthey' & Hv & _). cbn [map] in Hhandle. rewrite Hrun in Hhandle.
      exists blocks, (with_want q r req they' c'), (set_they_want they' req), (fresh (dom (q_cids q))), c'.
      split; [exact Hhandle |]. split; [exact Hblocks |].
      split; [cbn; apply lookup_insert_eq |]. split; [exact Hthey' |].
      split; [cbn; apply lookup_insert_eq | exact Hv].
    + intros c2 Hwant2 Hdiff. unfold receive_wants in Hhandle.
      rewrite (find_peer_known _ q l (Some remote) p0 e0 r req Hq Hfind He) in Hhandle.
      cbn [mbind cres_bind] in Hhandle.
      destruct (entry_request_inv _ _ _ _ _ He) as (_ & _ & Hreq). rewrite Hreq in Hhandle.
      destruct (want_first e c (pr_cids_they_want req) (q_cids q) Hwant Hcancel Hthey)
        as (c' & they' & Hv & Hs & Hthey' & Hstep).
      cbn [list_loop] in Hhandle. rewrite Hstep in Hhandle. cbn [mbind cres_bind] in Hhandle.
      rewrite Hhandle. cbn [map fmap option_fmap option_map list_loop].
      erewrite (want_other e2 c2 they' _ _ _ c' Hwant2 Hthey');
        [reflexivity | apply lookup_insert_eq | reflexivity | exact Hs | congruence].
  - exact I.
Qed.
End Properties.

(** * Concrete runs *)

Definition sample_entries_heap : entry_heap :=
  {[ 1%positive := MkCidEntry (Some sample_cid) 0 0 0;
     3%positive := MkCidEntry (Some sample_cid) 0 0 0 ]}.
Definition sample_peer_request : PeerRequest (VE := list_vector) (Peer := Z) :=
  MkPeerRequest (VE := list_vector) (Some 10) [1%positive] [3%positive] ([] : list Block).

Lemma sample_request_ok : request_ok sample_entries_heap sample_peer_request.
Proof.
  constructor.
  - apply (bool_decide_unpack _). vm_compute. exact I.
  - apply (bool_decide_unpack _). vm_compute. exact I.
  - repeat constructor. eexists. split; [reflexivity | exact sample_cid_small].
  - repeat constructor. eexists. split; [reflexivity | exact sample_cid_small].
  - intros p Hp. apply list_elem_of_singleton in Hp as ->. apply (bool_decide_unpack _).
    vm_compute. exact I.
Qed.

Lemma process_entry_spec_witness :
  exists w req' heap' o,
    ipfs_bitswap_peer_request_process_entry (fun _ => true) (fun _ => false) (fun _ => false)
      (fun _ => false) (fun _ => true) (fun _ data => len data) (fun _ => Ok (Some sample_block))
      (Some sample_peer_request) sample_entries_heap =
      Ok (1, Some (bitswap_header ++ w), Some req', heap') /\
    ipfs_bitswap_message_protobuf_decode w (len w) sample_entry = Ok o /\
    (message_value o).1.2 = [block_value sample_block].
Proof.
  destruct (process_entry_spec (fun _ => true) (fun _ => false) (fun _ => false) (fun _ => false)
    (fun _ => true) (fun _ data => len data) (fun _ => Ok (Some sample_block)) sample_peer_request 10
    sample_entries_heap sample_entry) as (w & req' & heap' & o & Hrun & Hd & Hv & _).
  - exact sample_request_ok.
  - intros p e _ _ _. exists (Some sample_block). reflexivity.
  - reflexivity.
  - apply Forall_cons. split; [exact sample_block_wf | constructor].
  - apply Forall_cons. split; [exact sample_cid_small | constructor].
  - vm_compute. reflexivity.
  - reflexivity.
  - reflexivity.
  - exists w, req', heap', o. rewrite Hrun. split; [| split; [exact Hd | rewrite Hv; reflexivity]].
    pose proof (len_nonneg w). rewrite len_app. change (len bitswap_header) with 20.
    replace (20 + len w <=? 0) with false by lia. reflexivity.
Defined.

Definition sample_want : WantlistEntry :=
  MkWantlistEntry (Some (cid_opt_wire (Some sample_cid))) (len (cid_opt_wire (Some sample_cid))) 1 0.
Definition sample_want_message : BitswapMessage :=
  MkBitswapMessage (Some (MkBitswapWantlist (Some ([Some sample_want] : @vector list_vector _)) 1))
    None (Some ([sample_block] : @vector list_vector _)).

Lemma sample_want_message_wf : message_wf sample_want_message.
Proof.
  constructor; [constructor | | | vm_compute; reflexivity].
  - constructor; [exact sample_block_wf | constructor].
  - constructor; [discriminate | | split; [discriminate | reflexivity] | vm_compute; reflexivity].
    repeat constructor; vm_compute; discriminate.
Qed.

Lemma bitswap_receive_spec_witness :
  exists blocks q', ipfs_bitswap_network_handle_message compare_numbers sample_queue 3 (Some 20)
      (str "/ipfs/bitswap/1.1.0" ++ byte_of 10 :: message_wire sample_want_message)
      (len (str "/ipfs/bitswap/1.1.0" ++ byte_of 10 :: message_wire sample_want_message)) sample_entry =
      Ok (1, blocks, q') /\ length blocks = 1%nat.
Proof.
  destruct (bitswap_receive_spec compare_numbers (str "/ipfs/bitswap/1.1.0") sample_want_message
    sample_entry sample_queue [1%positive; 2%positive] 20 2%positive
    (MkPeerRequestEntry (Some 1%positive) (Some 2%positive) None) 2%positive (sample_request 20 []))
    as [_ Hwant].
  - apply (bool_decide_unpack _). vm_compute. exact I.
  - exact sample_want_message_wf.
  - discriminate.
  - vm_compute. reflexivity.
  - constructor; [discriminate | constructor].
  - exact sample_queue_list.
  - reflexivity.
  - reflexivity.
  - reflexivity.
  - destruct (Hwant sample_cid) as (blocks & q' & _ & _ & _ & Hrun & Hb & _).
    + constructor; [reflexivity | exact sample_cid_small | split; vm_compute; congruence | discriminate].
    + reflexivity.
    + exists blocks, q'. split; [exact Hrun |]. apply (f_equal length) in Hb.
      rewrite !length_map in Hb. exact Hb.
Defined.
