(* ===== verification/Storage.v ===== *)
(** What the repository code stores into: the files it reads and writes through
    stdio, and the datastore behind the function pointers of [struct Datastore]
    (include/libp2p/db/datastore.h of a submodule), as an interface. Code that
    changes them runs in the monad [io]. *)

From S2P Require Import Prelude Libc.

(** ** Files *)

(** [fs_writable p]: a file may be created at [p]; [fs_room]: how many bytes a
    file can take. *)
Record FS := MkFS {
  fs_files : gmap bytes bytes;
  fs_writable : bytes -> bool;
  fs_room : Z
}.

(** [fopen(path, "wb")], one [fwrite] of the data, [fclose]: [None] when the
    file cannot be opened, else the count [fwrite] returns. *)
Definition write_file (fs : FS) (path data : bytes) : option (Z * FS) :=
  if fs_writable fs path then
    let written := btake (Z.min (len data) (fs_room fs)) data in
    Some (len written,
          MkFS (<[path := written]> (fs_files fs)) (fs_writable fs) (fs_room fs))
  else None.

(** [fopen(path, "rb")], one [fread] of at most [n] bytes, [fclose]. *)
Definition read_file (fs : FS) (path : bytes) (n : Z) : option bytes :=
  btake n <$> fs_files fs !! path.

(** Path and size functions of the libp2p os utilities. *)
Class OsUtils := {
  os_utils_filepath_join : bytes -> bytes -> Z -> option bytes;
  os_utils_file_size : gmap bytes bytes -> bytes -> Z
}.
Class OsUtilsLaws (OS : OsUtils) := {
  filepath_join_room a b n :
    len a + len b + 2 <= n -> exists s, os_utils_filepath_join a b n = Some s;
  filepath_join_text a b n s :
    os_utils_filepath_join a b n = Some s -> cstring a -> cstring b -> cstring s;
  (* a file name without a slash is recovered from the joined path *)
  filepath_join_inj a a' b b' n m s :
    byte_of 47 ∉ b -> byte_of 47 ∉ b' ->
    os_utils_filepath_join a b n = Some s -> os_utils_filepath_join a' b' m = Some s -> b = b';
  filepath_join_len a b n s : os_utils_filepath_join a b n = Some s -> len s <= len a + len b + 1;
  file_size_exists files path data :
    files !! path = Some data -> os_utils_file_size files path = len data
}.

(** ** The datastore *)

Record DatastoreRecord := MkRecord {
  rec_key : bytes;
  rec_value : bytes;
  rec_timestamp : Z
}.

Class Datastore := {
  ds_state : Type;
  datastore_put : DatastoreRecord -> ds_state -> bool * ds_state;
  datastore_get : bytes -> ds_state -> option DatastoreRecord
}.
(** A record the program writes: its time is left to the store, and its parts fit
    what the database takes. *)
Definition record_fits (r : DatastoreRecord) : Prop :=
  0 < len (rec_key r) <= 500 /\ len (rec_value r) <= 500 /\ rec_timestamp r = 0.

(** [ds_ready]: the store takes records. Under the key of a record put a record
    is found (an earlier one or this one), and the value of this one when there was
    none; the others stay. *)
Class DatastoreLaws (DS : Datastore) := {
  ds_ready : ds_state -> Prop;
  datastore_put_ready r s :
    ds_ready s -> record_fits r -> exists s', datastore_put r s = (true, s') /\ ds_ready s';
  datastore_get_put r s s' :
    ds_ready s -> record_fits r -> datastore_put r s = (true, s') ->
    is_Some (datastore_get (rec_key r) s');
  datastore_get_fresh r s s' :
    ds_ready s -> record_fits r -> datastore_get (rec_key r) s = None ->
    datastore_put r s = (true, s') ->
    exists r', datastore_get (rec_key r) s' = Some r' /\ rec_value r' = rec_value r;
  datastore_get_other r s b s' k :
    ds_ready s -> record_fits r -> datastore_put r s = (b, s') -> k <> rec_key r -> datastore_get k s' = datastore_get k s
}.

(** ** The state and its monad *)

Section World.
Context {DS : Datastore}.

Record World := MkWorld { w_fs : FS; w_ds : ds_state }.

(** A computation on the state that may fail. *)
Definition io (E A : Type) : Type := World -> cres E A * World.

#[global] Instance io_ret {E} : MRet (io E) := fun A a w => (Ok a, w).
#[global] Instance io_bind {E} : MBind (io E) := fun A B f m w =>
  match m w with
  | (Ok a, w) => f a w
  | (Err e, w) => (Err e, w)
  | (Undef, w) => (Undef, w)
  | (NoFuel, w) => (NoFuel, w)
  end.

Definition lift {E A} (m : cres E A) : io E A := fun w => (m, w).
(** A computation that only looks at the state. *)
Definition look {E A} (f : World -> cres E A) : io E A := fun w => (f w, w).
Definition fail {E A} (e : E) : io E A := lift (Err e).
(** The outcome of a computation, the error as a value. *)
Definition attempt {E E' A} (m : io E A) : io E' (A + E) := fun w =>
  match m w with
  | (Ok a, w) => (Ok (inl a), w)
  | (Err e, w) => (Ok (inr e), w)
  | (Undef, w) => (Undef, w)
  | (NoFuel, w) => (NoFuel, w)
  end.

(** The three stdio calls that write a file; a failed [fopen] is not looked at
    by any of the callers. *)
Definition put_file {E} (path data : bytes) : io E Z := fun w =>
  match write_file (w_fs w) path data with
  | Some (n, fs) => (Ok n, MkWorld fs (w_ds w))
  | None => (Undef, w)
  end.

Definition put_record {E} (r : DatastoreRecord) : io E bool := fun w =>
  let '(b, s) := datastore_put r (w_ds w) in (Ok b, MkWorld (w_fs w) s).

Lemma io_bind_ok {E A B} (m : io E A) (f : A -> io E B) w a w' :
  m w = (Ok a, w') -> (m ≫= f) w = f a w'.
Proof. intros H. unfold mbind, io_bind. rewrite H. reflexivity. Qed.
End World.

(** ** A concrete instance *)

#[export] Instance ref_os_utils : OsUtils := {
  os_utils_filepath_join a b n :=
    let s := a ++ byte_of 47 :: b in if len s <? n then Some s else None;
  os_utils_file_size files path := match files !! path with Some d => len d | None => 0 end
}.
#[export] Instance ref_os_utils_laws : OsUtilsLaws ref_os_utils.
Proof.
  constructor; cbn.
  - intros a b n H. rewrite len_app, len_cons.
    replace (len a + (1 + len b) <? n) with true by lia. eauto.
  - intros a b n s H Ha Hb. case_match; simplify_eq.
    apply cstring_app. split; [assumption |]. unfold cstring in *.
    apply not_elem_of_cons. split; [discriminate | assumption].
  - intros a a' b b' n m s Hb Hb' H1 H2. repeat case_match; simplify_eq.
    match goal with E : _ ++ _ = _ ++ _ |- _ => rename E into H2 end.
    apply (f_equal reverse) in H2. rewrite !reverse_app, !reverse_cons, <- !app_assoc in H2. cbn in H2.
    rewrite <- (reverse_involutive b), <- (reverse_involutive b'). f_equal.
    rewrite <- elem_of_reverse in Hb, Hb'. revert Hb Hb' H2.
    generalize (reverse b) (reverse b') (reverse a) (reverse a'). clear. intros x y u v.
    revert y. induction x as [| c x IH]; intros [| d y] Hx Hy E; cbn in E; simplify_eq.
    + reflexivity.
    + destruct Hy. left.
    + destruct Hx. left.
    + f_equal. apply not_elem_of_cons in Hx as [_ Hx]. apply not_elem_of_cons in Hy as [_ Hy]. eauto.
  - intros a b n s H. case_match; simplify_eq. rewrite len_app, len_cons. lia.
  - intros files path data H. rewrite H. reflexivity.
Qed.

#[export] Instance ref_datastore : Datastore := {
  ds_state := gmap bytes DatastoreRecord;
  datastore_put r s := (true, <[rec_key r := r]> s);
  datastore_get k s := s !! k
}.
#[export] Instance ref_datastore_laws : DatastoreLaws ref_datastore.
Proof.
  refine {| ds_ready := fun _ => True |}; cbn.
  - eauto.
  - intros r s s' _ _ [= <-]. rewrite lookup_insert_eq. eauto.
  - intros r s s' _ _ _ [= <-]. rewrite lookup_insert_eq. eauto.
  - intros r s b s' k _ _ [= _ <-] Hk. apply lookup_insert_ne. congruence.
Defined.

(** ** Output streams *)

(** A stream opened for writing: what was written, and how much more it takes. *)
Record stream := MkStream { st_data : bytes; st_room : Z }.

(** [fwrite(data, 1, len data, file)]: the count returned. *)
Definition fwrite (data : bytes) (s : stream) : Z * stream :=
  let d := btake (Z.min (len data) (st_room s)) data in
  (len d, MkStream (st_data s ++ d) (st_room s - len d)).

Lemma fwrite_ok data s :
  len data <= st_room s ->
  fwrite data s = (len data, MkStream (st_data s ++ data) (st_room s - len data)).
Proof.
  intros H. unfold fwrite. rewrite Z.min_l, btake_all by lia. reflexivity.
Qed.
