(* ===== verification/Freeing.v ===== *)
(** What the program's structures own and what freeing them releases: blocks and CIDs (cid/, blocks/), the
    messages, lists and queues of bitswap (exchange/bitswap/), the journal's messages and records (journal/,
    repo/fsrepo/lmdb_journalstore.c), API requests (core/http_request.c), links (merkledag/node.c), paths
    (path/path.c) and the configuration (repo/config/). *)

From S2P Require Import Prelude Storage.

(** ** Memory *)

(** The addresses that are allocated; what is not allocated cannot be released. *)
Abbreviation heap := (gset positive).
Definition release_at (p : positive) (h : heap) : cres unit heap :=
  if decide (p ∈ h) then Ok (h ∖ {[p]}) else Undef.
Fixpoint release_all (l : list positive) (h : heap) : cres unit heap :=
  match l with
  | [] => Ok h
  | p :: l => h ← release_at p h; release_all l h
  end.

Lemma release_all_app l k h : release_all (l ++ k) h = (h ← release_all l h; release_all k h).
Proof.
  revert h. induction l as [| p l IH]; intros h; [reflexivity |]. cbn [release_all app].
  destruct (release_at p h); [apply IH | reflexivity ..].
Qed.
(** Releasing is defined exactly when each address is allocated and comes once. *)
Definition owned (l : list positive) (h : heap) : Prop := NoDup l /\ list_to_set l ⊆ h.
#[export] Instance owned_dec l h : Decision (owned l h).
Proof. unfold owned. apply _. Defined.
Lemma release_all_spec l h :
  release_all l h = if decide (owned l h) then Ok (h ∖ list_to_set l) else Undef.
Proof.
  revert h. induction l as [| p l IH]; intros h; cbn [release_all list_to_set].
  - rewrite decide_True by (split; [constructor | set_solver]). f_equal. set_solver.
  - unfold release_at. destruct (decide (p ∈ h)) as [Hp | Hp]; cbn [mbind cres_bind].
    + rewrite IH. destruct (decide (owned l (h ∖ {[p]}))) as [[Hn Hs] | Hno].
      * rewrite decide_True by (split; [constructor; [intros Hin; set_solver | exact Hn] | set_solver]). f_equal. set_solver.
      * rewrite decide_False; [reflexivity |]. intros [Hn Hs]. apply NoDup_cons in Hn as [Hnin Hn]. apply Hno.
        split; [exact Hn |]. intros q Hq. set_solver.
    + rewrite decide_False; [reflexivity |]. intros [_ Hs]. set_solver.
Qed.

(** A structure that can be freed: what it owns, and that this is what freeing it releases, in some order. *)
Class Freed (A : Type) := {
  pieces : A -> list positive;
  destroy : A -> heap -> cres unit heap;
  destroy_pieces a h : destroy a h = release_all (pieces a) h
}.
Lemma destroy_spec `{Freed A} a h :
  destroy a h = if decide (owned (pieces a) h) then Ok (h ∖ list_to_set (pieces a)) else Undef.
Proof. rewrite destroy_pieces. apply release_all_spec. Qed.

(** A pointer, which may be NULL. *)
Definition free_if (p : option positive) (h : heap) : cres unit heap :=
  match p with Some p => release_at p h | None => Ok h end.
Definition pointer (p : option positive) : list positive := match p with Some p => [p] | None => [] end.
Lemma free_if_pieces p h : free_if p h = release_all (pointer p) h.
Proof. destruct p as [p |]; [cbn; by destruct (release_at p h) | reflexivity]. Qed.
Definition free_opt {A} (f : A -> heap -> cres unit heap) (a : option A) (h : heap) : cres unit heap :=
  match a with Some a => f a h | None => Ok h end.
Definition opt_pieces {A} (f : A -> list positive) (a : option A) : list positive :=
  match a with Some a => f a | None => [] end.
Lemma free_opt_pieces `{Freed A} (a : option A) h : free_opt destroy a h = release_all (opt_pieces pieces a) h.
Proof. destruct a; [apply destroy_pieces | reflexivity]. Qed.

(** A vector: its items are freed one by one, then the vector itself. *)
Record VectorAt (A : Type) := MkVectorAt { v_at : positive; v_items : list A }.
Arguments MkVectorAt {A}. Arguments v_at {A}. Arguments v_items {A}.
Fixpoint free_items {A} (f : A -> heap -> cres unit heap) (l : list A) (h : heap) : cres unit heap :=
  match l with
  | [] => Ok h
  | a :: l => h ← f a h; free_items f l h
  end.
Definition free_vector {A} (f : A -> heap -> cres unit heap) (v : VectorAt A) (h : heap) : cres unit heap :=
  h ← free_items f (v_items v) h; release_at (v_at v) h.
Lemma free_items_pieces `{Freed A} l h : free_items destroy l h = release_all (concat (map pieces l)) h.
Proof.
  revert h. induction l as [| a l IH]; intros h; [reflexivity |]. cbn [free_items map concat].
  rewrite release_all_app, destroy_pieces. destruct (release_all (pieces a) h); [apply IH | reflexivity ..].
Qed.
Lemma release_one p h : release_at p h = release_all [p] h.
Proof. cbn. by destruct (release_at p h). Qed.
#[export, refine] Instance vector_freed `{Freed A} : Freed (VectorAt A) := {|
  pieces v := concat (map pieces (v_items v)) ++ [v_at v];
  destroy := free_vector destroy;
  destroy_pieces := _
|}.
Proof.
  intros v h. unfold free_vector. rewrite release_all_app, free_items_pieces.
  destruct (release_all _ h); [apply release_one | reflexivity ..].
Defined.
#[export] Instance option_freed `{Freed A} : Freed (option A) := {|
  pieces := opt_pieces pieces;
  destroy := free_opt destroy;
  destroy_pieces := free_opt_pieces
|}.
#[export] Instance address_freed : Freed positive := {|
  pieces p := [p];
  destroy := release_at;
  destroy_pieces := release_one
|}.

(** Freeing part after part. *)
Lemma part_then l k (m : cres unit heap) f h :
  m = release_all l h -> (forall h, f h = release_all k h) -> (h ← m; f h) = release_all (l ++ k) h.
Proof. intros -> Hf. rewrite release_all_app. destruct (release_all l h); [apply Hf | reflexivity ..]. Qed.
Ltac by_part :=
  intros; cbv beta;
  lazymatch goal with
  | |- _ = release_all (@pieces ?A ?I ?a) ?h => exact (@destroy_pieces A I a h)
  | |- _ = release_all (pointer _) _ => apply free_if_pieces
  | |- _ = release_all [_] _ => apply release_one
  end.
Ltac by_parts :=
  intros ? ?; cbv beta; lazymatch goal with |- ?f _ _ = _ => unfold f end;
  repeat (apply part_then; [by_part | intros; cbv beta]); by_part.

(** ** Blocks and CIDs *)

Record CidAt := MkCidAt { cid_at : positive; cid_hash_at : option positive }.
Definition ipfs_cid_free (cid : CidAt) (h : heap) : cres unit heap :=
  h ← free_if (cid_hash_at cid) h; release_at (cid_at cid) h.
#[export, refine] Instance cid_freed : Freed CidAt := {|
  pieces cid := pointer (cid_hash_at cid) ++ [cid_at cid];
  destroy := ipfs_cid_free;
  destroy_pieces := _
|}.
Proof. by_parts. Defined.

Record BlockAt := MkBlockAt { block_at : positive; block_cid_at : option CidAt; block_data_at : option positive }.
Definition ipfs_block_free (block : BlockAt) (h : heap) : cres unit heap :=
  h ← free_opt ipfs_cid_free (block_cid_at block) h;
  h ← free_if (block_data_at block) h;
  release_at (block_at block) h.
#[export, refine] Instance block_freed : Freed BlockAt := {|
  pieces b := pieces (block_cid_at b) ++ pointer (block_data_at b) ++ [block_at b];
  destroy := ipfs_block_free;
  destroy_pieces := _
|}.
Proof. by_parts. Defined.

(** ** Bitswap messages *)

Record BitswapBlockAt := MkBitswapBlockAt { bb_at : positive; bb_bytes : option positive; bb_prefix : option positive }.
Definition ipfs_bitswap_block_free (block : BitswapBlockAt) (h : heap) : cres unit heap :=
  h ← free_if (bb_bytes block) h; h ← free_if (bb_prefix block) h; release_at (bb_at block) h.
#[export, refine] Instance bitswap_block_freed : Freed BitswapBlockAt := {|
  pieces b := pointer (bb_bytes b) ++ pointer (bb_prefix b) ++ [bb_at b];
  destroy := ipfs_bitswap_block_free;
  destroy_pieces := _
|}.
Proof. by_parts. Defined.

Record WantlistEntryAt := MkWantlistEntryAt { we_at : positive; we_block : option positive }.
Definition ipfs_bitswap_wantlist_entry_free (entry : WantlistEntryAt) (h : heap) : cres unit heap :=
  h ← free_if (we_block entry) h; release_at (we_at entry) h.
#[export, refine] Instance wantlist_entry_freed : Freed WantlistEntryAt := {|
  pieces e := pointer (we_block e) ++ [we_at e];
  destroy := ipfs_bitswap_wantlist_entry_free;
  destroy_pieces := _
|}.
Proof. by_parts. Defined.

Record WantlistAt := MkWantlistAt { wl_at : positive; wl_entries : option (VectorAt WantlistEntryAt) }.
Definition ipfs_bitswap_wantlist_free (list : WantlistAt) (h : heap) : cres unit heap :=
  h ← free_opt (free_vector ipfs_bitswap_wantlist_entry_free) (wl_entries list) h; release_at (wl_at list) h.
#[export, refine] Instance wantlist_freed : Freed WantlistAt := {|
  pieces l := pieces (wl_entries l) ++ [wl_at l];
  destroy := ipfs_bitswap_wantlist_free;
  destroy_pieces := _
|}.
Proof. by_parts. Defined.

Record MessageAt := MkMessageAt {
  ms_at : positive;
  ms_blocks : option (VectorAt BlockAt);
  ms_payload : option (VectorAt BlockAt);
  ms_wantlist : option WantlistAt
}.
Definition ipfs_bitswap_message_free (message : MessageAt) (h : heap) : cres unit heap :=
  h ← free_opt (free_vector ipfs_block_free) (ms_blocks message) h;
  h ← free_opt (free_vector ipfs_block_free) (ms_payload message) h;
  h ← free_opt ipfs_bitswap_wantlist_free (ms_wantlist message) h;
  release_at (ms_at message) h.
#[export, refine] Instance message_freed : Freed MessageAt := {|
  pieces m := pieces (ms_blocks m) ++ pieces (ms_payload m) ++ pieces (ms_wantlist m) ++ [ms_at m];
  destroy := ipfs_bitswap_message_free;
  destroy_pieces := _
|}.
Proof. by_parts. Defined.

(** ** The queue of a peer and the want list *)

Record CidEntryAt := MkCidEntryAt { ce_at : positive; ce_cid : option CidAt }.
Definition ipfs_bitswap_cid_entry_free (entry : CidEntryAt) (h : heap) : cres unit heap :=
  h ← free_opt ipfs_cid_free (ce_cid entry) h; release_at (ce_at entry) h.
#[export, refine] Instance cid_entry_freed : Freed CidEntryAt := {|
  pieces e := pieces (ce_cid e) ++ [ce_at e];
  destroy := ipfs_bitswap_cid_entry_free;
  destroy_pieces := _
|}.
Proof. by_parts. Defined.

Record PeerRequestAt := MkPeerRequestAt {
  pr_at : positive;
  pr_cids_we_want : VectorAt CidEntryAt;
  pr_cids_they_want : VectorAt CidEntryAt;
  pr_blocks : VectorAt BlockAt
}.
Definition ipfs_bitswap_peer_request_free (request : PeerRequestAt) (h : heap) : cres unit heap :=
  h ← free_vector ipfs_bitswap_cid_entry_free (pr_cids_we_want request) h;
  h ← free_vector ipfs_bitswap_cid_entry_free (pr_cids_they_want request) h;
  h ← free_vector ipfs_block_free (pr_blocks request) h;
  release_at (pr_at request) h.
#[export, refine] Instance peer_request_freed : Freed PeerRequestAt := {|
  pieces r := pieces (pr_cids_we_want r) ++ pieces (pr_cids_they_want r) ++ pieces (pr_blocks r) ++ [pr_at r];
  destroy := ipfs_bitswap_peer_request_free;
  destroy_pieces := _
|}.
Proof. by_parts. Defined.

Record PeerRequestEntryAt := MkPeerRequestEntryAt { pe_at : positive; pe_current : option PeerRequestAt }.
Definition ipfs_bitswap_peer_request_entry_free (entry : PeerRequestEntryAt) (h : heap) : cres unit heap :=
  h ← free_opt ipfs_bitswap_peer_request_free (pe_current entry) h; release_at (pe_at entry) h.
#[export, refine] Instance peer_request_entry_freed : Freed PeerRequestEntryAt := {|
  pieces e := pieces (pe_current e) ++ [pe_at e];
  destroy := ipfs_bitswap_peer_request_entry_free;
  destroy_pieces := _
|}.
Proof. by_parts. Defined.

(** The entries from the last one back. *)
Record PeerRequestQueueAt := MkPeerRequestQueueAt { pq_at : positive; pq_from_last : list PeerRequestEntryAt }.
Definition ipfs_bitswap_peer_request_queue_free (queue : PeerRequestQueueAt) (h : heap) : cres unit heap :=
  h ← free_items ipfs_bitswap_peer_request_entry_free (pq_from_last queue) h; release_at (pq_at queue) h.
#[export, refine] Instance peer_request_queue_freed : Freed PeerRequestQueueAt := {|
  pieces q := concat (map pieces (pq_from_last q)) ++ [pq_at q];
  destroy := ipfs_bitswap_peer_request_queue_free;
  destroy_pieces := _
|}.
Proof. intros q h. apply part_then; [exact (free_items_pieces (pq_from_last q) h) | intros; apply release_one]. Defined.

(** The sessions of a want are the exchange's, only their vector is the want's. *)
Record WantListQueueEntryAt := MkWantListQueueEntryAt {
  wq_at : positive;
  wq_block : option BlockAt;
  wq_cid : option CidAt;
  wq_sessionsRequesting : option positive
}.
Definition ipfs_bitswap_wantlist_queue_entry_free (entry : WantListQueueEntryAt) (h : heap) : cres unit heap :=
  h ← free_opt ipfs_block_free (wq_block entry) h;
  h ← free_opt ipfs_cid_free (wq_cid entry) h;
  h ← free_if (wq_sessionsRequesting entry) h;
  release_at (wq_at entry) h.
#[export, refine] Instance wantlist_queue_entry_freed : Freed WantListQueueEntryAt := {|
  pieces e := pieces (wq_block e) ++ pieces (wq_cid e) ++ pointer (wq_sessionsRequesting e) ++ [wq_at e];
  destroy := ipfs_bitswap_wantlist_queue_entry_free;
  destroy_pieces := _
|}.
Proof. by_parts. Defined.

Record WantListQueueAt := MkWantListQueueAt { wlq_at : positive; wlq_queue : option (VectorAt WantListQueueEntryAt) }.
Definition ipfs_bitswap_wantlist_queue_free (wantlist : WantListQueueAt) (h : heap) : cres unit heap :=
  h ← free_opt (free_vector ipfs_bitswap_wantlist_queue_entry_free) (wlq_queue wantlist) h; release_at (wlq_at wantlist) h.
#[export, refine] Instance wantlist_queue_freed : Freed WantListQueueAt := {|
  pieces l := pieces (wlq_queue l) ++ [wlq_at l];
  destroy := ipfs_bitswap_wantlist_queue_free;
  destroy_pieces := _
|}.
Proof. by_parts. Defined.

(** ** The journal *)

(** An entry or a record: itself and its hash. *)
Record HashOwner := MkHashOwner { ho_at : positive; ho_hash : option positive }.
Definition ipfs_journal_entry_free (entry : HashOwner) (h : heap) : cres unit heap :=
  h ← free_if (ho_hash entry) h; release_at (ho_at entry) h.
Definition lmdb_journal_record_free (rec : HashOwner) (h : heap) : cres unit heap :=
  h ← free_if (ho_hash rec) h; release_at (ho_at rec) h.
#[export, refine] Instance hash_owner_freed : Freed HashOwner := {|
  pieces e := pointer (ho_hash e) ++ [ho_at e];
  destroy := ipfs_journal_entry_free;
  destroy_pieces := _
|}.
Proof. by_parts. Defined.

Record JournalMessageAt := MkJournalMessageAt { jm_at : positive; jm_entries : option (VectorAt HashOwner) }.
Definition ipfs_journal_message_free (message : JournalMessageAt) (h : heap) : cres unit heap :=
  h ← free_opt (free_vector ipfs_journal_entry_free) (jm_entries message) h; release_at (jm_at message) h.
#[export, refine] Instance journal_message_freed : Freed JournalMessageAt := {|
  pieces m := pieces (jm_entries m) ++ [jm_at m];
  destroy := ipfs_journal_message_free;
  destroy_pieces := _
|}.
Proof. by_parts. Defined.

(** ** API requests, links, paths, the block store *)

Record HttpParamAt := MkHttpParamAt { hp_at : positive; hp_name : option positive; hp_value : option positive }.
Definition ipfs_core_http_param_free (param : HttpParamAt) (h : heap) : cres unit heap :=
  h ← free_if (hp_name param) h; h ← free_if (hp_value param) h; release_at (hp_at param) h.
#[export, refine] Instance http_param_freed : Freed HttpParamAt := {|
  pieces p := pointer (hp_name p) ++ pointer (hp_value p) ++ [hp_at p];
  destroy := ipfs_core_http_param_free;
  destroy_pieces := _
|}.
Proof. by_parts. Defined.

(** The texts of the command and of the arguments are not freed. *)
Record HttpRequestAt := MkHttpRequestAt {
  hr_at : positive;
  hr_command : option positive;
  hr_sub_command : option positive;
  hr_params : option (VectorAt HttpParamAt);
  hr_arguments : option (VectorAt positive)
}.
Definition ipfs_core_http_request_free (request : HttpRequestAt) (h : heap) : cres unit heap :=
  h ← free_opt (free_vector ipfs_core_http_param_free) (hr_params request) h;
  h ← free_if (v_at <$> hr_arguments request) h;
  release_at (hr_at request) h.
#[export, refine] Instance http_request_freed : Freed HttpRequestAt := {|
  pieces r := pieces (hr_params r) ++ pointer (v_at <$> hr_arguments r) ++ [hr_at r];
  destroy := ipfs_core_http_request_free;
  destroy_pieces := _
|}.
Proof. by_parts. Defined.

Record HttpResponseAt := MkHttpResponseAt { hs_at : positive; hs_bytes : option positive }.
Definition ipfs_core_http_response_free (response : HttpResponseAt) (h : heap) : cres unit heap :=
  h ← free_if (hs_bytes response) h; release_at (hs_at response) h.
#[export, refine] Instance http_response_freed : Freed HttpResponseAt := {|
  pieces r := pointer (hs_bytes r) ++ [hs_at r];
  destroy := ipfs_core_http_response_free;
  destroy_pieces := _
|}.
Proof. by_parts. Defined.

Record NodeLinkAt := MkNodeLinkAt { nl_at : positive; nl_hash_at : option positive; nl_name_at : option positive }.
Definition ipfs_node_link_free (node_link : NodeLinkAt) (h : heap) : cres unit heap :=
  h ← free_if (nl_hash_at node_link) h; h ← free_if (nl_name_at node_link) h; release_at (nl_at node_link) h.
#[export, refine] Instance node_link_freed : Freed NodeLinkAt := {|
  pieces l := pointer (nl_hash_at l) ++ pointer (nl_name_at l) ++ [nl_at l];
  destroy := ipfs_node_link_free;
  destroy_pieces := _
|}.
Proof. by_parts. Defined.

(** The parts of a path: the text they lie in and the array of them. *)
Record SegmentsAt := MkSegmentsAt { sg_array : positive; sg_first : option positive }.
Definition ipfs_path_free_segments (s : option SegmentsAt) (h : heap) : cres unit (option SegmentsAt * heap) :=
  match s with
  | Some (MkSegmentsAt array (Some first)) => h ← release_at first h; h ← release_at array h; Ok (None, h)
  | _ => Ok (s, h)
  end.

Record BlockstoreAt := MkBlockstoreAt { bs_at : positive; bs_context : option positive }.
Definition ipfs_blockstore_free (blockstore : BlockstoreAt) (h : heap) : cres unit heap :=
  h ← free_if (bs_context blockstore) h; release_at (bs_at blockstore) h.
#[export, refine] Instance blockstore_freed : Freed BlockstoreAt := {|
  pieces b := pointer (bs_context b) ++ [bs_at b];
  destroy := ipfs_blockstore_free;
  destroy_pieces := _
|}.
Proof. by_parts. Defined.

(** ** The configuration (what the peer library frees, a peer, an address, a list, the datastore and the store
    of files, is one piece) *)

Record IdentityAt := MkIdentityAt { id_at : positive; id_public_der : option positive; id_der : option positive; id_peer_at : option positive }.
Definition repo_config_identity_free (identity : IdentityAt) (h : heap) : cres unit heap :=
  h ← free_if (id_public_der identity) h;
  h ← free_if (id_der identity) h;
  h ← free_if (id_peer_at identity) h;
  release_at (id_at identity) h.
#[export, refine] Instance identity_freed : Freed IdentityAt := {|
  pieces i := pointer (id_public_der i) ++ pointer (id_der i) ++ pointer (id_peer_at i) ++ [id_at i];
  destroy := repo_config_identity_free;
  destroy_pieces := _
|}.
Proof. by_parts. Defined.

Record AddressesAt := MkAddressesAt { ad_at : positive; ad_api : option positive; ad_gateway : option positive; ad_swarm_head : option positive }.
Definition repo_config_addresses_free (addresses : AddressesAt) (h : heap) : cres unit heap :=
  h ← free_if (ad_api addresses) h;
  h ← free_if (ad_gateway addresses) h;
  h ← free_if (ad_swarm_head addresses) h;
  release_at (ad_at addresses) h.
#[export, refine] Instance addresses_freed : Freed AddressesAt := {|
  pieces a := pointer (ad_api a) ++ pointer (ad_gateway a) ++ pointer (ad_swarm_head a) ++ [ad_at a];
  destroy := repo_config_addresses_free;
  destroy_pieces := _
|}.
Proof. by_parts. Defined.

Definition repo_config_bootstrap_peers_free (list : option (VectorAt positive)) (h : heap) : cres unit heap :=
  free_opt (free_vector release_at) list h.

(** A header: itself and its two texts. The array of headers is allocated with the first of them. *)
Record HTTPHeaderAt := MkHTTPHeaderAt { hh_at : positive; hh_header : option positive; hh_value : option positive }.
Definition http_header_free (currHeader : HTTPHeaderAt) (h : heap) : cres unit heap :=
  h ← free_if (hh_header currHeader) h; h ← free_if (hh_value currHeader) h; release_at (hh_at currHeader) h.
#[export, refine] Instance http_header_freed : Freed HTTPHeaderAt := {|
  pieces p := pointer (hh_header p) ++ pointer (hh_value p) ++ [hh_at p];
  destroy := http_header_free;
  destroy_pieces := _
|}.
Proof. by_parts. Defined.
Record HTTPHeadersAt := MkHTTPHeadersAt { hhs_at : positive; hhs_items : list HTTPHeaderAt; hhs_headers : option positive }.
Definition http_headers_free (headers : HTTPHeadersAt) (h : heap) : cres unit heap :=
  h ← free_items http_header_free (hhs_items headers) h;
  h ← free_if (hhs_headers headers) h;
  release_at (hhs_at headers) h.
#[export, refine] Instance http_headers_freed : Freed HTTPHeadersAt := {|
  pieces p := concat (map pieces (hhs_items p)) ++ pointer (hhs_headers p) ++ [hhs_at p];
  destroy := http_headers_free;
  destroy_pieces := _
|}.
Proof.
  intros p h. apply part_then; [exact (free_items_pieces (hhs_items p) h) | intros].
  apply part_then; [apply free_if_pieces | intros; apply release_one].
Defined.
Record GatewayAt := MkGatewayAt { gw_at : positive; gw_http_headers : option HTTPHeadersAt }.
Definition repo_config_gateway_free (gateway : GatewayAt) (h : heap) : cres unit heap :=
  h ← free_opt http_headers_free (gw_http_headers gateway) h; release_at (gw_at gateway) h.
#[export, refine] Instance gateway_freed : Freed GatewayAt := {|
  pieces g := pieces (gw_http_headers g) ++ [gw_at g];
  destroy := repo_config_gateway_free;
  destroy_pieces := _
|}.
Proof. by_parts. Defined.

Record ReplicationPeerAt := MkReplicationPeerAt { rp_at : positive; rp_peer_at : option positive }.
Definition repo_config_replication_peer_free (rp : ReplicationPeerAt) (h : heap) : cres unit heap :=
  h ← free_if (rp_peer_at rp) h; release_at (rp_at rp) h.
#[export, refine] Instance replication_peer_freed : Freed ReplicationPeerAt := {|
  pieces r := pointer (rp_peer_at r) ++ [rp_at r];
  destroy := repo_config_replication_peer_free;
  destroy_pieces := _
|}.
Proof. by_parts. Defined.
Record ReplicationAt := MkReplicationAt { rl_at : positive; rl_peers : option (VectorAt ReplicationPeerAt) }.
Definition repo_config_replication_free (replication : ReplicationAt) (h : heap) : cres unit heap :=
  h ← free_opt (free_vector repo_config_replication_peer_free) (rl_peers replication) h; release_at (rl_at replication) h.
#[export, refine] Instance replication_freed : Freed ReplicationAt := {|
  pieces r := pieces (rl_peers r) ++ [rl_at r];
  destroy := repo_config_replication_free;
  destroy_pieces := _
|}.
Proof. by_parts. Defined.

Record RepoConfigAt := MkRepoConfigAt {
  rca_at : positive;
  rca_identity : option IdentityAt;
  rca_bootstrap_peers : option (VectorAt positive);
  rca_datastore : option positive;
  rca_filestore : option positive;
  rca_addresses : option AddressesAt;
  rca_gateway : option GatewayAt;
  rca_replication : option ReplicationAt
}.
Definition ipfs_repo_config_free (config : RepoConfigAt) (h : heap) : cres unit heap :=
  h ← free_opt repo_config_identity_free (rca_identity config) h;
  h ← repo_config_bootstrap_peers_free (rca_bootstrap_peers config) h;
  h ← free_if (rca_datastore config) h;
  h ← free_if (rca_filestore config) h;
  h ← free_opt repo_config_addresses_free (rca_addresses config) h;
  h ← free_opt repo_config_gateway_free (rca_gateway config) h;
  h ← free_opt repo_config_replication_free (rca_replication config) h;
  release_at (rca_at config) h.
#[export, refine] Instance repo_config_freed : Freed RepoConfigAt := {|
  pieces c := pieces (rca_identity c) ++ pieces (rca_bootstrap_peers c) ++ pointer (rca_datastore c) ++
    pointer (rca_filestore c) ++ pieces (rca_addresses c) ++ pieces (rca_gateway c) ++ pieces (rca_replication c) ++ [rca_at c];
  destroy := ipfs_repo_config_free;
  destroy_pieces := _
|}.
Proof. by_parts. Defined.

Record FSRepoAt := MkFSRepoAt { fra_at : positive; fra_path : option positive; fra_config : option RepoConfigAt }.
Definition ipfs_repo_fsrepo_free (repo : FSRepoAt) (h : heap) : cres unit heap :=
  h ← free_if (fra_path repo) h; h ← free_opt ipfs_repo_config_free (fra_config repo) h; release_at (fra_at repo) h.
#[export, refine] Instance fsrepo_freed : Freed FSRepoAt := {|
  pieces r := pointer (fra_path r) ++ pieces (fra_config r) ++ [fra_at r];
  destroy := ipfs_repo_fsrepo_free;
  destroy_pieces := _
|}.
Proof. by_parts. Defined.

(** ** Blocks that are sent *)

(** The blocks of a request become the payload of a message: its vector is made when there is none, the
    blocks are added, and taken out of the request. *)
Definition move_blocks (vector : positive) (message : MessageAt) (request : PeerRequestAt) (h : heap)
  : MessageAt * PeerRequestAt * heap :=
  match v_items (pr_blocks request) with
  | [] => (message, request, h)
  | blocks =>
      let '(payload, h) :=
        match ms_payload message with
        | Some payload => (payload, h)
        | None => (MkVectorAt vector [], {[vector]} ∪ h)
        end in
      (MkMessageAt (ms_at message) (ms_blocks message) (Some (MkVectorAt (v_at payload) (v_items payload ++ blocks)))
         (ms_wantlist message),
       MkPeerRequestAt (pr_at request) (pr_cids_we_want request) (pr_cids_they_want request)
         (MkVectorAt (v_at (pr_blocks request)) []),
       h)
  end.

(** * Facts *)

Lemma owned_perm l k h : l ≡ₚ k -> owned l h -> owned k h.
Proof.
  intros Hp [Hn Hs]. split; [by rewrite <- Hp |].
  intros p Hk. apply Hs. apply elem_of_list_to_set. rewrite Hp. by apply elem_of_list_to_set in Hk.
Qed.
Lemma perm_set l k (h : heap) : l ≡ₚ k -> h ∖ list_to_set l = h ∖ list_to_set k.
Proof. intros Hp. apply set_eq. intros p. rewrite !elem_of_difference, !elem_of_list_to_set, Hp. reflexivity. Qed.

Lemma destroy_owned `{Freed A} (a : A) h : owned (pieces a) h -> destroy a h = Ok (h ∖ list_to_set (pieces a)).
Proof. intros Ho. rewrite destroy_spec. by rewrite decide_True. Qed.
Lemma destroy_not_owned `{Freed A} (a : A) h : ~ owned (pieces a) h -> destroy a h = Undef.
Proof. intros Ho. rewrite destroy_spec. by rewrite decide_False. Qed.
(** Freeing two structures one after the other, what they own being apart. *)
Lemma destroy_both `{Freed A} `{Freed B} (a : A) (b : B) h :
  owned (pieces a ++ pieces b) h ->
  destroy a h = Ok (h ∖ list_to_set (pieces a)) /\
  destroy b (h ∖ list_to_set (pieces a)) = Ok (h ∖ list_to_set (pieces a ++ pieces b)).
Proof.
  intros [Hn Hs]. apply NoDup_app in Hn as (Ha & Hd & Hb). rewrite list_to_set_app_L in Hs. split.
  - apply destroy_owned. split; [exact Ha | set_solver].
  - rewrite destroy_owned.
    + f_equal. rewrite list_to_set_app_L. set_solver.
    + split; [exact Hb |]. intros p Hp. apply elem_of_difference. split; [set_solver |].
      rewrite elem_of_list_to_set. intros Hpa. apply (Hd p Hpa). by apply elem_of_list_to_set in Hp.
Qed.
Lemma destroy_twice `{Freed A} (a : A) h p : p ∈ pieces a -> destroy a (h ∖ list_to_set (pieces a)) = Undef.
Proof.
  intros Hp. apply destroy_not_owned. intros [_ Hs]. specialize (Hs p). rewrite elem_of_difference, elem_of_list_to_set in Hs.
  destruct Hs as [_ Hno]; [exact Hp | exact (Hno Hp)].
Qed.

Lemma new_piece p (h k : heap) : p ∉ h -> ({[p]} ∪ h) ∖ ({[p]} ∪ k) = h ∖ k.
Proof. set_solver. Qed.
Lemma owned_new p l h : owned l h -> p ∉ h -> owned (p :: l) ({[p]} ∪ h).
Proof.
  intros [Hn Hs] Hp. split; [constructor; [| exact Hn] | cbn [list_to_set]; set_solver].
  intros Hin. apply Hp, Hs. by apply (elem_of_list_to_set (C := gset positive)).
Qed.

(** Moving the blocks moves what is owned; a new vector is one piece more. *)
Lemma add_blocks_owned vector m r h m' r' h' :
  owned (pieces m ++ pieces r) h -> vector ∉ h -> move_blocks vector m r h = (m', r', h') ->
  owned (pieces m' ++ pieces r') h' /\ h' ∖ list_to_set (pieces m' ++ pieces r') = h ∖ list_to_set (pieces m ++ pieces r).
Proof.
  intros Ho Hv. unfold move_blocks. destruct m as [at_ blocks payload wl], r as [rat we they [bat items]].
  cbn [pr_blocks v_items ms_payload ms_blocks ms_at ms_wantlist pr_at pr_cids_we_want pr_cids_they_want v_at].
  destruct items as [| b items]; [intros [= <- <- <-]; auto |].
  destruct payload as [[pat pitems] |]; intros [= <- <- <-].
  - assert (Hp : pieces (MkMessageAt at_ blocks (Some (MkVectorAt pat pitems)) wl) ++
        pieces (MkPeerRequestAt rat we they (MkVectorAt bat (b :: items))) ≡ₚ
      pieces (MkMessageAt at_ blocks (Some (MkVectorAt pat (pitems ++ b :: items))) wl) ++
        pieces (MkPeerRequestAt rat we they (MkVectorAt bat []))).
    { cbn. rewrite map_app, concat_app. cbn. solve_Permutation. }
    split; [exact (owned_perm _ _ _ Hp Ho) | symmetry; exact (perm_set _ _ _ Hp)].
  - assert (Hp : vector :: pieces (MkMessageAt at_ blocks None wl) ++
        pieces (MkPeerRequestAt rat we they (MkVectorAt bat (b :: items))) ≡ₚ
      pieces (MkMessageAt at_ blocks (Some (MkVectorAt vector (b :: items))) wl) ++
        pieces (MkPeerRequestAt rat we they (MkVectorAt bat []))).
    { cbn. solve_Permutation. }
    split; [exact (owned_perm _ _ _ Hp (owned_new _ _ _ Ho Hv)) |].
    rewrite <- (perm_set _ _ _ Hp). exact (new_piece vector h _ Hv).
Qed.
Lemma message_owns_itself m : ms_at m ∈ pieces m.
Proof. unfold pieces, message_freed. repeat (apply elem_of_app; right). apply list_elem_of_here. Qed.

(** * Properties *)

(** C7: Freeing a message is defined exactly when each address it owns is allocated and comes once; it then
    releases exactly these, and is undefined the second time. Blocks that a request gives to a message are
    freed once: after the message was sent both the message and the request can be freed, nothing of either
    is left, and nothing else is touched. *)
Theorem sent_message_freed message request vector h :
  ipfs_bitswap_message_free message h =
    (if decide (owned (pieces message) h) then Ok (h ∖ list_to_set (pieces message)) else Undef) /\
  ipfs_bitswap_message_free message (h ∖ list_to_set (pieces message)) = Undef /\
  (owned (pieces message ++ pieces request) h -> vector ∉ h ->
   let '(message', request', h1) := move_blocks vector message request h in
   (h ← ipfs_bitswap_message_free message' h1; ipfs_bitswap_peer_request_free request' h) =
     Ok (h ∖ list_to_set (pieces message ++ pieces request))).
Proof.
  split_and!.
  - exact (destroy_spec message h).
  - exact (destroy_twice message h _ (message_owns_itself message)).
  - intros Ho Hv. destruct (move_blocks _ _ _ _) as [[m r] h1] eqn:E.
    destruct (add_blocks_owned _ _ _ _ _ _ _ Ho Hv E) as [Ho1 <-].
    destruct (destroy_both m r h1 Ho1) as [Hm Hr].
    change (ipfs_bitswap_message_free m h1) with (destroy m h1). rewrite Hm. exact Hr.
Qed.

(** A request with a block for a peer, and a new message. *)
Definition owned_request : PeerRequestAt :=
  MkPeerRequestAt 1 (MkVectorAt 2 []) (MkVectorAt 3 [MkCidEntryAt 4 (Some (MkCidAt 5 (Some 6)))]%positive)
    (MkVectorAt 7 [MkBlockAt 8 (Some (MkCidAt 9 (Some 10))) (Some 11)]%positive).
Definition owned_message : MessageAt := MkMessageAt 12 None None None.
Definition owned_heap : heap := list_to_set (map Pos.of_nat (seq 1 12)).
Lemma sent_message_freed_witness :
  let '(message, request, h1) := move_blocks 13 owned_message owned_request owned_heap in
  (h ← ipfs_bitswap_message_free message h1; ipfs_bitswap_peer_request_free request h) = Ok ∅.
Proof.
  destruct (sent_message_freed owned_message owned_request 13 owned_heap) as (_ & _ & H).
  refine (H _ _); by_decide.
Defined.
