(* ===== verification/Flatfs.v ===== *)
(** A store of files under names derived from keys (src/flatfs/flatfs.c). *)

From S2P Require Import Prelude Libc Storage.

(** [None]: 0 is returned. *)
Definition ipfs_flatfs_remove_preceeding_slash (s : bytes) (max_size : Z) : option bytes :=
  if max_size <? len s + 1 then None else Some (skip_slashes s).

(** Sixteen characters: underscores behind a shorter name, a longer one is cut. *)
Definition sixteen (s : bytes) : bytes :=
  let s := if len s <? 16 then s ++ replicate (Z.to_nat (16 - len s)) (byte_of 95) else s in
  if 16 <? len s then btake 16 s else s.

Section Flatfs.
Context {OS : OsUtils}.

(** The local buffer has [max_derived_path_length] bytes, at least 17. *)
Definition ipfs_flatfs_get_directory (datastore_path proposed_filename : bytes)
  (max_derived_path_length : Z) : option bytes :=
  if max_derived_path_length <? len datastore_path + 17 then None
  else
    buffer ← ipfs_flatfs_remove_preceeding_slash proposed_filename max_derived_path_length;
    os_utils_filepath_join datastore_path (sixteen buffer) max_derived_path_length.

Definition ipfs_flatfs_get_filename (proposed_filename : bytes)
  (max_derived_filename_length : Z) : option bytes :=
  buffer ← ipfs_flatfs_remove_preceeding_slash proposed_filename max_derived_filename_length;
  if max_derived_filename_length <? len buffer + 6 then None
  else Some (buffer ++ str ".data").

Definition ipfs_flatfs_get_full_filename (datastore_path proposed_filename : bytes)
  (max_derived_filename_length : Z) : option bytes :=
  _ ← ipfs_flatfs_remove_preceeding_slash proposed_filename max_derived_filename_length;
  directory ← ipfs_flatfs_get_directory datastore_path proposed_filename max_derived_filename_length;
  actual_filename ← ipfs_flatfs_get_filename proposed_filename max_derived_filename_length;
  os_utils_filepath_join directory actual_filename max_derived_filename_length.

(** Directories, as the operating system keeps them: whether one is there or can be
    written to, and making one. *)
Context {dirs : Type} (os_utils_directory_writeable os_utils_directory_exists : dirs -> bytes -> bool).
Context (mkdir : dirs -> bytes -> option dirs).

Definition ipfs_flatfs_create_directory (d : dirs) (full_directory : bytes) : option dirs :=
  if os_utils_directory_writeable d full_directory then Some d
  else if os_utils_directory_exists d full_directory then None
  else mkdir d full_directory.

(** [rename]: over a file that is there. *)
Definition rename_file (fs : FS) (from to : bytes) : option FS :=
  match fs_files fs !! from with
  | Some data =>
      if fs_writable fs to
      then Some (MkFS (<[to := data]> (delete from (fs_files fs))) (fs_writable fs) (fs_room fs))
      else None
  | None => None
  end.

(** The value returned and the state. [fwrite] writes one item of [num_bytes]: it returns
    1 when all was written, and 0 otherwise or for no bytes. A failed [fopen] is not looked
    at. *)
Definition ipfs_flatfs_put (datastore_path key byte : bytes) (d : dirs) (fs : FS)
  : cres unit (bool * dirs * FS) :=
  let filename_length := len datastore_path + len key + 24 in
  match ipfs_flatfs_get_directory datastore_path key filename_length with
  | None => Ok (false, d, fs)
  | Some full_directory =>
      match ipfs_flatfs_create_directory d full_directory with
      | None => Ok (false, d, fs)
      | Some d =>
          match ipfs_flatfs_get_full_filename datastore_path key filename_length with
          | None => Ok (false, d, fs)
          | Some full_filename =>
              let temp_filename := full_filename ++ str ".tmp" in
              match write_file fs temp_filename byte with
              | None => Undef
              | Some (count, fs) =>
                  let bytes_written := if (0 <? len byte) && (count =? len byte) then 1 else 0 in
                  match rename_file fs temp_filename full_filename with
                  | None => Ok (false, d, fs)
                  | Some fs => Ok (bytes_written =? len byte, d, fs)
                  end
              end
          end
      end
  end.
End Flatfs.

(** * Properties *)

Lemma len_skip_slashes s : len (skip_slashes s) <= len s.
Proof. induction s as [| c s IH]; cbn; [reflexivity |]. case_decide; len_lia. Qed.
Lemma len_sixteen s : len (sixteen s) = 16.
Proof.
  unfold sixteen. pose proof (len_nonneg s). destruct (len s <? 16) eqn:E.
  - assert (H16 : len (s ++ replicate (Z.to_nat (16 - len s)) (byte_of 95)) = 16)
      by (rewrite len_app, len_replicate; lia).
    rewrite H16. replace (16 <? 16) with false by reflexivity. exact H16.
  - destruct (16 <? len s) eqn:E2; [rewrite len_btake; lia | lia].
Qed.

Section Facts.
Context {OS : OsUtils} `{!OsUtilsLaws OS}.

(** The names the code derives. *)
Definition store_dir (path key : bytes) (n : Z) : option bytes :=
  os_utils_filepath_join path (sixteen (skip_slashes key)) n.

Lemma get_directory_room path key n :
  len path + 18 <= n -> len key + 1 <= n ->
  exists d, ipfs_flatfs_get_directory path key n = Some d /\
    store_dir path key n = Some d /\ len d <= len path + 17.
Proof.
  intros Hp Hk. unfold ipfs_flatfs_get_directory, ipfs_flatfs_remove_preceeding_slash.
  replace (n <? len path + 17) with false by lia. replace (n <? len key + 1) with false by lia.
  cbn [mbind option_bind]. pose proof (len_sixteen (skip_slashes key)) as H16.
  destruct (filepath_join_room path (sixteen (skip_slashes key)) n) as [d Hd]; [lia |].
  exists d. split; [exact Hd |]. split; [exact Hd |]. apply filepath_join_len in Hd. lia.
Qed.

Lemma get_filename_room key n :
  len key + 6 <= n -> ipfs_flatfs_get_filename key n = Some (skip_slashes key ++ str ".data").
Proof.
  intros Hk. unfold ipfs_flatfs_get_filename, ipfs_flatfs_remove_preceeding_slash.
  replace (n <? len key + 1) with false by lia. cbn [mbind option_bind].
  pose proof (len_skip_slashes key).
  replace (n <? len (skip_slashes key) + 6) with false by lia. reflexivity.
Qed.

(** The length [ipfs_flatfs_put] computes is enough for every name. *)
Lemma full_filename_room path key :
  let n := len path + len key + 24 in
  exists d f, ipfs_flatfs_get_directory path key n = Some d /\
    ipfs_flatfs_get_full_filename path key n = Some f /\
    os_utils_filepath_join d (skip_slashes key ++ str ".data") n = Some f.
Proof.
  intros n. pose proof (len_nonneg path). pose proof (len_nonneg key).
  destruct (get_directory_room path key n) as (d & Hd & _ & Hl); [lia | lia |].
  assert (H5 : len (str ".data") = 5) by reflexivity. pose proof (len_skip_slashes key).
  destruct (filepath_join_room d (skip_slashes key ++ str ".data") n) as [f Hf];
    [rewrite len_app; lia |].
  exists d, f. split; [exact Hd |]. split; [| exact Hf].
  unfold ipfs_flatfs_get_full_filename. rewrite Hd, get_filename_room by lia.
  unfold ipfs_flatfs_remove_preceeding_slash. replace (n <? len key + 1) with false by lia. exact Hf.
Qed.

(** Keys without a slash behind the leading ones have different files. *)
Lemma full_filename_inj path key key' n m f :
  slash ∉ skip_slashes key -> slash ∉ skip_slashes key' ->
  ipfs_flatfs_get_full_filename path key n = Some f ->
  ipfs_flatfs_get_full_filename path key' m = Some f -> skip_slashes key = skip_slashes key'.
Proof.
  intros Hs Hs' H H'. unfold ipfs_flatfs_get_full_filename in H, H'.
  apply bind_Some in H as (_ & _ & H). apply bind_Some in H as (d & _ & H).
  apply bind_Some in H as (a & Ha & H). apply bind_Some in H' as (_ & _ & H').
  apply bind_Some in H' as (d' & _ & H'). apply bind_Some in H' as (a' & Ha' & H').
  assert (Hname : forall k n a, ipfs_flatfs_get_filename k n = Some a -> a = skip_slashes k ++ str ".data").
  { intros k n0 a0 E. unfold ipfs_flatfs_get_filename, ipfs_flatfs_remove_preceeding_slash in E.
    apply bind_Some in E as (b & Eb & E). repeat case_match; simplify_eq. reflexivity. }
  apply Hname in Ha as ->. apply Hname in Ha' as ->.
  assert (Hd : byte_of 47 ∉ str ".data") by by_decide.
  apply (app_inv_tail (str ".data")). eapply filepath_join_inj; [| | exact H | exact H'];
    rewrite elem_of_app; tauto.
Qed.
End Facts.

Section PutSpec.
Context {OS : OsUtils} `{!OsUtilsLaws OS}.
Context {dirs : Type} (writeable exists_ : dirs -> bytes -> bool) (mkdir : dirs -> bytes -> option dirs).

(** The buffer of [ipfs_flatfs_put] is large enough for the names of every key; when the
    directory can be made and the files written, the data is found under the key's file
    name, the temporary file is gone and no other file changes, although success is only
    reported for data of one byte at most; when the directory cannot be made nothing
    changes. Keys without a slash inside, with other names, have other files. *)
Theorem flatfs_put_spec path key byte d fs :
  exists dir f,
    ipfs_flatfs_get_directory path key (len path + len key + 24) = Some dir /\
    ipfs_flatfs_get_full_filename path key (len path + len key + 24) = Some f /\
    match ipfs_flatfs_create_directory writeable exists_ mkdir d dir with
    | None => ipfs_flatfs_put writeable exists_ mkdir path key byte d fs = Ok (false, d, fs)
    | Some d' =>
        fs_writable fs f = true -> fs_writable fs (f ++ str ".tmp") = true -> len byte <= fs_room fs ->
        exists fs', ipfs_flatfs_put writeable exists_ mkdir path key byte d fs = Ok (len byte <=? 1, d', fs') /\
          fs_files fs' !! f = Some byte /\ fs_files fs' !! (f ++ str ".tmp") = None /\
          forall p, p <> f -> p <> f ++ str ".tmp" -> fs_files fs' !! p = fs_files fs !! p
    end /\
    forall key' n f', slash ∉ skip_slashes key -> slash ∉ skip_slashes key' ->
      skip_slashes key' <> skip_slashes key ->
      ipfs_flatfs_get_full_filename path key' n = Some f' -> f' <> f.
Proof.
  destruct (full_filename_room path key) as (dir & f & Hd & Hf & _).
  exists dir, f. split; [exact Hd |]. split; [exact Hf |]. split.
  - unfold ipfs_flatfs_put. rewrite Hd.
    destruct (ipfs_flatfs_create_directory _ _ _ d dir) as [d' |]; [| reflexivity].
    intros Hw Hwt Hr. rewrite Hf. unfold write_file. rewrite Hwt. cbn zeta.
    rewrite Z.min_l, btake_all by lia. unfold rename_file. cbn [fs_files fs_writable fs_room].
    rewrite lookup_insert_eq, Hw. eexists. split.
    + do 3 f_equal. rewrite Z.eqb_refl, andb_true_r. pose proof (len_nonneg byte).
      destruct (0 <? len byte) eqn:E1, (len byte <=? 1) eqn:E2; lia.
    + assert (Hne : f <> f ++ str ".tmp").
      { intros E. apply (f_equal len) in E. rewrite len_app in E.
        assert (len (str ".tmp") = 4) by reflexivity. lia. }
      cbn [fs_files]. rewrite delete_insert_eq. split; [apply lookup_insert_eq |]. split.
      * rewrite lookup_insert_ne by exact Hne. apply lookup_delete_eq.
      * intros p H1 H2. by rewrite lookup_insert_ne, lookup_delete_ne by congruence.
  - intros key' n f' H1 H2 Hne Hf' ->. apply Hne. symmetry. eapply full_filename_inj; eauto.
Qed.
End PutSpec.

Lemma flatfs_put_spec_witness :
  exists d fs',
    ipfs_flatfs_put (fun _ _ => true) (fun _ _ => true) (fun d _ => Some d) (str "/repo") (str "/key")
      (str "value") tt (MkFS ∅ (fun _ => true) 100) = Ok (false, d, fs') /\
    fs_files fs' !! str "/repo/key_____________/key.data" = Some (str "value").
Proof.
  destruct (flatfs_put_spec (fun _ _ => true) (fun _ _ => true) (fun d _ => Some d) (str "/repo") (str "/key")
    (str "value") tt (MkFS ∅ (fun _ => true) 100)) as (dir & f & Hd & Hf & Hp & _).
  change (ipfs_flatfs_create_directory (fun _ _ => true) (fun _ _ => true) (fun d _ => Some d) tt dir)
    with (Some tt) in Hp.
  destruct Hp as (fs' & Hp & Hl & _); [reflexivity | reflexivity | by_decide |].
  assert (f = str "/repo/key_____________/key.data") as -> by (vm_compute in Hf; by injection Hf as <-).
  exists tt, fs'. split; [exact Hp | exact Hl].
Defined.
