(* ===== verification/Journal.v ===== *)
(** The journal protocol (src/journal/journal_entry.c, journal_message.c,
    journal.c and their headers): entries and messages with their protobuf
    forms, the message a node sends, and what it does on receiving one. *)

From S2P Require Import Prelude Vector Libc Protobuf Libs ProtobufRef LibsRef Cid Block Storage.

(** [int] addition that stays in range; the C code adds sizes in an [int]. *)
Definition int_add {E} (a b : Z) : cres E Z :=
  let s := a + b in
  if (- 2 ^ 31 <=? s) && (s <? 2 ^ 31) then Ok s else Undef.

Record JournalEntry := MkJournalEntry {
  je_timestamp : Z;
  je_pin : Z;
  je_hash : option bytes;
  je_hash_size : Z
}.

Definition ipfs_journal_entry_new : JournalEntry := MkJournalEntry 0 0 None 0.

Section Entries.
Context {PB : Protobuf}.

Definition ipfs_journal_entry_encode_size {E} (entry : JournalEntry) : cres E Z :=
  retVal ← int_add (i32 (je_hash_size entry)) 11;
  retVal ← int_add retVal 1;
  int_add retVal 11.

(** The buffer is not NULL: every caller passes an array. *)
Definition ipfs_journal_entry_encode (entry : JournalEntry) (max_buffer_size : Z)
  : cres bytes bytes :=
  if max_buffer_size <=? 0 then Err []
  else
    out ← emit (protobuf_encode_varint 1 WIRETYPE_VARINT (je_timestamp entry)
                  (size_sub max_buffer_size 0)) [];
    hash ← mem_read (je_hash entry) (je_hash_size entry);
    out ← emit (protobuf_encode_length_delimited 2 WIRETYPE_LENGTH_DELIMITED hash
                  (size_sub max_buffer_size (len out))) out;
    emit (protobuf_encode_varint 3 WIRETYPE_VARINT (je_pin entry)
            (size_sub max_buffer_size (len out))) out.

(** The state of the decoder: the entry and [got_something]. *)
Definition journal_entry_decode_field (buffer : bytes) (buffer_length pos field_no : Z)
  (s : JournalEntry * bool) : cres (JournalEntry * bool) (JournalEntry * bool * Z) :=
  let '(out, got) := s in
  let at_pos := bdrop pos buffer in
  let room := size_sub buffer_length pos in
  if field_no =? 1 then
    match protobuf_decode_varint at_pos room with
    | None => Err s
    | Some (v, bytes_read) =>
        Ok (MkJournalEntry v (je_pin out) (je_hash out) (je_hash_size out), true, bytes_read)
    end
  else if field_no =? 2 then
    match protobuf_decode_length_delimited at_pos room with
    | None => Err s
    | Some (d, bytes_read) =>
        Ok (MkJournalEntry (je_timestamp out) (je_pin out) (Some d) (len d), true, bytes_read)
    end
  else if field_no =? 3 then
    match protobuf_decode_varint at_pos room with
    | None => Err s
    | Some (v, bytes_read) =>
        Ok (MkJournalEntry (je_timestamp out) (if v =? 1 then 1 else 0) (je_hash out)
              (je_hash_size out), true, bytes_read)
    end
  else Ok (s, 0).

(** The decoder succeeds when it [got_something]; otherwise the result is freed. *)
Definition when_got {S} (m : cres (S * bool) (S * bool)) : cres unit S :=
  match m with
  | Ok (s, true) => Ok s
  | Ok (_, false) | Err _ => Err ()
  | Undef => Undef
  | NoFuel => NoFuel
  end.

Definition ipfs_journal_entry_decode (incoming : bytes) (incoming_size : Z)
  : cres unit JournalEntry :=
  when_got (field_loop (journal_entry_decode_field incoming incoming_size) incoming incoming_size
              (loop_fuel incoming_size) 0 (ipfs_journal_entry_new, false)).
End Entries.

Section Messages.
Context {PB : Protobuf} {VE : Libp2pVector}.

Record JournalMessage := MkJournalMessage {
  jm_current_epoch : Z;
  jm_start_epoch : Z;
  jm_end_epoch : Z;
  jm_journal_entries : vector JournalEntry
}.

Definition ipfs_journal_message_new : JournalMessage :=
  MkJournalMessage 0 0 0 (libp2p_utils_vector_new JournalEntry 1).

Definition journal_add_entry_size {E} (entry : JournalEntry) (sz : Z) : cres E Z :=
  n ← ipfs_journal_entry_encode_size entry; int_add sz n.

Definition ipfs_journal_message_encode_size {E} (message : JournalMessage) : cres E Z :=
  vector_loop journal_add_entry_size (jm_journal_entries message) 33.

Definition journal_encode_entry (max_buffer_size : Z) (entry : JournalEntry) (out : bytes)
  : cres bytes bytes :=
  temp_size ← ipfs_journal_entry_encode_size entry;
  temp ← on_err (ipfs_journal_entry_encode entry (u64 temp_size)) out;
  emit (protobuf_encode_length_delimited 4 WIRETYPE_LENGTH_DELIMITED temp
          (size_sub max_buffer_size (len out))) out.

Definition ipfs_journal_message_encode (message : JournalMessage) (max_buffer_size : Z)
  : cres bytes bytes :=
  if max_buffer_size <=? 0 then Err []
  else
    out ← emit (protobuf_encode_varint 1 WIRETYPE_VARINT (jm_current_epoch message)
                  (size_sub max_buffer_size 0)) [];
    out ← emit (protobuf_encode_varint 2 WIRETYPE_VARINT (jm_start_epoch message)
                  (size_sub max_buffer_size (len out))) out;
    out ← emit (protobuf_encode_varint 3 WIRETYPE_VARINT (jm_end_epoch message)
                  (size_sub max_buffer_size (len out))) out;
    vector_loop (journal_encode_entry max_buffer_size) (jm_journal_entries message) out.

(** The verdict on the length-delimited bytes of an entry is not looked at, so
    on failure the uninitialised [temp] is passed on. *)
Definition journal_message_decode_field (buffer : bytes) (buffer_length pos field_no : Z)
  (s : JournalMessage * bool) : cres (JournalMessage * bool) (JournalMessage * bool * Z) :=
  let '(out, got) := s in
  let at_pos := bdrop pos buffer in
  let room := size_sub buffer_length pos in
  if field_no =? 1 then
    match protobuf_decode_varint at_pos room with
    | None => Err s
    | Some (v, bytes_read) =>
        Ok (MkJournalMessage v (jm_start_epoch out) (jm_end_epoch out) (jm_journal_entries out),
            true, bytes_read)
    end
  else if field_no =? 2 then
    match protobuf_decode_varint at_pos room with
    | None => Err s
    | Some (v, bytes_read) =>
        Ok (MkJournalMessage (jm_current_epoch out) v (jm_end_epoch out) (jm_journal_entries out),
            true, bytes_read)
    end
  else if field_no =? 3 then
    match protobuf_decode_varint at_pos room with
    | None => Err s
    | Some (v, bytes_read) =>
        Ok (MkJournalMessage (jm_current_epoch out) (jm_start_epoch out) v
              (jm_journal_entries out), true, bytes_read)
    end
  else if field_no =? 4 then
    match protobuf_decode_length_delimited at_pos room with
    | None => Undef
    | Some (temp, bytes_read) =>
        entry ← on_err (ipfs_journal_entry_decode temp (len temp)) s;
        Ok (MkJournalMessage (jm_current_epoch out) (jm_start_epoch out) (jm_end_epoch out)
              (libp2p_utils_vector_add (jm_journal_entries out) entry), true, bytes_read)
    end
  else Ok (s, 0).

Definition ipfs_journal_message_decode (incoming : bytes) (incoming_size : Z)
  : cres unit JournalMessage :=
  when_got (field_loop (journal_message_decode_field incoming incoming_size) incoming
              incoming_size (loop_fuel incoming_size) 0 (ipfs_journal_message_new, false)).
End Messages.

(** ** The protocol *)

(** A record of the journal store (include/ipfs/repo/fsrepo/journalstore.h). *)
Record JournalRecord := MkJournalRecord {
  jr_timestamp : Z;
  jr_pin : Z;
  jr_pending : Z;
  jr_hash : option bytes;
  jr_hash_size : Z
}.

Inductive JournalAction := JOURNAL_ENTRY_NEEDED | JOURNAL_TIME_ADJUST | JOURNAL_REMOTE_NEEDS.

Record JournalToDo := MkJournalToDo {
  td_action : JournalAction;
  td_local_timestamp : Z;
  td_remote_timestamp : Z;
  td_hash : option bytes;
  td_hash_size : Z
}.

Definition ipfs_journal_todo_new : JournalToDo :=
  MkJournalToDo JOURNAL_ENTRY_NEEDED 0 0 None 0.

(** [data] is what the message's pointer designates, [data_size] what the
    message says of it. [strnstr] looks at the first [data_size] bytes, up to a
    NUL. *)
Definition ipfs_journal_can_handle (data : option bytes) (data_size : Z) : bool :=
  match data with
  | None => false
  | Some data =>
      if (data_size =? 0) || (data_size <? 21) then false
      else bool_decide (strstr (c_str (btake data_size data)) (str "/ipfs/journalio/1.0.0") = Some O)
  end.

(** The signed difference of two [unsigned long long]. *)
Definition i64_diff (a b : Z) : Z := (u64 (a - b) + 2 ^ 63) mod 2 ^ 64 - 2 ^ 63.

Section Protocol.
Context {PB : Protobuf} {VE : Libp2pVector} {DS : Datastore}.

(** A record of the journal store, put in the message of
    [ipfs_journal_sync]. *)
Definition journal_sync_record {E} (rec : JournalRecord) (message : JournalMessage)
  : cres E JournalMessage :=
  let end_epoch := if jm_end_epoch message <? jr_timestamp rec then jr_timestamp rec
                   else jm_end_epoch message in
  let start_epoch :=
    if (jm_start_epoch message =? 0) || (jr_timestamp rec <? jm_start_epoch message)
    then jr_timestamp rec else jm_start_epoch message in
  hash ← mem_read (jr_hash rec) (jr_hash_size rec);
  let entry := MkJournalEntry (jr_timestamp rec) 1 (Some hash) (jr_hash_size rec) in
  Ok (MkJournalMessage (jm_current_epoch message) start_epoch end_epoch
        (libp2p_utils_vector_add (jm_journal_entries message) entry)).

(** The message of [ipfs_journal_sync] at a time. *)
Definition journal_sync_message {E} (journal_records : vector JournalRecord) (now : Z)
  : cres E JournalMessage :=
  message ← vector_loop journal_sync_record journal_records ipfs_journal_message_new;
  Ok (MkJournalMessage now (jm_start_epoch message) (jm_end_epoch message)
        (jm_journal_entries message)).

Definition journal_todo_entry {E} (store : ds_state) (entry : JournalEntry)
  (todos : vector JournalToDo) : cres E (vector JournalToDo) :=
  hash ← mem_read (je_hash entry) (je_hash_size entry);
  match datastore_get hash store with
  | None =>
      Ok (libp2p_utils_vector_add todos
            (MkJournalToDo JOURNAL_ENTRY_NEEDED 0 (je_timestamp entry) (je_hash entry)
               (je_hash_size entry)))
  | Some datastore_record =>
      if ((rec_timestamp datastore_record =? 0) && negb (je_timestamp entry =? 0)) ||
         (negb (je_timestamp entry =? 0) &&
          (je_timestamp entry <? rec_timestamp datastore_record))
      then Ok (libp2p_utils_vector_add todos
                 (MkJournalToDo JOURNAL_TIME_ADJUST (rec_timestamp datastore_record)
                    (je_timestamp entry) (je_hash entry) (je_hash_size entry)))
      else Ok todos
  end.

Definition ipfs_journal_build_todo {E} (store : ds_state) (incoming : JournalMessage)
  : cres E (vector JournalToDo) :=
  vector_loop (journal_todo_entry store) (jm_journal_entries incoming)
    (libp2p_utils_vector_new JournalToDo 1).

(** [datastore_put] of the record with the time of the other node, unless the
    record is as old; a time of 0 is no time, and the record is put as it is. *)
Definition ipfs_journal_adjust_time (todo : JournalToDo) : io unit Z :=
  hash ← lift (mem_read (td_hash todo) (td_hash_size todo));
  found ← look (fun w => Ok (datastore_get hash (w_ds w)));
  match found with
  | None => mret 0
  | Some r =>
      if negb (td_remote_timestamp todo =? 0) &&
         negb (td_remote_timestamp todo <? rec_timestamp r)
      then mret 1
      else
        let r := if negb (td_remote_timestamp todo =? 0)
                 then MkRecord (rec_key r) (rec_value r) (td_remote_timestamp todo) else r in
        ok ← put_record r;
        mret (if (ok : bool) then 1 else 0)
  end.

(** [GetBlockAsync] of the node's exchange: its verdict and the block, when it
    already came. *)
Context (get_block_async : Cid -> io unit (bool * option Block)).

Definition journal_do (curr : JournalToDo) : io unit unit :=
  match td_action curr with
  | JOURNAL_ENTRY_NEEDED =>
      cid ← lift (ipfs_cid_new 0 (td_hash curr) (td_hash_size curr) CID_DAG_PROTOBUF);
      '(ok, block) ← get_block_async cid;
      if (ok : bool) && negb (bool_decide (block = None))
      then _ ← ipfs_journal_adjust_time curr; mret ()
      else mret ()
  | JOURNAL_TIME_ADJUST => _ ← ipfs_journal_adjust_time curr; mret ()
  | JOURNAL_REMOTE_NEEDS => mret ()
  end.

(** The loop over the list to do, [total] items of it. *)
Fixpoint journal_do_all (fuel : nat) (i : Z) (todos : vector JournalToDo) : io unit unit :=
  match fuel with
  | O => lift NoFuel
  | S fuel =>
      if i <? vector_total todos then
        match libp2p_utils_vector_get todos i with
        | None => lift Undef
        | Some curr => _ ← journal_do curr; journal_do_all fuel (i + 1) todos
        end
      else mret ()
  end.

(** Where the message starts in the segment, and the size the code gives it:
    one more than what follows the first newline. When nothing follows it, the
    next segment is read and released before it is decoded. *)
Inductive journal_body :=
| Body (pos size : Z)
| NextSegment.

Definition journal_strip (data : bytes) (data_size : Z) : journal_body :=
  match strchr (btake data_size data) (byte_of 10) with
  | None => Body 0 data_size
  | Some i =>
      if Z.of_nat i + 1 <? data_size then Body (Z.of_nat i + 1) (data_size - Z.of_nat i)
      else NextSegment
  end.

(** [data] is the memory the segment lies in, [data_size] of it its own;
    [stream_read] whether another segment can be read. The result is negative on
    an error. A read past the memory is undefined, and so is the decoding of the
    segment that was released. *)
Definition ipfs_journal_handle_message (data : bytes) (data_size : Z) (stream_read : bool)
  (now : Z) : io unit Z :=
  match journal_strip data data_size with
  | NextSegment => if stream_read then lift Undef else mret (-1)
  | Body pos pos_size =>
      incoming ← lift (mem_read (Some (bdrop pos data)) pos_size);
      decoded ← attempt (lift (ipfs_journal_message_decode incoming pos_size));
      match decoded with
      | inr _ => mret (-1)
      | inl message =>
          let our_time_diff := i64_diff now (jm_current_epoch message) in
          if our_time_diff =? - 2 ^ 63 then lift Undef (* [llabs] *)
          else if 300 <? Z.abs our_time_diff then mret (-1)
          else
            todos ← look (fun w => ipfs_journal_build_todo (w_ds w) message);
            _ ← journal_do_all (S (Z.to_nat (vector_total todos))) 0 todos;
            mret 1
      end
  end.
End Protocol.

(** * Properties *)

(** ** Entries *)

Definition journal_hash (e : JournalEntry) : bytes := default [] (je_hash e).
Definition journal_entry_value (e : JournalEntry) : Z * Z * bytes :=
  (je_timestamp e, je_pin e, journal_hash e).

Record journal_entry_wf (e : JournalEntry) : Prop := {
  journal_entry_wf_time : 0 <= je_timestamp e < 2 ^ 64;
  journal_entry_wf_pin : je_pin e = 0 \/ je_pin e = 1;
  journal_entry_wf_hash : je_hash_size e = len (journal_hash e);
  journal_entry_wf_room : je_hash_size e < 2 ^ 27
}.

Definition journal_entry_saved (e : JournalEntry) : JournalEntry :=
  MkJournalEntry (je_timestamp e) (je_pin e) (Some (journal_hash e)) (len (journal_hash e)).

Definition journal_entry_room (e : JournalEntry) : Z := je_hash_size e + 23.

Section EntryFacts.
Context {PB : Protobuf} `{!ProtobufLaws PB}.

Definition journal_entry_fields (e : JournalEntry) : list wfield :=
  [varint_field 1 (je_timestamp e); ld_field 2 (journal_hash e); varint_field 3 (je_pin e)].
Definition journal_entry_wire (e : JournalEntry) : bytes := wire_msg (journal_entry_fields e).
Definition journal_entry_field (e : JournalEntry) : wfield := ld_field 4 (journal_entry_wire e).

Lemma journal_entry_size {E} e :
  journal_entry_wf e -> @ipfs_journal_entry_encode_size E e = Ok (journal_entry_room e).
Proof.
  intros [_ _ Hh Hr]. unfold ipfs_journal_entry_encode_size, journal_entry_room, int_add.
  pose proof (len_nonneg (journal_hash e)). rewrite i32_small by lia.
  replace ((_ <=? je_hash_size e + 11) && _) with true by lia. cbn [mbind cres_bind].
  replace ((_ <=? je_hash_size e + 11 + 1) && _) with true by lia. cbn [mbind cres_bind].
  replace ((_ <=? je_hash_size e + 11 + 1 + 11) && _) with true by lia. f_equal. lia.
Qed.

Lemma journal_entry_wire_bound e :
  journal_entry_wf e ->
  0 < len (journal_entry_wire e) <= je_hash_size e + 18 /\ 0 <= je_hash_size e /\
  len (wire_field (journal_entry_field e)) <= journal_entry_room e.
Proof.
  intros [Ht Hp Hh Hr]. pose proof (len_nonneg (journal_hash e)).
  pose proof (varint_size_64 (je_timestamp e) Ht).
  pose proof (varint_size_28 (je_hash_size e) ltac:(lia)).
  pose proof (varint_size_1 (je_pin e) ltac:(lia)).
  pose proof (varint_size_pos (je_timestamp e)). pose proof (varint_size_pos (je_hash_size e)).
  assert (0 < len (journal_entry_wire e) <= je_hash_size e + 18) as Hw.
  { unfold journal_entry_wire, journal_entry_fields. wire_len. rewrite <- Hh. lia. }
  split; [exact Hw |]. split; [lia |].
  unfold journal_entry_field, journal_entry_room. rewrite len_ld_field by lia.
  pose proof (varint_size_28 (len (journal_entry_wire e)) ltac:(lia)). lia.
Qed.

Lemma journal_entry_encode_fields e n :
  journal_entry_wf e -> len (journal_entry_wire e) <= n -> n < 2 ^ 64 ->
  ipfs_journal_entry_encode e n = Ok (journal_entry_wire e).
Proof.
  intros He Hn Hm. pose proof (journal_entry_wire_bound e He) as (Hw & _).
  destruct He as [Ht Hp Hh Hr]. unfold journal_entry_wire, journal_entry_fields in *.
  pose proof (len_nonneg (journal_hash e)). pose proof (varint_size_pos (je_timestamp e)).
  pose proof (varint_size_pos (len (journal_hash e))). pose proof (varint_size_pos (je_pin e)).
  unfold ipfs_journal_entry_encode. replace (n <=? 0) with false by lia.
  rewrite (size_sub_small n 0), Z.sub_0_r by lia. wire_len.
  rewrite emit_varint_first by lia. cbn [mbind cres_bind].
  unfold journal_hash in *. rewrite mem_read_default by assumption. cbn [mbind cres_bind].
  rewrite emit_ld by (wire_len; lia). cbn [mbind cres_bind].
  rewrite emit_varint by (wire_len; lia). rewrite <- !app_assoc. reflexivity.
Qed.

Lemma journal_entry_reads e :
  journal_entry_wf e ->
  reads_all journal_entry_decode_field (journal_entry_fields e) (ipfs_journal_entry_new, false)
    (journal_entry_saved e, true).
Proof.
  intros [Ht Hp Hh Hr]. unfold journal_entry_fields, varint_field, ld_field.
  econstructor; [lia | | econstructor; [lia | | econstructor; [lia | | constructor]]];
    intros pre rest buf Hl; subst buf; unfold journal_entry_decode_field; cbn [Z.eqb Pos.eqb].
  - rewrite at_pb_varint by (assumption || lia). reflexivity.
  - fold (ld_payload (journal_hash e)) in *. rewrite at_ld by assumption. reflexivity.
  - rewrite at_pb_varint by (assumption || lia). unfold journal_entry_saved. cbn.
    destruct Hp as [Hp | Hp]; rewrite !Hp; reflexivity.
Qed.

Lemma journal_entry_decode_wire e :
  journal_entry_wf e ->
  ipfs_journal_entry_decode (journal_entry_wire e) (len (journal_entry_wire e)) =
    Ok (journal_entry_saved e).
Proof.
  intros He. pose proof (journal_entry_wire_bound e He) as (Hw & _).
  unfold ipfs_journal_entry_decode, journal_entry_wire in *.
  rewrite (field_loop_reads _ _ _ _ (journal_entry_reads e He)); [reflexivity |]. destruct He. lia.
Qed.

Lemma when_got_returns {S} (m : cres (S * bool) (S * bool)) : returns m -> returns (when_got m).
Proof. destruct m as [[? []] | | |]; cbn; auto. Qed.

Lemma journal_entry_decode_returns b n : returns (ipfs_journal_entry_decode b n).
Proof.
  apply when_got_returns, field_loop_terminates; unfold journal_entry_decode_field.
  - intros. repeat (case_match; try exact I).
  - step_reads.
Qed.
End EntryFacts.

(** ** Messages *)

Section MessageFacts.
Context {PB : Protobuf} `{!ProtobufLaws PB} {VE : Libp2pVector} `{!Libp2pVectorLaws VE}.

Definition journal_entries (m : JournalMessage) : list JournalEntry := items (jm_journal_entries m).
Definition journal_message_value (m : JournalMessage) : Z * Z * Z * list (Z * Z * bytes) :=
  (jm_current_epoch m, jm_start_epoch m, jm_end_epoch m,
   map journal_entry_value (journal_entries m)).

Definition journal_message_room (m : JournalMessage) : Z :=
  33 + sum_over journal_entry_room (journal_entries m).

Record journal_message_wf (m : JournalMessage) : Prop := {
  journal_wf_current : 0 <= jm_current_epoch m < 2 ^ 64;
  journal_wf_start : 0 <= jm_start_epoch m < 2 ^ 64;
  journal_wf_end : 0 <= jm_end_epoch m < 2 ^ 64;
  journal_wf_entries : Forall journal_entry_wf (journal_entries m);
  journal_wf_room : journal_message_room m < 2 ^ 31
}.

Definition journal_message_fields (m : JournalMessage) : list wfield :=
  [varint_field 1 (jm_current_epoch m); varint_field 2 (jm_start_epoch m);
   varint_field 3 (jm_end_epoch m)] ++ map journal_entry_field (journal_entries m).
Definition journal_message_wire (m : JournalMessage) : bytes := wire_msg (journal_message_fields m).

Lemma journal_rooms l :
  Forall journal_entry_wf l -> Forall (fun e => 0 <= journal_entry_room e) l.
Proof.
  intros Hl. eapply Forall_impl; [exact Hl |]. intros e He.
  pose proof (journal_entry_wire_bound e He). unfold journal_entry_room. lia.
Qed.

Lemma journal_add_entry_eq {E} e t :
  journal_entry_wf e -> 0 <= t -> t + journal_entry_room e < 2 ^ 31 ->
  @journal_add_entry_size E e t = Ok (t + journal_entry_room e).
Proof.
  intros He Ht Hs. pose proof (journal_entry_wire_bound e He) as (_ & Hz & _).
  unfold journal_add_entry_size. rewrite journal_entry_size by assumption.
  cbn [mbind cres_bind]. unfold int_add, journal_entry_room in *.
  replace ((_ <=? t + _) && _) with true by lia. reflexivity.
Qed.

Lemma journal_sizes_loop {E} l t :
  Forall journal_entry_wf l -> 0 <= t -> t + sum_over journal_entry_room l < 2 ^ 31 ->
  @list_loop E _ _ journal_add_entry_size l t = Ok (t + sum_over journal_entry_room l).
Proof.
  intros Hl. revert t. induction Hl as [| e l He Hl IH]; intros t Ht Hs.
  - cbn. rewrite Z.add_0_r. reflexivity.
  - rewrite sum_over_cons in *. pose proof (sum_over_nonneg _ _ (journal_rooms _ Hl)).
    pose proof (journal_entry_wire_bound e He) as (_ & Hz & _).
    assert (0 <= journal_entry_room e) by (unfold journal_entry_room; lia).
    cbn [list_loop]. rewrite journal_add_entry_eq by (assumption || lia). cbn [mbind cres_bind].
    rewrite IH by lia. f_equal. lia.
Qed.

Lemma journal_message_size {E} m :
  journal_message_wf m ->
  ipfs_journal_message_encode_size (E := E) m = Ok (journal_message_room m).
Proof.
  intros [_ _ _ He Hr]. unfold ipfs_journal_message_encode_size. rewrite vector_loop_items.
  apply journal_sizes_loop; [exact He | lia | exact Hr].
Qed.

Lemma journal_message_wire_bound m :
  journal_message_wf m -> 0 < len (journal_message_wire m) <= journal_message_room m.
Proof.
  intros [Hc Hs He Hes _]. unfold journal_message_wire, journal_message_fields, journal_message_room.
  pose proof (fields_sum journal_entry_field journal_entry_room (journal_entries m)) as Hf.
  rewrite Forall_forall in Hes.
  specialize (Hf ltac:(intros e Hin; apply journal_entry_wire_bound, Hes, Hin)).
  pose proof (len_nonneg (wire_msg (map journal_entry_field (journal_entries m)))).
  pose proof (varint_size_64 _ Hc). pose proof (varint_size_64 _ Hs). pose proof (varint_size_64 _ He).
  pose proof (varint_size_pos (jm_current_epoch m)). pose proof (varint_size_pos (jm_start_epoch m)).
  pose proof (varint_size_pos (jm_end_epoch m)). wire_len. lia.
Qed.

Lemma journal_message_encode_fields m n :
  journal_message_wf m -> len (journal_message_wire m) <= n -> n < 2 ^ 64 ->
  ipfs_journal_message_encode m n = Ok (journal_message_wire m).
Proof.
  intros Hm Hn Hn64. pose proof (journal_message_wire_bound m Hm).
  destruct Hm as [Hc Hs He Hes _]. unfold ipfs_journal_message_encode.
  replace (n <=? 0) with false by lia. unfold journal_message_wire, journal_message_fields in *.
  rewrite (size_sub_small n 0), Z.sub_0_r, wire_msg_app, !len_app in * by lia.
  pose proof (len_nonneg (wire_msg (map journal_entry_field (journal_entries m)))).
  pose proof (varint_size_pos (jm_current_epoch m)). pose proof (varint_size_pos (jm_start_epoch m)).
  pose proof (varint_size_pos (jm_end_epoch m)). wire_len.
  rewrite emit_varint_first by lia. cbn [mbind cres_bind].
  rewrite emit_varint by (wire_len; lia). cbn [mbind cres_bind].
  rewrite emit_varint by (wire_len; lia). cbn [mbind cres_bind].
  rewrite vector_loop_items. fold (journal_entries m).
  rewrite (emit_loop _ journal_entry_field n).
  - rewrite <- !app_assoc. reflexivity.
  - rewrite Forall_forall in Hes. intros e out Hin Hroom. specialize (Hes e Hin).
    pose proof (journal_entry_wire_bound e Hes) as (Hw & Hz & _). pose proof Hes as [_ _ _ Hr].
    unfold journal_encode_entry. rewrite journal_entry_size by assumption. cbn [mbind cres_bind].
    unfold journal_entry_room. rewrite u64_small, journal_entry_encode_fields by (assumption || lia).
    cbn [on_err mbind cres_bind]. apply emit_ld_total; [lia | lia | exact Hroom].
  - wire_len. lia.
Qed.

Lemma journal_reads_entries es m :
  Forall journal_entry_wf es ->
  exists m', reads_all journal_message_decode_field (map journal_entry_field es) (m, true) (m', true) /\
    journal_entries m' = journal_entries m ++ map journal_entry_saved es /\
    jm_current_epoch m' = jm_current_epoch m /\ jm_start_epoch m' = jm_start_epoch m /\
    jm_end_epoch m' = jm_end_epoch m.
Proof.
  intros He. revert m. induction He as [| e es He Hes IH]; intros m.
  - exists m. rewrite app_nil_r. auto with cipfs.
  - destruct (IH (MkJournalMessage (jm_current_epoch m) (jm_start_epoch m) (jm_end_epoch m)
      (libp2p_utils_vector_add (jm_journal_entries m) (journal_entry_saved e))))
      as (m' & Hr & Hi & Hm').
    exists m'. split_and!; [| | apply Hm' ..].
    + cbn [map]. unfold journal_entry_field at 1, ld_field.
      econstructor; [lia | | exact Hr].
      fold (ld_payload (journal_entry_wire e)). intros pre rest buf Hl. subst buf.
      unfold journal_message_decode_field. cbn [Z.eqb Pos.eqb].
      rewrite at_ld by assumption. rewrite journal_entry_decode_wire by assumption. reflexivity.
    + rewrite Hi. unfold journal_entries. cbn [jm_journal_entries].
      rewrite items_add, <- app_assoc. reflexivity.
Qed.

Lemma journal_message_decode_wire m :
  journal_message_wf m ->
  exists m', ipfs_journal_message_decode (journal_message_wire m) (len (journal_message_wire m)) =
      Ok m' /\ journal_message_value m' = journal_message_value m.
Proof.
  intros Hm. pose proof (journal_message_wire_bound m Hm). destruct Hm as [Hc Hs He Hes Hr].
  destruct (journal_reads_entries (journal_entries m)
    (MkJournalMessage (jm_current_epoch m) (jm_start_epoch m) (jm_end_epoch m)
       (jm_journal_entries ipfs_journal_message_new)) Hes) as (m' & Hreads & Hi & E1 & E2 & E3).
  exists m'. split.
  - unfold ipfs_journal_message_decode, journal_message_wire in *.
    erewrite (field_loop_reads journal_message_decode_field);
      [| eapply reads_all_app; [| exact Hreads] | lia]; [reflexivity |].
    unfold varint_field.
    econstructor; [lia | | econstructor; [lia | | econstructor; [lia | | constructor]]];
      intros pre rest buf Hl; subst buf; unfold journal_message_decode_field; cbn [Z.eqb Pos.eqb];
      rewrite at_pb_varint by assumption; reflexivity.
  - unfold journal_message_value. rewrite Hi, E1, E2, E3. unfold journal_entries at 1.
    cbn [jm_journal_entries ipfs_journal_message_new]. rewrite items_new. cbn [app].
    rewrite map_map. reflexivity.
Qed.

Lemma journal_message_decode_returns b n : returns (ipfs_journal_message_decode b n).
Proof.
  apply when_got_returns, field_loop_terminates; unfold journal_message_decode_field.
  - intros. repeat (case_match; try exact I).
    match goal with |- context [ipfs_journal_entry_decode ?d ?k] =>
      pose proof (journal_entry_decode_returns d k); destruct (ipfs_journal_entry_decode d k) end;
      cbn; auto.
  - intros; repeat case_match; simplify_eq/=; try lia; [step_reads .. |].
    match goal with H : context [ipfs_journal_entry_decode ?d ?k] |- _ =>
      destruct (ipfs_journal_entry_decode d k); simplify_eq/= end.
    step_reads.
Qed.
End MessageFacts.

(** ** The protocol *)

Definition journal_protocol : bytes := str "/ipfs/journalio/1.0.0".

Lemma i64_diff_near a b :
  Z.abs (a - b) < 2 ^ 63 -> i64_diff a b = a - b.
Proof.
  intros Hd. unfold i64_diff, u64.
  rewrite Z.add_mod_idemp_l, Z.mod_small by lia. lia.
Qed.

Lemma starts_with_c_str p s : cstring p -> starts_with p (c_str s) = starts_with p s.
Proof.
  unfold cstring. revert s. induction p as [| x p IH]; intros s Hp; [reflexivity |].
  apply not_elem_of_cons in Hp as [Hx Hp]. destruct s as [| y s]; [reflexivity |].
  cbn. case_decide as Hy; cbn; [| rewrite IH by assumption; reflexivity].
  rewrite bool_decide_eq_false_2 by congruence. reflexivity.
Qed.

(** Each of a list of actions in turn. *)
Definition io_each {DS : Datastore} {E A} (f : A -> io E unit) (l : list A) : io E unit :=
  foldr (fun a k => _ ← f a; k) (mret ()) l.

Section ProtocolFacts.
Context {PB : Protobuf} `{!ProtobufLaws PB} {VE : Libp2pVector} `{!Libp2pVectorLaws VE}.
Context {DS : Datastore}.
Context (get_block_async : Cid -> io unit (bool * option Block)).

Lemma io_bind_ext {E A B} (m : io E A) (f g : A -> io E B) w :
  (forall a w', m w = (Ok a, w') -> f a w' = g a w') -> (m ≫= f) w = (m ≫= g) w.
Proof.
  intros Hfg. unfold mbind, io_bind. destruct (m w) as [[a | e | |] w'] eqn:Hm; auto.
Qed.

Lemma journal_do_all_items todos w :
  journal_do_all get_block_async (S (Z.to_nat (vector_total todos))) 0 todos w =
    io_each (journal_do get_block_async) (items todos) w.
Proof.
  assert (forall l fuel i w, drop i (items todos) = l -> (length l < fuel)%nat ->
    journal_do_all get_block_async fuel (Z.of_nat i) todos w =
      io_each (journal_do get_block_async) l w) as Hloop.
  { induction l as [| a l IH]; intros [| fuel] i w' Hd Hf; cbn in Hf; try lia; cbn [journal_do_all].
    - rewrite (vector_end _ _ Hd). reflexivity.
    - destruct (vector_lookup_drop _ _ _ _ Hd) as (-> & -> & Hd').
      unfold io_each. cbn [foldr]. apply io_bind_ext. intros _ w'' _.
      replace (Z.of_nat i + 1) with (Z.of_nat (S i)) by lia.
      apply IH; [exact Hd' | lia]. }
  apply (Hloop _ _ O); [reflexivity |]. rewrite vector_total_items, len_to_nat. lia.
Qed.

(** What an entry of a message asks for, given the store. *)
Definition todo_for (store : ds_state) (e : JournalEntry) : option JournalToDo :=
  match datastore_get (journal_hash e) store with
  | None => Some (MkJournalToDo JOURNAL_ENTRY_NEEDED 0 (je_timestamp e) (je_hash e) (je_hash_size e))
  | Some r =>
      if negb (je_timestamp e =? 0) &&
         ((rec_timestamp r =? 0) || (je_timestamp e <? rec_timestamp r))
      then Some (MkJournalToDo JOURNAL_TIME_ADJUST (rec_timestamp r) (je_timestamp e) (je_hash e)
                   (je_hash_size e))
      else None
  end.

Definition hash_ok (e : JournalEntry) : Prop := je_hash_size e = len (journal_hash e).

Lemma todo_entry_eq {E} store e todos :
  hash_ok e ->
  journal_todo_entry (E := E) store e todos =
    Ok (match todo_for store e with
        | Some td => libp2p_utils_vector_add todos td
        | None => todos
        end).
Proof.
  intros He. unfold journal_todo_entry, todo_for, hash_ok, journal_hash in *.
  rewrite mem_read_default by assumption. cbn [mbind cres_bind].
  destruct (datastore_get _ store) as [r |]; [| reflexivity].
  destruct (je_timestamp e =? 0), (rec_timestamp r =? 0), (je_timestamp e <? rec_timestamp r);
    reflexivity.
Qed.

Lemma build_todo_items {E} store m :
  Forall hash_ok (journal_entries m) ->
  exists todos, ipfs_journal_build_todo (E := E) store m = Ok todos /\
    items todos = omap (todo_for store) (journal_entries m).
Proof.
  intros Hm. unfold ipfs_journal_build_todo. rewrite vector_loop_items. fold (journal_entries m).
  assert (forall todos, exists todos',
    list_loop (journal_todo_entry (E := E) store) (journal_entries m) todos = Ok todos' /\
    items todos' = items todos ++ omap (todo_for store) (journal_entries m)) as Hl.
  { induction Hm as [| e l He _ IH]; intros todos.
    - exists todos. rewrite app_nil_r. auto.
    - cbn [list_loop]. rewrite todo_entry_eq by assumption. cbn [mbind cres_bind omap list_omap].
      destruct (todo_for store e) as [td |].
      + destruct (IH (libp2p_utils_vector_add todos td)) as (todos' & Hr & Hi).
        exists todos'. split; [exact Hr |]. rewrite Hi, items_add, <- app_assoc. reflexivity.
      + apply IH. }
  destruct (Hl (libp2p_utils_vector_new JournalToDo 1)) as (todos & Hr & Hi).
  exists todos. rewrite Hi, items_new. auto.
Qed.

Definition journal_message_saved (m m' : JournalMessage) : Prop :=
  jm_current_epoch m' = jm_current_epoch m /\
  journal_entries m' = map journal_entry_saved (journal_entries m).

(** Decoding with one more byte than the message, if it reads as the key of a
    field that messages do not have. *)
Lemma journal_message_decode_slack m x f t :
  journal_message_wf m -> (f < 1 \/ 4 < f) ->
  let b := journal_message_wire m ++ [x] in
  protobuf_decode_field_and_type [x] (len b) = Some (f, t, 1) ->
  exists m', ipfs_journal_message_decode b (len b) = Ok m' /\ journal_message_saved m m'.
Proof.
  intros Hm Hf b Hx. pose proof (journal_message_wire_bound m Hm).
  destruct Hm as [Hc Hs He Hes Hr].
  destruct (journal_reads_entries (journal_entries m)
    (MkJournalMessage (jm_current_epoch m) (jm_start_epoch m) (jm_end_epoch m)
       (jm_journal_entries ipfs_journal_message_new)) Hes) as (m' & Hreads & Hi & E1 & E2 & E3).
  exists m'. split.
  - unfold ipfs_journal_message_decode. subst b. unfold journal_message_wire in *.
    erewrite (field_loop_reads_slack journal_message_decode_field);
      [| eapply reads_all_app; [| exact Hreads] | lia | exact Hx |]; [reflexivity | |].
    + unfold varint_field.
      econstructor; [lia | | econstructor; [lia | | econstructor; [lia | | constructor]]];
        intros pre rest buf Hl; subst buf; unfold journal_message_decode_field; cbn [Z.eqb Pos.eqb];
        rewrite at_pb_varint by assumption; reflexivity.
    + intros pos [s got]. unfold journal_message_decode_field.
      replace (f =? 1) with false by lia. replace (f =? 2) with false by lia.
      replace (f =? 3) with false by lia. replace (f =? 4) with false by lia. reflexivity.
  - split; [exact E1 |]. rewrite Hi. unfold journal_entries at 1.
    cbn [jm_journal_entries ipfs_journal_message_new]. rewrite items_new. reflexivity.
Qed.

(** Where the message lies in a segment with a header. *)
Lemma journal_strip_header hdr wire slack :
  byte_of 10 ∉ hdr -> wire <> [] ->
  journal_strip (hdr ++ byte_of 10 :: wire ++ slack) (len hdr + 1 + len wire) =
    Body (len hdr + 1) (len wire + 1).
Proof.
  intros Hh Hw. unfold journal_strip.
  replace (btake (len hdr + 1 + len wire) (hdr ++ byte_of 10 :: wire ++ slack))
    with (hdr ++ byte_of 10 :: wire).
  2: { replace (hdr ++ byte_of 10 :: wire ++ slack) with ((hdr ++ byte_of 10 :: wire) ++ slack)
         by (rewrite <- app_assoc; reflexivity).
       replace (len hdr + 1 + len wire) with (len (hdr ++ byte_of 10 :: wire)) by len_lia.
       rewrite btake_app_len. reflexivity. }
  rewrite strchr_app by assumption. fold (len hdr).
  assert (0 < len wire) by (destruct wire; [contradiction | len_lia]).
  replace (len hdr + 1 <? len hdr + 1 + len wire) with true by lia. f_equal. lia.
Qed.

Lemma journal_segment_drop hdr wire slack :
  bdrop (len hdr + 1) (hdr ++ byte_of 10 :: wire ++ slack) = wire ++ slack.
Proof.
  replace (hdr ++ byte_of 10 :: wire ++ slack) with ((hdr ++ [byte_of 10]) ++ wire ++ slack)
    by (rewrite <- app_assoc; reflexivity).
  replace (len hdr + 1) with (len (hdr ++ [byte_of 10])) by len_lia. apply bdrop_app_len.
Qed.

Lemma saved_hash_ok m m' :
  journal_message_saved m m' -> Forall hash_ok (journal_entries m').
Proof.
  intros [_ ->]. apply Forall_forall. intros e He. apply list_elem_of_fmap in He as (e0 & -> & _).
  reflexivity.
Qed.
End ProtocolFacts.

Section HandleFacts.
Context {PB : Protobuf} `{!ProtobufLaws PB} {VE : Libp2pVector} `{!Libp2pVectorLaws VE}.
Context {DS : Datastore}.
Context (get_block_async : Cid -> io unit (bool * option Block)).

Lemma journal_segment_read hdr (wire : bytes) slack :
  mem_read (E := unit) (Some (bdrop (len hdr + 1) (hdr ++ byte_of 10 :: wire ++ slack)))
    (len wire + 1) =
    match slack with [] => Undef | y :: _ => Ok (wire ++ [y]) end.
Proof.
  pose proof (len_nonneg wire). rewrite journal_segment_drop. unfold mem_read.
  replace (len wire + 1 =? 0) with false by lia. destruct slack as [| y slack].
  - rewrite app_nil_r. replace (len wire + 1 <=? len wire) with false by lia. reflexivity.
  - replace (wire ++ y :: slack) with ((wire ++ [y]) ++ slack) by (rewrite <- app_assoc; reflexivity).
    replace (len wire + 1) with (len (wire ++ [y])) by len_lia.
    rewrite btake_app_len. replace (_ <=? _) with true by len_lia. reflexivity.
Qed.

Lemma journal_handle_run hdr wire x rest m' now w :
  byte_of 10 ∉ hdr -> wire <> [] ->
  ipfs_journal_message_decode (wire ++ [x]) (len wire + 1) = Ok m' ->
  Forall hash_ok (journal_entries m') ->
  0 <= now < 2 ^ 63 -> 0 <= jm_current_epoch m' < 2 ^ 63 ->
  ipfs_journal_handle_message get_block_async (hdr ++ byte_of 10 :: wire ++ x :: rest)
    (len hdr + 1 + len wire) true now w =
    (if 300 <? Z.abs (now - jm_current_epoch m') then mret (-1)
     else _ ← io_each (journal_do get_block_async)
                (omap (todo_for (w_ds w)) (journal_entries m')); mret 1) w.
Proof.
  intros Hh Hne Hdec Hok Hnow Hep. unfold ipfs_journal_handle_message.
  rewrite (journal_strip_header hdr wire (x :: rest)) by assumption.
  unfold mbind at 1, io_bind at 1, lift at 1. rewrite journal_segment_read.
  unfold mbind at 1, io_bind at 1, attempt, lift at 1. rewrite Hdec.
  rewrite i64_diff_near by lia. cbv beta iota zeta.
  replace (_ =? - 2 ^ 63) with false by lia.
  destruct (300 <? Z.abs (now - jm_current_epoch m')); [reflexivity |].
  destruct (build_todo_items (E := unit) (w_ds w) m' Hok) as (todos & Hbt & Hit).
  unfold mbind at 1, io_bind at 1, look. rewrite Hbt. cbv beta iota.
  unfold mbind, io_bind. rewrite journal_do_all_items, Hit. reflexivity.
Qed.

Lemma todo_for_known store es :
  Forall (fun e => exists r, datastore_get (journal_hash e) store = Some r /\
    0 < rec_timestamp r <= je_timestamp e) es ->
  omap (todo_for store) es = [].
Proof.
  induction 1 as [| e l (r & He & Ht) _ IH]; [reflexivity |].
  cbn [omap list_omap]. unfold todo_for at 1. rewrite He.
  replace (negb _ && _) with false by lia. exact IH.
Qed.
End HandleFacts.

(** *** The message sent *)

Section SyncFacts.
Context {VE : Libp2pVector} `{!Libp2pVectorLaws VE}.

(** What the loop over the journal's records maintains. *)
Definition sync_inv (rs : list JournalRecord) (m : JournalMessage) : Prop :=
  map journal_entry_value (journal_entries m) =
    map (fun r => (jr_timestamp r, 1, default [] (jr_hash r))) rs /\
  match rs with
  | [] => jm_start_epoch m = 0 /\ jm_end_epoch m = 0
  | _ => 0 < jm_start_epoch m /\
      Forall (fun r => jm_start_epoch m <= jr_timestamp r <= jm_end_epoch m) rs /\
      jm_start_epoch m ∈ map jr_timestamp rs /\ jm_end_epoch m ∈ map jr_timestamp rs
  end.

Lemma sync_inv_new : sync_inv [] ipfs_journal_message_new.
Proof. split; [unfold journal_entries; cbn; rewrite items_new; reflexivity | auto]. Qed.

Definition sync_record_ok (r : JournalRecord) : Prop :=
  0 < jr_timestamp r /\ jr_hash_size r = len (default [] (jr_hash r)).

Lemma sync_step rs r m :
  sync_record_ok r -> sync_inv rs m ->
  exists m', journal_sync_record (E := unit) r m = Ok m' /\ sync_inv (rs ++ [r]) m'.
Proof.
  intros [Ht Hh] [Hv He]. unfold journal_sync_record. rewrite mem_read_default by exact Hh.
  eexists. split; [reflexivity |]. split.
  - unfold journal_entries in *. cbn [jm_journal_entries]. rewrite items_add, !map_app, Hv.
    reflexivity.
  - cbn [jm_start_epoch jm_end_epoch]. destruct rs as [| r0 rs].
    + destruct He as [-> ->]. cbn. replace (0 <? jr_timestamp r) with true by lia.
      split; [lia |]. split; [repeat constructor; lia |]. split; left.
    + destruct He as (Hp & Hb & Hs & Hend). rewrite map_app.
      change ((r0 :: rs) ++ [r]) with (r0 :: (rs ++ [r])) at 1. cbv iota.
      replace (jm_start_epoch m =? 0) with false by lia. cbn [orb].
      split; [destruct (_ <? jm_start_epoch m) eqn:?; lia |]. split.
      * apply Forall_app. split; [| apply Forall_cons; split; [| constructor]];
          [eapply Forall_impl; [exact Hb |]; intros r1 Hr1; cbv beta in * |];
          destruct (jr_timestamp r <? jm_start_epoch m) eqn:?,
            (jm_end_epoch m <? jr_timestamp r) eqn:?; lia.
      * split; [destruct (jr_timestamp r <? jm_start_epoch m) |
                destruct (jm_end_epoch m <? jr_timestamp r)];
          apply elem_of_app; (left; assumption) || (right; left).
Qed.

Lemma sync_loop l rs m :
  Forall sync_record_ok l -> sync_inv rs m ->
  exists m', list_loop (journal_sync_record (E := unit)) l m = Ok m' /\ sync_inv (rs ++ l) m'.
Proof.
  intros Hl. revert rs m. induction Hl as [| r l Hr _ IH]; intros rs m Hm.
  - exists m. rewrite app_nil_r. auto.
  - destruct (sync_step rs r m Hr Hm) as (m1 & H1 & Hm1).
    destruct (IH (rs ++ [r]) m1 Hm1) as (m' & Hl' & Hm'). exists m'.
    cbn [list_loop]. rewrite H1. split; [exact Hl' |]. rewrite <- app_assoc in Hm'. exact Hm'.
Qed.
End SyncFacts.

(** ** The properties of this file *)

Section Properties.
Context {PB : Protobuf} `{!ProtobufLaws PB} {VE : Libp2pVector} `{!Libp2pVectorLaws VE}.

(** A journal message encodes into an array of
    [ipfs_journal_message_encode_size] bytes and decoding gives back its epochs and
    its entries in order, when their hashes are below 2^27 bytes and the whole
    below 2^31. *)
Theorem journal_message_roundtrip m :
  journal_message_wf m ->
  exists n w m', ipfs_journal_message_encode_size (E := unit) m = Ok n /\
    ipfs_journal_message_encode m (u64 n) = Ok w /\ 0 < len w <= n /\
    ipfs_journal_message_decode w (len w) = Ok m' /\
    journal_message_value m' = journal_message_value m.
Proof.
  intros Hm. pose proof (journal_message_wire_bound m Hm) as Hb.
  destruct (journal_message_decode_wire m Hm) as (m' & Hd & Hv).
  exists (journal_message_room m), (journal_message_wire m), m'.
  split; [apply journal_message_size, Hm |]. destruct (Hm) as [_ _ _ _ Hr].
  rewrite u64_small by lia. split; [| auto].
  apply journal_message_encode_fields; [exact Hm | lia | lia].
Qed.

(** A node handles exactly the segments whose bytes start with the name of
    the journal protocol. *)
Theorem journal_can_handle_spec data n :
  ipfs_journal_can_handle (Some data) n = true <->
  exists r, btake n data = journal_protocol ++ r.
Proof.
  unfold ipfs_journal_can_handle. fold journal_protocol.
  assert (Hs : strstr (c_str (btake n data)) journal_protocol = Some O <->
    exists r, btake n data = journal_protocol ++ r).
  { rewrite strstr_prefix, starts_with_c_str, starts_with_spec
      by (apply (bool_decide_unpack _); vm_compute; exact I).
    reflexivity. }
  rewrite <- Hs. destruct ((n =? 0) || (n <? 21)) eqn:Hn.
  - split; [discriminate |]. rewrite Hs. intros [r Hr]. apply (f_equal len) in Hr.
    rewrite len_app in Hr. change (len journal_protocol) with 21 in Hr. pose proof (len_nonneg r).
    assert (len (btake n data) <= Z.max 0 n) by (unfold btake, len; rewrite length_take; lia). lia.
  - apply bool_decide_eq_true.
Qed.

Context {DS : Datastore}.
Context (get_block_async : Cid -> io unit (bool * option Block)).

(** C19: a message behind a header line is decoded with one byte more than it
    has. In memory that ends with it, handling it is undefined. With a byte
    after it that reads as the key of no field: a message whose time is more than
    300 seconds off is refused; otherwise what its entries ask for is done, in
    order, and nothing is if every entry has a record with a time that is not
    later. *)
Theorem journal_handle_spec hdr m x f t rest now w :
  byte_of 10 ∉ hdr -> journal_message_wf m -> 0 <= now < 2 ^ 63 -> jm_current_epoch m < 2 ^ 63 ->
  (f < 1 \/ 4 < f) ->
  let wire := journal_message_wire m in
  let size := len hdr + 1 + len wire in
  let handle data := ipfs_journal_handle_message get_block_async data size true now w in
  protobuf_decode_field_and_type [x] (len wire + 1) = Some (f, t, 1) ->
  handle (hdr ++ byte_of 10 :: wire) = (Undef, w) /\
  (300 < Z.abs (now - jm_current_epoch m) ->
    handle (hdr ++ byte_of 10 :: wire ++ x :: rest) = (Ok (-1), w)) /\
  (Z.abs (now - jm_current_epoch m) <= 300 ->
    let entries := map journal_entry_saved (journal_entries m) in
    handle (hdr ++ byte_of 10 :: wire ++ x :: rest) =
      (_ ← io_each (journal_do get_block_async) (omap (todo_for (w_ds w)) entries); mret 1) w /\
    (Forall (fun e => exists r, datastore_get (journal_hash e) (w_ds w) = Some r /\
        0 < rec_timestamp r <= je_timestamp e) entries ->
      handle (hdr ++ byte_of 10 :: wire ++ x :: rest) = (Ok 1, w))).
Proof.
  intros Hh Hm Hnow Hcur Hf wire size handle Hx.
  pose proof (journal_message_wire_bound m Hm) as Hb. fold wire in Hb.
  assert (wire <> []) as Hne by (intros E; rewrite E in Hb; len_nils; lia).
  assert (exists m', ipfs_journal_message_decode (wire ++ [x]) (len wire + 1) = Ok m' /\
    journal_message_saved m m') as (m' & Hdec & Hsaved).
  { replace (len wire + 1) with (len (wire ++ [x])) in Hx |- * by len_lia.
    apply (journal_message_decode_slack m x f t Hm Hf Hx). }
  pose proof Hsaved as [Hep Hents]. destruct Hm as [[Hep0 _] _ _ _ _].
  assert (Hrun := journal_handle_run get_block_async hdr wire x rest m' now w Hh Hne Hdec
    (saved_hash_ok m m' Hsaved) Hnow ltac:(rewrite Hep; lia)).
  rewrite Hep, Hents in Hrun. split; [| split].
  - subst handle. cbv beta. rewrite <- (app_nil_r wire) at 1. unfold ipfs_journal_handle_message.
    subst size. rewrite (journal_strip_header hdr wire []) by assumption.
    unfold mbind at 1, io_bind at 1, lift at 1. rewrite journal_segment_read. reflexivity.
  - intros Hfar. subst handle. cbv beta. subst size. rewrite Hrun.
    replace (300 <? _) with true by lia. reflexivity.
  - intros Hnear entries. subst handle. cbv beta. subst size. rewrite Hrun.
    replace (300 <? _) with false by lia. split; [reflexivity |].
    intros Hknown. rewrite todo_for_known by exact Hknown. reflexivity.
Qed.

(** Adjusting the time of a recorded hash puts the record with the other
    node's time when that one is earlier, and otherwise changes nothing; a record
    without a time is therefore left alone, although the entry of a message with
    a time asks for it to be adjusted. *)
Theorem journal_adjust_time_spec td hash r w :
  td_hash td = Some hash -> td_hash_size td = len hash -> 0 < td_remote_timestamp td ->
  datastore_get hash (w_ds w) = Some r ->
  (td_remote_timestamp td < rec_timestamp r ->
    let '(ok, s) := datastore_put (MkRecord (rec_key r) (rec_value r) (td_remote_timestamp td))
                      (w_ds w) in
    ipfs_journal_adjust_time td w = (Ok (if (ok : bool) then 1 else 0), MkWorld (w_fs w) s)) /\
  (rec_timestamp r <= td_remote_timestamp td -> ipfs_journal_adjust_time td w = (Ok 1, w)) /\
  (rec_timestamp r = 0 ->
    exists td', todo_for (w_ds w)
        (MkJournalEntry (td_remote_timestamp td) 1 (td_hash td) (td_hash_size td)) = Some td' /\
      td_action td' = JOURNAL_TIME_ADJUST /\ ipfs_journal_adjust_time td' w = (Ok 1, w)).
Proof.
  intros Hh Hn Hrem Hget.
  assert (forall td, td_hash td = Some hash -> td_hash_size td = len hash ->
    0 < td_remote_timestamp td -> ipfs_journal_adjust_time td w =
      if td_remote_timestamp td <? rec_timestamp r then
        let '(ok, s) := datastore_put (MkRecord (rec_key r) (rec_value r) (td_remote_timestamp td))
                          (w_ds w) in
        (Ok (if (ok : bool) then 1 else 0), MkWorld (w_fs w) s)
      else (Ok 1, w)) as Hrun.
  { clear td Hh Hn Hrem. intros td Hh Hn Hrem. unfold ipfs_journal_adjust_time.
    rewrite Hh, Hn, mem_read_all. unfold mbind at 1, io_bind at 1, lift.
    unfold mbind at 1, io_bind at 1, look. rewrite Hget.
    replace (td_remote_timestamp td =? 0) with false by lia. cbn [negb andb].
    destruct (td_remote_timestamp td <? rec_timestamp r); [| reflexivity]. cbn [negb].
    unfold mbind, io_bind, put_record. destruct (datastore_put _ _) as [ok s]. reflexivity. }
  rewrite (Hrun td) by assumption. split; [| split].
  - intros Hlt. apply Z.ltb_lt in Hlt. rewrite Hlt. destruct (datastore_put _ _). reflexivity.
  - intros Hle. replace (_ <? _) with false by lia. reflexivity.
  - intros Hz. eexists. unfold todo_for, journal_hash. cbn [je_hash je_timestamp je_hash_size].
    rewrite Hh. change (default [] (Some hash)) with hash. rewrite Hget, Hz.
    replace (td_remote_timestamp td =? 0) with false by lia.
    split; [reflexivity |]. split; [reflexivity |].
    rewrite Hrun by (cbn; auto). cbn [td_remote_timestamp]. rewrite Hz.
    replace (_ <? 0) with false by lia. reflexivity.
Qed.

(** The message sent to a peer lists the records of the journal in order,
    all pinned, between the earliest and the latest of their times. *)
Theorem journal_sync_message_spec records now :
  items records <> [] ->
  Forall (fun r => 0 < jr_timestamp r /\ jr_hash_size r = len (default [] (jr_hash r)))
    (items records) ->
  exists m, journal_sync_message (E := unit) records now = Ok m /\ jm_current_epoch m = now /\
    map journal_entry_value (journal_entries m) =
      map (fun r => (jr_timestamp r, 1, default [] (jr_hash r))) (items records) /\
    Forall (fun r => jm_start_epoch m <= jr_timestamp r <= jm_end_epoch m) (items records) /\
    jm_start_epoch m ∈ map jr_timestamp (items records) /\
    jm_end_epoch m ∈ map jr_timestamp (items records).
Proof.
  intros Hne Hok. unfold journal_sync_message. rewrite vector_loop_items.
  destruct (sync_loop (items records) [] ipfs_journal_message_new Hok sync_inv_new)
    as (m & -> & Hv & He).
  cbn [app] in Hv, He. eexists. split; [reflexivity |]. split; [reflexivity |].
  split; [exact Hv |]. cbn [jm_start_epoch jm_end_epoch].
  destruct (items records); [contradiction |]. destruct He as (_ & Hb & Hs & Hend). auto.
Qed.
End Properties.

(** * Concrete runs *)

Definition sample_journal_entry : JournalEntry := MkJournalEntry 1000 1 (Some (str "hash")) 4.
Definition sample_journal : JournalMessage :=
  MkJournalMessage 1100 1000 1000 ([sample_journal_entry] : @vector list_vector JournalEntry).

Lemma sample_journal_wf : journal_message_wf sample_journal.
Proof.
  constructor; cbn; try lia; [| reflexivity].
  constructor; [| constructor]. constructor; cbn; auto; lia.
Qed.

Lemma journal_message_roundtrip_witness :
  exists n w m', ipfs_journal_message_encode_size (E := unit) sample_journal = Ok n /\
    ipfs_journal_message_encode sample_journal (u64 n) = Ok w /\
    ipfs_journal_message_decode w (len w) = Ok m' /\
    journal_message_value m' = journal_message_value sample_journal.
Proof.
  destruct (journal_message_roundtrip sample_journal sample_journal_wf)
    as (n & w & m' & Hn & He & _ & Hd & Hv).
  exists n, w, m'. auto.
Defined.

Definition no_block (c : Cid) : io (DS := ref_datastore) unit (bool * option Block) :=
  mret (true, None).
Definition sample_world (t : Z) : World (DS := ref_datastore) :=
  MkWorld (DS := ref_datastore) (MkFS ∅ (fun _ => true) 0)
    ({[ str "hash" := MkRecord (str "hash") (str "file") t ]} : gmap bytes DatastoreRecord).

(** A zero byte after the segment reads as the key of field 0. *)
Lemma journal_handle_spec_witness :
  ipfs_journal_handle_message no_block
    (journal_protocol ++ byte_of 10 :: journal_message_wire sample_journal)
    (21 + 1 + len (journal_message_wire sample_journal)) true 1200 (sample_world 900) =
    (Undef, sample_world 900) /\
  ipfs_journal_handle_message no_block
    (journal_protocol ++ byte_of 10 :: journal_message_wire sample_journal ++ [x00])
    (21 + 1 + len (journal_message_wire sample_journal)) true 1200 (sample_world 900) =
    (Ok 1, sample_world 900).
Proof.
  assert (Hx : protobuf_decode_field_and_type [x00]
    (len (journal_message_wire sample_journal) + 1) = Some (0, WIRETYPE_VARINT, 1))
    by (vm_compute; reflexivity).
  destruct (journal_handle_spec no_block journal_protocol sample_journal x00 0 WIRETYPE_VARINT []
    1200 (sample_world 900)) as (Hu & _ & Hn);
    [apply (bool_decide_unpack _); vm_compute; exact I | exact sample_journal_wf | lia | cbn; lia
    | lia | exact Hx |].
  split; [exact Hu |]. apply Hn; [cbn; lia |].
  constructor; [| constructor]. eexists. split; [vm_compute; reflexivity |]. cbn. lia.
Defined.

Lemma journal_adjust_time_spec_witness :
  fst (ipfs_journal_adjust_time (MkJournalToDo JOURNAL_TIME_ADJUST 900 500 (Some (str "hash")) 4)
    (sample_world 900)) = Ok 1.
Proof.
  destruct (journal_adjust_time_spec
    (MkJournalToDo JOURNAL_TIME_ADJUST 900 500 (Some (str "hash")) 4) (str "hash")
    (MkRecord (str "hash") (str "file") 900) (sample_world 900)) as (Hlt & _);
    [reflexivity | reflexivity | cbn; lia | vm_compute; reflexivity |].
  specialize (Hlt ltac:(cbn; lia)).
  exact (f_equal fst Hlt).
Defined.

Definition sample_records : @vector list_vector JournalRecord :=
  [MkJournalRecord 30 1 0 (Some (str "b")) 1; MkJournalRecord 20 1 0 (Some (str "a")) 1].
Lemma journal_sync_message_spec_witness :
  exists m, journal_sync_message (E := unit) sample_records 50 = Ok m /\
    jm_current_epoch m = 50 /\ length (journal_entries m) = 2%nat.
Proof.
  destruct (journal_sync_message_spec sample_records 50) as (m & Hm & Hc & Hv & _).
  - discriminate.
  - repeat constructor.
  - exists m. split; [exact Hm |]. split; [exact Hc |].
    apply (f_equal length) in Hv. rewrite !length_map in Hv. exact Hv.
Defined.
