(* ===== verification/Mdb.v ===== *)
(** The lightning memory-mapped database (lmdb.h, a submodule of the repository):
    the calls the program makes, as an interface, and their documented behaviour. *)

From S2P Require Import Prelude.

(** The two tables the program opens, both with [MDB_DUPSORT]: a key may have
    several values. *)
Inductive mdb_table := DATASTORE | JOURNALSTORE.
#[export] Instance mdb_table_eq_dec : EqDecision mdb_table.
Proof. solve_decision. Defined.

Inductive MDB_cursor_op := MDB_FIRST | MDB_NEXT | MDB_LAST | MDB_PREV.
Definition MDB_KEYEXIST : Z := -30799.
Definition MDB_NOTFOUND : Z := -30798.
Definition MDB_NODUPDATA : Z := 32.

(** An environment holds what was committed, a transaction what it sees of it; a
    function that returns a [Z] returns 0 on success. *)
Class Mdb := {
  mdb_env : Type;
  mdb_txn : Type;
  mdb_cursor : Type;
  mdb_txn_begin : mdb_env -> Z * mdb_txn;
  mdb_txn_commit : mdb_txn -> Z * mdb_env;
  (* [None]: not 0 *)
  mdb_get : mdb_txn -> mdb_table -> bytes -> option bytes;
  (* key, value, flags *)
  mdb_put : mdb_txn -> mdb_table -> bytes -> bytes -> Z -> Z * mdb_txn;
  mdb_cursor_open : mdb_txn -> mdb_table -> option mdb_cursor;
  mdb_cursor_get : mdb_txn -> mdb_cursor -> MDB_cursor_op -> option (bytes * bytes) * mdb_cursor;
  mdb_cursor_put : mdb_txn -> mdb_cursor -> bytes -> bytes -> Z * mdb_txn * mdb_cursor
}.

(** Keys have 1 to 511 bytes; so have the values of a table with duplicates, at most. *)
Definition mdb_fits (k v : bytes) : Prop := 0 < len k <= 511 /\ len v <= 511.

(** [env_values], [txn_values]: the values of a key, in order. The environment has
    room in its map while it is ready. *)
Class MdbLaws (DB : Mdb) := {
  env_values : mdb_env -> mdb_table -> bytes -> list bytes;
  txn_values : mdb_txn -> mdb_table -> bytes -> list bytes;
  cursor_table : mdb_cursor -> mdb_table;
  mdb_ready : mdb_env -> Prop;
  txn_ready : mdb_txn -> Prop;
  txn_begin_ok e :
    mdb_ready e -> exists t, mdb_txn_begin e = (0, t) /\ txn_ready t /\
      forall T k, txn_values t T k = env_values e T k;
  txn_commit_ok t :
    txn_ready t -> exists e, mdb_txn_commit t = (0, e) /\ mdb_ready e /\
      forall T k, env_values e T k = txn_values t T k;
  mdb_get_values t T k : mdb_get t T k = head (txn_values t T k);
  (* a new pair is added and no other changes; a pair that is there is refused with
     the flag and left without *)
  mdb_put_new t T k v f :
    txn_ready t -> mdb_fits k v -> v ∉ txn_values t T k ->
    exists t', mdb_put t T k v f = (0, t') /\ txn_ready t' /\
      (forall x, x ∈ txn_values t' T k <-> x = v \/ x ∈ txn_values t T k) /\
      forall T' k', (T', k') <> (T, k) -> txn_values t' T' k' = txn_values t T' k';
  mdb_put_there t T k v f :
    txn_ready t -> v ∈ txn_values t T k ->
    exists t', mdb_put t T k v f = (if f =? MDB_NODUPDATA then MDB_KEYEXIST else 0, t') /\
      txn_ready t' /\ forall T' k', txn_values t' T' k' = txn_values t T' k';
  cursor_open_ok t T :
    txn_ready t -> exists c, mdb_cursor_open t T = Some c /\ cursor_table c = T;
  cursor_get_value t c op k v c' :
    mdb_cursor_get t c op = (Some (k, v), c') -> v ∈ txn_values t (cursor_table c) k;
  cursor_first t c k v :
    v ∈ txn_values t (cursor_table c) k -> exists k' v' c', mdb_cursor_get t c MDB_FIRST = (Some (k', v'), c');
  cursor_get_table t c op r c' :
    mdb_cursor_get t c op = (r, c') -> cursor_table c' = cursor_table c;
  cursor_put_ok t c k v :
    txn_ready t -> mdb_fits k v ->
    exists t' c', mdb_cursor_put t c k v = (0, t', c') /\ txn_ready t' /\
      (forall x, x ∈ txn_values t' (cursor_table c) k <->
         x = v \/ x ∈ txn_values t (cursor_table c) k) /\
      forall T' k', (T', k') <> (cursor_table c, k) -> txn_values t' T' k' = txn_values t T' k'
}.

(** ** A concrete database *)

(** The pairs of a table in the order of keys, then of values: byte by byte, a
    prefix first. *)
Fixpoint bytes_before (a b : bytes) : bool :=
  match a, b with
  | _, [] => false
  | [], _ :: _ => true
  | x :: a, y :: b =>
      if byte_val x <? byte_val y then true
      else if byte_val x =? byte_val y then bytes_before a b else false
  end.
Definition pair_before (p q : bytes * bytes) : bool :=
  bytes_before p.1 q.1 || (bool_decide (p.1 = q.1) && bytes_before p.2 q.2).
Fixpoint pair_insert (p : bytes * bytes) (l : list (bytes * bytes)) : list (bytes * bytes) :=
  match l with
  | [] => [p]
  | q :: l => if pair_before p q then p :: q :: l else q :: pair_insert p l
  end.
Record ref_tables := MkTables { tb_datastore : list (bytes * bytes); tb_journal : list (bytes * bytes) }.
Definition ref_table (t : ref_tables) (T : mdb_table) : list (bytes * bytes) :=
  match T with DATASTORE => tb_datastore t | JOURNALSTORE => tb_journal t end.
Definition ref_store (t : ref_tables) (T : mdb_table) (l : list (bytes * bytes)) : ref_tables :=
  match T with
  | DATASTORE => MkTables l (tb_journal t)
  | JOURNALSTORE => MkTables (tb_datastore t) l
  end.
Definition ref_values (t : ref_tables) (T : mdb_table) (k : bytes) : list bytes :=
  map snd (filter (fun p => p.1 = k) (ref_table t T)).
Definition ref_put (t : ref_tables) (T : mdb_table) (k v : bytes) (f : Z) : Z * ref_tables :=
  if (0 <? len k) && (len k <=? 511) && (len v <=? 511) then
    if bool_decide (v ∈ ref_values t T k) then (if f =? MDB_NODUPDATA then MDB_KEYEXIST else 0, t)
    else (0, ref_store t T (pair_insert (k, v) (ref_table t T)))
  else if bool_decide (v ∈ ref_values t T k) then (if f =? MDB_NODUPDATA then MDB_KEYEXIST else 0, t)
  else (-30781, t).

#[export] Instance ref_mdb : Mdb := {
  mdb_env := ref_tables;
  mdb_txn := ref_tables;
  mdb_cursor := mdb_table * nat;
  mdb_txn_begin e := (0, e);
  mdb_txn_commit t := (0, t);
  mdb_get t T k := head (ref_values t T k);
  mdb_put := ref_put;
  mdb_cursor_open t T := Some (T, O);
  mdb_cursor_get t c op :=
    let l := ref_table t c.1 in
    let i := match op with
             | MDB_FIRST => Some O
             | MDB_NEXT => Some (S c.2)
             | MDB_LAST => Some (pred (length l))
             | MDB_PREV => match c.2 with O => None | S i => Some i end
             end in
    match i with
    | Some i => match l !! i with Some p => (Some p, (c.1, i)) | None => (None, c) end
    | None => (None, c)
    end;
  mdb_cursor_put t c k v := (ref_put t c.1 k v 0, c)
}.

Lemma pair_insert_elem p q l : q ∈ pair_insert p l <-> q = p \/ q ∈ l.
Proof.
  induction l as [| r l IH]; cbn; [rewrite list_elem_of_singleton, elem_of_nil; tauto |].
  destruct (pair_before p r); rewrite !elem_of_cons; [tauto |]. rewrite IH. tauto.
Qed.
Lemma ref_values_elem t T k v : v ∈ ref_values t T k <-> (k, v) ∈ ref_table t T.
Proof.
  unfold ref_values. rewrite list_elem_of_fmap. split.
  - intros ([k' v'] & -> & H). apply list_elem_of_filter in H as [<- H]. exact H.
  - intros H. exists (k, v). split; [reflexivity |]. apply list_elem_of_filter. auto.
Qed.
Lemma ref_store_same t T l : ref_table (ref_store t T l) T = l.
Proof. destruct T; reflexivity. Qed.
Lemma ref_store_other t T T' l : T' <> T -> ref_table (ref_store t T l) T' = ref_table t T'.
Proof. destruct T, T'; congruence || reflexivity. Qed.
Lemma pair_insert_filter p l k : k <> p.1 ->
  filter (fun q => q.1 = k) (pair_insert p l) = filter (fun q => q.1 = k) l.
Proof.
  intros Hk. induction l as [| q l IH]; cbn [pair_insert].
  - rewrite filter_cons, decide_False by congruence. reflexivity.
  - destruct (pair_before p q).
    + rewrite (filter_cons _ p), decide_False by congruence. reflexivity.
    + rewrite !(filter_cons _ q), IH. reflexivity.
Qed.
Lemma ref_put_new t T k v f :
  mdb_fits k v -> v ∉ ref_values t T k ->
  exists t', ref_put t T k v f = (0, t') /\
    (forall x, x ∈ ref_values t' T k <-> x = v \/ x ∈ ref_values t T k) /\
    forall T' k', (T', k') <> (T, k) -> ref_values t' T' k' = ref_values t T' k'.
Proof.
  intros [Hk Hv] Hn. unfold ref_put.
  replace ((0 <? len k) && (len k <=? 511) && (len v <=? 511)) with true by lia.
  rewrite bool_decide_eq_false_2 by exact Hn. eexists. split; [reflexivity |]. split.
  - intros x. rewrite !ref_values_elem, ref_store_same, pair_insert_elem.
    split; intros [H | H]; auto; left; congruence.
  - intros T' k' Hne. unfold ref_values. destruct (decide (T' = T)) as [-> | HT].
    + rewrite ref_store_same, pair_insert_filter by (cbn; congruence). reflexivity.
    + rewrite ref_store_other by exact HT. reflexivity.
Qed.
Lemma ref_put_there t T k v f :
  v ∈ ref_values t T k -> ref_put t T k v f = (if f =? MDB_NODUPDATA then MDB_KEYEXIST else 0, t).
Proof. intros H. unfold ref_put. rewrite !bool_decide_eq_true_2 by exact H. destruct (_ && _); reflexivity. Qed.

#[export] Instance ref_mdb_laws : MdbLaws ref_mdb.
Proof.
  refine {| env_values := ref_values; txn_values := ref_values; cursor_table := fst;
    mdb_ready := fun _ => True; txn_ready := fun _ => True |}; cbn.
  - eauto.
  - eauto.
  - reflexivity.
  - intros t T k v f _ Hf Hn. destruct (ref_put_new t T k v f Hf Hn) as (t' & H). exists t'. tauto.
  - intros t T k v f _ Hv. exists t. rewrite (ref_put_there t T k v f Hv). auto.
  - eauto.
  - intros t c op k v c'. cbv zeta. destruct (match op with MDB_FIRST => _ | _ => _ end) as [i |]; [| discriminate].
    destruct (ref_table t c.1 !! i) as [p |] eqn:E; [| discriminate]. intros [= -> <-].
    apply ref_values_elem. cbn. eapply list_elem_of_lookup_2, E.
  - intros t c k v Hin. apply ref_values_elem in Hin. destruct (ref_table t c.1) as [| [k' v'] l]; [inversion Hin |].
    cbn. eauto.
  - intros t c op r c'. cbv zeta. destruct (match op with MDB_FIRST => _ | _ => _ end) as [i |]; [| congruence].
    destruct (ref_table t c.1 !! i); congruence || (intros [= _ <-]; reflexivity).
  - intros t c k v _ Hf. destruct (decide (v ∈ ref_values t c.1 k)) as [Hin | Hn].
    + exists t, c. rewrite (ref_put_there t c.1 k v 0 Hin). split; [reflexivity |]. split; [exact I |].
      split; [| reflexivity]. intros x. split; [auto |]. intros [-> | H]; assumption.
    + destruct (ref_put_new t c.1 k v 0 Hf Hn) as (t' & Hp & H). exists t', c. rewrite Hp. tauto.
Defined.
