(* ===== verification/Lmdb.v ===== *)
(** The datastore and the journal kept in the lightning database
    (src/repo/fsrepo/lmdb_datastore.c, lmdb_journalstore.c, lmdb_cursor.c), and that
    they implement the interface of [Storage.Datastore]. *)

From S2P Require Import Prelude Vector Protobuf ProtobufRef Storage Journal Mdb.

(** A failure whose outputs are used all the same. *)
Definition on_undef {E E' A} (m : cres E A) : cres E' A :=
  match m with Ok a => Ok a | NoFuel => NoFuel | _ => Undef end.

Section Lmdb.
Context {PB : Protobuf} {DB : Mdb}.

(** Keys and values of the journal are arrays of functions that have returned when
    the database reads them, which C leaves undefined. [stale b] is what is found where
    [b] was; nothing is known of it but the length, which is kept apart. *)
Context (stale : bytes -> bytes).
(** [os_utils_gmtime]. *)
Context (now : Z).

(** ** Records as bytes *)

(** An error leaves [result] and its size as they were. *)
Definition repo_fsrepo_lmdb_encode_record (record : DatastoreRecord) : cres unit bytes :=
  match varint_encode (rec_timestamp record) 8 with
  | None => Err ()
  | Some ts_varint => Ok (ts_varint ++ rec_value record)
  end.

(** A time that is not read leaves the whole value. With more bytes read than there
    are the size wraps and the value is not allocated. *)
Definition repo_fsrepo_lmdb_build_record (key value : bytes) : cres unit DatastoreRecord :=
  let '(ts, varint_size) := varint_decode value (len value) in
  if len value <? varint_size then Err ()
  else Ok (MkRecord key (bdrop varint_size value) ts).

(** [None]: not found, or no record. *)
Definition repo_fsrepo_lmdb_get_with_transaction (key : bytes) (txn : mdb_txn)
  : cres unit (option DatastoreRecord) :=
  match mdb_get txn DATASTORE key with
  | None => Ok None
  | Some value =>
      match repo_fsrepo_lmdb_build_record key value with
      | Ok r => Ok (Some r)
      | Err _ => Ok None
      | Undef => Undef
      | NoFuel => NoFuel
      end
  end.

(** The environment is as before when its transaction cannot be committed, which is
    not looked at. *)
Definition repo_fsrepo_lmdb_get (key : bytes) (env : option mdb_env)
  : cres unit (Z * option DatastoreRecord * option mdb_env) :=
  match env with
  | None => Ok (0, None, None)
  | Some e =>
      let '(err, txn) := mdb_txn_begin e in
      if negb (err =? 0) then Ok (0, None, env)
      else
        r ← repo_fsrepo_lmdb_get_with_transaction key txn;
        let '(_, e) := mdb_txn_commit txn in
        Ok (match r with Some _ => 1 | None => 0 end, r, Some e)
  end.

(** ** The journal *)

Definition lmdb_journal_record_new : JournalRecord := MkJournalRecord 0 0 0 None 0.

Definition lmdb_journalstore_generate_key (journal_record : JournalRecord) : bytes :=
  stale (default [] (varint_encode (jr_timestamp journal_record) 8)).

Definition lmdb_journalstore_build_key_value_pair (journal_record : JournalRecord)
  : cres unit (bytes * bytes) :=
  hash ← mem_read (jr_hash journal_record) (jr_hash_size journal_record);
  Ok (lmdb_journalstore_generate_key journal_record,
      stale (byte_of (jr_pin journal_record) :: byte_of (jr_pending journal_record) :: hash)).

(** The two flags are read without looking at the size. *)
Definition lmdb_journalstore_build_record (db_key db_value : bytes) : cres unit JournalRecord :=
  match db_value with
  | pin :: pending :: hash =>
      Ok (MkJournalRecord (varint_decode db_key (len db_key)).1 (byte_val pin) (byte_val pending)
            (Some hash) (len hash))
  | _ => Undef
  end.

(** The cursor with the transaction it works in. *)
Record lmdb_trans_cursor := MkTransCursor {
  tc_transaction : option mdb_txn;
  tc_cursor : option mdb_cursor
}.
Definition lmdb_trans_cursor_new : lmdb_trans_cursor := MkTransCursor None None.

(** [handle]: the environment of the context, NULL when there is none. Opening an
    open cursor again reports failure. *)
Definition lmdb_journalstore_cursor_open (handle : option mdb_env) (crsr : option lmdb_trans_cursor)
  (trans_to_use : option mdb_txn) : cres unit (Z * option lmdb_trans_cursor) :=
  match handle with
  | None => Ok (0, crsr)
  | Some e =>
      let cursor := default lmdb_trans_cursor_new crsr in
      let open txn :=
        match tc_cursor cursor with
        | Some _ => Ok (0, Some (MkTransCursor (Some txn) (tc_cursor cursor)))
        | None =>
            match mdb_cursor_open txn JOURNALSTORE with
            | None => Undef (* the transaction is ended and goes on being used *)
            | Some c => Ok (1, Some (MkTransCursor (Some txn) (Some c)))
            end
        end in
      match tc_transaction cursor, trans_to_use with
      | Some txn, _ | None, Some txn => open txn
      | None, None =>
          let '(err, txn) := mdb_txn_begin e in
          if negb (err =? 0) then Ok (0, Some cursor) else open txn
      end
  end.

Definition lmdb_journalstore_composite_key_compare (a b : option JournalRecord) : cres unit Z :=
  match a, b with
  | None, None => Ok 0
  | None, Some _ => Ok 1
  | Some _, None => Ok (-1)
  | Some a, Some b =>
      if negb (jr_timestamp a =? jr_timestamp b) then
        Ok (if jr_timestamp b <? jr_timestamp a then -1 else 1)
      else if negb (jr_hash_size a =? jr_hash_size b) then
        Ok (if jr_hash_size b <? jr_hash_size a then -1 else 1)
      else
        x ← mem_read (jr_hash a) (jr_hash_size a);
        y ← mem_read (jr_hash b) (jr_hash_size b);
        Ok (match find (fun p => negb (byte_val p.1 =? byte_val p.2)) (zip x y) with
            | Some p => byte_val p.2 - byte_val p.1
            | None => 0
            end)
  end.

Inductive DatastoreCursorOp := CURSOR_FIRST | CURSOR_NEXT | CURSOR_LAST | CURSOR_PREVIOUS.
Definition cursor_op (op : DatastoreCursorOp) : MDB_cursor_op :=
  match op with
  | CURSOR_FIRST => MDB_FIRST
  | CURSOR_NEXT => MDB_NEXT
  | CURSOR_LAST => MDB_LAST
  | CURSOR_PREVIOUS => MDB_PREV
  end.

(** From the pair the cursor is at, on to the record looked for: a step that finds
    no next pair goes on with the one there was. *)
Fixpoint cursor_search (fuel : nat) (txn : mdb_txn) (c : mdb_cursor) (record : JournalRecord)
  (kv : bytes * bytes) : cres unit (option JournalRecord * mdb_cursor) :=
  match fuel with
  | O => NoFuel
  | S fuel =>
      curr ← lmdb_journalstore_build_record kv.1 kv.2;
      d ← lmdb_journalstore_composite_key_compare (Some record) (Some curr);
      if d =? 0 then Ok (Some curr, c)
      else if negb (jr_timestamp record =? jr_timestamp curr) then Ok (None, c)
      else
        let '(next, c) := mdb_cursor_get txn c MDB_NEXT in
        cursor_search fuel txn c record (default kv next)
  end.

(** The verdict, the record and the cursor. *)
Definition lmdb_journalstore_cursor_get (fuel : nat) (tc : option lmdb_trans_cursor)
  (op : DatastoreCursorOp) (record : option JournalRecord)
  : cres unit (Z * option JournalRecord * option lmdb_trans_cursor) :=
  match tc with
  | None => Ok (0, record, None)
  | Some t =>
      match tc_transaction t, tc_cursor t with
      | Some txn, Some c =>
          let '(found, c) := mdb_cursor_get txn c (cursor_op op) in
          let at_cursor c := Some (MkTransCursor (Some txn) (Some c)) in
          match found with
          | None => Ok (0, record, at_cursor c)
          | Some kv =>
              match record with
              | None =>
                  r ← lmdb_journalstore_build_record kv.1 kv.2; Ok (1, Some r, at_cursor c)
              | Some r =>
                  if 0 <? jr_hash_size r then
                    '(curr, c) ← cursor_search fuel txn c r kv;
                    Ok (match curr with
                        | Some curr =>
                            (1, Some (MkJournalRecord (jr_timestamp r) (jr_pin curr) (jr_pending curr)
                                        (jr_hash r) (jr_hash_size r)), at_cursor c)
                        | None => (0, record, at_cursor c)
                        end)
                  else
                    r ← lmdb_journalstore_build_record kv.1 kv.2; Ok (1, Some r, at_cursor c)
              end
          end
      | _, _ => Undef
      end
  end.

(** With a cursor of its own the record is looked for from the first pair on. *)
Definition lmdb_journalstore_get_record (fuel : nat) (handle : option mdb_env)
  (journalstore_cursor : lmdb_trans_cursor) (record : option JournalRecord)
  : cres unit (Z * option JournalRecord * lmdb_trans_cursor) :=
  match handle with
  | None => Ok (0, record, journalstore_cursor)
  | Some e =>
      let search t :=
        '(ret, record, t') ← lmdb_journalstore_cursor_get fuel (Some t) CURSOR_FIRST record;
        Ok (if ret =? 0 then 0 else 1, record, default t t') in
      let with_txn t :=
        match tc_cursor t with
        | Some _ => search t
        | None =>
            '(ok, t') ← lmdb_journalstore_cursor_open handle (Some t) None;
            if ok =? 0 then Ok (0, record, default t t') else search (default t t')
        end in
      match tc_transaction journalstore_cursor with
      | Some _ => with_txn journalstore_cursor
      | None =>
          let '(err, txn) := mdb_txn_begin e in
          if negb (err =? 0) then Ok (0, record, journalstore_cursor)
          else with_txn (MkTransCursor (Some txn) (tc_cursor journalstore_cursor))
      end
  end.

(** In the transaction of the cursor, or in one of its own in [environment], which
    is committed when the record was put and must not be used again. *)
Definition lmdb_journalstore_journal_add (environment : mdb_env) (t : lmdb_trans_cursor)
  (record : JournalRecord) : cres unit (Z * lmdb_trans_cursor * mdb_env) :=
  '(key, value) ← lmdb_journalstore_build_key_value_pair record;
  match tc_transaction t with
  | Some txn =>
      let '(err, txn) := mdb_put txn JOURNALSTORE key value 0 in
      Ok (if err =? 0 then 1 else 0, MkTransCursor (Some txn) (tc_cursor t), environment)
  | None =>
      let '(err, txn) := mdb_txn_begin environment in
      if negb (err =? 0) then Undef
      else
        let '(err, txn) := mdb_put txn JOURNALSTORE key value 0 in
        if negb (err =? 0) then Ok (0, MkTransCursor (Some txn) (tc_cursor t), environment)
        else
          let '(err, e) := mdb_txn_commit txn in
          Ok (if err =? 0 then 1 else 0, MkTransCursor None (tc_cursor t), e)
  end.

Definition lmdb_journalstore_cursor_put (crsr : lmdb_trans_cursor) (record : JournalRecord)
  : cres unit (Z * lmdb_trans_cursor) :=
  '(key, value) ← lmdb_journalstore_build_key_value_pair record;
  match tc_transaction crsr, tc_cursor crsr with
  | Some txn, Some c =>
      let '(err, txn, c) := mdb_cursor_put txn c key value in
      Ok (if err =? 0 then 1 else 0, MkTransCursor (Some txn) (Some c))
  | _, _ => Undef
  end.

(** The transaction is committed when asked for; the cursor is freed. *)
Definition lmdb_journalstore_cursor_close (environment : mdb_env) (cursor : option lmdb_trans_cursor)
  (commitTransaction : bool) : Z * mdb_env :=
  match cursor ≫= tc_transaction with
  | Some txn => (1, if commitTransaction then (mdb_txn_commit txn).2 else environment)
  | None => (1, environment)
  end.

(** ** Putting a record *)

(** The time of a record that is put: not later than the one there is, and never in
    the future. *)
Definition earlier_time (existing : option DatastoreRecord) (ts : Z) : Z :=
  match existing with
  | Some r => if negb (rec_timestamp r =? 0) && (rec_timestamp r <? ts) then rec_timestamp r else ts
  | None => ts
  end.
Definition known_time (ts : Z) : Z := if (ts =? 0) || (now <? ts) then now else ts.

(** The journal's record of something put before, as far as it is found. *)
Definition find_journal_record (fuel : nat) (handle : option mdb_env) (t : lmdb_trans_cursor)
  (key : bytes) (ts : Z) : cres unit (JournalRecord * lmdb_trans_cursor) :=
  let new := lmdb_journal_record_new in
  let r := MkJournalRecord ts (jr_pin new) (jr_pending new) (Some key) (len key) in
  '(_, r', t) ← lmdb_journalstore_get_record fuel handle t (Some r);
  Ok (default r r', t).

(** What happens to the journal once the record is put: the verdict of the whole
    and the transaction. *)
Definition put_journal (environment : mdb_env) (t : lmdb_trans_cursor)
  (found : option JournalRecord) (key : bytes) (ts : Z) : cres unit (Z * lmdb_trans_cursor) :=
  match found with
  | Some r =>
      if negb (jr_timestamp r =? ts) then
        lmdb_journalstore_cursor_put t
          (MkJournalRecord ts (jr_pin r) (jr_pending r) (jr_hash r) (jr_hash_size r))
      else Ok (0, t)
  | None =>
      '(_, t, _) ← lmdb_journalstore_journal_add environment t
                     (MkJournalRecord ts 1 1 (Some key) (len key));
      Ok (1, t)
  end.

(** The record is put, then the journal is seen to and the transaction committed. *)
Definition put_and_commit (e : mdb_env) (t : lmdb_trans_cursor) (found : option JournalRecord)
  (key value : bytes) (ts : Z) : cres unit (Z * DatastoreRecord * option mdb_env) :=
  let datastore_record := MkRecord key value ts in
  record ← on_undef (repo_fsrepo_lmdb_encode_record datastore_record);
  match tc_transaction t with
  | None => Undef
  | Some txn =>
      let '(err, txn) := mdb_put txn DATASTORE key record MDB_NODUPDATA in
      let t := MkTransCursor (Some txn) (tc_cursor t) in
      '(retVal, t) ←
        (if err =? 0 then put_journal e t found key ts
         else Ok (if err =? MDB_KEYEXIST then err else 0, t));
      match tc_transaction t with
      | None => Undef
      | Some txn => let '(_, e) := mdb_txn_commit txn in Ok (retVal, datastore_record, Some e)
      end
  end.

Definition lmdb_datastore_create_transaction (db_environment : mdb_env) : option mdb_txn :=
  let '(retVal, mdb_txn) := mdb_txn_begin db_environment in
  if negb (retVal =? 0) then None else Some mdb_txn.
(** The verdict, the caller's record and the environment. [fuel]: for the search in
    the journal. *)
Definition repo_fsrepo_lmdb_put (fuel : nat) (datastore_record : DatastoreRecord)
  (env : option mdb_env) : cres unit (Z * DatastoreRecord * option mdb_env) :=
  match env with
  | None => Ok (0, datastore_record, None)
  | Some e =>
      match lmdb_datastore_create_transaction e with
      | None => Ok (0, datastore_record, env)
      | Some child_transaction =>
        let key := rec_key datastore_record in
        '(_, cursor) ← lmdb_journalstore_cursor_open env None (Some child_transaction);
        match cursor with
        | None => Ok (0, datastore_record, env)
        | Some t =>
            existingRecord ← repo_fsrepo_lmdb_get_with_transaction key child_transaction;
            let ts := earlier_time existingRecord (rec_timestamp datastore_record) in
            match existingRecord with
            | Some _ =>
                '(r, t) ← find_journal_record fuel env t key ts;
                put_and_commit e t (Some r) key (rec_value datastore_record) (known_time ts)
            | None => put_and_commit e t None key (rec_value datastore_record) (known_time ts)
            end
        end
      end
  end.
End Lmdb.

(** * Properties *)

Section LmdbFacts.
Context {PB : Protobuf} `{!ProtobufLaws PB} {DB : Mdb} `{!MdbLaws DB}.

(** Times the eight bytes of a varint can hold. *)
Definition time_ok (ts : Z) : Prop := 0 <= ts < 2 ^ 56.
Lemma time_size ts : time_ok ts -> varint_size ts <= 8.
Proof. intros H. apply (varint_size_pow ts 7); [lia | exact H]. Qed.
Lemma time_size_large ts : 2 ^ 56 <= ts -> 8 < varint_size ts.
Proof.
  intros H. unfold varint_size. assert (56 <= Z.log2 ts) by (apply Z.log2_le_pow2; lia).
  assert (8 <= Z.log2 ts / 7) by (apply Z.div_le_lower_bound; lia). lia.
Qed.
Lemma time_encode ts : time_ok ts -> varint_encode ts 8 = Some (wire_uint ts).
Proof. intros H. pose proof (time_size ts H). apply varint_encode_wire; [unfold time_ok in H; lia | lia]. Qed.
Lemma time_len ts : time_ok ts -> 0 < len (wire_uint ts) <= 8.
Proof.
  intros H. rewrite wire_uint_len by (unfold time_ok in H; lia).
  pose proof (time_size ts H). pose proof (varint_size_pos ts). lia.
Qed.
Lemma time_decode ts x : time_ok ts ->
  varint_decode (wire_uint ts ++ x) (len (wire_uint ts ++ x)) = (ts, len (wire_uint ts)).
Proof.
  intros H. assert (Hr : 0 <= ts < 2 ^ 64) by (unfold time_ok in H; lia).
  rewrite varint_decode_wire, wire_uint_len; [reflexivity | exact Hr | exact Hr |].
  rewrite len_app, wire_uint_len by exact Hr. pose proof (len_nonneg x). lia.
Qed.
Lemma time_decode_key ts : time_ok ts -> (varint_decode (wire_uint ts) (len (wire_uint ts))).1 = ts.
Proof. intros H. pose proof (time_decode ts [] H) as E. rewrite app_nil_r in E. rewrite E. reflexivity. Qed.
Lemma build_record_wire key ts x : time_ok ts ->
  repo_fsrepo_lmdb_build_record key (wire_uint ts ++ x) = Ok (MkRecord key x ts).
Proof.
  intros H. unfold repo_fsrepo_lmdb_build_record. rewrite time_decode by exact H.
  rewrite (proj2 (Z.ltb_ge _ _)) by (rewrite len_app; pose proof (len_nonneg x); lia).
  rewrite bdrop_app_len. reflexivity.
Qed.

(** The time a key of the journal is read as. *)
Definition journal_key_time (key : bytes) : Z := (varint_decode key (len key)).1.
(** What the tables hold: times in front of the values of the datastore, keys of the
    journal that are not read as the time 0, two flags in front of its values. *)
Definition datastore_ok (values : mdb_table -> bytes -> list bytes) : Prop :=
  forall k v, v ∈ values DATASTORE k -> exists ts x, time_ok ts /\ v = wire_uint ts ++ x.
Record tables_ok (values : mdb_table -> bytes -> list bytes) : Prop := {
  tables_datastore : datastore_ok values;
  tables_journal k v : v ∈ values JOURNALSTORE k -> journal_key_time k <> 0 /\ exists p q h, v = p :: q :: h
}.
Definition lmdb_ready (e : mdb_env) : Prop := mdb_ready e /\ tables_ok (env_values e).

(** [w] is [v] with one more value of one key. *)
Definition one_more (v w : mdb_table -> bytes -> list bytes) (T : mdb_table) (k x : bytes) : Prop :=
  (forall y, y ∈ w T k <-> y = x \/ y ∈ v T k) /\
  forall T' k', (T', k') <> (T, k) -> w T' k' = v T' k'.

Lemma mdb_put_any t T k v :
  txn_ready t -> mdb_fits k v ->
  exists t', mdb_put t T k v 0 = (0, t') /\ txn_ready t' /\ one_more (txn_values t) (txn_values t') T k v.
Proof.
  intros Ht Hf. destruct (decide (v ∈ txn_values t T k)) as [Hin | Hn].
  - destruct (mdb_put_there t T k v 0 Ht Hin) as (t' & Hp & Ht' & Hv). exists t'.
    split; [exact Hp |]. split; [exact Ht' |]. split; [| intros; apply Hv].
    intros y. rewrite Hv. split; [auto |]. intros [-> | H]; assumption.
  - destruct (mdb_put_new t T k v 0 Ht Hf Hn) as (t' & Hp & Ht' & Hv & Ho). exists t'.
    split; [exact Hp |]. split; [exact Ht' |]. split; assumption.
Qed.
Lemma one_more_elem v w T k x T' k' y :
  one_more v w T k x -> (y ∈ w T' k' <-> (T', k', y) = (T, k, x) \/ y ∈ v T' k').
Proof.
  intros [Hs Ho]. destruct (decide ((T', k') = (T, k))) as [E | E].
  - injection E as -> ->. rewrite Hs. split; intros [H | H]; auto; left; congruence.
  - rewrite Ho by exact E. split; [auto |]. intros [H | H]; [congruence | exact H].
Qed.
Lemma tables_ok_more v w T k x :
  tables_ok v -> one_more v w T k x ->
  match T with
  | DATASTORE => exists ts d, time_ok ts /\ x = wire_uint ts ++ d
  | JOURNALSTORE => journal_key_time k <> 0 /\ exists p q h, x = p :: q :: h
  end -> tables_ok w.
Proof.
  intros [Hd Hj] Hm Hx. unfold datastore_ok in Hd. constructor; intros k' y Hy;
    rewrite (one_more_elem _ _ _ _ _ _ _ _ Hm) in Hy; destruct Hy as [E | Hy]; eauto;
    injection E as <- <- <-; exact Hx.
Qed.
Lemma tables_ok_same v w : (forall T k, w T k = v T k) -> tables_ok v -> tables_ok w.
Proof. intros H [Hd Hj]. unfold datastore_ok in Hd. constructor; intros k y; rewrite H; eauto. Qed.

(** ** Putting and getting *)

Lemma earlier_time_0 r : 0 <= rec_timestamp r -> earlier_time (Some r) 0 = 0.
Proof. intros H. cbn. replace (rec_timestamp r <? 0) with false by lia. rewrite andb_false_r. reflexivity. Qed.
(** Records of different keys differ. *)
Lemma bytes_differ (x y : bytes) :
  len x = len y -> x <> y ->
  exists p, find (fun p => negb (byte_val p.1 =? byte_val p.2)) (zip x y) = Some p /\ byte_val p.2 - byte_val p.1 <> 0.
Proof.
  revert y. induction x as [| a x IH]; intros [| b y] Hl Hne; unfold len in Hl; cbn [length] in Hl; [congruence | lia.. |]. cbn. destruct (byte_val a =? byte_val b) eqn:E; cbn; [| exists (a, b); split; [reflexivity | cbn; lia]].
  apply IH; [unfold len; lia |]. intros ->. apply Hne. f_equal. apply byte_val_inj. lia.
Qed.
Lemma composite_differs a b x y :
  jr_hash a = Some x -> jr_hash_size a = len x -> jr_hash b = Some y -> jr_hash_size b = len y -> y <> x ->
  exists d, lmdb_journalstore_composite_key_compare (Some a) (Some b) = Ok d /\ d <> 0.
Proof.
  intros Ha Hsa Hb Hsb Hne. unfold lmdb_journalstore_composite_key_compare.
  destruct (negb (jr_timestamp a =? jr_timestamp b)); [eexists; split; [reflexivity |]; by destruct (_ <? _) |].
  destruct (jr_hash_size a =? jr_hash_size b) eqn:E; cbn [negb]; [| eexists; split; [reflexivity |]; by destruct (_ <? _)].
  rewrite Ha, Hb, Hsa, Hsb, !mem_read_all. cbn [mbind cres_bind].
  destruct (bytes_differ x y ltac:(lia) ltac:(congruence)) as (p & -> & Hd). eauto.
Qed.

Section Put.
Context (stale : bytes -> bytes) (now : Z).
Hypothesis stale_size : forall b, len (stale b) = len b.
Hypothesis now_ok : 0 < now /\ time_ok now.

Abbreviation put := (repo_fsrepo_lmdb_put stale now).
Abbreviation get := repo_fsrepo_lmdb_get.

Lemma now_time : time_ok now.
Proof. apply now_ok. Qed.

(** What a record is kept as. *)
Definition kept (v : bytes) : bytes := wire_uint now ++ v.

(** The record of the first value. *)
Definition first_record (k : bytes) (l : list bytes) : option DatastoreRecord :=
  v ← head l;
  match repo_fsrepo_lmdb_build_record k v with Ok r => Some r | _ => None end.

Lemma get_values_ok t k :
  datastore_ok (txn_values t) ->
  exists r, repo_fsrepo_lmdb_get_with_transaction k t = Ok r /\
    r = first_record k (txn_values t DATASTORE k) /\
    match r, txn_values t DATASTORE k with
    | None, [] => True
    | Some r, v :: _ => time_ok (rec_timestamp r) /\ rec_key r = k /\ v = wire_uint (rec_timestamp r) ++ rec_value r
    | _, _ => False
    end.
Proof.
  intros Hd. unfold repo_fsrepo_lmdb_get_with_transaction. rewrite mdb_get_values.
  specialize (Hd k). destruct (txn_values t DATASTORE k) as [| v l]; cbn [head hd_error].
  - exists None. auto.
  - destruct (Hd v ltac:(left)) as (ts & x & Hts & ->). cbn [hd_error].
    exists (Some (MkRecord k x ts)). unfold first_record. cbn [head hd_error mbind option_bind].
    rewrite build_record_wire by exact Hts. cbn. auto.
Qed.

(** A record without a time is never found in a journal whose times are set. *)
Lemma find_journal_none t c fuel h k :
  tables_ok (txn_values t) -> cursor_table c = JOURNALSTORE -> 0 < len k ->
  exists c', find_journal_record (S fuel) (Some h) (MkTransCursor (Some t) (Some c)) k 0 =
      Ok (MkJournalRecord 0 0 0 (Some k) (len k), MkTransCursor (Some t) (Some c')) /\
    cursor_table c' = JOURNALSTORE.
Proof.
  intros [_ Hj] Hc Hk. assert (Hk0 : (0 <? len k) = true) by lia.
  unfold find_journal_record, lmdb_journalstore_get_record, lmdb_journalstore_cursor_get.
  cbn [tc_transaction tc_cursor cursor_op jr_hash_size]. rewrite Hk0.
  destruct (mdb_cursor_get t c MDB_FIRST) as [[[k1 v1] |] c1] eqn:E.
  - pose proof (cursor_get_value _ _ _ _ _ _ E) as Hin. pose proof (cursor_get_table _ _ _ _ _ E) as Ht.
    rewrite Hc in Hin. destruct (Hj _ _ Hin) as (Hts & (p & q & h1 & ->)).
    exists c1. cbn [cursor_search lmdb_journalstore_build_record fst snd mbind cres_bind].
    fold (journal_key_time k1). unfold lmdb_journalstore_composite_key_compare. cbn [jr_timestamp].
    replace (0 =? journal_key_time k1) with false by lia. cbn [negb mbind cres_bind].
    destruct (journal_key_time k1 <? 0); cbn; (split; [reflexivity | congruence]).
  - pose proof (cursor_get_table _ _ _ _ _ E) as Ht. exists c1. cbn.
    split; [reflexivity | congruence].
Qed.

(** The pair of the journal, as it is found where it was. *)
Definition journal_key : bytes := stale (wire_uint now).
Definition journal_value (flag : byte) (k : bytes) : bytes := stale (flag :: flag :: k).
Lemma journal_pair flag k n :
  byte_of n = flag ->
  lmdb_journalstore_build_key_value_pair stale (MkJournalRecord now n n (Some k) (len k)) =
    Ok (journal_key, journal_value flag k).
Proof.
  intros <-. unfold lmdb_journalstore_build_key_value_pair, lmdb_journalstore_generate_key.
  cbn [jr_hash jr_hash_size jr_timestamp jr_pin jr_pending]. rewrite mem_read_all.
  cbn [mbind cres_bind]. rewrite time_encode by apply now_time. reflexivity.
Qed.
Lemma journal_fits flag k : len k <= 500 -> mdb_fits journal_key (journal_value flag k).
Proof.
  intros Hk. pose proof (time_len now now_time). unfold journal_key, journal_value.
  split; rewrite stale_size; [lia |]. rewrite !len_cons. lia.
Qed.

(** The journal after a record is put, with the flags of a new or a known one. *)
Lemma put_journal_ok e t c found k :
  txn_ready t -> cursor_table c = JOURNALSTORE -> len k <= 500 ->
  found = None \/ found = Some (MkJournalRecord 0 0 0 (Some k) (len k)) ->
  exists t' c', put_journal stale e (MkTransCursor (Some t) (Some c)) found k now =
      Ok (1, MkTransCursor (Some t') (Some c')) /\ txn_ready t' /\
    one_more (txn_values t) (txn_values t') JOURNALSTORE journal_key
      (journal_value (match found with None => x01 | Some _ => x00 end) k).
Proof.
  intros Ht Hc Hk Hf. unfold put_journal. destruct Hf as [-> | ->].
  - unfold lmdb_journalstore_journal_add. rewrite (journal_pair x01 k 1 eq_refl).
    cbn [mbind cres_bind tc_transaction].
    destruct (mdb_put_any t JOURNALSTORE journal_key (journal_value x01 k) Ht (journal_fits _ k Hk))
      as (t' & -> & Ht' & Hm).
    exists t', c. auto.
  - cbn [jr_timestamp jr_pin jr_pending jr_hash jr_hash_size].
    replace (0 =? now) with false by (pose proof now_ok; lia). cbn [negb].
    unfold lmdb_journalstore_cursor_put. rewrite (journal_pair x00 k 0 eq_refl).
    cbn [mbind cres_bind tc_transaction tc_cursor].
    destruct (cursor_put_ok t c journal_key (journal_value x00 k) Ht (journal_fits _ k Hk))
      as (t' & c' & -> & Ht' & Hs & Ho).
    rewrite Hc in *. exists t', c'. split; [reflexivity |]. split; [exact Ht' | split; assumption].
Qed.

Lemma journal_tables_ok v w k flag :
  journal_key_time journal_key <> 0 -> tables_ok v -> one_more v w JOURNALSTORE journal_key (journal_value flag k) -> tables_ok w.
Proof.
  intros Ht Hv Hm. apply (tables_ok_more _ _ _ _ _ Hv Hm). split; [exact Ht |].
  pose proof (stale_size (flag :: flag :: k)) as Hl. unfold len in Hl. cbn [length] in Hl.
  unfold journal_value. destruct (stale _) as [| p [| q h]]; cbn [length] in Hl; [lia.. | eauto].
Qed.
Lemma kept_tables_ok v w k x : tables_ok v -> one_more v w DATASTORE k (kept x) -> tables_ok w.
Proof.
  intros Hv Hm. apply (tables_ok_more _ _ _ _ _ Hv Hm). exists now, x. split; [apply now_time | reflexivity].
Qed.

(** The outcome of a put, with the flags the journal gets. *)
Definition put_outcome (v w : mdb_table -> bytes -> list bytes) (k x : bytes) (flag : byte) (ret : Z)
  : Prop :=
  if decide (kept x ∈ v DATASTORE k) then ret = MDB_KEYEXIST /\ forall T k', w T k' = v T k'
  else ret = 1 /\ exists m, one_more v m DATASTORE k (kept x) /\
    one_more m w JOURNALSTORE journal_key (journal_value flag k).

Lemma put_and_commit_ok e t c found k x :
  txn_ready t -> tables_ok (txn_values t) -> cursor_table c = JOURNALSTORE ->
  0 < len k <= 500 -> len x <= 500 ->
  found = None \/ found = Some (MkJournalRecord 0 0 0 (Some k) (len k)) ->
  exists ret e', put_and_commit stale e (MkTransCursor (Some t) (Some c)) found k x now =
      Ok (ret, MkRecord k x now, Some e') /\
    (mdb_ready e' /\ (journal_key_time journal_key <> 0 -> tables_ok (env_values e'))) /\
    put_outcome (txn_values t) (env_values e') k x
      (match found with None => x01 | Some _ => x00 end) ret.
Proof.
  intros Ht Htt Hc Hk Hx Hf. unfold put_and_commit, repo_fsrepo_lmdb_encode_record, put_outcome.
  cbn [rec_timestamp rec_value]. rewrite time_encode by apply now_time.
  cbn [on_undef mbind cres_bind tc_transaction tc_cursor]. fold (kept x).
  assert (Hfit : mdb_fits k (kept x)).
  { pose proof (time_len now now_time). split; [lia |]. unfold kept. rewrite len_app. lia. }
  destruct (decide (kept x ∈ txn_values t DATASTORE k)) as [Hin | Hn].
  - destruct (mdb_put_there t DATASTORE k (kept x) MDB_NODUPDATA Ht Hin) as (t1 & -> & Ht1 & Hv1).
    change (MDB_NODUPDATA =? MDB_NODUPDATA) with true. cbv iota beta.
    change (MDB_KEYEXIST =? 0) with false. change (MDB_KEYEXIST =? MDB_KEYEXIST) with true.
    cbn [mbind cres_bind tc_transaction].
    destruct (txn_commit_ok t1 Ht1) as (e' & -> & He' & Hv'). do 2 eexists. split; [reflexivity |].
    split; [| split; [reflexivity | intros; rewrite Hv'; apply Hv1]].
    split; [exact He' | intros _]. apply (tables_ok_same (txn_values t)); [intros; rewrite Hv'; apply Hv1 | exact Htt].
  - destruct (mdb_put_new t DATASTORE k (kept x) MDB_NODUPDATA Ht Hfit Hn) as (t1 & -> & Ht1 & Hm1).
    assert (Htt1 : tables_ok (txn_values t1)) by (apply (kept_tables_ok _ _ k x Htt Hm1)).
    destruct (put_journal_ok e t1 c found k Ht1 Hc ltac:(lia) Hf) as (t2 & c2 & Hj & Ht2 & Hm2).
    cbn [Z.eqb]. rewrite Hj. cbn [mbind cres_bind tc_transaction].
    destruct (txn_commit_ok t2 Ht2) as (e' & -> & He' & Hv'). do 2 eexists. split; [reflexivity |].
    assert (Hm3 : one_more (txn_values t1) (env_values e') JOURNALSTORE journal_key
      (journal_value (match found with None => x01 | Some _ => x00 end) k)).
    { destruct Hm2 as [H1 H2]. split; [intros y; rewrite Hv'; apply H1 | intros; rewrite Hv'; apply H2; assumption]. }
    split; [split; [exact He' | intros; eapply journal_tables_ok; eassumption] |].
    split; [reflexivity |]. exists (txn_values t1). split; [exact Hm1 | exact Hm3].
Qed.

Lemma lmdb_put_outcome fuel k x e :
  record_fits (MkRecord k x 0) -> lmdb_ready e ->
  exists ret e', put (S fuel) (MkRecord k x 0) (Some e) = Ok (ret, MkRecord k x now, Some e') /\
    (mdb_ready e' /\ (journal_key_time journal_key <> 0 -> tables_ok (env_values e'))) /\
    put_outcome (env_values e) (env_values e') k x
      (if decide (env_values e DATASTORE k = []) then x01 else x00) ret.
Proof.
  intros (Hk & Hv & _) [He Htab]. cbn [rec_key rec_value] in Hk, Hv.
  destruct (txn_begin_ok e He) as (t & Hb & Ht & Hval).
  assert (Htt : tables_ok (txn_values t)) by (apply (tables_ok_same (env_values e)); assumption).
  destruct (cursor_open_ok t JOURNALSTORE Ht) as (c & Hco & Hct).
  destruct (get_values_ok t k (tables_datastore _ Htt)) as (r & Hg & _ & Hr).
  unfold repo_fsrepo_lmdb_put, lmdb_datastore_create_transaction. rewrite Hb. cbn [Z.eqb negb rec_key].
  unfold lmdb_journalstore_cursor_open. cbn [default tc_transaction tc_cursor lmdb_trans_cursor_new].
  rewrite Hco. cbn [mbind cres_bind]. rewrite Hg. cbn [mbind cres_bind rec_timestamp rec_value].
  assert (Hsame : forall flag ret e', put_outcome (txn_values t) (env_values e') k x flag ret ->
    put_outcome (env_values e) (env_values e') k x flag ret).
  { intros flag ret e'. unfold put_outcome, one_more. rewrite Hval. destruct (decide _).
    - intros [-> H]. split; [reflexivity | intros; rewrite H; apply Hval].
    - intros (-> & m & [H1 H2] & H3). split; [reflexivity |]. exists m. split; [| exact H3].
      split; [exact H1 | intros; rewrite H2 by assumption; apply Hval]. }
  rewrite Hval in Hr. destruct r as [r |], (env_values e DATASTORE k) as [| v l] eqn:Ee; try contradiction.
  - destruct Hr as ((H0 & _) & _). rewrite (earlier_time_0 r H0). destruct (find_journal_none t c fuel e k Htt Hct ltac:(lia)) as (c' & -> & Hct').
    cbn [mbind cres_bind known_time Z.eqb orb].
    destruct (put_and_commit_ok e t c' (Some (MkJournalRecord 0 0 0 (Some k) (len k))) k x Ht Htt Hct' Hk Hv
      ltac:(auto)) as (ret & e' & Hp & Hrd & Ho).
    exists ret, e'. rewrite decide_False by discriminate. auto.
  - cbn [earlier_time known_time Z.eqb orb].
    destruct (put_and_commit_ok e t c None k x Ht Htt Hct Hk Hv ltac:(auto)) as (ret & e' & Hp & Hrd & Ho).
    exists ret, e'. rewrite decide_True by reflexivity. auto.
Qed.

(** Getting reads the first value of the key and changes nothing. *)
Lemma lmdb_get_spec k e :
  lmdb_ready e ->
  exists ret r e', get k (Some e) = Ok (ret, r, Some e') /\ lmdb_ready e' /\
    (forall T k', env_values e' T k' = env_values e T k') /\
    r = first_record k (env_values e DATASTORE k) /\
    match r, env_values e DATASTORE k with
    | None, [] => ret = 0
    | Some r, v :: _ => ret = 1 /\ rec_key r = k /\ v = wire_uint (rec_timestamp r) ++ rec_value r
    | _, _ => False
    end.
Proof.
  clear now_ok.
  intros [He Htab]. destruct (txn_begin_ok e He) as (t & Hb & Ht & Hval).
  assert (Htt : tables_ok (txn_values t)) by (apply (tables_ok_same (env_values e)); assumption).
  destruct (get_values_ok t k (tables_datastore _ Htt)) as (r & Hg & Hfr & Hr). destruct (txn_commit_ok t Ht) as (e' & Hc & He' & Hv').
  unfold repo_fsrepo_lmdb_get. rewrite Hb. cbn [Z.eqb negb]. rewrite Hg. cbn [mbind cres_bind]. rewrite Hc.
  do 3 eexists. split; [reflexivity |].
  assert (Hs : forall T k', env_values e' T k' = env_values e T k') by (intros; rewrite Hv'; apply Hval).
  split; [split; [exact He' | apply (tables_ok_same (env_values e)); assumption] |].
  split; [exact Hs |]. rewrite Hval in Hr, Hfr. split; [exact Hfr |]. destruct r, (env_values e DATASTORE k); tauto.
Qed.

(** What a put does to the values of the datastore. *)
Lemma outcome_same v w k x flag ret k' :
  put_outcome v w k x flag ret -> k' <> k -> w DATASTORE k' = v DATASTORE k'.
Proof.
  unfold put_outcome. destruct (decide _); [intros [_ H] _; apply H |].
  intros (_ & m & [_ H1] & [_ H2]) Hne. rewrite H2 by discriminate. apply H1. congruence.
Qed.
Lemma outcome_there v w k x flag ret :
  put_outcome v w k x flag ret -> kept x ∈ w DATASTORE k /\ (ret =? 0) = false.
Proof.
  unfold put_outcome. destruct (decide _) as [Hin | _].
  - intros [-> H]. rewrite H. auto.
  - intros (-> & m & [H1 _] & [_ H2]). rewrite H2 by discriminate. rewrite H1. auto.
Qed.

End Put.

(** *** The interface *)

Section Interface.
(** What is found where the arrays were may differ with every state of the database. *)
Context (stale : mdb_env -> bytes -> bytes) (now : Z).
Hypothesis stale_size : forall e b, len (stale e b) = len b.
Hypothesis stale_time : forall e, journal_key_time (stale e (wire_uint now)) <> 0.
Hypothesis now_ok : 0 < now /\ time_ok now.

Definition lmdb_datastore : Datastore := {|
  ds_state := mdb_env;
  datastore_put r e :=
    match repo_fsrepo_lmdb_put (stale e) now 1 r (Some e) with
    | Ok (ret, _, Some e') => (negb (ret =? 0), e')
    | _ => (false, e)
    end;
  datastore_get k e :=
    match repo_fsrepo_lmdb_get k (Some e) with
    | Ok (_, r, _) => r
    | _ => None
    end
|}.

Lemma lmdb_get_first k e :
  lmdb_ready e -> @datastore_get lmdb_datastore k e = first_record k (env_values e DATASTORE k).
Proof.
  intros He. destruct (lmdb_get_spec k e He) as (ret & r & e' & Hg & _ & _ & Hr & _).
  cbn [datastore_get lmdb_datastore]. rewrite Hg. exact Hr.
Qed.
Lemma lmdb_get_some k e :
  lmdb_ready e -> env_values e DATASTORE k <> [] -> is_Some (@datastore_get lmdb_datastore k e).
Proof.
  intros He Hn. rewrite lmdb_get_first by exact He.
  destruct (lmdb_get_spec k e He) as (n1 & r & e1 & _ & _ & _ & Hfr & Hr). rewrite <- Hfr.
  destruct r, (env_values e DATASTORE k); try contradiction; eauto.
Qed.

(** A value put under a new key is the one found. *)
Lemma lmdb_get_fresh k x e e' flag ret :
  lmdb_ready e -> lmdb_ready e' -> @datastore_get lmdb_datastore k e = None ->
  put_outcome (stale e) now (env_values e) (env_values e') k x flag ret ->
  exists r, @datastore_get lmdb_datastore k e' = Some r /\ rec_value r = x.
Proof.
  intros He He' Hn Ho. assert (Hv : env_values e DATASTORE k = []).
  { destruct (env_values e DATASTORE k) eqn:E; [reflexivity |].
    destruct (lmdb_get_some k e He) as [r Hr]; [rewrite E; discriminate |]. congruence. }
  unfold put_outcome in Ho. rewrite Hv, decide_False in Ho by (intros H; inversion H).
  destruct Ho as (_ & m & [H1 _] & [_ H2]). rewrite Hv in H1.
  assert (H : forall y, y ∈ env_values e' DATASTORE k <-> y = kept now x).
  { intros y. rewrite H2 by discriminate. rewrite H1. split; [intros [-> | Hy]; [reflexivity | inversion Hy] | auto]. }
  rewrite lmdb_get_first by exact He'. unfold first_record.
  destruct (env_values e' DATASTORE k) as [| v l]; [exfalso; apply (not_elem_of_nil (kept now x)), H; reflexivity |].
  rewrite (proj1 (H v) ltac:(left)). cbn [head hd_error mbind option_bind]. unfold kept.
  rewrite build_record_wire by apply now_ok. eauto.
Qed.

#[export] Instance lmdb_datastore_laws : DatastoreLaws lmdb_datastore.
Proof.
  refine {| ds_ready := lmdb_ready : @ds_state lmdb_datastore -> Prop |}.
  - intros [k x ts] e He Hf. pose proof Hf as (_ & _ & Hts). cbn in Hts. subst ts.
    destruct (lmdb_put_outcome (stale e) now (stale_size e) now_ok 0 k x e Hf He) as (ret & e' & Hp & [He' Ht] & Ho). exists e'.
    cbn [datastore_put lmdb_datastore]. rewrite Hp. specialize (Ht (stale_time e)).
    destruct (outcome_there _ _ _ _ _ _ _ _ Ho) as [_ ->]. split; [reflexivity | split; assumption].
  - intros [k x ts] e e' He Hf. pose proof Hf as (_ & _ & Hts). cbn in Hts. subst ts.
    destruct (lmdb_put_outcome (stale e) now (stale_size e) now_ok 0 k x e Hf He) as (ret & e1 & Hp & [Hr1 Ht1] & Ho).
    pose proof (conj Hr1 (Ht1 (stale_time e)) : lmdb_ready e1) as He1.
    cbn [datastore_put lmdb_datastore rec_key]. rewrite Hp. intros [= _ <-].
    apply lmdb_get_some; [exact He1 |]. destruct (outcome_there _ _ _ _ _ _ _ _ Ho) as [Hin _].
    intros E. rewrite E in Hin. inversion Hin.
  - intros [k x ts] e e' He Hf. pose proof Hf as (_ & _ & Hts). cbn in Hts. subst ts.
    destruct (lmdb_put_outcome (stale e) now (stale_size e) now_ok 0 k x e Hf He) as (ret & e1 & Hp & [Hr1 Ht1] & Ho).
    pose proof (conj Hr1 (Ht1 (stale_time e)) : lmdb_ready e1) as He1.
    cbn [datastore_put lmdb_datastore rec_key rec_value]. rewrite Hp. intros Hn [= _ <-].
    apply (lmdb_get_fresh k x e e1 _ ret He He1 Hn Ho).
  - intros [k x ts] e b e' k' He Hf. pose proof Hf as (_ & _ & Hts). cbn in Hts. subst ts.
    destruct (lmdb_put_outcome (stale e) now (stale_size e) now_ok 0 k x e Hf He) as (ret & e1 & Hp & [Hr1 Ht1] & Ho).
    pose proof (conj Hr1 (Ht1 (stale_time e)) : lmdb_ready e1) as He1.
    cbn [datastore_put lmdb_datastore rec_key]. rewrite Hp. intros [= _ <-] Hne.
    rewrite !lmdb_get_first by assumption. rewrite (outcome_same _ _ _ _ _ _ _ _ k' Ho Hne). reflexivity.
Defined.
End Interface.

(** A search in a journal whose records are all read as of the time 0, none of them the one looked for,
    never comes back. *)
Lemma cursor_search_never fuel t c r k1 v1 k :
  cursor_table c = JOURNALSTORE -> jr_timestamp r = 0 -> jr_hash r = Some k -> jr_hash_size r = len k ->
  (forall k' v, v ∈ txn_values t JOURNALSTORE k' ->
     journal_key_time k' = 0 /\ exists p q h, v = p :: q :: h /\ h <> k) ->
  v1 ∈ txn_values t JOURNALSTORE k1 -> cursor_search fuel t c r (k1, v1) = NoFuel.
Proof.
  intros Hc Ht Hh Hs Hj. revert c k1 v1 Hc. induction fuel as [| fuel IH]; [reflexivity |].
  intros c k1 v1 Hc Hin. destruct (Hj _ _ Hin) as (Htime & p & q & h & -> & Hne).
  cbn [cursor_search lmdb_journalstore_build_record fst snd mbind cres_bind].
  fold (journal_key_time k1). rewrite Htime.
  destruct (composite_differs r (MkJournalRecord 0 (byte_val p) (byte_val q) (Some h) (len h)) k h Hh Hs eq_refl eq_refl Hne)
    as (d & -> & Hd).
  cbn [mbind cres_bind jr_timestamp]. rewrite (proj2 (Z.eqb_neq _ _) Hd), Ht. cbn [Z.eqb negb].
  destruct (mdb_cursor_get t c MDB_NEXT) as [[[k2 v2] |] c2] eqn:E; cbn [default].
  - apply IH; [by rewrite (cursor_get_table _ _ _ _ _ E) |].
    rewrite <- Hc. exact (cursor_get_value _ _ _ _ _ _ E).
  - apply IH; [by rewrite (cursor_get_table _ _ _ _ _ E) | exact Hin].
Qed.

(** C14: putting a record without a time keeps its value with the present time in front, as one more value
    of its key, whatever the dead arrays of the journal hold by then ([stale], of which only the length is
    known). The journal gets one more pair: what is found where the time was, under which is what was found where two flags
    and the key were, both flags set when the key is new and both cleared when it is not. The verdict is 1,
    or that the pair was there, when nothing changes. The tables are as they have to be for the next put
    unless that time is then read as 0: with a journal of such records, none of them the key's, putting
    a key that is there never comes back. *)
Theorem lmdb_put_spec (stale : bytes -> bytes) now fuel k x e :
  0 < now /\ time_ok now -> (forall b, len (stale b) = len b) ->
  record_fits (MkRecord k x 0) -> mdb_ready e ->
  (tables_ok (env_values e) ->
   exists ret e', repo_fsrepo_lmdb_put stale now (S fuel) (MkRecord k x 0) (Some e) =
       Ok (ret, MkRecord k x now, Some e') /\
     (mdb_ready e' /\ (journal_key_time (stale (wire_uint now)) <> 0 -> tables_ok (env_values e'))) /\
     put_outcome stale now (env_values e) (env_values e') k x
       (if decide (env_values e DATASTORE k = []) then x01 else x00) ret) /\
  (datastore_ok (env_values e) -> env_values e DATASTORE k <> [] ->
   (exists k' v, v ∈ env_values e JOURNALSTORE k') ->
   (forall k' v, v ∈ env_values e JOURNALSTORE k' ->
      journal_key_time k' = 0 /\ exists p q h, v = p :: q :: h /\ h <> k) ->
   repo_fsrepo_lmdb_put stale now fuel (MkRecord k x 0) (Some e) = NoFuel).
Proof.
  intros Hnow Hs Hf He. split; [intros Ht; apply lmdb_put_outcome; (assumption || split; assumption) |].
  intros Hd Hk (k' & v & Hin) Hj. destruct Hf as (Hlk & _). cbn [rec_key] in Hlk.
  destruct (txn_begin_ok e He) as (t & Hb & Ht & Hval).
  destruct (cursor_open_ok t JOURNALSTORE Ht) as (c & Hco & Hct).
  assert (Hd' : datastore_ok (txn_values t)) by (intros a b; rewrite Hval; apply Hd).
  destruct (get_values_ok t k Hd') as (r & Hg & _ & Hr).
  unfold repo_fsrepo_lmdb_put, lmdb_datastore_create_transaction. rewrite Hb. cbn [Z.eqb negb rec_key].
  unfold lmdb_journalstore_cursor_open. cbn [default tc_transaction tc_cursor lmdb_trans_cursor_new].
  rewrite Hco. cbn [mbind cres_bind]. rewrite Hg. cbn [mbind cres_bind rec_timestamp rec_value].
  rewrite Hval in Hr. destruct r as [r |], (env_values e DATASTORE k) as [| v0 l]; try contradiction.
  destruct Hr as ((H0 & _) & _). rewrite (earlier_time_0 r H0).
  unfold find_journal_record, lmdb_journalstore_get_record, lmdb_journalstore_cursor_get.
  cbn [tc_transaction tc_cursor cursor_op jr_hash_size]. replace (0 <? len k) with true by lia.
  rewrite <- Hval, <- Hct in Hin. destruct (cursor_first t c k' v Hin) as (k1 & v1 & c1 & Hfirst). rewrite Hfirst.
  rewrite (cursor_search_never fuel t c1 _ k1 v1 k); try reflexivity.
  - rewrite <- Hct. exact (cursor_get_table _ _ _ _ _ Hfirst).
  - intros a b. rewrite Hval. apply Hj.
  - rewrite <- Hct. exact (cursor_get_value _ _ _ _ _ _ Hfirst).
Qed.

(** ** Codecs *)

(** A record whose time fits eight bytes of varint is built again from its value
    in the database, and a later one is not encoded; a journal record is built again
    from its key and value, its flags modulo 256, when the memory the two point to is
    still what it was. *)
Theorem lmdb_record_roundtrip k v ts (stale : bytes -> bytes) jr hash :
  0 <= ts < 2 ^ 64 -> jr_hash jr = Some hash -> jr_hash_size jr = len hash ->
  jr_timestamp jr = ts -> (forall b, stale b = b) ->
  if decide (ts < 2 ^ 56) then
    (exists b, repo_fsrepo_lmdb_encode_record (MkRecord k v ts) = Ok b /\
       len b <= 8 + len v /\ repo_fsrepo_lmdb_build_record k b = Ok (MkRecord k v ts)) /\
    exists db_key db_value,
      lmdb_journalstore_build_key_value_pair stale jr = Ok (db_key, db_value) /\
      len db_value = len hash + 2 /\
      lmdb_journalstore_build_record db_key db_value =
        Ok (MkJournalRecord ts (jr_pin jr mod 256) (jr_pending jr mod 256) (Some hash) (len hash))
  else repo_fsrepo_lmdb_encode_record (MkRecord k v ts) = Err ().
Proof.
  intros Hts Hh Hs Ht Hst. unfold repo_fsrepo_lmdb_encode_record. cbn [rec_timestamp rec_value].
  destruct (decide (ts < 2 ^ 56)) as [Hlt | Hge].
  - assert (Hok : time_ok ts) by (unfold time_ok; lia). pose proof (time_len ts Hok) as Hl.
    rewrite time_encode by exact Hok. split.
    + eexists. split; [reflexivity |]. split; [rewrite len_app; lia | apply build_record_wire, Hok].
    + unfold lmdb_journalstore_build_key_value_pair, lmdb_journalstore_generate_key.
      rewrite Hh, Hs, mem_read_all. cbn [mbind cres_bind]. rewrite !Hst, Ht, time_encode by exact Hok.
      exists (wire_uint ts), (byte_of (jr_pin jr) :: byte_of (jr_pending jr) :: hash).
      split; [reflexivity |]. split; [rewrite !len_cons; lia |].
      cbn [lmdb_journalstore_build_record]. rewrite time_decode_key by exact Hok.
      rewrite !byte_val_of. reflexivity.
  - pose proof (time_size_large ts ltac:(lia)). rewrite varint_encode_small by lia. reflexivity.
Qed.

(** Looking a record up in the journal looks at the first pair of the table and
    those behind it with its time: a record of another time is not found; one that
    is the first pair is, with its flags; and when the table ends before the record
    is met the search goes on for ever. *)
Theorem journal_search_spec t c ts p q hash c1 r fuel :
  time_ok ts -> 0 < jr_hash_size r -> jr_hash_size r = len (default [] (jr_hash r)) ->
  mdb_cursor_get t c MDB_FIRST = (Some (wire_uint ts, p :: q :: hash), c1) ->
  let search fuel := lmdb_journalstore_cursor_get fuel (Some (MkTransCursor (Some t) (Some c)))
                       CURSOR_FIRST (Some r) in
  (jr_timestamp r <> ts ->
     search (S fuel) = Ok (0, Some r, Some (MkTransCursor (Some t) (Some c1)))) /\
  (jr_timestamp r = ts -> jr_hash r = Some hash ->
     search (S fuel) = Ok (1, Some (MkJournalRecord ts (byte_val p) (byte_val q) (Some hash) (len hash)),
                           Some (MkTransCursor (Some t) (Some c1)))) /\
  (jr_timestamp r = ts -> jr_hash_size r <> len hash ->
     mdb_cursor_get t c1 MDB_NEXT = (None, c1) -> search fuel = NoFuel).
Proof.
  intros Hts Hpos Hlen Hfirst search. subst search. cbv beta.
  unfold lmdb_journalstore_cursor_get. cbn [tc_transaction tc_cursor cursor_op]. rewrite Hfirst.
  replace (0 <? jr_hash_size r) with true by lia.
  assert (Hb : lmdb_journalstore_build_record (wire_uint ts) (p :: q :: hash) =
    Ok (MkJournalRecord ts (byte_val p) (byte_val q) (Some hash) (len hash))).
  { cbn [lmdb_journalstore_build_record]. rewrite time_decode_key by exact Hts. reflexivity. }
  split; [| split].
  - intros Hne. cbn [cursor_search fst snd]. rewrite Hb. cbn [mbind cres_bind jr_timestamp].
    unfold lmdb_journalstore_composite_key_compare. cbn [jr_timestamp].
    replace (jr_timestamp r =? ts) with false by lia. cbn [negb mbind cres_bind].
    destruct (ts <? jr_timestamp r); reflexivity.
  - intros Ht Hh. cbn [cursor_search fst snd]. rewrite Hb. cbn [mbind cres_bind jr_timestamp].
    rewrite Hh in Hlen. cbn in Hlen.
    unfold lmdb_journalstore_composite_key_compare. cbn [jr_timestamp jr_hash_size jr_hash].
    rewrite Ht, Z.eqb_refl, Hlen, Z.eqb_refl, Hh, mem_read_all. cbn [negb mbind cres_bind].
    assert (Hz : find (fun p => negb (byte_val p.1 =? byte_val p.2)) (zip hash hash) = None).
    { induction hash as [| x l IH]; [reflexivity |]. cbn. rewrite Z.eqb_refl. cbn. clear - l.
      induction l as [| y l IH]; [reflexivity |]. cbn. rewrite Z.eqb_refl. exact IH. }
    rewrite Hz. reflexivity.
  - intros Ht Hne Hnext. assert (Hs : cursor_search fuel t c1 r (wire_uint ts, p :: q :: hash) = NoFuel).
    { induction fuel as [| fuel IH]; [reflexivity |]. cbn [cursor_search fst snd]. rewrite Hb.
      cbn [mbind cres_bind]. unfold lmdb_journalstore_composite_key_compare. cbn [jr_timestamp jr_hash_size].
      rewrite Ht, Z.eqb_refl. replace (jr_hash_size r =? len hash) with false by lia. cbn [negb mbind cres_bind].
      destruct (len hash <? jr_hash_size r); cbn [Z.eqb Z.opp]; rewrite Hnext; cbn [default]; exact IH. }
    rewrite Hs. reflexivity.
Qed.
End LmdbFacts.

(** * Concrete runs *)

Definition sample_now : Z := 1700000000.
Definition sample_env : @mdb_env ref_mdb := MkTables [] [].

Lemma sample_env_ready : lmdb_ready sample_env.
Proof. split; [exact I |]. constructor; intros k v H; inversion H. Qed.

Lemma sample_now_ok : 0 < sample_now /\ time_ok sample_now.
Proof. unfold time_ok, sample_now. lia. Qed.

(** Dead arrays overwritten with ones: a time that is not 0. *)
Definition overwritten (b : bytes) : bytes := map (fun _ => x01) b.
Lemma overwritten_size b : len (overwritten b) = len b.
Proof. unfold len, overwritten. rewrite length_map. reflexivity. Qed.
Lemma overwritten_time : journal_key_time (overwritten (wire_uint sample_now)) <> 0.
Proof. vm_compute. discriminate. Qed.
(** Dead arrays that are zero, and what they leave in the journal. *)
Definition zeroed (b : bytes) : bytes := map (fun _ => x00) b.
Definition zeroed_env : @mdb_env ref_mdb :=
  match repo_fsrepo_lmdb_put zeroed sample_now 1 (MkRecord (str "key") (str "value") 0) (Some sample_env) with
  | Ok (_, _, Some e) => e
  | _ => sample_env
  end.

(** A new key is put, and a second time it never is, when the arrays are zero. *)
Lemma lmdb_put_spec_witness :
  (exists e', repo_fsrepo_lmdb_put overwritten sample_now 1 (MkRecord (str "key") (str "value") 0)
      (Some sample_env) = Ok (1, MkRecord (str "key") (str "value") sample_now, Some e') /\
    lmdb_ready e') /\
  repo_fsrepo_lmdb_put zeroed sample_now 1000 (MkRecord (str "key") (str "other") 0) (Some zeroed_env) = NoFuel.
Proof.
  split.
  - destruct (lmdb_put_spec overwritten sample_now 0 (str "key") (str "value") sample_env sample_now_ok
      overwritten_size ltac:(repeat split; vm_compute; discriminate) (proj1 sample_env_ready)) as [H _].
    destruct (H (proj2 sample_env_ready)) as (ret & e' & Hp & [He Ht] & Ho).
    exists e'. split; [| split; [exact He | apply Ht; vm_compute; discriminate]]. rewrite Hp. repeat f_equal.
    unfold put_outcome in Ho. rewrite decide_False in Ho by (intros H1; inversion H1). apply Ho.
  - apply (lmdb_put_spec zeroed sample_now 1000 (str "key") (str "other") zeroed_env sample_now_ok).
    + intros b. unfold len, zeroed. rewrite length_map. reflexivity.
    + repeat split; vm_compute; discriminate.
    + exact I.
    + intros k v Hv. apply ref_values_elem in Hv. vm_compute in Hv. apply list_elem_of_singleton in Hv.
      exists sample_now, (str "value"). split; [apply sample_now_ok |]. injection Hv as _ ->. vm_compute. reflexivity.
    + vm_compute. discriminate.
    + eexists (map (fun _ => x00) (wire_uint sample_now)), (x00 :: x00 :: [x00; x00; x00]).
      apply ref_values_elem. vm_compute. apply list_elem_of_here.
    + intros k v Hv. apply ref_values_elem in Hv. vm_compute in Hv. apply list_elem_of_singleton in Hv.
      injection Hv as -> ->. split; [vm_compute; reflexivity |].
      exists x00, x00, [x00; x00; x00]. split; [reflexivity | discriminate].
Defined.

Lemma lmdb_record_roundtrip_witness :
  (exists b, repo_fsrepo_lmdb_encode_record (MkRecord (str "key") (str "value") sample_now) = Ok b /\
     repo_fsrepo_lmdb_build_record (str "key") b = Ok (MkRecord (str "key") (str "value") sample_now)) /\
  repo_fsrepo_lmdb_encode_record (MkRecord (str "key") (str "value") (2 ^ 60)) = Err ().
Proof.
  pose proof (lmdb_record_roundtrip (str "key") (str "value") sample_now id
    (MkJournalRecord sample_now 1 1 (Some (str "key")) 3) (str "key")
    ltac:(unfold sample_now; lia) eq_refl eq_refl eq_refl (fun _ => eq_refl)) as H1.
  pose proof (lmdb_record_roundtrip (str "key") (str "value") (2 ^ 60) id
    (MkJournalRecord (2 ^ 60) 1 1 (Some (str "key")) 3) (str "key")
    ltac:(lia) eq_refl eq_refl eq_refl (fun _ => eq_refl)) as H2.
  rewrite decide_True in H1 by (unfold sample_now; lia). rewrite decide_False in H2 by lia.
  destruct H1 as [(b & H1 & _ & H3) _]. split; [exists b; auto | exact H2].
Defined.

(** A journal of one record, and one of the same time that is not there. *)
Definition sample_journal : @mdb_txn ref_mdb :=
  MkTables [] [(wire_uint sample_now, x01 :: x01 :: str "key")].
Definition sample_cursor : @mdb_cursor ref_mdb := (JOURNALSTORE, O).
Lemma journal_search_spec_witness :
  lmdb_journalstore_cursor_get 1000
    (Some (MkTransCursor (Some sample_journal) (Some sample_cursor)))
    CURSOR_FIRST (Some (MkJournalRecord sample_now 0 0 (Some (str "other")) 5)) = NoFuel.
Proof.
  apply (journal_search_spec sample_journal sample_cursor sample_now x01 x01 (str "key") sample_cursor
    (MkJournalRecord sample_now 0 0 (Some (str "other")) 5) 1000); try reflexivity.
  - apply sample_now_ok.
  - discriminate.
Defined.
