(* ===== verification/Codecs.v ===== *)
(** All the decoders of the program together: none of them can run for ever on
    bytes it is handed, whatever they are. *)

From S2P Require Import Prelude Vector Protobuf Libs Cid UnixFS MerkleNode Block BitswapMessage Journal.

Section Codecs.
Context {PB : Protobuf} `{!ProtobufLaws PB} {MH : Multihash} {VE : Libp2pVector}.

(** C20: every protobuf decoder returns on every buffer: the fields taken from it
    one by one end after at most as many steps as the buffer is told to have bytes, whether
    the message is read, refused or leaves the program undefined. The position, a [size_t],
    cannot wrap before a decoder has read past the memory of the buffer, which is undefined. *)
Theorem decoders_terminate b n chain entry block :
  returns (ipfs_cid_protobuf_decode b n) /\
  returns (ipfs_unixfs_protobuf_decode b n) /\
  returns (ipfs_node_link_protobuf_decode b n) /\
  returns (ipfs_hashtable_node_protobuf_decode b n chain) /\
  returns (ipfs_blocks_block_protobuf_decode b n) /\
  returns (ipfs_bitswap_message_block_protobuf_decode b n block) /\
  returns (ipfs_bitswap_wantlist_entry_protobuf_decode b n entry) /\
  returns (ipfs_bitswap_wantlist_protobuf_decode b n entry) /\
  returns (ipfs_bitswap_message_protobuf_decode b n entry) /\
  returns (ipfs_journal_entry_decode b n) /\
  returns (ipfs_journal_message_decode b n).
Proof.
  split_and!;
    auto using cid_decode_returns, unixfs_decode_returns, link_decode_returns,
      node_decode_returns, block_decode_returns, bitswap_block_decode_returns,
      entry_decode_returns, wantlist_decode_returns, message_decode_returns,
      journal_entry_decode_returns, journal_message_decode_returns.
Qed.
End Codecs.
