(* ===== verification/Blockstore.v ===== *)
(** The block store, a directory of files named by the base 32 of a hash
    (src/blocks/blockstore.c), and the datastore helper (src/datastore/ds_helper.c). *)

From S2P Require Import Prelude Libc Protobuf Libs Storage ProtobufRef LibsRef.
From S2P Require Import Cid UnixFS MerkleNode Block.

(** ** Datastore keys *)

Section Keys.
Context {B32 : Base32}.

Definition ipfs_datastore_helper_ds_key_from_binary (binary_array : option bytes)
  (array_length max_results_length : Z) : cres unit bytes :=
  let encoded_length := @enc_encode_size base32 array_length in
  if max_results_length <? encoded_length then Err ()
  else
    b ← mem_read binary_array array_length;
    match @enc_encode base32 b max_results_length with
    | None => Err ()
    | Some s => Ok s
    end.

Definition ipfs_datastore_helper_binary_from_ds_key (ds_key : bytes)
  (key_length max_binary_array_length : Z) : cres unit bytes :=
  let decoded_length := @enc_decode_size base32 key_length in
  if max_binary_array_length <? decoded_length then Err ()
  else
    s ← mem_read (Some ds_key) key_length;
    match @enc_decode base32 s max_binary_array_length with
    | None => Err ()
    | Some b => Ok b
    end.

(** A returned NULL is an error; otherwise the string before its NUL. *)
Definition ipfs_blockstore_hash_to_base32 (hash : option bytes) (hash_length : Z)
  : cres unit bytes :=
  let key_length := @enc_encode_size base32 hash_length in
  ipfs_datastore_helper_ds_key_from_binary hash hash_length key_length.
Definition ipfs_blockstore_cid_to_base32 (cid : Cid) : cres unit bytes :=
  let key_length := @enc_encode_size base32 (cid_hash_length cid) in
  ipfs_datastore_helper_ds_key_from_binary (cid_hash cid) (cid_hash_length cid) key_length.
End Keys.

(** ** Files *)

Section Blockstore.
Context {PB : Protobuf} {MH : Multihash} {B32 : Base32} {OS : OsUtils} {DS : Datastore}.

(** [fs_repo->path]. *)
Context (path : bytes).

(** A failed first join frees a local array; a failed second one leaves the
    result uninitialised. *)
Definition ipfs_blockstore_path_get (filename : bytes) : cres unit bytes :=
  let filepath_size := len path + 12 in
  match os_utils_filepath_join path (str "blockstore") filepath_size with
  | None => Undef
  | Some filepath =>
      let complete_filename_size := len filepath + len filename + 2 in
      match os_utils_filepath_join filepath filename complete_filename_size with
      | None => Undef
      | Some complete_filename => Ok complete_filename
      end
  end.

(** The name of the file a hash is kept in. A NULL key is a NULL file name. *)
Definition file_of_hash (hash : option bytes) (hash_length : Z) : cres unit bytes :=
  match ipfs_blockstore_hash_to_base32 hash hash_length with
  | Ok key => ipfs_blockstore_path_get (c_str key)
  | Err _ => Undef
  | Undef => Undef
  | NoFuel => NoFuel
  end.

(** The callers size their buffer by the file and read it whole. [None]: the
    file is not there. *)
Definition load_file (filename : bytes) (w : World) : option bytes :=
  read_file (w_fs w) filename (os_utils_file_size (fs_files (w_fs w)) filename).

Definition ipfs_blockstore_delete (cid : Cid) : io unit Z := mret 0.
Definition ipfs_blockstore_has (cid : Cid) : io unit Z := mret 0.

Definition ipfs_blockstore_get (cid : Cid) : io unit Block :=
  filename ← lift (file_of_hash (cid_hash cid) (cid_hash_length cid));
  look (fun w =>
    match load_file filename w with
    | None => Err ()
    | Some buffer =>
        block ← ipfs_blocks_block_protobuf_decode buffer (len buffer);
        cid ← ipfs_cid_copy cid;
        Ok (MkBlock (Some cid) (bl_data block) (bl_data_length block))
    end).

(** Writes [protobuf] to the file of [key]: the common end of the put functions.
    An error says what was stored in [*bytes_written], if anything was. *)
Definition put_under (key protobuf : bytes) : io (option Z) Z :=
  filename ← lift (on_err (ipfs_blockstore_path_get (c_str key)) None);
  bytes_written ← put_file filename protobuf;
  if bytes_written =? len protobuf then mret bytes_written else fail (Some bytes_written).

Definition ipfs_blockstore_put (block : Block) : io (option Z) Z :=
  match bl_cid block with
  | None => lift Undef
  | Some cid =>
      key ← lift (on_err (ipfs_blockstore_cid_to_base32 cid) None);
      let protobuf_len := ipfs_blocks_block_protobuf_encode_size block in
      protobuf ← lift (on_err (ipfs_blocks_block_protobuf_encode block protobuf_len) None);
      put_under key protobuf
  end.

Definition ipfs_blockstore_put_unixfs (unix_fs : UnixFS) : io (option Z) Z :=
  key ← lift (on_err (ipfs_blockstore_hash_to_base32 (ux_hash unix_fs)
                        (ux_hash_length unix_fs)) None);
  let protobuf_len := ipfs_unixfs_protobuf_encode_size unix_fs in
  protobuf ← lift (on_err (ipfs_unixfs_protobuf_encode (Some unix_fs) protobuf_len) None);
  put_under key protobuf.

Definition ipfs_blockstore_put_node (node : HashtableNode) : io (option Z) Z :=
  key ← lift (on_err (ipfs_blockstore_hash_to_base32 (nd_hash node) (nd_hash_size node)) None);
  protobuf_len ← lift (ipfs_hashtable_node_protobuf_encode_size node);
  protobuf ← lift (on_err (ipfs_hashtable_node_protobuf_encode node protobuf_len) None);
  put_under key protobuf.

(** Reading from a file that did not open is undefined. *)
Definition ipfs_blockstore_get_unixfs (hash : option bytes) (hash_length : Z)
  : io unit UnixFS :=
  filename ← lift (file_of_hash hash hash_length);
  look (fun w =>
    match load_file filename w with
    | None => Undef
    | Some buffer => on_err (ipfs_unixfs_protobuf_decode buffer (len buffer)) ()
    end).

(** A block that does not decode has been freed by the decoder, and is freed
    again here. [caller_node]: the caller's [*node] is NULL or a node. *)
Definition ipfs_blockstore_get_node (hash : option bytes) (hash_length : Z)
  (caller_node : bool) : io unit HashtableNode :=
  filename ← lift (file_of_hash hash hash_length);
  look (fun w =>
    match load_file filename w with
    | None => Undef
    | Some buffer =>
        match ipfs_blocks_block_protobuf_decode buffer (len buffer) with
        | Ok block =>
            data ← mem_read (bl_data block) (bl_data_length block);
            ipfs_hashtable_node_protobuf_decode data (bl_data_length block) caller_node
        | Err _ => Undef
        | Undef => Undef
        | NoFuel => NoFuel
        end
    end).

(** ** The datastore helper *)

Definition ipfs_datastore_helper_add_block_to_datastore (block : Block) : io unit unit :=
  match bl_cid block with
  | None => lift Undef
  | Some cid =>
      key ← lift (mem_read (cid_hash cid) (cid_hash_length cid));
      fs_key ← lift (ipfs_datastore_helper_ds_key_from_binary (cid_hash cid)
                       (cid_hash_length cid) 100);
      ok ← put_record (MkRecord key fs_key 0);
      if (ok : bool) then mret () else fail ()
  end.
End Blockstore.

(** * Properties *)

Section Facts.
Context {PB : Protobuf} {MH : Multihash} {B32 : Base32} {OS : OsUtils} {DS : Datastore}.
Context `{!ProtobufLaws PB} `{!Base32Laws B32} `{!OsUtilsLaws OS} `{!DatastoreLaws DS}.
Context (path : bytes).

(** The name of the file of a hash, as a function. *)
Definition hash_key (h : bytes) : bytes :=
  default [] (@enc_encode base32 h (@enc_encode_size base32 (len h))).
Definition hash_file (h : bytes) : bytes :=
  match ipfs_blockstore_path_get path (hash_key h) with Ok f => f | _ => [] end.

Lemma hash_key_encode h :
  @enc_encode base32 h (@enc_encode_size base32 (len h)) = Some (hash_key h).
Proof.
  unfold hash_key. destruct (enc_total (EN := base32) h (@enc_encode_size base32 (len h))) as [s ->];
    reflexivity.
Qed.
Lemma hash_to_base32_ok h :
  ipfs_blockstore_hash_to_base32 (Some h) (len h) = Ok (hash_key h).
Proof.
  unfold ipfs_blockstore_hash_to_base32, ipfs_datastore_helper_ds_key_from_binary.
  rewrite Z.ltb_irrefl, mem_read_all. cbn [mbind cres_bind]. rewrite hash_key_encode. reflexivity.
Qed.
Lemma hash_key_text h : c_str (hash_key h) = hash_key h.
Proof. apply c_str_id. eapply (enc_text (EN := base32)), hash_key_encode. Qed.

Lemma path_get_ok filename : exists f, ipfs_blockstore_path_get path filename = Ok f.
Proof.
  unfold ipfs_blockstore_path_get.
  destruct (filepath_join_room path (str "blockstore") (len path + 12)) as [p ->];
    [change (len (str "blockstore")) with 10; lia |].
  destruct (filepath_join_room p filename (len p + len filename + 2)) as [f ->]; [lia | eauto].
Qed.
Lemma path_get_inj a b f :
  byte_of 47 ∉ a -> byte_of 47 ∉ b ->
  ipfs_blockstore_path_get path a = Ok f -> ipfs_blockstore_path_get path b = Ok f -> a = b.
Proof.
  unfold ipfs_blockstore_path_get. intros Ha Hb.
  destruct (os_utils_filepath_join path _ _) as [p |]; [| discriminate].
  destruct (os_utils_filepath_join p a _) as [f1 |] eqn:E1; [| discriminate].
  destruct (os_utils_filepath_join p b _) as [f2 |] eqn:E2; [| discriminate].
  intros. simplify_eq. eapply filepath_join_inj; eauto.
Qed.

Lemma path_get_hash h : ipfs_blockstore_path_get path (hash_key h) = Ok (hash_file h).
Proof. unfold hash_file. destruct (path_get_ok (hash_key h)) as [f ->]. reflexivity. Qed.
Lemma file_of_hash_ok h : file_of_hash path (Some h) (len h) = Ok (hash_file h).
Proof.
  unfold file_of_hash. rewrite hash_to_base32_ok, hash_key_text. apply path_get_hash.
Qed.

(** Different hashes are kept in different files. *)
Lemma hash_file_inj a b : hash_file a = hash_file b -> a = b.
Proof.
  intros H. pose proof (path_get_hash a) as Ha. pose proof (path_get_hash b) as Hb.
  rewrite <- H in Hb.
  pose proof (base32_no_slash _ _ _ (hash_key_encode a)).
  pose proof (base32_no_slash _ _ _ (hash_key_encode b)).
  assert (hash_key a = hash_key b) as Hk by eauto using path_get_inj.
  pose proof (hash_key_encode a) as Ea. pose proof (hash_key_encode b) as Eb.
  rewrite Hk in Ea. eapply (enc_inj (EN := base32)); eauto.
Qed.

(** A file system that accepts [n] bytes in the file of a hash. *)
Definition fs_accepts (fs : FS) (h : bytes) (n : Z) : Prop :=
  fs_writable fs (hash_file h) = true /\ n <= fs_room fs.

Definition fs_with (fs : FS) (h data : bytes) : FS :=
  MkFS (<[hash_file h := data]> (fs_files fs)) (fs_writable fs) (fs_room fs).

Lemma put_under_ok h data w :
  fs_accepts (w_fs w) h (len data) ->
  put_under path (hash_key h) data w = (Ok (len data), MkWorld (fs_with (w_fs w) h data) (w_ds w)).
Proof.
  intros [Hw Hr]. unfold put_under. rewrite hash_key_text, path_get_hash.
  rewrite (io_bind_ok _ _ w (hash_file h) w) by reflexivity.
  unfold mbind at 1, io_bind, put_file, write_file. rewrite Hw.
  rewrite Z.min_l, btake_all by lia. rewrite Z.eqb_refl. reflexivity.
Qed.

Lemma load_file_with fs ds h data :
  load_file (hash_file h) (MkWorld (fs_with fs h data) ds) = Some data.
Proof.
  unfold load_file, read_file, fs_with. cbn [w_fs fs_files].
  rewrite (file_size_exists _ _ data), lookup_insert_eq by apply lookup_insert_eq.
  cbn. rewrite btake_all by lia. reflexivity.
Qed.
Lemma load_file_other fs ds h h' data :
  h <> h' ->
  load_file (hash_file h') (MkWorld (fs_with fs h data) ds) =
    btake (os_utils_file_size (<[hash_file h := data]> (fs_files fs)) (hash_file h')) <$>
      fs_files fs !! hash_file h'.
Proof.
  intros Hne. unfold load_file, read_file, fs_with. cbn [w_fs fs_files].
  rewrite lookup_insert_ne; [reflexivity |]. intros E. apply Hne, hash_file_inj, E.
Qed.
Lemma load_file_exists h w data :
  fs_files (w_fs w) !! hash_file h = Some data -> load_file (hash_file h) w = Some data.
Proof.
  intros H. unfold load_file, read_file. rewrite (file_size_exists _ _ data), H by assumption.
  cbn. rewrite btake_all by lia. reflexivity.
Qed.

(** ** Blocks *)

Lemma put_block_ok b c h w :
  block_wf b -> bl_cid b = Some c -> cid_hash c = Some h ->
  fs_accepts (w_fs w) h (len (block_wire b)) ->
  ipfs_blockstore_put path b w =
    (Ok (len (block_wire b)), MkWorld (fs_with (w_fs w) h (block_wire b)) (w_ds w)).
Proof.
  intros Hb Hc Hh Hfs. pose proof (block_wire_bound b Hb). pose proof (block_room_range b Hb).
  unfold ipfs_blockstore_put. rewrite Hc.
  assert (ipfs_blockstore_cid_to_base32 c = Ok (hash_key h)) as Hk.
  { destruct Hb as [Hcid _ _]. rewrite Hc in Hcid. destruct Hcid as ([_ _ Hl] & _).
    rewrite Hh in Hl. unfold ipfs_blockstore_cid_to_base32. rewrite Hh, Hl.
    apply hash_to_base32_ok. }
  rewrite Hk, block_encode_size by assumption.
  rewrite block_encode_fields by (assumption || lia). cbn [on_err].
  rewrite (io_bind_ok _ _ w (hash_key h) w) by reflexivity.
  rewrite (io_bind_ok _ _ w (block_wire b) w) by reflexivity.
  apply put_under_ok, Hfs.
Qed.

Lemma get_block_ok b c h w :
  block_wf b -> cid_wf c -> cid_hash c = Some h ->
  fs_files (w_fs w) !! hash_file h = Some (block_wire b) ->
  exists b', ipfs_blockstore_get path c w = (Ok b', w) /\
    block_data b' = block_data b /\ cid_value <$> bl_cid b' = Some (cid_value c) /\ block_copyable b'.
Proof.
  intros Hb Hc Hh Hf. unfold ipfs_blockstore_get. rewrite Hh.
  pose proof (cid_wf_hash c Hc) as Hl. rewrite Hh in Hl. rewrite Hl, file_of_hash_ok.
  rewrite (io_bind_ok _ _ w (hash_file h) w) by reflexivity. unfold look.
  rewrite (load_file_exists h w _ Hf).
  destruct (block_decode_wire b Hb) as (b' & -> & Hv & Hd & _ & Hl' & _). cbn [mbind cres_bind].
  destruct (@cid_copy_value unit c Hc) as (c' & -> & Hcv & Hwf).
  eexists. split; [reflexivity |]. unfold block_copyable, block_data. cbn. rewrite Hd, Hcv. cbn.
  split_and!; auto; [| symmetry; apply cid_digest_len, Hwf].
  rewrite Hl'. unfold block_data at 1. rewrite Hd. reflexivity.
Qed.

Lemma get_node_ok b n h w c :
  block_wf b -> fs_files (w_fs w) !! hash_file h = Some (block_wire b) ->
  ipfs_hashtable_node_protobuf_decode (block_data b) (len (block_data b)) c = Ok n ->
  ipfs_blockstore_get_node path (Some h) (len h) c w = (Ok n, w).
Proof.
  intros Hb Hf Hn. unfold ipfs_blockstore_get_node. rewrite file_of_hash_ok.
  rewrite (io_bind_ok _ _ w (hash_file h) w) by reflexivity. unfold look.
  rewrite (load_file_exists h w _ Hf).
  destruct (block_decode_wire b Hb) as (b' & -> & Hv & Hd & Hl & _).
  pose proof (block_wf_data b Hb) as Hbl. rewrite Hd, Hl, Hbl, mem_read_all.
  cbn [mbind cres_bind]. rewrite Hn. reflexivity.
Qed.

Lemma add_block_ok b c h w :
  bl_cid b = Some c -> cid_wf c -> cid_hash c = Some h ->
  @enc_encode_size base32 (len h) <= 100 -> 0 < len h <= 500 -> ds_ready (w_ds w) ->
  exists s k, ipfs_datastore_helper_add_block_to_datastore b w = (Ok (), MkWorld (w_fs w) s) /\
    record_fits (MkRecord h k 0) /\ datastore_put (MkRecord h k 0) (w_ds w) = (true, s) /\ ds_ready s.
Proof.
  intros Hc Hw Hh Hs Hl5 Hr. unfold ipfs_datastore_helper_add_block_to_datastore. rewrite Hc, Hh.
  pose proof (cid_wf_hash c Hw) as Hl. rewrite Hh in Hl. rewrite Hl, mem_read_all.
  rewrite (io_bind_ok _ _ w h w) by reflexivity.
  unfold ipfs_datastore_helper_ds_key_from_binary.
  replace (100 <? _) with false by lia. rewrite mem_read_all. cbn [mbind cres_bind].
  destruct (enc_total (EN := base32) h 100 Hs) as [k Hk]. pose proof (enc_room _ _ _ Hk) as Hroom. rewrite Hk.
  assert (Hfit : record_fits (MkRecord h k 0)) by (repeat split; cbn; lia).
  destruct (datastore_put_ready (MkRecord h k 0) (w_ds w) Hr Hfit) as (s & Hp & Hs').
  exists s, k. split; [| auto].
  rewrite (io_bind_ok _ _ w k w) by reflexivity.
  unfold mbind, io_bind, put_record. rewrite Hp. reflexivity.
Qed.
End Facts.

(** ** The properties of this file *)

Section Properties.
Context {PB : Protobuf} {MH : Multihash} {B32 : Base32} {OS : OsUtils} {DS : Datastore}.
Context `{!ProtobufLaws PB} `{!Base32Laws B32} `{!OsUtilsLaws OS} `{!DatastoreLaws DS}.
Context (path : bytes).

(** On a file system that accepts the file, [ipfs_blockstore_put] writes a
    block so that [ipfs_blockstore_get] with its CID gives back the data under
    the same CID; whatever was kept under any other hash is still there. *)
Theorem blockstore_put_get b c h w :
  block_wf b -> bl_cid b = Some c -> cid_hash c = Some h ->
  fs_accepts path (w_fs w) h (len (block_wire b)) ->
  exists n w', ipfs_blockstore_put path b w = (Ok n, w') /\
    (exists b', ipfs_blockstore_get path c w' = (Ok b', w') /\
       block_data b' = block_data b /\ cid_value <$> bl_cid b' = Some (cid_value c)) /\
    forall h' data, h' <> h ->
      fs_files (w_fs w) !! hash_file path h' = Some data ->
      load_file (hash_file path h') w' = Some data.
Proof.
  intros Hb Hc Hh Hfs. rewrite (put_block_ok path b c h w Hb Hc Hh Hfs).
  do 2 eexists. split; [reflexivity |]. split.
  - destruct (get_block_ok path b c h (MkWorld (fs_with path (w_fs w) h (block_wire b)) (w_ds w))) as (b' & Hg & Hd & Hv & _); eauto.
    + destruct Hb as [Hcid _ _]. rewrite Hc in Hcid. apply Hcid.
    + cbn. apply lookup_insert_eq.
  - intros h' data Hne Hf. apply load_file_exists. cbn.
    rewrite lookup_insert_ne; [exact Hf |]. intros E. apply Hne. symmetry.
    eapply hash_file_inj, E.
Qed.

(** [ipfs_blockstore_get_node] is undefined on a hash without a file, and on
    a file that holds no block: the block the decoder freed is freed again. *)
Theorem blockstore_get_node_undefined h c w :
  (fs_files (w_fs w) !! hash_file path h = None ->
     ipfs_blockstore_get_node path (Some h) (len h) c w = (Undef, w)) /\
  (forall data, fs_files (w_fs w) !! hash_file path h = Some data ->
     ipfs_blocks_block_protobuf_decode data (len data) = Err () ->
     ipfs_blockstore_get_node path (Some h) (len h) c w = (Undef, w)).
Proof.
  unfold ipfs_blockstore_get_node. rewrite file_of_hash_ok.
  rewrite (io_bind_ok _ _ w (hash_file path h) w) by reflexivity. unfold look. split.
  - intros Hf. unfold load_file, read_file. rewrite Hf. reflexivity.
  - intros data Hf He. rewrite (load_file_exists path h w _ Hf), He. reflexivity.
Qed.
End Properties.

(** * Concrete runs *)

Definition sample_world : World :=
  MkWorld (MkFS ∅ (fun _ => true) 1000000) (∅ : gmap bytes DatastoreRecord).

Lemma blockstore_put_get_witness :
  exists n w', ipfs_blockstore_put (str "/repo") sample_block sample_world = (Ok n, w') /\
    exists b', ipfs_blockstore_get (str "/repo") sample_cid w' = (Ok b', w') /\
      block_data b' = str "hello".
Proof.
  destruct (blockstore_put_get (str "/repo") sample_block sample_cid sample_digest sample_world)
    as (n & w' & Hp & (b' & Hg & Hd & _) & _).
  - exact sample_block_wf.
  - reflexivity.
  - reflexivity.
  - split; [reflexivity | vm_compute; discriminate].
  - exists n, w'. split; [exact Hp |]. exists b'. auto.
Defined.

Lemma blockstore_get_node_undefined_witness :
  ipfs_blockstore_get_node (str "/repo") (Some sample_digest) 32 true sample_world =
    (Undef, sample_world).
Proof. apply (blockstore_get_node_undefined (str "/repo") sample_digest true sample_world). reflexivity. Defined.
