(* ===== verification/Wantlist.v ===== *)
(** The list of the CIDs a node wants (src/exchange/bitswap/wantlist_queue.c), its
    manager (want_manager.c), the thread that works it off (engine.c) and the
    operations of the exchange that use it (bitswap.c). *)

From S2P Require Import Prelude Vector Libc Protobuf Libs Storage ProtobufRef LibsRef Cid Block.
From S2P Require Import Blockstore BitswapMessage PeerQueue BitswapNetwork.

Section Wantlist.
Context {VE : Libp2pVector}.
Context {Peer : Type} (libp2p_peer_compare : option Peer -> option Peer -> Z).

(** Who wants a CID: the node itself, or a peer. *)
Inductive WantListSession :=
| LocalSession
| RemoteSession (context : option Peer).
Definition session_type (s : WantListSession) : Z :=
  match s with LocalSession => 0 | RemoteSession _ => 1 end.

(** The vector holds pointers to sessions, NULL when NULL was added. *)
Record WantListQueueEntry := MkWantListQueueEntry {
  qe_cid : option Cid;
  qe_priority : Z;
  qe_sessionsRequesting : vector (option WantListSession);
  qe_block : option Block;
  qe_asked_network : Z;
  qe_attempts : Z
}.

(** The vector of pointers to entries, NULL at first, and the entries. *)
Record WantListQueue := MkWantListQueue {
  wq_queue : option (vector positive);
  wq_entries : gmap positive WantListQueueEntry
}.

Definition with_sessions (v : vector (option WantListSession)) (e : WantListQueueEntry) :=
  MkWantListQueueEntry (qe_cid e) (qe_priority e) v (qe_block e) (qe_asked_network e) (qe_attempts e).
Definition with_block (b : option Block) (e : WantListQueueEntry) :=
  MkWantListQueueEntry (qe_cid e) (qe_priority e) (qe_sessionsRequesting e) b
    (qe_asked_network e) (qe_attempts e).
Definition with_asked (n : Z) (e : WantListQueueEntry) :=
  MkWantListQueueEntry (qe_cid e) (qe_priority e) (qe_sessionsRequesting e) (qe_block e) n
    (qe_attempts e).
Definition one_more_attempt (e : WantListQueueEntry) :=
  MkWantListQueueEntry (qe_cid e) (qe_priority e) (qe_sessionsRequesting e) (qe_block e)
    (qe_asked_network e) (i32 (qe_attempts e + 1)).
(** [*p] changed by [f]. *)
Definition update_entry (f : WantListQueueEntry -> WantListQueueEntry) (p : positive)
  (w : WantListQueue) : WantListQueue :=
  MkWantListQueue (wq_queue w) (alter f p (wq_entries w)).

Definition ipfs_bitswap_wantlist_session_new : WantListSession := LocalSession.

Definition ipfs_bitswap_wantlist_session_compare (a b : option WantListSession) : Z :=
  match a, b with
  | None, None => 0
  | None, Some _ => -1
  | Some _, None => 1
  | Some a, Some b =>
      if negb (session_type a =? session_type b) then session_type b - session_type a
      else match a, b with
           | RemoteSession contextA, RemoteSession contextB => libp2p_peer_compare contextA contextB
           | _, _ => 0
           end
  end.

(** The loop from index [i] on, [n] rounds left; the verdict and the vector. *)
Fixpoint decrement_from (v : vector (option WantListSession)) (session : option WantListSession)
  (n : nat) (i : Z) : Z * vector (option WantListSession) :=
  match n with
  | O => (0, v)
  | S n =>
      let current := mjoin (libp2p_utils_vector_get v i) in
      if ipfs_bitswap_wantlist_session_compare session current =? 0
      then (1, libp2p_utils_vector_delete v i)
      else decrement_from v session n (i + 1)
  end.
Definition ipfs_bitswap_wantlist_queue_entry_decrement (entry : WantListQueueEntry)
  (session : option WantListSession) : Z * WantListQueueEntry :=
  let v := qe_sessionsRequesting entry in
  let '(ret, v) := decrement_from v session (Z.to_nat (vector_total v)) 0 in
  (ret, with_sessions v entry).

Definition ipfs_bitswap_wantlist_queue_new : WantListQueue := MkWantListQueue None ∅.

Definition ipfs_bitswap_wantlist_queue_entry_new : WantListQueueEntry :=
  MkWantListQueueEntry None 0 (libp2p_utils_vector_new _ 1) None 0 0.

(** A list that was never added to has no vector to look into. *)
Definition ipfs_bitswap_wantlist_queue_find (wantlist : WantListQueue) (cid : option Cid)
  : cres unit (option positive) :=
  match wq_queue wantlist with
  | None => Undef
  | Some queue =>
      vector_search (fun p =>
        match wq_entries wantlist !! p with
        | None => Undef
        | Some entry => c ← ipfs_cid_compare cid (qe_cid entry); Ok (c =? 0)
        end) queue
  end.

(** The session is added to a new entry before it is added to any. *)
Definition ipfs_bitswap_wantlist_queue_add (wantlist : option WantListQueue) (cid : option Cid)
  (session : option WantListSession) : cres unit (option positive * option WantListQueue) :=
  match wantlist with
  | None => Ok (None, None)
  | Some w =>
      let queue := match wq_queue w with
                   | None => libp2p_utils_vector_new positive 1
                   | Some queue => queue
                   end in
      let w := MkWantListQueue (Some queue) (wq_entries w) in
      let add p w := update_entry (fun e =>
        with_sessions (libp2p_utils_vector_add (qe_sessionsRequesting e) session) e) p w in
      found ← ipfs_bitswap_wantlist_queue_find w cid;
      match found with
      | Some p => Ok (Some p, Some (add p w))
      | None =>
          match cid with
          | None => Undef
          | Some cid =>
              cid ← ipfs_cid_copy cid;
              let new := ipfs_bitswap_wantlist_queue_entry_new in
              let entry := MkWantListQueueEntry (Some cid) 1 (qe_sessionsRequesting new)
                             (qe_block new) (qe_asked_network new) (qe_attempts new) in
              let p := fresh (dom (wq_entries w)) in
              let w := add p (MkWantListQueue (wq_queue w) (<[p := entry]> (wq_entries w))) in
              let w := MkWantListQueue (Some (libp2p_utils_vector_add queue p)) (wq_entries w) in
              Ok (Some p, Some (add p w))
          end
      end
  end.

(** The verdict of taking the session out is not looked at, and an entry stays. *)
Definition ipfs_bitswap_wantlist_queue_remove (wantlist : option WantListQueue)
  (cid : option Cid) (session : option WantListSession)
  : cres unit (Z * option WantListQueue) :=
  match wantlist with
  | None => Ok (0, None)
  | Some w =>
      found ← ipfs_bitswap_wantlist_queue_find w cid;
      match found with
      | None => Ok (0, wantlist)
      | Some p =>
          Ok (1, Some (update_entry (fun e =>
                   (ipfs_bitswap_wantlist_queue_entry_decrement e session).2) p w))
      end
  end.

(** The first entry without a block for which the network was not asked yet. *)
Definition ipfs_bitswap_wantlist_queue_pop (wantlist : option WantListQueue)
  : cres unit (option positive) :=
  match wantlist with
  | None => Ok None
  | Some w =>
      match wq_queue w with
      | None => Ok None
      | Some queue =>
          vector_search (fun p =>
            match wq_entries w !! p with
            | None => Undef
            | Some current =>
                Ok (bool_decide (qe_block current = None) && (qe_asked_network current =? 0))
            end) queue
      end
  end.

(** *** The manager of wants *)

Definition ipfs_bitswap_want_manager_add (w : WantListQueue) (cid : option Cid)
  (session : option WantListSession) : cres unit (option positive * option WantListQueue) :=
  ipfs_bitswap_wantlist_queue_add (Some w) cid session.

(** The block of the entry of a CID. *)
Definition wanted_block (w : WantListQueue) (cid : option Cid) : cres unit (option Block) :=
  entry ← ipfs_bitswap_wantlist_queue_find w cid;
  Ok (entry ≫= fun p => wq_entries w !! p ≫= qe_block).

Definition ipfs_bitswap_want_manager_received (w : WantListQueue) (cid : option Cid)
  : cres unit Z :=
  b ← wanted_block w cid; Ok (match b with Some _ => 1 | None => 0 end).

Definition ipfs_bitswap_want_manager_get_block (w : WantListQueue) (cid : option Cid)
  : cres unit (Z * option Block) :=
  b ← wanted_block w cid;
  match b with
  | None => Ok (0, None)
  | Some b => b ← ipfs_block_copy b; Ok (1, Some b)
  end.

Definition ipfs_bitswap_want_manager_remove (w : WantListQueue) (cid : option Cid)
  : cres unit (Z * option WantListQueue) :=
  ipfs_bitswap_wantlist_queue_remove (Some w) cid (Some LocalSession).

(** *** The exchange *)

Definition ipfs_bitswap_is_online : Z := 1.
Definition ipfs_bitswap_shutdown_handler : Z := 1.

Definition ipfs_bitswap_can_handle (data : option bytes) (data_size : Z) : Z :=
  match data with
  | None => 0
  | Some data =>
      if data_size =? 0 then 0
      else if starts_with (str "/ipfs/bitswap") (c_str (btake data_size data)) then 1 else 0
  end.

(** A block that arrived is kept in the entry of its CID. *)
Definition block_arrived (w : WantListQueue) (block : Block) : cres unit WantListQueue :=
  found ← ipfs_bitswap_wantlist_queue_find w (bl_cid block);
  Ok (match found with
      | None => w
      | Some p => update_entry (with_block (Some block)) p w
      end).

Section Exchange.
Context {PB : Protobuf} {MH : Multihash} {B32 : Base32} {OS : OsUtils} {DS : Datastore}.
Context (path : bytes).

(** What the block store and the datastore say is not looked at. *)
Definition ipfs_bitswap_has_block (w : WantListQueue) (block : Block)
  : io unit (Z * WantListQueue) :=
  _ ← attempt (E' := unit) (ipfs_blockstore_put path block);
  _ ← attempt (E' := unit) (ipfs_datastore_helper_add_block_to_datastore block);
  w ← lift (block_arrived w block);
  mret (0, w).

(** What the other threads do to the list while a thread sleeps: other threads of the node ask for CIDs and
    stop asking, blocks arrive from peers, the engine's thread works on the entry of a CID
    ([ipfs_bitswap_wantlist_process_entry]): it keeps the block the store has, if any, and writes whether
    the network was asked and the attempts. And a block of an entry that was queued for a peer is freed with
    the message to the peer, while the entry goes on pointing to it. *)
Inductive wantlist_event :=
| Added (cid : option Cid) (session : option WantListSession)
| Removed (cid : option Cid) (session : option WantListSession)
| Arrived (block : Block)
| Worked (cid : option Cid) (found : option Block) (asked_network attempts : Z)
| Sent (cid : option Cid).
Definition worked (found : option Block) (asked_network attempts : Z) (e : WantListQueueEntry) : WantListQueueEntry :=
  MkWantListQueueEntry (qe_cid e) (qe_priority e) (qe_sessionsRequesting e)
    (match found with Some b => Some b | None => qe_block e end) asked_network attempts.
(** The list, and the entries whose block was freed. *)
Definition shared_list : Type := WantListQueue * gset positive.
Definition run_event (ev : wantlist_event) (l : shared_list) : cres unit shared_list :=
  let '(w, freed) := l in
  match ev with
  | Added cid s =>
      '(_, w') ← ipfs_bitswap_wantlist_queue_add (Some w) cid s; Ok (default w w', freed)
  | Removed cid s =>
      '(_, w') ← ipfs_bitswap_wantlist_queue_remove (Some w) cid s; Ok (default w w', freed)
  | Arrived b =>
      found ← ipfs_bitswap_wantlist_queue_find w (bl_cid b);
      w ← block_arrived w b;
      Ok (w, freed ∖ list_to_set (option_list found))
  | Worked cid b asked_network attempts =>
      found ← ipfs_bitswap_wantlist_queue_find w cid;
      Ok (match found with
          | None => (w, freed)
          | Some p => (update_entry (worked b asked_network attempts) p w,
                       match b with Some _ => freed ∖ {[ p ]} | None => freed end)
          end)
  | Sent cid =>
      found ← ipfs_bitswap_wantlist_queue_find w cid;
      Ok (w, freed ∪ list_to_set (option_list found))
  end.
Fixpoint run_events (evs : list wantlist_event) (l : shared_list) : cres unit shared_list :=
  match evs with
  | [] => Ok l
  | ev :: evs => l ← run_event ev l; run_events evs l
  end.

(** The loop on the entry [p]: [others n] happens in the [n]th sleep. The verdict,
    the block and the list. *)
Fixpoint get_block_wait (others : nat -> list wantlist_event) (fuel : nat) (cid : option Cid)
  (p : positive) (timeTaken : nat) (l : shared_list)
  : cres unit (Z * option Block * WantListQueue) :=
  match fuel with
  | O => NoFuel
  | S fuel =>
      match wq_entries l.1 !! p with
      | None => Undef
      | Some want_entry =>
          match qe_block want_entry with
          | Some b =>
              if bool_decide (p ∈ l.2) then Undef (* the block copied was freed *)
              else
                b ← ipfs_block_copy b;
                '(_, w') ← ipfs_bitswap_want_manager_remove l.1 cid;
                Ok (1, Some b, default l.1 w')
          | None =>
              if (60 <=? S timeTaken)%nat then
                '(_, w') ← ipfs_bitswap_want_manager_remove l.1 cid;
                Ok (0, None, default l.1 w')
              else
                l ← run_events (others timeTaken) l;
                get_block_wait others fuel cid p (S timeTaken) l
          end
      end
  end.

(** [freed]: the entries whose block was freed before. [*block] is written when there is one. *)
Definition ipfs_bitswap_get_block (freed : gset positive) (others : nat -> list wantlist_event) (fuel : nat)
  (w : WantListQueue) (cid : Cid) : io unit (Z * option Block * WantListQueue) :=
  found ← attempt (ipfs_blockstore_get path cid);
  match found with
  | inl b => mret (1, Some b, w)
  | inr _ =>
      '(p, w') ← lift (ipfs_bitswap_want_manager_add w (Some cid)
                         (Some ipfs_bitswap_wantlist_session_new));
      match p, w' with
      | Some p, Some w => lift (get_block_wait others fuel (Some cid) p 0 (w, freed))
      | _, _ => mret (0, None, w)
      end
  end.

(** The block found goes to a variable of its own; the caller's stays as it was. *)
Definition ipfs_bitswap_get_block_async (w : WantListQueue) (cid : Cid)
  : io unit (Z * WantListQueue) :=
  found ← attempt (ipfs_blockstore_get path cid);
  match found with
  | inl _ => mret (1, w)
  | inr _ =>
      '(_, w') ← lift (ipfs_bitswap_want_manager_add w (Some cid)
                         (Some ipfs_bitswap_wantlist_session_new));
      mret (1, default w w')
  end.

Definition ipfs_bitswap_get_blocks : Z := 0.
End Exchange.
End Wantlist.

(** *** Working the list off *)

Section Engine.
Context {PB : Protobuf} {VE : Libp2pVector}.
Context {Peer : Type} (libp2p_peer_compare : option Peer -> option Peer -> Z).
Context (is_local is_connected has_address connect : Peer -> bool).
Context (reachable : Peer -> bool) (write : Peer -> bytes -> Z).
Context (blockstore_get : option Cid -> cres unit (option Block)).
(** The peers the router says have a hash, [None] when it finds none. *)
Context (find_providers : bytes -> option (vector (option Peer))).

Abbreviation WantListQueue := (WantListQueue (Peer := Peer)).
Abbreviation PeerRequestQueue := (PeerRequestQueue (Peer := Peer)).

Definition ipfs_bitswap_wantlist_local_request (sessions : vector (option (WantListSession (Peer := Peer))))
  : cres unit Z :=
  found ← vector_search (fun s => Ok (bool_decide (session_type <$> s = Some 0))) sessions;
  Ok (match found with Some _ => 1 | None => 0 end).

(** A provider is told at once what is wanted of it. The queue and what was sent. *)
Definition ask_provider (cid : Cid) (current : option Peer) (s : PeerRequestQueue * list bytes)
  : cres unit (PeerRequestQueue * list bytes) :=
  let '(q, sent) := s in
  '(r, q) ← ipfs_peer_request_queue_find_peer libp2p_peer_compare q (queue_fuel q) current;
  match q_requests q !! r with
  | None => Undef
  | Some req =>
      cid ← ipfs_cid_copy cid;
      let p := fresh (dom (q_cids q)) in
      let entry := ipfs_bitswap_peer_request_cid_entry_new in
      let heap := <[p := MkCidEntry (Some cid) (ce_cancel entry) (ce_cancel_has_been_sent entry)
                           (ce_request_has_been_sent entry)]> (q_cids q) in
      let req := MkPeerRequest (pr_peer req) (pr_cids_they_want req)
                   (libp2p_utils_vector_add (pr_cids_we_want req) p) (pr_blocks_we_want_to_send req) in
      '(_, data, req', heap) ← ipfs_bitswap_peer_request_process_entry is_local is_connected
                             has_address connect reachable write blockstore_get (Some req) heap;
      Ok (MkPeerRequestQueue (q_entries q) (<[r := default req req']> (q_requests q)) heap
            (q_first q) (q_last q), sent ++ option_list data)
  end.

Definition ipfs_bitswap_wantlist_get_block_remote (cid : Cid) (q : PeerRequestQueue)
  : cres unit (Z * PeerRequestQueue * list bytes) :=
  hash ← mem_read (cid_hash cid) (cid_hash_length cid);
  match find_providers hash with
  | None => Ok (0, q, [])
  | Some providers =>
      '(q, sent) ← vector_loop (ask_provider cid) providers (q, []);
      Ok (1, q, sent)
  end.

(** A block is queued for every peer that asked for it: the entry's own, which the message to the peer frees
    ([Sent] among the events). *)
Definition fulfill (block : Block) (session : option (WantListSession (Peer := Peer)))
  (q : PeerRequestQueue) : cres unit PeerRequestQueue :=
  match session with
  | None => Undef
  | Some LocalSession => Ok q
  | Some (RemoteSession peer) =>
      '(_, q) ← ipfs_bitswap_peer_request_queue_fill libp2p_peer_compare q (queue_fuel q) peer block;
      Ok q
  end.

(** The verdict is always 0. *)
Definition ipfs_bitswap_wantlist_process_entry (w : WantListQueue) (q : PeerRequestQueue)
  (p : positive) : cres unit (Z * WantListQueue * PeerRequestQueue * list bytes) :=
  match wq_entries w !! p with
  | None => Undef
  | Some entry =>
      match qe_cid entry with
      | None => Undef
      | Some cid =>
          local_request ← ipfs_bitswap_wantlist_local_request (qe_sessionsRequesting entry);
          found ← blockstore_get (Some cid);
          let block := match found with Some b => Some b | None => qe_block entry end in
          let w := update_entry (with_block block) p w in
          '(go_on, w, q, sent) ←
            match found with
            | Some _ => Ok (true, w, q, [])
            | None =>
                if local_request =? 0 then Ok (false, w, q, [])
                else
                  '(ok, q, sent) ← ipfs_bitswap_wantlist_get_block_remote cid q;
                  Ok (if ok =? 0 then (false, update_entry one_more_attempt p w, q, sent)
                      else (true, update_entry (with_asked 1) p w, q, sent))
            end;
          match block with
          | Some b =>
              if (go_on : bool) then
                q ← vector_loop (fulfill b) (qe_sessionsRequesting entry) q;
                Ok (0, w, q, sent)
              else Ok (0, w, q, sent)
          | None => Ok (0, w, q, sent)
          end
      end
  end.

(** Giving up: the sessions are taken out by an index that grows while they get
    fewer. *)
Fixpoint drop_sessions (fuel : nat) (p : positive) (i : Z) (w : WantListQueue)
  : cres unit WantListQueue :=
  match fuel with
  | O => NoFuel
  | S fuel =>
      match wq_entries w !! p with
      | None => Undef
      | Some item =>
          let sessions := qe_sessionsRequesting item in
          if i <? vector_total sessions then
            '(_, w') ← ipfs_bitswap_wantlist_queue_remove libp2p_peer_compare (Some w) (qe_cid item)
                         (mjoin (libp2p_utils_vector_get sessions i));
            drop_sessions fuel p (i + 1) (default w w')
          else Ok w
      end
  end.

(** One round of the thread; [None]: it found nothing to do and sleeps. *)
Definition wantlist_processor_round (w : WantListQueue) (q : PeerRequestQueue)
  : cres unit (option (WantListQueue * PeerRequestQueue * list bytes)) :=
  item ← ipfs_bitswap_wantlist_queue_pop (Some w);
  match item with
  | None => Ok None
  | Some p =>
      match wq_entries w !! p with
      | None => Undef
      | Some item =>
          if 10 <? qe_attempts item then
            w ← drop_sessions (S (Z.to_nat (vector_total (qe_sessionsRequesting item)))) p 0 w;
            Ok (Some (w, q, []))
          else
            '(_, w, q, sent) ← ipfs_bitswap_wantlist_process_entry w q p;
            Ok (Some (w, q, sent))
      end
  end.

(** [n] rounds, and what was sent in them. *)
Fixpoint ipfs_bitswap_engine_wantlist_processor (n : nat) (w : WantListQueue)
  (q : PeerRequestQueue) : cres unit (WantListQueue * PeerRequestQueue * list bytes) :=
  match n with
  | O => Ok (w, q, [])
  | S n =>
      round ← wantlist_processor_round w q;
      match round with
      | None => ipfs_bitswap_engine_wantlist_processor n w q
      | Some (w, q, sent) =>
          '(w, q, sent') ← ipfs_bitswap_engine_wantlist_processor n w q;
          Ok (w, q, sent ++ sent')
      end
  end.
End Engine.

(** * Properties *)

(** ** The list as a list of wants *)

Section WantlistFacts.
Context {VE : Libp2pVector} `{!Libp2pVectorLaws VE}.
Context {Peer : Type} (libp2p_peer_compare : option Peer -> option Peer -> Z).

Abbreviation Session := (option (WantListSession (Peer := Peer))).
Abbreviation Queue := (WantListQueue (Peer := Peer)).
Abbreviation Entry := (WantListQueueEntry (Peer := Peer)).
Abbreviation add := (ipfs_bitswap_wantlist_queue_add (Peer := Peer)).
Abbreviation remove := (ipfs_bitswap_wantlist_queue_remove libp2p_peer_compare).
Abbreviation compare := (ipfs_bitswap_wantlist_session_compare libp2p_peer_compare).
Abbreviation cid_key := (Z * Z * bytes)%type.

(** What is wanted, for whom, and what came of it. *)
Record want := Want {
  w_key : cid_key;
  w_sessions : list Session;
  w_block : option Block;
  w_asked : Z;
  w_attempts : Z
}.
Definition want_of (e : Entry) : option want :=
  c ← qe_cid e;
  Some (Want (cid_value c) (items (qe_sessionsRequesting e)) (qe_block e) (qe_asked_network e)
          (qe_attempts e)).
Definition queued (w : Queue) : list positive :=
  match wq_queue w with None => [] | Some v => items v end.
Definition want_at (w : Queue) (p : positive) : option want := wq_entries w !! p ≫= want_of.
Definition wants (w : Queue) : list want := omap (want_at w) (queued w).

(** Every entry queued is there, for a CID the comparison orders, and no two are
    for the same one. *)
Record wantlist_ok (w : Queue) : Prop := {
  wl_entries_ok : Forall (fun p => exists e c,
    wq_entries w !! p = Some e /\ qe_cid e = Some c /\ cid_small c) (queued w);
  wl_keys : NoDup (map w_key (wants w));
  wl_nodup : NoDup (queued w)
}.

(** The specification of the operations. *)
Definition on_key (k : cid_key) (f : want -> want) (l : list want) : list want :=
  map (fun x => if decide (w_key x = k) then f x else x) l.
Definition wanted (k : cid_key) (l : list want) : bool :=
  existsb (fun x => bool_decide (w_key x = k)) l.
Definition more_sessions (s : list Session) (x : want) : want :=
  Want (w_key x) (w_sessions x ++ s) (w_block x) (w_asked x) (w_attempts x).
Fixpoint less_session (s : Session) (l : list Session) : list Session :=
  match l with
  | [] => []
  | t :: l => if compare s t =? 0 then l else t :: less_session s l
  end.
Definition without_session (s : Session) (x : want) : want :=
  Want (w_key x) (less_session s (w_sessions x)) (w_block x) (w_asked x) (w_attempts x).
Definition arrived (b : Block) (x : want) : want :=
  Want (w_key x) (w_sessions x) (Some b) (w_asked x) (w_attempts x).
Definition add_want (k : cid_key) (s : Session) (l : list want) : list want :=
  if wanted k l then on_key k (more_sessions [s]) l
  else l ++ [Want k [s; s] None 0 0].

Lemma want_of_key e c x : qe_cid e = Some c -> want_of e = Some x -> w_key x = cid_value c.
Proof. unfold want_of. intros ->. cbn. intros [= <-]. reflexivity. Qed.

(** Looking a CID up. *)
Definition find_want (w : Queue) (k : cid_key) : option positive :=
  find (fun p => bool_decide (w_key <$> want_at w p = Some k)) (queued w).

Lemma queue_find_ok w v c :
  wantlist_ok w -> wq_queue w = Some v -> cid_small c ->
  ipfs_bitswap_wantlist_queue_find w (Some c) = Ok (find_want w (cid_value c)).
Proof.
  intros [He _ _] Hv Hc. unfold ipfs_bitswap_wantlist_queue_find, find_want, queued in *. rewrite Hv in *.
  rewrite vector_search_items. induction (items v) as [| p l IH]; [reflexivity |].
  apply Forall_cons in He as [(e & c' & Hp & Hec & Hs) He]. cbn [list_search find].
  assert (Hw : w_key <$> want_at w p = Some (cid_value c'))
    by (unfold want_at, want_of; rewrite Hp; cbn; rewrite Hec; reflexivity).
  rewrite Hp, Hec. destruct (cid_compare_flip c c' Hc Hs) as (r & -> & _ & Hr). cbn [mbind cres_bind].
  destruct (Z.eqb_spec r 0) as [E | E].
  - rewrite bool_decide_eq_true_2; [reflexivity |]. rewrite Hw. f_equal. symmetry. apply Hr, E.
  - rewrite bool_decide_eq_false_2; [apply IH, He |]. rewrite Hw. intros H. apply E, Hr. congruence.
Qed.

Lemma find_want_some w k p :
  find_want w k = Some p -> p ∈ queued w /\ w_key <$> want_at w p = Some k.
Proof.
  intros H. apply find_some in H as [Hin H]. apply bool_decide_eq_true in H.
  split; [by apply list_elem_of_In | exact H].
Qed.
Lemma find_want_wanted w k : wanted k (wants w) = bool_decide (is_Some (find_want w k)).
Proof.
  unfold find_want, wants, wanted. induction (queued w) as [| p l IH]; [reflexivity |].
  cbn [omap list_omap find existsb]. destruct (want_at w p) as [x |]; cbn [fmap option_fmap option_map].
  - cbn [existsb]. rewrite IH. destruct (decide (w_key x = k)) as [E | E].
    + rewrite !(bool_decide_eq_true_2 (_ = _)) by congruence. reflexivity.
    + rewrite !(bool_decide_eq_false_2 (_ = _)) by congruence. reflexivity.
  - rewrite (bool_decide_eq_false_2 (_ = _)) by discriminate. exact IH.
Qed.

(** A change of the entry found is a change of its want. *)
Lemma want_at_update w p f q :
  want_at (update_entry f p w) q =
    if decide (q = p) then wq_entries w !! p ≫= fun e => want_of (f e) else want_at w q.
Proof.
  unfold want_at, update_entry. cbn [wq_entries]. destruct (decide (q = p)) as [-> | Hq].
  - rewrite lookup_alter_eq. destruct (wq_entries w !! p); reflexivity.
  - rewrite lookup_alter_ne by congruence. reflexivity.
Qed.
Lemma keys_at_nodup w p q k :
  wantlist_ok w -> p ∈ queued w -> q ∈ queued w ->
  w_key <$> want_at w p = Some k -> w_key <$> want_at w q = Some k -> p = q.
Proof.
  intros [_ Hk _]. unfold wants in Hk. induction (queued w) as [| r l IH]; [intros H; inversion H |].
  intros Hp Hq Ep Eq. cbn [omap list_omap] in Hk.
  assert (Hin : forall s, s ∈ l -> w_key <$> want_at w s = Some k -> k ∈ map w_key (omap (want_at w) l)).
  { intros s Hs Es. destruct (want_at w s) as [x |] eqn:E; [| discriminate]. injection Es as <-.
    apply list_elem_of_fmap. exists x. split; [reflexivity |]. apply list_elem_of_omap. eauto. }
  apply elem_of_cons in Hp as [-> | Hp], Hq as [-> | Hq]; [reflexivity | | |].
  - destruct (want_at w r) as [x |]; [| discriminate]. injection Ep as <-. cbn [map] in Hk.
    apply NoDup_cons in Hk as [Hn _]. destruct Hn. eapply Hin; eassumption.
  - destruct (want_at w r) as [x |]; [| discriminate]. injection Eq as <-. cbn [map] in Hk.
    apply NoDup_cons in Hk as [Hn _]. destruct Hn. eapply Hin; eassumption.
  - apply IH; auto. destruct (want_at w r); [| exact Hk]. cbn [map] in Hk.
    apply NoDup_cons in Hk as [_ Hk]. exact Hk.
Qed.

Lemma update_wants w p k f g :
  wantlist_ok w -> find_want w k = Some p ->
  (forall e, qe_cid (f e) = qe_cid e) -> (forall x, w_key (g x) = w_key x) ->
  (forall e x, want_of e = Some x -> want_of (f e) = Some (g x)) ->
  wantlist_ok (update_entry f p w) /\ wants (update_entry f p w) = on_key k g (wants w).
Proof.
  intros Hok Hf Hc Hgk Hg. destruct (find_want_some _ _ _ Hf) as [Hp Hkp].
  assert (Hw : wants (update_entry f p w) = on_key k g (wants w)).
  { unfold wants, on_key. change (queued (update_entry f p w)) with (queued w).
    assert (Hu : forall q, q ∈ queued w -> w_key <$> want_at w q = Some k -> q = p)
      by (intros q Hq Eq; apply (keys_at_nodup w q p k); assumption).
    clear Hp. induction (queued w) as [| q l IH]; [reflexivity |]. cbn [omap list_omap].
    rewrite want_at_update, IH by (intros; apply Hu; [right |]; assumption).
    destruct (decide (q = p)) as [-> | Hq].
    - destruct (wq_entries w !! p) as [e |] eqn:He;
        [| unfold want_at in Hkp; rewrite He in Hkp; discriminate].
      unfold want_at in Hkp |- *. rewrite He in *. cbn [mbind option_bind] in *.
      destruct (want_of e) as [x |] eqn:Ex; [| discriminate]. rewrite (Hg e x Ex). cbn [map].
      injection Hkp as Ek. rewrite decide_True by exact Ek. reflexivity.
    - destruct (want_at w q) as [x |] eqn:Ex; [| reflexivity]. cbn [map].
      rewrite decide_False; [reflexivity |]. intros E. apply Hq, Hu; [left |].
      rewrite Ex. cbn. congruence. }
  split; [| exact Hw]. destruct Hok as [He Hk Hn]. constructor; [| | exact Hn].
  - apply Forall_forall. intros q Hq. rewrite Forall_forall in He.
    destruct (He q Hq) as (e & c & H1 & H2 & H3). cbn [update_entry wq_entries].
    destruct (decide (q = p)) as [-> | Hqp].
    + exists (f e), c. rewrite lookup_alter_eq, H1, Hc. auto.
    + exists e, c. rewrite lookup_alter_ne by congruence. auto.
  - rewrite Hw. unfold on_key. rewrite map_map.
    erewrite map_ext; [exact Hk |]. intros x. case_decide; [apply Hgk | reflexivity].
Qed.

(** Entries stay where they are found. *)
Definition keeps_finds (w w' : Queue) : Prop :=
  forall k p, find_want w k = Some p -> find_want w' k = Some p.
Lemma update_finds w p f :
  (forall e, qe_cid (f e) = qe_cid e) -> keeps_finds w (update_entry f p w).
Proof.
  intros Hc k q <-. unfold find_want. change (queued (update_entry f p w)) with (queued w).
  apply find_ext. intros r. apply bool_decide_ext. rewrite want_at_update.
  destruct (decide (r = p)) as [-> |]; [| reflexivity]. unfold want_at, want_of.
  destruct (wq_entries w !! p) as [e |]; [| reflexivity]. cbn. rewrite Hc.
  destruct (qe_cid e); reflexivity.
Qed.

Lemma update_wants_none w k g : find_want w k = None -> on_key k g (wants w) = wants w.
Proof.
  intros Hf. pose proof (find_want_wanted w k) as Hw. rewrite Hf in Hw.
  rewrite bool_decide_eq_false_2 in Hw by (intros [? H]; discriminate).
  unfold on_key, wanted in *. induction (wants w) as [| x l IH]; [reflexivity |].
  cbn [existsb] in Hw. apply orb_false_iff in Hw as [Hx Hw]. apply bool_decide_eq_false in Hx.
  cbn [map]. rewrite decide_False, IH by assumption. reflexivity.
Qed.

(** *** Sessions *)

Lemma decrement_ok v session :
  items (decrement_from libp2p_peer_compare v session (Z.to_nat (vector_total v)) 0).2 =
  less_session session (items v).
Proof.
  assert (Hgen : forall l i, drop i (items v) = l ->
    items (decrement_from libp2p_peer_compare v session (length l) (Z.of_nat i)).2 =
    take i (items v) ++ less_session session l).
  { induction l as [| t l IH]; intros i Hd.
    - cbn. rewrite app_nil_r, take_ge; [reflexivity |].
      apply (f_equal length) in Hd. rewrite length_drop in Hd. cbn in Hd. lia.
    - destruct (vector_lookup_drop _ _ _ _ Hd) as (_ & Hget & Hd').
      assert (Hl : items v !! i = Some t) by (rewrite <- (Nat.add_0_r i), <- lookup_drop, Hd; reflexivity).
      cbn [length decrement_from less_session]. rewrite Hget. cbn [mjoin option_join].
      destruct (compare session t =? 0).
      + cbn [snd]. rewrite items_delete, Nat2Z.id by lia.
        change (list_delete i (items v)) with (delete i (items v)).
        rewrite delete_take_drop, Hd'. reflexivity.
      + replace (Z.of_nat i + 1) with (Z.of_nat (S i)) by lia. rewrite (IH (S i) Hd').
        rewrite (take_S_r _ _ t) by exact Hl. rewrite <- app_assoc. reflexivity. }
  rewrite vector_total_items, len_to_nat. apply (Hgen _ O). reflexivity.
Qed.
Lemma decrement_cid e session :
  qe_cid (ipfs_bitswap_wantlist_queue_entry_decrement libp2p_peer_compare e session).2 = qe_cid e.
Proof.
  unfold ipfs_bitswap_wantlist_queue_entry_decrement. destruct (decrement_from _ _ _ _ _). reflexivity.
Qed.
Lemma decrement_want e session x :
  want_of e = Some x ->
  want_of (ipfs_bitswap_wantlist_queue_entry_decrement libp2p_peer_compare e session).2 =
    Some (without_session session x).
Proof.
  intros H. pose proof (decrement_ok (qe_sessionsRequesting e) session) as Hd.
  unfold ipfs_bitswap_wantlist_queue_entry_decrement, want_of in *.
  destruct (decrement_from _ _ _ _ _) as [r v]. cbn [snd with_sessions qe_cid] in *.
  destruct (qe_cid e); [| discriminate]. injection H as <-. cbn. unfold without_session. cbn.
  rewrite <- Hd. reflexivity.
Qed.

(** ** The operations *)

Lemma wantlist_ok_new : wantlist_ok ipfs_bitswap_wantlist_queue_new.
Proof. constructor; cbn; [constructor | apply NoDup_nil_2 | apply NoDup_nil_2]. Qed.

Lemma want_remove_ok w v c s :
  wantlist_ok w -> wq_queue w = Some v -> cid_small c ->
  exists w', remove (Some w) (Some c) s = Ok (if wanted (cid_value c) (wants w) then 1 else 0, Some w') /\
    wantlist_ok w' /\ wq_queue w' = Some v /\ keeps_finds w w' /\
    wants w' = on_key (cid_value c) (without_session s) (wants w).
Proof.
  intros Hok Hv Hc. unfold ipfs_bitswap_wantlist_queue_remove.
  rewrite (queue_find_ok w v c Hok Hv Hc). cbn [mbind cres_bind].
  rewrite find_want_wanted. destruct (find_want w (cid_value c)) as [p |] eqn:Hf.
  - rewrite bool_decide_eq_true_2 by eauto. eexists. split; [reflexivity |].
    assert (Hu := update_wants w p _ (fun e => (ipfs_bitswap_wantlist_queue_entry_decrement
      libp2p_peer_compare e s).2) (without_session s) Hok Hf).
    destruct Hu as [Hok' Hw']; [intros; apply decrement_cid | reflexivity | intros; apply decrement_want; assumption |].
    split; [exact Hok' |]. split; [exact Hv |]. split; [apply update_finds; intros; apply decrement_cid | exact Hw'].
  - rewrite bool_decide_eq_false_2 by (intros [? H]; discriminate).
    exists w. split; [reflexivity |]. split; [exact Hok |]. split; [exact Hv |].
    split; [intros ? ? H; exact H |]. symmetry. apply update_wants_none, Hf.
Qed.
Lemma arrived_ok w v c b :
  wantlist_ok w -> wq_queue w = Some v -> bl_cid b = Some c -> cid_small c ->
  exists w', block_arrived w b = Ok w' /\ wantlist_ok w' /\ wq_queue w' = Some v /\
    keeps_finds w w' /\ wants w' = on_key (cid_value c) (arrived b) (wants w).
Proof.
  intros Hok Hv Hb Hc. unfold block_arrived. rewrite Hb, (queue_find_ok w v c Hok Hv Hc).
  cbn [mbind cres_bind]. destruct (find_want w (cid_value c)) as [p |] eqn:Hf.
  - eexists. split; [reflexivity |].
    destruct (update_wants w p _ (with_block (Some b)) (arrived b) Hok Hf) as [Hok' Hw'];
      [reflexivity | reflexivity | |].
    + intros e x. unfold want_of. destruct (qe_cid e) eqn:E; [| discriminate]. cbn.
      rewrite E. cbn. intros [= <-]. reflexivity.
    + split; [exact Hok' |]. split; [exact Hv |]. split; [apply update_finds; reflexivity | exact Hw'].
  - exists w. split; [reflexivity |]. split; [exact Hok |]. split; [exact Hv |].
    split; [intros ? ? H; exact H |]. symmetry. apply update_wants_none, Hf.
Qed.

Lemma cid_copy_small {E} c :
  cid_small c -> exists c', @ipfs_cid_copy E c = Ok c' /\ cid_value c' = cid_value c /\ cid_small c'.
Proof.
  intros [Hw Hv Hk Hl]. destruct (cid_copy_value (E := E) c Hw) as (c' & Hc & E1 & Hw').
  exists c'. split; [exact Hc |]. split; [exact E1 |]. unfold ipfs_cid_copy in Hc.
  rewrite cid_hash_read in Hc by exact Hw. injection Hc as <-. constructor; assumption.
Qed.

(** A new entry at the end of the queue. *)
Lemma wants_snoc w w' v p e x :
  wantlist_ok w -> wq_entries w !! p = None -> wq_entries w' = <[p := e]> (wq_entries w) ->
  wq_queue w' = Some v -> items v = queued w ++ [p] ->
  (exists c, qe_cid e = Some c /\ cid_small c) -> want_of e = Some x ->
  wanted (w_key x) (wants w) = false ->
  wantlist_ok w' /\ wants w' = wants w ++ [x] /\ keeps_finds w w' /\
  find_want w' (w_key x) = Some p.
Proof.
  intros [He Hk Hn] Hp Hw' Hv Hi (c & Hc & Hs) Hx Hnew.
  assert (Hne : forall q, q ∈ queued w -> q <> p).
  { intros q Hq ->. rewrite Forall_forall in He. destruct (He p Hq) as (e' & _ & E & _). congruence. }
  assert (Hq : queued w' = queued w ++ [p]) by (unfold queued at 1; rewrite Hv; exact Hi).
  assert (Hold : forall q, q ∈ queued w -> want_at w' q = want_at w q).
  { intros q Hin. unfold want_at. rewrite Hw', lookup_insert_ne by (apply not_eq_sym, Hne, Hin).
    reflexivity. }
  assert (Hat : want_at w' p = Some x)
    by (unfold want_at; rewrite Hw', lookup_insert_eq; exact Hx).
  assert (Hw : wants w' = wants w ++ [x]).
  { unfold wants. rewrite Hq, omap_app. f_equal.
    - apply list_omap_ext, Forall_Forall2_diag, Forall_forall. exact Hold.
    - cbn. rewrite Hat. reflexivity. }
  assert (Hold' : forall k, find (fun q => bool_decide (w_key <$> want_at w' q = Some k)) (queued w) =
    find_want w k)
    by (intros k; apply find_ext_in; intros q Hin; apply bool_decide_ext; rewrite Hold by exact Hin; reflexivity).
  split; [| split; [exact Hw | split]].
  2: { intros k q Hf. unfold find_want. rewrite Hq, find_app, Hold', Hf. reflexivity. }
  2: { unfold find_want. rewrite Hq, find_app, Hold'. rewrite find_want_wanted in Hnew.
       apply bool_decide_eq_false in Hnew. destruct (find_want w (w_key x)); [destruct Hnew; eauto |].
       cbn. rewrite Hat. rewrite bool_decide_eq_true_2 by reflexivity. reflexivity. }
  constructor.
  - rewrite Hq. apply Forall_app. split.
    + eapply Forall_impl; [apply Forall_and; split; [exact He | apply Forall_forall; exact Hne] |].
      intros q ((e' & c' & H1 & H2) & Hqp). exists e', c'. rewrite Hw', lookup_insert_ne by congruence.
      split; assumption.
    + constructor; [| constructor]. exists e, c. rewrite Hw', lookup_insert_eq. auto.
  - rewrite Hw, map_app. apply NoDup_app. split; [exact Hk |]. split; [| apply NoDup_singleton].
    intros k Hin ->%list_elem_of_singleton. apply list_elem_of_fmap in Hin as (y & E & Hy).
    unfold wanted in Hnew. apply Bool.not_true_iff_false in Hnew. apply Hnew, existsb_exists.
    exists y. split; [by apply list_elem_of_In | apply bool_decide_eq_true; congruence].
  - rewrite Hq. apply NoDup_app. split; [exact Hn |]. split; [| apply NoDup_singleton].
    intros q Hin ->%list_elem_of_singleton. by apply (Hne p).
Qed.

Lemma add_ok w c s :
  wantlist_ok w -> cid_small c ->
  exists p w' v, add (Some w) (Some c) s = Ok (Some p, Some w') /\ wantlist_ok w' /\
    wq_queue w' = Some v /\ find_want w' (cid_value c) = Some p /\ keeps_finds w w' /\
    wants w' = add_want (cid_value c) s (wants w).
Proof.
  intros Hok Hc. unfold ipfs_bitswap_wantlist_queue_add, add_want.
  set (queue := match wq_queue w with None => _ | Some queue => queue end).
  set (w0 := MkWantListQueue (Some queue) (wq_entries w)).
  assert (Hq0 : queued w0 = queued w)
    by (unfold queued; cbn; unfold queue; destruct (wq_queue w); [reflexivity | apply items_new]).
  assert (Hw0 : wants w0 = wants w) by (unfold wants; rewrite Hq0; reflexivity).
  assert (Hok0 : wantlist_ok w0)
    by (destruct Hok as [He Hk Hn]; constructor; rewrite ?Hw0, ?Hq0; assumption).
  rewrite (queue_find_ok w0 queue c Hok0 eq_refl Hc). cbn [mbind cres_bind].
  rewrite <- Hw0, find_want_wanted. destruct (find_want w0 (cid_value c)) as [p |] eqn:Hf.
  - rewrite bool_decide_eq_true_2 by eauto.
    destruct (update_wants w0 p _ (fun e => with_sessions
      (libp2p_utils_vector_add (qe_sessionsRequesting e) s) e) (more_sessions [s]) Hok0 Hf)
      as [Hok' Hw']; [reflexivity | reflexivity | |].
    { intros e x. unfold want_of. destruct (qe_cid e) eqn:E; [| discriminate]. cbn.
      rewrite E. cbn. intros [= <-]. unfold more_sessions. cbn. rewrite items_add. reflexivity. }
    assert (Hfin := update_finds w0 p (fun e => with_sessions
      (libp2p_utils_vector_add (qe_sessionsRequesting e) s) e) ltac:(reflexivity)).
    do 3 eexists. split; [reflexivity |]. split; [exact Hok' |]. split; [reflexivity |].
    split; [apply Hfin, Hf |]. split; [| exact Hw'].
    intros k q Hk. apply Hfin. unfold find_want, want_at in *. rewrite Hq0. exact Hk.
  - destruct (cid_copy_small (E := unit) c Hc) as (c' & -> & Ev & Hs'). cbn [mbind cres_bind].
    set (p := fresh (dom (wq_entries w0))). unfold update_entry. cbn [wq_queue wq_entries w0].
    assert (Hp : wq_entries w !! p = None)
      by (apply not_elem_of_dom; apply (is_fresh (dom (wq_entries w0)))).
    rewrite !alter_insert_eq. do 3 eexists. split; [reflexivity |].
    match goal with |- wantlist_ok ?w' /\ _ =>
      destruct (wants_snoc w0 w' (libp2p_utils_vector_add queue p) p _
        (Want (cid_value c) [s; s] None 0 0) Hok0 Hp eq_refl eq_refl) as (H1 & H2 & H3 & H4) end.
    + rewrite items_add. reflexivity.
    + exists c'. split; [reflexivity | exact Hs'].
    + unfold want_of. cbn. rewrite !items_add, items_new, Ev. reflexivity.
    + cbn [w_key]. rewrite find_want_wanted, Hf. reflexivity.
    + split; [exact H1 |]. split; [reflexivity |]. split; [exact H4 |]. split; [| exact H2].
      intros k q Hk. apply H3. unfold find_want, want_at in *. rewrite Hq0. exact Hk.
Qed.

(** Looking a want up. *)
Definition lookup_want (k : cid_key) (l : list want) : option want :=
  find (fun x => bool_decide (w_key x = k)) l.
Definition block_of (k : cid_key) (l : list want) : option Block := lookup_want k l ≫= w_block.
Definition pending (x : want) : bool := bool_decide (w_block x = None) && (w_asked x =? 0).

Lemma find_wants w k : lookup_want k (wants w) = find_want w k ≫= want_at w.
Proof.
  unfold lookup_want, find_want, wants. induction (queued w) as [| p l IH]; [reflexivity |].
  cbn [omap list_omap find]. destruct (want_at w p) as [x |] eqn:Ex; cbn [fmap option_fmap option_map find].
  - destruct (decide (w_key x = k)) as [E | E].
    + rewrite !bool_decide_eq_true_2 by congruence. cbn. rewrite Ex. reflexivity.
    + rewrite !(bool_decide_eq_false_2 (_ = _)) by congruence. exact IH.
  - rewrite (bool_decide_eq_false_2 (_ = _)) by discriminate. exact IH.
Qed.
Lemma lookup_on_key k k' f l :
  (forall x, w_key (f x) = w_key x) ->
  lookup_want k (on_key k' f l) = if decide (k = k') then f <$> lookup_want k l else lookup_want k l.
Proof.
  intros Hf. unfold lookup_want, on_key. induction l as [| x l IH]; [by case_decide |].
  cbn [map find]. assert (Hk : w_key (if decide (w_key x = k') then f x else x) = w_key x)
    by (destruct (decide (w_key x = k')); [apply Hf | reflexivity]).
  destruct (decide (w_key x = k)) as [E | E].
  - rewrite (bool_decide_eq_true_2 (w_key x = k)), (bool_decide_eq_true_2 (_ = k)) by congruence.
    destruct (decide (k = k')) as [Ek | Ek].
    + rewrite decide_True by (rewrite E; exact Ek). reflexivity.
    + rewrite decide_False by (rewrite E; exact Ek). reflexivity.
  - rewrite (bool_decide_eq_false_2 (w_key x = k)), (bool_decide_eq_false_2 (_ = k)) by congruence.
    exact IH.
Qed.
Lemma block_of_add k k' s l x :
  lookup_want k l = Some x -> block_of k (add_want k' s l) = block_of k l.
Proof.
  intros Hx. unfold block_of, add_want. destruct (wanted k' l).
  - rewrite lookup_on_key by reflexivity. rewrite Hx. case_decide; reflexivity.
  - unfold lookup_want in *. rewrite find_app, Hx. reflexivity.
Qed.

Lemma pop_ok w :
  wantlist_ok w ->
  exists p, ipfs_bitswap_wantlist_queue_pop (Some w) = Ok p /\
    p ≫= want_at w = find pending (wants w) /\ forall q, p = Some q -> q ∈ queued w.
Proof.
  intros [He _ _]. unfold ipfs_bitswap_wantlist_queue_pop, wants.
  unfold queued in *. destruct (wq_queue w) as [v |]; [| exists None; repeat split; discriminate].
  rewrite vector_search_items. induction (items v) as [| p l IH]; [exists None; repeat split; discriminate |].
  apply Forall_cons in He as [(e & c & Hp & Hc & _) He]. cbn [list_search omap list_omap].
  assert (Hat : want_at w p = Some (Want (cid_value c) (items (qe_sessionsRequesting e)) (qe_block e)
    (qe_asked_network e) (qe_attempts e))) by (unfold want_at, want_of; rewrite Hp; cbn; rewrite Hc; reflexivity).
  rewrite Hat, Hp. cbn [mbind cres_bind find]. unfold pending at 1. cbn [w_block w_asked].
  destruct (_ && _).
  - exists (Some p). repeat split; [exact Hat |]. intros q [= <-]. left.
  - destruct (IH He) as (q & H1 & H2 & H3). exists q. repeat split; [exact H1 | exact H2 |].
    intros r Hr. right. apply H3, Hr.
Qed.

Lemma wanted_block_ok w v c :
  wantlist_ok w -> wq_queue w = Some v -> cid_small c ->
  wanted_block w (Some c) = Ok (block_of (cid_value c) (wants w)).
Proof.
  intros Hok Hv Hc. unfold wanted_block, block_of. rewrite (queue_find_ok w v c Hok Hv Hc), find_wants.
  cbn [mbind cres_bind]. destruct (find_want w (cid_value c)) as [p |] eqn:Hf; [| reflexivity].
  cbn. unfold want_at. apply find_want_some in Hf as [_ Hf]. unfold want_at in Hf.
  destruct (wq_entries w !! p) as [e |]; [| reflexivity]. cbn in *. unfold want_of in *.
  destruct (qe_cid e); [reflexivity | discriminate].
Qed.

(** ** Waiting for a block *)

Definition block_ok (b : Block) : Prop :=
  block_copyable b /\ exists c, bl_cid b = Some c /\ cid_small c.
Definition event_ok (ev : wantlist_event (Peer := Peer)) : Prop :=
  match ev with
  | Added (Some c) _ | Removed (Some c) _ | Sent (Some c) => cid_small c
  | Worked (Some c) b _ _ => cid_small c /\ forall b', b = Some b' -> block_ok b'
  | Added None _ | Removed None _ | Sent None | Worked None _ _ _ => False
  | Arrived b => block_ok b
  end.
(** What became of the block of an entry: there is one, which is allocated or was freed, or none. *)
Inductive fate := NoBlock | Kept (b : Block) | Freed.
Definition fate_after (k : cid_key) (ev : wantlist_event (Peer := Peer)) (f : fate) : fate :=
  match ev with
  | Arrived b => if decide (cid_value <$> bl_cid b = Some k) then Kept b else f
  | Worked (Some c) (Some b) _ _ => if decide (cid_value c = k) then Kept b else f
  | Sent (Some c) =>
      if decide (cid_value c = k) then match f with NoBlock => NoBlock | _ => Freed end else f
  | _ => f
  end.
Definition fate_of (k : cid_key) (l : shared_list (Peer := Peer)) : fate :=
  match find_want l.1 k, block_of k (wants l.1) with
  | Some p, Some b => if bool_decide (p ∈ l.2) then Freed else Kept b
  | _, _ => NoBlock
  end.
Definition fate_ok (f : fate) : Prop := match f with Kept b => block_ok b | _ => True end.
Lemma fate_after_ok k ev f : event_ok ev -> fate_ok f -> fate_ok (fate_after k ev f).
Proof.
  intros He Hf. destruct ev as [| | b | [c |] [b |] | [c |]]; cbn in *; auto; case_decide; cbn; auto.
  - apply He. reflexivity.
  - by destruct f.
Qed.
Lemma worked_ok w v c b n m :
  wantlist_ok w -> wq_queue w = Some v -> cid_small c ->
  forall p, find_want w (cid_value c) = Some p ->
  let w' := update_entry (worked b n m) p w in
  wantlist_ok w' /\ wq_queue w' = Some v /\ keeps_finds w w' /\
  wants w' = on_key (cid_value c) (fun x => Want (w_key x) (w_sessions x)
    (match b with Some b => Some b | None => w_block x end) n m) (wants w).
Proof.
  intros Hok Hv Hc p Hf w'.
  destruct (update_wants w p _ (worked b n m) (fun x => Want (w_key x) (w_sessions x)
    (match b with Some b => Some b | None => w_block x end) n m) Hok Hf) as [Hok' Hw']; [reflexivity | reflexivity | |].
  - intros e x. unfold want_of. destruct (qe_cid e) eqn:E; [| discriminate]. cbn. rewrite E. cbn.
    intros [= <-]. destruct b; reflexivity.
  - split; [exact Hok' |]. split; [exact Hv |]. split; [apply update_finds; reflexivity | exact Hw'].
Qed.
(** The block held by the entry found. *)
Lemma entry_block w k p :
  find_want w k = Some p ->
  exists e, wq_entries w !! p = Some e /\ qe_block e = block_of k (wants w).
Proof.
  intros Hf. unfold block_of. rewrite find_wants, Hf. cbn [mbind option_bind].
  apply find_want_some in Hf as [_ Hf]. unfold want_at in *.
  destruct (wq_entries w !! p) as [e |]; [| discriminate]. exists e. split; [reflexivity |].
  cbn in *. unfold want_of in *. destruct (qe_cid e); [reflexivity | discriminate].
Qed.

(** What became of the block of an entry that is found. *)
Lemma fate_found w freed k p :
  find_want w k = Some p ->
  fate_of k (w, freed) = match block_of k (wants w) with
                         | Some b => if bool_decide (p ∈ freed) then Freed else Kept b
                         | None => NoBlock
                         end.
Proof. intros Hf. unfold fate_of. cbn [fst snd]. rewrite Hf. reflexivity. Qed.
Lemma freed_other w (freed : gset positive) k k' p :
  find_want w k = Some p -> k' <> k ->
  (p ∈ freed ∖ list_to_set (option_list (find_want w k')) <-> p ∈ freed) /\
  (p ∈ freed ∪ list_to_set (option_list (find_want w k')) <-> p ∈ freed).
Proof.
  intros Hp Hk. assert (Hq : forall q, find_want w k' = Some q -> q <> p).
  { intros q Hq ->. apply find_want_some in Hp as [_ Hp], Hq as [_ Hq]. congruence. }
  destruct (find_want w k') as [q |]; cbn; [specialize (Hq q eq_refl) |]; clear - Hq; set_solver.
Qed.
Lemma block_of_on_key k k' g l :
  (forall x, w_key (g x) = w_key x) ->
  block_of k (on_key k' g l) = if decide (k = k') then (g <$> lookup_want k l) ≫= w_block else block_of k l.
Proof. intros Hg. unfold block_of. rewrite lookup_on_key by exact Hg. case_decide; reflexivity. Qed.
Lemma lookup_found w k p : find_want w k = Some p -> exists x, lookup_want k (wants w) = Some x.
Proof.
  intros Hf. rewrite find_wants, Hf. cbn. apply find_want_some in Hf as [_ Hf]. destruct (want_at w p); [eauto | discriminate].
Qed.

Lemma run_worked_ok c b n m w freed v k p :
  cid_small c -> wantlist_ok w -> wq_queue w = Some v -> find_want w k = Some p ->
  exists w' freed' v', run_event libp2p_peer_compare (Worked (Some c) b n m) (w, freed) = Ok (w', freed') /\
    wantlist_ok w' /\ wq_queue w' = Some v' /\ keeps_finds w w' /\
    fate_of k (w', freed') = fate_after k (Worked (Some c) b n m) (fate_of k (w, freed)).
Proof.
  intros Hc Hok Hv Hf. destruct (lookup_found w k p Hf) as [x Hx]. cbn [run_event].
  rewrite (queue_find_ok w v c Hok Hv Hc). cbn [mbind cres_bind].
  destruct (find_want w (cid_value c)) as [q |] eqn:Hq.
  - destruct (worked_ok w v c b n m Hok Hv Hc q Hq) as (Hok' & Hv' & Hfin & Hw').
    do 3 eexists. split; [reflexivity |]. split_and!; try eassumption.
    rewrite (fate_found _ _ _ p (Hfin _ _ Hf)), (fate_found w _ _ p Hf), Hw', block_of_on_key by reflexivity.
    unfold fate_after, block_of. destruct (decide (k = cid_value c)) as [-> | Hk].
    + rewrite Hx. assert (q = p) as -> by congruence. cbn. destruct b as [b |]; cbn; [| reflexivity].
      rewrite decide_True, bool_decide_eq_false_2 by (reflexivity || (clear; set_solver)). reflexivity.
    + rewrite Hx. cbn. destruct b as [b |]; [| reflexivity]. rewrite decide_False by congruence.
      destruct (w_block x); [| reflexivity].
      assert (q <> p). { intros ->. apply find_want_some in Hf as [_ Hf], Hq as [_ Hq]. congruence. }
      rewrite (bool_decide_ext _ (p ∈ freed)) by (clear - H; set_solver). reflexivity.
  - exists w, freed, v. split; [reflexivity |]. split_and!; try assumption; [intros ? ? H; exact H |].
    unfold fate_after. destruct b; [| reflexivity]. rewrite decide_False; [reflexivity |]. congruence.
Qed.
Lemma run_event_ok ev w freed v k p :
  event_ok ev -> wantlist_ok w -> wq_queue w = Some v -> find_want w k = Some p ->
  exists w' freed' v', run_event libp2p_peer_compare ev (w, freed) = Ok (w', freed') /\ wantlist_ok w' /\
    wq_queue w' = Some v' /\ keeps_finds w w' /\
    fate_of k (w', freed') = fate_after k ev (fate_of k (w, freed)).
Proof.
  intros He Hok Hv Hf. destruct (lookup_found w k p Hf) as [x Hx].
  destruct ev as [[c |] s | [c |] s | b | [c |] b n m | [c |]]; try contradiction; cbn [event_ok run_event] in *.
  - destruct (add_ok w c s Hok He) as (q & w' & v' & -> & Hok' & Hv' & _ & Hfin & Hw').
    exists w', freed, v'. split; [reflexivity |]. split_and!; try assumption.
    rewrite (fate_found w' _ _ p (Hfin _ _ Hf)), (fate_found w _ _ p Hf), Hw', (block_of_add _ _ _ _ x Hx). reflexivity.
  - destruct (want_remove_ok w v c s Hok Hv He) as (w' & -> & Hok' & Hv' & Hfin & Hw').
    exists w', freed, v. split; [reflexivity |]. split_and!; try assumption.
    rewrite (fate_found w' _ _ p (Hfin _ _ Hf)), (fate_found w _ _ p Hf), Hw', block_of_on_key by reflexivity.
    unfold block_of. rewrite Hx. case_decide; reflexivity.
  - destruct He as [_ (c & Hb & Hc)]. destruct (arrived_ok w v c b Hok Hv Hb Hc) as (w' & Ha & Hok' & Hv' & Hfin & Hw').
    rewrite Ha, Hb, (queue_find_ok w v c Hok Hv Hc). cbn [mbind cres_bind].
    do 3 eexists. split; [reflexivity |]. split_and!; try eassumption.
    rewrite (fate_found w' _ _ p (Hfin _ _ Hf)), (fate_found w _ _ p Hf), Hw', block_of_on_key by reflexivity.
    cbn [fate_after]. rewrite Hb. cbn [fmap option_fmap option_map]. destruct (decide (k = cid_value c)) as [-> | Hk].
    + rewrite Hx, Hf, decide_True by reflexivity. cbn. rewrite bool_decide_eq_false_2 by (clear; set_solver). reflexivity.
    + rewrite decide_False by congruence. destruct (block_of _ _); [| reflexivity].
      rewrite (bool_decide_ext _ (p ∈ freed)) by (apply (freed_other w freed k); congruence). reflexivity.
  - destruct He as [Hc _]. exact (run_worked_ok c b n m w freed v k p Hc Hok Hv Hf).
  - rewrite (queue_find_ok w v c Hok Hv He). cbn [mbind cres_bind].
    do 3 eexists. split; [reflexivity |]. split_and!; try eassumption; [intros ? ? H; exact H |].
    rewrite !(fate_found w _ _ p Hf). cbn [fate_after]. destruct (decide (cid_value c = k)) as [<- | Hk].
    + rewrite Hf. destruct (block_of _ _); [| reflexivity]. rewrite bool_decide_eq_true_2 by (clear; set_solver).
      case_bool_decide; reflexivity.
    + destruct (block_of _ _); [| reflexivity].
      rewrite (bool_decide_ext _ (p ∈ freed)) by (apply (freed_other w freed k); assumption). reflexivity.
Qed.

(** What became of the block after some events. *)
Definition fate_run (k : cid_key) (evs : list (wantlist_event (Peer := Peer))) (f : fate) : fate :=
  foldl (fun f ev => fate_after k ev f) f evs.
Lemma run_events_ok evs w freed v k p :
  Forall event_ok evs -> wantlist_ok w -> wq_queue w = Some v -> find_want w k = Some p ->
  exists w' freed' v', run_events libp2p_peer_compare evs (w, freed) = Ok (w', freed') /\ wantlist_ok w' /\
    wq_queue w' = Some v' /\ find_want w' k = Some p /\ fate_of k (w', freed') = fate_run k evs (fate_of k (w, freed)).
Proof.
  intros He. revert w freed v. induction He as [| ev evs He _ IH]; intros w freed v Hok Hv Hf.
  - exists w, freed, v. split; [reflexivity |]. split_and!; auto.
  - destruct (run_event_ok ev w freed v k p He Hok Hv Hf) as (w1 & f1 & v1 & E1 & Hok1 & Hv1 & Hf1 & Hb1).
    destruct (IH w1 f1 v1 Hok1 Hv1 (Hf1 _ _ Hf)) as (w2 & f2 & v2 & E2 & Hok2 & Hv2 & Hf2 & Hb2).
    exists w2, f2, v2. cbn [run_events]. rewrite E1. cbn [mbind cres_bind]. split; [exact E2 |].
    split_and!; try assumption. rewrite Hb2, Hb1. reflexivity.
Qed.
Lemma fate_run_ok k evs f : Forall event_ok evs -> fate_ok f -> fate_ok (fate_run k evs f).
Proof.
  intros He. revert f. induction He as [| ev evs He _ IH]; intros f Hf; [exact Hf |]. apply IH, fate_after_ok; assumption.
Qed.

(** What the first look that finds a block finds, after up to [n] sleeps from the [t]th on. *)
Fixpoint arrival (k : cid_key) (others : nat -> list (wantlist_event (Peer := Peer))) (n t : nat) (f : fate) : fate :=
  match f, n with
  | NoBlock, S n => arrival k others n (S t) (fate_run k (others t) NoBlock)
  | _, _ => f
  end.

(** Adding a session changes nothing of the block. *)
Lemma block_of_new k s l : wanted k l = false -> block_of k (add_want k s l) = None.
Proof.
  intros Hw. unfold add_want, block_of, lookup_want. rewrite Hw, find_app.
  assert (find (fun x => bool_decide (w_key x = k)) l = None) as ->.
  { unfold wanted in Hw. induction l as [| x l IH]; [reflexivity |]. cbn in Hw |- *.
    apply orb_false_iff in Hw as [-> Hw]. apply IH, Hw. }
  cbn. rewrite bool_decide_eq_true_2 by reflexivity. reflexivity.
Qed.
Lemma fate_of_add w w1 freed s k p :
  wants w1 = add_want k s (wants w) -> find_want w1 k = Some p -> keeps_finds w w1 ->
  fate_of k (w1, freed) = fate_of k (w, freed).
Proof.
  intros Hw1 Hf1 Hfin. rewrite (fate_found w1 freed k p Hf1), Hw1. destruct (find_want w k) as [q |] eqn:Hq.
  - pose proof (Hfin _ _ Hq) as Hq'. assert (q = p) as -> by congruence. rewrite (fate_found w freed k p Hq).
    destruct (lookup_found w k p Hq) as [x Hx]. rewrite (block_of_add _ _ _ _ x Hx). reflexivity.
  - unfold fate_of. cbn [fst snd]. rewrite Hq, block_of_new; [reflexivity |].
    rewrite find_want_wanted, Hq. reflexivity.
Qed.

Abbreviation wait := (get_block_wait libp2p_peer_compare).

Lemma wait_ok others n t w freed v c p :
  (n + t = 59)%nat -> (forall i, (i < 59)%nat -> Forall event_ok (others i)) ->
  wantlist_ok w -> wq_queue w = Some v -> cid_small c ->
  find_want w (cid_value c) = Some p -> fate_ok (fate_of (cid_value c) (w, freed)) ->
  match arrival (cid_value c) others n t (fate_of (cid_value c) (w, freed)) with
  | Kept b => exists b' w', wait others (S n) (Some c) p t (w, freed) = Ok (1, Some b', w') /\
      block_value b' = block_value b /\ wantlist_ok w'
  | Freed => wait others (S n) (Some c) p t (w, freed) = Undef
  | NoBlock => exists w', wait others (S n) (Some c) p t (w, freed) = Ok (0, None, w') /\ wantlist_ok w'
  end.
Proof.
  intros Hn Ho Hok Hv Hc Hf. revert t w freed v Hn Hok Hv Hf.
  induction n as [| n IH]; intros t w freed v Hn Hok Hv Hf Hb;
    destruct (entry_block w _ p Hf) as (e & He & Eb); cbn [get_block_wait fst snd];
    rewrite He, Eb; rewrite (fate_found w freed _ p Hf) in *;
    destruct (block_of (cid_value c) (wants w)) as [b |] eqn:Eb'; cbn [arrival].
  1, 3: destruct (bool_decide (p ∈ freed)); [reflexivity |]; destruct Hb as [Hcp (c' & Hbc & _)];
    destruct (block_copy_value (E := unit) b Hcp ltac:(congruence)) as (b' & -> & Hval);
    cbn [mbind cres_bind]; unfold ipfs_bitswap_want_manager_remove;
    destruct (want_remove_ok w v c (Some LocalSession) Hok Hv Hc) as (w' & -> & Hok' & _);
    exists b', w'; auto.
  - replace (60 <=? S t)%nat with true by (symmetry; apply Nat.leb_le; lia).
    unfold ipfs_bitswap_want_manager_remove.
    destruct (want_remove_ok w v c (Some LocalSession) Hok Hv Hc) as (w' & -> & Hok' & _). eauto.
  - replace (60 <=? S t)%nat with false by (symmetry; apply Nat.leb_gt; lia).
    destruct (run_events_ok (others t) w freed v _ p (Ho t ltac:(lia)) Hok Hv Hf)
      as (w1 & f1 & v1 & -> & Hok1 & Hv1 & Hf1 & Hb1). cbn [mbind cres_bind].
    rewrite (fate_found w freed _ p Hf), Eb' in Hb1. rewrite <- Hb1. apply (IH (S t) w1 f1 v1); try assumption; [lia |].
    rewrite Hb1. apply fate_run_ok; [apply Ho; lia | exact I].
Qed.

(** Nothing happens: the wait ends with the session taken out. *)
Lemma wait_idle others n t w freed c p :
  (n + t = 59)%nat -> (forall i, others i = []) -> find_want w (cid_value c) = Some p ->
  block_of (cid_value c) (wants w) = None ->
  wait others (S n) (Some c) p t (w, freed) =
    ('(_, w') ← remove (Some w) (Some c) (Some LocalSession); Ok (0, None, default w w')).
Proof.
  intros Hn Ho Hf Hb. revert t Hn. destruct (entry_block w _ p Hf) as (e & He & Eb).
  rewrite Hb in Eb. induction n as [| n IH]; intros t Hn; cbn [get_block_wait fst snd]; rewrite He, Eb.
  - replace (60 <=? S t)%nat with true by (symmetry; apply Nat.leb_le; lia). reflexivity.
  - replace (60 <=? S t)%nat with false by (symmetry; apply Nat.leb_gt; lia).
    rewrite (Ho t). cbn [run_events mbind cres_bind]. apply (IH (S t)). lia.
Qed.

(** ** The theorems *)

(** C15: the list of wants is a list of distinct CIDs with who wants them: adding
    one finds its entry or makes one at the end (which lists the session twice),
    removing takes one session of it out and leaves the entry, a block that arrives
    is kept where its CID is wanted and only there, and the next want to work on is
    the first without a block that the network was not asked for. Looking into a
    list nothing was ever added to is undefined, as when a block arrives first. *)
Theorem wantlist_refines w c s b :
  wantlist_ok w -> cid_small c -> bl_cid b = Some c ->
  let k := cid_value c in
  (exists p w', add (Some w) (Some c) s = Ok (Some p, Some w') /\ wantlist_ok w' /\
     wants w' = add_want k s (wants w)) /\
  (exists p, ipfs_bitswap_wantlist_queue_pop (Some w) = Ok p /\
     p ≫= want_at w = find pending (wants w)) /\
  match wq_queue w with
  | Some v =>
      (exists w', remove (Some w) (Some c) s = Ok (if wanted k (wants w) then 1 else 0, Some w') /\
         wantlist_ok w' /\ wants w' = on_key k (without_session s) (wants w)) /\
      (exists w', block_arrived w b = Ok w' /\ wantlist_ok w' /\
         wants w' = on_key k (arrived b) (wants w)) /\
      ipfs_bitswap_want_manager_received w (Some c) =
        Ok (match block_of k (wants w) with Some _ => 1 | None => 0 end)
  | None => remove (Some w) (Some c) s = Undef /\ block_arrived w b = Undef
  end.
Proof.
  intros Hok Hc Hb k. split; [| split].
  - destruct (add_ok w c s Hok Hc) as (p & w' & v' & Ha & Hok' & _ & _ & _ & Hw'). eauto.
  - destruct (pop_ok w Hok) as (p & Hp & Hf & _). eauto.
  - destruct (wq_queue w) as [v |] eqn:Hv.
    + destruct (want_remove_ok w v c s Hok Hv Hc) as (w1 & Hr & H1 & _ & _ & Hw1).
      destruct (arrived_ok w v c b Hok Hv Hb Hc) as (w2 & Ha & H2 & _ & _ & Hw2).
      split; [eauto |]. split; [eauto |].
      unfold ipfs_bitswap_want_manager_received. rewrite (wanted_block_ok w v c Hok Hv Hc). reflexivity.
    + unfold block_arrived, ipfs_bitswap_wantlist_queue_remove, ipfs_bitswap_wantlist_queue_find.
      rewrite Hb, Hv. split; reflexivity.
Qed.

Section GetBlock.
Context {PB : Protobuf} {MH : Multihash} {B32 : Base32} {OS : OsUtils} {DS : Datastore}.
Context (path : bytes).

(** C16: a block in the store is returned at once. For another the wait ends: with a
    copy of the block when one with its CID is kept with the want during one of the 59 sleeps,
    or was already there, and with a failure after the sixtieth look otherwise,
    whatever the other threads add, remove, receive or work on meanwhile. A block that was
    queued for a peer and freed with the message before the next look is copied
    from freed memory, which is undefined. When nothing happens the
    want of nobody is left behind in the list. *)
Theorem get_block_spec freed others w c W :
  wantlist_ok w -> cid_small c -> (forall i, (i < 59)%nat -> Forall event_ok (others i)) ->
  fate_ok (fate_of (cid_value c) (w, freed)) ->
  let get := ipfs_bitswap_get_block libp2p_peer_compare path freed others 60 w c W in
  match ipfs_blockstore_get path c W with
  | (Ok b, W') => get = (Ok (1, Some b, w), W')
  | (Err _, W') =>
      match arrival (cid_value c) others 59 0 (fate_of (cid_value c) (w, freed)) with
      | Kept b => exists b' w', get = (Ok (1, Some b', w'), W') /\
          block_value b' = block_value b /\ wantlist_ok w'
      | Freed => get = (Undef, W')
      | NoBlock => exists w', get = (Ok (0, None, w'), W') /\ wantlist_ok w' /\
          (wanted (cid_value c) (wants w) = false -> (forall i, others i = []) ->
           wants w' = wants w ++ [Want (cid_value c) [Some LocalSession] None 0 0])
      end
  | _ => True
  end.
Proof.
  intros Hok Hc Ho Hb. cbn zeta. unfold ipfs_bitswap_get_block.
  destruct (ipfs_blockstore_get path c W) as [[b | [] | |] W'] eqn:Hg; try exact I;
    [rewrite (io_bind_ok _ _ W (inl b) W') by (unfold attempt; rewrite Hg; reflexivity); reflexivity |].
  rewrite (io_bind_ok _ _ W (inr ()) W') by (unfold attempt; rewrite Hg; reflexivity).
  destruct (add_ok w c (Some LocalSession) Hok Hc) as (p & w1 & v1 & Ha & Hok1 & Hv1 & Hf1 & Hfin1 & Hw1).
  rewrite (io_bind_ok _ _ W' (Some p, Some w1) W')
    by (unfold lift, ipfs_bitswap_want_manager_add, ipfs_bitswap_wantlist_session_new; rewrite Ha; reflexivity).
  unfold lift. pose proof (fate_of_add w w1 freed _ _ p Hw1 Hf1 Hfin1) as Hb1.
  pose proof (wait_ok others 59 0 w1 freed v1 c p eq_refl Ho Hok1 Hv1 Hc Hf1 ltac:(rewrite Hb1; exact Hb)) as Hwait.
  rewrite Hb1 in Hwait. destruct (arrival _ _ _ _ _) as [| b |] eqn:Har.
  2: { destruct Hwait as (b' & w' & -> & Hval & Hok'). eauto 10. }
  2: { rewrite Hwait. reflexivity. }
  - destruct Hwait as (w' & Hr & Hok'). rewrite Hr. exists w'. split; [reflexivity |]. split; [exact Hok' |].
    intros Hwa Hidle. assert (Hn : block_of (cid_value c) (wants w1) = None)
      by (rewrite Hw1; apply block_of_new, Hwa).
    rewrite (wait_idle others 59 0 w1 freed c p eq_refl Hidle Hf1 Hn) in Hr.
    destruct (want_remove_ok w1 v1 c (Some LocalSession) Hok1 Hv1 Hc) as (w2 & E & _ & _ & _ & Hw2).
    rewrite E in Hr. injection Hr as <-. rewrite Hw2, Hw1. unfold add_want. rewrite Hwa.
    unfold on_key. rewrite map_app. cbn [map]. rewrite decide_True by reflexivity. f_equal.
    rewrite <- (map_id (wants w)) at 2. apply map_ext_in. intros x Hx.
    rewrite decide_False; [reflexivity |]. intros E2.
    apply Bool.not_true_iff_false in Hwa. apply Hwa, existsb_exists. exists x.
    split; [exact Hx | apply bool_decide_eq_true; exact E2].
Qed.
Context `{!ProtobufLaws PB} `{!Base32Laws B32} `{!OsUtilsLaws OS} `{!DatastoreLaws DS}.

(** What handing a block to the exchange does to the files and to the list. *)
Lemma has_block_ok w v b c h W :
  wantlist_ok w -> wq_queue w = Some v -> cid_small c -> block_wf b -> bl_cid b = Some c -> cid_hash c = Some h ->
  fs_accepts path (w_fs W) h (len (block_wire b)) ->
  @enc_encode_size base32 (len h) <= 100 -> 0 < len h <= 500 -> ds_ready (w_ds W) ->
  exists s w', let W' := MkWorld (fs_with path (w_fs W) h (block_wire b)) s in
    ipfs_bitswap_has_block path w b W = (Ok (0, w'), W') /\ wantlist_ok w' /\ wq_queue w' = Some v /\
    wants w' = on_key (cid_value c) (arrived b) (wants w) /\ is_Some (datastore_get h s).
Proof.
  intros Hok Hv Hc Hb Hbc Hh Hfs Hsz Hlen Hds. unfold ipfs_bitswap_has_block.
  rewrite (io_bind_ok _ _ _ (inl (len (block_wire b))) (MkWorld (fs_with path (w_fs W) h (block_wire b)) (w_ds W)))
    by (unfold attempt; rewrite (put_block_ok path b c h W Hb Hbc Hh Hfs); reflexivity).
  set (W1 := MkWorld _ _).
  destruct (add_block_ok b c h W1 Hbc (cid_small_wf _ Hc) Hh Hsz Hlen Hds) as (s & k & Ha & Hfit & Hp & _).
  rewrite (io_bind_ok _ _ _ (inl ()) (MkWorld (w_fs W1) s)) by (unfold attempt; rewrite Ha; reflexivity).
  destruct (arrived_ok w v c b Hok Hv Hbc Hc) as (w' & Har & Hok' & Hv' & _ & Hw').
  exists s, w'. rewrite (io_bind_ok _ _ _ w' (MkWorld (w_fs W1) s)) by (unfold lift; rewrite Har; reflexivity).
  split_and!; auto. exact (datastore_get_put _ _ _ Hds Hfit Hp).
Qed.
(** Asking for a CID whose block is stored. *)
Lemma get_stored_block freed others fuel w b c h W :
  block_wf b -> cid_small c -> cid_hash c = Some h ->
  fs_files (w_fs W) !! hash_file path h = Some (block_wire b) ->
  exists b', ipfs_bitswap_get_block libp2p_peer_compare path freed others fuel w c W = (Ok (1, Some b', w), W) /\
    block_data b' = block_data b.
Proof.
  intros Hb Hc Hh Hf.
  destruct (get_block_ok path b c h W Hb (cid_small_wf _ Hc) Hh Hf) as (b' & Hg & Hd & _). exists b'.
  split; [| exact Hd]. unfold ipfs_bitswap_get_block.
  rewrite (io_bind_ok _ _ _ (inl b') W) by (unfold attempt; rewrite Hg; reflexivity). reflexivity.
Qed.

(** A block handed to the exchange is stored, recorded and kept in the entry of
    its CID, and asking for the CID then gives it at once; but when nothing was
    ever wanted, handing a block over is undefined. *)
Theorem has_block_spec w freed others fuel b c h W :
  wantlist_ok w -> cid_small c -> block_wf b -> bl_cid b = Some c -> cid_hash c = Some h ->
  fs_accepts path (w_fs W) h (len (block_wire b)) ->
  @enc_encode_size base32 (len h) <= 100 -> 0 < len h <= 500 -> ds_ready (w_ds W) ->
  exists W', match wq_queue w with
  | None => ipfs_bitswap_has_block path w b W = (Undef, W')
  | Some _ =>
      exists w', ipfs_bitswap_has_block path w b W = (Ok (0, w'), W') /\ wantlist_ok w' /\
        wants w' = on_key (cid_value c) (arrived b) (wants w) /\
        is_Some (datastore_get h (w_ds W')) /\
        exists b', ipfs_bitswap_get_block libp2p_peer_compare path freed others fuel w' c W' =
            (Ok (1, Some b', w'), W') /\ block_data b' = block_data b
  end.
Proof.
  intros Hok Hc Hb Hbc Hh Hfs Hsz Hlen Hds. destruct (wq_queue w) as [v |] eqn:Hv.
  - destruct (has_block_ok w v b c h W Hok Hv Hc Hb Hbc Hh Hfs Hsz Hlen Hds) as (s & w' & Hrun & Hok' & _ & Hw' & Hds').
    eexists. exists w'. split; [exact Hrun |]. split; [exact Hok' |]. split; [exact Hw' |]. split; [exact Hds' |].
    apply (get_stored_block freed others fuel w' b c h); auto. cbn. apply lookup_insert_eq.
  - unfold ipfs_bitswap_has_block.
    rewrite (io_bind_ok _ _ _ (inl (len (block_wire b))) (MkWorld (fs_with path (w_fs W) h (block_wire b)) (w_ds W)))
      by (unfold attempt; rewrite (put_block_ok path b c h W Hb Hbc Hh Hfs); reflexivity).
    set (W1 := MkWorld _ _).
    destruct (add_block_ok b c h W1 Hbc (cid_small_wf _ Hc) Hh Hsz Hlen Hds) as (s & k & Ha & _).
    exists (MkWorld (w_fs W1) s).
    rewrite (io_bind_ok _ _ _ (inl ()) (MkWorld (w_fs W1) s)) by (unfold attempt; rewrite Ha; reflexivity).
    unfold lift, block_arrived, ipfs_bitswap_wantlist_queue_find. rewrite Hbc, Hv. reflexivity.
Qed.
End GetBlock.

(** ** The thread *)

Lemma list_search_ext {E A} (f g : A -> cres E bool) l :
  (forall x, f x = g x) -> list_search f l = list_search g l.
Proof.
  intros H. induction l as [| x l IH]; [reflexivity |]. cbn. rewrite H. destruct (g x) as [[] | | |]; auto.
Qed.
Lemma want_key_cid (e : Entry) : w_key <$> want_of e = cid_value <$> qe_cid e.
Proof. unfold want_of. destruct (qe_cid e); reflexivity. Qed.

Lemma wants_keys w :
  map w_key (wants w) = omap (fun p => wq_entries w !! p ≫= fun e => cid_value <$> qe_cid e) (queued w).
Proof.
  unfold wants. induction (queued w) as [| p l IH]; [reflexivity |]. cbn [omap list_omap].
  unfold want_at at 1. destruct (wq_entries w !! p) as [e |]; [| exact IH]. cbn [mbind option_bind].
  rewrite <- want_key_cid. destruct (want_of e); cbn; rewrite <- ?IH; reflexivity.
Qed.
Lemma update_ok w p f :
  (forall e, qe_cid (f e) = qe_cid e) -> wantlist_ok w -> wantlist_ok (update_entry f p w).
Proof.
  intros Hf [He Hk Hn]. constructor; [| | exact Hn].
  - eapply Forall_impl; [exact He |]. intros q (e & c & H1 & H2 & H3). cbn.
    destruct (decide (q = p)) as [-> | Hq].
    + exists (f e), c. rewrite lookup_alter_eq, H1, Hf. auto.
    + exists e, c. rewrite lookup_alter_ne by congruence. auto.
  - rewrite wants_keys in *. erewrite list_omap_ext; [exact Hk |].
    apply Forall_Forall2_diag, Forall_forall. intros q _. cbn.
    destruct (decide (q = p)) as [-> | Hq].
    + rewrite lookup_alter_eq. destruct (wq_entries w !! p) as [e |]; [| reflexivity].
      cbn. rewrite Hf. reflexivity.
    + rewrite lookup_alter_ne by congruence. reflexivity.
Qed.

(** The entry [p], of the CID [c], is the next to be worked on. *)
Record next_is (w : Queue) (p : positive) (c : Cid) : Prop := {
  next_ok : wantlist_ok w;
  next_pop : ipfs_bitswap_wantlist_queue_pop (Some w) = Ok (Some p);
  next_entry : exists e, wq_entries w !! p = Some e /\ qe_cid e = Some c
}.

Lemma next_found w p c :
  next_is w p c -> cid_small c /\ (exists v, wq_queue w = Some v) /\
  find_want w (cid_value c) = Some p.
Proof.
  intros [Hok Hp (e & He & Hc)]. destruct (pop_ok w Hok) as (p' & Hp' & _ & Hin).
  rewrite Hp in Hp'. injection Hp' as <-. specialize (Hin p eq_refl).
  assert (Hs : cid_small c).
  { destruct Hok as [Hall _ _]. rewrite Forall_forall in Hall.
    destruct (Hall p Hin) as (e' & c' & H1 & H2 & H3). congruence. }
  split; [exact Hs |]. split.
  { unfold queued in Hin. destruct (wq_queue w); [eauto | inversion Hin]. }
  assert (Hk : w_key <$> want_at w p = Some (cid_value c))
    by (unfold want_at; rewrite He; cbn; rewrite want_key_cid, Hc; reflexivity).
  unfold find_want. destruct (find _ (queued w)) as [q |] eqn:Hf.
  - destruct (find_want_some w (cid_value c) q Hf) as [Hq Hqk].
    f_equal. apply (keys_at_nodup w q p (cid_value c)); assumption.
  - exfalso. eapply find_none in Hf; [| apply list_elem_of_In, Hin].
    apply bool_decide_eq_false in Hf. congruence.
Qed.

(** Changes that leave it next. *)
Lemma next_update w p c f :
  (forall e, qe_cid (f e) = qe_cid e /\ qe_block (f e) = qe_block e /\
     qe_asked_network (f e) = qe_asked_network e) ->
  next_is w p c -> next_is (update_entry f p w) p c.
Proof.
  intros Hf [Hok Hp (e & He & Hc)]. constructor.
  - apply update_ok; [intros; apply Hf | exact Hok].
  - rewrite <- Hp. unfold ipfs_bitswap_wantlist_queue_pop. cbn [update_entry wq_queue].
    destruct (wq_queue w); [| reflexivity]. rewrite !vector_search_items. apply list_search_ext.
    intros q. cbn. destruct (decide (q = p)) as [-> | Hq].
    + rewrite lookup_alter_eq, He. cbn. destruct (Hf e) as (_ & -> & ->). reflexivity.
    + rewrite lookup_alter_ne by congruence. reflexivity.
  - exists (f e). cbn. rewrite lookup_alter_eq, He. destruct (Hf e) as (-> & _). auto.
Qed.
Lemma next_block w p c e :
  next_is w p c -> wq_entries w !! p = Some e -> qe_block e = None /\ qe_asked_network e = 0.
Proof.
  intros [Hok Hp _] He. destruct (pop_ok w Hok) as (p' & Hp' & Hf & Hin).
  rewrite Hp in Hp'. injection Hp' as <-. cbn in Hf. specialize (Hin p eq_refl).
  destruct Hok as [Hall _ _]. rewrite Forall_forall in Hall. destruct (Hall p Hin) as (e' & c' & H1 & H2 & _).
  unfold want_at in Hf. rewrite H1 in Hf. cbn in Hf. unfold want_of in Hf. rewrite H2 in Hf. cbn in Hf.
  symmetry in Hf. apply find_some in Hf as [_ Hf]. unfold pending in Hf. cbn in Hf.
  apply andb_true_iff in Hf as [Hb Ha]. apply bool_decide_eq_true in Hb. apply Z.eqb_eq in Ha.
  replace e' with e in * by congruence. auto.
Qed.

Lemma less_session_len s l : len (less_session s l) <= len l.
Proof. induction l as [| t l IH]; cbn; [reflexivity |]. destruct (_ =? 0); len_lia. Qed.

Lemma drop_sessions_ok fuel p c i w :
  next_is w p c -> 0 <= i ->
  (forall e, wq_entries w !! p = Some e ->
     vector_total (qe_sessionsRequesting e) <= i + Z.of_nat fuel) ->
  exists w', drop_sessions libp2p_peer_compare (S fuel) p i w = Ok w' /\ next_is w' p c.
Proof.
  revert i w. induction fuel as [| fuel IH]; intros i w Hn Hi Hf;
    pose proof (next_entry _ _ _ Hn) as (e & He & Hc);
    pose proof (Hf e He) as Ht; cbn [drop_sessions]; rewrite He.
  - replace (i <? _) with false by (symmetry; apply Z.ltb_ge; lia). eauto.
  - destruct (i <? _) eqn:Hlt; [| exists w; auto].
    destruct (next_found w p c Hn) as (Hs & (v & Hv) & Hfind).
    unfold ipfs_bitswap_wantlist_queue_remove.
    rewrite Hc, (queue_find_ok w v c (next_ok _ _ _ Hn) Hv Hs), Hfind. cbn [mbind cres_bind default].
    apply IH; [| lia |].
    + apply next_update; [| exact Hn]. intros e'. split; [apply decrement_cid |].
      unfold ipfs_bitswap_wantlist_queue_entry_decrement. destruct (decrement_from _ _ _ _ _). auto.
    + intros e' He'. cbn in He'. rewrite lookup_alter_eq, He in He'. injection He' as <-.
      unfold ipfs_bitswap_wantlist_queue_entry_decrement.
      match goal with |- context [decrement_from ?a ?b ?s ?d ?e] =>
        pose proof (decrement_ok b s) as Hd; destruct (decrement_from a b s d e) as [r v'] end.
      cbn in *. rewrite vector_total_items in *. rewrite Hd.
      match goal with |- len (less_session ?s ?l) <= _ => pose proof (less_session_len s l) end. lia.
Qed.

Section EngineFacts.
Context {PB : Protobuf}.
Context (is_local is_connected has_address connect : Peer -> bool).
Context (reachable : Peer -> bool) (write : Peer -> bytes -> Z).
Context (blockstore_get : option Cid -> cres unit (option Block)).
Context (find_providers : bytes -> option (vector (option Peer))).

Abbreviation round := (wantlist_processor_round libp2p_peer_compare is_local is_connected has_address
  connect reachable write blockstore_get find_providers).
Abbreviation processor := (ipfs_bitswap_engine_wantlist_processor libp2p_peer_compare is_local
  is_connected has_address connect reachable write blockstore_get find_providers).
Abbreviation get_remote := (ipfs_bitswap_wantlist_get_block_remote libp2p_peer_compare is_local
  is_connected has_address connect reachable write blockstore_get find_providers).
Abbreviation fulfill := (fulfill libp2p_peer_compare).

Definition is_local_session (s : Session) : bool := bool_decide (session_type <$> s = Some 0).
Definition local_wants (e : Entry) : bool := existsb is_local_session (items (qe_sessionsRequesting e)).

Lemma local_request_ok (v : vector Session) :
  ipfs_bitswap_wantlist_local_request v = Ok (if existsb is_local_session (items v) then 1 else 0).
Proof.
  unfold ipfs_bitswap_wantlist_local_request. rewrite vector_search_items.
  assert (H : list_search (E := unit) (fun s : Session => Ok (bool_decide (session_type <$> s = Some 0)))
    (items v) = Ok (find is_local_session (items v))).
  { induction (items v) as [| s l IH]; [reflexivity |]. cbn [list_search find mbind cres_bind].
    unfold is_local_session at 1. destruct (bool_decide _); [reflexivity | exact IH]. }
  rewrite H. cbn [mbind cres_bind]. clear H. induction (items v) as [| s l IH]; [reflexivity |].
  cbn [find existsb]. destruct (is_local_session s); [reflexivity | exact IH].
Qed.

(** One round on an entry that was not given up yet. *)
Lemma round_eq w q p c e :
  next_is w p c -> wq_entries w !! p = Some e -> qe_cid e = Some c -> qe_attempts e <= 10 ->
  round w q =
    found ← blockstore_get (Some c);
    match found with
    | Some b =>
        q ← vector_loop (fulfill b) (qe_sessionsRequesting e) q;
        Ok (Some (update_entry (with_block (Some b)) p w, q, []))
    | None =>
        if local_wants e then
          '(ok, q, sent) ← get_remote c q;
          Ok (Some (update_entry (if ok =? 0 then one_more_attempt else with_asked 1) p
                      (update_entry (with_block None) p w), q, sent))
        else Ok (Some (update_entry (with_block None) p w, q, []))
    end.
Proof.
  intros Hn He Hc Ha. destruct (next_block w p c e Hn He) as [Hb _].
  unfold wantlist_processor_round. rewrite (next_pop _ _ _ Hn). cbn [mbind cres_bind]. rewrite He.
  replace (10 <? qe_attempts e) with false by lia.
  unfold ipfs_bitswap_wantlist_process_entry. rewrite He, Hc, local_request_ok.
  fold (local_wants e). cbn [mbind cres_bind]. rewrite Hb. destruct (blockstore_get (Some c)) as [[b |] | | |]; cbn [mbind cres_bind]; try reflexivity.
  - destruct (vector_loop _ _ _); reflexivity.
  - destruct (local_wants e); cbn [Z.eqb mbind cres_bind]; [| reflexivity].
    destruct (get_remote c q) as [[[ok q'] sent] | | |]; cbn [mbind cres_bind]; try reflexivity.
    destruct (ok =? 0); reflexivity.
Qed.

(** What such a round does to the list is the event of the engine's thread. *)
Lemma round_is_worked w q p c e w' q' sent freed :
  next_is w p c -> wq_entries w !! p = Some e -> qe_cid e = Some c -> qe_attempts e <= 10 ->
  round w q = Ok (Some (w', q', sent)) ->
  exists b n m freed', run_event libp2p_peer_compare (Worked (Some c) b n m) (w, freed) = Ok (w', freed').
Proof.
  intros Hn He Hc Ha Hr. destruct (next_found w p c Hn) as (Hs & _ & Hfind).
  destruct (next_block w p c e Hn He) as [Hb _]. rewrite (round_eq w q p c e Hn He Hc Ha) in Hr.
  assert (Hq : exists v, wq_queue w = Some v).
  { destruct (wq_queue w) eqn:E; [eauto |]. apply find_want_some in Hfind as [Hin _].
    unfold queued in Hin. rewrite E in Hin. inversion Hin. }
  destruct Hq as [v Hv]. cbn [run_event]. rewrite (queue_find_ok w v c (next_ok _ _ _ Hn) Hv Hs), Hfind. cbn [mbind cres_bind].
  assert (Hwork : exists b n m, w' = update_entry (worked b n m) p w).
  { assert (Hsame : forall f b n m, f e = worked b n m e -> update_entry f p w = update_entry (worked b n m) p w).
    { intros f b n m Hf. unfold update_entry. f_equal. apply map_eq. intros r. destruct (decide (r = p)) as [-> | Hne];
        [rewrite !lookup_alter_eq, He; cbn; by rewrite Hf | rewrite !lookup_alter_ne by congruence; reflexivity]. }
    assert (Htwice : forall f g, update_entry f p (update_entry g p w) = update_entry (fun x => f (g x)) p w).
    { intros f g. unfold update_entry. cbn. f_equal. apply map_eq. intros r. destruct (decide (r = p)) as [-> | Hne];
        [rewrite !lookup_alter_eq; by destruct (_ !! p) | rewrite !lookup_alter_ne by congruence; reflexivity]. }
    destruct (blockstore_get (Some c)) as [[b |] | | |]; cbn [mbind cres_bind] in Hr; try discriminate.
    - destruct (vector_loop _ _ _); try discriminate. injection Hr as <- _ _.
      exists (Some b), (qe_asked_network e), (qe_attempts e). apply Hsame. reflexivity.
    - destruct (local_wants e).
      + destruct (get_remote c q) as [[[ok q1] sent1] | | |]; try discriminate. injection Hr as <- _ _. rewrite Htwice.
        exists None. destruct (ok =? 0); do 2 eexists; apply Hsame; unfold worked, with_block, with_asked, one_more_attempt;
          cbn; rewrite Hb; reflexivity.
      + injection Hr as <- _ _. exists None, (qe_asked_network e), (qe_attempts e). apply Hsame.
        unfold worked, with_block. rewrite Hb. reflexivity. }
  destruct Hwork as (b & n & m & ->). exists b, n, m. eexists. reflexivity.
Qed.

Lemma get_remote_none c q :
  cid_wf c -> find_providers (cid_digest c) = None -> get_remote c q = Ok (0, q, []).
Proof.
  intros Hc Hf. unfold ipfs_bitswap_wantlist_get_block_remote. rewrite cid_hash_read by exact Hc.
  cbn [mbind cres_bind]. rewrite Hf. reflexivity.
Qed.

(** A round that finds nothing leaves the entry next. *)
Lemma round_fails w q p c :
  next_is w p c -> blockstore_get (Some c) = Ok None -> find_providers (cid_digest c) = None ->
  exists w', round w q = Ok (Some (w', q, [])) /\ next_is w' p c.
Proof.
  intros Hn Hb Hf. pose proof (next_entry _ _ _ Hn) as (e & He & Hc).
  destruct (next_found w p c Hn) as (Hs & _). destruct (next_block w p c e Hn He) as [Hbl _].
  destruct (Z.leb_spec (qe_attempts e) 10) as [Ha | Ha].
  - assert (Hn' : next_is (update_entry (with_block None) p w) p c).
    { destruct Hn as [Hok Hp Hent]. constructor; [apply update_ok; [reflexivity | exact Hok] | |].
      - rewrite <- Hp. unfold ipfs_bitswap_wantlist_queue_pop. cbn [update_entry wq_queue].
        destruct (wq_queue w); [| reflexivity]. rewrite !vector_search_items. apply list_search_ext.
        intros r. cbn. destruct (decide (r = p)) as [-> | Hr].
        + rewrite lookup_alter_eq, He. cbn. rewrite Hbl. reflexivity.
        + rewrite lookup_alter_ne by congruence. reflexivity.
      - exists (with_block None e). cbn. rewrite lookup_alter_eq, He. auto. }
    rewrite (round_eq w q p c e Hn He Hc Ha), Hb. cbn [mbind cres_bind].
    rewrite get_remote_none by (apply Hs || exact Hf). cbn [mbind cres_bind Z.eqb]. destruct (local_wants e); eexists; (split; [reflexivity |]);
      [apply next_update; [auto | exact Hn'] | exact Hn'].
  - unfold wantlist_processor_round. rewrite (next_pop _ _ _ Hn). cbn [mbind cres_bind]. rewrite He.
    replace (10 <? qe_attempts e) with true by lia.
    destruct (drop_sessions_ok (Z.to_nat (vector_total (qe_sessionsRequesting e))) p c 0 w Hn ltac:(lia))
      as (w' & Hg & Hn').
    { intros e' He'. rewrite He in He'. injection He' as <-.
      rewrite vector_total_items. pose proof (len_nonneg (items (qe_sessionsRequesting e))). lia. }
    rewrite Hg. cbn [mbind cres_bind]. eauto.
Qed.

Definition asked (x : want) : want :=
  Want (w_key x) (w_sessions x) (w_block x) 1 (w_attempts x).

(** C17: a round of the thread takes the first want that is open. A block the node
    has is kept in its entry and queued for the peers that asked for it; a want of
    the node itself is sent to the providers the router knows, once. A want without
    either is never passed over: after any number of rounds it still is the next
    one, nothing was sent, and no other want was looked at. *)
Theorem wantlist_processor_spec w q p c e :
  next_is w p c -> wq_entries w !! p = Some e ->
  (forall b q', qe_attempts e <= 10 -> blockstore_get (Some c) = Ok (Some b) ->
     vector_loop (fulfill b) (qe_sessionsRequesting e) q = Ok q' ->
     exists w', round w q = Ok (Some (w', q', [])) /\ wantlist_ok w' /\
       wants w' = on_key (cid_value c) (arrived b) (wants w)) /\
  (forall q' sent, qe_attempts e <= 10 -> blockstore_get (Some c) = Ok None -> local_wants e = true ->
     get_remote c q = Ok (1, q', sent) ->
     exists w', round w q = Ok (Some (w', q', sent)) /\ wantlist_ok w' /\
       wants w' = on_key (cid_value c) asked (wants w)) /\
  (blockstore_get (Some c) = Ok None -> find_providers (cid_digest c) = None ->
     forall n, exists w', processor n w q = Ok (w', q, []) /\ next_is w' p c).
Proof.
  intros Hn He. destruct (next_found w p c Hn) as (Hs & _ & Hfind).
  pose proof (next_entry _ _ _ Hn) as (e' & He' & Hc). replace e' with e in * by congruence.
  destruct (next_block w p c e Hn He) as [Hbl _]. split; [| split].
  - intros b q' Ha Hb Hl. rewrite (round_eq w q p c e Hn He Hc Ha), Hb. cbn [mbind cres_bind]. rewrite Hl. cbn [mbind cres_bind].
    eexists. split; [reflexivity |].
    apply (update_wants w p _ _ (arrived b) (next_ok _ _ _ Hn) Hfind); [reflexivity | reflexivity |].
    intros e1 x. unfold want_of. destruct (qe_cid e1) eqn:E1; [| discriminate]. cbn.
    rewrite E1. cbn. intros [= <-]. reflexivity.
  - intros q' sent Ha Hb Hl Hr. rewrite (round_eq w q p c e Hn He Hc Ha), Hb. cbn [mbind cres_bind]. rewrite Hl, Hr.
    cbn [mbind cres_bind Z.eqb]. eexists. split; [reflexivity |].
    assert (Hsame : update_entry (with_asked 1) p (update_entry (with_block None) p w) =
      update_entry (with_asked 1) p w).
    { unfold update_entry. cbn. f_equal. apply map_eq. intros r. destruct (decide (r = p)) as [-> | Hr'].
      - rewrite !lookup_alter_eq, He. cbn. unfold with_asked. cbn. rewrite Hbl. reflexivity.
      - rewrite !lookup_alter_ne by congruence. reflexivity. }
    rewrite Hsame. apply (update_wants w p _ _ asked (next_ok _ _ _ Hn) Hfind); [reflexivity | reflexivity |].
    intros e1 x. unfold want_of. destruct (qe_cid e1) eqn:E1; [| discriminate]. cbn.
    rewrite E1. cbn. intros [= <-]. reflexivity.
  - intros Hb Hf n. clear He He' Hbl Hc e. revert w Hn Hfind. induction n as [| n IH]; intros w Hn _; [eauto |].
    destruct (round_fails w q p c Hn Hb Hf) as (w1 & Hr & Hn1).
    destruct (next_found w1 p c Hn1) as (_ & _ & Hf1).
    destruct (IH w1 Hn1 Hf1) as (w2 & Hp & Hn2). exists w2. cbn [ipfs_bitswap_engine_wantlist_processor].
    rewrite Hr. cbn [mbind cres_bind]. rewrite Hp. cbn [mbind cres_bind]. auto.
Qed.
End EngineFacts.
End WantlistFacts.

(** * Concrete runs *)

(** A node that wants the sample CID for itself, once asked. *)
Definition sample_wantlist : WantListQueue (VE := list_vector) (Peer := Z) :=
  MkWantListQueue (VE := list_vector) (Some [1%positive])
    {[ 1%positive := MkWantListQueueEntry (VE := list_vector) (Some sample_cid) 1
         [Some LocalSession; Some LocalSession] None 0 0 ]}.
Definition sample_compare (a b : option Z) : Z := default 0 a - default 0 b.
Definition sample_key : Z * Z * bytes := cid_value sample_cid.

Lemma sample_wantlist_ok : wantlist_ok sample_wantlist.
Proof.
  constructor.
  - repeat constructor. do 2 eexists. split; [reflexivity |]. split; [reflexivity | exact sample_cid_small].
  - apply NoDup_singleton.
  - apply NoDup_singleton.
Qed.
Lemma sample_block_ok : block_ok sample_block.
Proof.
  split; [| exists sample_cid; split; [reflexivity | exact sample_cid_small]].
  split; reflexivity.
Qed.

Lemma wantlist_refines_witness :
  ipfs_bitswap_wantlist_queue_remove sample_compare (Some ipfs_bitswap_wantlist_queue_new)
    (Some sample_cid) (Some LocalSession) = Undef /\
  exists w', ipfs_bitswap_wantlist_queue_remove sample_compare (Some sample_wantlist)
      (Some sample_cid) (Some LocalSession) = Ok (1, Some w') /\
    wants w' = [Want sample_key [Some LocalSession] None 0 0].
Proof.
  destruct (wantlist_refines sample_compare ipfs_bitswap_wantlist_queue_new sample_cid
    (Some LocalSession) sample_block wantlist_ok_new sample_cid_small eq_refl) as (_ & _ & H1 & _).
  destruct (wantlist_refines sample_compare sample_wantlist sample_cid (Some LocalSession) sample_block
    sample_wantlist_ok sample_cid_small eq_refl) as (_ & _ & (w' & H2 & _ & H3) & _).
  split; [exact H1 |]. exists w'. split; [exact H2 |]. rewrite H3. vm_compute. reflexivity.
Defined.

(** A block that arrives in the third sleep. *)
(** The engine tries in vain in one sleep, and the block arrives in the next; [sent]: it is freed with a message
    before it is seen. *)
Definition sample_others (sent : bool) (n : nat) : list (wantlist_event (Peer := Z)) :=
  match n with
  | 1%nat => [Worked (Some sample_cid) None 0 1]
  | 2%nat => Arrived sample_block :: if sent then [Sent (Some sample_cid)] else []
  | _ => []
  end.
Lemma sample_others_ok sent i : Forall event_ok (sample_others sent i).
Proof.
  destruct i as [| [| [| i]]]; cbn [sample_others]; [constructor | | | constructor].
  - constructor; [| constructor]. split; [exact sample_cid_small | discriminate].
  - constructor; [exact sample_block_ok |]. destruct sent; [| constructor]. constructor; [exact sample_cid_small | constructor].
Qed.
Lemma sample_arrival sent :
  arrival (cid_value sample_cid) (sample_others sent) 59 0 (fate_of (cid_value sample_cid) (sample_wantlist, ∅)) =
  if sent then Freed else Kept sample_block.
Proof. destruct sent; vm_compute; reflexivity. Qed.
Lemma sample_missing :
  ipfs_blockstore_get (str "/repo") sample_cid sample_world = (Err (), sample_world).
Proof.
  unfold ipfs_blockstore_get. change (cid_hash_length sample_cid) with (len sample_digest).
  change (cid_hash sample_cid) with (Some sample_digest). rewrite file_of_hash_ok. reflexivity.
Qed.

Lemma get_block_spec_witness :
  (exists b' w', ipfs_bitswap_get_block sample_compare (str "/repo") ∅ (sample_others false) 60 sample_wantlist
      sample_cid sample_world = (Ok (1, Some b', w'), sample_world) /\
    block_value b' = block_value sample_block) /\
  ipfs_bitswap_get_block sample_compare (str "/repo") ∅ (sample_others true) 60 sample_wantlist
    sample_cid sample_world = (Undef, sample_world).
Proof.
  pose proof (fun sent => get_block_spec sample_compare (str "/repo") ∅ (sample_others sent) sample_wantlist sample_cid
    sample_world sample_wantlist_ok sample_cid_small (fun i _ => sample_others_ok sent i)) as H.
  assert (Hf : fate_of (cid_value sample_cid) (sample_wantlist, ∅) = NoBlock) by (vm_compute; reflexivity).
  cbn zeta in H. split.
  - specialize (H false). rewrite sample_missing, sample_arrival, Hf in H.
    destruct (H I) as (b' & w' & Hg & Hv & _). exists b', w'. split; [exact Hg | exact Hv].
  - specialize (H true). rewrite sample_missing, sample_arrival, Hf in H. exact (H I).
Defined.

Lemma has_block_spec_witness :
  exists w' W' b', ipfs_bitswap_has_block (str "/repo") sample_wantlist sample_block sample_world =
      (Ok (0, w'), W') /\
    wants w' = [Want sample_key [Some LocalSession; Some LocalSession] (Some sample_block) 0 0] /\
    ipfs_bitswap_get_block sample_compare (str "/repo") ∅ (fun _ => []) 60 w' sample_cid W' =
      (Ok (1, Some b', w'), W') /\ block_data b' = str "hello".
Proof.
  destruct (has_block_spec sample_compare (str "/repo") sample_wantlist ∅ (fun _ => []) 60 sample_block
    sample_cid sample_digest sample_world) as (W' & w' & Hh & _ & Hw & _ & (b' & Hg & Hd)).
  - exact sample_wantlist_ok.
  - exact sample_cid_small.
  - exact sample_block_wf.
  - reflexivity.
  - reflexivity.
  - split; [reflexivity | vm_compute; discriminate].
  - vm_compute. discriminate.
  - split; [reflexivity | vm_compute; discriminate].
  - exact I.
  - exists w', W', b'. split; [exact Hh |]. split; [rewrite Hw; vm_compute; reflexivity |]. auto.
Defined.

Lemma wantlist_processor_spec_witness :
  exists w', ipfs_bitswap_engine_wantlist_processor sample_compare (fun _ => true) (fun _ => true)
      (fun _ => true) (fun _ => true) (fun _ => true) (fun _ _ => 1) (fun _ => Ok None) (fun _ => None)
      1000 sample_wantlist ipfs_bitswap_peer_request_queue_new =
      Ok (w', ipfs_bitswap_peer_request_queue_new, []) /\
    next_is w' 1%positive sample_cid.
Proof.
  destruct (wantlist_processor_spec sample_compare (fun _ => true) (fun _ => true)
    (fun _ => true) (fun _ => true) (fun _ => true) (fun _ _ => 1) (fun _ => Ok None) (fun _ => None)
    sample_wantlist ipfs_bitswap_peer_request_queue_new 1%positive sample_cid
    (MkWantListQueueEntry (VE := list_vector) (Some sample_cid) 1
         [Some LocalSession; Some LocalSession] None 0 0)) as (_ & _ & H).
  - constructor; [exact sample_wantlist_ok | reflexivity |]. eexists. split; reflexivity.
  - reflexivity.
  - exact (H eq_refl eq_refl 1000%nat).
Defined.
