(* ===== verification/Exchange.v ===== *)
(** Two nodes and a block (src/exchange/bitswap/bitswap.c over network.c and
    peer_request_queue.c): what a node does with a message, and the exchange of a block
    between the one that wants it and the one that has it. *)

From S2P Require Import Prelude Vector Libc Protobuf Libs Storage ProtobufRef LibsRef Cid Block.
From S2P Require Import Blockstore BitswapMessage PeerQueue BitswapNetwork Wantlist.

Section Exchange.
Context {PB : Protobuf} {VE : Libp2pVector} {MH : Multihash} {B32 : Base32} {OS : OsUtils} {DS : Datastore}.
Context {Peer : Type} (libp2p_peer_compare : option Peer -> option Peer -> Z).
Context (path : bytes).

(** The blocks of a message, handed to the exchange in order. *)
Fixpoint keep_blocks (blocks : list Block) (w : WantListQueue (Peer := Peer))
  : io unit (WantListQueue (Peer := Peer)) :=
  match blocks with
  | [] => mret w
  | b :: blocks => '(_, w) ← ipfs_bitswap_has_block path w b; keep_blocks blocks w
  end.

(** [session]: whether the stream has one; [remote]: its peer in the peer store. The verdict, the
    queue of requests and the wants. *)
Definition ipfs_bitswap_handle_message (session : bool) (q : PeerRequestQueue) (fuel : nat)
  (remote : option Peer) (data : bytes) (data_size : Z) (malloced : WantlistEntry)
  (w : WantListQueue (Peer := Peer)) : io unit (Z * PeerRequestQueue * WantListQueue (Peer := Peer)) :=
  if session then
    '(retVal, blocks, q) ← lift (ipfs_bitswap_network_handle_message libp2p_peer_compare q fuel remote
                                   data data_size malloced);
    w ← keep_blocks blocks w;
    mret (if retVal =? 0 then -1 else retVal, q, w)
  else mret (-1, q, w).

(** What the block store leaves for the one that fills a message: nothing when there is no file, and the block
    it made and freed when the file does not decode. *)
Definition stored (W : World) (cid : option Cid) : cres unit (option Block) :=
  match cid with
  | None => Undef
  | Some c =>
      filename ← file_of_hash path (cid_hash c) (cid_hash_length c);
      match load_file filename W with
      | None => Ok None
      | Some _ =>
          match ipfs_blockstore_get path c W with
          | (Ok b, _) => Ok (Some b)
          | (NoFuel, _) => NoFuel
          | _ => Undef
          end
      end
  end.
End Exchange.

(** * Facts *)

Section Facts.
Context {PB : Protobuf} `{!ProtobufLaws PB} {VE : Libp2pVector} `{!Libp2pVectorLaws VE}.
Context {MH : Multihash} {B32 : Base32} `{!Base32Laws B32} {OS : OsUtils} `{!OsUtilsLaws OS}.
Context {DS : Datastore} `{!DatastoreLaws DS}.
Context {Peer : Type} (libp2p_peer_compare : option Peer -> option Peer -> Z).

(** What has the value of a block with a CID is a block with that CID. *)
Lemma same_value_wf (b b' : Block) c :
  block_copyable b' -> block_value b' = block_value b -> bl_cid b = Some c -> cid_small c ->
  -128 <= cid_codec c < 128 -> len (block_data b) < 2 ^ 62 ->
  block_wf b' /\ exists c', bl_cid b' = Some c' /\ cid_value c' = cid_value c /\ cid_small c' /\
    -128 <= cid_codec c' < 128 /\ cid_digest c' = cid_digest c.
Proof.
  intros [Hd Hc] Hv Hb [Hwf Hver Hcod Hlen] Hk Hr. unfold block_value in Hv. rewrite Hb in Hv.
  injection Hv as Hcv Hdv. destruct (bl_cid b') as [c' |] eqn:E; [| discriminate Hcv].
  cbn in Hcv, Hc. injection Hcv as E1 E2 E3. pose proof (cid_digest_len c Hwf) as Hl. destruct Hwf as [Hv1 Hv2 _].
  assert (Hwf' : cid_wf c').
  { constructor; [lia | lia |]. unfold cid_digest in Hc. destruct (cid_hash c'); [exact Hc |]. rewrite Hc. reflexivity. }
  split.
  - constructor; [rewrite E; split; [exact Hwf' | rewrite Hc, E3; lia] | exact Hd | rewrite Hd, Hdv; exact Hr].
  - exists c'. split; [reflexivity |]. split; [unfold cid_value; congruence |].
    split; [constructor; [exact Hwf' | lia | lia | rewrite Hc, E3; lia] |]. split; [lia | exact E3].
Qed.
Lemma digest_hash c h : cid_digest c = h -> h <> [] -> cid_hash c = Some h.
Proof. unfold cid_digest. destruct (cid_hash c); cbn; congruence. Qed.

(** The block the store has under a CID, as it leaves the store. *)
Lemma stored_block path (b : Block) c h (W : World) :
  block_wf b -> cid_small c -> cid_hash c = Some h ->
  fs_files (w_fs W) !! hash_file path h = Some (block_wire b) ->
  exists b', stored path W (Some c) = Ok (Some b') /\ block_copyable b' /\ block_data b' = block_data b /\
    cid_value <$> bl_cid b' = Some (cid_value c).
Proof.
  intros Hb Hc Hh Hf.
  destruct (get_block_ok path b c h W Hb (cid_small_wf _ Hc) Hh Hf) as (b' & Hg & Hd & Hv & Hcp).
  exists b'. split; [| auto]. unfold stored.
  assert (Hl : cid_hash_length c = len h) by (rewrite <- (cid_digest_len c (cid_small_wf _ Hc)); unfold cid_digest; rewrite Hh; reflexivity).
  rewrite Hh, Hl, file_of_hash_ok. cbn [mbind cres_bind]. rewrite (load_file_exists path h W _ Hf), Hg. reflexivity.
Qed.

(** ** The one that wants *)

Context (is_local is_connected has_address connect reachable : Peer -> bool).
Context (write : Peer -> bytes -> Z).
Definition reaches (peer : Peer) : Prop :=
  is_local peer || is_connected peer || (has_address peer && connect peer) = true /\ reachable peer = true.

(** A request for one CID, and nothing else. *)
Record asks_for (heap : entry_heap) (req : PeerRequest (Peer := Peer)) (c : Cid) : Prop := {
  af_ok : request_ok heap req;
  af_wants : wants_to_send heap req = [MkCidEntry (Some c) 0 0 0];
  af_they : items (pr_cids_they_want req) = [];
  af_blocks : items (pr_blocks_we_want_to_send req) = []
}.
Lemma ask_message blockstore_get heap req peer c :
  asks_for heap req c -> cid_small c -> pr_peer req = Some peer -> reaches peer ->
  exists m req' heap' e, let data := bitswap_header ++ message_wire m in
    ipfs_bitswap_peer_request_process_entry is_local is_connected has_address connect reachable write
      blockstore_get (Some req) heap =
      Ok (if write peer data <=? 0 then 0 else 1, Some data, Some req', heap') /\
    message_wf m /\ message_payload m = [] /\ message_requests m = [Some e] /\
    we_cancel e = 0 /\ BitswapMessage.entry_block e = cid_opt_wire (Some c) /\ wants_to_send heap' req' = [].
Proof.
  intros [Hok Hw Ht Hb] Hc Hp [Hr1 Hr2].
  assert (Hnone : blocks_to_send blockstore_get heap req = []) by (unfold blocks_to_send; rewrite Ht, Hb; reflexivity).
  assert (Hroom : send_room blockstore_get heap req < 2 ^ 62).
  { unfold send_room. rewrite Hnone, Hw. cbn [sum_over foldr ce_cid].
    pose proof (cid_fields_bound c (cid_small_wf c Hc) ltac:(destruct Hc; lia)).
    destruct Hc. cbn [cid_opt_wire]. unfold sum_over. cbn [foldr]. cbn [ce_cid cid_opt_wire]. lia. }
  pose proof (process_entry_sends is_local is_connected has_address connect reachable write blockstore_get req peer heap
    Hok ltac:(rewrite Ht; intros x ex Hx; inversion Hx) Hp ltac:(rewrite Hnone; constructor) ltac:(rewrite Hnone; constructor) Hroom Hr1 Hr2) as Hrun.
  cbv zeta in Hrun. unfold needed in Hrun. rewrite Hw, bool_decide_true in Hrun by discriminate. cbn [orb] in Hrun.
  destruct Hrun as (m & req' & heap' & es & Hrun & Hm & _ & Hmp & Hmw & Hes & _ & Hset).
  exists m, req', heap', (request_of (MkCidEntry (Some c) 0 0 0)). cbv zeta. split; [exact Hrun |].
  split; [exact Hm |]. split; [rewrite Hmp, Hnone; reflexivity |].
  split; [unfold message_requests, wantlist_items; rewrite Hmw; cbn; rewrite Hes; reflexivity |].
  split_and!; [reflexivity | reflexivity | exact Hset].
Qed.

(** ** The one that has the block *)

(** The request of a peer nothing is going on with. *)
Record quiet (req : PeerRequest (Peer := Peer)) : Prop := {
  qt_they : items (pr_cids_they_want req) = [];
  qt_we : items (pr_cids_we_want req) = [];
  qt_blocks : items (pr_blocks_we_want_to_send req) = []
}.
Lemma answer_message path W heap req peer they c c' p (b : Block) h :
  quiet req -> items they = [p] -> cid_small c' -> cid_value c' = cid_value c -> cid_digest c' = h -> h <> [] ->
  -128 <= cid_codec c < 128 -> cid_small c -> block_wf b -> bl_cid b = Some c ->
  fs_files (w_fs W) !! hash_file path h = Some (block_wire b) -> len (block_data b) < 2 ^ 60 ->
  pr_peer req = Some peer -> reaches peer ->
  exists m req' heap', let data := bitswap_header ++ message_wire m in
    ipfs_bitswap_peer_request_process_entry is_local is_connected has_address connect reachable write
      (stored path W) (Some (set_they_want they req)) (<[p := MkCidEntry (Some c') 0 0 0]> heap) =
      Ok (if write peer data <=? 0 then 0 else 1, Some data, Some req', heap') /\
    message_wf m /\ map block_value (message_payload m) = [block_value b] /\ message_requests m = [].
Proof.
  intros [Ht Hw Hq] Hthey Hc' Hcv Hdig Hh Hcod Hc Hb Hbc Hf Hroom Hp [Hr1 Hr2].
  destruct (stored_block path b c' h W Hb Hc' (digest_hash c' h Hdig Hh) Hf) as (b' & Hst & Hcp & Hd & Hbv).
  assert (Hval : block_value b' = block_value b) by (unfold block_value; rewrite Hd, Hbv, Hbc, Hcv; reflexivity).
  assert (Hbl : len (block_data b) < 2 ^ 62) by (destruct Hb as [_ <- Hl]; exact Hl).
  destruct (same_value_wf b b' c Hcp Hval Hbc Hc Hcod Hbl) as (Hwf & cb & Hcb & _ & Hsm & _).
  set (heap1 := <[p := MkCidEntry (Some c') 0 0 0]> heap). set (req1 := set_they_want they req).
  assert (Hh1 : heap1 !! p = Some (MkCidEntry (Some c') 0 0 0)) by apply lookup_insert_eq.
  assert (Hsend : blocks_to_send (stored path W) heap1 req1 = [b']).
  { unfold blocks_to_send, req1. cbn [set_they_want pr_blocks_we_want_to_send pr_cids_they_want].
    rewrite Hq, Hthey. cbn [app omap list_omap]. unfold served. rewrite Hh1. cbn [mbind option_bind ce_cancel ce_cid Z.eqb].
    rewrite Hst. reflexivity. }
  assert (Hnone : wants_to_send heap1 req1 = []) by (unfold wants_to_send, req1; cbn [set_they_want pr_cids_we_want]; rewrite Hw; reflexivity).
  assert (Hread : readable (stored path W) heap1 (items (pr_cids_they_want req1))).
  { intros x ex Hx Hex _. unfold req1 in Hx. cbn [set_they_want pr_cids_they_want] in Hx. rewrite Hthey in Hx.
    apply list_elem_of_singleton in Hx as ->. rewrite Hh1 in Hex. injection Hex as <-. eauto. }
  assert (Hok : request_ok heap1 req1).
  { constructor; unfold req1; cbn [set_they_want pr_cids_we_want pr_cids_they_want]; rewrite ?Hw, ?Hthey;
      [apply NoDup_singleton | constructor | | constructor | intros x _ Hx; inversion Hx].
    constructor; [| constructor]. eexists. split; [exact Hh1 | exact Hc']. }
  pose proof (process_entry_sends is_local is_connected has_address connect reachable write (stored path W) req1 peer heap1
    Hok Hread Hp) as Hrun.
  rewrite Hsend in Hrun. specialize (Hrun ltac:(constructor; [exact Hwf | constructor])
    ltac:(constructor; [rewrite Hcb; exact Hsm | constructor])).
  assert (Hr : send_room (stored path W) heap1 req1 < 2 ^ 62).
  { unfold send_room. rewrite Hsend, Hnone. unfold sum_over. cbn [foldr].
    assert (Hl : bl_data_length b' = len (block_data b)) by (rewrite <- Hd; apply Hwf).
    unfold payload_need, block_room. rewrite Hcb. cbn [ipfs_cid_protobuf_encode_size].
    unfold u64. pose proof (Z.mod_pos_bound (11 + 12 + cid_hash_length cb + 11) (2 ^ 64)).
    pose proof (cid_digest_len cb (cid_small_wf _ Hsm)). pose proof (len_nonneg (cid_digest cb)).
    destruct Hsm. rewrite Z.mod_small by lia. lia. }
  specialize (Hrun Hr Hr1 Hr2). cbv zeta in Hrun.
  assert (Hneed : needed heap1 req1 = true).
  { unfold needed. rewrite Hnone. unfold req1. cbn [set_they_want pr_cids_they_want]. rewrite Hthey. cbn.
    unfold awaited. rewrite Hh1. reflexivity. }
  rewrite Hneed, Hnone in Hrun. destruct Hrun as (m & req' & heap' & es & Hrun & Hm & _ & Hmp & Hmw & Hes & _).
  exists m, req', heap'. split; [exact Hrun |]. split; [exact Hm |].
  split; [rewrite Hmp; cbn; rewrite Hval; reflexivity |].
  unfold message_requests, wantlist_items. rewrite Hmw. cbn. exact Hes.
Qed.

(** ** Receiving *)

Lemma header_data m : bitswap_header ++ message_wire m = str "/ipfs/bitswap/1.1.0" ++ byte_of 10 :: message_wire m.
Proof. unfold bitswap_header. rewrite <- app_assoc. reflexivity. Qed.
(** A message that asks or brings something, received. *)
Lemma receive_message q remote m junk :
  message_wf m -> message_payload m <> [] \/ message_requests m <> [] ->
  Forall (fun b => bl_cid b <> None) (message_payload m) ->
  let data := bitswap_header ++ message_wire m in
  exists blocks, map block_value blocks = map block_value (message_payload m) /\ Forall block_copyable blocks /\
    ipfs_bitswap_network_handle_message libp2p_peer_compare q (queue_fuel q) (Some remote) data (len data) junk =
      receive_wants libp2p_peer_compare q (queue_fuel q) (Some remote) blocks
        (map (fmap entry_saved) (message_requests m)).
Proof.
  intros Hm Hne Hcids data. subst data. rewrite header_data. apply handle_segment; auto.
  - apply (bool_decide_unpack _). vm_compute. exact I.
  - unfold message_fields. destruct Hne as [Hne | Hne].
    + destruct (message_payload m); [contradiction |]. destruct (message_blocks m); discriminate.
    + unfold message_requests in Hne. destruct (bm_wantlist m) as [wl |]; [| contradiction].
      intros E. apply app_eq_nil in E as [_ E]. apply app_eq_nil in E as [_ E]. revert E.
      unfold wantlist_field. discriminate.
  - pose proof (message_wire_bound m Hm) as Hb. change (len (str "/ipfs/bitswap/1.1.0")) with 19. destruct Hm. lia.
Qed.

(** A block that is wanted arrives. *)
Lemma keep_block path w v (b b' : Block) c h W :
  wantlist_ok w -> wq_queue w = Some v -> cid_small c -> -128 <= cid_codec c < 128 -> block_wf b -> bl_cid b = Some c ->
  cid_hash c = Some h -> fs_accepts path (w_fs W) h (len (block_wire b)) ->
  @enc_encode_size base32 (len h) <= 100 -> 0 < len h <= 500 -> ds_ready (w_ds W) ->
  block_copyable b' -> block_value b' = block_value b ->
  exists w' W', keep_blocks path [b'] w W = (Ok w', W') /\ wantlist_ok w' /\
    wants w' = on_key (cid_value c) (arrived b') (wants w) /\
    forall freed others fuel, exists g, ipfs_bitswap_get_block libp2p_peer_compare path freed others fuel w' c W' =
        (Ok (1, Some g, w'), W') /\ block_data g = block_data b.
Proof.
  intros Hok Hv Hc Hcod Hb Hbc Hh Hfs Hsz Hlen Hds Hcp Hval.
  destruct (same_value_wf b b' c Hcp Hval Hbc Hc Hcod) as (Hwf & c' & Hc' & Hcv & Hsm & _ & Hdig);
    [destruct Hb as [_ <- Hl]; exact Hl |].
  assert (Hh' : cid_hash c' = Some h).
  { apply digest_hash; [rewrite Hdig; unfold cid_digest; rewrite Hh; reflexivity |].
    intros ->. destruct Hlen as [Hl _]. revert Hl. len_nils. lia. }
  assert (Hwire : block_wire b' = block_wire b).
  { unfold block_value in Hval. injection Hval as Hv1 Hv2. unfold block_wire, block_fields. rewrite Hv2.
    rewrite Hbc, Hc' in Hv1 |- *. cbn in Hv1. injection Hv1 as E1 E2 E3. cbn [cid_opt_wire]. unfold cid_fields.
    rewrite E1, E2, E3. reflexivity. }
  rewrite <- Hwire in Hfs.
  destruct (has_block_ok path w v b' c' h W Hok Hv Hsm Hwf Hc' Hh' Hfs Hsz Hlen Hds)
    as (s & w' & Hrun & Hok' & _ & Hw' & _).
  exists w'. eexists. cbn [keep_blocks]. rewrite (io_bind_ok _ _ _ _ _ Hrun). split; [reflexivity |].
  split; [exact Hok' |]. split; [rewrite Hw', Hcv; reflexivity |]. intros freed others fuel.
  destruct (get_stored_block libp2p_peer_compare path freed others fuel w' b' c h
    (MkWorld (fs_with path (w_fs W) h (block_wire b')) s) Hwf Hc Hh) as (g & Hg & Hgd).
  { cbn. apply lookup_insert_eq. }
  exists g. split; [exact Hg |]. rewrite Hgd. unfold block_value in Hval. congruence.
Qed.

Lemma handle_ok path q remote data junk ret blocks q' w W w' W' :
  ipfs_bitswap_network_handle_message libp2p_peer_compare q (queue_fuel q) (Some remote) data (len data) junk =
    Ok (ret, blocks, q') ->
  keep_blocks path blocks w W = (Ok w', W') ->
  ipfs_bitswap_handle_message libp2p_peer_compare path true q (queue_fuel q) (Some remote) data (len data) junk w W =
    (Ok (if ret =? 0 then -1 else ret, q', w'), W').
Proof.
  intros Hh Hk. unfold ipfs_bitswap_handle_message.
  rewrite (io_bind_ok _ _ W (ret, blocks, q') W) by (unfold lift; rewrite Hh; reflexivity).
  cbv beta iota. rewrite (io_bind_ok _ _ W _ W' Hk). reflexivity.
Qed.

(** ** The exchange *)

(** A question is received: the CID is noted as wanted by the one that asked. *)
Lemma question_received path m e c q l p0 e0 r req asker w W junk :
  message_wf m -> message_payload m = [] -> message_requests m = [Some e] -> we_cancel e = 0 ->
  BitswapMessage.entry_block e = cid_opt_wire (Some c) ->
  cid_small c -> -128 <= cid_codec c < 128 -> cid_digest c <> [] ->
  queue_list q l -> find (is_for libp2p_peer_compare q (Some asker)) l = Some p0 ->
  entry_request q p0 = Some (e0, r, req) -> items (pr_cids_they_want req) = [] ->
  let data := bitswap_header ++ message_wire m in
  exists they c', ipfs_bitswap_handle_message libp2p_peer_compare path true q (queue_fuel q) (Some asker) data (len data)
      junk w W = (Ok (1, with_want q r req they c', w), W) /\
    items they = [fresh (dom (q_cids q))] /\ cid_value c' = cid_value c /\ cid_small c'.
Proof.
  intros Hm Hpay Hreq Hcan Hblk Hc Hcod Hdig Hq Hfind He Hthey data.
  destruct (receive_message q asker m junk Hm) as (blocks & Hbv & _ & Hh);
    [right; rewrite Hreq; discriminate | rewrite Hpay; constructor |].
  rewrite Hpay in Hbv. apply map_eq_nil in Hbv as ->. rewrite Hreq in Hh.
  assert (Hwant : BitswapNetwork.want_of e c).
  { constructor; [exact Hblk | exact Hc | exact Hcod |]. rewrite <- (cid_digest_len c (cid_small_wf _ Hc)).
    destruct (cid_digest c) as [| x t]; [contradiction | rewrite len_cons]. pose proof (len_nonneg t). lia. }
  destruct (receive_one_want libp2p_peer_compare q l asker p0 e0 r req [] e c Hq Hfind He Hthey Hwant Hcan)
    as (they & c' & Hrecv & Hrest).
  cbn [map fmap option_fmap option_map] in Hh. rewrite Hrecv in Hh. exists they, c'. split; [| exact Hrest].
  exact (handle_ok path q asker data junk 1 [] _ w W w W Hh eq_refl).
Qed.
(** An answer is received: the block is kept. *)
Lemma answer_received path m (b : Block) c h q giver w v W junk :
  message_wf m -> map block_value (message_payload m) = [block_value b] -> message_requests m = [] ->
  cid_small c -> -128 <= cid_codec c < 128 -> cid_hash c = Some h -> 0 < len h <= 500 ->
  @enc_encode_size base32 (len h) <= 100 -> block_wf b -> bl_cid b = Some c ->
  wantlist_ok w -> wq_queue w = Some v -> fs_accepts path (w_fs W) h (len (block_wire b)) -> ds_ready (w_ds W) ->
  let data := bitswap_header ++ message_wire m in
  exists b' w' W', ipfs_bitswap_handle_message libp2p_peer_compare path true q (queue_fuel q) (Some giver) data (len data)
      junk w W = (Ok (1, q, w'), W') /\
    block_value b' = block_value b /\ wants w' = on_key (cid_value c) (arrived b') (wants w) /\
    forall freed others fuel, exists g, ipfs_bitswap_get_block libp2p_peer_compare path freed others fuel w' c W' =
        (Ok (1, Some g, w'), W') /\ block_data g = block_data b.
Proof.
  intros Hm Hpay Hreq Hc Hcod Hh Hlen Hsz Hb Hbc Hok Hv Hfs Hds data.
  destruct (receive_message q giver m junk Hm) as (blocks & Hbv & Hcp & Hrun);
    [left; intros E; rewrite E in Hpay; discriminate | |].
  { apply Forall_forall. intros x Hx E. assert (Hin : block_value x ∈ map block_value (message_payload m))
      by (apply list_elem_of_fmap; eauto).
    rewrite Hpay in Hin. apply list_elem_of_singleton in Hin. unfold block_value in Hin. rewrite E, Hbc in Hin. discriminate. }
  rewrite Hpay in Hbv. rewrite Hreq in Hrun. destruct blocks as [| b' [|]]; [discriminate | | discriminate].
  apply Forall_cons in Hcp as [Hcp _].
  assert (Hval : block_value b' = block_value b) by (cbn [map] in Hbv; congruence).
  destruct (keep_block path w v b b' c h W Hok Hv Hc Hcod Hb Hbc Hh Hfs Hsz Hlen Hds Hcp Hval)
    as (w' & W' & Hkeep & _ & Hwants & Hget).
  exists b', w', W'. split; [exact (handle_ok path q giver data junk 1 [b'] q w W w' W' Hrun Hkeep) |]. auto.
Qed.

(** C4: a node that wants a CID asks a peer for it, once; the peer, which stores the block, receives
    the question without anything else changing and answers; and when the node has received the
    answer the block is stored, kept with the want, and given to who asks for the CID. *)
Theorem blocks_are_exchanged pathA pathB WA WB heapA reqA giver qA wA v qB wB l p0 e0 r reqB asker b c h junk :
  cid_small c -> -128 <= cid_codec c < 128 -> cid_hash c = Some h -> 0 < len h <= 500 ->
  @enc_encode_size base32 (len h) <= 100 ->
  asks_for heapA reqA c -> pr_peer reqA = Some giver -> reaches giver ->
  queue_list qB l -> find (is_for libp2p_peer_compare qB (Some asker)) l = Some p0 ->
  entry_request qB p0 = Some (e0, r, reqB) -> quiet reqB -> pr_peer reqB = Some asker -> reaches asker ->
  block_wf b -> bl_cid b = Some c -> len (block_data b) < 2 ^ 60 ->
  fs_files (w_fs WB) !! hash_file pathB h = Some (block_wire b) ->
  wantlist_ok wA -> wq_queue wA = Some v -> fs_accepts pathA (w_fs WA) h (len (block_wire b)) -> ds_ready (w_ds WA) ->
  let process path W req := ipfs_bitswap_peer_request_process_entry is_local is_connected has_address connect
        reachable write (stored path W) (Some req) in
  let receive path q remote data := ipfs_bitswap_handle_message libp2p_peer_compare path true q (queue_fuel q)
        (Some remote) data (len data) junk in
  exists question outA reqA' heapA' qB' reqB' answer outB reqB'' heapB b' wA' WA',
    process pathA WA reqA heapA = Ok (outA, Some question, Some reqA', heapA') /\ wants_to_send heapA' reqA' = [] /\
    receive pathB qB asker question wB WB = (Ok (1, qB', wB), WB) /\ q_requests qB' !! r = Some reqB' /\
    process pathB WB reqB' (q_cids qB') = Ok (outB, Some answer, Some reqB'', heapB) /\
    receive pathA qA giver answer wA WA = (Ok (1, qA, wA'), WA') /\
    block_value b' = block_value b /\ wants wA' = on_key (cid_value c) (arrived b') (wants wA) /\
    forall freed others fuel, exists g, ipfs_bitswap_get_block libp2p_peer_compare pathA freed others fuel wA' c WA' =
        (Ok (1, Some g, wA'), WA') /\ block_data g = block_data b.
Proof.
  intros Hc Hcod Hh Hlen Hsz Hask HpA HrA Hq Hfind He Hquiet HpB HrB Hb Hbc Hbl Hst Hok Hv Hfs Hds process receive.
  assert (Hdig : cid_digest c = h) by (unfold cid_digest; rewrite Hh; reflexivity).
  assert (Hne : h <> []) by (intros ->; destruct Hlen as [E _]; revert E; len_nils; lia).
  destruct (ask_message (stored pathA WA) heapA reqA giver c Hask Hc HpA HrA)
    as (m1 & reqA' & heapA' & e & Hrun1 & Hm1 & Hpay1 & Hreq1 & Hcan & Hblk & Hset).
  destruct (question_received pathB m1 e c qB l p0 e0 r reqB asker wB WB junk Hm1 Hpay1 Hreq1 Hcan Hblk Hc Hcod
    ltac:(rewrite Hdig; exact Hne) Hq Hfind He (qt_they _ Hquiet)) as (they & c' & Hrecv & Hthey & Hcv & Hc').
  assert (Hdig' : cid_digest c' = h) by (unfold cid_value in Hcv; congruence).
  destruct (answer_message pathB WB (q_cids qB) reqB asker they c c' _ b h Hquiet Hthey Hc' Hcv Hdig' Hne Hcod Hc Hb Hbc
    Hst Hbl HpB HrB) as (m2 & reqB'' & heapB & Hrun2 & Hm2 & Hpay2 & Hreq2).
  destruct (answer_received pathA m2 b c h qA giver wA v WA junk Hm2 Hpay2 Hreq2 Hc Hcod Hh Hlen Hsz Hb Hbc Hok Hv Hfs Hds)
    as (b' & wA' & WA' & Hrecv2 & Hval & Hwants & Hget).
  eexists _, _, reqA', heapA', _, _, _, _, reqB'', heapB, b', wA', WA'.
  split; [exact Hrun1 |]. split; [exact Hset |]. split; [exact Hrecv |].
  split; [cbn; apply lookup_insert_eq |]. split; [exact Hrun2 |]. split; [exact Hrecv2 |]. auto.
Qed.
End Facts.

(** * Concrete runs *)

(** Node 20 wants the sample CID, node 10 has the block. *)
Definition asking_heap : entry_heap := {[ 3%positive := MkCidEntry (Some sample_cid) 0 0 0 ]}.
Definition asking_request : PeerRequest (VE := list_vector) (Peer := Z) :=
  MkPeerRequest (VE := list_vector) (Some 10) ([] : list positive) [3%positive] ([] : list Block).
Lemma asking_asks : asks_for asking_heap asking_request sample_cid.
Proof.
  constructor; [constructor | reflexivity ..].
  - constructor.
  - apply NoDup_singleton.
  - constructor.
  - repeat constructor. eexists. split; [reflexivity | exact sample_cid_small].
  - intros p Hp. inversion Hp.
Qed.
Definition giving_world : World :=
  MkWorld (fs_with (str "/store") (w_fs sample_world) sample_digest (block_wire sample_block)) (w_ds sample_world).

Lemma blocks_are_exchanged_witness :
  exists question outA reqA' heapA' outB answer reqB'' heapB qB' wA' WA',
    ipfs_bitswap_peer_request_process_entry (fun _ => false) (fun _ => true) (fun _ => true) (fun _ => true)
      (fun _ => true) (fun _ data => len data) (stored (str "/repo") sample_world) (Some asking_request) asking_heap =
      Ok (outA, Some question, Some reqA', heapA') /\
    ipfs_bitswap_handle_message compare_numbers (str "/store") true sample_queue (queue_fuel sample_queue) (Some 20)
      question (len question) sample_entry ipfs_bitswap_wantlist_queue_new giving_world =
      (Ok (1, qB', ipfs_bitswap_wantlist_queue_new), giving_world) /\
    (exists reqB', q_requests qB' !! 2%positive = Some reqB' /\
       ipfs_bitswap_peer_request_process_entry (fun _ => false) (fun _ => true) (fun _ => true) (fun _ => true)
         (fun _ => true) (fun _ data => len data) (stored (str "/store") giving_world) (Some reqB') (q_cids qB') =
         Ok (outB, Some answer, Some reqB'', heapB)) /\
    ipfs_bitswap_handle_message compare_numbers (str "/repo") true sample_queue (queue_fuel sample_queue) (Some 10)
      answer (len answer) sample_entry sample_wantlist sample_world = (Ok (1, sample_queue, wA'), WA') /\
    exists g, ipfs_bitswap_get_block compare_numbers (str "/repo") ∅ (fun _ => []) 60 wA' sample_cid WA' =
      (Ok (1, Some g, wA'), WA') /\ block_data g = str "hello".
Proof.
  destruct (blocks_are_exchanged compare_numbers (fun _ => false) (fun _ => true) (fun _ => true) (fun _ => true)
    (fun _ => true) (fun _ data => len data) (str "/repo") (str "/store") sample_world giving_world asking_heap
    asking_request 10 sample_queue sample_wantlist [1%positive] sample_queue ipfs_bitswap_wantlist_queue_new
    [1%positive; 2%positive] 2%positive (MkPeerRequestEntry (Some 1%positive) (Some 2%positive) None) 2%positive
    (sample_request 20 []) 20 sample_block sample_cid sample_digest sample_entry)
    as (question & outA & reqA' & heapA' & qB' & reqB' & answer & outB & reqB'' & heapB & b' & wA' & WA' &
        H1 & _ & H2 & H3 & H4 & H5 & _ & _ & Hget).
  - exact sample_cid_small.
  - split; vm_compute; congruence.
  - reflexivity.
  - split; [reflexivity | vm_compute; discriminate].
  - vm_compute. discriminate.
  - exact asking_asks.
  - reflexivity.
  - split; reflexivity.
  - exact sample_queue_list.
  - reflexivity.
  - reflexivity.
  - split; reflexivity.
  - reflexivity.
  - split; reflexivity.
  - exact sample_block_wf.
  - reflexivity.
  - reflexivity.
  - unfold giving_world. cbn [w_fs fs_with fs_files]. apply lookup_insert_eq.
  - exact sample_wantlist_ok.
  - reflexivity.
  - split; [reflexivity | vm_compute; discriminate].
  - exact I.
  - destruct (Hget ∅ (fun _ => []) 60%nat) as (g & Hg & Hd).
    exists question, outA, reqA', heapA', outB, answer, reqB'', heapB, qB', wA', WA'. eauto 10.
Defined.
