(* ===== verification/Namesys.v ===== *)
(** Names: publishing and resolving IPNS names (src/namesys/publisher.c, resolver.c),
    the naming system in front of the resolvers (namesys.c, base.c, dns.c) and the
    routing resolver's cache and text forms (routing.c, pb.c). *)

From S2P Require Import Prelude Libc Protobuf Libs Storage ProtobufRef LibsRef.
From S2P Require Import Errs Path Tlds IsDomain Proquint Cid Block Blockstore DnsLink.

(** ** src/namesys/resolver.c *)

Definition is_ipns_string (path : option bytes) : bool :=
  match path with
  | None => false
  | Some path => bool_decide (strstr path (str "/ipns/") = Some O)
  end.

Section Names.
Context {MH : Multihash} {B58 : Base58} {DS : Datastore}.

(** The string found, without what is behind a NUL in the value. The decoding of the
    CID leaves the caller's path empty. *)
Definition ipfs_namesys_resolver_resolve_once (path : bytes) : io unit bytes :=
  cid ← lift (fst (ipfs_cid_decode_hash_from_ipfs_ipns_string (Some path)));
  look (fun w =>
    k ← mem_read (cid_hash cid) (cid_hash_length cid);
    match datastore_get k (w_ds w) with
    | None => Err ()
    | Some record => Ok (c_str (rec_value record))
    end).

(** [n]: the turns left. *)
Fixpoint resolve_loop (n : nat) (recursive : bool) (current_path : bytes) : io unit bytes :=
  match n with
  | O => fail ()
  | S n =>
      result ← ipfs_namesys_resolver_resolve_once current_path;
      if recursive && is_ipns_string (Some result) then resolve_loop n recursive result
      else mret result
  end.
Definition ipfs_namesys_resolver_resolve (path : bytes) (recursive : bool) : io unit bytes :=
  resolve_loop 11 recursive path.

(** ** src/namesys/publisher.c *)

Definition ipfs_namesys_copy_bytes (from : option bytes) (from_size : Z) : cres unit bytes :=
  mem_read from from_size.

(** What is announced: the record of a [MESSAGE_TYPE_PUT_VALUE]. *)
Record PutValue := MkPutValue { pv_author : bytes; pv_key : bytes; pv_value : bytes }.

(** [id]: the text of the local peer's id. The sending has no effect here. *)
Definition ipfs_namesys_publisher_publish (id path : bytes) : io unit PutValue :=
  local_peer ← lift (ipfs_cid_decode_hash_from_base58 id (len id));
  key ← lift (ipfs_namesys_copy_bytes (cid_hash local_peer) (cid_hash_length local_peer));
  value ← lift (ipfs_namesys_copy_bytes (Some path) (len path));
  stored ← put_record (MkRecord key value 0);
  if (stored : bool) then mret (MkPutValue key key value) else fail ().

(** [struct ipns_entry]. *)
Record ipns_entry := MkIpnsEntry {
  ie_value : option bytes;
  ie_signature : option bytes;
  ie_validityType : option Z;
  ie_validity : option bytes;
  ie_sequence : option Z;
  ie_ttl : option Z
}.
Definition IpnsEntry_EOL : Z := 0.
Definition ipfs_namesys_pb_new_ipns_entry : ipns_entry := MkIpnsEntry None None None None None None.
Definition ipfs_namesys_ipnsentry_reset (m : ipns_entry) : ipns_entry :=
  ipfs_namesys_pb_new_ipns_entry.

(** The four bytes of an [int32_t]. *)
Definition int32_bytes (z : Z) : bytes :=
  [byte_of z; byte_of (Z.shiftr (u32 z) 8); byte_of (Z.shiftr (u32 z) 16); byte_of (Z.shiftr (u32 z) 24)].

(** The block returned; its last byte stays 0. [None]: NULL. *)
Definition ipns_entry_data_for_sig (entry : option ipns_entry) : option bytes :=
  match entry with
  | Some (MkIpnsEntry (Some value) _ validityType (Some validity) _ _) =>
      Some (value ++ validity ++ int32_bytes (default IpnsEntry_EOL validityType) ++ [x00])
  | _ => None
  end.

(** The body of these two is commented out. *)
Definition ipns_select_record : cres ErrsIdx unit := Ok ().
Definition ipns_validate_ipns_record (k val : option bytes) : cres ErrsIdx unit := Ok ().

(** [idx], [recs]: the pointers are not NULL. Every record is stored through [*recs[i]],
    which is the array only for the first one. *)
Definition ipns_selector_func (idx recs : bool) (k : option bytes) (vals : option (list bytes))
  : cres ErrsIdx unit :=
  match k, vals with
  | Some _, Some vals =>
      if idx && recs then
        if (1 <? length vals)%nat then Undef else ipns_select_record
      else Err ErrInvalidParam
  | _, _ => Err ErrInvalidParam
  end.
End Names.

(** ** src/namesys/namesys.c *)

Record publishers := MkPublisher {
  pub_protocol : bytes;
  pub_func : bytes -> bytes -> Z;
  pub_func_eol : bytes -> bytes -> Z -> Z
}.
Record mpns := MkMpns {
  ns_resolver : bytes -> cres ErrsIdx bytes;
  ns_publisher : publishers
}.

Section System.
(** The global array; NULL until somebody sets it. *)
Context (ns : option (list mpns)).

(** What [p] holds after a failed parse is not initialised, and its length is taken. *)
Definition parse_to_local (name : bytes) : cres ErrsIdx bytes :=
  match ipfs_path_parse (Some name) with
  | Ok (Some []) => Err ErrAllocFailed
  | Ok (Some p) => Ok p
  | Ok None | Err _ | Undef => Undef
  | NoFuel => NoFuel
  end.

(** A name without a slash in front goes back to [ipfs_namesys_resolve]. *)
Fixpoint ipfs_namesys_resolve_n (fuel : nat) (name : bytes) (depth : Z) : cres ErrsIdx bytes :=
  match fuel with
  | O => NoFuel
  | S fuel =>
      if starts_with (str "/ipfs/") name then parse_to_local name
      else
        match name with
        | c :: rest =>
            if decide (c = slash) then parse_to_local (str "/ipfs/" ++ rest)
            else ipfs_namesys_resolve_n fuel name DefaultDepthLimit
        | [] => ipfs_namesys_resolve_n fuel name DefaultDepthLimit
        end
  end.
Definition ipfs_namesys_resolve (fuel : nat) (name : bytes) : cres ErrsIdx bytes :=
  ipfs_namesys_resolve_n fuel name DefaultDepthLimit.

Fixpoint try_resolvers (l : list mpns) (segment : bytes) (rest : list bytes) : cres ErrsIdx bytes :=
  match l with
  | [] => Err ErrResolveFailed
  | r :: l =>
      match ns_resolver r segment with
      | Ok p =>
          match rest with
          | [] => Ok p
          | _ =>
              match ipfs_path_from_segments (Some p) (Some rest) with
              | Some path => Ok path
              | None => Undef
              end
          end
      | Err _ => try_resolvers l segment rest
      | Undef => Undef
      | NoFuel => NoFuel
      end
  end.

(** The prefix is added to a name that has it. *)
Definition ipfs_namesys_resolve_once (name : option bytes) : cres ErrsIdx bytes :=
  match name with
  | None => Err ErrNULLPointer
  | Some name =>
      let name := if starts_with (str "/ipns/") name then str "/ipns/" ++ name else name in
      segs ← of_unit (ipfs_path_split_segments name) ErrResolveFailed;
      match segs with
      | Some (_ :: segment :: rest) =>
          match ns with
          | None => Undef
          | Some ns => try_resolvers ns segment rest
          end
      | _ => Err ErrResolveFailed
      end
  end.

Definition find_publisher (proto : bytes) : cres ErrsIdx publishers :=
  match ns with
  | None => Undef
  | Some ns =>
      match List.find (fun n => str_eq (pub_protocol (ns_publisher n)) proto) ns with
      | Some n => Ok (ns_publisher n)
      | None => Err ErrPublishFailed
      end
  end.
(** The value the publisher returns. *)
Definition ipfs_namesys_publish (proto name value : bytes) : cres ErrsIdx Z :=
  p ← find_publisher proto;
  Ok (pub_func p name value).
Definition ipfs_namesys_publish_with_eol (proto name value : bytes) (eol : Z) : cres ErrsIdx Z :=
  p ← find_publisher proto;
  Ok (pub_func_eol p name value eol).
End System.

(** ** src/namesys/base.c *)

(** The prefix [/ipfs/] is looked for in the pointer and not in the text, and no pointer
    from [malloc] has these bytes. A prefix of the text is cut off the name, when there
    is one prefix: the next turn resolves the rest of the same name. *)
Fixpoint ipfs_namesys_base_resolve (fuel : nat) (resolveOnce : bytes -> cres ErrsIdx bytes)
  (name : bytes) (depth : Z) (prefixes : list bytes) : cres ErrsIdx bytes :=
  match fuel with
  | O => NoFuel
  | S fuel =>
      p ← resolveOnce name;
      if depth =? 1 then Err ErrResolveRecursion
      else
        match List.find (fun prefix => starts_with prefix p) prefixes with
        | None => Ok p
        | Some prefix =>
            if (len prefixes =? 1) && (len name <? len prefix) then Undef
            else
              ipfs_namesys_base_resolve fuel resolveOnce
                (if len prefixes =? 1 then bdrop (len prefix) name else name)
                (if 1 <? depth then depth - 1 else depth) prefixes
        end
  end.

(** ** The resolver of src/namesys/proquint.c *)

(** A proquint is refused, and the bytes of anything else are read as a text. *)
Definition ipfs_proquint_resolve_once (name : bytes) : cres ErrsIdx bytes :=
  if ipfs_proquint_is_proquint name then Err ErrInvalidProquint
  else
    txt ← match ipfs_proquint_decode name with
          | Ok b => if decide (cstring b) then Undef else Ok (Some (c_str b))
          | Err _ => Ok None
          | Undef => Undef
          | NoFuel => NoFuel
          end;
    buf ← ipfs_path_parse txt;
    match buf with
    | Some buf => Ok buf
    | None => Undef
    end.

(** ** src/namesys/dns.c *)

(** [Ok None]: the caller's path is not set, the text goes to the array of parts. *)
Definition ipfs_dns_try_parse_dns_link (txt : bytes) : cres ErrsIdx (option bytes) :=
  parts ← of_unit (ipfs_path_split_n txt (str "=") 2) ErrInvalidDNSLink;
  match parts with
  | Some [key; value] =>
      if str_eq key (str "dnslink") then
        buf ← ipfs_path_parse (Some value);
        match buf with
        | Some _ => Ok None
        | None => Undef
        end
      else Err ErrInvalidDNSLink
  | _ => Err ErrInvalidDNSLink
  end.

Definition ipfs_dns_parse_entry (txt : bytes) : cres ErrsIdx (option bytes) :=
  match ipfs_path_parse_from_cid (Some txt) with
  | Ok buf => Ok (Some buf)
  | Err _ => ipfs_dns_try_parse_dns_link txt
  | Undef => Undef
  | NoFuel => NoFuel
  end.

(** The path written to the pipe. [pipe_takes]: it is written whole. *)
Fixpoint first_entry (pipe_takes : bytes -> bool) (txt : list bytes) : cres ErrsIdx bytes :=
  match txt with
  | [] => Err ErrResolveFailed
  | t :: txt =>
      match ipfs_dns_parse_entry t with
      | Ok (Some path) => if pipe_takes path then Ok path else Err ErrPipe
      | Ok None => Undef
      | Err _ => first_entry pipe_takes txt
      | Undef => Undef
      | NoFuel => NoFuel
      end
  end.
Definition ipfs_dns_work_domain (pipe_takes : bytes -> bool)
  (lookupTXT : bytes -> cres ErrsIdx (list bytes)) (name : bytes) : cres ErrsIdx bytes :=
  txt ← lookupTXT name;
  first_entry pipe_takes txt.

(** ** src/namesys/routing.c *)

(** [sprintf] writes a terminator behind the last pair, for which there has to be room
    in the buffer. *)
Definition ipfs_namesys_bytes_to_hex_string (b : bytes) (buffer_length : Z) : cres ErrsIdx bytes :=
  if buffer_length <? len b * 2 then Err ErrInvalidParam
  else if (buffer_length =? len b * 2) && negb (len b =? 0) then Undef
  else Ok (concat (map hex b)).

(** The loop has a turn per digit and not per pair: with four digits or more it reads
    behind the text. [scan_hex]: what [sscanf] reads by [%2hhx]; [None]: the byte of the
    block is left as it was. The length of the block is not stored. *)
Definition ipfs_namesys_hex_string_to_bytes (scan_hex : bytes -> option byte) (hex : bytes)
  : cres ErrsIdx (list (option byte)) :=
  if negb (len hex mod 2 =? 0) then Err ErrInvalidParam
  else if len hex =? 0 then Ok []
  else if len hex =? 2 then Ok [scan_hex hex]
  else Undef.

(** The cache: entries with the time they end, and how many fit. *)
Record cacheEntry := MkCacheEntry { ce_key : bytes; ce_value : bytes; ce_eol : Z * Z }.
Record routingResolver := MkRoutingResolver { rr_cachesize : Z; rr_data : list cacheEntry }.
Definition DefaultResolverCacheTTL : Z := 60.

(** [now]: seconds and nanoseconds. *)
Definition before (a b : Z * Z) : bool := (a.1 <? b.1) || ((a.1 =? b.1) && (a.2 <? b.2)).
Definition ipfs_routing_cache_get (now : Z * Z) (key : option bytes) (cache : option routingResolver)
  : option bytes :=
  match key, cache with
  | Some key, Some cache =>
      ce_value <$> List.find (fun e => before now (ce_eol e) && str_eq (ce_key e) key) (rr_data cache)
  | _, _ => None
  end.
Definition ipfs_routing_cache_set (now : Z * Z) (key value : option bytes)
  (cache : option routingResolver) : option routingResolver :=
  match key, value, cache with
  | Some key, Some value, Some cache =>
      if len (rr_data cache) <? rr_cachesize cache then
        Some (MkRoutingResolver (rr_cachesize cache)
                (rr_data cache ++ [MkCacheEntry key value (now.1 + DefaultResolverCacheTTL, now.2)]))
      else Some cache
  | _, _, _ => cache
  end.
Definition ipfs_namesys_new_routing_resolver (cachesize : Z) : routingResolver :=
  MkRoutingResolver cachesize [].

(** * Properties *)

Section Facts.
Context {MH : Multihash} {B58 : Base58} {DS : Datastore}.
Context `{!MultihashLaws MH} `{!Base58Multihash B58} `{!DatastoreLaws DS}.

(** [id] is the text of the hash [d]. *)
Definition id_of (d id : bytes) : Prop :=
  len d = 32 /\ exists n, @enc_encode base58 (byte_of 18 :: byte_of 32 :: d) n = Some id.

Lemma id_decode d id :
  id_of d id -> ipfs_cid_decode_hash_from_base58 id (len id) = Ok (MkCid 0 CID_DAG_PROTOBUF (Some d) 32).
Proof. intros [Hd [n He]]. exact (decode_base58_Qm d n id Hd He). Qed.
Lemma id_text d id : id_of d id -> cstring id.
Proof. intros [_ [n He]]. exact (enc_text (EN := base58) _ _ _ He). Qed.

(** The name of [id] leads to [p]. *)
Definition names (w : World) (id p : bytes) : Prop :=
  exists d r, id_of d id /\ datastore_get d (w_ds w) = Some r /\ c_str (rec_value r) = p.

Lemma resolve_once_lookup d id w :
  id_of d id ->
  ipfs_namesys_resolver_resolve_once (str "/ipns/" ++ id) w =
  (match datastore_get d (w_ds w) with Some r => Ok (c_str (rec_value r)) | None => Err () end, w).
Proof.
  intros Hid. unfold ipfs_namesys_resolver_resolve_once.
  rewrite (ipns_string_accepted (str "/ipns/") id) by (auto; exact (id_text d id Hid)).
  cbn [fst]. rewrite (id_decode d id Hid), (io_bind_ok (lift (Ok _)) _ w _ w eq_refl).
  unfold look. cbn [cid_hash cid_hash_length]. destruct Hid as [Hd _].
  rewrite mem_read_len by congruence. reflexivity.
Qed.
Lemma resolve_once_ok w id p :
  names w id p ->
  ipfs_namesys_resolver_resolve_once (str "/ipns/" ++ id) w = (Ok p, w).
Proof. intros (d & r & Hid & Hr & <-). by rewrite (resolve_once_lookup d id w Hid), Hr. Qed.

(** One step only. *)
Lemma resolve_single path w :
  fst (ipfs_namesys_resolver_resolve path false w) =
  fst (ipfs_namesys_resolver_resolve_once path w).
Proof.
  unfold ipfs_namesys_resolver_resolve. cbn [resolve_loop andb]. unfold mbind, io_bind.
  destruct (ipfs_namesys_resolver_resolve_once path w) as [[] w']; reflexivity.
Qed.

(** From the name of [id] over the paths [ps]: every one but the last is a name again. *)
Fixpoint name_chain (w : World) (id : bytes) (ps : list bytes) : Prop :=
  match ps with
  | [] => False
  | [p] => names w id p
  | p :: ps => names w id p /\ exists id', p = str "/ipns/" ++ id' /\ name_chain w id' ps
  end.

Lemma is_ipns_prefix p : is_ipns_string (Some p) = starts_with (str "/ipns/") p.
Proof.
  unfold is_ipns_string. apply eq_bool_prop_intro. rewrite bool_decide_spec, Is_true_true.
  apply strstr_prefix.
Qed.

Lemma resolve_chain w n id ps :
  name_chain w id ps -> (length ps <= n)%nat ->
  resolve_loop n true (str "/ipns/" ++ id) w =
  if is_ipns_string (last ps)
  then resolve_loop (n - length ps) true (default [] (last ps)) w
  else (Ok (default [] (last ps)), w).
Proof.
  revert n id. induction ps as [| p ps IH]; intros n id Hc Hn; [destruct Hc |].
  destruct n as [| n]; [cbn in Hn; lia |]. cbn [resolve_loop].
  assert (Hp : names w id p) by (destruct ps; apply Hc).
  rewrite (io_bind_ok _ _ w p w (resolve_once_ok w id p Hp)). cbn [andb].
  destruct ps as [| p' ps].
  - change (last [p]) with (Some p). cbn [default length]. replace (S n - 1)%nat with n by lia.
    destruct (is_ipns_string (Some p)); reflexivity.
  - destruct Hc as (_ & id' & -> & Hc). rewrite is_ipns_prefix, starts_with_app.
    rewrite IH; [| exact Hc | cbn in *; lia]. reflexivity.
Qed.
Lemma publish_ok d id p w :
  id_of d id -> ds_ready (w_ds w) -> len p <= 500 -> cstring p ->
  datastore_get d (w_ds w) = None ->
  exists w', ipfs_namesys_publisher_publish id p w = (Ok (MkPutValue d d p), w') /\
    w_fs w' = w_fs w /\ ds_ready (w_ds w') /\ names w' id p /\
    forall k, k <> d -> datastore_get k (w_ds w') = datastore_get k (w_ds w).
Proof.
  intros Hid Hr Hl Hc Hn. pose proof Hid as [Hd _].
  assert (Hf : record_fits (MkRecord d p 0)) by (repeat split; cbn; lia).
  destruct (datastore_put_ready _ _ Hr Hf) as (s' & Hp & Hr').
  exists (MkWorld (w_fs w) s'). split_and!; [| reflexivity | exact Hr' | |].
  - unfold ipfs_namesys_publisher_publish, ipfs_namesys_copy_bytes. rewrite (id_decode d id Hid).
    rewrite (io_bind_ok (lift (Ok _)) _ w _ w eq_refl). cbn [cid_hash cid_hash_length].
    rewrite (io_bind_ok _ _ w d w) by (unfold lift; by rewrite mem_read_len by congruence).
    rewrite (io_bind_ok _ _ w p w) by (unfold lift; by rewrite mem_read_all).
    rewrite (io_bind_ok _ _ w true (MkWorld (w_fs w) s')) by (unfold put_record; by rewrite Hp).
    reflexivity.
  - destruct (datastore_get_fresh _ _ _ Hr Hf Hn Hp) as (r & Hg & Hv).
    exists d, r. split; [exact Hid |]. split; [exact Hg |]. cbn in Hv. rewrite Hv. by apply c_str_id.
  - intros k Hk. exact (datastore_get_other _ _ _ _ k Hr Hf Hp Hk).
Qed.

(** C25: publishing a path under a peer id that has none yet and resolving the id's name,
    recursively or not, gives the path back when it is not a name itself; what is
    announced to the network carries the same path, and other names stay as they were. *)
Theorem publish_resolve_roundtrip d id p w recursive :
  id_of d id -> ds_ready (w_ds w) -> len p <= 500 -> cstring p ->
  datastore_get d (w_ds w) = None -> is_ipns_string (Some p) = false ->
  exists w', ipfs_namesys_publisher_publish id p w = (Ok (MkPutValue d d p), w') /\
    ipfs_namesys_resolver_resolve (str "/ipns/" ++ id) recursive w' = (Ok p, w') /\
    forall d' id', id_of d' id' -> d' <> d ->
      fst (ipfs_namesys_resolver_resolve (str "/ipns/" ++ id') false w') =
      fst (ipfs_namesys_resolver_resolve (str "/ipns/" ++ id') false w).
Proof.
  intros Hid Hr Hl Hc Hn Hp. destruct (publish_ok d id p w Hid Hr Hl Hc Hn) as (w' & Hpub & _ & _ & Hnm & Ho).
  exists w'. split; [exact Hpub |]. split.
  - unfold ipfs_namesys_resolver_resolve. cbn [resolve_loop]. rewrite (io_bind_ok _ _ w' p w' (resolve_once_ok w' id p Hnm)).
    rewrite Hp, andb_false_r. reflexivity.
  - intros d' id' Hid' Hne. rewrite !(resolve_single (str "/ipns/" ++ id')).
    by rewrite !(resolve_once_lookup d' id' _ Hid'), Ho.
Qed.

(** C26: resolving a name recursively follows a chain of names to the first path that is
    not one, when that is at most 11 steps away; a chain of 11 names and more, such as
    one that leads back to itself, is given up and nothing is returned. *)
Theorem resolve_follows_chain w id ps :
  name_chain w id ps ->
  (len ps <= 11 -> is_ipns_string (last ps) = false ->
     ipfs_namesys_resolver_resolve (str "/ipns/" ++ id) true w = (Ok (default [] (last ps)), w)) /\
  (len ps = 11 -> is_ipns_string (last ps) = true ->
     ipfs_namesys_resolver_resolve (str "/ipns/" ++ id) true w = (Err (), w)) /\
  ipfs_namesys_resolver_resolve (str "/ipns/" ++ id) false w = (Ok (default [] (head ps)), w).
Proof.
  intros Hc. unfold ipfs_namesys_resolver_resolve. split_and!.
  - intros Hl Hi. rewrite (resolve_chain w 11 id ps Hc) by (unfold len in Hl; lia). by rewrite Hi.
  - intros Hl Hi. rewrite (resolve_chain w 11 id ps Hc) by (unfold len in Hl; lia). rewrite Hi.
    replace (11 - length ps)%nat with O by (unfold len in Hl; lia). reflexivity.
  - destruct ps as [| p ps]; [destruct Hc |]. assert (Hp : names w id p) by (destruct ps; apply Hc).
    cbn [resolve_loop]. by rewrite (io_bind_ok _ _ w p w (resolve_once_ok w id p Hp)).
Qed.
End Facts.

(** The naming system never finds a path: one in front of which a slash stands is not
    parsed and its text is read anyway, and any other comes back for ever. *)
Lemma namesys_resolve_never fuel name depth :
  match name with
  | [] => ipfs_namesys_resolve_n fuel name depth = NoFuel
  | c :: _ =>
      ipfs_namesys_resolve_n (S fuel) name depth =
      if decide (c = slash) then Undef else NoFuel
  end.
Proof.
  assert (Hp : forall n, parse_to_local n = Undef).
  { intros n. unfold parse_to_local. destruct (parse_outcome (Some n)) as [e ->]. reflexivity. }
  assert (Hn : forall fuel depth name, head name <> Some slash ->
    ipfs_namesys_resolve_n fuel name depth = NoFuel).
  { induction fuel0 as [| f IH]; intros dp [| c s] Hs; try reflexivity; cbn [ipfs_namesys_resolve_n].
    - apply IH. discriminate.
    - destruct (starts_with (str "/ipfs/") (c :: s)) eqn:E.
      { apply starts_with_spec in E as [r E]. cbn in E. injection E as -> _. exfalso; apply Hs; reflexivity. }
      rewrite decide_False by (intros ->; apply Hs; reflexivity). apply IH. exact Hs. }
  destruct name as [| c s]; [apply Hn; discriminate |].
  destruct (decide (c = slash)) as [-> | Hc]; [| apply Hn; intros [= H]; congruence].
  cbn [ipfs_namesys_resolve_n]. rewrite !Hp.
  rewrite decide_True by reflexivity. by destruct (starts_with _ _).
Qed.

(** No record leads to a path through the resolver of domains either. *)
Lemma dns_work_domain_never pipe_takes lookupTXT name txt :
  lookupTXT name = Ok txt ->
  ipfs_dns_work_domain pipe_takes lookupTXT name = Err ErrResolveFailed.
Proof.
  intros H. unfold ipfs_dns_work_domain. rewrite H. cbn [mbind cres_bind]. clear H.
  induction txt as [| t txt IH]; [reflexivity |]. cbn [first_entry].
  assert (E : exists e, ipfs_dns_parse_entry t = Err e).
  { unfold ipfs_dns_parse_entry. destruct t as [| c t]; [eexists; reflexivity |].
    cbn [ipfs_path_parse_from_cid]. unfold ipfs_dns_try_parse_dns_link.
    destruct (ipfs_path_split_n _ _ _) as [parts | | |] eqn:Es; try discriminate Es.
    cbn [of_unit on_err mbind cres_bind]. destruct parts as [[| k [| v [|]]] |]; eauto.
    destruct (str_eq k (str "dnslink")); [| eauto].
    destruct (parse_outcome (Some v)) as [e ->]. eauto. }
  destruct E as [e ->]. exact IH.
Qed.

(** No name is a proquint path. *)
Lemma proquint_resolve_never name p : ipfs_proquint_resolve_once name <> Ok p.
Proof.
  unfold ipfs_proquint_resolve_once. destruct (ipfs_proquint_is_proquint name); [discriminate |].
  assert (H : forall txt, (buf ← ipfs_path_parse txt; match buf with Some buf => Ok buf | None => Undef end) <> Ok p).
  { intros txt. destruct (parse_outcome txt) as [e ->]. discriminate. }
  destruct (ipfs_proquint_decode name) as [b | | |].
  - case_decide; [discriminate | exact (H (Some (c_str b)))].
  - exact (H None).
  - discriminate.
  - discriminate.
Qed.

(** * Concrete runs *)

Definition sample_id : bytes :=
  default [] (@enc_encode (@base58 ref_base58) (byte_of 18 :: byte_of 32 :: sample_digest) 100).
Lemma sample_id_of : id_of sample_digest sample_id.
Proof. split; [reflexivity |]. exists 100. vm_compute. reflexivity. Qed.

Lemma publish_resolve_roundtrip_witness :
  exists w', ipfs_namesys_publisher_publish sample_id (str "/ipfs/Qm") sample_world =
      (Ok (MkPutValue sample_digest sample_digest (str "/ipfs/Qm")), w') /\
    ipfs_namesys_resolver_resolve (str "/ipns/" ++ sample_id) true w' = (Ok (str "/ipfs/Qm"), w').
Proof.
  destruct (publish_resolve_roundtrip sample_digest sample_id (str "/ipfs/Qm") sample_world true)
    as (w' & Hp & Hr & _); try exact sample_id_of; try reflexivity; try by_decide; try exact I.
  exists w'. split; [exact Hp | exact Hr].
Defined.

(** A name that leads to itself. *)
Definition looped_world : World (DS := ref_datastore) :=
  MkWorld (w_fs sample_world)
    {[ sample_digest := MkRecord sample_digest (str "/ipns/" ++ sample_id) 0 ]}.
Lemma looped_names : names looped_world sample_id (str "/ipns/" ++ sample_id).
Proof.
  exists sample_digest, (MkRecord sample_digest (str "/ipns/" ++ sample_id) 0).
  split; [exact sample_id_of |]. split; [vm_compute; reflexivity | vm_compute; reflexivity].
Qed.
Lemma looped_chain n :
  name_chain looped_world sample_id (replicate (S n) (str "/ipns/" ++ sample_id)).
Proof.
  induction n as [| n IH]; [exact looped_names |].
  split; [exact looped_names |]. exists sample_id. split; [reflexivity | exact IH].
Qed.
Lemma resolve_follows_chain_witness :
  ipfs_namesys_resolver_resolve (str "/ipns/" ++ sample_id) true looped_world = (Err (), looped_world).
Proof.
  apply (resolve_follows_chain looped_world sample_id (replicate 11 (str "/ipns/" ++ sample_id))
           (looped_chain 10)); reflexivity.
Defined.
