(* ===== verification/NameResolvers.v ===== *)
(** The resolvers of names that go outside: by the records of a domain, in two processes of their own
    (src/namesys/dns.c), and by the routing system, with the time an entry ends (src/namesys/routing.c). *)

From S2P Require Import Prelude Libc Protobuf Libs Storage ProtobufRef LibsRef.
From S2P Require Import Errs Times Path Tlds IsDomain Proquint Cid DnsLink Namesys.

(** ** By the records of a domain *)

Section Dns.
(** What the library finds for a name, and whether a pipe takes a text whole. *)
Context (lookupTXT : bytes -> cres ErrsIdx (list bytes)) (pipe_takes : bytes -> bool).

(** A poll reports of each of the two pipes whether there is something to read and whether it was hung up. *)
Record revents := MkRevents { re_in : bool; re_hup : bool }.
(** What was last reported of the two entries of [event], how many of them [e] has passed, and [c]. *)
Record polling := MkPolling { pl_first : revents; pl_second : revents; pl_e : Z; pl_c : Z }.
Definition polling_start : polling := MkPolling (MkRevents false false) (MkRevents false false) 0 2.
Definition polled (st : polling) (i : Z) : bool := (pl_e st <=? i) && (i <? pl_e st + pl_c st).
(** The entries that are polled are reported; what was reported of the other stays there. A negative
    number of entries is an error. *)
Definition poll (st : polling) (first second : revents) : option polling :=
  if pl_c st <? 0 then None
  else Some (MkPolling (if polled st 0 then first else pl_first st) (if polled st 1 then second else pl_second st)
               (pl_e st) (pl_c st)).
(** A process has written a path, or it has not. *)
Definition wrote (r : cres ErrsIdx bytes) : bool := match r with Ok _ => true | _ => false end.
(** A pipe that has something is read; the text's end is then written through [path[r]], which is nothing of
    the caller's. *)
Definition read_ready (st : polling) : cres ErrsIdx () :=
  if (polled st 0 && re_in (pl_first st)) || (polled st 1 && re_in (pl_second st)) then Undef else Ok ().
Definition hung_up (st : polling) : polling :=
  let st := if re_hup (pl_first st) then MkPolling (pl_first st) (pl_second st) (pl_e st + 1) (pl_c st - 1) else st in
  if re_hup (pl_second st) then MkPolling (pl_first st) (pl_second st) (pl_e st) (pl_c st - 1) else st.
(** [rounds]: what each poll reports, as far as there can be something to read: [out1], [out2] is what the
    processes wrote. Nothing was read when the loop ends. *)
Fixpoint poll_loop (out1 out2 : cres ErrsIdx bytes) (rounds : list (revents * revents)) (st : polling)
  : cres ErrsIdx bytes :=
  match rounds with
  | [] => NoFuel
  | (first, second) :: rounds =>
      match poll st (MkRevents (re_in first && wrote out1) (re_hup first))
              (MkRevents (re_in second && wrote out2) (re_hup second)) with
      | None => Err ErrPoll
      | Some st =>
          _ ← read_ready st;
          let st := hung_up st in
          if pl_c st =? 0 then Err ErrResolveFailed else poll_loop out1 out2 rounds st
      end
  end.

Definition dlprefix : bytes := str "_dnslink.".
Inductive process := Caller | FirstChild | SecondChild.
(** The children return from the same call: each as its work ends, without a path. *)
Definition child_return (r : cres ErrsIdx bytes) : cres ErrsIdx bytes := _ ← r; Ok [].
(** [pipes], [fork1], [fork2]: whether they are made. What the call returns, in each process. *)
Definition ipfs_dns_resolver_resolve_once (pipes fork1 fork2 : bool) (rounds : list (revents * revents))
  (name : bytes) : list (process * cres ErrsIdx bytes) :=
  let accepted :=
    segments ← of_unit (ipfs_path_split_n name (str "/") 2) ErrResolveFailed;
    match segments with
    | Some (domain :: _) =>
        ok ← of_unit (ipfs_isdomain_is_domain domain) ErrInvalidDomain;
        if (ok : bool) then Ok domain else Err ErrInvalidDomain
    | _ => Undef
    end in
  match accepted with
  | Ok domain =>
      if negb pipes then [(Caller, Err ErrPipe)]
      else if negb fork1 then [(Caller, Err ErrPipe)]
      else
        let out1 := ipfs_dns_work_domain pipe_takes lookupTXT domain in
        if negb fork2 then [(Caller, Err ErrPipe); (FirstChild, child_return out1)]
        else
          let out2 := ipfs_dns_work_domain pipe_takes lookupTXT (dlprefix ++ domain) in
          [(Caller, poll_loop out1 out2 rounds polling_start);
           (FirstChild, child_return out1); (SecondChild, child_return out2)]
  | Err e => [(Caller, Err e)]
  | Undef => [(Caller, Undef)]
  | NoFuel => [(Caller, NoFuel)]
  end.
End Dns.

(** ** By the routing system *)

Section Routed.
Context {B58 : Base58}.
(** What the call finds: the time; the value and the public key the routing system has; whether a
    signature is right ([None]: it could not be checked); the value of an entry; how a pair of digits is
    scanned; and the length of a multihash, below zero when it is none. *)
Context (now : Z * Z) (routing_get_value : bytes -> cres ErrsIdx ()) (getpublic_key : bytes -> cres ErrsIdx bytes).
Context (crypto_verify : option bytes -> option bytes -> option bool) (pb_get_value : ipns_entry -> cres ErrsIdx bytes).
Context (scan_hex : bytes -> option byte) (mh_multihash_hash : list (option byte) -> Z -> Z).

Definition trim_prefix (name prefix : bytes) : bytes :=
  if starts_with prefix name then bdrop (len prefix) name else name.
(** The multihash is decoded into no room at all; the length of the bytes of the entry is not stored, so a
    multihash of length 0 is made a CID, which has no hash; and what the entry's value is parsed to is written
    to the caller's path, which is NULL. *)
Definition resolve_entry (entry : ipns_entry) : cres ErrsIdx bytes :=
  string ← pb_get_value entry;
  multihash ← match ipfs_namesys_hex_string_to_bytes scan_hex string with
              | Err _ => Err ErrInvalidParam
              | r => r
              end;
  if mh_multihash_hash multihash 0 <? 0 then
    _ ← ipfs_path_parse (Some string); Undef
  else
    cid ← ipfs_cid_new 0 None 0 CID_DAG_PROTOBUF;
    _ ← ipfs_path_parse_from_cid (cid_hash cid); Undef.
Definition ipfs_namesys_routing_resolve_once (path : bool) (name : option bytes) (prefix : option bytes)
  (entry : ipns_entry) (cache : option routingResolver) : cres ErrsIdx (bytes * option routingResolver) :=
  match path, name, prefix with
  | true, Some name, Some prefix =>
      match ipfs_routing_cache_get now (Some name) cache with
      | Some path => Ok (path, cache)
      | None =>
          let name := trim_prefix name prefix in
          match @enc_decode base58 name 0 with
          | None => Err ErrInvalidParam
          | Some multihash =>
              hex ← match ipfs_namesys_bytes_to_hex_string multihash (len multihash * 2 + 1) with
                    | Err _ => Err ErrUnknow
                    | r => r
                    end;
              _ ← routing_get_value (prefix ++ hex);
              _ ← getpublic_key multihash;
              match crypto_verify (ipns_entry_data_for_sig (Some entry)) (ie_signature entry) with
              | Some true =>
                  path ← resolve_entry entry;
                  Ok (path, ipfs_routing_cache_set now (Some name) (Some path) cache)
              | _ => Err ErrInvalidSignature
              end
          end
      end
  | _, _, _ => Err ErrInvalidParam
  end.
Definition ipfs_namesys_routing_resolve_n (path : bool) (name : option bytes) (depth : Z) (entry : ipns_entry)
  (cache : option routingResolver) : cres ErrsIdx (bytes * option routingResolver) :=
  ipfs_namesys_routing_resolve_once path name (Some (str "/ipns/")) entry cache.
Definition ipfs_namesys_routing_resolve (path : bool) (name : option bytes) (entry : ipns_entry)
  (cache : option routingResolver) : cres ErrsIdx (bytes * option routingResolver) :=
  ipfs_namesys_routing_resolve_n path name DefaultDepthLimit entry cache.
End Routed.

(** The time an entry ends, where it says so. *)
Definition ipfs_namesys_routing_check_EOL (zone : tm -> Z) (isdst : Z) (ts : bool) (entry : ipns_entry) : cres () (option timespec) :=
  match ie_validityType entry with
  | None => Undef
  | Some t =>
      if t =? IpnsEntry_EOL then
        match ipfs_util_time_parse_RFC3339 zone isdst ts (ie_validity entry) with
        | Ok eol => Ok (Some eol)
        | Err _ => Ok None
        | Undef => Undef
        | NoFuel => NoFuel
        end
      else Ok None
  end.

(** * Facts *)

(** Nothing is written to the pipes. *)
Lemma work_domain_fails pipe_takes lookupTXT name p : ipfs_dns_work_domain pipe_takes lookupTXT name <> Ok p.
Proof.
  intros H. destruct (lookupTXT name) as [txt | | |] eqn:E.
  - rewrite (dns_work_domain_never pipe_takes lookupTXT name txt E) in H. discriminate.
  - unfold ipfs_dns_work_domain in H. rewrite E in H. discriminate.
  - unfold ipfs_dns_work_domain in H. rewrite E in H. discriminate.
  - unfold ipfs_dns_work_domain in H. rewrite E in H. discriminate.
Qed.
Lemma child_fails pipe_takes lookupTXT name p :
  child_return (ipfs_dns_work_domain pipe_takes lookupTXT name) <> Ok p.
Proof.
  unfold child_return. intros H. apply bind_ok in H as (a & H & _). exact (work_domain_fails _ _ _ _ H).
Qed.

(** Without anything written the loop only counts the pipes that were hung up; one that was is counted again
    in the next round, after which the number is below zero. *)
Definition silent_round (st : polling) (first second : bool) : polling :=
  hung_up (MkPolling (if polled st 0 then MkRevents false first else pl_first st)
                     (if polled st 1 then MkRevents false second else pl_second st) (pl_e st) (pl_c st)).
Lemma poll_loop_silent out1 out2 first second rounds st :
  wrote out1 = false -> wrote out2 = false -> re_in (pl_first st) = false -> re_in (pl_second st) = false ->
  poll_loop out1 out2 ((first, second) :: rounds) st =
  if pl_c st <? 0 then Err ErrPoll
  else let st := silent_round st (re_hup first) (re_hup second) in
       if pl_c st =? 0 then Err ErrResolveFailed else poll_loop out1 out2 rounds st.
Proof.
  intros H1 H2 Hf Hs. cbn [poll_loop]. unfold poll. rewrite H1, H2, !andb_false_r. destruct (pl_c st <? 0); [reflexivity |].
  unfold read_ready, silent_round. cbn [pl_first pl_second].
  replace (_ || _) with false; [reflexivity |].
  destruct (polled st 0), (polled st 1); cbn; rewrite ?Hf, ?Hs, ?andb_false_r; reflexivity.
Qed.

Lemma poll_never out1 out2 rounds st p :
  wrote out1 = false -> wrote out2 = false -> poll_loop out1 out2 rounds st <> Ok p.
Proof.
  intros H1 H2. revert st. induction rounds as [| [r1 r2] rounds IH]; intros st; [discriminate |]. cbn [poll_loop].
  destruct (poll _ _ _) as [st' |]; [| discriminate]. destruct (read_ready st'); try discriminate. cbn [mbind cres_bind].
  destruct (pl_c _ =? 0); [discriminate | apply IH].
Qed.

(** A poll returns when a pipe it polls was hung up: one of the two the first time, the other the next. *)
Lemma dns_polls_end out1 out2 r1 r2 r3 r4 r rounds :
  wrote out1 = false -> wrote out2 = false ->
  re_hup r1 || re_hup r2 = true -> re_hup r3 = true -> re_hup r4 = true ->
  poll_loop out1 out2 ((r1, r2) :: (r3, r4) :: r :: rounds) polling_start =
  Err (if re_hup r1 && re_hup r2 then ErrResolveFailed else ErrPoll).
Proof.
  intros H1 H2 Ha H3 H4. rewrite poll_loop_silent by (assumption || reflexivity).
  destruct r1 as [i1 h1], r2 as [i2 h2], r3 as [i3 h3], r4 as [i4 h4], r as [r5 r6]; cbn in Ha, H3, H4; subst h3 h4.
  destruct h1, h2; try discriminate Ha; cbv -[poll_loop wrote]; [reflexivity | |];
    (rewrite poll_loop_silent by (assumption || reflexivity)); cbv -[poll_loop wrote];
    (rewrite poll_loop_silent by (assumption || reflexivity)); reflexivity.
Qed.

(** The routing system gives nothing either. *)
Lemma resolve_entry_fails pb_get_value scan_hex mh_hash entry p :
  resolve_entry pb_get_value scan_hex mh_hash entry <> Ok p.
Proof.
  unfold resolve_entry. destruct (pb_get_value entry) as [string | | |]; cbn [mbind cres_bind]; try discriminate.
  destruct (ipfs_namesys_hex_string_to_bytes scan_hex string) as [b | | |]; cbn [mbind cres_bind]; try discriminate.
  destruct (mh_hash b 0 <? 0); [| discriminate]. destruct (parse_outcome (Some string)) as [e ->]. discriminate.
Qed.
Lemma routing_resolve_cached `{Base58} now routing_get_value getpublic_key verify pb_get_value scan_hex mh_hash
  path name prefix entry cache p cache' :
  ipfs_namesys_routing_resolve_once now routing_get_value getpublic_key verify pb_get_value scan_hex mh_hash
    path name prefix entry cache = Ok (p, cache') ->
  cache' = cache /\ ipfs_routing_cache_get now name cache = Some p.
Proof.
  unfold ipfs_namesys_routing_resolve_once. destruct path, name as [name |], prefix as [prefix |]; try discriminate.
  destruct (ipfs_routing_cache_get now (Some name) cache) as [q |]; [by intros [= -> ->] |].
  intros Hr. exfalso. destruct (@enc_decode base58 (trim_prefix name prefix) 0) as [multihash |]; [| discriminate].
  destruct (ipfs_namesys_bytes_to_hex_string _ _) as [hex | | |]; try discriminate. cbn [mbind cres_bind] in Hr.
  destruct (routing_get_value _); try discriminate. cbn [mbind cres_bind] in Hr.
  destruct (getpublic_key _); try discriminate. cbn [mbind cres_bind] in Hr.
  destruct (verify _ _) as [[] |]; try discriminate.
  destruct (resolve_entry _ _ _ entry) as [q | | |] eqn:E; try discriminate.
  exact (resolve_entry_fails _ _ _ _ _ E).
Qed.
(** An entry with the text of a time says when it ends, in UTC. *)
Lemma entry_end_known isdst sec nsec t s entry :
  gmtime sec = Some t -> 0 <= nsec < 10 ^ 9 -> 1000 <= tm_year t <= 9999 ->
  ipfs_util_time_format_RFC3339 (MkTimespec sec nsec) = Ok (Some s) ->
  ie_validityType entry = Some IpnsEntry_EOL -> ie_validity entry = Some (s ++ [x00]) ->
  ipfs_namesys_routing_check_EOL (fun _ => 0) isdst true entry = Ok (Some (MkTimespec sec nsec)).
Proof.
  intros Ht Hn Hy Hs Hty Hv. unfold ipfs_namesys_routing_check_EOL. rewrite Hty, Hv, Z.eqb_refl.
  destruct (format_parses sec nsec (fun _ => 0) t Ht Hn Hy) as (s' & Hf & _ & Hp).
  rewrite Hf in Hs. injection Hs as ->. rewrite Hp, Z.sub_0_r. reflexivity.
Qed.

(** * Properties *)

(** C27: No call of the resolver of domains gives a path, in the process that calls or in one of the two it
    starts (which return from the same call). When the name's domain is accepted, the processes are started
    and both end, the caller's loop ends within three polls, with [ErrResolveFailed] when one poll reports
    both of them, and with [ErrPoll] when they end one after the other. *)
Theorem dns_resolver_fails lookupTXT pipe_takes pipes fork1 fork2 rounds name :
  (forall process p,
     (process, Ok p) ∉ ipfs_dns_resolver_resolve_once lookupTXT pipe_takes pipes fork1 fork2 rounds name) /\
  (forall domain more r1 r2 r3 r4 r rest,
     ipfs_path_split_n name (str "/") 2 = Ok (Some (domain :: more)) ->
     ipfs_isdomain_is_domain domain = Ok true ->
     pipes && fork1 && fork2 = true ->
     rounds = (r1, r2) :: (r3, r4) :: r :: rest ->
     re_hup r1 || re_hup r2 = true -> re_hup r3 && re_hup r4 = true ->
     head (ipfs_dns_resolver_resolve_once lookupTXT pipe_takes pipes fork1 fork2 rounds name) =
     Some (Caller, Err (if re_hup r1 && re_hup r2 then ErrResolveFailed else ErrPoll))).
Proof.
  assert (Hw : forall n, wrote (ipfs_dns_work_domain pipe_takes lookupTXT n) = false).
  { intros n. destruct (ipfs_dns_work_domain pipe_takes lookupTXT n) eqn:E; try reflexivity.
    exfalso. exact (work_domain_fails _ _ _ _ E). }
  split.
  - intros process p Hin. unfold ipfs_dns_resolver_resolve_once in Hin.
    destruct (mbind _ _) as [domain | | |]; [| apply list_elem_of_singleton in Hin; discriminate ..].
    destruct pipes, fork1; cbn [negb] in Hin; try (apply list_elem_of_singleton in Hin; discriminate).
    pose proof (child_fails pipe_takes lookupTXT domain p) as Hc1.
    pose proof (child_fails pipe_takes lookupTXT (dlprefix ++ domain) p) as Hc2.
    destruct fork2; cbn [negb] in Hin; repeat (apply elem_of_cons in Hin as [Hin | Hin]); simplify_eq;
      try (by apply not_elem_of_nil in Hin); try congruence.
    exact (poll_never _ _ _ _ _ (Hw _) (Hw _) (eq_sym H0)).
  - intros domain more r1 r2 r3 r4 r rest Hs Hd Hp -> Ha Hb. apply andb_true_iff in Hb as [H3 H4].
    apply andb_true_iff in Hp as [Hp ->]. apply andb_true_iff in Hp as [-> ->].
    unfold ipfs_dns_resolver_resolve_once. rewrite Hs. cbn [of_unit on_err mbind cres_bind]. rewrite Hd.
    cbn [of_unit on_err mbind cres_bind negb head]. f_equal. f_equal. by apply dns_polls_end.
Qed.
Definition both_hung_up : revents * revents := (MkRevents false true, MkRevents false true).
Lemma dns_resolver_fails_witness :
  head (ipfs_dns_resolver_resolve_once (fun _ => Ok [str "dnslink=/ipfs/QmName"]) (fun _ => true) true true true
          [(MkRevents false false, MkRevents true true); both_hung_up; both_hung_up] (str "example.com/a/b")) =
  Some (Caller, Err ErrPoll).
Proof.
  apply (dns_resolver_fails (fun _ => Ok [str "dnslink=/ipfs/QmName"]) (fun _ => true) true true true) with
    (domain := str "example.com") (more := [str "a"; str "b"])
    (r1 := MkRevents false false) (r2 := MkRevents true true) (r3 := both_hung_up.1) (r4 := both_hung_up.2)
    (r := both_hung_up) (rest := []); vm_compute; reflexivity.
Defined.
