(* ===== verification/Merkledag.v ===== *)
(** Saving and loading nodes: src/merkledag/merkledag.c and the block and node
    functions of src/repo/fsrepo/fs_repo.c. *)

From S2P Require Import Prelude Libc Protobuf Libs Storage ProtobufRef LibsRef.
From S2P Require Import Cid UnixFS MerkleNode Block Blockstore.

Section Merkledag.
Context {PB : Protobuf} {MH : Multihash} {SH : Sha256} {B32 : Base32} {OS : OsUtils}.
Context {DS : Datastore}.
Context (path : bytes).

(** ** src/repo/fsrepo/fs_repo.c *)

(** An error says what was stored in [*bytes_written], if anything was. *)
Definition ipfs_repo_fsrepo_block_write (block : Block) : io (option Z) Z :=
  bytes_written ← ipfs_blockstore_put path block;
  added ← attempt (ipfs_datastore_helper_add_block_to_datastore block);
  match added with
  | inl _ => mret bytes_written
  | inr _ => fail (Some bytes_written)
  end.

(** The record is only looked for. *)
Definition in_datastore (hash : option bytes) (hash_length : Z) : io unit unit :=
  look (fun w =>
    k ← mem_read hash hash_length;
    match datastore_get k (w_ds w) with
    | None => Err ()
    | Some _ => Ok ()
    end).

Definition ipfs_repo_fsrepo_node_read (hash : option bytes) (hash_length : Z)
  (caller_node : bool) : io unit HashtableNode :=
  _ ← in_datastore hash hash_length;
  ipfs_blockstore_get_node path hash hash_length caller_node.

Definition ipfs_repo_fsrepo_block_read (hash : option bytes) (hash_length : Z)
  : io unit Block :=
  _ ← in_datastore hash hash_length;
  cid ← lift (ipfs_cid_new 0 hash hash_length CID_DAG_PROTOBUF);
  ipfs_blockstore_get path cid.

Definition ipfs_repo_fsrepo_unixfs_read (hash : option bytes) (hash_length : Z)
  : io unit UnixFS :=
  _ ← in_datastore hash hash_length;
  ipfs_blockstore_get_unixfs path hash hash_length.

(** The encoded node, for the Filestore interface. The local node starts NULL. *)
Definition ipfs_repo_fsrepo_node_get (hash : option bytes) (hash_length : Z)
  : io unit bytes :=
  node ← ipfs_repo_fsrepo_node_read hash hash_length true;
  node_size ← lift (ipfs_hashtable_node_protobuf_encode_size node);
  lift (on_err (ipfs_hashtable_node_protobuf_encode node node_size) ()).

(** ** src/merkledag/merkledag.c *)

Definition ipfs_merkledag_convert_node_to_block (node : HashtableNode) : cres unit Block :=
  cid ← ipfs_cid_new 1 (nd_hash node) (nd_hash_size node) CID_DAG_PROTOBUF;
  data_length ← ipfs_hashtable_node_protobuf_encode_size node;
  data ← on_err (ipfs_hashtable_node_protobuf_encode node data_length) ();
  Ok (MkBlock (Some cid) (Some data) (len data)).

Definition ipfs_merkledag_convert_block_to_node (block : Block) (caller_node : bool)
  : cres unit HashtableNode :=
  data ← mem_read (bl_data block) (bl_data_length block);
  ipfs_hashtable_node_protobuf_decode data (bl_data_length block) caller_node.

Definition with_hash (n : HashtableNode) (h : bytes) : HashtableNode :=
  MkNode (nd_data_size n) (nd_data n) (nd_links n) (nd_dangling n) (nd_encoded n) (Some h) 32.

(** The hash of the node, computed when there is none. The verdict of the
    encoding is not looked at: what was written so far is hashed. [Err]: the
    digest failed and the hash pointer dangles. *)
Definition merkledag_hash_node (node : HashtableNode) : cres unit HashtableNode :=
  match nd_hash node with
  | Some _ => Ok node
  | None =>
      protobuf_size ← ipfs_hashtable_node_protobuf_encode_size node;
      protobuf ← match ipfs_hashtable_node_protobuf_encode node protobuf_size with
                 | Ok b | Err b => Ok b
                 | Undef => Undef
                 | NoFuel => NoFuel
                 end;
      match libp2p_crypto_hashing_sha256 protobuf with
      | None => Err ()
      | Some hash => Ok (with_hash node hash)
      end
  end.

(** The caller's node afterwards with the bytes written. An error leaves the
    node and says what was stored in [*bytes_written], if anything was; [None]:
    the hash pointer of the node dangles. *)
Definition ipfs_merkledag_add (node : HashtableNode)
  : io (option (HashtableNode * option Z)) (HashtableNode * Z) :=
  node ← lift (on_err (merkledag_hash_node node) None);
  block ← lift (on_err (ipfs_merkledag_convert_node_to_block node) (Some (node, None)));
  written ← attempt (ipfs_repo_fsrepo_block_write block);
  match written with
  | inl bytes_written => mret (node, bytes_written)
  | inr stored => fail (Some (node, stored))
  end.

Definition ipfs_merkledag_get (hash : option bytes) (hash_size : Z) (caller_node : bool)
  : io unit HashtableNode :=
  _ ← in_datastore hash hash_size;
  node ← ipfs_repo_fsrepo_node_read hash hash_size caller_node;
  lift (ipfs_hashtable_node_set_hash node hash hash_size).

Definition ipfs_merkledag_get_by_multihash (multihash : bytes) (multihash_length : Z)
  (caller_node : bool) : io unit HashtableNode :=
  match mh_multihash_digest multihash multihash_length with
  | None => fail ()
  | Some hash => ipfs_merkledag_get (Some hash) (len hash) caller_node
  end.
End Merkledag.

(** * Properties *)

Section Facts.
Context {PB : Protobuf} {MH : Multihash} {SH : Sha256} {B32 : Base32} {OS : OsUtils}.
Context {DS : Datastore}.
Context `{!ProtobufLaws PB} `{!MultihashLaws MH} `{!Sha256Laws SH} `{!Base32Laws B32}.
Context `{!OsUtilsLaws OS} `{!DatastoreLaws DS}.
Context (path : bytes).

(** The hash a node is saved under. *)
Definition node_hash (n : HashtableNode) : bytes :=
  match nd_hash n with
  | Some h => h
  | None => default [] (libp2p_crypto_hashing_sha256 (node_wire n))
  end.

(** A node that can be saved: not empty, its hash absent or of 32 bytes. *)
Record node_savable (n : HashtableNode) : Prop := {
  savable_wf : node_wf n;
  savable_room : node_room n < 2 ^ 62;
  savable_some : nd_links n <> [] \/ 0 < nd_data_size n;
  savable_hash : match nd_hash n with
                 | Some h => len h = 32 /\ nd_hash_size n = 32
                 | None => True
                 end
}.

Lemma node_hash_len n : node_savable n -> len (node_hash n) = 32.
Proof.
  intros [_ _ _ Hh]. unfold node_hash. destruct (nd_hash n); [apply Hh |].
  destruct (sha256_ok (node_wire n)) as (h & -> & Hl). exact Hl.
Qed.

Lemma with_hash_value n h : node_value (with_hash n h) = node_value n.
Proof. reflexivity. Qed.
Lemma with_hash_wire n h : node_wire (with_hash n h) = node_wire n.
Proof. reflexivity. Qed.
Lemma with_hash_wf n h : node_wf n -> node_wf (with_hash n h).
Proof. intros [? ? ? ?]. constructor; assumption. Qed.

(** The node with the hash it is saved under. *)
Definition hashed (n : HashtableNode) : HashtableNode :=
  match nd_hash n with Some _ => n | None => with_hash n (node_hash n) end.

Lemma hashed_wire n : node_wire (hashed n) = node_wire n.
Proof. unfold hashed. destruct (nd_hash n); reflexivity. Qed.
Lemma hashed_wf n : node_wf n -> node_wf (hashed n).
Proof. unfold hashed. destruct (nd_hash n); auto using with_hash_wf. Qed.
Lemma hashed_hash n :
  node_savable n -> nd_hash (hashed n) = Some (node_hash n) /\ nd_hash_size (hashed n) = 32.
Proof.
  intros [_ _ _ Hh]. unfold hashed, node_hash.
  destruct (nd_hash n) as [h |] eqn:E; [| cbn; auto]. rewrite E. tauto.
Qed.
Lemma hashed_value n : node_value (hashed n) = node_value n.
Proof. unfold hashed. destruct (nd_hash n); reflexivity. Qed.
Lemma hashed_room n : node_room (hashed n) = node_room n.
Proof. unfold hashed. destruct (nd_hash n); reflexivity. Qed.

Lemma hash_node_ok n : node_savable n -> merkledag_hash_node n = Ok (hashed n).
Proof.
  intros [Hw Hr _ _]. unfold merkledag_hash_node, hashed, node_hash.
  pose proof (node_wire_bound n Hw).
  destruct (nd_hash n); [reflexivity |].
  rewrite node_encode_size_eq by assumption. cbn [mbind cres_bind].
  rewrite node_encode_fields by (assumption || lia). cbn [mbind cres_bind].
  destruct (sha256_ok (node_wire n)) as (h & -> & _). reflexivity.
Qed.

(** The block a node is saved as. *)
Definition node_block (n : HashtableNode) : Block :=
  MkBlock (Some (MkCid 1 CID_DAG_PROTOBUF (Some (node_hash n)) 32)) (Some (node_wire n))
    (len (node_wire n)).

Lemma convert_ok n :
  node_savable n -> ipfs_merkledag_convert_node_to_block (hashed n) = Ok (node_block n).
Proof.
  intros Hn. pose proof (hashed_hash n Hn) as [Hh Hs]. pose proof (node_hash_len n Hn) as Hl.
  destruct Hn as [Hw Hr _ _]. pose proof (node_wire_bound n Hw).
  unfold ipfs_merkledag_convert_node_to_block. rewrite Hh, Hs, cid_new_bytes by lia.
  cbn [mbind cres_bind]. rewrite node_encode_size_eq by auto using hashed_wf.
  cbn [mbind cres_bind]. rewrite hashed_room.
  rewrite node_encode_fields by (rewrite ?hashed_wire; auto using hashed_wf; lia).
  cbn [on_err mbind cres_bind]. rewrite hashed_wire, btake_all by lia. reflexivity.
Qed.
Lemma node_block_wf n : node_savable n -> block_wf (node_block n).
Proof.
  intros Hn. pose proof (node_hash_len n Hn) as Hl. destruct Hn as [Hw Hr _ _].
  pose proof (node_wire_bound n Hw). constructor; cbn; [| reflexivity | lia].
  split; [| unfold CID_DAG_PROTOBUF; lia].
  constructor; cbn; unfold CID_DAG_PROTOBUF; lia.
Qed.

(** A state in which the node can be stored. *)
Record can_store (n : HashtableNode) (w : World) : Prop := {
  store_file : fs_accepts path (w_fs w) (node_hash n) (len (block_wire (node_block n)));
  store_key : @enc_encode_size base32 32 <= 100;
  store_ready : ds_ready (w_ds w)
}.

(** The node is in the state: its record and its file. *)
Record stored (n : HashtableNode) (w : World) : Prop := {
  stored_record : is_Some (datastore_get (node_hash n) (w_ds w));
  stored_file : fs_files (w_fs w) !! hash_file path (node_hash n) =
                  Some (block_wire (node_block n))
}.

Lemma merkledag_add_ok n w :
  node_savable n -> can_store n w ->
  exists w', ipfs_merkledag_add path n w = (Ok (hashed n, len (block_wire (node_block n))), w') /\
    stored n w' /\ ds_ready (w_ds w') /\
    fs_writable (w_fs w') = fs_writable (w_fs w) /\ fs_room (w_fs w') = fs_room (w_fs w) /\
    (forall m, stored m w -> (node_hash m = node_hash n -> node_wire m = node_wire n) ->
       stored m w') /\
    forall p, (forall h, len h = 32 -> p <> hash_file path h) -> fs_files (w_fs w') !! p = fs_files (w_fs w) !! p.
Proof.
  intros Hn [Hf Hk Hr]. pose proof (node_hash_len n Hn) as Hl.
  pose proof (node_block_wf n Hn) as Hb.
  assert (Hc : cid_wf (MkCid 1 CID_DAG_PROTOBUF (Some (node_hash n)) 32)) by apply Hb.
  unfold ipfs_merkledag_add. rewrite hash_node_ok by assumption. cbn [on_err].
  rewrite (io_bind_ok _ _ w (hashed n) w) by reflexivity.
  rewrite convert_ok by assumption. cbn [on_err].
  rewrite (io_bind_ok _ _ w (node_block n) w) by reflexivity.
  pose proof (put_block_ok path (node_block n) _ (node_hash n) w Hb eq_refl eq_refl Hf) as Hput.
  set (w1 := MkWorld (fs_with path (w_fs w) (node_hash n) (block_wire (node_block n))) (w_ds w)) in *.
  rewrite <- Hl in Hk.
  destruct (add_block_ok (node_block n) _ (node_hash n) w1 eq_refl Hc eq_refl Hk ltac:(lia) Hr)
    as (s & k & Hadd & Hfit & Hds & Hs).
  assert (Hw : ipfs_repo_fsrepo_block_write path (node_block n) w =
                 (Ok (len (block_wire (node_block n))), MkWorld (w_fs w1) s)).
  { unfold ipfs_repo_fsrepo_block_write. rewrite (io_bind_ok _ _ w _ w1 Hput).
    unfold mbind, io_bind, attempt. rewrite Hadd. reflexivity. }
  unfold mbind, io_bind, attempt. rewrite Hw.
  eexists. split; [reflexivity |]. cbn [w_fs w_ds fs_writable fs_room fs_with w1].
  split; [| split; [exact Hs |]]; [| split; [reflexivity |]; split; [reflexivity |]; split].
  - constructor; cbn.
    + destruct (datastore_get_put _ _ _ Hr Hfit Hds) as (r' & E). cbn in E. rewrite E. eauto.
    + apply lookup_insert_eq.
  - intros m [Hm1 Hm2] Hne. destruct (decide (node_hash m = node_hash n)) as [E | E].
    + assert (Hmn : node_block m = node_block n)
        by (unfold node_block; rewrite E, (Hne E); reflexivity).
      constructor; rewrite E, ?Hmn; cbn; [| apply lookup_insert_eq].
      destruct (datastore_get_put _ _ _ Hr Hfit Hds) as (r' & Er). cbn in Er. rewrite Er. eauto.
    + constructor; cbn.
      * rewrite (datastore_get_other _ _ _ _ _ Hr Hfit Hds) by exact E. exact Hm1.
      * rewrite lookup_insert_ne; [exact Hm2 |]. intros Ef.
        apply E. symmetry. eapply hash_file_inj, Ef.
  - intros p Hp. apply lookup_insert_ne. intros E. exact (Hp _ Hl (eq_sym E)).
Qed.

(** What loading gives: the saved parts and the hash. *)
Definition loaded (n : HashtableNode) : HashtableNode :=
  with_hash (node_saved n) (node_hash n).

Lemma in_datastore_ok h w :
  is_Some (datastore_get h (w_ds w)) -> in_datastore (Some h) (len h) w = (Ok (), w).
Proof.
  intros [r Hr]. unfold in_datastore, look. rewrite mem_read_all. cbn [mbind cres_bind].
  rewrite Hr. reflexivity.
Qed.

Lemma set_hash_fresh {E} n h :
  nd_hash n = None -> len h = 32 ->
  @ipfs_hashtable_node_set_hash E n (Some h) (len h) = Ok (with_hash n h).
Proof.
  intros Hn Hh. unfold ipfs_hashtable_node_set_hash, with_hash. destruct n. cbn in Hn. subst.
  cbn [bool_decide negb andb]. rewrite mem_read_all, Hh. reflexivity.
Qed.

Lemma merkledag_get_ok n w c :
  node_savable n -> stored n w ->
  ipfs_merkledag_get path (Some (node_hash n)) (len (node_hash n)) c w = (Ok (loaded n), w).
Proof.
  intros Hn [Hd Hf]. pose proof (node_hash_len n Hn) as Hl.
  unfold ipfs_merkledag_get. rewrite (io_bind_ok _ _ w () w) by apply in_datastore_ok, Hd.
  assert (Hg : ipfs_repo_fsrepo_node_read path (Some (node_hash n)) (len (node_hash n)) c w =
                 (Ok (node_saved n), w)).
  { unfold ipfs_repo_fsrepo_node_read.
    rewrite (io_bind_ok _ _ w () w) by apply in_datastore_ok, Hd.
    apply (get_node_ok path (node_block n)); [apply node_block_wf, Hn | exact Hf |].
    apply node_decode_wire; apply Hn. }
  rewrite (io_bind_ok _ _ w _ w Hg). unfold lift. rewrite set_hash_fresh by auto. reflexivity.
Qed.

Lemma loaded_value n : node_savable n -> node_value (loaded n) = node_value n.
Proof. intros Hn. unfold loaded. rewrite with_hash_value. apply node_saved_value, Hn. Qed.
End Facts.

(** ** The properties of this file *)

Section Properties.
Context {PB : Protobuf} {MH : Multihash} {SH : Sha256} {B32 : Base32} {OS : OsUtils}.
Context {DS : Datastore}.
Context `{!ProtobufLaws PB} `{!MultihashLaws MH} `{!Sha256Laws SH} `{!Base32Laws B32}.
Context `{!OsUtilsLaws OS} `{!DatastoreLaws DS}.
Context (path : bytes).

(** C3: [ipfs_merkledag_add] of a non-empty node, on storage that takes it,
    succeeds, gives the node the SHA-256 of its encoding unless it already has a
    hash, and from then on [ipfs_merkledag_get] of that hash gives a node with
    the same data and links and that hash. Nodes stored before under other
    hashes can still be loaded. *)
Theorem merkledag_add_get n w c :
  node_savable n -> can_store path n w ->
  exists n' written w' g,
    ipfs_merkledag_add path n w = (Ok (n', written), w') /\
    node_value n' = node_value n /\ nd_hash n' = Some (node_hash n) /\
    ipfs_merkledag_get path (Some (node_hash n)) 32 c w' = (Ok g, w') /\
    node_value g = node_value n /\ nd_hash g = Some (node_hash n) /\
    forall m, node_savable m -> stored path m w -> node_hash m <> node_hash n ->
      ipfs_merkledag_get path (Some (node_hash m)) 32 c w' = (Ok (loaded m), w').
Proof.
  intros Hn Hw. destruct (merkledag_add_ok path n w Hn Hw) as (w' & Ha & Hs & _ & _ & _ & Ho & _).
  exists (hashed n), (len (block_wire (node_block n))), w', (loaded n).
  rewrite <- (node_hash_len n Hn) at 1.
  split; [exact Ha |]. split; [apply hashed_value |].
  split; [apply hashed_hash, Hn |]. split; [apply merkledag_get_ok; assumption |].
  split; [apply loaded_value, Hn |]. split; [reflexivity |].
  intros m Hm Hms Hne. rewrite <- (node_hash_len m Hm). apply merkledag_get_ok; [exact Hm |].
  apply Ho; [exact Hms | intros E; contradiction].
Qed.

(** [ipfs_merkledag_get] of a hash without a record fails and changes
    nothing, whatever files there are. *)
Lemma merkledag_get_unknown h w c :
  datastore_get h (w_ds w) = None ->
  ipfs_merkledag_get path (Some h) (len h) c w = (Err (), w).
Proof.
  intros H. unfold ipfs_merkledag_get, in_datastore, mbind at 1, io_bind, look.
  rewrite mem_read_all. cbn [mbind cres_bind]. rewrite H. reflexivity.
Qed.
End Properties.

(** * Concrete runs *)

Lemma sample_node_savable : node_savable sample_node.
Proof.
  constructor; [exact sample_node_wf | vm_compute; reflexivity | left; discriminate | exact I].
Qed.

Lemma merkledag_add_get_witness :
  exists n' written w' g,
    ipfs_merkledag_add (str "/repo") sample_node sample_world = (Ok (n', written), w') /\
    ipfs_merkledag_get (str "/repo") (Some (node_hash sample_node)) 32 true w' = (Ok g, w') /\
    node_value g = node_value sample_node.
Proof.
  destruct (merkledag_add_get (str "/repo") sample_node sample_world true)
    as (n' & written & w' & g & Ha & _ & _ & Hg & Hv & _).
  - exact sample_node_savable.
  - constructor; [split; [reflexivity | vm_compute; discriminate] | vm_compute; discriminate | vm_compute; exact I].
  - exists n', written, w', g. auto.
Defined.
