(* ===== verification/Pin.v ===== *)
(** Pins: their modes and messages, and whether a node is below another one
    (src/pin/pin.c, src/datastore/key.c). *)

From S2P Require Import Prelude Libc Protobuf Libs Storage ProtobufRef LibsRef.
From S2P Require Import Errs Cid UnixFS MerkleNode Block Blockstore Merkledag.

(** ** src/datastore/key.c *)

(** The text with its terminator is copied; [*actual_output_length] is never set. *)
Definition ipfs_datastore_key_new (input : bytes) (max_output_length : Z) : cres unit bytes :=
  if max_output_length <? len input + 1 then Err () else Ok input.

(** ** Modes *)

Definition PinMode : Type := Z.
Definition Recursive : PinMode := 0.
Definition Direct : PinMode := 1.
Definition Indirect : PinMode := 2.
Definition Internal : PinMode := 3.
Definition NotPinned : PinMode := 4.
Definition Any : PinMode := 5.
Definition All : PinMode := 6.

Definition ipfs_pin_linkmap : list bytes :=
  [str "recursive"; str "direct"; str "indirect"; str "internal"; str "not pinned"; str "any";
   str "all"].

(** [None]: NULL. *)
Definition ipfs_pin_mode_to_string (mode : PinMode) : option bytes :=
  if (mode <? 0) || (len ipfs_pin_linkmap <=? mode) then None
  else ipfs_pin_linkmap !! Z.to_nat mode.

Fixpoint find_mode (l : list bytes) (pm : PinMode) (s : bytes) : PinMode :=
  match l with
  | [] => -1
  | m :: l => if str_eq m s then pm else find_mode l (pm + 1) s
  end.
Definition ipfs_string_to_pin_mode (s : bytes) : PinMode := find_mode ipfs_pin_linkmap 0 s.

(** [pin_via]: the CID the [Via] pointer leads to. *)
Record Pinned := MkPinned { pin_Key : option Cid; pin_Mode : PinMode; pin_Via : option Cid }.
Definition ipfs_pin_is_pinned (p : Pinned) : bool := negb (pin_Mode p =? NotPinned).

(** The bytes of the message in front of its terminator; [None]: NULL. *)
Definition ipfs_pin_pinned_msg (p : Pinned) : cres unit (option bytes) :=
  if pin_Mode p =? NotPinned then Ok (Some (str "not pinned"))
  else if pin_Mode p =? Indirect then
    match pin_Via p with
    | None => Undef
    | Some via =>
        h ← mem_read (cid_hash via) (cid_hash_length via);
        Ok (Some (str "pinned via " ++ h))
    end
  else Ok (option_map (fun m => str "pinned: " ++ m) (ipfs_pin_mode_to_string (pin_Mode p))).

(** ** Initialising *)

Section Init.
Context {PB : Protobuf}.

(** The global variables: the key of the pins and the CID of the empty node. *)
Record pin_globals := MkPinGlobals { pinDatastoreKey : option bytes; emptyKey : option Cid }.
Definition empty_hash : bytes := str "QmdfTbBqBPQ7VNxZEYEj14VmRuZBkqFbiwReogJgS1zR1n".

(** The value returned. The key's success, 1, is taken for an error; the text of the
    empty node is decoded as a protobuf. *)
Definition ipfs_pin_init (g : pin_globals) : cres unit (Z * pin_globals) :=
  match pinDatastoreKey g with
  | Some _ => Ok (0, g)
  | None =>
      match ipfs_datastore_key_new (str "/local/pins") 100 with
      | Ok _ => Ok (1, g)
      | Err _ =>
          match ipfs_cid_protobuf_decode empty_hash (len empty_hash) with
          | Ok cid => Ok (0, MkPinGlobals (Some []) cid)
          | Err _ => Ok (err_code ErrCidDecodeFailed, MkPinGlobals (Some []) (emptyKey g))
          | Undef => Undef
          | NoFuel => NoFuel
          end
      | Undef => Undef
      | NoFuel => NoFuel
      end
  end.
End Init.

(** ** Descendants *)

(** The sizes are the same and so is what is there. *)
Definition same_hash {E} (h : option bytes) (n : Z) (child : option bytes) (m : Z) : cres E bool :=
  if n =? m then
    a ← mem_read h m;
    b ← mem_read child m;
    Ok (bool_decide (a = b))
  else Ok false.

Section HasChild.
Context {PB : Protobuf} {MH : Multihash} {SH : Sha256} {B32 : Base32} {OS : OsUtils}.
Context {DS : Datastore}.
Context (path : bytes).

(** The loop over the links; [deeper]: the call on a link's hash. Links whose hash has
    another size than the child's are passed over. *)
Fixpoint browse_links (deeper : option bytes -> Z -> io unit bool) (dangling : bool)
  (child : option bytes) (child_size : Z) (links : list NodeLink) : io unit bool :=
  match links with
  | [] => if dangling then lift Undef else mret false
  | l :: links =>
      if nl_hash_size l =? child_size then
        same ← lift (same_hash (nl_hash l) (nl_hash_size l) child child_size);
        if (same : bool) then mret true
        else
          found ← deeper (nl_hash l) (nl_hash_size l);
          if (found : bool) then mret true
          else browse_links deeper dangling child child_size links
      else browse_links deeper dangling child child_size links
  end.

(** [fuel]: the depth of the calls. The local node is not initialised. *)
Fixpoint ipfs_pin_has_child (fuel : nat) (child : option bytes) (child_size : Z)
  (hash : option bytes) (hash_size : Z) : io unit bool :=
  match fuel with
  | O => lift NoFuel
  | S fuel =>
      node ← attempt (ipfs_merkledag_get path hash hash_size false);
      match node with
      | inr _ => mret false
      | inl node =>
          same ← lift (same_hash (nd_hash node) (nd_hash_size node) child child_size);
          if (same : bool) then mret true
          else browse_links (ipfs_pin_has_child fuel child child_size) (nd_dangling node)
                 child child_size (nd_links node)
      end
  end.
End HasChild.

(** * Properties *)

(** The modes and their texts. *)
Lemma pin_mode_text m :
  ipfs_pin_mode_to_string m = (if decide (0 <= m < 7) then ipfs_pin_linkmap !! Z.to_nat m else None) /\
  forall s, ipfs_pin_mode_to_string m = Some s -> ipfs_string_to_pin_mode s = m.
Proof.
  unfold ipfs_pin_mode_to_string. change (len ipfs_pin_linkmap) with 7.
  destruct (decide (0 <= m < 7)) as [Hm | Hm].
  - replace ((m <? 0) || (7 <=? m)) with false by (symmetry; apply orb_false_iff; lia).
    split; [reflexivity |]. intros s Hs.
    assert (Hc : m = 0 \/ m = 1 \/ m = 2 \/ m = 3 \/ m = 4 \/ m = 5 \/ m = 6) by lia.
    destruct Hc as [-> | [-> | [-> | [-> | [-> | [-> | ->]]]]]]; injection Hs as <-; reflexivity.
  - replace ((m <? 0) || (7 <=? m)) with true by (symmetry; apply orb_true_iff; lia).
    split; [reflexivity | discriminate].
Qed.

(** Nothing is ever initialised: the key is freed again and 1 is returned. *)
Lemma pin_init_fails {PB : Protobuf} g :
  pinDatastoreKey g = None -> ipfs_pin_init g = Ok (err_code ErrAllocFailed, g).
Proof. intros H. unfold ipfs_pin_init. rewrite H. reflexivity. Qed.

Lemma pin_same_hash {E} a b :
  len a = len b -> @same_hash E (Some a) (len a) (Some b) (len b) = Ok (bool_decide (a = b)).
Proof.
  intros H. unfold same_hash. rewrite H, Z.eqb_refl.
  rewrite (mem_read_len a), mem_read_all by congruence. reflexivity.
Qed.

Section Descendants.
Context {PB : Protobuf} {MH : Multihash} {SH : Sha256} {B32 : Base32} {OS : OsUtils}.
Context {DS : Datastore}.
Context (path : bytes) (w : World).

(** The node found under a hash. *)
Definition loads (h : bytes) (n : HashtableNode) : Prop :=
  ipfs_merkledag_get path (Some h) (len h) false w = (Ok n, w).

(** From the hash [h] the hash [c] is reached over the links of the nodes found. *)
Inductive reaches : bytes -> bytes -> Prop :=
| reaches_self h n : loads h n -> reaches h h
| reaches_direct h n l c :
    loads h n -> l ∈ nd_links n -> nl_hash l = Some c -> reaches h c
| reaches_deep h n l h1 c :
    loads h n -> l ∈ nd_links n -> nl_hash l = Some h1 -> reaches h1 c -> reaches h c.

(** Everything below [h] is in the repository, and it is no deeper than [d]. *)
Fixpoint closed (d : nat) (h : bytes) : Prop :=
  match d with
  | O => False
  | S d =>
      len h = 32 /\ exists n, loads h n /\ nd_hash n = Some h /\ nd_hash_size n = 32 /\
        nd_dangling n = false /\
        Forall (fun l => exists h1, nl_hash l = Some h1 /\ nl_hash_size l = 32 /\ closed d h1)
          (nd_links n)
  end.

Lemma closed_len d h : closed d h -> len h = 32.
Proof. destruct d; [contradiction | intros [H _]; exact H]. Qed.

Lemma loads_det h n m : loads h n -> loads h m -> n = m.
Proof. unfold loads. congruence. Qed.

(** The loop, when the calls on the links answer. *)
Lemma browse_ok d c (P : bytes -> bool) links deeper :
  len c = 32 ->
  Forall (fun l => exists h1, nl_hash l = Some h1 /\ nl_hash_size l = 32 /\ closed d h1) links ->
  (forall h, closed d h -> deeper (Some h) 32 w = (Ok (P h), w)) ->
  browse_links deeper false (Some c) 32 links w =
  (Ok (existsb (fun l => let h := default [] (nl_hash l) in bool_decide (h = c) || P h) links), w).
Proof.
  intros Hc Hl Hd. induction Hl as [| l links (h & Hh & Hs & Hcl) _ IH]; [reflexivity |].
  cbn [browse_links existsb]. rewrite Hs, Hh. cbn [Z.eqb Pos.eqb]. cbv zeta.
  change (default [] (Some h)) with h.
  pose proof (closed_len _ _ Hcl) as Hlen.
  pose proof (@pin_same_hash unit h c ltac:(congruence)) as E. rewrite Hlen, Hc in E.
  rewrite (io_bind_ok _ _ w (bool_decide (h = c)) w) by (unfold lift; by rewrite E).
  destruct (bool_decide (h = c)); [reflexivity |].
  rewrite (io_bind_ok _ _ w (P h) w) by (apply Hd, Hcl). destruct (P h); [reflexivity | exact IH].
Qed.

(** The answer as a function of the nodes found. *)
Fixpoint found (d : nat) (c h : bytes) : bool :=
  match d with
  | O => false
  | S d =>
      bool_decide (h = c) ||
      match fst (ipfs_merkledag_get path (Some h) (len h) false w) with
      | Ok n => existsb (fun l => let h := default [] (nl_hash l) in bool_decide (h = c) || found d c h) (nd_links n)
      | _ => false
      end
  end.

Lemma has_child_found d c h :
  len c = 32 -> closed d h ->
  ipfs_pin_has_child path d (Some c) 32 (Some h) 32 w = (Ok (found d c h), w).
Proof.
  intros Hc. revert h. induction d as [| d IH]; intros h; [contradiction |].
  intros (Hl & n & Hn & Hh & Hs & Hd & Hf). cbn [ipfs_pin_has_child found].
  unfold loads in Hn. rewrite Hn. cbn [fst]. rewrite Hl in Hn.
  rewrite (io_bind_ok _ _ w (inl n) w) by (unfold attempt; by rewrite Hn).
  pose proof (@pin_same_hash unit h c ltac:(congruence)) as E. rewrite Hl, Hc in E.
  rewrite Hh, Hs, (io_bind_ok _ _ w (bool_decide (h = c)) w) by (unfold lift; by rewrite E).
  destruct (bool_decide (h = c)); [reflexivity |]. cbn [orb]. rewrite Hd.
  apply (browse_ok d c (found d c)); [exact Hc | exact Hf | exact IH].
Qed.

Lemma found_reaches d c h : closed d h -> found d c h = true <-> reaches h c.
Proof.
  revert h. induction d as [| d IH]; intros h; [contradiction |].
  intros (Hl & n & Hn & _ & _ & _ & Hf). cbn [found]. pose proof Hn as Hget. unfold loads in Hget.
  rewrite Hget, orb_true_iff, bool_decide_eq_true. cbn [fst]. rewrite Forall_forall in Hf. split.
  - intros [-> | He]; [by apply (reaches_self c n) |].
    apply existsb_exists in He as (l & Hin & He). apply list_elem_of_In in Hin.
    destruct (Hf l Hin) as (h1 & Hh & _ & Hc). cbv zeta in He. rewrite Hh in He.
    change (default [] (Some h1)) with h1 in He.
    apply orb_true_iff in He as [He | He].
    + apply bool_decide_eq_true in He as ->. by apply (reaches_direct h n l).
    + apply (reaches_deep h n l h1); auto. by apply IH.
  - intros Hr. destruct Hr as [h m Hm | h m l c Hm Hin Hh | h m l h1 c Hm Hin Hh Hr]; [by left | right | right].
    + rewrite (loads_det h m n Hm Hn) in Hin. apply existsb_exists. exists l.
      split; [by apply list_elem_of_In |]. rewrite Hh. cbn. by rewrite bool_decide_eq_true_2.
    + rewrite (loads_det h m n Hm Hn) in Hin. apply existsb_exists. exists l.
      split; [by apply list_elem_of_In |]. rewrite Hh. apply orb_true_iff. right.
      change (default [] (Some h1)) with h1.
      destruct (Hf l Hin) as (h2 & Hh2 & _ & Hc). apply IH; [| exact Hr]. congruence.
Qed.
End Descendants.
