(* ===== verification/Routing.v ===== *)
(** Looking values up and announcing them, as the rest of the code does it
    through [struct IpfsRouting] (include/ipfs/routing/routing.h), with the
    offline implementation (src/routing/offline.c). *)

From S2P Require Import Prelude Libc Protobuf Libs Storage ProtobufRef LibsRef.
From S2P Require Import Cid UnixFS MerkleNode Block Blockstore Merkledag.

(** The two function pointers the importer and the exporter call. *)
Class Routing {DS : Datastore} := {
  rt_GetValue : option bytes -> Z -> io unit bytes;
  rt_Provide : option bytes -> Z -> io unit unit
}.

Section Offline.
Context {PB : Protobuf} {MH : Multihash} {SH : Sha256} {B32 : Base32} {B58 : Base58}.
Context {OS : OsUtils} {DS : Datastore}.
Context (path : bytes).

(** [local_node->mode == MODE_API_AVAILABLE], and what a post of a command, a
    subcommand and an argument to the API answers. *)
Context (mode_api_available : bool).
Context (ipfs_core_http_request_post : bytes -> bytes -> bytes -> option bytes).

Definition ipfs_routing_generic_get_value (key : option bytes) (key_size : Z)
  : io unit bytes :=
  if mode_api_available then
    buffer ← lift (ipfs_cid_hash_to_base58 key key_size 256);
    match ipfs_core_http_request_post (str "dht") (str "get") buffer with
    | None => fail ()
    | Some response => if 0 <? len response then mret response else fail ()
    end
  else
    node ← ipfs_merkledag_get path key key_size true;
    size ← lift (ipfs_hashtable_node_protobuf_encode_size node);
    let protobuf_size := i32 size in
    lift (on_err (ipfs_hashtable_node_protobuf_encode node (u64 protobuf_size)) ()).

(** Without the API nothing is announced. *)
Definition ipfs_routing_offline_provide (incoming_hash : option bytes)
  (incoming_hash_size : Z) : io unit unit :=
  if mode_api_available then
    buffer ← lift (ipfs_cid_hash_to_base58 incoming_hash incoming_hash_size 256);
    match ipfs_core_http_request_post (str "dht") (str "provide") buffer with
    | None => fail ()
    | Some _ => mret ()
    end
  else fail ().

Definition ipfs_routing_offline_find_peer : option bytes := None.
Definition ipfs_routing_offline_ping (ErrOffline : Z) : Z := ErrOffline.

(** The function pointers of [ipfs_routing_new_offline]. *)
Definition ipfs_routing_new_offline : Routing := {|
  rt_GetValue := ipfs_routing_generic_get_value;
  rt_Provide := ipfs_routing_offline_provide
|}.
End Offline.

(** * Properties *)

Section Facts.
Context {PB : Protobuf} {MH : Multihash} {SH : Sha256} {B32 : Base32} {B58 : Base58}.
Context {OS : OsUtils} {DS : Datastore}.
Context `{!ProtobufLaws PB} `{!MultihashLaws MH} `{!Sha256Laws SH} `{!Base32Laws B32}.
Context `{!OsUtilsLaws OS} `{!DatastoreLaws DS}.
Context (path : bytes) (http : bytes -> bytes -> bytes -> option bytes).

(** A loaded node encodes as the node it was saved from. *)
Lemma link_saved_wire l : link_wire (link_saved l) = link_wire l.
Proof.
  unfold link_wire, link_fields, link_saved, link_name at 1. cbn.
  rewrite c_str_id by apply link_name_cstring. reflexivity.
Qed.
Lemma node_saved_wire n : node_wf n -> node_wire (node_saved n) = node_wire n.
Proof.
  intros Hn. pose proof (node_saved_data n Hn) as Hd.
  unfold node_wire, node_fields. rewrite Hd. cbn [node_saved nd_links nd_data_size].
  rewrite map_map. do 2 f_equal. apply map_ext. intros l. rewrite link_saved_wire. reflexivity.
Qed.
Lemma node_saved_room n : node_room (node_saved n) = node_room n.
Proof.
  unfold node_room. cbn [node_saved nd_links nd_data_size]. rewrite map_map.
  f_equal. f_equal. apply map_ext. intros l. rewrite link_saved_room. reflexivity.
Qed.
Lemma loaded_wire n : node_wf n -> node_wire (loaded n) = node_wire n.
Proof. intros Hn. unfold loaded. rewrite with_hash_wire. apply node_saved_wire, Hn. Qed.

Lemma offline_get_value_absent h w :
  datastore_get h (w_ds w) = None ->
  ipfs_routing_generic_get_value path false http (Some h) (len h) w = (Err (), w).
Proof.
  intros H. unfold ipfs_routing_generic_get_value, mbind, io_bind.
  rewrite merkledag_get_unknown by assumption. reflexivity.
Qed.
Lemma offline_get_value_ok n w :
  node_savable n -> node_room n < 2 ^ 31 -> stored path n w ->
  ipfs_routing_generic_get_value path false http (Some (node_hash n)) 32 w =
    (Ok (node_wire n), w).
Proof.
  intros Hn Hr Hs. pose proof (node_hash_len n Hn) as Hl.
  pose proof (savable_wf n Hn) as Hw. pose proof (node_wire_bound n Hw) as Hb.
  pose proof (node_room_nonneg n Hw) as Hr0.
  assert (Hlw : node_wf (loaded n)) by (apply with_hash_wf, node_saved_wf, Hw).
  unfold ipfs_routing_generic_get_value.
  pose proof (merkledag_get_ok path n w true Hn Hs) as Hg. rewrite Hl in Hg.
  rewrite (io_bind_ok _ _ w _ w Hg). rewrite node_encode_size_eq by assumption.
  rewrite (io_bind_ok _ _ w (node_room n) w)
    by (unfold lift, loaded; rewrite <- (node_saved_room n); reflexivity).
  rewrite i32_small, u64_small by lia. unfold lift.
  rewrite node_encode_fields by (rewrite ?loaded_wire by assumption; assumption || lia).
  rewrite loaded_wire by assumption. reflexivity.
Qed.
End Facts.
