(* ===== verification/Importer.v ===== *)
(** Importing files and directories (src/importer/importer.c): a file is cut in
    chunks, each chunk a node, the file a node with links to them. *)

From S2P Require Import Prelude Libc Protobuf Libs Storage ProtobufRef LibsRef.
From S2P Require Import Cid UnixFS MerkleNode Block Blockstore Merkledag Routing.

Definition MAX_DATA_SIZE : Z := 262144.

(** What the operating system reports for a name: a directory with its entries,
    a file, or something that cannot be opened. *)
#[warnings="-register-all"]
Inductive entry :=
| Unreadable
| File (content : bytes)
| Directory (children : list (bytes * entry)).

Section Importer.
Context {PB : Protobuf} {MH : Multihash} {SH : Sha256} {B32 : Base32} {OS : OsUtils}.
Context {DS : Datastore} {RT : Routing}.
Context (path : bytes).

(** The structure a decoder leaves when its verdict is not looked at. *)
Definition decoded_anyway {E} (m : cres (option UnixFS) UnixFS) : cres E UnixFS :=
  match m with
  | Ok u => Ok u
  | Err (Some u) => Ok u
  | Err None => Undef
  | Undef => Undef
  | NoFuel => NoFuel
  end.

(** The bytes an encoder leaves when its verdict is not looked at. *)
Definition encoded_anyway {E} (m : cres bytes bytes) : cres E bytes :=
  match m with
  | Ok b => Ok b
  | Err b => Ok b
  | Undef => Undef
  | NoFuel => NoFuel
  end.

Definition add_file_size (u : UnixFS) (n : Z) : UnixFS :=
  MkUnixFS (ux_data_type u) (ux_bytes_size u) (ux_bytes u) (u64 (ux_file_size u + n))
    (ux_block_sizes u) (ux_hash u) (ux_hash_length u).

Definition ipfs_importer_add_filesize_to_data_section {E} (node : HashtableNode)
  (bytes_read : Z) : cres E HashtableNode :=
  data_section ←
    match nd_data node with
    | None => Ok (MkUnixFS UNIXFS_FILE 0 None 0 [] None 0)
    | Some _ =>
        data ← mem_read (nd_data node) (nd_data_size node);
        decoded_anyway (ipfs_unixfs_protobuf_decode data (nd_data_size node))
    end;
  let data_section := ipfs_unixfs_add_blocksize bytes_read data_section in
  let data_section := add_file_size data_section bytes_read in
  let protobuf_size := ipfs_unixfs_protobuf_encode_size data_section in
  protobuf ← encoded_anyway (ipfs_unixfs_protobuf_encode (Some data_section) protobuf_size);
  match ipfs_hashtable_node_set_data (Some node) (Some protobuf) (len protobuf) with
  | Ok node => Ok node
  | Err _ => Ok node
  | Undef => Undef
  | NoFuel => NoFuel
  end.

(** What a call of [ipfs_import_chunk] returns and leaves in its parameters. *)
Record chunk := MkChunk {
  ck_bytes_read : Z;
  ck_file : bytes;
  ck_parent : HashtableNode;
  ck_total_size : Z;
  ck_bytes_written : Z
}.

(** A new node of the data is saved and linked from the parent: the parent, the
    total size and the size of the node, or nothing when a step failed. *)
Definition import_child (protobuf : bytes) (bytes_read : Z) (parent_node : HashtableNode)
  (total_size : Z) : io unit (option (HashtableNode * Z * Z)) :=
  match ipfs_hashtable_node_new_from_data (Some protobuf) (len protobuf) with
  | Ok new_node =>
      added ← attempt (ipfs_merkledag_add path new_node);
      match added with
      | inr None => lift Undef (* the dangling hash pointer is freed *)
      | inr (Some _) => mret None
      | inl (new_node, size_of_node) =>
          new_link ← lift (ipfs_node_link_create None (nd_hash new_node) (nd_hash_size new_node));
          let new_link := MkNodeLink (nl_hash_size new_link) (nl_hash new_link)
                            (nl_name new_link) size_of_node in
          parent_node ← lift (ipfs_hashtable_node_add_link parent_node new_link);
          parent_node ← lift (ipfs_importer_add_filesize_to_data_section parent_node bytes_read);
          mret (Some (parent_node, u64 (total_size + size_of_node), size_of_node))
      end
  | Err _ => mret None
  | Undef => lift Undef
  | NoFuel => lift NoFuel
  end.

(** [file] is what is left to read. *)
Definition ipfs_import_chunk (file : bytes) (parent_node : HashtableNode)
  (total_size bytes_written : Z) : io unit chunk :=
  let buffer := btake MAX_DATA_SIZE file in
  let bytes_read := len buffer in
  let file := bdrop MAX_DATA_SIZE file in
  let new_unixfs := MkUnixFS UNIXFS_FILE 0 None bytes_read [] None 0 in
  match ipfs_unixfs_add_data buffer bytes_read new_unixfs with
  | Ok new_unixfs =>
      let protobuf_size := ipfs_unixfs_protobuf_encode_size new_unixfs in
      if protobuf_size =? 0 then mret (MkChunk 0 file parent_node total_size bytes_written)
      else
        match ipfs_unixfs_protobuf_encode (Some new_unixfs) protobuf_size with
        | Ok protobuf =>
            if bytes_read =? MAX_DATA_SIZE then
              child ← import_child protobuf bytes_read parent_node total_size;
              match child with
              | None => mret (MkChunk 0 file parent_node total_size (len protobuf))
              | Some (parent_node, total_size, size_of_node) =>
                  mret (MkChunk bytes_read file parent_node total_size size_of_node)
              end
            else
              child ← (if bool_decide (nd_links parent_node = []) && negb (nd_dangling parent_node)
                       then
                         match ipfs_hashtable_node_set_data (Some parent_node) (Some protobuf)
                                 (len protobuf) with
                         | Ok parent_node => mret (Some (parent_node, total_size, 0))
                         | Err _ => mret (Some (parent_node, total_size, 0))
                         | Undef => lift Undef
                         | NoFuel => lift NoFuel
                         end
                       else import_child protobuf bytes_read parent_node total_size);
              match child with
              | None => mret (MkChunk 0 file parent_node total_size (len protobuf))
              | Some (parent_node, total_size, size_of_node) =>
                  added ← attempt (ipfs_merkledag_add path parent_node);
                  match added with
                  | inl (parent_node, written) =>
                      mret (MkChunk bytes_read file parent_node total_size
                              (u64 (written + size_of_node)))
                  | inr (Some (parent_node, stored)) =>
                      mret (MkChunk bytes_read file parent_node total_size
                              (u64 (default (len protobuf) stored + size_of_node)))
                  | inr None => lift Undef (* the parent's hash pointer dangles *)
                  end
              end
        | Err written => mret (MkChunk 0 file parent_node total_size (len written))
        | Undef => lift Undef
        | NoFuel => lift NoFuel
        end
  | Err _ => lift Undef (* the data is freed twice *)
  | Undef => lift Undef
  | NoFuel => lift NoFuel
  end.

(** [while (bytes_read == MAX_DATA_SIZE)]: the parent and the bytes written. *)
Fixpoint import_chunks (fuel : nat) (file : bytes) (parent_node : HashtableNode)
  (total_size bytes_written : Z) : io unit (HashtableNode * Z) :=
  match fuel with
  | O => lift NoFuel
  | S fuel =>
      ck ← ipfs_import_chunk file parent_node total_size 0;
      let bytes_written := u64 (bytes_written + ck_bytes_written ck) in
      if ck_bytes_read ck =? MAX_DATA_SIZE
      then import_chunks fuel (ck_file ck) (ck_parent ck) (ck_total_size ck) bytes_written
      else mret (ck_parent ck, bytes_written)
  end.

(** Chunks of a file, and one more for the read that ends the loop. *)
Definition import_fuel (file : bytes) : nat := S (Z.to_nat (len file / MAX_DATA_SIZE)).

(** The announcements at the end; their verdicts are not looked at. *)
Fixpoint provide_links (links : list NodeLink) : io unit unit :=
  match links with
  | [] => mret ()
  | nl :: links =>
      _ ← @attempt _ unit _ _ (rt_Provide (nl_hash nl) (nl_hash_size nl));
      provide_links links
  end.
Definition provide_node (htn : HashtableNode) : io unit unit :=
  _ ← @attempt _ unit _ _ (rt_Provide (nd_hash htn) (nd_hash_size htn));
  links ← lift (all_links htn);
  provide_links links.

(** [*parent_node] and [*bytes_written], which the caller sets before. What the
    function prints is left out. *)
Fixpoint ipfs_import_file (recursive : bool) (e : entry) (bytes_written : Z)
  : io unit (HashtableNode * Z) :=
  match e with
  | Unreadable => fail ()
  | File content =>
      r ← import_chunks (import_fuel content) content ipfs_hashtable_node_new 0 bytes_written;
      _ ← provide_node (fst r);
      mret r
  | Directory children =>
      parent_node ← lift ipfs_hashtable_node_create_directory;
      r ← (if recursive then
             (fix import_children (next : list (bytes * entry)) (parent_node : HashtableNode)
                (bytes_written : Z) : io unit (HashtableNode * Z) :=
                match next with
                | [] => mret (parent_node, bytes_written)
                | (file_name, e) :: next =>
                    '(file_node, bytes_written) ← ipfs_import_file recursive e 0;
                    file_node_link ← lift (ipfs_node_link_create (Some file_name)
                                             (nd_hash file_node) (nd_hash_size file_node));
                    let file_node_link := MkNodeLink (nl_hash_size file_node_link)
                      (nl_hash file_node_link) (nl_name file_node_link) bytes_written in
                    parent_node ← lift (ipfs_hashtable_node_add_link parent_node file_node_link);
                    import_children next parent_node bytes_written
                end) children parent_node bytes_written
           else mret (parent_node, bytes_written));
      let '(parent_node, bytes_written) := r in
      added ← attempt (ipfs_merkledag_add path parent_node);
      match added with
      | inl (parent_node, _) =>
          _ ← provide_node parent_node;
          mret (parent_node, bytes_written)
      | inr (Some (parent_node, _)) =>
          _ ← provide_node parent_node;
          mret (parent_node, bytes_written)
      | inr None => lift Undef
      end
  end.
End Importer.

(** * Properties *)

Section Facts.
Context {PB : Protobuf} {MH : Multihash} {SH : Sha256} {B32 : Base32} {OS : OsUtils}.
Context {DS : Datastore} {RT : Routing}.
Context `{!ProtobufLaws PB} `{!MultihashLaws MH} `{!Sha256Laws SH} `{!Base32Laws B32}.
Context `{!OsUtilsLaws OS} `{!DatastoreLaws DS}.
Context (path : bytes).

(** ** The nodes a file becomes *)

(** The UnixFS structure of a chunk, and of a file of chunks of given sizes. *)
Definition leaf_unixfs (d : bytes) : UnixFS :=
  MkUnixFS UNIXFS_FILE (len d) (Some d) (len d) [] None 0.
Definition branch_unixfs (sizes : list Z) : UnixFS :=
  MkUnixFS UNIXFS_FILE 0 None (sum sizes) sizes None 0.
Definition unixfs_wire (u : UnixFS) : bytes := wire_msg (unixfs_fields u).

Definition data_node (d : bytes) (links : list NodeLink) : HashtableNode :=
  MkNode (len d) (Some d) links false None None 0.
Definition leaf_node (d : bytes) : HashtableNode := data_node (unixfs_wire (leaf_unixfs d)) [].
Definition leaf_link (d : bytes) : NodeLink :=
  MkNodeLink 32 (Some (node_hash (leaf_node d))) None
    (len (block_wire (node_block (leaf_node d)))).
Definition branch_node (ds : list bytes) : HashtableNode :=
  data_node (unixfs_wire (branch_unixfs (map len ds))) (map leaf_link ds).

(** The bytes a saved node takes. *)
Definition node_written (n : HashtableNode) : Z := len (block_wire (node_block n)).

(** The parent while chunks [ds] have been linked. *)
Definition partial_node (ds : list bytes) : HashtableNode :=
  match ds with [] => ipfs_hashtable_node_new | _ => branch_node ds end.

(** The node of a file cut in full chunks [cs] and a last shorter one. *)
Definition file_node (cs : list bytes) (last : bytes) : HashtableNode :=
  match cs with [] => leaf_node last | _ => branch_node (cs ++ [last]) end.

(** ** Sizes *)

Lemma leaf_unixfs_wf d : len d <= MAX_DATA_SIZE -> unixfs_wf (leaf_unixfs d).
Proof.
  unfold MAX_DATA_SIZE. intros Hd. pose proof (len_nonneg d).
  constructor; cbn; auto; unfold UNIXFS_FILE; len_nils; try lia.
Qed.

Lemma sum_bounds l : Forall (fun n => 0 <= n <= MAX_DATA_SIZE) l -> 0 <= sum l <= MAX_DATA_SIZE * len l.
Proof.
  induction 1 as [| n l Hn _ IH]; [vm_compute; split; discriminate |].
  cbn [sum fold_right]. fold (sum l). rewrite len_cons. lia.
Qed.
Lemma sum_app a b : sum (a ++ b) = sum a + sum b.
Proof. induction a as [| n a IH]; cbn; [reflexivity |]. fold (sum (a ++ b)) (sum a). lia. Qed.

(** How many chunks a file may have: 2^24 of them make 2^42 bytes. *)
Definition chunks_ok (ds : list bytes) : Prop :=
  Forall (fun d => len d <= MAX_DATA_SIZE) ds /\ len ds <= 2 ^ 24 + 1.

Lemma chunks_sizes (ds : list bytes) :
  Forall (fun d => len d <= MAX_DATA_SIZE) ds ->
  Forall (fun n => 0 <= n <= MAX_DATA_SIZE) (map len ds).
Proof.
  intros H. apply Forall_map. eapply Forall_impl; [exact H |]. cbn. intros d Hd.
  pose proof (len_nonneg d). lia.
Qed.

Lemma branch_unixfs_wf ds : chunks_ok ds -> unixfs_wf (branch_unixfs (map len ds)).
Proof.
  intros [Hd Hn]. pose proof (sum_bounds _ (chunks_sizes ds Hd)) as Hs.
  pose proof (len_nonneg ds). rewrite len_map in Hs. unfold MAX_DATA_SIZE in Hs.
  constructor; cbn; unfold UNIXFS_FILE; rewrite ?len_map; try lia.
  - reflexivity.
  - eapply Forall_impl; [exact (chunks_sizes ds Hd) |]. unfold MAX_DATA_SIZE. cbn. lia.
Qed.

Lemma unixfs_wire_bound u :
  unixfs_wf u -> 2 <= len (unixfs_wire u) <= ux_bytes_size u + 24 + 11 * len (ux_block_sizes u).
Proof.
  intros Hu. split; [| apply unixfs_fields_bound, Hu].
  destruct Hu as [Ht _ _ _ _]. unfold unixfs_wire, unixfs_fields.
  rewrite wire_msg_app, len_app, wire_msg_cons, len_app, len_varint_field, varint_size_1 by lia.
  len_lia.
Qed.
Lemma unixfs_encode_wire u :
  unixfs_wf u ->
  ipfs_unixfs_protobuf_encode (Some u) (ipfs_unixfs_protobuf_encode_size u) = Ok (unixfs_wire u).
Proof.
  intros Hu. pose proof (unixfs_wf_room u Hu). pose proof (unixfs_fields_bound u Hu).
  pose proof (len_nonneg (ux_block_sizes u)).
  rewrite encode_size_eq by assumption. apply unixfs_encode_fields; auto; lia.
Qed.
Lemma unixfs_decode_wire u :
  unixfs_wf u -> ipfs_unixfs_protobuf_decode (unixfs_wire u) (len (unixfs_wire u)) = Ok (unixfs_saved u).
Proof. apply unixfs_decode_fields. Qed.

Lemma leaf_node_savable d :
  len d <= MAX_DATA_SIZE -> node_savable (leaf_node d) /\ node_room (leaf_node d) <= 2 ^ 20.
Proof.
  intros Hd. pose proof (unixfs_wire_bound _ (leaf_unixfs_wf d Hd)) as Hb.
  change (ux_bytes_size (leaf_unixfs d)) with (len d) in Hb.
  change (ux_block_sizes (leaf_unixfs d)) with (@nil Z) in Hb. len_nils.
  unfold MAX_DATA_SIZE in Hd.
  assert (Hr : node_room (leaf_node d) <= 2 ^ 20).
  { unfold node_room, leaf_node, data_node. cbn [nd_links nd_data_size map].
    change (sum []) with 0. case_match; lia. }
  split; [| exact Hr].
  constructor; [| lia | right; cbn [nd_data_size leaf_node data_node]; lia | exact I].
  constructor; [reflexivity | reflexivity | constructor | lia].
Qed.

Lemma leaf_link_wf d :
  len d <= MAX_DATA_SIZE -> link_wf (leaf_link d) /\ link_room (leaf_link d) <= 65.
Proof.
  intros Hd. destruct (leaf_node_savable d Hd) as [Hs Hr].
  pose proof (node_hash_len _ Hs) as Hl. pose proof (node_block_wf _ Hs) as Hbw.
  pose proof (block_wire_bound _ Hbw). pose proof (block_room_range _ Hbw).
  split.
  - constructor.
    + change (32 = len (node_hash (leaf_node d))). lia.
    + cbn [nl_hash_size leaf_link]. lia.
    + exact I.
    + cbn [nl_t_size leaf_link]. split; [apply len_nonneg | lia].
  - unfold link_room. change (link_name (leaf_link d)) with (@nil byte). len_nils.
    cbn [nl_hash_size leaf_link]. repeat case_match; lia.
Qed.

Lemma links_room ds :
  Forall (fun d => len d <= MAX_DATA_SIZE) ds ->
  0 <= sum (map (fun l => 11 + link_room l) (map leaf_link ds)) <= 76 * len ds.
Proof.
  induction 1 as [| d ds Hd _ IH]; [vm_compute; split; discriminate |].
  cbn [map sum fold_right]. fold (sum (map (fun l => 11 + link_room l) (map leaf_link ds))).
  destruct (leaf_link_wf d Hd) as [Hw Hr]. pose proof (link_room_pos _ Hw). rewrite len_cons. lia.
Qed.

Lemma branch_node_savable ds :
  chunks_ok ds -> node_savable (branch_node ds) /\ node_room (branch_node ds) < 2 ^ 31.
Proof.
  intros Hok. pose proof (unixfs_wire_bound _ (branch_unixfs_wf ds Hok)) as Hb.
  change (ux_bytes_size (branch_unixfs (map len ds))) with 0 in Hb.
  change (ux_block_sizes (branch_unixfs (map len ds))) with (map len ds) in Hb.
  rewrite len_map in Hb.
  destruct Hok as [Hd Hn]. pose proof (links_room ds Hd). pose proof (len_nonneg ds).
  assert (Hr : node_room (branch_node ds) < 2 ^ 31).
  { unfold node_room, branch_node, data_node. cbn [nd_links nd_data_size]. case_match; lia. }
  split; [| exact Hr].
  constructor; [| lia | right; cbn [nd_data_size branch_node data_node]; lia | exact I].
  constructor; [reflexivity | reflexivity | | lia].
  cbn. apply Forall_map. eapply Forall_impl; [exact Hd |]. intros d H'. apply leaf_link_wf, H'.
Qed.

(** ** One step at a time *)

Lemma add_filesize_step ds d :
  chunks_ok (ds ++ [d]) ->
  forall links,
  @ipfs_importer_add_filesize_to_data_section PB unit
    (set_links (partial_node ds) links false) (len d) =
  Ok (data_node (unixfs_wire (branch_unixfs (map len (ds ++ [d])))) links).
Proof.
  intros Hok links. pose proof (branch_unixfs_wf _ Hok) as Hwf.
  assert (Hds : chunks_ok ds).
  { destruct Hok as [H1 H2]. apply Forall_app in H1 as [H1 _]. split; [exact H1 |].
    rewrite len_app in H2. pose proof (len_nonneg [d]). lia. }
  assert (Hstep : add_file_size (ipfs_unixfs_add_blocksize (len d) (branch_unixfs (map len ds))) (len d)
                  = branch_unixfs (map len (ds ++ [d]))).
  { rewrite add_blocksize_app, map_app. unfold add_file_size, branch_unixfs, set_block_sizes.
    cbn. rewrite sum_app. cbn [sum fold_right]. rewrite Z.add_0_r, u64_small; [reflexivity |].
    pose proof (sum_bounds _ (chunks_sizes ds (proj1 Hds))) as Hs. rewrite len_map in Hs.
    pose proof (len_nonneg ds). destruct Hok as [H1 H2]. apply Forall_app in H1 as [_ H1].
    apply Forall_inv in H1. pose proof (len_nonneg d).
    destruct Hds. unfold MAX_DATA_SIZE in *. lia. }
  unfold ipfs_importer_add_filesize_to_data_section.
  assert (Hstart : match nd_data (set_links (partial_node ds) links false) with
    | None => Ok (MkUnixFS UNIXFS_FILE 0 None 0 [] None 0)
    | Some _ =>
        data ← mem_read (nd_data (set_links (partial_node ds) links false))
                 (nd_data_size (set_links (partial_node ds) links false));
        decoded_anyway (ipfs_unixfs_protobuf_decode data
          (nd_data_size (set_links (partial_node ds) links false)))
    end = @Ok unit _ (branch_unixfs (map len ds))).
  { destruct ds as [| d0 ds]; [reflexivity |].
    cbn [partial_node branch_node data_node set_links nd_data nd_data_size].
    rewrite mem_read_all. cbn [mbind cres_bind].
    rewrite (unixfs_decode_wire _ (branch_unixfs_wf _ Hds)). reflexivity. }
  rewrite Hstart. cbn [mbind cres_bind]. rewrite Hstep, (unixfs_encode_wire _ Hwf).
  cbn [encoded_anyway mbind cres_bind]. unfold ipfs_hashtable_node_set_data.
  rewrite mem_read_all. cbn [mbind cres_bind]. destruct ds; reflexivity.
Qed.

(** A state that takes everything an import writes. *)
Record roomy (w : World) : Prop := {
  roomy_files : forall h, fs_writable (w_fs w) (hash_file path h) = true;
  roomy_room : 2 ^ 32 <= fs_room (w_fs w);
  roomy_key : @enc_encode_size base32 32 <= 100;
  roomy_ready : ds_ready (w_ds w)
}.

Lemma roomy_can_store n w :
  node_savable n -> node_room n < 2 ^ 31 -> roomy w -> can_store path n w.
Proof.
  intros Hn Hr [Hf Hm Hk Hd]. constructor; auto. split; [apply Hf |].
  pose proof (node_block_wf n Hn) as Hb. pose proof (block_wire_bound _ Hb).
  pose proof (node_wire_bound n (savable_wf n Hn)).
  assert (block_room (node_block n) <= 2 ^ 32); [| lia].
  unfold block_room, node_block. cbn [bl_cid bl_data_length ipfs_cid_protobuf_encode_size cid_hash_length].
  rewrite u64_small by lia. lia.
Qed.

(** No two of the byte strings have the same digest. *)
Definition no_collision (l : list bytes) : Prop :=
  forall a b, a ∈ l -> b ∈ l ->
    libp2p_crypto_hashing_sha256 a = libp2p_crypto_hashing_sha256 b -> a = b.

Lemma node_hash_collision m n l :
  nd_hash m = None -> nd_hash n = None -> no_collision l ->
  node_wire m ∈ l -> node_wire n ∈ l -> node_hash m = node_hash n -> node_wire m = node_wire n.
Proof.
  unfold node_hash. intros -> -> Hc Hm Hn He. apply Hc; [assumption | assumption |].
  destruct (sha256_ok (node_wire m)) as (h & Hh & _), (sha256_ok (node_wire n)) as (h' & Hh' & _).
  rewrite Hh, Hh' in *. cbn in He. congruence.
Qed.

Definition add_wires (ds : list bytes) : list bytes := map (fun d => node_wire (leaf_node d)) ds.

(** What an import leaves behind: the stored nodes, and the files that hold no block. *)
Record keeps (l : list bytes) (w w' : World) : Prop := {
  keeps_stored m : nd_hash m = None -> node_wire m ∈ l -> stored path m w -> stored path m w';
  keeps_files p : (forall h, len h = 32 -> p <> hash_file path h) -> fs_files (w_fs w') !! p = fs_files (w_fs w) !! p
}.
Lemma keeps_trans l w1 w2 w3 : keeps l w1 w2 -> keeps l w2 w3 -> keeps l w1 w3.
Proof.
  intros [H1 F1] [H2 F2]. split; [eauto |]. intros p Hp. rewrite F2, F1 by assumption. reflexivity.
Qed.

(** Adding a node without a hash: it and what was there are stored afterwards. *)
Lemma add_step n l w :
  node_savable n -> node_room n < 2 ^ 31 -> nd_hash n = None -> roomy w ->
  no_collision l -> node_wire n ∈ l ->
  exists w', ipfs_merkledag_add path n w =
      (Ok (with_hash n (node_hash n), len (block_wire (node_block n))), w') /\
    stored path n w' /\ roomy w' /\ keeps l w w'.
Proof.
  intros Hn Hr Hh Hw Hc Hin.
  destruct (merkledag_add_ok path n w Hn (roomy_can_store n w Hn Hr Hw))
    as (w' & Ha & Hs & Hd & Hf & Hm & Ho & Hfiles).
  exists w'. assert (Hhashed : hashed n = with_hash n (node_hash n)) by (unfold hashed; rewrite Hh; reflexivity).
  rewrite Hhashed in Ha. split; [exact Ha |]. split; [exact Hs |]. split.
  - destruct Hw as [H1 H2 H3 H4]. constructor; rewrite ?Hf, ?Hm; auto.
  - split; [| exact Hfiles]. intros m Hmh Hmin Hms. apply Ho; [exact Hms |]. eauto using node_hash_collision.
Qed.

Lemma import_child_step ds d l w total :
  chunks_ok (ds ++ [d]) -> roomy w -> no_collision l -> node_wire (leaf_node d) ∈ l ->
  exists w' total', import_child path (unixfs_wire (leaf_unixfs d)) (len d) (partial_node ds) total w =
      (Ok (Some (branch_node (ds ++ [d]), total', len (block_wire (node_block (leaf_node d))))), w') /\
    stored path (leaf_node d) w' /\ roomy w' /\ keeps l w w'.
Proof.
  intros Hok Hw Hc Hin.
  assert (Hd : len d <= MAX_DATA_SIZE).
  { destruct Hok as [H _]. apply Forall_app in H as [_ H]. apply Forall_inv in H. exact H. }
  destruct (leaf_node_savable d Hd) as [Hs Hr].
  destruct (add_step (leaf_node d) l w Hs ltac:(lia) eq_refl Hw Hc Hin) as (w' & Ha & Hst & Hw' & Ho).
  exists w'. eexists. split; [| auto].
  unfold import_child, ipfs_hashtable_node_new_from_data, ipfs_hashtable_node_set_data.
  rewrite mem_read_all. cbn [mbind cres_bind].
  change (MkNode (len (unixfs_wire (leaf_unixfs d))) (Some (unixfs_wire (leaf_unixfs d)))
    (nd_links ipfs_hashtable_node_new) (nd_dangling ipfs_hashtable_node_new)
    (nd_encoded ipfs_hashtable_node_new) (nd_hash ipfs_hashtable_node_new)
    (nd_hash_size ipfs_hashtable_node_new)) with (leaf_node d).
  unfold attempt at 1, mbind at 1, io_bind at 1. rewrite Ha.
  cbn [with_hash nd_hash nd_hash_size leaf_node data_node].
  pose proof (node_hash_len _ Hs) as Hl.
  unfold ipfs_node_link_create. rewrite (mem_read_len (node_hash (leaf_node d)) 32) by lia.
  cbn [mbind cres_bind]. rewrite (io_bind_ok _ _ w' _ w') by reflexivity. cbn zeta.
  cbn [nl_hash_size nl_hash nl_name].
  rewrite add_link_live by (destruct ds; reflexivity).
  rewrite (io_bind_ok _ _ w' _ w') by reflexivity.
  rewrite (add_filesize_step ds d Hok).
  rewrite (io_bind_ok _ _ w' _ w') by reflexivity.
  unfold mret, io_ret. do 2 f_equal. unfold branch_node.
  rewrite (map_app leaf_link). destruct ds; reflexivity.
Qed.

(** ** One chunk *)

Lemma chunk_unixfs d :
  len d <= MAX_DATA_SIZE ->
  exists u, ipfs_unixfs_add_data d (len d) (MkUnixFS UNIXFS_FILE 0 None (len d) [] None 0) = Ok u /\
    (ipfs_unixfs_protobuf_encode_size u =? 0) = false /\
    ipfs_unixfs_protobuf_encode (Some u) (ipfs_unixfs_protobuf_encode_size u) =
      Ok (unixfs_wire (leaf_unixfs d)).
Proof.
  intros Hd. destruct (sha256_ok d) as (h & Hh & _).
  set (u := MkUnixFS UNIXFS_FILE (len d) (Some d) (len d) [] (Some h) 32).
  assert (Hu : unixfs_wf u) by (destruct (leaf_unixfs_wf d Hd); constructor; assumption).
  exists u. split; [| split].
  - unfold ipfs_unixfs_add_data. rewrite mem_read_all. cbn [mbind cres_bind]. rewrite Hh. reflexivity.
  - rewrite encode_size_eq by exact Hu. apply Z.eqb_neq.
    pose proof (len_nonneg d). change (ux_bytes_size u) with (len d).
    change (ux_block_sizes u) with (@nil Z). len_nils. lia.
  - rewrite unixfs_encode_wire by exact Hu. reflexivity.
Qed.

Lemma import_chunk_full ds c rest l w total written :
  len c = MAX_DATA_SIZE -> chunks_ok (ds ++ [c]) -> roomy w -> no_collision l ->
  node_wire (leaf_node c) ∈ l ->
  exists w' total',
    ipfs_import_chunk path (c ++ rest) (partial_node ds) total written w =
      (Ok (MkChunk MAX_DATA_SIZE rest (branch_node (ds ++ [c])) total'
             (node_written (leaf_node c))), w') /\
    stored path (leaf_node c) w' /\ roomy w' /\ keeps l w w'.
Proof.
  intros Hc Hok Hw Hl Hin.
  destruct (chunk_unixfs c ltac:(lia)) as (u & Hu & Hz & He).
  destruct (import_child_step ds c l w total Hok Hw Hl Hin) as (w' & total' & Hi & Hs & Hw' & Hk).
  exists w', total'. split; [| split; [exact Hs |]; split; [exact Hw' | exact Hk]].
  unfold ipfs_import_chunk. rewrite <- Hc, btake_app_len, bdrop_app_len, Hu, Hz, He, Z.eqb_refl.
  rewrite (io_bind_ok _ _ w _ w' Hi). reflexivity.
Qed.

Lemma file_node_savable cs last :
  chunks_ok (cs ++ [last]) ->
  node_savable (file_node cs last) /\ node_room (file_node cs last) < 2 ^ 31.
Proof.
  intros Hok. destruct cs as [| c cs]; [| apply branch_node_savable, Hok].
  destruct Hok as [H _]. apply Forall_inv in H.
  destruct (leaf_node_savable last H) as [Hs Hr]. split; [exact Hs | cbn [file_node]; lia].
Qed.
Lemma file_node_hash cs last : nd_hash (file_node cs last) = None.
Proof. destruct cs; reflexivity. Qed.

(** What the last chunk of a file writes: the node of the file and, behind
    others, its own. *)
Definition last_written (ds : list bytes) (last : bytes) : Z :=
  u64 (node_written (file_node ds last) + match ds with [] => 0 | _ => node_written (leaf_node last) end).

Lemma import_chunk_last ds last l w total written :
  len last < MAX_DATA_SIZE -> chunks_ok (ds ++ [last]) -> roomy w -> no_collision l ->
  node_wire (leaf_node last) ∈ l -> node_wire (file_node ds last) ∈ l ->
  exists w' total',
    ipfs_import_chunk path last (partial_node ds) total written w =
      (Ok (MkChunk (len last) [] (with_hash (file_node ds last) (node_hash (file_node ds last)))
             total' (last_written ds last)), w') /\
    stored path (leaf_node last) w' /\ stored path (file_node ds last) w' /\ roomy w' /\
    keeps l w w'.
Proof.
  intros Hc Hok Hw Hl Hin Hf.
  destruct (chunk_unixfs last ltac:(lia)) as (u & Hu & Hz & He).
  destruct (file_node_savable ds last Hok) as [Hfs Hfr].
  assert (Hstart : ipfs_import_chunk path last (partial_node ds) total written =
    (child ← (if bool_decide (nd_links (partial_node ds) = []) && negb (nd_dangling (partial_node ds))
       then mret (Some (leaf_node last, total, 0))
       else import_child path (unixfs_wire (leaf_unixfs last)) (len last) (partial_node ds) total);
     match child with
     | None => mret (MkChunk 0 [] (partial_node ds) total (len (unixfs_wire (leaf_unixfs last))))
     | Some (parent_node, total_size, size_of_node) =>
         added ← attempt (ipfs_merkledag_add path parent_node);
         match added with
         | inl (parent_node, written) =>
             mret (MkChunk (len last) [] parent_node total_size (u64 (written + size_of_node)))
         | inr (Some (parent_node, stored)) =>
             mret (MkChunk (len last) [] parent_node total_size
               (u64 (default (len (unixfs_wire (leaf_unixfs last))) stored + size_of_node)))
         | inr None => lift Undef
         end
     end)).
  { unfold ipfs_import_chunk. rewrite btake_all by lia. rewrite Hu, Hz, He.
    replace (len last =? MAX_DATA_SIZE) with false by lia.
    assert (Hdrop : bdrop MAX_DATA_SIZE last = []).
    { apply len_zero. rewrite len_bdrop by (unfold MAX_DATA_SIZE; lia). lia. }
    rewrite Hdrop. unfold ipfs_hashtable_node_set_data. rewrite mem_read_all. cbn [mbind cres_bind].
    destruct ds; reflexivity. }
  rewrite Hstart. destruct ds as [| d0 ds].
  - cbn [partial_node ipfs_hashtable_node_new nd_links nd_dangling].
    rewrite bool_decide_eq_true_2 by reflexivity. cbn [andb negb].
    rewrite (io_bind_ok _ _ w _ w) by reflexivity. cbn beta iota.
    destruct (add_step (leaf_node last) l w Hfs Hfr eq_refl Hw Hl Hin) as (w' & Ha & Hs & Hw' & Hk).
    exists w'. eexists. split; [| split; [exact Hs |]; split; [exact Hs |]; split; [exact Hw' | exact Hk]].
    unfold mbind, io_bind, attempt. rewrite Ha. reflexivity.
  - destruct (import_child_step (d0 :: ds) last l w total Hok Hw Hl Hin)
      as (w1 & total' & Hi & Hs & Hw1 & Hk1).
    rewrite bool_decide_eq_false_2 by discriminate. cbn [andb].
    rewrite (io_bind_ok _ _ w _ w1 Hi). cbn beta iota.
    destruct (add_step (file_node (d0 :: ds) last) l w1 Hfs Hfr eq_refl Hw1 Hl Hf)
      as (w' & Ha & Hsf & Hw' & Hk2).
    exists w'. eexists. split; [| split; [apply (keeps_stored _ _ _ Hk2); auto |]; split; [exact Hsf |];
      split; [exact Hw' | exact (keeps_trans l w w1 w' Hk1 Hk2)]].
    cbn [file_node] in Ha |- *. unfold mbind, io_bind, attempt. rewrite Ha. reflexivity.
Qed.

(** ** The loop *)

(** What the loop writes from the chunks [cs] on. *)
Fixpoint chunks_written (ds cs : list bytes) (last : bytes) (written : Z) : Z :=
  match cs with
  | [] => u64 (written + last_written ds last)
  | c :: cs => chunks_written (ds ++ [c]) cs last (u64 (written + node_written (leaf_node c)))
  end.

Lemma import_chunks_ok cs ds last l fuel w total written :
  Forall (fun c => len c = MAX_DATA_SIZE) cs -> len last < MAX_DATA_SIZE ->
  chunks_ok ((ds ++ cs) ++ [last]) -> roomy w -> no_collision l ->
  (forall d, d ∈ (ds ++ cs) ++ [last] -> node_wire (leaf_node d) ∈ l) ->
  node_wire (file_node (ds ++ cs) last) ∈ l ->
  (forall d, d ∈ ds -> stored path (leaf_node d) w) ->
  (length cs < fuel)%nat ->
  exists w',
    import_chunks path fuel (concat cs ++ last) (partial_node ds) total written w =
      (Ok (with_hash (file_node (ds ++ cs) last) (node_hash (file_node (ds ++ cs) last)),
           chunks_written ds cs last written), w') /\
    (forall d, d ∈ (ds ++ cs) ++ [last] -> stored path (leaf_node d) w') /\
    stored path (file_node (ds ++ cs) last) w' /\ roomy w' /\ keeps l w w'.
Proof.
  intros Hcs Hlast. revert ds fuel w total written.
  induction Hcs as [| c cs Hc Hcs IH]; intros ds fuel w total written Hok Hw Hl Hin Hf Hds Hfuel;
    (destruct fuel as [| fuel]; [cbn in Hfuel; lia |]); cbn [import_chunks concat app].
  - rewrite app_nil_r in *.
    destruct (import_chunk_last ds last l w total 0 Hlast Hok Hw Hl) as
      (w' & t' & Hi & Hs & Hsf & Hw' & Hk); [apply Hin, elem_of_app; set_solver | exact Hf |].
    rewrite (io_bind_ok _ _ w _ w' Hi). cbn [ck_bytes_read ck_parent ck_bytes_written].
    replace (len last =? MAX_DATA_SIZE) with false by lia.
    exists w'. split; [reflexivity |]. split; [| auto].
    intros d [Hd | Hd]%elem_of_app; [| apply list_elem_of_singleton in Hd as ->; exact Hs].
    apply (keeps_stored _ _ _ Hk); [reflexivity | apply Hin, elem_of_app; auto | auto].
  - rewrite <- app_assoc. change (ds ++ c :: cs) with (ds ++ ([c] ++ cs)) in *.
    rewrite (app_assoc ds [c] cs) in *.
    assert (Hokc : chunks_ok (ds ++ [c])).
    { destruct Hok as [H1 H2]. rewrite !Forall_app in H1. rewrite !len_app in H2.
      destruct H1 as [[H1 _] _]. pose proof (len_nonneg cs). pose proof (len_nonneg [last]).
      split; [rewrite Forall_app; exact H1 | rewrite len_app; lia]. }
    destruct (import_chunk_full ds c (concat cs ++ last) l w total 0 Hc Hokc Hw Hl)
      as (w1 & t1 & Hi & Hs & Hw1 & Hk); [apply Hin; set_solver |].
    rewrite (io_bind_ok _ _ w _ w1 Hi). cbn [ck_bytes_read ck_file ck_parent ck_total_size ck_bytes_written].
    rewrite Z.eqb_refl.
    replace (branch_node (ds ++ [c])) with (partial_node (ds ++ [c])) by (destruct ds; reflexivity).
    destruct (IH (ds ++ [c]) fuel w1 t1 (u64 (written + node_written (leaf_node c))))
      as (w' & Hr & Hd & Hst & Hw' & Hk'); try assumption; [| cbn in Hfuel; lia |].
    2: { exists w'. split; [exact Hr |]. split; [exact Hd |]. split; [exact Hst |].
         split; [exact Hw' | exact (keeps_trans l w w1 w' Hk Hk')]. }
    intros d [Hd | Hd]%elem_of_app; [| apply list_elem_of_singleton in Hd as ->; exact Hs].
    apply (keeps_stored _ _ _ Hk); [reflexivity | apply Hin; set_solver | auto].
Qed.

(** A file is full chunks and a shorter one. *)
Fixpoint cut (fuel : nat) (f : bytes) : list bytes * bytes :=
  match fuel with
  | O => ([], f)
  | S fuel =>
      if len f <? MAX_DATA_SIZE then ([], f)
      else let '(cs, last) := cut fuel (bdrop MAX_DATA_SIZE f) in (btake MAX_DATA_SIZE f :: cs, last)
  end.
Definition file_chunks (f : bytes) : list bytes * bytes := cut (import_fuel f) f.

Lemma cut_spec fuel f :
  len f / MAX_DATA_SIZE < Z.of_nat fuel ->
  let '(cs, last) := cut fuel f in
  f = concat cs ++ last /\ Forall (fun c => len c = MAX_DATA_SIZE) cs /\
  len last < MAX_DATA_SIZE /\ len cs = len f / MAX_DATA_SIZE.
Proof.
  unfold MAX_DATA_SIZE. revert f. induction fuel as [| fuel IH]; intros f Hf.
  - pose proof (Z.div_pos (len f) 262144 (len_nonneg f) ltac:(lia)). lia.
  - cbn [cut]. unfold MAX_DATA_SIZE. pose proof (len_nonneg f).
    destruct (len f <? 262144) eqn:Hs.
    + rewrite Z.div_small by lia. repeat split; [constructor | lia].
    + assert (Hd : len f / 262144 = len (bdrop 262144 f) / 262144 + 1).
      { rewrite len_bdrop, Z.max_r by lia.
        replace (len f) with (len f - 262144 + 1 * 262144) at 1 by lia.
        rewrite Z.div_add by lia. reflexivity. }
      specialize (IH (bdrop 262144 f) ltac:(lia)).
      destruct (cut fuel (bdrop 262144 f)) as [cs last]. destruct IH as (Hc & Hcs & Hl & Hn).
      cbn [concat]. rewrite <- app_assoc, <- Hc, btake_bdrop.
      split; [reflexivity |]. split; [constructor; [rewrite len_btake; lia | exact Hcs] |].
      split; [exact Hl |]. rewrite len_cons, Hn. lia.
Qed.

Lemma file_chunks_spec f :
  let '(cs, last) := file_chunks f in
  f = concat cs ++ last /\ Forall (fun c => len c = MAX_DATA_SIZE) cs /\
  len last < MAX_DATA_SIZE /\ len cs = len f / MAX_DATA_SIZE.
Proof.
  apply cut_spec. unfold import_fuel.
  pose proof (Z.div_pos (len f) MAX_DATA_SIZE (len_nonneg f) ltac:(unfold MAX_DATA_SIZE; lia)). lia.
Qed.

Lemma file_chunks_ok f :
  len f < 2 ^ 42 -> let '(cs, last) := file_chunks f in chunks_ok (cs ++ [last]).
Proof.
  intros Hf. pose proof (file_chunks_spec f) as H. destruct (file_chunks f) as [cs last].
  destruct H as (_ & Hcs & Hl & Hn). split.
  - apply Forall_app. split; [| constructor; [lia | constructor]].
    eapply Forall_impl; [exact Hcs |]. cbn. lia.
  - rewrite len_app. change (len [last]) with 1. rewrite Hn. unfold MAX_DATA_SIZE.
    assert (len f / 262144 <= 2 ^ 24); [| lia]. apply Z.div_le_upper_bound; lia.
Qed.

(** The node of a file, and the encodings of all nodes its import saves. *)
Definition file_root (f : bytes) : HashtableNode :=
  let '(cs, last) := file_chunks f in file_node cs last.
Definition file_wires (f : bytes) : list bytes :=
  let '(cs, last) := file_chunks f in
  node_wire (file_node cs last) :: map (fun d => node_wire (leaf_node d)) (cs ++ [last]).

(** What importing the file adds to the bytes written. *)
Definition file_written (f : bytes) (written : Z) : Z :=
  let '(cs, last) := file_chunks f in chunks_written [] cs last written.
(** The nodes its import saves. *)
Definition file_nodes (f : bytes) : list HashtableNode :=
  let '(cs, last) := file_chunks f in file_node cs last :: map leaf_node (cs ++ [last]).
Lemma file_wires_nodes f : file_wires f = map node_wire (file_nodes f).
Proof.
  unfold file_wires, file_nodes. destruct (file_chunks f). cbn [map]. rewrite map_map. reflexivity.
Qed.

Lemma import_chunks_file f l w written :
  len f < 2 ^ 42 -> roomy w -> no_collision l -> file_wires f ⊆ l ->
  exists w',
    import_chunks path (import_fuel f) f ipfs_hashtable_node_new 0 written w =
      (Ok (with_hash (file_root f) (node_hash (file_root f)), file_written f written), w') /\
    (forall n, n ∈ file_nodes f -> stored path n w') /\ roomy w' /\ keeps l w w'.
Proof.
  intros Hf Hw Hc Hin. unfold file_wires, file_root, file_written, file_nodes in *.
  pose proof (file_chunks_spec f) as H. pose proof (file_chunks_ok f Hf) as Hok.
  destruct (file_chunks f) as [cs last] eqn:E. destruct H as (Hcat & Hcs & Hl & Hn).
  replace (import_chunks path (import_fuel f) f) with
    (import_chunks path (import_fuel f) (concat cs ++ last)) by (rewrite <- Hcat; reflexivity).
  destruct (import_chunks_ok cs [] last l (import_fuel f) w 0 written Hcs Hl Hok Hw Hc)
    as (w' & Hi & Hd & Hr & Hw' & Hk).
  - intros d Hd. apply Hin, elem_of_cons. right. apply list_elem_of_fmap. exists d. auto.
  - apply Hin, elem_of_cons. auto.
  - intros d Hd. inversion Hd.
  - unfold import_fuel. rewrite <- Hn. unfold len. lia.
  - exists w'. split; [exact Hi |]. split; [| auto].
    intros n [-> | (d & -> & Hn')%list_elem_of_fmap]%elem_of_cons; auto.
Qed.

(** ** Announcing *)

(** Announcements that change nothing and whose verdict nobody looks at. *)
Definition quiet_routing : Prop :=
  forall h n w, rt_Provide h n w = (Ok (), w) \/ rt_Provide h n w = (Err (), w).

Lemma provide_links_quiet links w : quiet_routing -> provide_links links w = (Ok (), w).
Proof.
  intros Hq. induction links as [| nl links IH]; [reflexivity |]. cbn [provide_links].
  unfold mbind, io_bind, attempt.
  destruct (Hq (nl_hash nl) (nl_hash_size nl) w) as [-> | ->]; exact IH.
Qed.
Lemma provide_node_quiet n w :
  quiet_routing -> nd_dangling n = false -> provide_node n w = (Ok (), w).
Proof.
  intros Hq Hd. unfold provide_node.
  assert (Ha : exists r, @attempt _ unit unit _ (rt_Provide (nd_hash n) (nd_hash_size n)) w = (Ok r, w)).
  { unfold attempt. destruct (Hq (nd_hash n) (nd_hash_size n) w) as [-> | ->]; eauto. }
  destruct Ha as [r Ha]. rewrite (io_bind_ok _ _ w _ w Ha).
  assert (Hl : @lift _ unit _ (all_links n) w = (Ok (nd_links n), w))
    by (unfold lift, all_links; rewrite Hd; reflexivity).
  rewrite (io_bind_ok _ _ w _ w Hl).
  apply provide_links_quiet, Hq.
Qed.

Lemma file_root_live f : nd_dangling (file_root f) = false.
Proof. unfold file_root. destruct (file_chunks f) as [[| c cs] last]; reflexivity. Qed.

(** The whole import of a file. *)
Lemma import_file_ok f l recursive w written :
  quiet_routing -> len f < 2 ^ 42 -> roomy w -> no_collision l -> file_wires f ⊆ l ->
  exists w',
    ipfs_import_file path recursive (File f) written w =
      (Ok (with_hash (file_root f) (node_hash (file_root f)), file_written f written), w') /\
    (forall n, n ∈ file_nodes f -> stored path n w') /\ roomy w' /\ keeps l w w'.
Proof.
  intros Hq Hf Hw Hc Hin.
  destruct (import_chunks_file f l w written Hf Hw Hc Hin) as (w' & Hi & Hrest).
  exists w'. split; [| exact Hrest]. cbn [ipfs_import_file].
  rewrite (io_bind_ok _ _ w _ w' Hi). cbn [fst].
  rewrite (io_bind_ok _ _ w' () w') by (apply provide_node_quiet; [exact Hq | apply file_root_live]).
  reflexivity.
Qed.
End Facts.
