(* ===== verification/Exporter.v ===== *)
(** Getting files out (src/importer/exporter.c). *)

From S2P Require Import Prelude Libc Protobuf Libs Storage ProtobufRef LibsRef.
From S2P Require Import Cid UnixFS MerkleNode Block Blockstore Merkledag Routing Importer.

Section Exporter.
Context {PB : Protobuf} {MH : Multihash} {B58 : Base58} {DS : Datastore} {RT : Routing}.

(** [caller_node]: what the caller's [*result] holds is NULL or a node. *)
Definition ipfs_exporter_get_node (hash : option bytes) (hash_size : Z) (caller_node : bool)
  : io unit HashtableNode :=
  buffer ← rt_GetValue hash hash_size;
  result ← lift (ipfs_hashtable_node_protobuf_decode buffer (len buffer) caller_node);
  h ← lift (mem_read hash hash_size);
  mret (MkNode (nd_data_size result) (nd_data result) (nd_links result) (nd_dangling result)
          (nd_encoded result) (Some h) hash_size).

(** The error of the functions below is the stream as it was left. *)
Definition with_stream {A} (s : stream) (m : io unit A) : io stream A := fun w =>
  let '(r, w) := m w in (on_err r s, w).

(** The data of the UnixFS structure of a node, written to the stream. *)
Definition write_node_data (node : HashtableNode) (s : stream) : io stream stream :=
  data ← lift (mem_read (nd_data node) (nd_data_size node));
  unix_fs ← lift (decoded_anyway (ipfs_unixfs_protobuf_decode data (nd_data_size node)));
  b ← lift (mem_read (ux_bytes unix_fs) (ux_bytes_size unix_fs));
  let '(bytes_written, s) := fwrite b s in
  if bytes_written =? ux_bytes_size unix_fs then mret s else fail s.

(** The loop over the links. After the first round [link_node] is a freed node. *)
Fixpoint filestream_links (links : list NodeLink) (link_node : bool) (s : stream)
  : io stream stream :=
  match links with
  | [] => mret s
  | link :: links =>
      node ← with_stream s (ipfs_exporter_get_node (nl_hash link) (nl_hash_size link) link_node);
      s ← write_node_data node s;
      filestream_links links false s
  end.

Definition ipfs_exporter_to_filestream (hash : bytes) (s : stream) : io stream stream :=
  cid ← lift (on_err (ipfs_cid_decode_hash_from_base58 (c_str hash) (strlen hash)) s);
  read_node ← with_stream s (ipfs_exporter_get_node (cid_hash cid) (cid_hash_length cid) true);
  if bool_decide (nd_links read_node = []) && negb (nd_dangling read_node) then
    write_node_data read_node s
  else
    links ← lift (all_links read_node);
    filestream_links links true s.

(** [file]: the stream [fopen(file_name, "wb")] gives, if it opens. *)
Definition ipfs_exporter_to_file (hash : bytes) (file : option stream)
  : io (option stream) stream :=
  match file with
  | None => fail None
  | Some s => fun w => match ipfs_exporter_to_filestream hash s w with
                       | (Ok s, w) => (Ok s, w)
                       | (Err s, w) => (Err (Some s), w)
                       | (Undef, w) => (Undef, w)
                       | (NoFuel, w) => (NoFuel, w)
                       end
  end.

(** A node, then its links, depth first; what becomes of a link's node is not
    looked at, nor is what [fprintf] returns. [fuel]: the depth. *)
Fixpoint ipfs_exporter_cat_node (fuel : nat) (node : HashtableNode) (s : stream)
  : io stream stream :=
  match fuel with
  | O => lift NoFuel
  | S fuel =>
      data ← lift (mem_read (nd_data node) (nd_data_size node));
      unix_fs ← lift (on_err (ipfs_unixfs_protobuf_decode data (nd_data_size node)) s);
      b ← lift (mem_read (ux_bytes unix_fs) (ux_bytes_size unix_fs));
      let s := snd (fwrite b s) in
      links ← lift (all_links node);
      (fix cat_links (links : list NodeLink) (s : stream) : io stream stream :=
         match links with
         | [] => mret s
         | current :: links =>
             child_node ← with_stream s
               (ipfs_exporter_get_node (nl_hash current) (nl_hash_size current) true);
             r ← attempt (ipfs_exporter_cat_node fuel child_node s);
             cat_links links (match r with inl s => s | inr s => s end)
         end) links s
  end.

Definition ipfs_exporter_object_cat_to_file (fuel : nat) (hash : option bytes) (hash_size : Z)
  (s : stream) : io stream stream :=
  read_node ← with_stream s (ipfs_exporter_get_node hash hash_size true);
  ipfs_exporter_cat_node fuel read_node s.

(** *** [ipfs object get]: the node as text *)

(** A string in double quotes. *)
Definition quoted (s : bytes) : bytes := byte_of 34 :: s ++ [byte_of 34].

(** A hash that has no base 58 leaves the buffer uninitialised. *)
Definition console_link (link : NodeLink) : cres unit bytes :=
  match ipfs_cid_hash_to_base58 (nl_hash link) (nl_hash_size link) 100 with
  | Ok b58 =>
      Ok (str "{" ++ quoted (str "Name") ++ str ":" ++ quoted (link_name link)
          ++ str "," ++ quoted (str "Hash") ++ str ":" ++ quoted b58
          ++ str "," ++ quoted (str "Size") ++ str ":" ++ decimal (nl_t_size link) ++ str "}")
  | Err _ => Undef
  | Undef => Undef
  | NoFuel => NoFuel
  end.
Fixpoint console_links (links : list NodeLink) : cres unit bytes :=
  match links with
  | [] => Ok []
  | link :: links => a ← console_link link; b ← console_links links; Ok (a ++ b)
  end.

(** What is printed. *)
Definition ipfs_exporter_to_console (hash : bytes) : io unit bytes :=
  cid ← lift (ipfs_cid_decode_hash_from_base58 (c_str hash) (strlen hash));
  read_node ← ipfs_exporter_get_node (cid_hash cid) (cid_hash_length cid) true;
  links ← lift (all_links read_node);
  printed ← lift (console_links links);
  data ← lift (mem_read (nd_data read_node) (nd_data_size read_node));
  mret (str "{Links:[" ++ printed ++ str "]," ++ quoted (str "Data") ++ str ":"
        ++ quoted (concat (map hex data)) ++ str "}" ++ [byte_of 10]).
End Exporter.

(** * Properties *)

(** ** The nodes of a file *)

Section Files.
Context {PB : Protobuf} {SH : Sha256} `{!ProtobufLaws PB} `{!Sha256Laws SH}.

Lemma file_root_savable f :
  len f < 2 ^ 42 -> node_savable (file_root f) /\ node_room (file_root f) < 2 ^ 31.
Proof.
  intros Hf. pose proof (file_chunks_ok f Hf) as Hok. unfold file_root.
  destruct (file_chunks f) as [cs last]. apply file_node_savable, Hok.
Qed.

Lemma file_chunks_small f :
  let '(cs, last) := file_chunks f in
  f = concat (cs ++ [last]) /\ Forall (fun d => len d <= MAX_DATA_SIZE) (cs ++ [last]).
Proof.
  pose proof (file_chunks_spec f) as H. destruct (file_chunks f) as [cs last].
  destruct H as (Hc & Hcs & Hl & _). split.
  - rewrite concat_app. cbn. rewrite app_nil_r. exact Hc.
  - apply Forall_app. split; [| constructor; [lia | constructor]].
    eapply Forall_impl; [exact Hcs |]. cbn. lia.
Qed.

Lemma file_nodes_savable f n :
  len f < 2 ^ 42 -> n ∈ file_nodes f -> node_savable n /\ node_room n < 2 ^ 31.
Proof.
  intros Hf Hn. pose proof (file_root_savable f Hf) as Hroot. pose proof (file_chunks_small f) as Hsm.
  unfold file_nodes, file_root in *. destruct (file_chunks f) as [cs last]. destruct Hsm as [_ Hd].
  apply elem_of_cons in Hn as [-> | Hn]; [exact Hroot |]. apply list_elem_of_fmap in Hn as (d & -> & Hin).
  rewrite list.Forall_forall in Hd. destruct (leaf_node_savable d (Hd d Hin)). split; [assumption | lia].
Qed.
End Files.

(** ** Against the routing interface *)

(** What a router promises for some nodes: the bytes of the node, as long as [inv] holds, which it
    keeps. *)
Class Gives {PB : Protobuf} {SH : Sha256} {DS : Datastore} `{!ProtobufLaws PB} (RT : Routing) (inv : World -> Prop)
  (has : HashtableNode -> Prop) := {
  gives_value n w : has n -> inv w ->
    exists w', rt_GetValue (Routing := RT) (Some (node_hash n)) 32 w = (Ok (node_wire n), w') /\ inv w';
  gives_savable n : has n -> node_savable n
}.

Section Reading.
Context {PB : Protobuf} {MH : Multihash} {SH : Sha256} {B58 : Base58} {DS : Datastore}.
Context `{!ProtobufLaws PB} `{!MultihashLaws MH} `{!Sha256Laws SH}.
Context {RT : Routing} (inv : World -> Prop) (has : HashtableNode -> Prop) {GV : Gives RT inv has}.

Lemma exporter_get_node_gives n c w :
  has n -> inv w ->
  exists w', ipfs_exporter_get_node (Some (node_hash n)) 32 c w = (Ok (loaded n), w') /\ inv w'.
Proof.
  intros Hn Hi. pose proof (gives_savable n Hn) as Hs. pose proof (node_hash_len n Hs) as Hl.
  destruct (gives_value n w Hn Hi) as (w' & Hg & Hi'). exists w'. split; [| exact Hi'].
  unfold ipfs_exporter_get_node. rewrite (io_bind_ok _ _ w _ w' Hg).
  rewrite node_decode_wire by apply Hs. rewrite (io_bind_ok _ _ w' _ w') by reflexivity.
  rewrite (mem_read_len (node_hash n) 32) by lia. reflexivity.
Qed.

(** What writing out a node of saved data writes: the data of its UnixFS. *)
Lemma write_node_data_ok u links h s w :
  unixfs_wf u -> len (unixfs_bytes u) <= st_room s ->
  write_node_data (with_hash (node_saved (data_node (unixfs_wire u) links)) h) s w =
    (Ok (MkStream (st_data s ++ unixfs_bytes u) (st_room s - len (unixfs_bytes u))), w).
Proof.
  intros Hu Hr. pose proof (unixfs_wire_bound u Hu) as Hb.
  unfold write_node_data. cbn [with_hash node_saved data_node nd_data nd_data_size].
  replace (0 <? len (unixfs_wire u)) with true by lia.
  change (node_data (data_node (unixfs_wire u) links)) with (unixfs_wire u).
  rewrite mem_read_all. rewrite (io_bind_ok _ _ w _ w) by reflexivity.
  rewrite unixfs_decode_wire by exact Hu. cbn [decoded_anyway].
  rewrite (io_bind_ok _ _ w _ w) by reflexivity.
  pose proof (unixfs_wf_size u Hu) as Hsz. cbn [unixfs_saved ux_bytes ux_bytes_size].
  assert (Hm : @mem_read stream (if 0 <? ux_bytes_size u then Some (unixfs_bytes u) else None)
                 (ux_bytes_size u) = Ok (unixfs_bytes u)).
  { destruct (0 <? ux_bytes_size u) eqn:E; [apply mem_read_len, Hsz |].
    pose proof (len_nonneg (unixfs_bytes u)).
    rewrite (len_zero (unixfs_bytes u)) by lia. replace (ux_bytes_size u) with 0 by lia. reflexivity. }
  rewrite Hm. rewrite (io_bind_ok _ _ w _ w) by reflexivity.
  rewrite fwrite_ok by exact Hr. rewrite <- Hsz, Z.eqb_refl. reflexivity.
Qed.

Lemma filestream_links_gives ds c s w :
  Forall (fun d => len d <= MAX_DATA_SIZE) ds -> (forall d, d ∈ ds -> has (leaf_node d)) -> inv w ->
  len (concat ds) <= st_room s ->
  exists w', filestream_links (map link_saved (map leaf_link ds)) c s w =
    (Ok (MkStream (st_data s ++ concat ds) (st_room s - len (concat ds))), w') /\ inv w'.
Proof.
  intros Hd. revert c s w. induction Hd as [| d ds Hd _ IH]; intros c s w Hh Hi Hr.
  - exists w. split; [| exact Hi]. cbn. destruct s as [a r]. cbn. rewrite app_nil_r, Z.sub_0_r. reflexivity.
  - cbn [map filestream_links concat] in *. rewrite len_app in *. pose proof (len_nonneg (concat ds)).
    destruct (exporter_get_node_gives (leaf_node d) c w (Hh d (list_elem_of_here _ _)) Hi) as (w1 & Hg & Hi1).
    assert (Hs : with_stream s (ipfs_exporter_get_node
        (nl_hash (link_saved (leaf_link d))) (nl_hash_size (link_saved (leaf_link d))) c) w =
        (Ok (loaded (leaf_node d)), w1)).
    { unfold with_stream. change (nl_hash (link_saved (leaf_link d))) with (Some (node_hash (leaf_node d))).
      change (nl_hash_size (link_saved (leaf_link d))) with 32. rewrite Hg. reflexivity. }
    rewrite (io_bind_ok _ _ w _ w1 Hs).
    pose proof (leaf_unixfs_wf d Hd) as Hu. change (unixfs_bytes (leaf_unixfs d)) with d in *.
    rewrite (io_bind_ok _ _ w1 _ w1
      (write_node_data_ok (leaf_unixfs d) [] (node_hash (leaf_node d)) s w1 Hu ltac:(cbn; lia))).
    change (unixfs_bytes (leaf_unixfs d)) with d.
    destruct (IH false (MkStream (st_data s ++ d) (st_room s - len d)) w1) as (w' & Hl & Hi');
      [intros; apply Hh, list_elem_of_further; assumption | exact Hi1 | cbn; lia |].
    exists w'. split; [| exact Hi']. rewrite Hl. cbn [st_data st_room]. rewrite <- app_assoc. do 3 f_equal. lia.
Qed.

(** *** A file whose nodes the router gives *)

Definition file_given (f : bytes) : Prop := forall n, n ∈ file_nodes f -> has n.

Lemma file_given_nodes f :
  file_given f ->
  has (file_root f) /\ forall d, d ∈ fst (file_chunks f) ++ [snd (file_chunks f)] -> has (leaf_node d).
Proof.
  unfold file_given, file_nodes, file_root. destruct (file_chunks f) as [cs last]. intros H.
  split; [apply H, elem_of_cons; auto |]. intros d Hd. apply H, elem_of_cons. right.
  apply list_elem_of_fmap. eauto.
Qed.

Lemma filestream_gives f s w :
  len f < 2 ^ 42 -> file_given f -> inv w -> len f <= st_room s ->
  exists w', (if bool_decide (nd_links (loaded (file_root f)) = []) && negb (nd_dangling (loaded (file_root f)))
   then write_node_data (loaded (file_root f)) s
   else links ← lift (all_links (loaded (file_root f))); filestream_links links true s) w =
  (Ok (MkStream (st_data s ++ f) (st_room s - len f)), w') /\ inv w'.
Proof.
  intros Hf [_ Hs]%file_given_nodes Hi Hr. pose proof (file_chunks_small f) as Hsm. pose proof (file_chunks_ok f Hf) as Hok.
  unfold file_root in *. destruct (file_chunks f) as [cs last]. cbn [fst snd] in Hs.
  destruct Hsm as [Hc Hd]. destruct cs as [| c cs]; cbn [file_node].
  - exists w. split; [| exact Hi]. change (nd_links (loaded (leaf_node last))) with (@nil NodeLink).
    rewrite bool_decide_eq_true_2 by reflexivity.
    change (negb (nd_dangling (loaded (leaf_node last)))) with true. cbn [andb].
    apply Forall_inv in Hd. cbn in Hc. rewrite app_nil_r in Hc. subst f.
    apply (write_node_data_ok (leaf_unixfs last)); [apply leaf_unixfs_wf, Hd | exact Hr].
  - assert (Hl : nd_links (loaded (branch_node ((c :: cs) ++ [last]))) =
      map link_saved (map leaf_link ((c :: cs) ++ [last]))) by reflexivity.
    rewrite bool_decide_eq_false_2 by (rewrite Hl; discriminate). cbn [andb].
    rewrite (io_bind_ok _ _ w (map link_saved (map leaf_link ((c :: cs) ++ [last]))) w) by reflexivity.
    destruct (filestream_links_gives _ true s w Hd Hs Hi) as (w' & Hw & Hi'); [rewrite <- Hc; exact Hr |].
    exists w'. split; [rewrite Hw, <- Hc; reflexivity | exact Hi'].
Qed.

Lemma to_filestream_gives f t s w :
  len f < 2 ^ 42 -> file_given f -> inv w -> len f <= st_room s ->
  ipfs_cid_decode_hash_from_base58 (c_str t) (strlen t) =
    Ok (MkCid 0 CID_DAG_PROTOBUF (Some (node_hash (file_root f))) 32) ->
  exists w', ipfs_exporter_to_filestream t s w = (Ok (MkStream (st_data s ++ f) (st_room s - len f)), w') /\ inv w'.
Proof.
  intros Hf Hs Hi Hr Ht. destruct (exporter_get_node_gives (file_root f) true w) as (w1 & Hg & Hi1);
    [apply file_given_nodes, Hs | exact Hi |].
  unfold ipfs_exporter_to_filestream. rewrite Ht. cbn [on_err].
  rewrite (io_bind_ok _ _ w _ w) by reflexivity. cbn [cid_hash cid_hash_length].
  rewrite (io_bind_ok _ _ w (loaded (file_root f)) w1) by (unfold with_stream; rewrite Hg; reflexivity).
  apply filestream_gives; assumption.
Qed.

(** [cat] of a leaf, at any positive depth. *)
Lemma cat_leaf_ok fuel d h s w :
  (0 < fuel)%nat -> len d <= MAX_DATA_SIZE -> len d <= st_room s ->
  ipfs_exporter_cat_node fuel (with_hash (node_saved (leaf_node d)) h) s w =
    (Ok (MkStream (st_data s ++ d) (st_room s - len d)), w).
Proof.
  intros Hf Hd Hr. destruct fuel as [| fuel]; [lia |]. cbn [ipfs_exporter_cat_node].
  pose proof (unixfs_wire_bound _ (leaf_unixfs_wf d Hd)) as Hb.
  cbn [with_hash node_saved leaf_node data_node nd_data nd_data_size].
  replace (0 <? len (unixfs_wire (leaf_unixfs d))) with true by lia.
  change (node_data (data_node (unixfs_wire (leaf_unixfs d)) [])) with (unixfs_wire (leaf_unixfs d)).
  rewrite mem_read_all. rewrite (io_bind_ok _ _ w _ w) by reflexivity.
  rewrite unixfs_decode_wire by apply leaf_unixfs_wf, Hd. cbn [on_err].
  rewrite (io_bind_ok _ _ w _ w) by reflexivity.
  cbn [unixfs_saved leaf_unixfs ux_bytes ux_bytes_size].
  assert (Hm : @mem_read stream (if 0 <? len d then Some (unixfs_bytes (leaf_unixfs d)) else None) (len d)
               = Ok d).
  { change (unixfs_bytes (leaf_unixfs d)) with d. pose proof (len_nonneg d).
    destruct (0 <? len d) eqn:E; [apply mem_read_all |].
    rewrite (len_zero d) by lia. reflexivity. }
  rewrite Hm. rewrite (io_bind_ok _ _ w _ w) by reflexivity.
  rewrite fwrite_ok by exact Hr. reflexivity.
Qed.

Definition cat_links (fuel : nat) := fix cat_links (links : list NodeLink) (s : stream)
  : io stream stream :=
  match links with
  | [] => mret s
  | current :: links =>
      child_node ← with_stream s
        (ipfs_exporter_get_node (nl_hash current) (nl_hash_size current) true);
      r ← attempt (ipfs_exporter_cat_node fuel child_node s);
      cat_links links (match r with inl s => s | inr s => s end)
  end.

Lemma cat_links_gives fuel ds s w :
  (0 < fuel)%nat -> Forall (fun d => len d <= MAX_DATA_SIZE) ds -> (forall d, d ∈ ds -> has (leaf_node d)) ->
  inv w -> len (concat ds) <= st_room s ->
  exists w', cat_links fuel (map link_saved (map leaf_link ds)) s w =
    (Ok (MkStream (st_data s ++ concat ds) (st_room s - len (concat ds))), w') /\ inv w'.
Proof.
  intros Hf Hd. revert s w. induction Hd as [| d ds Hd _ IH]; intros s w Hh Hi Hr.
  - exists w. split; [| exact Hi]. cbn. destruct s as [a r]. cbn. rewrite app_nil_r, Z.sub_0_r. reflexivity.
  - cbn [map cat_links concat] in *. rewrite len_app in *. pose proof (len_nonneg (concat ds)).
    destruct (exporter_get_node_gives (leaf_node d) true w (Hh d (list_elem_of_here _ _)) Hi) as (w1 & Hg & Hi1).
    assert (Hs : with_stream s (ipfs_exporter_get_node
        (nl_hash (link_saved (leaf_link d))) (nl_hash_size (link_saved (leaf_link d))) true) w =
        (Ok (loaded (leaf_node d)), w1)).
    { unfold with_stream. change (nl_hash (link_saved (leaf_link d))) with (Some (node_hash (leaf_node d))).
      change (nl_hash_size (link_saved (leaf_link d))) with 32. rewrite Hg. reflexivity. }
    rewrite (io_bind_ok _ _ w _ w1 Hs).
    unfold mbind at 1, io_bind at 1, attempt. unfold loaded.
    rewrite cat_leaf_ok by (assumption || lia).
    destruct (IH (MkStream (st_data s ++ d) (st_room s - len d)) w1) as (w' & Hl & Hi');
      [intros; apply Hh, list_elem_of_further; assumption | exact Hi1 | cbn; lia |].
    exists w'. split; [| exact Hi']. rewrite Hl. cbn [st_data st_room]. rewrite <- app_assoc. do 3 f_equal. lia.
Qed.

(** Depth 2 is enough for any file. *)
Lemma cat_file_gives f s w :
  len f < 2 ^ 42 -> file_given f -> inv w -> len f <= st_room s ->
  exists w', ipfs_exporter_object_cat_to_file 2 (Some (node_hash (file_root f))) 32 s w =
    (Ok (MkStream (st_data s ++ f) (st_room s - len f)), w') /\ inv w'.
Proof.
  intros Hf Hst%file_given_nodes Hi Hr.
  destruct (exporter_get_node_gives (file_root f) true w (proj1 Hst) Hi) as (w1 & Hg & Hi1).
  unfold ipfs_exporter_object_cat_to_file.
  rewrite (io_bind_ok _ _ w (loaded (file_root f)) w1) by (unfold with_stream; rewrite Hg; reflexivity). clear Hg.
  pose proof (file_chunks_small f) as Hsm. pose proof (file_chunks_ok f Hf) as Hok.
  destruct Hst as [_ Hs]. unfold file_root in *. destruct (file_chunks f) as [cs last].
  cbn [fst snd] in Hs. destruct Hsm as [Hc Hd]. destruct cs as [| c cs]; cbn [file_node].
  - apply Forall_inv in Hd. cbn in Hc. rewrite app_nil_r in Hc. subst f. exists w1. split; [| exact Hi1].
    apply cat_leaf_ok; [lia | assumption | assumption].
  - set (ds := (c :: cs) ++ [last]) in *. cbn [ipfs_exporter_cat_node].
    pose proof (branch_unixfs_wf ds Hok) as Hu. pose proof (unixfs_wire_bound _ Hu) as Hb.
    cbn [loaded with_hash node_saved branch_node data_node nd_data nd_data_size].
    replace (0 <? len (unixfs_wire (branch_unixfs (map len ds)))) with true by lia.
    change (node_data (branch_node ds)) with (unixfs_wire (branch_unixfs (map len ds))).
    rewrite mem_read_all. rewrite (io_bind_ok _ _ w1 _ w1) by reflexivity.
    rewrite unixfs_decode_wire by exact Hu. cbn [on_err].
    rewrite (io_bind_ok _ _ w1 _ w1) by reflexivity.
    rewrite (io_bind_ok _ _ w1 [] w1) by reflexivity.
    rewrite (io_bind_ok _ _ w1 (map link_saved (map leaf_link ds)) w1) by reflexivity.
    pose proof (len_nonneg f). rewrite fwrite_ok by (len_nils; lia). cbn [snd].
    destruct (cat_links_gives 1 ds (MkStream (st_data s ++ []) (st_room s - len (@nil byte))) w1) as (w' & Hl & Hi');
      [lia | exact Hd | exact Hs | exact Hi1 | cbn [st_room]; len_nils; rewrite <- Hc; lia |].
    exists w'. split; [| exact Hi'].
    change (cat_links 1 (map link_saved (map leaf_link ds))
      (MkStream (st_data s ++ []) (st_room s - len (@nil byte))) w1 =
      (Ok (MkStream (st_data s ++ f) (st_room s - len f)), w')).
    rewrite Hl. cbn [st_data st_room]. rewrite app_nil_r, <- Hc. do 3 f_equal. len_nils. lia.
Qed.
End Reading.

Section Facts.
Context {PB : Protobuf} {MH : Multihash} {SH : Sha256} {B32 : Base32} {B58 : Base58}.
Context {OS : OsUtils} {DS : Datastore}.
Context `{!ProtobufLaws PB} `{!MultihashLaws MH} `{!Sha256Laws SH} `{!Base32Laws B32}.
Context `{!Base58Multihash B58} `{!OsUtilsLaws OS} `{!DatastoreLaws DS}.
Context (path : bytes) (http : bytes -> bytes -> bytes -> option bytes).

(** The offline routing, without API. *)
#[local] Instance offline : Routing := ipfs_routing_new_offline path false http.

(** A node that is stored is what the router gives, and the state stays. *)
#[local] Instance offline_gives w :
  Gives offline (fun w' => w' = w) (fun n => node_savable n /\ node_room n < 2 ^ 31 /\ stored path n w).
Proof.
  split; [| tauto]. intros n w' (Hn & Hr & Hs) ->. exists w. split; [| reflexivity].
  exact (offline_get_value_ok path http n w Hn Hr Hs).
Qed.

(** The nodes of the file are in the state. *)
Definition file_stored (f : bytes) (w : World) : Prop :=
  forall n, n ∈ file_nodes f -> stored path n w.

Lemma file_stored_given f w :
  len f < 2 ^ 42 -> file_stored f w ->
  file_given (fun n => node_savable n /\ node_room n < 2 ^ 31 /\ stored path n w) f.
Proof.
  intros Hf Hs n Hn. destruct (file_nodes_savable f n Hf Hn). auto.
Qed.
Lemma to_filestream_file f t s w :
  len f < 2 ^ 42 -> file_stored f w -> len f <= st_room s ->
  ipfs_cid_decode_hash_from_base58 (c_str t) (strlen t) =
    Ok (MkCid 0 CID_DAG_PROTOBUF (Some (node_hash (file_root f))) 32) ->
  ipfs_exporter_to_filestream t s w = (Ok (MkStream (st_data s ++ f) (st_room s - len f)), w).
Proof.
  intros Hf Hs Hr Ht.
  destruct (to_filestream_gives (GV := offline_gives w) _ _ f t s w Hf (file_stored_given f w Hf Hs) eq_refl Hr Ht) as (w' & H & ->). exact H.
Qed.
Lemma cat_file_ok f s w :
  len f < 2 ^ 42 -> file_stored f w -> len f <= st_room s ->
  ipfs_exporter_object_cat_to_file 2 (Some (node_hash (file_root f))) 32 s w =
    (Ok (MkStream (st_data s ++ f) (st_room s - len f)), w).
Proof.
  intros Hf Hs Hr.
  destruct (cat_file_gives (GV := offline_gives w) _ _ f s w Hf (file_stored_given f w Hf Hs) eq_refl Hr) as (w' & H & ->). exact H.
Qed.

Lemma offline_quiet : quiet_routing.
Proof. intros h n w. right. reflexivity. Qed.
End Facts.

(** ** The properties of this file *)

Section Properties.
Context {PB : Protobuf} {MH : Multihash} {SH : Sha256} {B32 : Base32} {B58 : Base58}.
Context {OS : OsUtils} {DS : Datastore}.
Context `{!ProtobufLaws PB} `{!MultihashLaws MH} `{!Sha256Laws SH} `{!Base32Laws B32}.
Context `{!Base58Multihash B58} `{!OsUtilsLaws OS} `{!DatastoreLaws DS}.
Context (path : bytes) (http : bytes -> bytes -> bytes -> option bytes).
#[local] Instance routing : Routing := ipfs_routing_new_offline path false http.

(** The import and both ways out of what it stored. *)
Lemma import_then_export f recursive w written s :
  len f < 2 ^ 42 -> roomy path w -> no_collision (file_wires f) ->
  len f <= st_room s -> @enc_encode_size base58 34 <= 100 ->
  exists n written' w' h t,
    ipfs_import_file path recursive (File f) written w = (Ok (n, written'), w') /\
    nd_hash n = Some h /\ ipfs_cid_hash_to_base58 (Some h) (nd_hash_size n) 100 = Ok t /\
    ipfs_exporter_to_filestream t s w' =
      (Ok (MkStream (st_data s ++ f) (st_room s - len f)), w') /\
    ipfs_exporter_object_cat_to_file 2 (Some h) (nd_hash_size n) s w' =
      (Ok (MkStream (st_data s ++ f) (st_room s - len f)), w') /\
    (forall m, m ∈ file_nodes f -> stored path m w') /\ roomy path w' /\ keeps path (file_wires f) w w' /\
    ipfs_cid_decode_hash_from_base58 t (strlen t) = Ok (MkCid 0 CID_DAG_PROTOBUF (Some h) (nd_hash_size n)) /\
    nd_hash_size n = 32 /\ starts_with (str "Qm") t = true.
Proof.
  intros Hf Hw Hc Hr Hb. destruct (file_root_savable f Hf) as [Hn _].
  pose proof (node_hash_len _ Hn) as Hl.
  destruct (import_file_ok path f (file_wires f) recursive w written (offline_quiet path http) Hf Hw Hc)
    as (w' & Hi & Hst & Hrm & Hk); [reflexivity |].
  destruct (hash_to_base58_ok (node_hash (file_root f)) 100 Hl Hb) as (t & Ht & He).
  exists (with_hash (file_root f) (node_hash (file_root f))), (file_written f written), w', (node_hash (file_root f)), t.
  split; [exact Hi |]. split; [reflexivity |]. split; [exact Ht |].
  assert (Hct : c_str t = t) by exact (c_str_id _ (enc_text (EN := base58) _ _ _ He)).
  assert (Hcid : ipfs_cid_decode_hash_from_base58 t (strlen t) =
      Ok (MkCid 0 CID_DAG_PROTOBUF (Some (node_hash (file_root f))) 32))
    by (unfold strlen; rewrite Hct; exact (decode_base58_Qm _ _ _ Hl He)).
  split; [apply to_filestream_file; rewrite ?Hct; assumption |].
  split; [apply cat_file_ok; assumption | split_and!; try assumption; try reflexivity].
  destruct (base58_Qm _ _ _ Hl He) as (r & -> & _). apply starts_with_app.
Qed.

(** C1: importing any file shorter than 2^42 bytes into a repository that takes
    what is written succeeds with a node that has a hash; the base 58 of that
    hash, given to [ipfs_exporter_to_filestream] or, decoded, to
    [ipfs_exporter_object_cat_to_file], brings the same bytes out again. This
    holds when SHA-256 does not collide on the nodes of the file. *)
Theorem import_export_roundtrip f recursive w written s :
  len f < 2 ^ 42 -> roomy path w -> no_collision (file_wires f) ->
  len f <= st_room s -> @enc_encode_size base58 34 <= 100 ->
  exists n written' w' h t,
    ipfs_import_file path recursive (File f) written w = (Ok (n, written'), w') /\
    nd_hash n = Some h /\ ipfs_cid_hash_to_base58 (Some h) (nd_hash_size n) 100 = Ok t /\
    ipfs_exporter_to_filestream t s w' =
      (Ok (MkStream (st_data s ++ f) (st_room s - len f)), w') /\
    ipfs_exporter_object_cat_to_file 2 (Some h) (nd_hash_size n) s w' =
      (Ok (MkStream (st_data s ++ f) (st_room s - len f)), w').
Proof.
  intros Hf Hw Hc Hr Hb.
  destruct (import_then_export f recursive w written s Hf Hw Hc Hr Hb)
    as (n & wr & w' & h & t & H1 & H2 & H3 & H4 & H5 & _).
  exists n, wr, w', h, t. auto.
Qed.
End Properties.


Section FullDisk.
Context {PB : Protobuf} {MH : Multihash} {SH : Sha256} {B32 : Base32} {OS : OsUtils}.
Context {DS : Datastore}.
Context `{!ProtobufLaws PB} `{!MultihashLaws MH} `{!Sha256Laws SH} `{!Base32Laws B32}.
Context `{!OsUtilsLaws OS} `{!DatastoreLaws DS}.
Context (path : bytes) (http : bytes -> bytes -> bytes -> option bytes).
#[local] Instance routing_full : Routing := ipfs_routing_new_offline path false http.

Lemma add_full_disk n w :
  node_savable n -> nd_hash n = None -> fs_room (w_fs w) = 0 ->
  (forall h, fs_writable (w_fs w) (hash_file path h) = true) ->
  exists w', ipfs_merkledag_add path n w =
      (Err (Some (with_hash n (node_hash n), Some 0)), w') /\ w_ds w' = w_ds w.
Proof.
  intros Hn Hh Hr Hf. pose proof (node_block_wf n Hn) as Hb.
  pose proof (block_wire_bound _ Hb). pose proof (block_room_range _ Hb).
  pose proof (block_wire_pos (node_block n)).
  assert (Hput : exists w', ipfs_blockstore_put path (node_block n) w = (Err (Some 0), w') /\
                            w_ds w' = w_ds w).
  { unfold ipfs_blockstore_put. cbn [bl_cid node_block].
    assert (Hk : ipfs_blockstore_cid_to_base32 (MkCid 1 CID_DAG_PROTOBUF (Some (node_hash n)) 32) =
                   Ok (hash_key (node_hash n))).
    { unfold ipfs_blockstore_cid_to_base32. cbn [cid_hash cid_hash_length].
      rewrite <- (node_hash_len n Hn). apply hash_to_base32_ok. }
    rewrite Hk. cbn [on_err]. rewrite (io_bind_ok _ _ w _ w) by reflexivity.
    rewrite block_encode_size, block_encode_fields by (assumption || lia). cbn [on_err].
    rewrite (io_bind_ok _ _ w _ w) by reflexivity.
    unfold put_under. rewrite hash_key_text, (path_get_hash path). cbn [on_err].
    rewrite (io_bind_ok _ _ w _ w) by reflexivity.
    unfold mbind, io_bind, put_file, write_file. rewrite Hf, Hr, Z.min_r, btake_0 by lia.
    len_nils. replace (0 =? len (block_wire (node_block n))) with false by lia.
    eexists. split; reflexivity. }
  destruct Hput as (w' & Hput & Hds). exists w'. split; [| exact Hds].
  unfold ipfs_merkledag_add. rewrite hash_node_ok by assumption. cbn [on_err].
  assert (Hhd : hashed n = with_hash n (node_hash n)) by (unfold hashed; rewrite Hh; reflexivity).
  rewrite (io_bind_ok _ _ w _ w) by reflexivity. rewrite convert_ok by assumption. cbn [on_err].
  rewrite (io_bind_ok _ _ w _ w) by reflexivity.
  unfold ipfs_repo_fsrepo_block_write, mbind, io_bind, attempt. rewrite Hput, Hhd. reflexivity.
Qed.

(** On a disk that takes no more data, importing a file of less than one
    chunk still returns success and a node with a hash, although nothing is
    recorded in the datastore, so that [ipfs_exporter_object_cat_to_file] of that
    hash fails and writes nothing. *)
Theorem import_full_disk f recursive w written s :
  len f < MAX_DATA_SIZE -> fs_room (w_fs w) = 0 ->
  (forall h, fs_writable (w_fs w) (hash_file path h) = true) ->
  (forall h, datastore_get h (w_ds w) = None) ->
  exists n h written' w',
    ipfs_import_file path recursive (File f) written w = (Ok (n, written'), w') /\
    nd_hash n = Some h /\
    ipfs_exporter_object_cat_to_file 2 (Some h) (len h) s w' = (Err s, w').
Proof.
  intros Hf Hr Hw Hds.
  destruct (leaf_node_savable f ltac:(lia)) as [Hn _].
  destruct (add_full_disk (leaf_node f) w Hn eq_refl Hr Hw) as (w' & Ha & Hds').
  destruct (chunk_unixfs f ltac:(lia)) as (u & Hu & Hz & He).
  pose proof (len_nonneg f).
  exists (with_hash (leaf_node f) (node_hash (leaf_node f))), (node_hash (leaf_node f)).
  eexists. exists w'. split; [| split; [reflexivity |]].
  - cbn [ipfs_import_file]. unfold import_fuel. rewrite Z.div_small by lia.
    cbn [Z.to_nat import_chunks]. unfold ipfs_import_chunk at 1. rewrite btake_all by lia.
    rewrite Hu, Hz, He. replace (len f =? MAX_DATA_SIZE) with false by lia.
    cbn [nd_links nd_dangling ipfs_hashtable_node_new]. rewrite bool_decide_eq_true_2 by reflexivity.
    cbn [negb andb]. unfold ipfs_hashtable_node_set_data. rewrite mem_read_all. cbn [mbind cres_bind].
    change (MkNode (len (unixfs_wire (leaf_unixfs f))) (Some (unixfs_wire (leaf_unixfs f)))
      (nd_links ipfs_hashtable_node_new) (nd_dangling ipfs_hashtable_node_new)
      (nd_encoded ipfs_hashtable_node_new) (nd_hash ipfs_hashtable_node_new)
      (nd_hash_size ipfs_hashtable_node_new)) with (leaf_node f).
    unfold mbind, io_bind, mret, io_ret, attempt. rewrite Ha. cbn [ck_bytes_read ck_parent].
    replace (len f =? MAX_DATA_SIZE) with false by lia. reflexivity.
  - unfold ipfs_exporter_object_cat_to_file, ipfs_exporter_get_node, with_stream.
    cbn [rt_GetValue routing_full ipfs_routing_new_offline]. unfold ipfs_routing_generic_get_value.
    unfold ipfs_merkledag_get, in_datastore, mbind, io_bind, look. rewrite mem_read_all.
    cbn [cres_bind]. unfold mbind, cres_bind. rewrite Hds', Hds. reflexivity.
Qed.
End FullDisk.

(** * Concrete runs *)

Definition roomy_world : World :=
  MkWorld (MkFS ∅ (fun _ => true) (2 ^ 40)) (∅ : gmap bytes DatastoreRecord).
Definition full_world : World :=
  MkWorld (MkFS ∅ (fun _ => true) 0) (∅ : gmap bytes DatastoreRecord).

Lemma import_export_roundtrip_witness :
  exists n written' w' t,
    @ipfs_import_file _ _ _ _ _ _ (ipfs_routing_new_offline (str "/repo") false (fun _ _ _ => None))
      (str "/repo") true (File (str "hello world")) 0 roomy_world = (Ok (n, written'), w') /\
    @ipfs_exporter_to_filestream _ _ _
      (ipfs_routing_new_offline (str "/repo") false (fun _ _ _ => None)) t (MkStream [] 1000) w' =
      (Ok (MkStream (str "hello world") 989), w').
Proof.
  destruct (import_export_roundtrip (str "/repo") (fun _ _ _ => None) (str "hello world") true
              roomy_world 0 (MkStream [] 1000)) as (n & wr & w' & h & t & Hi & _ & _ & He & _).
  - vm_compute. reflexivity.
  - constructor; [reflexivity | vm_compute; discriminate | vm_compute; discriminate | exact I].
  - intros a b Ha Hb _. vm_compute in Ha, Hb.
    repeat (apply elem_of_cons in Ha as [-> | Ha]; [| try (inversion Ha; fail)]);
    repeat (apply elem_of_cons in Hb as [-> | Hb]; [| try (inversion Hb; fail)]); reflexivity.
  - vm_compute. discriminate.
  - vm_compute. discriminate.
  - exists n, wr, w', t. split; [exact Hi | exact He].
Defined.

Lemma import_full_disk_witness :
  exists n h written' w',
    @ipfs_import_file _ _ _ _ _ _ (ipfs_routing_new_offline (str "/repo") false (fun _ _ _ => None))
      (str "/repo") true (File (str "hello")) 0 full_world = (Ok (n, written'), w') /\
    @ipfs_exporter_object_cat_to_file _ _
      (ipfs_routing_new_offline (str "/repo") false (fun _ _ _ => None)) 2 (Some h) (len h)
      (MkStream [] 1000) w' = (Err (MkStream [] 1000), w').
Proof.
  destruct (import_full_disk (str "/repo") (fun _ _ _ => None) (str "hello") true full_world 0
              (MkStream [] 1000)) as (n & h & wr & w' & Hi & _ & Hg).
  - vm_compute. reflexivity.
  - reflexivity.
  - reflexivity.
  - intros h. apply lookup_empty.
  - exists n, h, wr, w'. auto.
Defined.
