(* ===== verification/Config.v ===== *)
(** The configuration of a repository: its parts, the default one, and the file it is kept
    in (src/repo/config/, src/repo/fsrepo/fs_repo.c). *)

From S2P Require Import Prelude Libc Libs Storage Exporter Jsmn.

(** ** Keys and addresses of the libraries *)

(** Keys of the peer library's crypto (libp2p/crypto, a submodule). [generate_keypair n bits]:
    the [n]-th pair it makes; the private key is kept as its DER, the public one as well when
    it was filled in. *)
Class Keys := {
  RsaPrivateKey : Type;
  key_der : RsaPrivateKey -> bytes;
  key_public_der : RsaPrivateKey -> bytes;
  libp2p_crypto_rsa_generate_keypair : nat -> Z -> option RsaPrivateKey;
  libp2p_crypto_public_key_to_peer_id : bytes -> option bytes;
  libp2p_crypto_private_key_protobuf_encode : bytes -> bytes;
  libp2p_crypto_private_key_protobuf_decode : bytes -> option bytes;
  libp2p_crypto_encoding_base64_encode : bytes -> option bytes;
  libp2p_crypto_encoding_base64_decode : bytes -> option bytes;
  libp2p_crypto_encoding_x509_der_to_private_key : bytes -> option RsaPrivateKey;
  libp2p_crypto_rsa_private_key_fill_public_key : RsaPrivateKey -> option RsaPrivateKey
}.
(** Addresses of the peer library (multiaddr/multiaddr.h) and peers made from them. *)
Class Addrs := {
  MultiAddress : Type;
  ma_string : MultiAddress -> bytes;
  multiaddress_new_from_string : bytes -> option MultiAddress;
  libp2p_peer_new_from_multiaddress : MultiAddress -> bytes
}.
(** More of the operating system's utilities. *)
Class OsFiles := { os_utils_file_exists : gmap bytes bytes -> bytes -> bool }.
Class OsFilesLaws (OF : OsFiles) := {
  file_exists_spec files path : os_utils_file_exists files path = bool_decide (is_Some (files !! path))
}.

Section Config.
Context {KE : Keys} {AD : Addrs}.

(** ** Structures *)

(** [struct Libp2pPeer]; a peer that was only made has no id. *)
Record Peer := MkPeer { peer_id : option bytes; peer_addrs : list MultiAddress; peer_is_local : bool }.
Record Identity := MkIdentity { id_peer : option Peer; id_private_key : option RsaPrivateKey }.
(** The part of [struct Datastore] that is configured. *)
Record DatastoreConfig := MkDatastore {
  dc_type : option bytes; dc_path : option bytes; dc_storage_max : option bytes;
  dc_storage_gc_watermark : Z; dc_gc_period : option bytes; dc_params : option bytes;
  dc_no_sync : Z; dc_hash_on_read : Z; dc_bloom_filter_size : Z
}.
Record Addresses := MkAddresses { ad_swarm : list bytes; ad_api : option bytes; ad_gateway : option bytes }.
(** What only [ipfs_repo_config_init] sets. *)
Record Settings := MkSettings {
  st_mount_ipfs : bytes; st_mount_ipns : bytes; st_mdns_enabled : Z; st_mdns_interval : Z;
  st_resolve_cache_size : Z; st_reprovider_interval : bytes; st_root_redirect : bytes; st_writable : Z
}.
Record ReplicationPeer := MkReplicationPeer { rp_peer : option bytes; rp_lastConnect : Z; rp_lastJournalTime : Z }.
(** [rep_announce]: [None] until it is read. *)
Record Replication := MkReplication {
  rep_announce : option Z; rep_announce_minutes : Z; rep_peers : option (list ReplicationPeer)
}.
Record RepoConfig := MkConfig {
  rc_identity : Identity; rc_datastore : DatastoreConfig; rc_addresses : Addresses;
  rc_settings : option Settings; rc_bootstrap : option (list MultiAddress);
  rc_headers : list (bytes * bytes); rc_replication : Replication
}.

Definition repo_config_identity_new : Identity := MkIdentity None None.
Definition repo_config_addresses_new : Addresses := MkAddresses [] None None.
Definition repo_config_replication_peer_new : ReplicationPeer := MkReplicationPeer None 0 0.
Definition repo_config_replication_new : Replication := MkReplication None 0 None.

(** What [libp2p_datastore_new] makes and what [libp2p_datastore_init] fills in for a path;
    the latter may fail. *)
Context (libp2p_datastore_new : DatastoreConfig).
Context (libp2p_datastore_init : bytes -> option DatastoreConfig).

Definition ipfs_repo_config_new : RepoConfig :=
  MkConfig repo_config_identity_new libp2p_datastore_new repo_config_addresses_new None None []
    repo_config_replication_new.

(** ** src/repo/config/identity.c *)

Definition repo_config_identity_build_peer_id (key : RsaPrivateKey) (peer : option Peer) : cres unit Peer :=
  let peer := match peer with Some p => p | None => MkPeer None [] false end in
  match libp2p_crypto_public_key_to_peer_id (key_public_der key) with
  | Some id => Ok (MkPeer (Some id) (peer_addrs peer) (peer_is_local peer))
  | None => Err ()
  end.
Definition repo_config_identity_init (n : nat) (identity : Identity) (num_bits_for_keypair : Z)
  : cres unit Identity :=
  if num_bits_for_keypair <? 1024 then Err ()
  else
    match libp2p_crypto_rsa_generate_keypair n num_bits_for_keypair with
    | None => Err ()
    | Some key =>
        peer ← repo_config_identity_build_peer_id key (id_peer identity);
        Ok (MkIdentity (Some peer) (Some key))
    end.
Definition repo_config_identity_build_private_key (identity : Identity) (base64 : bytes)
  : cres unit Identity :=
  match (decoded ← libp2p_crypto_encoding_base64_decode base64;
         der ← libp2p_crypto_private_key_protobuf_decode decoded;
         key ← libp2p_crypto_encoding_x509_der_to_private_key der;
         libp2p_crypto_rsa_private_key_fill_public_key key) with
  | None => Err ()
  | Some key =>
      peer ← repo_config_identity_build_peer_id key (id_peer identity);
      Ok (MkIdentity (Some peer) (Some key))
  end.

(** ** src/repo/config/gateway.c, bootstrap_peers.c and swarm.c *)

(** [None]: an array has fewer strings than are copied. *)
Fixpoint repo_config_gateway_http_header_init (headers values : list bytes) (num_elements : nat)
  : option (list (bytes * bytes)) :=
  match num_elements, headers, values with
  | O, _, _ => Some []
  | S n, h :: headers, v :: values =>
      l ← repo_config_gateway_http_header_init headers values n; Some ((h, v) :: l)
  | S _, _, _ => None
  end.
(** The peers once known are in a comment. *)
Definition repo_config_bootstrap_peers_retrieve : list MultiAddress := [].
(** [struct SwarmAddresses], which nothing uses. *)
Definition repo_config_swarm_address_new : list bytes := [].
Fixpoint repo_config_swarm_address_init (addresses : list bytes) (array_length : nat) : option (list bytes) :=
  match array_length, addresses with
  | O, _ => Some []
  | S n, a :: addresses => l ← repo_config_swarm_address_init addresses n; Some (a :: l)
  | S _, [] => None
  end.

(** ** src/repo/config/config.c *)

(** Two letters are looked at. *)
Definition ipfs_repo_config_is_valid_identity (identity : Identity) : bool :=
  match id_peer identity with
  | Some (MkPeer (Some id) _ _) => starts_with (str "Qm") id
  | _ => false
  end.

(** At most five pairs of keys; the peer of one that was not good is freed. *)
Fixpoint try_identities (tries n : nat) (identity : Identity) (bits : Z) : cres unit Identity :=
  match tries with
  | O => Err ()
  | S tries =>
      identity ← repo_config_identity_init n identity bits;
      if ipfs_repo_config_is_valid_identity identity then Ok identity
      else try_identities tries (S n) (MkIdentity None None) bits
  end.

Definition default_settings : Settings :=
  MkSettings (str "/ipfs") (str "/ipns") 1 10 128 (str "12h") [] 0.
Definition header_array : list bytes :=
  [str "Access-Control-Allow-Origin"; str "Access-Control-Allow-Methods"; str "Access-Control-Allow-Headers"].
Definition header_values : list bytes := [str "*"; str "GET"; str "X-Requested-With"].
(** The ports are [int]s. *)
Definition default_addresses (swarm_port : Z) : Addresses :=
  let port_adder := swarm_port - 4001 in
  MkAddresses [str "/ip4/0.0.0.0/tcp/" ++ int_decimal swarm_port; str "/ip6/::/tcp/" ++ int_decimal swarm_port]
    (Some (str "/ip4/127.0.0.1/tcp/" ++ int_decimal (5001 + port_adder)))
    (Some (str "/ip4/127.0.0.1/tcp/" ++ int_decimal (8080 + port_adder))).

Definition ipfs_repo_config_init (config : RepoConfig) (num_bits_for_keypair : Z) (repo_path : bytes)
  (swarm_port : Z) (bootstrap_peers : option (list MultiAddress)) : cres unit RepoConfig :=
  identity ← try_identities 5 0 (rc_identity config) num_bits_for_keypair;
  match libp2p_datastore_init repo_path with
  | None => Err ()
  | Some datastore =>
      match repo_config_gateway_http_header_init header_array header_values 3 with
      | None => Undef
      | Some headers =>
          Ok (MkConfig identity datastore (default_addresses swarm_port) (Some default_settings)
                (Some (match bootstrap_peers with Some l => l | None => repo_config_bootstrap_peers_retrieve end))
                headers (rc_replication config))
      end
  end.

(** ** src/repo/config/replication.c *)

(** [libp2p_peer_matches_id]. *)
Context (libp2p_peer_matches_id : bytes -> bytes -> bool).
Fixpoint find_replication_peer (l : list ReplicationPeer) (key : bytes) : cres unit (option ReplicationPeer) :=
  match l with
  | [] => Ok None
  | c :: l =>
      match rp_peer c with
      | None => Undef
      | Some p => if libp2p_peer_matches_id p key then Ok (Some c) else find_replication_peer l key
      end
  end.
Definition repo_config_get_replication_peer (replication : option Replication) (key : bytes)
  : cres unit (option ReplicationPeer) :=
  match replication with
  | Some r => match rep_peers r with Some l => find_replication_peer l key | None => Ok None end
  | None => Ok None
  end.
Definition repo_config_replication_approved_node (replication : option Replication) (peer : bytes)
  : cres unit bool :=
  found ← repo_config_get_replication_peer replication peer;
  Ok (match found with Some _ => true | None => false end).
Definition repo_config_replication_last_journal_time (replication : option Replication) (peer : bytes)
  : cres unit Z :=
  found ← repo_config_get_replication_peer replication peer;
  Ok (match found with Some rp => rp_lastJournalTime rp | None => 0 end).
End Config.

(** ** Properties *)

Lemma header_init_combine headers values n :
  (n <= length headers)%nat -> (n <= length values)%nat ->
  repo_config_gateway_http_header_init headers values n = Some (take n (combine headers values)).
Proof.
  revert headers values. induction n as [| n IH]; intros [| h headers] [| v values] H1 H2; cbn in *;
    try reflexivity; try lia. by rewrite IH by lia.
Qed.
(** The identity of a new configuration was looked at; at most five pairs of keys are made. *)
Lemma try_identities_valid `{Keys, Addrs} tries n identity bits i :
  try_identities tries n identity bits = Ok i ->
  ipfs_repo_config_is_valid_identity i = true /\
  exists k key, (k < tries)%nat /\ libp2p_crypto_rsa_generate_keypair (n + k) bits = Some key /\
    id_private_key i = Some key.
Proof.
  revert n identity. induction tries as [| tries IH]; intros n identity Hi; [discriminate |].
  cbn [try_identities] in Hi. apply bind_ok in Hi as (j & Hj & Hi).
  destruct (ipfs_repo_config_is_valid_identity j) eqn:Ev.
  - injection Hi as <-. split; [exact Ev |]. unfold repo_config_identity_init in Hj. case_match; [discriminate |].
    destruct (libp2p_crypto_rsa_generate_keypair n bits) as [key |] eqn:Ek; [| discriminate].
    apply bind_ok in Hj as (p & _ & [= <-]). exists O, key. rewrite Nat.add_0_r. split; [lia |]. auto.
  - destruct (IH _ _ Hi) as (Hv & k & key & Hk & Hg & Hp). split; [exact Hv |]. exists (S k), key.
    split; [lia |]. replace (n + S k)%nat with (S n + k)%nat by lia. auto.
Qed.
