(* ===== verification/FsRepo.v ===== *)
(** The repository on disk: its configuration file, how it is made and how it is opened
    (src/repo/fsrepo/fs_repo.c, lmdb_datastore.c for the database, src/repo/init.c). *)

From S2P Require Import Prelude Libc Libs Storage Exporter Jsmn Mdb Config.

(** ** The operating system's directories *)

(** The files, the directories, and the directories that may be made ([mkdir] of POSIX). *)
Record Os := MkOs { os_fs : FS; os_dirs : gset bytes; os_may_mkdir : bytes -> bool }.
Definition mkdir (path : bytes) (w : Os) : option Os :=
  if bool_decide (path ∈ os_dirs w) || negb (os_may_mkdir w path) then None
  else Some (MkOs (os_fs w) ({[path]} ∪ os_dirs w) (os_may_mkdir w)).
(** Utilities of the peer library (libp2p/os/utils.h) on them. *)
Class OsEnv := {
  os_utils_getenv : bytes -> option bytes;
  os_utils_get_homedir : bytes;
  os_utils_directory_exists : gset bytes -> bytes -> bool;
  os_mkdir : bytes -> Os -> option Os
}.

Section FsRepo.
Context {KE : Keys} {AD : Addrs} {OF : OsFiles} {OS : OsUtils}.

(** ** Writing the configuration file *)

Definition newline : bytes := [byte_of 10].
Definition line (s : bytes) : bytes := s ++ newline.
(** A key, its value and what ends the line. *)
Definition member (k : bytes) (v e : bytes) : bytes :=
  str "  " ++ quoted k ++ str ": " ++ v ++ e ++ newline.
Definition bool_text (b : Z) : bytes := if b =? 0 then str "false" else str "true".
Definition comma_sign : bytes := str ",".
Definition opening (indent k bracket : bytes) : bytes := line (indent ++ quoted k ++ str ": " ++ bracket).

(** [%s] of a pointer. *)
Definition text_of (p : option bytes) : cres unit bytes := match p with Some s => Ok s | None => Undef end.

Definition identity_text (id key : bytes) : bytes :=
  line (str "{") ++ opening (str " ") (str "Identity") (str "{")
  ++ member (str "PeerID") (quoted id) comma_sign ++ member (str "PrivKey") (quoted key) []
  ++ line (str " },").
Definition datastore_text (ty path max gc : bytes) (d : DatastoreConfig) : bytes :=
  opening (str " ") (str "Datastore") (str "{")
  ++ member (str "Type") (quoted ty) comma_sign
  ++ member (str "Path") (quoted path) comma_sign
  ++ member (str "StorageMax") (quoted max) comma_sign
  ++ member (str "StorageGCWatermark") (int_decimal (dc_storage_gc_watermark d)) comma_sign
  ++ member (str "GCPeriod") (quoted gc) comma_sign
  ++ member (str "Params") (str "null") comma_sign
  ++ member (str "NoSync") (bool_text (dc_no_sync d)) comma_sign
  ++ member (str "HashOnRead") (bool_text (dc_hash_on_read d)) comma_sign
  ++ member (str "BloomFilterSize") (int_decimal (dc_bloom_filter_size d)) []
  ++ line (str " },").
(** Strings of an array, each on its line. *)
Fixpoint string_lines (l : list bytes) : bytes :=
  match l with
  | [] => []
  | s :: l =>
      str "  " ++ quoted s ++ (match l with [] => newline | _ => line comma_sign end) ++ string_lines l
  end.
Definition addresses_text (swarm : list bytes) (api gateway : bytes) : bytes :=
  opening (str " ") (str "Addresses") (str "{")
  ++ opening (str "  ") (str "Swarm") (str "[") ++ string_lines swarm ++ line (str "  ],")
  ++ member (str "API") (quoted api) comma_sign
  ++ member (str "Gateway") (quoted gateway) []
  ++ line (str " },").
Definition settings_text (st : Settings) : bytes :=
  opening (str "  ") (str "Mounts") (str "{")
  ++ member (str "IPFS") (quoted (st_mount_ipfs st)) comma_sign
  ++ member (str "IPNS") (quoted (st_mount_ipns st)) comma_sign
  ++ member (str "FuseAllowOther") (str "false") []
  ++ line (str " },")
  ++ opening (str "  ") (str "Discovery") (str "{") ++ opening (str "   ") (str "MDNS") (str "{")
  ++ str " " ++ member (str "Enabled") (bool_text (st_mdns_enabled st)) comma_sign
  ++ str " " ++ member (str "Interval") (int_decimal (st_mdns_interval st)) []
  ++ line (str "  }") ++ line (str " },")
  ++ opening (str " ") (str "Ipns") (str "{")
  ++ member (str "RepublishedPeriod") (quoted []) comma_sign
  ++ member (str "RecordLifetime") (quoted []) comma_sign
  ++ member (str "ResolveCacheSize") (int_decimal (st_resolve_cache_size st)) []
  ++ line (str " },").
Definition bootstrap_text (peers : list bytes) : bytes :=
  opening (str " ") (str "Bootstrap") (str "[") ++ string_lines peers ++ line (str " ],").
(** The last header ends the object as well. *)
Fixpoint header_lines (l : list (bytes * bytes)) : bytes :=
  match l with
  | [] => []
  | (h, v) :: l =>
      opening (str "   ") h (str "[") ++ line (str "    " ++ quoted v) ++ str "  ]"
      ++ (match l with [] => newline ++ line (str " },") | _ => line comma_sign end) ++ header_lines l
  end.
Definition gateway_text (headers : list (bytes * bytes)) (st : Settings) : bytes :=
  opening (str " ") (str "Tour") (str "{") ++ member (str "Last") (quoted []) [] ++ line (str " },")
  ++ opening (str " ") (str "Gateway") (str "{") ++ opening (str "  ") (str "HTTPHeaders") (str "{")
  ++ header_lines headers
  ++ member (str "RootRedirect") (quoted (st_root_redirect st)) []
  ++ member (str "Writable") (bool_text (st_writable st)) []
  ++ member (str "PathPrefixes") (str "[]") []
  ++ line (str " },").
Definition closing_text : bytes :=
  opening (str " ") (str "SupernodeRouting") (str "{")
  ++ member (str "Servers") (str "null") [] ++ str " },"
  ++ opening (str " ") (str "API") (str "{") ++ member (str "HTTPHeaders") (str "null") [] ++ line (str " },")
  ++ opening (str " ") (str "Swarm") (str "{") ++ member (str "AddrFilters") (str "null") [] ++ str " }"
  ++ newline ++ str "}".

(** The private key is put in a protobuf, and that in base 64: [None] when that fails. *)
Definition private_key_text (identity : Identity) : cres unit (option bytes) :=
  match id_private_key identity with
  | Some key => Ok (libp2p_crypto_encoding_base64_encode (libp2p_crypto_private_key_protobuf_encode (key_der key)))
  | None => Undef
  end.
Definition config_text (config : RepoConfig) : cres unit (option bytes) :=
  match id_peer (rc_identity config), rc_settings config, rc_bootstrap config with
  | Some peer, Some st, Some bootstrap =>
      let d := rc_datastore config in
      let a := rc_addresses config in
      id ← text_of (peer_id peer);
      key ← private_key_text (rc_identity config);
      match key with
      | None => Ok None
      | Some key =>
          ty ← text_of (dc_type d); path ← text_of (dc_path d);
          max ← text_of (dc_storage_max d); gc ← text_of (dc_gc_period d);
          api ← text_of (ad_api a); gateway ← text_of (ad_gateway a);
          Ok (Some (identity_text id key ++ datastore_text ty path max gc d
                ++ addresses_text (ad_swarm a) api gateway ++ settings_text st
                ++ bootstrap_text (map ma_string bootstrap) ++ gateway_text (rc_headers config) st
                ++ closing_text))
      end
  | _, _, _ => Undef
  end.

(** The file; [false]: not written, and what the stream still held is lost. What [fprintf]
    returns is not looked at. *)
Definition repo_config_write_config_file (full_filename : bytes) (config : RepoConfig) (fs : FS)
  : cres unit (bool * FS) :=
  match write_file fs full_filename [] with
  | None => Ok (false, fs)
  | Some (_, empty) =>
      text ← config_text config;
      match text with
      | None => Ok (false, empty)
      | Some text =>
          match write_file fs full_filename text with
          | Some (_, fs) => Ok (true, fs)
          | None => Ok (false, fs)
          end
      end
  end.

Definition repo_config_get_file_name (path : bytes) : option bytes :=
  os_utils_filepath_join path (str "config") (len path + 8).
Definition repo_config_is_initialized (fs : FS) (full_path : bytes) : bool :=
  match repo_config_get_file_name full_path with
  | Some name => os_utils_file_exists (fs_files fs) name
  | None => false
  end.
Definition fs_repo_is_initialized_unsynced := repo_config_is_initialized.
Definition repo_check_initialized := fs_repo_is_initialized_unsynced.
Definition fs_repo_is_initialized := fs_repo_is_initialized_unsynced.
Definition fs_repo_write_config_file (path : bytes) (config : RepoConfig) (fs : FS) : cres unit (bool * FS) :=
  if fs_repo_is_initialized fs path then Ok (false, fs)
  else
    match repo_config_get_file_name path with
    | None => Ok (false, fs)
    | Some name => repo_config_write_config_file name config fs
    end.

(** ** Reading it *)

(** The size is kept in an int. *)
Definition _read_file (fs : FS) (path : bytes) : cres unit bytes :=
  let file_size := i32 (os_utils_file_size (fs_files fs) path) in
  if file_size <=? 0 then Err ()
  else match read_file fs path file_size with Some d => Ok d | None => Undef end.

Fixpoint find_from (data : bytes) (tokens : list jsmntok) (i : nat) (tag : bytes) : option nat :=
  match tokens with
  | [] => None
  | t :: tokens =>
      if decide (tok_type t = JSMN_STRING /\ tok_text data t = tag) then Some i
      else find_from data tokens (S i) tag
  end.
Definition _find_token (data : bytes) (tokens : list jsmntok) (start_from : nat) (tag : bytes) : option nat :=
  find_from data (drop start_from tokens) start_from tag.

(** The array behind the tokens that were found is not initialised. *)
Definition token_at (tokens : list jsmntok) (pos : nat) : cres unit jsmntok :=
  match tokens !! pos with Some t => Ok t | None => Undef end.

(** What becomes of [*result]; true(1) is returned for a text only. *)
Inductive string_value := Unchanged | Null | Text (s : bytes).
Definition token_string (data : bytes) (t : jsmntok) : string_value :=
  match tok_type t with
  | JSMN_PRIMITIVE => Null
  | JSMN_STRING => Text (tok_text data t)
  | _ => Unchanged
  end.
Definition _get_json_string_value (data : bytes) (tokens : list jsmntok) (search_from : nat)
  (tag : option bytes) : cres unit string_value :=
  match tag with
  | None => t ← token_at tokens search_from; Ok (token_string data t)
  | Some tag =>
      match _find_token data tokens search_from tag with
      | None => Ok Unchanged
      | Some pos => t ← token_at tokens (S pos); Ok (token_string data t)
      end
  end.
Definition primitive_value (s : bytes) : Z :=
  if decide (s = str "true") then 1
  else if decide (s = str "false") then 0
  else if decide (s = str "null") then 0
  else atoi s.
Definition _get_json_int_value (data : bytes) (tokens : list jsmntok) (search_from : nat)
  (tag : bytes) (result : Z) : cres unit Z :=
  match _find_token data tokens search_from tag with
  | None => Ok result
  | Some pos =>
      curr_token ← token_at tokens (S pos);
      if decide (tok_type curr_token = JSMN_PRIMITIVE) then Ok (primitive_value (tok_text data curr_token))
      else Ok result
  end.

Section Tokens.
Context (data : bytes) (tokens : list jsmntok).
Definition get_text (pos : nat) (tag : bytes) (old : option bytes) : cres unit (option bytes) :=
  v ← _get_json_string_value data tokens pos (Some tag);
  Ok (match v with Unchanged => old | Null => None | Text s => Some s end).
Definition get_int (pos : nat) (tag : bytes) (old : Z) : cres unit Z :=
  _get_json_int_value data tokens pos tag old.

(** The key makes the peer, whose id has to be the one of the file. The variable of the key
    is not initialised, the one of the id is NULL. *)
Definition open_identity (pos : nat) (identity : Identity) : cres unit Identity :=
  test_peer_id ← _get_json_string_value data tokens pos (Some (str "PeerID"));
  priv_key_base64 ← _get_json_string_value data tokens pos (Some (str "PrivKey"));
  match priv_key_base64 with
  | Text base64 =>
      identity ← repo_config_identity_build_private_key identity base64;
      match test_peer_id, id_peer identity with
      | Text test, Some (MkPeer (Some id) addrs _) =>
          if decide (test = id) then Ok (MkIdentity (Some (MkPeer (Some id) addrs true)) (id_private_key identity))
          else Err ()
      | _, _ => Undef
      end
  | _ => Undef
  end.
Definition open_datastore_config (pos : nat) (d : DatastoreConfig) : cres unit DatastoreConfig :=
  ty ← get_text pos (str "Type") (dc_type d);
  path ← get_text pos (str "Path") (dc_path d);
  max ← get_text pos (str "StorageMax") (dc_storage_max d);
  watermark ← get_int pos (str "StorageGCWatermark") (dc_storage_gc_watermark d);
  gc ← get_text pos (str "GCPeriod") (dc_gc_period d);
  params ← get_text pos (str "Params") (dc_params d);
  no_sync ← get_int pos (str "NoSync") (dc_no_sync d);
  hash_on_read ← get_int pos (str "HashOnRead") (dc_hash_on_read d);
  bloom ← get_int pos (str "BloomFilterSize") (dc_bloom_filter_size d);
  Ok (MkDatastore ty path max watermark gc params no_sync hash_on_read bloom).

(** The addresses made of strings, those that are none left out. *)
Definition made_addresses (l : list bytes) : list MultiAddress := omap multiaddress_new_from_string l.
(** The strings of an array, up to what is no string. *)
Fixpoint array_strings (n pos : nat) : cres unit (list bytes) :=
  match n with
  | O => Ok []
  | S n =>
      v ← _get_json_string_value data tokens pos None;
      match v with
      | Text s => l ← array_strings n (S pos); Ok (s :: l)
      | _ => Ok []
      end
  end.
(** [tokens[pos + 1]] for the position found, -1 when it was not. *)
Definition behind (pos : option nat) : nat := match pos with Some p => S p | None => O end.
(** The peer's list had its first entry followed by what is there now. *)
Definition add_addresses (addrs mas : list MultiAddress) : list MultiAddress :=
  match addrs, mas with
  | [], _ => mas
  | _, [] => addrs
  | a :: _, _ => a :: mas
  end.
Definition open_swarm (pos : nat) : cres unit (list bytes) :=
  let swarm_pos := behind (_find_token data tokens pos (str "Swarm")) in
  t ← token_at tokens swarm_pos;
  if decide (tok_type t = JSMN_ARRAY) then array_strings (Z.to_nat (tok_size t)) (S swarm_pos) else Err ().
Definition open_bootstrap (pos : nat) (old : option (list MultiAddress)) : cres unit (option (list MultiAddress)) :=
  match _find_token data tokens pos (str "Bootstrap") with
  | None => Ok old
  | Some p =>
      t ← token_at tokens (S p);
      if decide (tok_type t = JSMN_ARRAY) then
        l ← array_strings (Z.to_nat (tok_size t)) (S (S p));
        Ok (Some (made_addresses l))
      else Err ()
  end.

(** The position stays where it is from turn to turn. *)
Fixpoint replication_peers_loop (n pos : nat) : cres unit (list ReplicationPeer) :=
  match n with
  | O => Ok []
  | S n =>
      v ← _get_json_string_value data tokens pos None;
      match v with
      | Text val =>
          l ← replication_peers_loop n pos;
          Ok (match multiaddress_new_from_string val with
              | Some cur => MkReplicationPeer (Some (libp2p_peer_new_from_multiaddress cur)) 0 0 :: l
              | None => l
              end)
      | _ => Ok []
      end
  end.
Definition open_replication (pos : nat) (r : Replication) : cres unit Replication :=
  match _find_token data tokens pos (str "Replication") with
  | None => Ok r
  | Some p =>
      let curr_pos := S p in
      minutes ← get_int curr_pos (str "AnnounceMinutes") (rep_announce_minutes r);
      announce ← match _find_token data tokens curr_pos (str "Announce") with
                 | None => Ok (rep_announce r)
                 | Some q => t ← token_at tokens (S q);
                     Ok (if decide (tok_type t = JSMN_PRIMITIVE)
                         then Some (primitive_value (tok_text data t)) else rep_announce r)
                 end;
      match _find_token data tokens curr_pos (str "Peers") with
      | None => Ok (MkReplication announce minutes (rep_peers r))
      | Some q =>
          t ← token_at tokens (S q);
          if decide (tok_type t = JSMN_ARRAY) then
            l ← replication_peers_loop (Z.to_nat (tok_size t)) (S (S q));
            Ok (MkReplication announce minutes (Some l))
          else Ok (MkReplication announce minutes (rep_peers r))
      end
  end.

Definition with_addresses (identity : Identity) (swarm : list bytes) : Identity :=
  match id_peer identity with
  | Some (MkPeer id addrs local) =>
      MkIdentity (Some (MkPeer id (add_addresses addrs (made_addresses swarm)) local))
        (id_private_key identity)
  | None => identity
  end.
Definition open_tokens (config : RepoConfig) : cres unit RepoConfig :=
  match _find_token data tokens 0 (str "Identity") with
  | None => Err ()
  | Some pos =>
      identity ← open_identity pos (rc_identity config);
      datastore ← open_datastore_config pos (rc_datastore config);
      match _find_token data tokens pos (str "Addresses") with
      | None => Err ()
      | Some pos =>
          swarm ← open_swarm pos;
          api ← get_text pos (str "API") (ad_api (rc_addresses config));
          gateway ← get_text pos (str "Gateway") (ad_gateway (rc_addresses config));
          bootstrap ← open_bootstrap pos (rc_bootstrap config);
          replication ← open_replication pos (rc_replication config);
          Ok (MkConfig (with_addresses identity swarm) datastore (MkAddresses swarm api gateway)
                (rc_settings config) bootstrap (rc_headers config) replication)
      end
  end.
End Tokens.

(** A file that was not read leaves [data] uninitialised. A configuration that is not opened
    is freed by the callers. *)
Definition fs_repo_open_config (path : bytes) (config : RepoConfig) (fs : FS) : cres unit RepoConfig :=
  match os_utils_filepath_join path (str "config") (len path + 8) with
  | None => Err ()
  | Some full_filename =>
      match _read_file fs full_filename with
      | Ok content =>
          let data := c_str content in
          match jsmn_parse data 256 with
          | Ok [] | Err _ => Err ()
          | Ok tokens => open_tokens data tokens config
          | Undef => Undef
          | NoFuel => NoFuel
          end
      | _ => Undef
      end
  end.

(** ** The database *)

(** What opens an environment of the lightning database (lmdb.h). A code that is not 0 is a
    failure: a number below 0 for one of its own, above 0 for one of the system. *)
Class MdbOpen (DB : Mdb) := {
  mdb_env_create : Z;
  mdb_env_set_maxdbs : Z -> Z;
  mdb_env_open : bytes -> mdb_env + Z;
  mdb_dbi_open : mdb_txn -> mdb_table -> Z * mdb_txn
}.
Context {DB : Mdb} {MO : MdbOpen DB}.

(** An environment that was not made is closed; one that was not opened for a reason of the
    system's gets a transaction. The last code is not looked at. *)
Definition repo_fsrepro_lmdb_open (path : option bytes) : cres unit mdb_env :=
  if negb (mdb_env_create =? 0) then Undef
  else if negb (mdb_env_set_maxdbs 2 =? 0) then Err ()
  else
    p ← text_of path;
    match mdb_env_open p with
    | inr code => if code <? 0 then Err () else Undef
    | inl env =>
        let '(code, txn) := mdb_txn_begin env in
        if negb (code =? 0) then Err ()
        else
          let '(code, txn) := mdb_dbi_open txn DATASTORE in
          if negb (code =? 0) then Err ()
          else
            let '(code, txn) := mdb_dbi_open txn JOURNALSTORE in
            if negb (code =? 0) then Err () else Ok (snd (mdb_txn_commit txn))
    end.
Definition repo_fsrepo_lmdb_create_directory (path : option bytes) (w : Os) : cres unit (option Os) :=
  p ← text_of path; Ok (mkdir p w).

(** ** The repository *)

(** [struct FSRepo]; the database is behind the datastore of its configuration. *)
Record FSRepo := MkFSRepo { fr_path : bytes; fr_config : RepoConfig; fr_db : option mdb_env }.

Definition fs_repo_open_datastore (repo : FSRepo) : cres unit FSRepo :=
  ty ← text_of (dc_type (rc_datastore (fr_config repo)));
  if starts_with (str "lmdb") ty then
    db ← repo_fsrepro_lmdb_open (dc_path (rc_datastore (fr_config repo)));
    Ok (MkFSRepo (fr_path repo) (fr_config repo) (Some db))
  else Err ().
Definition ipfs_repo_fsrepo_open (repo : FSRepo) (fs : FS) : cres unit FSRepo :=
  if repo_check_initialized fs (fr_path repo) then
    config ← fs_repo_open_config (fr_path repo) (fr_config repo) fs;
    fs_repo_open_datastore (MkFSRepo (fr_path repo) config (fr_db repo))
  else Err ().

Definition with_fs (w : Os) (fs : FS) : Os := MkOs fs (os_dirs w) (os_may_mkdir w).
(** An error leaves what was made until then. *)
Definition ipfs_repo_fsrepo_datastore_init (repo : FSRepo) (w : Os) : cres Os Os :=
  match repo_fsrepo_lmdb_create_directory (dc_path (rc_datastore (fr_config repo))) w with
  | Ok (Some w) => Ok w
  | Ok None | Err _ => Err w
  | Undef => Undef
  | NoFuel => NoFuel
  end.
Definition ipfs_repo_fsrepo_blockstore_init (repo : FSRepo) (w : Os) : cres Os Os :=
  match os_utils_filepath_join (fr_path repo) (str "blockstore") (len (fr_path repo) + 15) with
  | None => Err w
  | Some full_path => match mkdir full_path w with Some w => Ok w | None => Err w end
  end.
Definition ipfs_repo_fsrepo_init (repo : FSRepo) (w : Os) : cres Os Os :=
  if fs_repo_is_initialized_unsynced (os_fs w) (fr_path repo) then Err w
  else
    match fs_repo_write_config_file (fr_path repo) (fr_config repo) (os_fs w) with
    | Ok (true, fs) =>
        w ← ipfs_repo_fsrepo_datastore_init repo (with_fs w fs);
        ipfs_repo_fsrepo_blockstore_init repo w
    | Ok (false, fs) => Err (with_fs w fs)
    | Err _ | Undef => Undef
    | NoFuel => NoFuel
    end.

(** ** src/repo/init.c *)

Context {OE : OsEnv} (libp2p_datastore_new : DatastoreConfig) (libp2p_datastore_init : bytes -> option DatastoreConfig).

(** What follows the first option that has something behind it. *)
Fixpoint config_option (argv : list bytes) : option bytes :=
  match argv with
  | [] => None
  | a :: rest =>
      if decide (a = str "-c" \/ a = str "--config") then
        match rest with d :: _ => Some d | [] => None end
      else config_option rest
  end.
(** The array of the last case has 512 bytes. *)
Definition ipfs_repo_get_home_directory (argv : list bytes) : cres unit bytes :=
  match config_option argv with
  | Some d => Ok d
  | None =>
      match os_utils_getenv (str "IPFS_PATH") with
      | Some d => Ok d
      | None =>
          let result := os_utils_get_homedir ++ str "/.ipfs" in
          if 512 <=? len result then Undef else Ok result
      end
  end.
(** [config_get_default_path_root] and [config_path] of src/repo/config/config.c. *)
Definition config_get_default_path_root : cres unit bytes :=
  match os_utils_getenv (str "IPFS_PATH") with
  | Some root => Ok root
  | None => root ← text_of (os_utils_getenv (str "HOME")); Ok (root ++ str "/.ipfs")
  end.
Definition config_path (config_root extension : bytes) (max_len : Z) : cres unit bytes :=
  root ← match config_root with [] => config_get_default_path_root | _ => Ok config_root end;
  match os_utils_filepath_join root extension max_len with Some p => Ok p | None => Err () end.
Definition ipfs_repo_get_directory (argv : list bytes) (w : Os) : cres unit (bytes * bool) :=
  d ← ipfs_repo_get_home_directory argv; Ok (d, os_utils_directory_exists (os_dirs w) d).
Definition ipfs_repo_fsrepo_new (repo_path : option bytes) (config : option RepoConfig) : cres unit FSRepo :=
  path ← match repo_path with Some p => Ok p | None => ipfs_repo_get_home_directory [] end;
  Ok (MkFSRepo path (default (ipfs_repo_config_new libp2p_datastore_new) config) None).

(** The peer id, and what the system looks like. *)
Definition make_ipfs_repository (path : bytes) (swarm_port : Z) (bootstrap_peers : option (list MultiAddress))
  (w : Os) : cres Os (bytes * Os) :=
  config ← on_err (ipfs_repo_config_init libp2p_datastore_init (ipfs_repo_config_new libp2p_datastore_new)
                     2048 path swarm_port bootstrap_peers) w;
  repo ← on_err (ipfs_repo_fsrepo_new (Some path) (Some config)) w;
  w ← ipfs_repo_fsrepo_init repo w;
  match id_peer (rc_identity config) with
  | Some (MkPeer (Some id) _ _) =>
      match os_utils_filepath_join path (str "config") 1024 with
      | Some name => if os_utils_file_exists (fs_files (os_fs w)) name then Ok (id, w) else Err w
      | None => Err w
      end
  | _ => Undef
  end.
Definition ipfs_repo_init (argv : list bytes) (w : Os) : cres Os (bytes * Os) :=
  directory ← on_err (ipfs_repo_get_directory argv w) w;
  let repo_directory := fst directory in
  if snd directory : bool then Err w
  else
    match os_mkdir repo_directory w with
    | None => Err w
    | Some w => make_ipfs_repository repo_directory 4001 None w
    end.
End FsRepo.

(** ** Properties *)

(** Every turn reads the first peer of the list. *)
Lemma replication_peers_repeat `{Addrs} data tokens n pos t :
  tokens !! pos = Some t -> tok_type t = JSMN_STRING ->
  replication_peers_loop data tokens n pos =
  Ok (match multiaddress_new_from_string (tok_text data t) with
      | Some cur => replicate n (MkReplicationPeer (Some (libp2p_peer_new_from_multiaddress cur)) 0 0)
      | None => []
      end).
Proof.
  intros Ht Hty. induction n as [| n IH]; [by destruct (multiaddress_new_from_string _) |].
  cbn [replication_peers_loop]. unfold _get_json_string_value, token_at. rewrite Ht. cbn [mbind cres_bind].
  unfold token_string. rewrite Hty, IH. cbn [mbind cres_bind]. by destruct (multiaddress_new_from_string _).
Qed.
(** What was not read is not looked at. *)
Lemma open_unread `{Keys, Addrs, OsFiles, OsUtils} path config fs name :
  os_utils_filepath_join path (str "config") (len path + 8) = Some name ->
  i32 (os_utils_file_size (fs_files fs) name) <= 0 -> fs_repo_open_config path config fs = Undef.
Proof.
  intros Hn Hs. unfold fs_repo_open_config, _read_file. rewrite Hn. by replace (_ <=? 0) with true by lia.
Qed.
