(* ===== verification/ConfigFile.v ===== *)
(** A configuration written to its file is read back from it. *)

From S2P Require Import Prelude Libc Libs Storage Exporter Jsmn JsonShape Mdb Config FsRepo.

(** ** The file as pieces *)

Definition member_ps (k : bytes) (v e : list piece) : list piece :=
  [Blank (str "  "); Str k; Colon; Blank (str " ")] ++ v ++ e ++ [Blank newline].
Definition opening_ps (indent k : bytes) (t : jsmntype) : list piece :=
  [Blank indent; Str k; Colon; Blank (str " "); Open t; Blank newline].
Definition closing_ps (indent : bytes) (t : jsmntype) (e : list piece) : list piece :=
  [Blank indent; Close t] ++ e ++ [Blank newline].
Fixpoint string_ps (l : list bytes) : list piece :=
  match l with
  | [] => []
  | s :: l =>
      [Blank (str "  "); Str s] ++ (match l with [] => [Blank newline] | _ => [Comma; Blank newline] end)
      ++ string_ps l
  end.
Fixpoint header_ps (l : list (bytes * bytes)) : list piece :=
  match l with
  | [] => []
  | (h, v) :: l =>
      opening_ps (str "   ") h JSMN_ARRAY ++ [Blank (str "    "); Str v; Blank newline] ++
      [Blank (str "  "); Close JSMN_ARRAY] ++
      (match l with
       | [] => Blank newline :: closing_ps (str " ") JSMN_OBJECT [Comma]
       | _ => [Comma; Blank newline]
       end) ++ header_ps l
  end.

Lemma render_app a b : render_all (a ++ b) = render_all a ++ render_all b.
Proof. unfold render_all. by rewrite map_app, concat_app. Qed.
Lemma render_member k v e : render_all (member_ps k v e) = member k (render_all v) (render_all e).
Proof.
  unfold member_ps, member. rewrite !render_app. unfold render_all at 1 4. cbn [map concat render].
  unfold quoted. repeat first [rewrite <- app_assoc | progress cbn [app]]. by rewrite app_nil_r.
Qed.
Lemma render_opening i k t :
  t = JSMN_OBJECT \/ t = JSMN_ARRAY ->
  render_all (opening_ps i k t) = opening i k (match t with JSMN_ARRAY => str "[" | _ => str "{" end).
Proof.
  unfold opening_ps, opening, line, quoted, render_all. cbn [map concat render].
  intros [-> | ->]; repeat first [rewrite <- app_assoc | progress cbn [app]]; reflexivity.
Qed.
Lemma render_strings l : render_all (string_ps l) = string_lines l.
Proof.
  induction l as [| s l IH]; [reflexivity |]. cbn [string_ps string_lines]. rewrite !render_app, IH.
  unfold render_all at 1. cbn [map concat render]. rewrite app_nil_r, <- app_assoc.
  by destruct l.
Qed.
Lemma render_headers l : render_all (header_ps l) = header_lines l.
Proof.
  induction l as [| [h v] l IH]; [reflexivity |]. cbn [header_ps header_lines].
  rewrite !render_app, IH, render_opening by tauto. f_equal.
  unfold render_all, line. cbn [map concat render]. rewrite ?app_nil_r, <- ?app_assoc.
  f_equal. destruct l; reflexivity.
Qed.

(** ** The pieces of a configuration *)

(** The strings a configuration file holds, and the numbers. *)
Record texts := MkTexts {
  tx_id : bytes; tx_key : bytes; tx_type : bytes; tx_path : bytes; tx_max : bytes; tx_gc : bytes;
  tx_swarm : list bytes; tx_api : bytes; tx_gateway : bytes; tx_bootstrap : list bytes;
  tx_headers : list (bytes * bytes); tx_datastore : DatastoreConfig; tx_settings : Settings
}.

Section Pieces.
Context (x : texts).
Let d := tx_datastore x.
Let st := tx_settings x.
Definition number (n : Z) : list piece := [Prim (int_decimal n)].
Definition truth (n : Z) : list piece := [Prim (bool_text n)].
Definition nothing : list piece := [Prim (str "null")].
Definition identity_ps : list piece :=
  [Open JSMN_OBJECT; Blank newline] ++ opening_ps (str " ") (str "Identity") JSMN_OBJECT
  ++ member_ps (str "PeerID") [Str (tx_id x)] [Comma] ++ member_ps (str "PrivKey") [Str (tx_key x)] []
  ++ closing_ps (str " ") JSMN_OBJECT [Comma].
Definition datastore_ps : list piece :=
  opening_ps (str " ") (str "Datastore") JSMN_OBJECT
  ++ member_ps (str "Type") [Str (tx_type x)] [Comma]
  ++ member_ps (str "Path") [Str (tx_path x)] [Comma]
  ++ member_ps (str "StorageMax") [Str (tx_max x)] [Comma]
  ++ member_ps (str "StorageGCWatermark") (number (dc_storage_gc_watermark d)) [Comma]
  ++ member_ps (str "GCPeriod") [Str (tx_gc x)] [Comma]
  ++ member_ps (str "Params") nothing [Comma]
  ++ member_ps (str "NoSync") (truth (dc_no_sync d)) [Comma]
  ++ member_ps (str "HashOnRead") (truth (dc_hash_on_read d)) [Comma]
  ++ member_ps (str "BloomFilterSize") (number (dc_bloom_filter_size d)) []
  ++ closing_ps (str " ") JSMN_OBJECT [Comma].
Definition swarm_opening : list piece :=
  opening_ps (str " ") (str "Addresses") JSMN_OBJECT ++
  [Blank (str "  "); Str (str "Swarm"); Colon; Blank (str " ")].
Definition addresses_end : list piece :=
  [Comma; Blank newline]
  ++ member_ps (str "API") [Str (tx_api x)] [Comma]
  ++ member_ps (str "Gateway") [Str (tx_gateway x)] []
  ++ closing_ps (str " ") JSMN_OBJECT [Comma].
Definition settings_ps : list piece :=
  opening_ps (str "  ") (str "Mounts") JSMN_OBJECT
  ++ member_ps (str "IPFS") [Str (st_mount_ipfs st)] [Comma]
  ++ member_ps (str "IPNS") [Str (st_mount_ipns st)] [Comma]
  ++ member_ps (str "FuseAllowOther") [Prim (str "false")] []
  ++ closing_ps (str " ") JSMN_OBJECT [Comma]
  ++ opening_ps (str "  ") (str "Discovery") JSMN_OBJECT ++ opening_ps (str "   ") (str "MDNS") JSMN_OBJECT
  ++ [Blank (str " ")] ++ member_ps (str "Enabled") (truth (st_mdns_enabled st)) [Comma]
  ++ [Blank (str " ")] ++ member_ps (str "Interval") (number (st_mdns_interval st)) []
  ++ closing_ps (str "  ") JSMN_OBJECT [] ++ closing_ps (str " ") JSMN_OBJECT [Comma]
  ++ opening_ps (str " ") (str "Ipns") JSMN_OBJECT
  ++ member_ps (str "RepublishedPeriod") [Str []] [Comma]
  ++ member_ps (str "RecordLifetime") [Str []] [Comma]
  ++ member_ps (str "ResolveCacheSize") (number (st_resolve_cache_size st)) []
  ++ closing_ps (str " ") JSMN_OBJECT [Comma].
(** An array of strings behind its key. *)
Definition array_ps (l : list bytes) (indent : bytes) : list piece :=
  Open JSMN_ARRAY :: (Blank newline :: string_ps l ++ [Blank indent]) ++ [Close JSMN_ARRAY].
Definition bootstrap_opening : list piece :=
  [Blank (str " "); Str (str "Bootstrap"); Colon; Blank (str " ")].
Definition gateway_ps : list piece :=
  [Comma; Blank newline]
  ++ opening_ps (str " ") (str "Tour") JSMN_OBJECT ++ member_ps (str "Last") [Str []] []
  ++ closing_ps (str " ") JSMN_OBJECT [Comma]
  ++ opening_ps (str " ") (str "Gateway") JSMN_OBJECT ++ opening_ps (str "  ") (str "HTTPHeaders") JSMN_OBJECT
  ++ header_ps (tx_headers x)
  ++ member_ps (str "RootRedirect") [Str (st_root_redirect st)] []
  ++ member_ps (str "Writable") (truth (st_writable st)) []
  ++ member_ps (str "PathPrefixes") [Open JSMN_ARRAY; Close JSMN_ARRAY] []
  ++ closing_ps (str " ") JSMN_OBJECT [Comma].
Definition ending_ps : list piece :=
  opening_ps (str " ") (str "SupernodeRouting") JSMN_OBJECT
  ++ member_ps (str "Servers") nothing [] ++ [Blank (str " "); Close JSMN_OBJECT; Comma]
  ++ opening_ps (str " ") (str "API") JSMN_OBJECT ++ member_ps (str "HTTPHeaders") nothing []
  ++ closing_ps (str " ") JSMN_OBJECT [Comma]
  ++ opening_ps (str " ") (str "Swarm") JSMN_OBJECT ++ member_ps (str "AddrFilters") nothing []
  ++ [Blank (str " "); Close JSMN_OBJECT; Blank newline; Close JSMN_OBJECT].
Definition config_ps : list piece :=
  (identity_ps ++ datastore_ps ++ swarm_opening) ++ array_ps (tx_swarm x) (str "  ") ++
  (addresses_end ++ settings_ps ++ bootstrap_opening) ++ array_ps (tx_bootstrap x) (str " ") ++
  gateway_ps ++ ending_ps.

Definition whole_text : bytes :=
  identity_text (tx_id x) (tx_key x) ++ datastore_text (tx_type x) (tx_path x) (tx_max x) (tx_gc x) d
  ++ addresses_text (tx_swarm x) (tx_api x) (tx_gateway x) ++ settings_text st
  ++ bootstrap_text (tx_bootstrap x) ++ gateway_text (tx_headers x) st ++ closing_text.

Lemma render_one p : render_all [p] = render p.
Proof. apply app_nil_r. Qed.
Ltac render_parts :=
  rewrite ?render_app, ?render_member, ?render_headers, ?render_strings;
  rewrite ?render_opening by tauto;
  unfold number, truth, nothing; rewrite ?render_one.
Lemma render_identity : render_all identity_ps = identity_text (tx_id x) (tx_key x).
Proof. unfold identity_ps, identity_text. render_parts. reflexivity. Qed.
Lemma render_datastore :
  render_all datastore_ps = datastore_text (tx_type x) (tx_path x) (tx_max x) (tx_gc x) d.
Proof. unfold datastore_ps, datastore_text. render_parts. reflexivity. Qed.
Lemma render_settings : render_all settings_ps = settings_text st.
Proof. unfold settings_ps, settings_text. render_parts. reflexivity. Qed.
Lemma render_gateway : render_all gateway_ps = comma_sign ++ newline ++ gateway_text (tx_headers x) st.
Proof. unfold gateway_ps, gateway_text. render_parts. reflexivity. Qed.
Lemma render_addresses_end :
  render_all addresses_end = comma_sign ++ newline ++ member (str "API") (quoted (tx_api x)) comma_sign
  ++ member (str "Gateway") (quoted (tx_gateway x)) [] ++ line (str " },").
Proof. unfold addresses_end. render_parts. reflexivity. Qed.
Lemma render_array l indent : render_all (array_ps l indent) = str "[" ++ newline ++ string_lines l ++ indent ++ str "]".
Proof.
  unfold array_ps. change (Open JSMN_ARRAY :: (Blank newline :: string_ps l ++ [Blank indent]) ++ [Close JSMN_ARRAY])
    with ([Open JSMN_ARRAY] ++ ([Blank newline] ++ string_ps l ++ [Blank indent]) ++ [Close JSMN_ARRAY]).
  render_parts. cbn [render]. by rewrite <- !app_assoc.
Qed.
Lemma render_ending : render_all ending_ps = closing_text.
Proof. unfold ending_ps, closing_text. render_parts. reflexivity. Qed.
Lemma render_config : render_all config_ps = whole_text.
Proof.
  unfold config_ps. rewrite !render_app, render_identity, render_datastore, !render_array, render_addresses_end,
    render_settings, render_gateway, render_ending.
  unfold whole_text, addresses_text, bootstrap_text, swarm_opening. rewrite render_app, render_opening by tauto.
  rewrite <- !app_assoc. unfold opening, line. rewrite <- !app_assoc. reflexivity.
Qed.
End Pieces.

(** ** Its tokens *)

(** What the reader looks for. *)
Definition config_tags : list bytes :=
  map str ["Identity"; "PeerID"; "PrivKey"; "Type"; "Path"; "StorageMax"; "StorageGCWatermark"; "GCPeriod";
           "Params"; "NoSync"; "HashOnRead"; "BloomFilterSize"; "Addresses"; "Swarm"; "API"; "Gateway";
           "Bootstrap"; "Replication"]%string.
(** A string that needs no escape in the file and is none of them. *)
Definition good_value (s : bytes) : bool := forallb plain_char s && negb (bool_decide (s ∈ config_tags)).

(** A token: a key of the format, a string that was written, or no string. *)
Inductive item := Key (k : bytes) | Val (s : bytes) | Oth (t : jsmntype) (s : option bytes).
Definition item_shape (i : item) : tshape :=
  match i with Key s | Val s => (JSMN_STRING, Some s) | Oth t s => (t, s) end.
Definition item_ok (i : item) : bool :=
  match i with
  | Key _ => true
  | Val s => negb (bool_decide (s ∈ config_tags))
  | Oth t _ => negb (bool_decide (t = JSMN_STRING))
  end.

Section Items.
Context (x : texts).
Let d := tx_datastore x.
Let st := tx_settings x.
Let O_ := Oth JSMN_OBJECT None.
Let A_ := Oth JSMN_ARRAY None.
Let P_ (s : bytes) := Oth JSMN_PRIMITIVE (Some s).
Definition items_before : list item :=
  [O_; Key (str "Identity"); O_; Key (str "PeerID"); Val (tx_id x); Key (str "PrivKey"); Val (tx_key x);
   Key (str "Datastore"); O_; Key (str "Type"); Val (tx_type x); Key (str "Path"); Val (tx_path x);
   Key (str "StorageMax"); Val (tx_max x);
   Key (str "StorageGCWatermark"); P_ (int_decimal (dc_storage_gc_watermark d));
   Key (str "GCPeriod"); Val (tx_gc x); Key (str "Params"); P_ (str "null");
   Key (str "NoSync"); P_ (bool_text (dc_no_sync d)); Key (str "HashOnRead"); P_ (bool_text (dc_hash_on_read d));
   Key (str "BloomFilterSize"); P_ (int_decimal (dc_bloom_filter_size d));
   Key (str "Addresses"); O_; Key (str "Swarm"); A_].
Definition items_between : list item :=
  [Key (str "API"); Val (tx_api x); Key (str "Gateway"); Val (tx_gateway x); Key (str "Mounts"); O_;
   Key (str "IPFS"); Val (st_mount_ipfs st); Key (str "IPNS"); Val (st_mount_ipns st);
   Key (str "FuseAllowOther"); P_ (str "false"); Key (str "Discovery"); O_; Key (str "MDNS"); O_;
   Key (str "Enabled"); P_ (bool_text (st_mdns_enabled st)); Key (str "Interval"); P_ (int_decimal (st_mdns_interval st));
   Key (str "Ipns"); O_; Key (str "RepublishedPeriod"); Val []; Key (str "RecordLifetime"); Val [];
   Key (str "ResolveCacheSize"); P_ (int_decimal (st_resolve_cache_size st)); Key (str "Bootstrap"); A_].
Definition header_items (l : list (bytes * bytes)) : list item :=
  flat_map (fun hv => [Val hv.1; A_; Val hv.2]) l.
Definition items_behind : list item :=
  [Key (str "Tour"); O_; Key (str "Last"); Val []; Key (str "Gateway"); O_; Key (str "HTTPHeaders"); O_]
  ++ header_items (tx_headers x)
  ++ [Key (str "RootRedirect"); Val (st_root_redirect st); Key (str "Writable"); P_ (bool_text (st_writable st));
      Key (str "PathPrefixes"); A_; Key (str "SupernodeRouting"); O_; Key (str "Servers"); P_ (str "null");
      Key (str "API"); O_; Key (str "HTTPHeaders"); P_ (str "null"); Key (str "Swarm"); O_;
      Key (str "AddrFilters"); P_ (str "null")].
Definition config_items : list item :=
  items_before ++ map Val (tx_swarm x) ++ items_between ++ map Val (tx_bootstrap x) ++ items_behind.

Lemma shapes_strings l : shapes (string_ps l) = map item_shape (map Val l).
Proof.
  induction l as [| s l IH]; [reflexivity |]. cbn [string_ps]. rewrite !shapes_app, IH. by destruct l.
Qed.
Lemma shapes_headers l : shapes (header_ps l) = map item_shape (header_items l).
Proof.
  induction l as [| [h v] l IH]; [reflexivity |]. cbn [header_ps]. rewrite !shapes_app, IH. by destruct l.
Qed.
Lemma shapes_array l indent : shapes (array_ps l indent) = (JSMN_ARRAY, None) :: map item_shape (map Val l).
Proof.
  unfold array_ps. change (shapes (Open JSMN_ARRAY :: (Blank newline :: string_ps l ++ [Blank indent]) ++ [Close JSMN_ARRAY]))
    with ((JSMN_ARRAY, None) :: shapes ((string_ps l ++ [Blank indent]) ++ [Close JSMN_ARRAY])).
  rewrite !shapes_app, shapes_strings. cbn. by rewrite !app_nil_r.
Qed.
Lemma shapes_config : shapes (config_ps x) = map item_shape config_items.
Proof.
  unfold config_ps, config_items, items_behind, gateway_ps.
  rewrite !shapes_app, !shapes_array, shapes_headers, !map_app. unfold items_before, items_between.
  cbn. rewrite <- !app_assoc. reflexivity.
Qed.

(** ** The text has tokens *)

Lemma nesting_flat ps s :
  forallb (fun p => match p with Open _ | Close _ => false | _ => true end) ps = true -> nesting s ps = Some s.
Proof.
  induction ps as [| p ps IH]; intros H; [reflexivity |]. apply andb_true_iff in H as [Hp H].
  destruct p; try discriminate; cbn [nesting]; by apply IH.
Qed.
Lemma items_of_strings l : forallb is_item (string_ps l) = true.
Proof.
  induction l as [| s l IH]; [reflexivity |]. cbn [string_ps]. rewrite !forallb_app, IH. by destruct l.
Qed.
Lemma items_of_array l indent : forallb is_item (Blank newline :: string_ps l ++ [Blank indent]) = true.
Proof. cbn [forallb]. by rewrite forallb_app, items_of_strings. Qed.
Lemma nesting_array s l indent : nesting s (array_ps l indent) = Some s.
Proof.
  unfold array_ps. cbn [nesting]. rewrite nesting_app, nesting_flat; [reflexivity |].
  pose proof (items_of_array l indent) as H. revert H. generalize (Blank newline :: string_ps l ++ [Blank indent]).
  induction l0 as [| p l0 IH]; intros H; [reflexivity |]. apply andb_true_iff in H as [Hp H]. cbn [forallb].
  rewrite IH by exact H. by destruct p.
Qed.
Lemma nesting_seq s a s1 b r : nesting s a = Some s1 -> nesting s1 b = r -> nesting s (a ++ b) = r.
Proof. intros Ha Hb. by rewrite nesting_app, Ha. Qed.
Lemma nesting_headers s l : l <> [] -> nesting (JSMN_OBJECT :: s) (header_ps l) = Some s.
Proof.
  induction l as [| [h v] l IH]; intros H; [done |]. cbn [header_ps].
  destruct l as [| hv l]; [reflexivity |]. do 4 (eapply nesting_seq; [reflexivity |]). by apply IH.
Qed.
Lemma nesting_config : tx_headers x <> [] -> nesting [] (config_ps x) = Some [].
Proof.
  intros H. unfold config_ps, gateway_ps. eapply nesting_seq; [reflexivity |].
  eapply nesting_seq; [apply nesting_array |]. eapply nesting_seq; [reflexivity |].
  eapply nesting_seq; [apply nesting_array |]. rewrite <- !app_assoc. do 6 (eapply nesting_seq; [reflexivity |]).
  eapply nesting_seq; [by apply nesting_headers |]. reflexivity.
Qed.
End Items.

(** ** Texts that can be kept *)

Definition text_values (x : texts) : list bytes :=
  [tx_id x; tx_key x; tx_type x; tx_path x; tx_max x; tx_gc x; tx_api x; tx_gateway x;
   st_mount_ipfs (tx_settings x); st_mount_ipns (tx_settings x); st_root_redirect (tx_settings x)]
  ++ tx_swarm x ++ tx_bootstrap x ++ map fst (tx_headers x) ++ map snd (tx_headers x).
Record texts_ok (x : texts) : Prop := {
  values_good : Forall (fun s => good_value s = true) (text_values x);
  headers_there : tx_headers x <> [];
  tokens_fit : len (config_items x) <= 256;
  (* the size of the file is an int *)
  text_fits : len (whole_text x) < 2 ^ 31
}.

Lemma decimal_prim fuel n acc :
  0 <= n -> forallb prim_char acc = true -> forallb prim_char (decimal_fuel fuel n acc) = true.
Proof.
  revert n acc. induction fuel as [| fuel IH]; intros n acc Hn Ha; cbn [decimal_fuel]; [exact Ha |].
  assert (H : forallb prim_char (byte_of (48 + n mod 10) :: acc) = true).
  { cbn [forallb]. rewrite Ha, andb_true_r. pose proof (Z.mod_pos_bound n 10 ltac:(lia)) as Hm.
    generalize dependent (n mod 10). intros m Hm.
    assert (E : m = 0 \/ m = 1 \/ m = 2 \/ m = 3 \/ m = 4 \/ m = 5 \/ m = 6 \/ m = 7 \/ m = 8 \/ m = 9) by lia.
    repeat destruct E as [-> | E]; try reflexivity. subst m. reflexivity. }
  destruct (n / 10 =? 0); [exact H |]. apply IH; [apply Z.div_pos; lia | exact H].
Qed.
Lemma number_ok n : piece_ok (Prim (int_decimal n)) = true.
Proof.
  cbn [piece_ok]. unfold int_decimal, decimal.
  pose proof (decimal_prim 20 (- n) [] ) as H1. pose proof (decimal_prim 20 n []) as H2.
  destruct (n <? 0) eqn:E.
  - cbn [forallb]. rewrite H1 by (try reflexivity; lia). reflexivity.
  - rewrite H2 by (try reflexivity; lia). destruct (decimal_fuel_head 20 n [] ltac:(lia)) as (c & r & -> & _). reflexivity.
Qed.
Lemma truth_ok n : piece_ok (Prim (bool_text n)) = true.
Proof. unfold bool_text. by destruct (n =? 0). Qed.

Definition ends_well (ps : list piece) : bool :=
  match last ps with Some (Prim _) => false | _ => true end.
Lemma pieces_ok_app a b :
  pieces_ok a = true -> ends_well a = true -> pieces_ok b = true -> pieces_ok (a ++ b) = true.
Proof.
  unfold ends_well. induction a as [| p a IH]; intros Ha He Hb; [exact Hb |].
  cbn [app pieces_ok] in *. apply andb_true_iff in Ha as [Hp Ha]. apply andb_true_iff in Hp as [Hp Hn].
  rewrite Hp. destruct a as [| q a].
  - cbn [app]. rewrite Hb, andb_true_r. cbn in He. by destruct p.
  - cbn [app] in *. rewrite Hn. apply IH; [exact Ha | exact He | exact Hb].
Qed.

Section Ok.
Context (x : texts) (Hx : texts_ok x).
Lemma value_plain s : s ∈ text_values x -> piece_ok (Str s) = true.
Proof.
  intros Hs. pose proof (proj1 (Forall_forall _ _) (values_good x Hx) s Hs) as H.
  by apply andb_true_iff in H as [H _].
Qed.
Lemma pieces_strings l : (forall s, s ∈ l -> piece_ok (Str s) = true) -> pieces_ok (string_ps l) = true /\ ends_well (string_ps l) = true.
Proof.
  induction l as [| s l IH]; intros H; [by split |]. destruct IH as [IH1 IH2]; [set_solver |].
  cbn [string_ps]. assert (Hs : piece_ok (Str s) = true) by set_solver.
  destruct l as [| t l].
  - cbn [app pieces_ok string_ps]. by rewrite Hs.
  - split.
    + apply pieces_ok_app; [cbn [pieces_ok]; by rewrite Hs | reflexivity |]. by apply pieces_ok_app.
    + unfold ends_well in *. rewrite !last_app. destruct (last (string_ps (t :: l))); [exact IH2 | reflexivity].
Qed.
Lemma pieces_array l indent :
  (forall s, s ∈ l -> piece_ok (Str s) = true) -> forallb is_blank indent = true ->
  pieces_ok (array_ps l indent) = true /\ ends_well (array_ps l indent) = true.
Proof.
  intros H Hi. destruct (pieces_strings l H) as [H1 H2]. unfold array_ps. split.
  - change (pieces_ok ([Open JSMN_ARRAY; Blank newline] ++ (string_ps l ++ [Blank indent]) ++ [Close JSMN_ARRAY]) = true).
    rewrite <- app_assoc. apply pieces_ok_app; [reflexivity | reflexivity |]. apply pieces_ok_app; [exact H1 | exact H2 |].
    cbn [app pieces_ok piece_ok]. by rewrite Hi.
  - unfold ends_well. rewrite app_comm_cons, last_app. reflexivity.
Qed.
Lemma pieces_headers l :
  (forall s, s ∈ map fst l -> piece_ok (Str s) = true) -> (forall s, s ∈ map snd l -> piece_ok (Str s) = true) ->
  pieces_ok (header_ps l) = true /\ ends_well (header_ps l) = true.
Proof.
  induction l as [| [h v] l IH]; intros H1 H2; [by split |].
  destruct IH as [I1 I2]; [intros s Hs; apply H1; by right | intros s Hs; apply H2; by right |].
  assert (Hh : piece_ok (Str h) = true) by (apply H1; left). assert (Hv : piece_ok (Str v) = true) by (apply H2; left).
  cbn [header_ps]. rewrite !app_assoc. split.
  - apply pieces_ok_app; [| by destruct l | exact I1].
    destruct l; cbn -[piece_ok]; rewrite Hh, Hv; reflexivity.
  - unfold ends_well in *. rewrite last_app. destruct (last (header_ps l)); [exact I2 |]. by destruct l.
Qed.

Ltac blocks :=
  cbn -[piece_ok];
  repeat lazymatch goal with |- (_ && _) = true => apply andb_true_intro; split end;
  first [reflexivity | apply number_ok | apply truth_ok | apply value_plain; unfold text_values; set_solver].
Lemma pieces_config : pieces_ok (config_ps x) = true.
Proof.
  destruct (pieces_array (tx_swarm x) (str "  ")) as [S1 S2];
    [intros s Hs; apply value_plain; unfold text_values; set_solver | reflexivity |].
  destruct (pieces_array (tx_bootstrap x) (str " ")) as [B1 B2];
    [intros s Hs; apply value_plain; unfold text_values; set_solver | reflexivity |].
  destruct (pieces_headers (tx_headers x)) as [H1 H2];
    [intros s Hs; apply value_plain; unfold text_values; set_solver ..|].
  unfold config_ps, gateway_ps. apply pieces_ok_app; [blocks | reflexivity |]. apply pieces_ok_app; [exact S1 | exact S2 |].
  apply pieces_ok_app; [blocks | reflexivity |]. apply pieces_ok_app; [exact B1 | exact B2 |].
  rewrite <- !app_assoc. do 6 (apply pieces_ok_app; [blocks | reflexivity |]).
  apply pieces_ok_app; [exact H1 | exact H2 |]. blocks.
Qed.
End Ok.

(** ** Looking in the tokens *)

Fixpoint i_find (l : list item) (i : nat) (tag : bytes) : option nat :=
  match l with
  | [] => None
  | Key k :: l => if decide (k = tag) then Some i else i_find l (S i) tag
  | _ :: l => i_find l (S i) tag
  end.
Lemma i_find_app a b i tag :
  i_find (a ++ b) i tag = match i_find a i tag with Some j => Some j | None => i_find b (i + length a) tag end.
Proof.
  revert i. induction a as [| x a IH]; intros i; cbn; [by rewrite Nat.add_0_r |].
  replace (i + S (length a))%nat with (S i + length a)%nat by lia.
  destruct x; [| apply IH | apply IH]. case_decide; [reflexivity | apply IH].
Qed.
Lemma i_find_values l i tag : i_find (map Val l) i tag = None.
Proof. revert i. induction l as [| s l IH]; intros i; [reflexivity | apply IH]. Qed.
Lemma i_find_headers l i tag : i_find (header_items l) i tag = None.
Proof. revert i. induction l as [| [h v] l IH]; intros i; [reflexivity | cbn; apply IH]. Qed.

Definition item_matches (data : bytes) (t : jsmntok) (i : item) : Prop :=
  tok_type t = (item_shape i).1 /\
  match (item_shape i).2 with Some s => tok_text data t = s | None => True end.

Section Look.
Context {AD : Addrs} (data : bytes) (tokens : list jsmntok) (items : list item).
Context (Hm : Forall2 (item_matches data) tokens items) (Hok : Forall (fun i => item_ok i = true) items).

Lemma find_items pos tag :
  tag ∈ config_tags -> _find_token data tokens pos tag = i_find (drop pos items) pos tag.
Proof.
  intros Ht. unfold _find_token. pose proof (Forall2_drop _ _ _ pos Hm) as H.
  pose proof (Forall_drop _ pos _ Hok) as Hk. revert H Hk.
  generalize (drop pos tokens), (drop pos items). clear Hm Hok. generalize pos at 1 2. intros i ts its H. revert i.
  induction H as [| t it ts its Hti H IH]; intros i Hk; [reflexivity |]. inversion_clear Hk as [| ? ? Hi Hk'].
  cbn [find_from i_find]. destruct Hti as [Hty Htx]. rewrite IH by exact Hk'. destruct it as [k | s | ty o]; cbn in *.
  - rewrite Hty, Htx. repeat case_decide; tauto.
  - rewrite Hty, Htx. rewrite decide_False; [reflexivity |]. intros [_ ->].
    apply negb_true_iff, bool_decide_eq_false in Hi. contradiction.
  - rewrite Hty. rewrite decide_False; [reflexivity |]. intros [-> _]. discriminate.
Qed.
Lemma token_item pos i : items !! pos = Some i -> exists t, token_at tokens pos = Ok t /\ item_matches data t i.
Proof.
  intros H. destruct (Forall2_lookup_r _ _ _ _ _ Hm H) as (t & Ht & Hi). exists t. unfold token_at. by rewrite Ht.
Qed.
Lemma string_item pos tag q s :
  tag ∈ config_tags -> i_find (drop pos items) pos tag = Some q -> items !! S q = Some (Val s) ->
  _get_json_string_value data tokens pos (Some tag) = Ok (Text s).
Proof.
  intros Ht Hf Hi. unfold _get_json_string_value. rewrite find_items, Hf by exact Ht.
  destruct (token_item _ _ Hi) as (t & -> & Hty & Htx). cbn in *. unfold token_string. by rewrite Hty, Htx.
Qed.
Lemma text_item pos tag q s old :
  tag ∈ config_tags -> i_find (drop pos items) pos tag = Some q -> items !! S q = Some (Val s) ->
  get_text data tokens pos tag old = Ok (Some s).
Proof. intros Ht Hf Hi. unfold get_text. by rewrite (string_item _ _ _ _ Ht Hf Hi). Qed.
Lemma null_item pos tag q s old :
  tag ∈ config_tags -> i_find (drop pos items) pos tag = Some q -> items !! S q = Some (Oth JSMN_PRIMITIVE (Some s)) ->
  get_text data tokens pos tag old = Ok None.
Proof.
  intros Ht Hf Hi. unfold get_text, _get_json_string_value. rewrite find_items, Hf by exact Ht.
  destruct (token_item _ _ Hi) as (t & -> & Hty & Htx). cbn in *. unfold token_string. by rewrite Hty.
Qed.
Lemma int_item pos tag q s old :
  tag ∈ config_tags -> i_find (drop pos items) pos tag = Some q -> items !! S q = Some (Oth JSMN_PRIMITIVE (Some s)) ->
  get_int data tokens pos tag old = Ok (primitive_value s).
Proof.
  intros Ht Hf Hi. unfold get_int, _get_json_int_value. rewrite find_items, Hf by exact Ht.
  destruct (token_item _ _ Hi) as (t & -> & Hty & Htx). cbn in *. by rewrite decide_True, Htx.
Qed.
Lemma array_items l a b :
  items = a ++ map Val l ++ b -> array_strings data tokens (length l) (length a) = Ok l.
Proof.
  revert a. induction l as [| s l IH]; intros a E; [reflexivity |]. cbn [array_strings length].
  assert (Hi : items !! length a = Some (Val s)) by (rewrite E; by apply list_lookup_middle).
  unfold _get_json_string_value. destruct (token_item _ _ Hi) as (t & -> & Hty & Htx). cbn in Hty, Htx.
  cbn [mbind cres_bind]. unfold token_string. rewrite Hty, Htx.
  replace (S (length a)) with (length (a ++ [Val s])) by (rewrite length_app; cbn; lia).
  rewrite (IH (a ++ [Val s])); [reflexivity |]. by rewrite E, <- app_assoc.
Qed.
End Look.

Lemma primitive_number n : - 2 ^ 31 <= n < 2 ^ 31 -> primitive_value (int_decimal n) = n.
Proof.
  intros Hn. unfold primitive_value.
  assert (H : forall w, match w with c :: _ => 97 <= byte_val c | [] => False end -> int_decimal n <> w).
  { intros w Hw <-. unfold int_decimal, decimal in Hw. destruct (n <? 0); [change (byte_val (byte_of 45)) with 45 in Hw; lia |].
    destruct (decimal_fuel_head 20 n [] ltac:(lia)) as (c & r & E & Hc). rewrite E in Hw. lia. }
  rewrite !decide_False by (apply H; vm_compute; congruence). by apply atoi_int_decimal.
Qed.
Definition truth_value (n : Z) : Z := if n =? 0 then 0 else 1.
Lemma primitive_truth n : primitive_value (bool_text n) = truth_value n.
Proof. unfold bool_text, truth_value. by destruct (n =? 0). Qed.

(** ** Opening what was written *)

Section Open.
Context {KE : Keys} {AD : Addrs}.
Context (x : texts) (Hx : texts_ok x) (data : bytes) (tokens : list jsmntok).
Context (Hm : Forall2 (item_matches data) tokens (config_items x)).
Let d := tx_datastore x.

Lemma value_item s : s ∈ text_values x -> item_ok (Val s) = true.
Proof.
  intros Hs. pose proof (proj1 (Forall_forall _ _) (values_good x Hx) s Hs) as H. by apply andb_true_iff in H as [_ H].
Qed.
Lemma values_items l : (forall s, s ∈ l -> s ∈ text_values x) -> Forall (fun i => item_ok i = true) (map Val l).
Proof. intros H. apply Forall_forall. intros i (s & -> & Hs)%list_elem_of_fmap. apply value_item. auto. Qed.
Lemma headers_items l :
  (forall s, s ∈ map fst l -> s ∈ text_values x) -> (forall s, s ∈ map snd l -> s ∈ text_values x) ->
  Forall (fun i => item_ok i = true) (header_items l).
Proof.
  induction l as [| [h v] l IH]; intros H1 H2; [constructor |].
  repeat constructor; [apply value_item, H1; left | apply value_item, H2; left |].
  apply IH; intros s Hs; [apply H1 | apply H2]; by right.
Qed.
Lemma config_items_ok : Forall (fun i => item_ok i = true) (config_items x).
Proof.
  unfold config_items, items_behind. repeat apply Forall_app_2;
    first [apply values_items; intros s Hs; unfold text_values; set_solver
          | apply headers_items; intros s Hs; unfold text_values; set_solver
          | repeat constructor; apply value_item; unfold text_values; set_solver].
Qed.

(** Where a key is among the tokens, from the identity or from the addresses on. *)
Lemma find_before pos tag q :
  (pos <= 31)%nat -> i_find (drop pos (items_before x)) pos tag = Some q ->
  i_find (drop pos (config_items x)) pos tag = Some q.
Proof.
  intros Hp H. unfold config_items. rewrite drop_app_le by exact Hp. by rewrite i_find_app, H.
Qed.
Lemma find_between tag k :
  i_find (drop 27 (items_before x)) 27 tag = None -> i_find (items_between x) 0 tag = Some k ->
  i_find (drop 27 (config_items x)) 27 tag = Some (31 + length (tx_swarm x) + k)%nat.
Proof.
  intros H1 H2. unfold config_items. rewrite drop_app_le by (vm_compute; lia).
  rewrite i_find_app, H1, i_find_app, i_find_values, i_find_app, length_map.
  change (length (drop 27 (items_before x))) with 4%nat.
  assert (Hs : forall l i, i_find l i tag = (fun j => (i + j)%nat) <$> i_find l 0 tag).
  { clear. intros l. induction l as [| it l IH]; intros i; [reflexivity |]. cbn [i_find].
    rewrite (IH (S i)), (IH 1%nat). destruct it; [case_decide |..]; cbn.
    all: try destruct (i_find l 0 tag); cbn; first [reflexivity | f_equal; lia]. }
  rewrite Hs, H2. reflexivity.
Qed.
Lemma lookup_between k : (k < length (items_between x))%nat ->
  config_items x !! (31 + length (tx_swarm x) + k)%nat = items_between x !! k.
Proof.
  intros Hk. unfold config_items. rewrite lookup_app_r by (change (length (items_before x)) with 31%nat; lia).
  rewrite lookup_app_r by (rewrite length_map; change (length (items_before x)) with 31%nat; lia).
  rewrite length_map. change (length (items_before x)) with 31%nat.
  replace (31 + length (tx_swarm x) + k - 31 - length (tx_swarm x))%nat with k by lia. by apply lookup_app_l.
Qed.

Ltac in_tags := by_decide.
Ltac before := apply find_before; [vm_compute; lia | vm_compute; reflexivity].
(** A text, a null or a number behind the [q]-th token, a key of the first group. *)
Tactic Notation "first_item" uconstr(lem) constr(tag) constr(q) :=
  erewrite (lem _ _ _ Hm config_items_ok 1%nat (str tag) q);
    [| in_tags | before | reflexivity]; cbn [mbind cres_bind].

Lemma open_datastore_items d0 :
  open_datastore_config data tokens 1 d0 =
  Ok (MkDatastore (Some (tx_type x)) (Some (tx_path x)) (Some (tx_max x))
        (primitive_value (int_decimal (dc_storage_gc_watermark d))) (Some (tx_gc x)) None
        (truth_value (dc_no_sync d)) (truth_value (dc_hash_on_read d))
        (primitive_value (int_decimal (dc_bloom_filter_size d)))).
Proof.
  unfold open_datastore_config.
  first_item text_item "Type"%string 9%nat.
  first_item text_item "Path"%string 11%nat.
  first_item text_item "StorageMax"%string 13%nat.
  first_item int_item "StorageGCWatermark"%string 15%nat.
  first_item text_item "GCPeriod"%string 17%nat.
  first_item null_item "Params"%string 19%nat.
  first_item int_item "NoSync"%string 21%nat.
  first_item int_item "HashOnRead"%string 23%nat.
  first_item int_item "BloomFilterSize"%string 25%nat.
  by rewrite !primitive_truth.
Qed.
(** The arrays are there with their sizes. *)
Definition array_at (pos n : nat) : Prop :=
  exists t, tokens !! pos = Some t /\ tok_type t = JSMN_ARRAY /\ tok_size t = Z.of_nat n.
Context (Hswarm : array_at 30 (length (tx_swarm x))).
Context (Hboot : array_at (31 + length (tx_swarm x) + 29) (length (tx_bootstrap x))).

Lemma find_early tag q pos :
  tag ∈ config_tags -> (pos <= 31)%nat -> i_find (drop pos (items_before x)) pos tag = Some q ->
  _find_token data tokens pos tag = Some q.
Proof. intros Ht Hp H. rewrite (find_items _ _ _ Hm config_items_ok) by exact Ht. by apply find_before. Qed.

Lemma open_identity_items identity addrs key :
  repo_config_identity_build_private_key identity (tx_key x) =
    Ok (MkIdentity (Some (MkPeer (Some (tx_id x)) addrs false)) (Some key)) ->
  open_identity data tokens 1 identity = Ok (MkIdentity (Some (MkPeer (Some (tx_id x)) addrs true)) (Some key)).
Proof.
  intros H. unfold open_identity.
  erewrite (string_item _ _ _ Hm config_items_ok 1 (str "PeerID") 3%nat); [| in_tags | before | reflexivity].
  cbn [mbind cres_bind].
  erewrite (string_item _ _ _ Hm config_items_ok 1 (str "PrivKey") 5%nat); [| in_tags | before | reflexivity].
  cbn [mbind cres_bind]. rewrite H. cbn [mbind cres_bind id_peer id_private_key]. by rewrite decide_True.
Qed.
Lemma open_swarm_items : open_swarm data tokens 27 = Ok (tx_swarm x).
Proof.
  unfold open_swarm. rewrite (find_early (str "Swarm") 29) by first [in_tags | vm_compute; lia | reflexivity].
  cbn [behind]. destruct Hswarm as (t & Ht & Hty & Hsz). unfold token_at. rewrite Ht. cbn [mbind cres_bind].
  rewrite decide_True, Hsz, Nat2Z.id by exact Hty.
  by apply (array_items data tokens _ Hm (tx_swarm x) (items_before x)
    (items_between x ++ map Val (tx_bootstrap x) ++ items_behind x)).
Qed.
Lemma later_text tag k s old :
  tag ∈ config_tags -> i_find (drop 27 (items_before x)) 27 tag = None ->
  i_find (items_between x) 0 tag = Some k -> items_between x !! S k = Some (Val s) ->
  get_text data tokens 27 tag old = Ok (Some s).
Proof.
  intros Ht H1 H2 H3. eapply (text_item _ _ _ Hm config_items_ok); [exact Ht | by apply find_between |].
  rewrite <- H3, <- lookup_between by (by apply lookup_lt_Some in H3). f_equal. lia.
Qed.
Lemma open_bootstrap_items old : open_bootstrap data tokens 27 old = Ok (Some (made_addresses (tx_bootstrap x))).
Proof.
  unfold open_bootstrap. rewrite (find_items _ _ _ Hm config_items_ok) by in_tags.
  rewrite (find_between _ 28) by reflexivity. destruct Hboot as (t & Ht & Hty & Hsz).
  replace (S (31 + length (tx_swarm x) + 28)) with (31 + length (tx_swarm x) + 29)%nat by lia.
  unfold token_at. rewrite Ht. cbn [mbind cres_bind]. rewrite decide_True, Hsz, Nat2Z.id by exact Hty.
  pose proof (array_items data tokens _ Hm (tx_bootstrap x) (items_before x ++ map Val (tx_swarm x) ++ items_between x)
    (items_behind x)) as H.
  rewrite !length_app, length_map in H.
  replace (S (31 + length (tx_swarm x) + 29)) with
    (length (items_before x) + (length (tx_swarm x) + length (items_between x)))%nat
    by (change (length (items_before x)) with 31%nat; change (length (items_between x)) with 30%nat; lia).
  rewrite H by (unfold config_items; by rewrite <- !app_assoc). reflexivity.
Qed.
Lemma no_replication r : open_replication data tokens 27 r = Ok r.
Proof.
  unfold open_replication. rewrite (find_items _ _ _ Hm config_items_ok) by in_tags.
  assert (H : i_find (drop 27 (config_items x)) 27 (str "Replication") = None).
  { unfold config_items, items_behind. rewrite drop_app_le by (vm_compute; lia).
    rewrite !i_find_app, !i_find_values, i_find_headers. reflexivity. }
  by rewrite H.
Qed.

(** What is read. *)
Definition opened_datastore : DatastoreConfig :=
  MkDatastore (Some (tx_type x)) (Some (tx_path x)) (Some (tx_max x)) (dc_storage_gc_watermark d)
    (Some (tx_gc x)) None (truth_value (dc_no_sync d)) (truth_value (dc_hash_on_read d)) (dc_bloom_filter_size d).
Definition opened (config : RepoConfig) (key : RsaPrivateKey) : RepoConfig :=
  MkConfig (MkIdentity (Some (MkPeer (Some (tx_id x)) (made_addresses (tx_swarm x)) true)) (Some key))
    opened_datastore (MkAddresses (tx_swarm x) (Some (tx_api x)) (Some (tx_gateway x)))
    (rc_settings config) (Some (made_addresses (tx_bootstrap x))) (rc_headers config) (rc_replication config).
Lemma open_items config key :
  repo_config_identity_build_private_key (rc_identity config) (tx_key x) =
    Ok (MkIdentity (Some (MkPeer (Some (tx_id x)) [] false)) (Some key)) ->
  - 2 ^ 31 <= dc_storage_gc_watermark d < 2 ^ 31 -> - 2 ^ 31 <= dc_bloom_filter_size d < 2 ^ 31 ->
  open_tokens data tokens config = Ok (opened config key).
Proof.
  intros Hk H1 H2. unfold open_tokens.
  rewrite (find_early (str "Identity") 1) by first [in_tags | lia | reflexivity].
  rewrite (open_identity_items _ _ _ Hk). cbn [mbind cres_bind]. rewrite open_datastore_items. cbn [mbind cres_bind].
  rewrite (find_early (str "Addresses") 27) by first [in_tags | lia | reflexivity].
  rewrite open_swarm_items. cbn [mbind cres_bind].
  erewrite (later_text (str "API") 0); [| in_tags | reflexivity | reflexivity | reflexivity]. cbn [mbind cres_bind].
  erewrite (later_text (str "Gateway") 2); [| in_tags | reflexivity | reflexivity | reflexivity]. cbn [mbind cres_bind].
  rewrite open_bootstrap_items. cbn [mbind cres_bind]. rewrite no_replication. cbn [mbind cres_bind].
  rewrite !primitive_number by assumption. unfold with_addresses. cbn [id_peer id_private_key]. unfold opened, opened_datastore.
  by destruct (made_addresses (tx_swarm x)).
Qed.
End Open.

Lemma items_from_shapes data l vl items :
  Forall2 (tok_matches data) l vl -> map shape vl = map item_shape items -> Forall2 (item_matches data) l items.
Proof.
  intros H. revert items. induction H as [| t v l vl Ht H IH]; intros [| i items] E; try discriminate;
    [constructor |]. destruct Ht as (Hty & _ & _ & Htx). injection E as Esh E. constructor; [| by apply IH].
  unfold item_matches. rewrite <- Esh. cbn. split; [exact Hty |]. destruct (v_text v); [by destruct Htx | exact I].
Qed.

(** The tokens of a configuration file. *)
Lemma config_file_tokens x :
  texts_ok x ->
  exists tokens, jsmn_parse (whole_text x) 256 = Ok tokens /\
    Forall2 (item_matches (whole_text x)) tokens (config_items x) /\
    array_at tokens 30 (length (tx_swarm x)) /\
    array_at tokens (31 + length (tx_swarm x) + 29) (length (tx_bootstrap x)).
Proof.
  intros Hx. destruct (jsmn_parse_shapes 256 (config_ps x)) as (st & tokens & Hr & Hp & Hf & Hs).
  { by apply pieces_config. }
  { apply nesting_config, Hx. }
  { rewrite shapes_config, len_map. apply Hx. }
  { rewrite render_config. apply Hx. }
  rewrite render_config in *. exists tokens. split; [exact Hp |].
  split; [eapply items_from_shapes; [exact Hf | by rewrite Hs, shapes_config] |].
  assert (Hat : forall a l indent b, config_ps x = a ++ array_ps l indent ++ b -> token_first b = true ->
    array_at tokens (length (shapes a)) (length l)).
  { intros a l indent b E Hb. unfold array_ps in E. rewrite E in Hr.
    destruct (array_size _ _ _ _ _ Hr (items_of_array l indent) Hb) as (v & Hv & Hty & Hsz).
    destruct (Forall2_lookup_r _ _ _ _ _ Hf Hv) as (t & Ht & Htt & Htz & _). exists t.
    split; [exact Ht |]. split; [by rewrite Htt |]. rewrite Htz, Hsz. unfold len. f_equal.
    change (Blank newline :: string_ps l ++ [Blank indent]) with ([Blank newline] ++ string_ps l ++ [Blank indent]).
    rewrite !shapes_app, shapes_strings, !length_app, !length_map. cbn. lia. }
  split.
  - by eapply (Hat (identity_ps x ++ datastore_ps x ++ swarm_opening)).
  - pose proof (Hat ((identity_ps x ++ datastore_ps x ++ swarm_opening) ++ array_ps (tx_swarm x) (str "  ") ++
      (addresses_end x ++ settings_ps x ++ bootstrap_opening)) (tx_bootstrap x) (str " ") (gateway_ps x ++ ending_ps)) as H.
    assert (E : length (shapes ((identity_ps x ++ datastore_ps x ++ swarm_opening) ++ array_ps (tx_swarm x) (str "  ") ++
      (addresses_end x ++ settings_ps x ++ bootstrap_opening))) = (31 + length (tx_swarm x) + 29)%nat).
    { rewrite shapes_app, (shapes_app (array_ps _ _)), shapes_array, !length_app. cbn [length].
      rewrite !length_map. change (length (shapes (identity_ps x ++ datastore_ps x ++ swarm_opening))) with 30%nat.
      change (length (shapes (addresses_end x ++ settings_ps x ++ bootstrap_opening))) with 29%nat. lia. }
    rewrite E in H. apply H; [unfold config_ps; by rewrite <- !app_assoc | reflexivity].
Qed.

(** ** The text has no terminator in it *)

Lemma piece_cstring p : piece_ok p = true -> cstring (render p).
Proof.
  unfold cstring. intros H Hc. destruct p as [t | t | s | s | | | s]; cbn [render] in Hc.
  - apply bool_decide_eq_true in H as [-> | ->]; revert Hc; by_decide.
  - apply bool_decide_eq_true in H as [-> | ->]; revert Hc; by_decide.
  - cbn [piece_ok] in H. rewrite forallb_forall in H. apply elem_of_cons in Hc as [Hc | Hc]; [discriminate |].
    apply elem_of_app in Hc as [Hc | Hc]; [| apply list_elem_of_singleton in Hc; discriminate].
    apply list_elem_of_In in Hc. specialize (H _ Hc). discriminate.
  - cbn [piece_ok] in H. apply andb_true_iff in H as [H _]. rewrite forallb_forall in H.
    apply list_elem_of_In in Hc. specialize (H _ Hc). discriminate.
  - apply list_elem_of_singleton in Hc. discriminate.
  - apply list_elem_of_singleton in Hc. discriminate.
  - cbn [piece_ok] in H. rewrite forallb_forall in H. apply list_elem_of_In in Hc. specialize (H _ Hc). discriminate.
Qed.
Lemma pieces_cstring ps : pieces_ok ps = true -> cstring (render_all ps).
Proof.
  induction ps as [| p ps IH]; intros H; [apply not_elem_of_nil |]. cbn [pieces_ok] in H.
  apply andb_true_iff in H as [H Hps]. apply andb_true_iff in H as [Hp _].
  change (render_all (p :: ps)) with (render p ++ render_all ps). apply cstring_app.
  split; [by apply piece_cstring | by apply IH].
Qed.

(** ** Write and open *)

(** What is relied on of the encodings of keys. *)
Class KeysLaws (KE : Keys) := {
  base64_decode_encode b s :
    libp2p_crypto_encoding_base64_encode b = Some s -> libp2p_crypto_encoding_base64_decode s = Some b;
  private_key_decode_encode b :
    libp2p_crypto_private_key_protobuf_decode (libp2p_crypto_private_key_protobuf_encode b) = Some b
}.
(** A key is made again of its DER, and its id is [id]. *)
Definition key_kept {KE : Keys} (key : RsaPrivateKey) (id : bytes) : Prop :=
  (k ← libp2p_crypto_encoding_x509_der_to_private_key (key_der key);
   libp2p_crypto_rsa_private_key_fill_public_key k) = Some key /\
  libp2p_crypto_public_key_to_peer_id (key_public_der key) = Some id.

Section RoundTrip.
Context {KE : Keys} {KL : KeysLaws KE} {AD : Addrs} {OF : OsFiles} {OL : OsFilesLaws OF}.
Context {OS : OsUtils} {OUL : OsUtilsLaws OS}.

(** The strings of a configuration that has them all. *)
Definition config_texts (config : RepoConfig) : option texts :=
  let d := rc_datastore config in
  let a := rc_addresses config in
  peer ← id_peer (rc_identity config); id ← peer_id peer;
  key ← id_private_key (rc_identity config);
  b64 ← libp2p_crypto_encoding_base64_encode (libp2p_crypto_private_key_protobuf_encode (key_der key));
  ty ← dc_type d; path ← dc_path d; max ← dc_storage_max d; gc ← dc_gc_period d;
  api ← ad_api a; gateway ← ad_gateway a; st ← rc_settings config; bootstrap ← rc_bootstrap config;
  Some (MkTexts id b64 ty path max gc (ad_swarm a) api gateway (map ma_string bootstrap) (rc_headers config) d st).

Lemma config_text_texts config x : config_texts config = Some x -> config_text config = Ok (Some (whole_text x)).
Proof.
  unfold config_texts, config_text, private_key_text. intros H.
  repeat (apply bind_Some in H as (? & ? & H)). injection H as <-.
  repeat match goal with E : _ = Some _ |- _ => rewrite E; clear E; cbn [mbind cres_bind text_of] end.
  reflexivity.
Qed.

Lemma build_kept_key identity key id s :
  id_peer identity = None -> key_kept key id ->
  libp2p_crypto_encoding_base64_encode (libp2p_crypto_private_key_protobuf_encode (key_der key)) = Some s ->
  repo_config_identity_build_private_key identity s =
    Ok (MkIdentity (Some (MkPeer (Some id) [] false)) (Some key)).
Proof.
  intros Hp [Hk Hid] Hs. unfold repo_config_identity_build_private_key.
  rewrite (base64_decode_encode _ _ Hs). cbn [mbind option_bind]. rewrite private_key_decode_encode.
  cbn [mbind option_bind]. rewrite Hk, Hp. unfold repo_config_identity_build_peer_id. by rewrite Hid.
Qed.
Lemma made_kept l :
  Forall (fun m => multiaddress_new_from_string (ma_string m) = Some m) l -> made_addresses (map ma_string l) = l.
Proof.
  unfold made_addresses. induction 1 as [| m l Hm _ IH]; [reflexivity |]. cbn. rewrite Hm. cbn. by f_equal.
Qed.

(** A configuration that can be kept: it has all its strings, and its key, its addresses and
    its numbers are those that are read. *)
Record keepable (config : RepoConfig) (x : texts) (key : RsaPrivateKey) (id : bytes) (bootstrap : list MultiAddress) : Prop := {
  kp_texts : config_texts config = Some x;
  kp_ok : texts_ok x;
  kp_peer : peer_id <$> id_peer (rc_identity config) = Some (Some id);
  kp_private : id_private_key (rc_identity config) = Some key;
  kp_key : key_kept key id;
  kp_bootstrap : rc_bootstrap config = Some bootstrap;
  kp_addresses : Forall (fun m => multiaddress_new_from_string (ma_string m) = Some m) bootstrap;
  kp_watermark : - 2 ^ 31 <= dc_storage_gc_watermark (rc_datastore config) < 2 ^ 31;
  kp_bloom : - 2 ^ 31 <= dc_bloom_filter_size (rc_datastore config) < 2 ^ 31
}.
(** What an opened configuration holds of the one written: the parameters of the datastore
    are not written, and the settings and headers are not read. *)
Definition kept_datastore (d : DatastoreConfig) : DatastoreConfig :=
  MkDatastore (dc_type d) (dc_path d) (dc_storage_max d) (dc_storage_gc_watermark d) (dc_gc_period d) None
    (truth_value (dc_no_sync d)) (truth_value (dc_hash_on_read d)) (dc_bloom_filter_size d).
Definition reopened (config fresh : RepoConfig) (key : RsaPrivateKey) (id : bytes) : RepoConfig :=
  MkConfig (MkIdentity (Some (MkPeer (Some id) (made_addresses (ad_swarm (rc_addresses config))) true)) (Some key))
    (kept_datastore (rc_datastore config)) (rc_addresses config) (rc_settings fresh) (rc_bootstrap config)
    (rc_headers fresh) (rc_replication fresh).

Lemma open_written config fresh x key id bootstrap path name fs :
  keepable config x key id bootstrap -> id_peer (rc_identity fresh) = None ->
  repo_config_get_file_name path = Some name -> fs_files fs !! name = Some (whole_text x) ->
  fs_repo_open_config path fresh fs = Ok (reopened config fresh key id).
Proof.
  intros [Ht Hok Hp Hpr Hk Hb Hba H1 H2] Hf Hn Hfile.
  destruct (config_file_tokens x Hok) as (tokens & Hparse & Hm & A1 & A2).
  assert (Hc : c_str (whole_text x) = whole_text x).
  { apply c_str_id. rewrite <- render_config. by apply pieces_cstring, pieces_config. }
  unfold fs_repo_open_config. unfold repo_config_get_file_name in Hn. rewrite Hn. unfold _read_file, read_file.
  rewrite (file_size_exists _ _ _ Hfile), Hfile, i32_small by (pose_len; pose proof (text_fits _ Hok); lia).
  assert (Hpos : (len (whole_text x) <=? 0) = false).
  { apply Z.leb_gt. unfold whole_text, identity_text, line. rewrite !len_app.
    change (len (str "{")) with 1. pose_len. lia. }
  rewrite Hpos. cbn [fmap option_fmap option_map]. rewrite btake_all, Hc, Hparse by lia.
  destruct tokens as [| t0 tokens]; [by apply Forall2_length in Hm |].
  unfold config_texts in Ht. apply bind_Some in Ht as (peer & Ep & Ht). apply bind_Some in Ht as (id' & Eid & Ht).
  rewrite Hpr, Hb in Ht. cbn [mbind option_bind] in Ht. rewrite Ep in Hp. cbn in Hp. injection Hp as Hp.
  rewrite Hp in Eid. injection Eid as <-.
  repeat (apply bind_Some in Ht as (? & ? & Ht)). injection Ht as <-. match goal with |- _ = Ok (reopened _ _ ?k _) => rewrite (open_items _ Hok _ _ Hm A1 A2 fresh k) end.
  - unfold opened, opened_datastore, reopened, kept_datastore.
    cbn [tx_id tx_swarm tx_type tx_path tx_max tx_gc tx_datastore tx_api tx_gateway tx_bootstrap].
    rewrite made_kept by exact Hba. rewrite Hb.
    destruct (rc_addresses config), (rc_datastore config). clear Hm A1 A2 Hparse Hc Hpos Hok Hfile. cbn in *. subst. reflexivity.
  - cbn [tx_key tx_id]. by apply build_kept_key.
  - exact H1.
  - exact H2.
Qed.
Lemma write_kept config x path name fs :
  config_texts config = Some x -> fs_repo_is_initialized fs path = false ->
  repo_config_get_file_name path = Some name -> fs_writable fs name = true -> len (whole_text x) <= fs_room fs ->
  exists fs', fs_repo_write_config_file path config fs = Ok (true, fs') /\ fs_files fs' = <[name := whole_text x]> (fs_files fs) /\ fs_writable fs' = fs_writable fs /\ fs_room fs' = fs_room fs.
Proof.
  intros Ht Hi Hn Hw Hr. unfold fs_repo_write_config_file, repo_config_write_config_file, write_file.
  rewrite Hi, Hn, Hw, (config_text_texts _ _ Ht). cbn [mbind cres_bind].
  rewrite Z.min_l, (btake_all (whole_text x)) by lia. eexists. split; [reflexivity |]. cbn.
  split; [| by split]. reflexivity.
Qed.

(** A configuration written to the file of a repository that had none is read back by the
    one who opens it: the identity with its key, the datastore, the addresses and the
    bootstrap peers are those that were written, and the repository counts as initialised. *)
Theorem config_file_roundtrip config fresh x key id bootstrap path name fs :
  keepable config x key id bootstrap -> id_peer (rc_identity fresh) = None ->
  fs_repo_is_initialized fs path = false -> repo_config_get_file_name path = Some name ->
  fs_writable fs name = true -> len (whole_text x) <= fs_room fs ->
  exists fs', fs_repo_write_config_file path config fs = Ok (true, fs') /\
    fs_repo_is_initialized fs' path = true /\
    fs_repo_open_config path fresh fs' = Ok (reopened config fresh key id).
Proof.
  intros Hk Hf Hi Hn Hw Hr. destruct (write_kept config x path name fs) as (fs' & Hwr & Hfiles & _); auto.
  { apply Hk. }
  exists fs'. split; [exact Hwr |].
  assert (Hfile : fs_files fs' !! name = Some (whole_text x)) by (rewrite Hfiles; apply lookup_insert_eq).
  split; [| by eapply open_written]. unfold fs_repo_is_initialized, fs_repo_is_initialized_unsynced, repo_config_is_initialized.
  rewrite Hn, file_exists_spec, Hfile. by apply bool_decide_eq_true.
Qed.

(** ** A repository that was made *)

Context {DB : Mdb} {MO : MdbOpen DB} {OE : OsEnv}.
Context (libp2p_datastore_new : DatastoreConfig) (libp2p_datastore_init : bytes -> option DatastoreConfig).

Lemma written_file config x path name fs fs' :
  config_texts config = Some x -> repo_config_get_file_name path = Some name -> len (whole_text x) <= fs_room fs ->
  fs_repo_write_config_file path config fs = Ok (true, fs') -> fs_files fs' !! name = Some (whole_text x).
Proof.
  intros Ht Hn Hr H. unfold fs_repo_write_config_file in H. destruct (fs_repo_is_initialized fs path) eqn:Ei; [discriminate |].
  rewrite Hn in H. destruct (fs_writable fs name) eqn:Ew.
  - destruct (write_kept config x path name fs) as (f & Hf & Hfiles & _); try assumption.
    unfold fs_repo_write_config_file in Hf. rewrite Ei, Hn, H in Hf. injection Hf as ->. rewrite Hfiles. apply lookup_insert_eq.
  - unfold repo_config_write_config_file, write_file in H. rewrite Ew in H. discriminate.
Qed.
Lemma mkdir_files path w w' : mkdir path w = Some w' -> os_fs w' = os_fs w.
Proof. unfold mkdir. case_match; [discriminate |]. by intros [= <-]. Qed.
Lemma init_writes repo w w' :
  ipfs_repo_fsrepo_init repo w = Ok w' ->
  fs_repo_write_config_file (fr_path repo) (fr_config repo) (os_fs w) = Ok (true, os_fs w').
Proof.
  unfold ipfs_repo_fsrepo_init, ipfs_repo_fsrepo_datastore_init, ipfs_repo_fsrepo_blockstore_init, repo_fsrepo_lmdb_create_directory.
  intros H. case_match; [discriminate |].
  destruct (fs_repo_write_config_file _ _ _) as [[[] fs] | | |]; try discriminate.
  destruct (dc_path _) as [p |]; [| discriminate]. cbn [text_of mbind cres_bind] in H.
  destruct (mkdir p _) as [w1 |] eqn:E1; [| discriminate]. cbn [mbind cres_bind] in H.
  destruct (os_utils_filepath_join _ _ _); [| discriminate]. destruct (mkdir _ w1) as [w2 |] eqn:E2; [| discriminate].
  injection H as <-. by rewrite (mkdir_files _ _ _ E2), (mkdir_files _ _ _ E1).
Qed.

(** A repository whose file holds the text of a configuration is opened. *)
Lemma written_opens path name fs config x key id bootstrap fresh ty db :
  keepable config x key id bootstrap -> id_peer (rc_identity fresh) = None ->
  repo_config_get_file_name path = Some name -> fs_files fs !! name = Some (whole_text x) ->
  dc_type (rc_datastore config) = Some ty -> starts_with (str "lmdb") ty = true ->
  repo_fsrepro_lmdb_open (dc_path (rc_datastore config)) = Ok db ->
  ipfs_repo_fsrepo_open (MkFSRepo path fresh None) fs = Ok (MkFSRepo path (reopened config fresh key id) (Some db)).
Proof.
  intros Hk Hf Hn Hfile Hty Hl Hdb. unfold ipfs_repo_fsrepo_open. cbn [fr_path fr_config fr_db].
  assert (Hin : repo_check_initialized fs path = true).
  { unfold repo_check_initialized, fs_repo_is_initialized_unsynced, repo_config_is_initialized.
    rewrite Hn, file_exists_spec, Hfile. by apply bool_decide_eq_true. }
  rewrite Hin, (open_written _ _ _ _ _ _ _ _ _ Hk Hf Hn Hfile). cbn [mbind cres_bind].
  unfold fs_repo_open_datastore, reopened, kept_datastore. cbn [fr_config rc_datastore dc_type dc_path fr_path].
  rewrite Hty. cbn [text_of mbind cres_bind]. by rewrite Hl, Hdb.
Qed.

(** C31: A repository that was made is opened: the one who opens it gets the identity whose id
    was given back, with its key, the addresses, the datastore and the bootstrap peers of the
    configuration it was made with, and its database. The configuration has every text, at most
    256 tokens, and in all fewer bytes than an int can count ([keepable]). *)
Theorem made_repository_opens path port peers w id w' config x key bootstrap fresh ty db :
  ipfs_repo_config_init libp2p_datastore_init (ipfs_repo_config_new libp2p_datastore_new) 2048 path port peers = Ok config ->
  make_ipfs_repository libp2p_datastore_new libp2p_datastore_init path port peers w = Ok (id, w') ->
  keepable config x key id bootstrap -> len (whole_text x) <= fs_room (os_fs w) ->
  dc_type (rc_datastore config) = Some ty -> starts_with (str "lmdb") ty = true ->
  repo_fsrepro_lmdb_open (dc_path (rc_datastore config)) = Ok db -> id_peer (rc_identity fresh) = None ->
  ipfs_repo_fsrepo_open (MkFSRepo path fresh None) (os_fs w') = Ok (MkFSRepo path (reopened config fresh key id) (Some db)).
Proof.
  intros Hc Hmake Hk Hr Hty Hl Hdb Hf. unfold make_ipfs_repository in Hmake. rewrite Hc in Hmake.
  cbn [on_err mbind cres_bind ipfs_repo_fsrepo_new default] in Hmake. apply bind_ok in Hmake as (w1 & Hi & Hmake).
  assert (w1 = w') as ->.
  { destruct (id_peer _) as [[[pid |] addrs local] |]; try discriminate.
    destruct (os_utils_filepath_join _ _ 1024); [| discriminate]. case_match; [| discriminate]. by injection Hmake. }
  pose proof (init_writes _ _ _ Hi) as Hw. cbn [fr_path fr_config] in Hw.
  assert (exists name, repo_config_get_file_name path = Some name) as [name Hn].
  { unfold fs_repo_write_config_file in Hw. case_match; [discriminate |]. destruct (repo_config_get_file_name path); [eauto | discriminate]. }
  pose proof (written_file _ _ _ _ _ _ (kp_texts _ _ _ _ _ Hk) Hn Hr Hw) as Hfile.
  exact (written_opens _ _ _ _ _ _ _ _ _ _ _ Hk Hf Hn Hfile Hty Hl Hdb).
Qed.
End RoundTrip.

(** ** A concrete configuration *)

#[export] Instance ref_keys : Keys := {
  RsaPrivateKey := bytes;
  key_der k := k;
  key_public_der k := k;
  libp2p_crypto_rsa_generate_keypair n bits := Some (str "key" ++ replicate n (byte_of 43) ++ str "0");
  libp2p_crypto_public_key_to_peer_id k := Some (str "Qm" ++ k);
  libp2p_crypto_private_key_protobuf_encode b := byte_of 80 :: b;
  libp2p_crypto_private_key_protobuf_decode b := match b with _ :: b => Some b | [] => None end;
  libp2p_crypto_encoding_base64_encode b := Some b;
  libp2p_crypto_encoding_base64_decode b := Some b;
  libp2p_crypto_encoding_x509_der_to_private_key b := Some b;
  libp2p_crypto_rsa_private_key_fill_public_key k := Some k
}.
#[export] Instance ref_keys_laws : KeysLaws ref_keys.
Proof. constructor; [by intros b s [= ->] | reflexivity]. Qed.
#[export] Instance ref_addrs : Addrs := {
  MultiAddress := bytes;
  ma_string a := a;
  multiaddress_new_from_string s := if starts_with (str "/") s then Some s else None;
  libp2p_peer_new_from_multiaddress a := a
}.
#[export] Instance ref_os_files : OsFiles := { os_utils_file_exists files p := bool_decide (is_Some (files !! p)) }.
#[export] Instance ref_os_files_laws : OsFilesLaws ref_os_files.
Proof. by constructor. Qed.

Definition sample_datastore : DatastoreConfig :=
  MkDatastore (Some (str "lmdb")) (Some (str "/repo/datastore")) (Some (str "10GB")) 90 (Some (str "1h"))
    (Some (str "unused")) 0 1 0.
Definition sample_config : RepoConfig :=
  MkConfig (MkIdentity (Some (MkPeer (Some (str "Qmkey0")) [] false)) (Some (str "key0"))) sample_datastore
    (default_addresses 4001) (Some default_settings) (Some [str "/ip4/10.0.0.1/tcp/4001/ipfs/QmPeer"])
    (combine header_array header_values) repo_config_replication_new.
Definition sample_fs : FS := MkFS (<[str "/etc/hosts" := str "localhost"]> ∅) (fun _ => true) 100000.
Definition sample_fresh : RepoConfig := ipfs_repo_config_new (MkDatastore None None None 0 None None 0 0 0).
Definition sample_texts : texts := Eval cbv in default (MkTexts [] [] [] [] [] [] [] [] [] [] [] sample_datastore default_settings) (config_texts sample_config).

Lemma sample_keepable :
  keepable sample_config sample_texts (str "key0") (str "Qmkey0") [str "/ip4/10.0.0.1/tcp/4001/ipfs/QmPeer"].
Proof.
  constructor.
  1, 3, 4, 6: vm_compute; reflexivity.
  - constructor; [by_decide | discriminate | vm_compute; discriminate | vm_compute; reflexivity].
  - split; reflexivity.
  - repeat constructor.
  - cbn. lia.
  - cbn. lia.
Qed.

Definition sample_name : bytes := str "/repo/config".
Lemma config_file_roundtrip_witness :
  exists fs', fs_repo_write_config_file (str "/repo") sample_config sample_fs = Ok (true, fs') /\
    fs_repo_is_initialized fs' (str "/repo") = true /\
    fs_repo_open_config (str "/repo") sample_fresh fs' =
      Ok (reopened sample_config sample_fresh (str "key0") (str "Qmkey0")).
Proof.
  apply (config_file_roundtrip sample_config sample_fresh sample_texts _ _ [str "/ip4/10.0.0.1/tcp/4001/ipfs/QmPeer"] _ sample_name);
    [apply sample_keepable | reflexivity | vm_compute; reflexivity | reflexivity | reflexivity | vm_compute; discriminate].
Defined.

#[export] Instance ref_mdb_open : MdbOpen ref_mdb := {
  mdb_env_create := 0;
  mdb_env_set_maxdbs _ := 0;
  mdb_env_open _ := inl (MkTables [] []);
  mdb_dbi_open txn _ := (0, txn)
}.
#[export] Instance ref_os_env : OsEnv := {
  os_utils_getenv _ := None;
  os_utils_get_homedir := str "/home/user";
  os_utils_directory_exists dirs p := bool_decide (p ∈ dirs);
  os_mkdir := mkdir
}.
Definition sample_os : Os := MkOs sample_fs {[str "/repo"]} (fun _ => true).
Definition sample_peers : list (@MultiAddress ref_addrs) := [str "/ip4/10.0.0.1/tcp/4001/ipfs/QmPeer"].
Definition sample_make : cres Os (bytes * Os) :=
  make_ipfs_repository sample_datastore (fun _ => Some sample_datastore) (str "/repo") 4001 (Some sample_peers) sample_os.
Definition sample_made : Os := match sample_make with Ok (_, w) => w | _ => sample_os end.
Lemma made_repository_opens_witness :
  sample_make = Ok (str "Qmkey0", sample_made) /\
  ipfs_repo_fsrepo_open (MkFSRepo (str "/repo") sample_fresh None) (os_fs sample_made) =
    Ok (MkFSRepo (str "/repo") (reopened sample_config sample_fresh (str "key0") (str "Qmkey0")) (Some (MkTables [] []))).
Proof.
  assert (H : sample_make = Ok (str "Qmkey0", sample_made)) by (vm_compute; reflexivity).
  split; [exact H |].
  refine (made_repository_opens (OF := ref_os_files) (OS := ref_os_utils) (DB := ref_mdb) (MO := ref_mdb_open) (OE := ref_os_env)
    sample_datastore (fun _ => Some sample_datastore) (str "/repo") 4001 (Some sample_peers) sample_os
    (str "Qmkey0") sample_made sample_config sample_texts (str "key0") sample_peers sample_fresh (str "lmdb") (MkTables [] [])
    _ _ _ _ _ _ _ _).
  - vm_compute. reflexivity.
  - exact H.
  - apply sample_keepable.
  - vm_compute; discriminate.
  - reflexivity.
  - reflexivity.
  - reflexivity.
  - reflexivity.
Defined.
