(* ===== verification/InitCommand.v ===== *)
(** The second command line, of which there is the command [init]: the structures of commands
    (src/commands/argument.c, command.c, command_option.c, cli/parse.c), and the command
    (src/cmd/ipfs/init.c, src/core/builder.c). *)

From S2P Require Import Prelude Libc Libs Storage Exporter Jsmn JsonShape Mdb Config FsRepo ConfigFile.

(** ** Commands *)

(** What is allocated and not set is [None]. *)
Inductive ArgumentType := string_argument | file_argument.
Record Argument := MkArgument {
  ar_name : option bytes;
  ar_type : option ArgumentType;
  ar_required : option Z;
  ar_variadic : option Z;
  ar_description : option bytes;
  ar_enable_stdin : option Z
}.
Inductive Kind := boolean | integer.
Record CommandOption := MkCommandOption {
  co_names : list (option bytes);
  co_name_count : option Z;
  co_kind : option Kind;
  co_description : option bytes;
  co_default_int_val : option Z;
  co_default_bool_val : option Z
}.
(** The three functions of a command are those of the command that is made. *)
Record Command := MkCommand {
  cm_options : list CommandOption;
  cm_arguments : list Argument;
  cm_tagline : option bytes
}.
Definition new_argument : Argument := MkArgument None None None None None None.
Definition new_option : CommandOption := MkCommandOption [] None None None None None.

Definition commands_argument_init (a : Argument) (name : bytes) (required variadic : Z) (description : bytes) : Argument :=
  MkArgument (Some name) (ar_type a) (Some required) (Some variadic) (Some description) (ar_enable_stdin a).
Definition with_type (t : ArgumentType) (a : Argument) : Argument :=
  MkArgument (ar_name a) (Some t) (ar_required a) (ar_variadic a) (ar_description a) (ar_enable_stdin a).
Definition commands_argument_string_init (a : Argument) (name : bytes) (required variadic : Z) (description : bytes) : Argument :=
  with_type string_argument (commands_argument_init a name required variadic description).
Definition commands_argument_file_init (a : Argument) (name : bytes) (required variadic : Z) (description : bytes) : Argument :=
  with_type file_argument (commands_argument_init a name required variadic description).
(** The names are an array that is not set; their number has to be. *)
Definition commands_command_option_init (o : CommandOption) (description : bytes) : cres unit CommandOption :=
  match co_name_count o with
  | None => Undef
  | Some n =>
      Ok (MkCommandOption (replicate (Z.to_nat n) None) (Some n) (co_kind o) (Some description)
            (co_default_int_val o) (co_default_bool_val o))
  end.
Definition commands_command_init (argument_count option_count : Z) (tagline : option bytes) : Command :=
  MkCommand (replicate (Z.to_nat option_count) new_option) (replicate (Z.to_nat argument_count) new_argument) tagline.
(** Nothing is parsed. *)
Definition cli_parse (argv : list bytes) : cres unit () := Err ().

(** ** The command init *)

Definition nBitsForKeypairDefault : Z := 2048.
Definition two_names (n : Z) (o : CommandOption) : CommandOption :=
  MkCommandOption (co_names o) (Some n) (co_kind o) (co_description o) (co_default_int_val o) (co_default_bool_val o).
Definition ipfs_cmd_ipfs_init_command_new : cres unit Command :=
  let cmd := commands_command_init 1 2 (Some (str "Initializes IPFS config file.")) in
  match cm_arguments cmd, cm_options cmd with
  | [a], [o1; o2] =>
      let a := commands_argument_init a (str "default-config") 0 0 (str "Initialize with the given configuration") in
      let a := MkArgument (ar_name a) (ar_type a) (ar_required a) (ar_variadic a) (ar_description a) (Some 1) in
      o1 ← commands_command_option_init (two_names 2 o1) (str "Number of bits to use in the generated RSA private key");
      o2 ← commands_command_option_init (two_names 2 o2) (str "Don't add and pin help files to the local storage");
      Ok (MkCommand
            [MkCommandOption [Some (str "bits"); Some (str "b")] (co_name_count o1) (Some integer) (co_description o1)
               (Some nBitsForKeypairDefault) (co_default_bool_val o1);
             MkCommandOption [Some (str "empty-repo"); Some (str "e")] (co_name_count o2) (co_kind o2) (co_description o2)
               (co_default_int_val o2) (Some 0)]
            [a] (cm_tagline cmd))
  | _, _ => Undef
  end.

Section Init.
Context {KE : Keys} {AD : Addrs} {OF : OsFiles} {OS : OsUtils} {DB : Mdb} {MO : MdbOpen DB}.
Context (libp2p_datastore_new : DatastoreConfig) (libp2p_datastore_init : bytes -> option DatastoreConfig).
(** Of the peer library. *)
Context (os_utils_directory_writeable : Os -> bytes -> bool).

Definition ipfs_core_builder_new_node : bool := true.
(** 0 is an error here and below; it leaves what was made until then. *)
Definition initialize_ipns_keyspace (repo : FSRepo) (w : Os) : cres Os (FSRepo * Os) :=
  repo ← on_err (ipfs_repo_fsrepo_open repo (os_fs w)) w;
  if ipfs_core_builder_new_node then Ok (repo, w) else Err w.
Definition do_init (repo_root : bytes) (num_bits_for_keypair : Z) (conf : RepoConfig) (w : Os) : cres Os (FSRepo * Os) :=
  if negb (os_utils_directory_writeable w repo_root) then Err w
  else if fs_repo_is_initialized (os_fs w) repo_root then Err w
  else
    conf ← match id_peer (rc_identity conf) with
           | Some (MkPeer (Some _) _ _) => Ok conf
           | _ => on_err (ipfs_repo_config_init libp2p_datastore_init conf num_bits_for_keypair repo_root 4001 None) w
           end;
    let repo := MkFSRepo repo_root conf None in
    w ← ipfs_repo_fsrepo_init repo w;
    initialize_ipns_keyspace repo w.
Definition init_pre_run : bool := true.
Definition init_run (cmd : Command) (config_root : bytes) (w : Os) : cres Os (FSRepo * Os) :=
  match cm_options cmd with
  | o :: _ =>
      match co_default_int_val o with
      | Some num_bits_for_key_pair =>
          do_init config_root num_bits_for_key_pair (ipfs_repo_config_new libp2p_datastore_new) w
      | None => Undef
      end
  | [] => Undef
  end.
Definition init_post_run : bool := true.
(** The three functions, as the command is run. *)
Definition run_init_command (config_root : bytes) (w : Os) : cres Os (FSRepo * Os) :=
  cmd ← on_err ipfs_cmd_ipfs_init_command_new w;
  if negb init_pre_run then Err w
  else
    r ← init_run cmd config_root w;
    if init_post_run then Ok r else Err r.2.

Lemma run_init_do path w :
  run_init_command path w = do_init path 2048 (ipfs_repo_config_new libp2p_datastore_new) w.
Proof. unfold run_init_command, init_pre_run, init_post_run. cbv - [do_init ipfs_repo_config_new str]. by destruct (do_init _ _ _ _). Qed.

(** In a directory that can be written and has no repository the command makes the same repository as the
    command line of the program does, and then opens it. *)
Lemma init_command_makes path id w w' :
  os_utils_directory_writeable w path = true -> fs_repo_is_initialized (os_fs w) path = false ->
  make_ipfs_repository libp2p_datastore_new libp2p_datastore_init path 4001 None w = Ok (id, w') ->
  exists config,
    ipfs_repo_config_init libp2p_datastore_init (ipfs_repo_config_new libp2p_datastore_new) 2048 path 4001 None = Ok config /\
    run_init_command path w =
      (repo ← on_err (ipfs_repo_fsrepo_open (MkFSRepo path config None) (os_fs w')) w'; Ok (repo, w')).
Proof.
  intros Hw Hi Hm. unfold make_ipfs_repository in Hm.
  apply bind_ok in Hm as (config & Hc & Hm). exists config.
  destruct (ipfs_repo_config_init _ _ _ _ _ _) as [c | | |] eqn:Hcfg; try discriminate. injection Hc as ->.
  split; [reflexivity |]. cbn [on_err mbind cres_bind ipfs_repo_fsrepo_new default] in Hm. apply bind_ok in Hm as (w1 & Hinit & Hm).
  assert (w1 = w') as ->.
  { destruct (id_peer _) as [[[pid |] addrs local] |]; try discriminate.
    destruct (os_utils_filepath_join _ _ 1024); [| discriminate]. case_match; [| discriminate]. by injection Hm. }
  rewrite run_init_do. unfold do_init. rewrite Hw, Hi. cbn [negb].
  change (id_peer (rc_identity (ipfs_repo_config_new libp2p_datastore_new))) with (@None Peer).
  rewrite Hcfg. cbn [on_err mbind cres_bind]. unfold Datatypes.id in Hinit. rewrite Hinit. cbn [mbind cres_bind].
  unfold initialize_ipns_keyspace. destruct (ipfs_repo_fsrepo_open _ _); reflexivity.
Qed.
(** Elsewhere it changes nothing. *)
Lemma init_command_refused path w :
  os_utils_directory_writeable w path = false \/ fs_repo_is_initialized (os_fs w) path = true ->
  run_init_command path w = Err w.
Proof.
  intros H. rewrite run_init_do. unfold do_init.
  destruct (os_utils_directory_writeable w path); [| reflexivity]. destruct H as [| ->]; [discriminate | reflexivity].
Qed.
End Init.
