(* ===== verification/ImportTree.v ===== *)
(** Importing a whole directory tree (src/importer/importer.c): what every entry
    becomes, and that all of it is in the repository afterwards. *)

From S2P Require Import Prelude Libc Protobuf Libs Storage ProtobufRef LibsRef.
From S2P Require Import Cid UnixFS MerkleNode Block Blockstore Merkledag Routing Importer Exporter.

Section Trees.
Context {PB : Protobuf} {MH : Multihash} {SH : Sha256} {B32 : Base32} {OS : OsUtils}.
Context {DS : Datastore}.
Context `{!ProtobufLaws PB} `{!MultihashLaws MH} `{!Sha256Laws SH} `{!Base32Laws B32}.
Context `{!OsUtilsLaws OS} `{!DatastoreLaws DS}.

(** ** What an entry becomes *)

Definition directory_data : bytes := unixfs_wire directory_unixfs.
Definition dir_node (links : list NodeLink) : HashtableNode := data_node directory_data links.

(** A link to a node under a name; the size is what its import wrote. *)
Definition named_link (name : bytes) (r : HashtableNode * Z) : NodeLink :=
  MkNodeLink 32 (Some (node_hash (fst r))) (Some name) (snd r).

(** The node of an entry and the bytes written that its import reports: those of
    the last child for a directory. *)
Fixpoint entry_node (e : entry) (written : Z) : HashtableNode * Z :=
  match e with
  | Unreadable => (ipfs_hashtable_node_new, written)
  | File f => (file_root f, file_written f written)
  | Directory children =>
      (dir_node (map (fun c => named_link (fst c) (entry_node (snd c) 0)) children),
       default written (last (map (fun c => snd (entry_node (snd c) 0)) children)))
  end.
Definition child_link (c : bytes * entry) : NodeLink := named_link (fst c) (entry_node (snd c) 0).

(** All the nodes an import saves. *)
Fixpoint entry_nodes (e : entry) : list HashtableNode :=
  match e with
  | Unreadable => []
  | File f => file_nodes f
  | Directory children =>
      fst (entry_node e 0) :: concat (map (fun c => entry_nodes (snd c)) children)
  end.
Definition entry_wires (e : entry) : list bytes := map node_wire (entry_nodes e).

(** A name the system lists: a string that is not empty, without a slash. *)
Definition name_ok (name : bytes) : Prop := cstring name /\ 0 < len name /\ (slash ∉ name).

(** Entries that can be imported: readable, files below 2^42 bytes, directories
    whose node stays below 2^31 bytes. *)
Fixpoint entry_ok (e : entry) : Prop :=
  match e with
  | Unreadable => False
  | File f => len f < 2 ^ 42
  | Directory children =>
      node_room (fst (entry_node e 0)) < 2 ^ 31 /\
      (fix all (l : list (bytes * entry)) : Prop :=
         match l with [] => True | (name, e) :: l => name_ok name /\ entry_ok e /\ all l end) children
  end.

Lemma entry_ok_children ch :
  entry_ok (Directory ch) ->
  node_room (dir_node (map child_link ch)) < 2 ^ 31 /\
  Forall (fun c => name_ok (fst c) /\ entry_ok (snd c)) ch.
Proof.
  cbn [entry_ok entry_node fst]. fold child_link. intros [Hr Hall]. split; [exact Hr |]. clear Hr.
  induction ch as [| [name e] ch IH]; [constructor |]. destruct Hall as (H1 & H2 & H3).
  constructor; [split; assumption | apply IH, H3].
Qed.

(** Induction over a tree. *)
Lemma entry_induction (P : entry -> Prop) :
  P Unreadable -> (forall f, P (File f)) ->
  (forall ch, Forall (fun c => P (snd c)) ch -> P (Directory ch)) -> forall e, P e.
Proof.
  intros Hu Hf Hd. fix IH 1. intros [| f | ch]; [exact Hu | apply Hf |].
  apply Hd. induction ch as [| [name e] ch IHch]; constructor; [apply IH | exact IHch].
Qed.

Lemma chunks_written_range ds cs last written : 0 <= chunks_written ds cs last written < 2 ^ 64.
Proof. revert ds written. induction cs; intros; cbn; auto using u64_range. Qed.
Lemma entry_written_range e written :
  0 <= written < 2 ^ 64 -> 0 <= snd (entry_node e written) < 2 ^ 64.
Proof.
  revert written. induction e as [| f | ch IH] using entry_induction; intros written Hw; [exact Hw | |].
  - cbn. unfold file_written. destruct (file_chunks f). apply chunks_written_range.
  - cbn [entry_node snd]. destruct (last _) eqn:E; [| exact Hw]. cbn.
    apply last_Some_elem_of, list_elem_of_fmap in E as (c & -> & Hc).
    rewrite Forall_forall in IH. apply (IH c Hc). lia.
Qed.

Lemma entry_node_hash e written : nd_hash (fst (entry_node e written)) = None.
Proof.
  destruct e; [reflexivity | | reflexivity]. cbn. unfold file_root.
  destruct (file_chunks content). apply file_node_hash.
Qed.
Lemma entry_nodes_hash e n : n ∈ entry_nodes e -> nd_hash n = None.
Proof.
  revert n. induction e as [| f | ch IH] using entry_induction; intros n; cbn [entry_nodes].
  - intros H. inversion H.
  - unfold file_nodes. destruct (file_chunks f) as [cs last].
    intros [-> | (d & -> & _)%list_elem_of_fmap]%elem_of_cons; [apply file_node_hash | reflexivity].
  - intros [-> | Hn]%elem_of_cons; [reflexivity |].
    rewrite Forall_forall in IH.
    apply list_elem_of_In, in_concat in Hn as (l & (c & <- & Hc)%in_map_iff & Hn).
    apply (IH c); [apply list_elem_of_In, Hc | apply list_elem_of_In, Hn].
Qed.

(** ** The nodes can be saved *)

Lemma directory_data_bound : 2 <= len directory_data <= 24.
Proof. exact (unixfs_wire_bound directory_unixfs directory_unixfs_wf). Qed.
Lemma directory_created : ipfs_hashtable_node_create_directory = Ok (dir_node []).
Proof.
  unfold ipfs_hashtable_node_create_directory. fold directory_unixfs.
  rewrite unixfs_encode_wire by exact directory_unixfs_wf. cbn [on_err mbind cres_bind].
  unfold ipfs_hashtable_node_set_data. rewrite mem_read_all. reflexivity.
Qed.

Lemma entry_node_savable e written :
  entry_ok e ->
  node_savable (fst (entry_node e written)) /\ node_room (fst (entry_node e written)) < 2 ^ 31.
Proof.
  revert written. induction e as [| f | ch IH] using entry_induction; intros written He.
  - destruct He.
  - apply file_root_savable, He.
  - apply entry_ok_children in He as [Hr Hch]. cbn [entry_node fst]. fold child_link.
    split; [| exact Hr]. pose proof directory_data_bound.
    constructor; [| lia | right; cbn [nd_data_size dir_node data_node]; lia | exact I].
    constructor; [reflexivity | reflexivity | | lia].
    cbn [nd_links dir_node data_node]. apply Forall_map, Forall_forall. intros c Hc.
    rewrite Forall_forall in IH, Hch. destruct (Hch c Hc) as [[Hn _] Hok].
    destruct (IH c Hc 0 Hok) as [Hs _]. pose proof (node_hash_len _ Hs).
    constructor; cbn [child_link named_link nl_hash_size nl_hash nl_name nl_t_size]; [| lia | exact Hn |].
    + unfold link_digest. cbn. lia.
    + apply entry_written_range. lia.
Qed.

(** ** Importing *)

Lemma default_last_cons {A} (d x : A) l : default d (last (x :: l)) = default x (last l).
Proof.
  revert d x. induction l as [| y l IH]; intros d x; [reflexivity |].
  rewrite (IH x y). exact (IH d y).
Qed.

Context {RT : Routing} (path : bytes).

(** Everything an entry becomes is in the state. *)
Definition entry_stored (e : entry) (w : World) : Prop :=
  forall n, n ∈ entry_nodes e -> stored path n w.

Lemma entry_stored_keeps e l w w' :
  entry_wires e ⊆ l -> keeps path l w w' -> entry_stored e w -> entry_stored e w'.
Proof.
  intros Hl Hk Hs n Hn. apply (keeps_stored _ _ _ _ Hk); [eapply entry_nodes_hash, Hn | | apply Hs, Hn].
  apply Hl, list_elem_of_fmap. eauto.
Qed.

(** What importing [e] from a state gives. *)
Definition imports (e : entry) (l : list bytes) : Prop :=
  forall w written, roomy path w -> exists w',
    ipfs_import_file path true e written w =
      (Ok (with_hash (fst (entry_node e written)) (node_hash (fst (entry_node e written))),
           snd (entry_node e written)), w') /\
    entry_stored e w' /\ roomy path w' /\ keeps path l w w'.

(** The loop over the children of a directory. *)
Definition import_children := fix import_children (next : list (bytes * entry))
  (parent_node : HashtableNode) (bytes_written : Z) : io unit (HashtableNode * Z) :=
  match next with
  | [] => mret (parent_node, bytes_written)
  | (file_name, e) :: next =>
      '(file_node, bytes_written) ← ipfs_import_file path true e 0;
      file_node_link ← lift (ipfs_node_link_create (Some file_name)
                               (nd_hash file_node) (nd_hash_size file_node));
      let file_node_link := MkNodeLink (nl_hash_size file_node_link)
        (nl_hash file_node_link) (nl_name file_node_link) bytes_written in
      parent_node ← lift (ipfs_hashtable_node_add_link parent_node file_node_link);
      import_children next parent_node bytes_written
  end.

Lemma import_children_ok ch l links written w :
  Forall (fun c => name_ok (fst c) /\ entry_ok (snd c)) ch ->
  Forall (fun c => imports (snd c) l) ch ->
  Forall (fun c => entry_wires (snd c) ⊆ l) ch -> roomy path w ->
  exists w', import_children ch (dir_node links) written w =
      (Ok (dir_node (links ++ map child_link ch),
           default written (last (map (fun c => snd (entry_node (snd c) 0)) ch))), w') /\
    Forall (fun c => entry_stored (snd c) w') ch /\ roomy path w' /\ keeps path l w w'.
Proof.
  intros Hok Hi. revert links written w Hok.
  induction Hi as [| [name e] ch Hi _ IH]; intros links written w Hok Hl Hw.
  - exists w. cbn. rewrite app_nil_r. split; [reflexivity |]. split; [constructor |].
    split; [exact Hw | split; auto].
  - apply Forall_cons in Hok as [[(Hn & Hpos & _) He] Hok]. apply Forall_cons in Hl as [Hle Hl].
    cbn [fst snd] in *. destruct (Hi w 0 Hw) as (w1 & H1 & Hs1 & Hw1 & Hk1).
    destruct (entry_node_savable e 0 He) as [Hsav _]. pose proof (node_hash_len _ Hsav) as Hlen.
    destruct (IH (links ++ [child_link (name, e)]) (snd (entry_node e 0)) w1 Hok Hl Hw1)
      as (w' & H2 & Hs2 & Hw2 & Hk2).
    exists w'. split.
    + cbn [import_children]. rewrite (io_bind_ok _ _ w _ w1 H1). cbn [with_hash nd_hash nd_hash_size].
      unfold ipfs_node_link_create. rewrite (mem_read_len _ 32) by lia. cbn [mbind cres_bind].
      unfold strlen. rewrite c_str_id by exact Hn. replace (0 <? len name) with true by lia.
      rewrite (io_bind_ok _ _ w1 _ w1) by reflexivity. cbn [nl_hash_size nl_hash nl_name].
      rewrite add_link_live by reflexivity. rewrite (io_bind_ok _ _ w1 _ w1) by reflexivity.
      cbn [map last]. rewrite (app_assoc links [_] _) in H2 || rewrite <- app_assoc in H2.
      etransitivity; [exact H2 |]. do 3 f_equal.
      symmetry. apply default_last_cons.
    + split; [constructor; [exact (entry_stored_keeps e l w1 w' Hle Hk2 Hs1) | exact Hs2] |].
      split; [exact Hw2 | exact (keeps_trans path l w w1 w' Hk1 Hk2)].
Qed.

Lemma entry_wires_children ch l :
  entry_wires (Directory ch) ⊆ l ->
  node_wire (dir_node (map child_link ch)) ∈ l /\ Forall (fun c => entry_wires (snd c) ⊆ l) ch.
Proof.
  unfold entry_wires. cbn [entry_nodes]. intros H. split; [apply H, elem_of_cons; auto |].
  apply Forall_forall. intros c Hc n (m & -> & Hm)%list_elem_of_fmap.
  apply H, elem_of_cons. right. apply list_elem_of_fmap. exists m. split; [reflexivity |].
  apply list_elem_of_In, in_concat. exists (entry_nodes (snd c)).
  split; [apply in_map_iff; exists c; split; [reflexivity |]; apply list_elem_of_In, Hc |].
  apply list_elem_of_In, Hm.
Qed.

Lemma import_tree_ok e l :
  quiet_routing -> no_collision l -> entry_ok e -> entry_wires e ⊆ l -> imports e l.
Proof.
  intros Hq Hc. induction e as [| f | ch IH] using entry_induction; intros He Hl w written Hw.
  - destruct He.
  - unfold entry_wires in Hl. cbn [entry_nodes] in Hl. rewrite <- file_wires_nodes in Hl.
    exact (import_file_ok path f l true w written Hq He Hw Hc Hl).
  - destruct (entry_node_savable (Directory ch) written He) as [Hsav Hroom].
    destruct (entry_ok_children ch He) as [_ Hch]. destruct (entry_wires_children ch l Hl) as [Hin Hls].
    assert (Hi : Forall (fun c => imports (snd c) l) ch).
    { rewrite Forall_forall in *. intros c Hcin. apply IH; [exact Hcin | apply Hch, Hcin | apply Hls, Hcin]. }
    destruct (import_children_ok ch l [] written w Hch Hi Hls Hw) as (w1 & H1 & Hs1 & Hw1 & Hk1).
    cbn [app] in H1. cbn [entry_node fst snd] in Hsav, Hroom |- *. fold child_link in Hsav, Hroom |- *.
    destruct (add_step path (dir_node (map child_link ch)) l w1 Hsav Hroom eq_refl Hw1 Hc Hin)
      as (w' & H2 & Hs2 & Hw2 & Hk2).
    exists w'. split; [| split; [| split; [exact Hw2 | exact (keeps_trans path l w w1 w' Hk1 Hk2)]]].
    + cbn [ipfs_import_file]. rewrite directory_created.
      rewrite (io_bind_ok _ _ w _ w) by reflexivity. fold (import_children).
      rewrite (io_bind_ok _ _ w _ w1 H1).
      unfold attempt at 1, mbind at 1, io_bind at 1. rewrite H2. cbn beta iota.
      rewrite (io_bind_ok _ _ w' () w') by (apply provide_node_quiet; [exact Hq | reflexivity]).
      reflexivity.
    + intros n. cbn [entry_nodes entry_node fst]. fold child_link.
      intros [-> | Hn]%elem_of_cons; [exact Hs2 |].
      apply list_elem_of_In, in_concat in Hn as (ns & (c & <- & Hcin)%in_map_iff & Hn).
      rewrite Forall_forall in Hs1, Hls. apply list_elem_of_In in Hcin, Hn.
      exact (entry_stored_keeps (snd c) l w1 w' (Hls c Hcin) Hk2 (Hs1 c Hcin) n Hn).
Qed.
End Trees.
