(* ===== verification/Resolver.v ===== *)
(** Finding a node by a path (src/importer/resolver.c). *)

From S2P Require Import Prelude Libc Protobuf Libs Storage ProtobufRef LibsRef.
From S2P Require Import Cid UnixFS MerkleNode Block Blockstore Merkledag Routing Importer Exporter ImportTree.

(** The first part of a path that is not a slash up to the next slash; without a
    next slash the whole string is copied, leading slashes included. [rest] is
    what the index has not passed. *)
Fixpoint next_path (path rest : bytes) : option bytes :=
  match rest with
  | [] => None
  | c :: rest =>
      if decide (c = slash) then next_path path rest
      else
        match strchr rest slash with
        | None => Some path
        | Some pos => Some (c :: take pos rest)
        end
  end.
Definition ipfs_resolver_next_path (path : bytes) : option bytes := next_path path path.

(** [id]: the id of the local peer. [first]: only slashes were seen so far. The
    end of the string stops the loop like any other character; stepping beyond
    it is undefined. *)
Fixpoint remove_path_prefix (id : bytes) (fuel : nat) (first : bool) (rest : bytes)
  : cres unit bytes :=
  match fuel with
  | O => NoFuel
  | S fuel =>
      match rest with
      | [] => if starts_with id [] then Undef else Ok []
      | c :: tail =>
          if decide (c = slash) then remove_path_prefix id fuel first tail
          else if first && (starts_with (str "ipfs") rest || starts_with (str "ipns") rest)
          then remove_path_prefix id fuel false (drop 4 rest)
          else if starts_with id rest
          then
            if len id + 1 <=? len rest
            then remove_path_prefix id fuel false (bdrop (len id + 1) rest)
            else Undef
          else Ok rest
      end
  end.
Definition ipfs_resolver_remove_path_prefix (path id : bytes) : cres unit bytes :=
  remove_path_prefix id (S (length path)) true path.

Definition ipfs_resolver_is_remote (path id : bytes) : bool :=
  let rest := skip_slashes path in
  if starts_with (str "ipfs/") rest || starts_with (str "ipns/") rest then
    let rest := drop 5 rest in
    starts_with (str "Qm") rest && negb (starts_with id rest)
  else false.

Section Resolver.
Context {PB : Protobuf} {MH : Multihash} {B32 : Base32} {B58 : Base58}.
Context {OS : OsUtils} {DS : Datastore}.

(** The repository's directory, the id of its peer, and the request to another
    peer, which goes over the network. *)
Context (repo id : bytes) (ipfs_resolver_remote_get : bytes -> io unit HashtableNode).

(** An error is the NULL returned. [fuel] bounds the depth of the calls. *)
Fixpoint ipfs_resolver_get (fuel : nat) (path : bytes) (from : option HashtableNode)
  : io unit HashtableNode :=
  match fuel with
  | O => lift NoFuel
  | S fuel =>
      match from with
      | None =>
          if ipfs_resolver_is_remote path id then ipfs_resolver_remote_get path
          else
            path ← lift (ipfs_resolver_remove_path_prefix path id);
            match ipfs_resolver_next_path path with
            | None => fail ()
            | Some path_section =>
                if starts_with (str "Qm") path_section then
                  let hash_length := @enc_decode_size base58 (len path_section) in
                  match @enc_decode base58 path_section hash_length with
                  | None => fail ()
                  | Some hash =>
                      current_node ← ipfs_merkledag_get_by_multihash repo hash (len hash) true;
                      if len path_section =? len path then mret current_node
                      else ipfs_resolver_get fuel (bdrop (len path_section + 1) path)
                             (Some current_node)
                  end
                else fail ()
            end
      | Some from =>
          match ipfs_resolver_next_path path with
          | None => fail ()
          | Some path_section =>
              directory ← lift (ipfs_hashtable_node_is_directory from);
              if (directory : bool) then
                found ← lift (ipfs_hashtable_node_get_link_by_name from path_section);
                match found ≫= (fun i => nd_links from !! i) with
                | None => fail ()
                | Some curr_link =>
                    current_node ← ipfs_merkledag_get repo (nl_hash curr_link)
                                     (nl_hash_size curr_link) true;
                    if len path_section =? len path then mret current_node
                    else
                      match ipfs_resolver_next_path (bdrop (len path_section) path) with
                      | None => lift Undef
                      | Some next_path_section =>
                          ipfs_resolver_get fuel next_path_section (Some current_node)
                      end
                end
              else fail ()
          end
      end
  end.
End Resolver.

(** * Properties *)

Section PathFacts.

Lemma next_path_word p a : slash ∉ a -> a <> [] -> next_path p a = Some p.
Proof.
  intros Hs Ha. destruct a as [| c a]; [congruence |]. apply not_elem_of_cons in Hs as [Hc Hs].
  cbn [next_path]. rewrite decide_False by congruence.
  assert (Hn : strchr a slash = None).
  { clear -Hs. induction a as [| c a IH]; [reflexivity |]. apply not_elem_of_cons in Hs as [Hc Hs].
    cbn. rewrite decide_False by congruence. rewrite IH by exact Hs. reflexivity. }
  rewrite Hn. reflexivity.
Qed.
Lemma next_path_split p a r : slash ∉ a -> a <> [] -> next_path p (a ++ slash :: r) = Some a.
Proof.
  intros Hs Ha. destruct a as [| c a]; [congruence |]. apply not_elem_of_cons in Hs as [Hc Hs].
  cbn [next_path app]. rewrite decide_False by congruence.
  rewrite strchr_app by exact Hs. rewrite take_app_length. reflexivity.
Qed.
Lemma next_path_slash p r : next_path p (slash :: r) = next_path p r.
Proof. cbn. rewrite decide_True by reflexivity. reflexivity. Qed.

(** How a path may name the root: by its text alone, or behind the id of the
    local peer. *)
Record local_root (id t pre : bytes) : Prop := {
  local_id : len id = 46;
  local_text : exists r, t = str "Qm" ++ r /\ len r = 44;
  local_slash : (slash ∉ t) /\ (slash ∉ id);
  local_other : id <> t;
  local_pre : pre = [] \/ pre = str "/ipfs/" ++ id ++ [slash]
}.

Lemma not_prefix id t r : len id = len t -> id <> t -> starts_with id (t ++ r) = false.
Proof.
  intros Hl Hne. apply not_true_is_false. intros H.
  apply starts_with_spec in H as [q Hq]. apply Hne.
  apply app_inj_1 in Hq as [Hq _]; [congruence | unfold len in Hl; lia].
Qed.

Lemma remove_text id t r fuel first :
  len id = 46 -> id <> t -> (exists q, t = str "Qm" ++ q /\ len q = 44) ->
  remove_path_prefix id (S fuel) first (t ++ r) = Ok (t ++ r).
Proof.
  intros Hid Hne (q & -> & Hq).
  assert (Hl : len id = len (str "Qm" ++ q)) by (rewrite len_app, Hq; exact Hid).
  pose proof (not_prefix id _ r Hl Hne) as Hp.
  assert (He : (str "Qm" ++ q) ++ r = x51 :: x6d :: q ++ r) by reflexivity.
  rewrite He in *. cbn [remove_path_prefix]. destruct (decide (x51 = slash)) as [E |]; [discriminate |].
  change (starts_with (str "ipfs") (x51 :: x6d :: q ++ r)) with false.
  change (starts_with (str "ipns") (x51 :: x6d :: q ++ r)) with false.
  rewrite andb_false_r, Hp. reflexivity.
Qed.

Lemma remove_slash id fuel first r :
  remove_path_prefix id (S fuel) first (slash :: r) = remove_path_prefix id fuel first r.
Proof. reflexivity. Qed.
Lemma remove_ipfs id fuel r :
  remove_path_prefix id (S fuel) true (str "ipfs" ++ r) = remove_path_prefix id fuel false r.
Proof. reflexivity. Qed.
Lemma remove_id id fuel r :
  id <> [] -> slash ∉ id ->
  remove_path_prefix id (S fuel) false (id ++ slash :: r) = remove_path_prefix id fuel false r.
Proof.
  intros Hne Hs. destruct id as [| c id]; [congruence |].
  apply not_elem_of_cons in Hs as [Hc _]. cbn [remove_path_prefix app].
  rewrite decide_False by congruence. cbn [andb].
  change (c :: id ++ slash :: r) with ((c :: id) ++ slash :: r).
  assert (Hl : len (c :: id) + 1 <= len ((c :: id) ++ slash :: r)) by len_lia.
  rewrite starts_with_app. replace (_ <=? _) with true by lia.
  change ((c :: id) ++ slash :: r) with ((c :: id) ++ ([slash] ++ r)). rewrite app_assoc.
  replace (len (c :: id) + 1) with (len ((c :: id) ++ [slash])) by (rewrite len_app; reflexivity).
  rewrite bdrop_app_len. reflexivity.
Qed.

Lemma local_path id t pre r :
  local_root id t pre ->
  ipfs_resolver_is_remote (pre ++ t ++ r) id = false /\
  ipfs_resolver_remove_path_prefix (pre ++ t ++ r) id = Ok (t ++ r).
Proof.
  intros [Hid Ht [Hs Hsi] Hne [-> | ->]]; unfold ipfs_resolver_is_remote, ipfs_resolver_remove_path_prefix.
  - split; [| exact (remove_text id t r _ true Hid Hne Ht)].
    destruct Ht as (q & -> & _). reflexivity.
  - rewrite <- !app_assoc. change ([slash] ++ t ++ r) with (slash :: t ++ r). split.
    + change (skip_slashes (str "/ipfs/" ++ id ++ slash :: t ++ r)) with
        (str "ipfs/" ++ id ++ slash :: t ++ r).
      rewrite starts_with_app. cbn [orb].
      change (drop 5 (str "ipfs/" ++ id ++ slash :: t ++ r)) with (id ++ slash :: t ++ r).
      rewrite starts_with_app. apply andb_false_r.
    + rewrite length_app. change (length (str "/ipfs/")) with 6%nat. cbn [Nat.add].
      change (str "/ipfs/" ++ id ++ slash :: t ++ r) with
        (slash :: (str "ipfs" ++ (slash :: (id ++ slash :: t ++ r)))).
      rewrite remove_slash, remove_ipfs, remove_slash, remove_id; [| | exact Hsi].
      * exact (remove_text id t r _ false Hid Hne Ht).
      * intros ->. discriminate.
Qed.
End PathFacts.

(** ** Directories *)

Section DirectoryFacts.
Context {PB : Protobuf} {MH : Multihash} {SH : Sha256} {B32 : Base32} {B58 : Base58}.
Context {OS : OsUtils} {DS : Datastore}.
Context `{!ProtobufLaws PB} `{!MultihashLaws MH} `{!Sha256Laws SH} `{!Base32Laws B32}.
Context `{!Base58Multihash B58} `{!OsUtilsLaws OS} `{!DatastoreLaws DS}.

Lemma loaded_directory links :
  ipfs_hashtable_node_is_directory (loaded (dir_node links)) = Ok true.
Proof.
  pose proof directory_data_bound as Hb.
  unfold ipfs_hashtable_node_is_directory, loaded.
  cbn [with_hash node_saved dir_node data_node nd_data nd_data_size].
  replace (len directory_data <? 2) with false by lia. replace (0 <? len directory_data) with true by lia.
  change (node_data (data_node directory_data links)) with directory_data.
  rewrite mem_read_all. cbn [mbind cres_bind].
  unfold directory_data. rewrite unixfs_decode_wire by exact directory_unixfs_wf. reflexivity.
Qed.

Lemma find_child ch name d :
  Forall (fun c => name_ok (fst c)) ch -> cstring name ->
  find_link (fun l => (s ← nl_name l; Some (str_eq (c_str name) (c_str s))))
    (map link_saved (map child_link ch)) d =
  match list_find (fun c => fst c = name) ch with
  | Some (i, _) => Ok (Some i)
  | None => if d then Undef else Ok None
  end.
Proof.
  intros Hch Hn. induction Hch as [| [x e] ch [Hx _] _ IH]; [reflexivity |].
  cbn [fst] in Hx.
  assert (Hl : link_name (child_link (x, e)) = x) by exact (c_str_id x Hx).
  cbn [map find_link link_saved nl_name mbind option_bind]. rewrite Hl, (c_str_id _ Hx), (c_str_id _ Hn).
  cbn [list_find fst]. unfold str_eq. rewrite (c_str_id _ Hn) in IH.
  destruct (decide (x = name)) as [-> | Hne].
  - rewrite bool_decide_eq_true_2 by reflexivity. reflexivity.
  - rewrite bool_decide_eq_false_2 by congruence. unfold str_eq in IH. rewrite IH.
    destruct (list_find _ ch) as [[i c] |]; [reflexivity | destruct d; reflexivity].
Qed.

Lemma entry_node_in e : entry_ok e -> fst (entry_node e 0) ∈ entry_nodes e.
Proof.
  destruct e; cbn [entry_ok entry_node entry_nodes fst]; [intros [] | |].
  - intros _. unfold file_root, file_nodes. destruct (file_chunks content). apply elem_of_cons. auto.
  - intros _. apply elem_of_cons. auto.
Qed.
Lemma child_stored path ch c w :
  entry_stored path (Directory ch) w -> c ∈ ch -> entry_stored path (snd c) w.
Proof.
  intros Hs Hc n Hn. apply Hs. cbn [entry_nodes]. apply elem_of_cons. right.
  apply list_elem_of_In, in_concat. exists (entry_nodes (snd c)).
  split; [apply in_map_iff; exists c; split; [reflexivity |] |]; apply list_elem_of_In; assumption.
Qed.

(** ** One step *)

Context (path id : bytes) (remote_get : bytes -> io unit HashtableNode).

(** The text of a hash. *)
Definition hash_text (h t : bytes) : Prop :=
  exists n, @enc_encode base58 (byte_of 18 :: byte_of 32 :: h) n = Some t.

(** The step on the root, in terms of what follows its text. *)
Lemma resolve_root fuel pre t root r w :
  node_savable root -> stored path root w -> hash_text (node_hash root) t ->
  local_root id t pre -> (r = [] \/ exists q, r = slash :: q) ->
  ipfs_resolver_get path id remote_get (S fuel) (pre ++ t ++ r) None w =
    match r with
    | [] => (Ok (loaded root), w)
    | _ :: q => ipfs_resolver_get path id remote_get fuel q (Some (loaded root)) w
    end.
Proof.
  intros Hn Hs [n He] Hl Hr. destruct (local_path id t pre r Hl) as [Hrem Hpre].
  pose proof (node_hash_len root Hn) as Hlen. destruct Hl as [_ (q & Hq & Hlq) [Hst _] _ _].
  assert (Hne : t <> []) by (rewrite Hq; discriminate).
  assert (Hsec : ipfs_resolver_next_path (t ++ r) = Some t).
  { unfold ipfs_resolver_next_path. destruct Hr as [-> | [q' ->]].
    - rewrite app_nil_r. apply next_path_word; assumption.
    - apply next_path_split; assumption. }
  cbn [ipfs_resolver_get]. rewrite Hrem, Hpre. rewrite (io_bind_ok _ _ w _ w) by reflexivity.
  rewrite Hsec. assert (Hqm : starts_with (str "Qm") t = true) by (rewrite Hq; apply starts_with_app).
  rewrite Hqm. rewrite (enc_roundtrip (EN := base58) _ n t _ He) by reflexivity.
  assert (Hg : ipfs_merkledag_get_by_multihash path (byte_of 18 :: byte_of 32 :: node_hash root)
      (len (byte_of 18 :: byte_of 32 :: node_hash root)) true w = (Ok (loaded root), w)).
  { unfold ipfs_merkledag_get_by_multihash. pose proof (mh_multihash_digest_sha2 (node_hash root)) as Hm.
    rewrite Hlen in Hm. rewrite !len_cons, Hlen. change (1 + (1 + 32)) with (32 + 2).
    rewrite Hm by lia. apply merkledag_get_ok; assumption. }
  rewrite (io_bind_ok _ _ w _ w Hg). destruct Hr as [-> | [q' ->]].
  - rewrite app_nil_r, Z.eqb_refl. reflexivity.
  - rewrite len_app, len_cons. pose proof (len_nonneg q').
    replace (len t =? len t + (1 + len q')) with false by lia.
    change (t ++ slash :: q') with (t ++ ([slash] ++ q')). rewrite app_assoc.
    replace (len t + 1) with (len (t ++ [slash])) by (rewrite len_app; reflexivity).
    rewrite bdrop_app_len. reflexivity.
Qed.

(** The step on a directory whose children are [ch]. *)
Lemma resolve_child fuel p name ch w :
  Forall (fun c => name_ok (fst c)) ch -> cstring name ->
  ipfs_resolver_next_path p = Some name ->
  (forall c, c ∈ ch -> node_savable (fst (entry_node (snd c) 0)) /\
                       stored path (fst (entry_node (snd c) 0)) w) ->
  ipfs_resolver_get path id remote_get (S fuel) p (Some (loaded (dir_node (map child_link ch)))) w =
    match list_find (fun c => fst c = name) ch with
    | None => (Err (), w)
    | Some (_, c) =>
        let child := loaded (fst (entry_node (snd c) 0)) in
        if len name =? len p then (Ok child, w)
        else
          match ipfs_resolver_next_path (bdrop (len name) p) with
          | None => (Undef, w)
          | Some q => ipfs_resolver_get path id remote_get fuel q (Some child) w
          end
    end.
Proof.
  intros Hch Hn Hp Hst. cbn [ipfs_resolver_get]. rewrite Hp, loaded_directory.
  rewrite (io_bind_ok _ _ w true w) by reflexivity. cbn iota.
  assert (Hf : ipfs_hashtable_node_get_link_by_name (loaded (dir_node (map child_link ch))) name =
    match list_find (fun c => fst c = name) ch with
    | Some (i, _) => Ok (Some i)
    | None => Ok None
    end) by exact (find_child ch name false Hch Hn).
  rewrite Hf. clear Hf. destruct (list_find _ ch) as [[i c] |] eqn:E.
  - apply list_find_Some in E as (Hi & _ & _).
    rewrite (io_bind_ok _ _ w (Some i) w) by reflexivity. cbn [mbind option_bind].
    assert (Hl : nd_links (loaded (dir_node (map child_link ch))) !! i = Some (link_saved (child_link c))).
    { change (map link_saved (map child_link ch) !! i = Some (link_saved (child_link c))).
      rewrite map_map, list_lookup_fmap, Hi. reflexivity. }
    rewrite Hl. destruct (Hst c (list_elem_of_lookup_2 _ _ _ Hi)) as [Hsav Hs].
    pose proof (merkledag_get_ok path _ w true Hsav Hs) as Hg. rewrite (node_hash_len _ Hsav) in Hg.
    change (nl_hash (link_saved (child_link c))) with (Some (node_hash (fst (entry_node (snd c) 0)))).
    change (nl_hash_size (link_saved (child_link c))) with 32.
    rewrite (io_bind_ok _ _ w _ w Hg). cbn zeta.
    destruct (len name =? len p); [reflexivity |].
    destruct (ipfs_resolver_next_path (bdrop (len name) p)); reflexivity.
  - rewrite (io_bind_ok _ _ w None w) by reflexivity. reflexivity.
Qed.

(** A node that is no directory has nothing below it. *)
Lemma resolve_below_file fuel f p w :
  len f < 2 ^ 42 ->
  ipfs_resolver_get path id remote_get (S fuel) p (Some (loaded (file_root f))) w = (Err (), w).
Proof.
  intros Hf. cbn [ipfs_resolver_get]. destruct (ipfs_resolver_next_path p); [| reflexivity].
  assert (Hd : ipfs_hashtable_node_is_directory (loaded (file_root f)) = Ok false).
  { pose proof (file_chunks_ok f Hf) as Hok. pose proof (file_chunks_small f) as Hsm.
    assert (Hg : exists u links, file_root f = data_node (unixfs_wire u) links /\ unixfs_wf u /\
                   ux_data_type u = UNIXFS_FILE).
    { unfold file_root. destruct (file_chunks f) as [cs d]. destruct Hsm as [_ Hsm].
      destruct cs as [| c cs].
      - apply Forall_inv in Hsm. exists (leaf_unixfs d), []. auto using leaf_unixfs_wf.
      - do 2 eexists. split; [reflexivity |]. split; [apply branch_unixfs_wf, Hok | reflexivity]. }
    destruct Hg as (u & links & -> & Hu & Ht). pose proof (unixfs_wire_bound u Hu).
    unfold ipfs_hashtable_node_is_directory, loaded.
    cbn [with_hash node_saved data_node nd_data nd_data_size].
    replace (len (unixfs_wire u) <? 2) with false by lia. replace (0 <? len (unixfs_wire u)) with true by lia.
    change (node_data (data_node (unixfs_wire u) links)) with (unixfs_wire u).
    rewrite mem_read_all. cbn [mbind cres_bind]. rewrite unixfs_decode_wire by exact Hu.
    change (ux_data_type (unixfs_saved u)) with (ux_data_type u). rewrite Ht. reflexivity. }
  rewrite Hd, (io_bind_ok _ _ w false w) by reflexivity. reflexivity.
Qed.
End DirectoryFacts.

(** ** The property of this file *)

Section Properties.
Context {PB : Protobuf} {MH : Multihash} {SH : Sha256} {B32 : Base32} {B58 : Base58}.
Context {OS : OsUtils} {DS : Datastore}.
Context `{!ProtobufLaws PB} `{!MultihashLaws MH} `{!Sha256Laws SH} `{!Base32Laws B32}.
Context `{!Base58Multihash B58} `{!OsUtilsLaws OS} `{!DatastoreLaws DS}.
Context (path id : bytes) (http : bytes -> bytes -> bytes -> option bytes).
Context (remote_get : bytes -> io unit HashtableNode).
#[local] Instance routing : Routing := ipfs_routing_new_offline path false http.

(** The entry a name stands for: the first of that name. *)
Definition child_of (ch : list (bytes * entry)) (name : bytes) (e : entry) : Prop :=
  exists i, list_find (fun c => fst c = name) ch = Some (i, (name, e)).

(** [g] is the node of an entry as it is loaded. *)
Definition node_of (e : entry) (g : HashtableNode) : Prop :=
  node_value g = node_value (fst (entry_node e 0)) /\
  nd_hash g = Some (node_hash (fst (entry_node e 0))) /\ nd_hash_size g = 32.

Lemma node_of_loaded e : entry_ok e -> node_of e (loaded (fst (entry_node e 0))).
Proof.
  intros He. split; [apply loaded_value, entry_node_savable, He | split; reflexivity].
Qed.

Lemma child_of_in ch name e : child_of ch name e -> (name, e) ∈ ch.
Proof. intros [i (H & _ & _)%list_find_Some]. eapply list_elem_of_lookup_2, H. Qed.

(** A directory whose nodes are in the state. *)
Lemma resolve_in_directory fuel ch p name w :
  entry_ok (Directory ch) -> entry_stored path (Directory ch) w -> cstring name ->
  ipfs_resolver_next_path p = Some name ->
  ipfs_resolver_get path id remote_get (S fuel) p (Some (loaded (dir_node (map child_link ch)))) w =
    match list_find (fun c => fst c = name) ch with
    | None => (Err (), w)
    | Some (_, c) =>
        let child := loaded (fst (entry_node (snd c) 0)) in
        if len name =? len p then (Ok child, w)
        else
          match ipfs_resolver_next_path (bdrop (len name) p) with
          | None => (Undef, w)
          | Some q => ipfs_resolver_get path id remote_get fuel q (Some child) w
          end
    end.
Proof.
  intros [_ Hch]%entry_ok_children Hs Hn Hp. apply resolve_child; [| exact Hn | exact Hp |].
  - eapply Forall_impl; [exact Hch |]. intros c [H _]. exact H.
  - rewrite Forall_forall in Hch. intros c Hc. destruct (Hch c Hc) as [_ He].
    split; [apply entry_node_savable, He |].
    apply (child_stored path ch c w Hs Hc), entry_node_in, He.
Qed.

Lemma child_ok ch name e w :
  entry_ok (Directory ch) -> child_of ch name e -> entry_stored path (Directory ch) w ->
  name_ok name /\ entry_ok e /\ entry_stored path e w.
Proof.
  intros [_ Hch]%entry_ok_children Hc%child_of_in Hs. rewrite Forall_forall in Hch.
  destruct (Hch _ Hc). split; [assumption |]. split; [assumption |].
  exact (child_stored path ch _ w Hs Hc).
Qed.

Lemma name_not_empty name : name_ok name -> name <> [].
Proof. intros (_ & H & _) ->. change (len (@nil byte)) with 0 in H. lia. Qed.

(** A name with a slash in front is never found: not in a file, and not in a
    directory, whose names have none. *)
Lemma resolve_slashed fuel e x w :
  entry_ok e -> entry_stored path e w -> name_ok x ->
  ipfs_resolver_get path id remote_get (S fuel) (slash :: x)
    (Some (loaded (fst (entry_node e 0)))) w = (Err (), w).
Proof.
  intros He Hs (Hx & Hpos & Hsl). destruct e as [| f | ch]; [destruct He | apply resolve_below_file, He |].
  cbn [entry_node fst]. fold child_link. rewrite (resolve_in_directory _ _ _ (slash :: x)); try assumption.
  - destruct (list_find _ ch) as [[i [n e]] |] eqn:E; [| reflexivity].
    assert (Hc : child_of ch n e) by (apply list_find_Some in E as E'; cbn in E'; destruct E' as (_ & -> & _); exists i; exact E).
    destruct (child_ok ch n e w He Hc Hs) as [(_ & _ & Hn) _].
    apply list_find_Some in E as (_ & E & _). cbn in E. subst n. destruct Hn. left.
  - apply not_elem_of_cons. split; [discriminate | exact Hx].
  - unfold ipfs_resolver_next_path. rewrite next_path_slash.
    apply next_path_word; [exact Hsl | apply name_not_empty; repeat split; assumption].
Qed.

(** ** Paths from the root *)

(** The directory is in the state under the text [t], which [pre] may precede. *)
Record rooted (ch : list (bytes * entry)) (t pre : bytes) (w : World) : Prop := {
  rooted_ok : entry_ok (Directory ch);
  rooted_stored : entry_stored path (Directory ch) w;
  rooted_text : hash_text (node_hash (dir_node (map child_link ch))) t;
  rooted_local : local_root id t pre
}.

Lemma get_path fuel ch t pre r w :
  rooted ch t pre w -> (r = [] \/ exists q, r = slash :: q) ->
  ipfs_resolver_get path id remote_get (S fuel) (pre ++ t ++ r) None w =
    match r with
    | [] => (Ok (loaded (dir_node (map child_link ch))), w)
    | _ :: q => ipfs_resolver_get path id remote_get fuel q
                  (Some (loaded (dir_node (map child_link ch)))) w
    end.
Proof.
  intros [He Hs Ht Hl] Hr. apply resolve_root; try assumption.
  - exact (proj1 (entry_node_savable (Directory ch) 0 He)).
  - apply Hs, elem_of_cons. auto.
Qed.

Lemma get_name fuel ch t pre name w :
  rooted ch t pre w -> name_ok name ->
  ipfs_resolver_get path id remote_get (S (S fuel)) (pre ++ t ++ slash :: name) None w =
    match list_find (fun c => fst c = name) ch with
    | None => (Err (), w)
    | Some (_, c) => (Ok (loaded (fst (entry_node (snd c) 0))), w)
    end.
Proof.
  intros Hr Hn. rewrite (get_path _ ch) by eauto. destruct Hr as [He Hs _ _].
  rewrite (resolve_in_directory _ _ _ name); [| exact He | exact Hs | apply Hn |].
  - destruct (list_find _ ch) as [[i c] |]; [| reflexivity]. rewrite Z.eqb_refl. reflexivity.
  - apply next_path_word; [apply Hn | apply name_not_empty, Hn].
Qed.

Lemma get_deep fuel ch t pre name e r w :
  rooted ch t pre w -> child_of ch name e ->
  ipfs_resolver_get path id remote_get (S (S fuel)) (pre ++ t ++ slash :: name ++ slash :: r) None w =
    match ipfs_resolver_next_path (slash :: r) with
    | None => (Undef, w)
    | Some q => ipfs_resolver_get path id remote_get fuel q (Some (loaded (fst (entry_node e 0)))) w
    end.
Proof.
  intros Hr Hc. rewrite (get_path _ ch) by eauto. destruct Hr as [He Hs _ _].
  destruct (child_ok ch name e w He Hc Hs) as (Hn & _ & _). destruct Hc as [i Hi].
  rewrite (resolve_in_directory _ _ _ name); [| exact He | exact Hs | apply Hn |].
  - rewrite Hi. cbn zeta. cbn [snd]. rewrite len_app, len_cons. pose proof (len_nonneg r).
    replace (len name =? len name + (1 + len r)) with false by lia.
    rewrite bdrop_app_len. reflexivity.
  - apply next_path_split; [apply Hn | apply name_not_empty, Hn].
Qed.

Lemma get_below fuel ch t pre name ch2 x e2 y w :
  rooted ch t pre w -> child_of ch name (Directory ch2) -> child_of ch2 x e2 ->
  ipfs_resolver_get path id remote_get (S (S (S fuel)))
    (pre ++ t ++ slash :: name ++ slash :: x ++ slash :: y) None w =
    (Ok (loaded (fst (entry_node e2 0))), w).
Proof.
  intros Hr Hc Hc2. rewrite (get_deep _ ch _ _ _ _ _ _ Hr Hc). destruct Hr as [He Hs _ _].
  destruct (child_ok ch name _ w He Hc Hs) as (_ & He2 & Hs2).
  destruct (child_ok ch2 x e2 w He2 Hc2 Hs2) as (Hx & _ & _).
  pose proof (name_not_empty x Hx). destruct Hx as (Hx & _ & Hxs), Hc2 as [j Hj].
  unfold ipfs_resolver_next_path. rewrite next_path_slash, next_path_split by assumption.
  cbn [entry_node fst]. fold child_link.
  rewrite (resolve_in_directory _ _ _ x); try assumption; [| apply next_path_word; assumption].
  rewrite Hj, Z.eqb_refl. reflexivity.
Qed.

Lemma import_rooted ch w written :
  entry_ok (Directory ch) -> roomy path w -> no_collision (entry_wires (Directory ch)) ->
  @enc_encode_size base58 34 <= 100 ->
  exists n written' w' h t,
    ipfs_import_file path true (Directory ch) written w = (Ok (n, written'), w') /\
    nd_hash n = Some h /\ ipfs_cid_hash_to_base58 (Some h) 32 100 = Ok t /\
    (exists r, t = str "Qm" ++ r) /\
    forall pre, len id = 46 -> slash ∉ id -> id <> t ->
      pre = [] \/ pre = str "/ipfs/" ++ id ++ [slash] -> rooted ch t pre w'.
Proof.
  intros He Hw Hc Hb.
  destruct (import_tree_ok path (Directory ch) _ (offline_quiet path http) Hc He ltac:(reflexivity) w written Hw)
    as (w' & Hi & Hs & _ & _).
  destruct (entry_node_savable (Directory ch) 0 He) as [Hsav _].
  cbn [entry_node fst] in Hi, Hsav. fold child_link in Hi, Hsav.
  set (root := dir_node (map child_link ch)) in *. pose proof (node_hash_len root Hsav) as Hl.
  destruct (hash_to_base58_ok (node_hash root) 100 Hl Hb) as (t & Ht & Henc).
  do 2 eexists. exists w', (node_hash root), t.
  split; [exact Hi |]. split; [reflexivity |]. split; [exact Ht |].
  split; [destruct (base58_Qm _ _ _ Hl Henc) as (r & -> & _); eauto |].
  intros pre Hid Hsl Hne Hpre. constructor; [exact He | exact Hs | exists 100; exact Henc |].
  constructor; [exact Hid | exact (base58_Qm _ _ _ Hl Henc) | | exact Hne | exact Hpre].
  split; [exact (base58_no_slash _ _ _ Henc) | exact Hsl].
Qed.

(** C2: a directory tree that was imported is found by the base 58 of its hash,
    alone or behind [/ipfs/] and the id of the local peer. One name behind it
    gives the node of the entry of that name, which [cat] writes out as the bytes
    of the file when it is one, and NULL when there is no entry. A second name is
    looked for with its slash, so that nothing is found two levels down; with
    more names behind, the result is the node of the second one, whatever
    follows. *)
Theorem import_tree_resolve ch w written :
  entry_ok (Directory ch) -> roomy path w -> no_collision (entry_wires (Directory ch)) ->
  @enc_encode_size base58 34 <= 100 ->
  exists n written' w' h t,
    ipfs_import_file path true (Directory ch) written w = (Ok (n, written'), w') /\
    nd_hash n = Some h /\ ipfs_cid_hash_to_base58 (Some h) 32 100 = Ok t /\
    (exists r, t = str "Qm" ++ r) /\
    forall pre fuel, (3 <= fuel)%nat -> len id = 46 -> slash ∉ id -> id <> t ->
    pre = [] \/ pre = str "/ipfs/" ++ id ++ [slash] ->
    let get p := ipfs_resolver_get path id remote_get fuel (pre ++ t ++ p) None w' in
    (exists g, get [] = (Ok g, w') /\ node_of (Directory ch) g) /\
    (forall name, name_ok name -> (forall e, ~ child_of ch name e) ->
       get (slash :: name) = (Err (), w')) /\
    (forall name e, child_of ch name e ->
       (exists g, get (slash :: name) = (Ok g, w') /\ node_of e g /\
          forall f s, e = File f -> len f <= st_room s ->
            ipfs_exporter_object_cat_to_file 2 (nd_hash g) (nd_hash_size g) s w' =
              (Ok (MkStream (st_data s ++ f) (st_room s - len f)), w')) /\
       (forall x, name_ok x -> get (slash :: name ++ slash :: x) = (Err (), w')) /\
       (forall ch2 x e2 y, e = Directory ch2 -> child_of ch2 x e2 ->
          exists g, get (slash :: name ++ slash :: x ++ slash :: y) = (Ok g, w') /\ node_of e2 g)).
Proof.
  intros He Hw Hc Hb.
  destruct (import_rooted ch w written He Hw Hc Hb) as (n & wr & w' & h & t & Hi & Hh & Ht & Hq & Hr).
  exists n, wr, w', h, t. split; [exact Hi |]. split; [exact Hh |]. split; [exact Ht |]. split; [exact Hq |].
  intros pre fuel Hfuel Hid Hsl Hne Hpre get. specialize (Hr pre Hid Hsl Hne Hpre).
  destruct fuel as [| [| [| fuel]]]; try lia. pose proof (rooted_stored ch t pre w' Hr) as Hs.
  split; [| split].
  - eexists. unfold get. rewrite (get_path _ ch) by eauto.
    split; [reflexivity | exact (node_of_loaded (Directory ch) He)].
  - intros name Hn Hno. unfold get. rewrite (get_name _ ch) by assumption.
    destruct (list_find _ ch) as [[i [n' e]] |] eqn:E; [| reflexivity].
    exfalso. apply (Hno e). exists i. pose proof E as E'.
    apply list_find_Some in E' as (_ & E' & _). cbn in E'. subst n'. exact E.
  - intros name e Hch. destruct (child_ok ch name e w' He Hch Hs) as (Hn & Hoe & Hse). split; [| split].
    + exists (loaded (fst (entry_node e 0))). unfold get. rewrite (get_name _ ch) by assumption.
      destruct Hch as [i ->]. split; [reflexivity |]. split; [apply node_of_loaded, Hoe |].
      intros f s -> Hroom. apply cat_file_ok; [exact Hoe | exact Hse | exact Hroom].
    + intros x Hx. unfold get. rewrite (get_deep _ ch _ _ _ _ _ _ Hr Hch).
      unfold ipfs_resolver_next_path. rewrite next_path_slash, next_path_word;
        [apply resolve_slashed; assumption | apply Hx | apply name_not_empty, Hx].
    + intros ch2 x e2 y -> Hc2. destruct (child_ok ch2 x e2 w' Hoe Hc2 Hse) as (_ & Hoe2 & _).
      exists (loaded (fst (entry_node e2 0))). unfold get.
      rewrite (get_below _ ch _ _ _ _ _ _ _ _ Hr Hch Hc2).
      split; [reflexivity | apply node_of_loaded, Hoe2].
Qed.
End Properties.

(** * Concrete runs *)

Definition sample_tree : list (bytes * entry) :=
  [(str "a", File (str "hello")); (str "d", Directory [(str "b", File (str "world"))])].
Definition sample_id : bytes := replicate 46 x78.

Lemma sample_tree_ok : entry_ok (Directory sample_tree).
Proof.
  cbn [entry_ok sample_tree]. split_and!; try exact I;
    first [ vm_compute; reflexivity | apply (bool_decide_unpack _); vm_compute; exact I ].
Qed.

Lemma sample_tree_collision : no_collision (entry_wires (Directory sample_tree)).
Proof.
  intros a b Ha Hb H. vm_compute in Ha, Hb.
  repeat (apply elem_of_cons in Ha as [-> | Ha]; [| try (inversion Ha; fail)]);
  repeat (apply elem_of_cons in Hb as [-> | Hb]; [| try (inversion Hb; fail)]);
  first [reflexivity | vm_compute in H; discriminate].
Qed.

Lemma import_tree_resolve_witness :
  exists n wr w' t,
    @ipfs_import_file _ _ _ _ _ _ (ipfs_routing_new_offline (str "/repo") false (fun _ _ _ => None))
      (str "/repo") true (Directory sample_tree) 0 roomy_world = (Ok (n, wr), w') /\
    let get p := ipfs_resolver_get (str "/repo") sample_id (fun _ => fail ()) 3 (t ++ p) None w' in
    (exists g, get (str "/a") = (Ok g, w') /\ node_of (File (str "hello")) g) /\
    get (str "/d/b") = (Err (), w') /\
    (exists g, get (str "/d/b/c") = (Ok g, w') /\ node_of (File (str "world")) g).
Proof.
  destruct (import_tree_resolve (str "/repo") sample_id (fun _ _ _ => None) (fun _ => fail ())
              sample_tree roomy_world 0) as (n & wr & w' & h & t & Hi & _ & _ & (r & Ht) & Hr).
  - exact sample_tree_ok.
  - constructor; [reflexivity | vm_compute; discriminate | vm_compute; discriminate | exact I].
  - exact sample_tree_collision.
  - vm_compute. discriminate.
  - exists n, wr, w', t. split; [exact Hi |].
    destruct (Hr [] 3%nat) as (_ & _ & Hc);
      [lia | reflexivity | apply (bool_decide_unpack _); vm_compute; exact I |
       rewrite Ht; discriminate | left; reflexivity |].
    assert (Ha : child_of sample_tree (str "a") (File (str "hello"))) by (exists 0%nat; reflexivity).
    assert (Hd : child_of sample_tree (str "d") (Directory [(str "b", File (str "world"))]))
      by (exists 1%nat; reflexivity).
    destruct (Hc _ _ Ha) as ((g & Hg & Hn & _) & _). destruct (Hc _ _ Hd) as (_ & Hx & Hy).
    split; [exists g; split; [exact Hg | exact Hn] |]. split.
    + apply (Hx (str "b")). repeat split; apply (bool_decide_unpack _); vm_compute; exact I.
    + apply (Hy _ (str "b") _ (str "c") eq_refl). exists 0%nat. reflexivity.
Defined.
