(* ===== verification/PinTree.v ===== *)
(** Pins over an imported tree: what [ipfs_pin_has_child] (src/pin/pin.c) answers on what
    src/importer/importer.c saved. *)

From S2P Require Import Prelude Libc Protobuf Libs Storage ProtobufRef LibsRef.
From S2P Require Import Cid UnixFS MerkleNode Block Blockstore Merkledag Routing Importer Exporter ImportTree Resolver Pin.

Section Tree.
Context {PB : Protobuf} {MH : Multihash} {SH : Sha256} {B32 : Base32} {OS : OsUtils}.
Context {DS : Datastore}.
Context `{!ProtobufLaws PB} `{!MultihashLaws MH} `{!Sha256Laws SH} `{!Base32Laws B32}.
Context `{!OsUtilsLaws OS} `{!DatastoreLaws DS}.
Context (path : bytes).

(** How deep the nodes of an entry go. *)
Fixpoint depth (e : entry) : nat :=
  match e with
  | Unreadable => O
  | File _ => 2
  | Directory children => S (list_max (map (fun c => depth (snd c)) children))
  end.

Section State.
Context (w : World).

Lemma stored_loads n : node_savable n -> stored path n w -> loads path w (node_hash n) (loaded n).
Proof. intros Hn Hs. apply merkledag_get_ok; assumption. Qed.

(** A node is found with everything below it when its links lead to such nodes. *)
Lemma closed_node d n :
  node_savable n -> stored path n w ->
  Forall (fun l => exists h, nl_hash l = Some h /\ nl_hash_size l = 32 /\ closed path w d h) (nd_links n) ->
  closed path w (S d) (node_hash n).
Proof.
  intros Hn Hs Hl. split; [apply node_hash_len, Hn |]. exists (loaded n).
  split; [by apply stored_loads |]. split; [reflexivity |]. split; [reflexivity |]. split; [reflexivity |].
  cbn [loaded with_hash node_saved nd_links]. apply Forall_map. eapply Forall_impl; [exact Hl |].
  intros l (h & Hh & Hz & Hc). exists h. unfold link_saved, link_digest. rewrite Hh. auto.
Qed.

Lemma closed_mono d d' h : (d <= d')%nat -> closed path w d h -> closed path w d' h.
Proof.
  revert d' h. induction d as [| d IH]; intros d' h Hd; [contradiction |].
  destruct d' as [| d']; [lia |]. intros (Hl & n & H1 & H2 & H3 & H4 & Hf).
  split; [exact Hl |]. exists n. do 4 (split; [assumption |]). eapply Forall_impl; [exact Hf |].
  intros l (h1 & Hh & Hz & Hc). exists h1. split; [exact Hh |]. split; [exact Hz |]. apply IH; [lia | exact Hc].
Qed.

(** What is reached from a node: itself, and what is reached from its links. *)
Lemma reaches_node n c :
  node_savable n -> stored path n w ->
  Forall (fun l => exists h m, nl_hash l = Some h /\ loads path w h m) (nd_links n) ->
  reaches path w (node_hash n) c <->
  c = node_hash n \/ exists l h, l ∈ nd_links n /\ nl_hash l = Some h /\ reaches path w h c.
Proof.
  intros Hn Hs Hl. pose proof (stored_loads n Hn Hs) as Hlo.
  assert (Hin : forall l', l' ∈ nd_links (loaded n) <-> exists l, l' = link_saved l /\ l ∈ nd_links n)
    by (intros l'; apply list_elem_of_fmap).
  assert (Hh : forall l h, l ∈ nd_links n -> nl_hash (link_saved l) = Some h -> nl_hash l = Some h).
  { intros l h Hli E. rewrite Forall_forall in Hl. destruct (Hl l Hli) as (h' & _ & Hh' & _).
    cbn in E. unfold link_digest in E. rewrite Hh' in E |- *. exact E. }
  split.
  - intros Hr. destruct Hr as [h m Hm | h m l' c Hm Hl' Hc | h m l' h1 c Hm Hl' Hc Hr]; [by left | right | right];
      rewrite (loads_det _ _ _ _ _ Hm Hlo) in Hl'; apply Hin in Hl' as (l & -> & Hli); pose proof (Hh l _ Hli Hc) as E.
    + rewrite Forall_forall in Hl. destruct (Hl l Hli) as (h' & m' & Hh' & Hm'). exists l, c.
      split; [exact Hli |]. split; [exact E |]. apply (reaches_self _ _ c m'). congruence.
    + eauto.
  - intros [-> | (l & h & Hli & E & Hr)]; [by eapply reaches_self |].
    apply (reaches_deep path w (node_hash n) (loaded n) (link_saved l) h c Hlo); [apply Hin; eauto | | exact Hr].
    cbn. unfold link_digest. by rewrite E.
Qed.
End State.

(** ** The nodes of an entry *)

Definition root (e : entry) : HashtableNode := fst (entry_node e 0).
Lemma root_node e : entry_ok e -> root e ∈ entry_nodes e.
Proof.
  destruct e as [| f | ch]; [contradiction | |]; intros _; unfold root; cbn; [| left].
  unfold file_root, file_nodes. destruct (file_chunks f). left.
Qed.

Section Stored.
Context (w : World).

Lemma leaf_closed d : len d <= MAX_DATA_SIZE -> stored path (leaf_node d) w -> closed path w 1 (node_hash (leaf_node d)).
Proof.
  intros Hd Hs. apply closed_node; [apply leaf_node_savable, Hd | exact Hs | constructor].
Qed.

Lemma chunk_small ds d : chunks_ok ds -> d ∈ ds -> len d <= MAX_DATA_SIZE.
Proof. intros [H _] Hd. rewrite Forall_forall in H. by apply H. Qed.

Lemma file_closed f :
  len f < 2 ^ 42 -> (forall n, n ∈ file_nodes f -> stored path n w) ->
  closed path w 2 (node_hash (file_root f)) /\
  forall c, reaches path w (node_hash (file_root f)) c <-> exists m, m ∈ file_nodes f /\ node_hash m = c.
Proof.
  intros Hf Hs. pose proof (file_chunks_ok f Hf) as Hok. unfold file_root, file_nodes in *.
  destruct (file_chunks f) as [cs last]. destruct (file_node_savable cs last Hok) as [Hn _].
  assert (Hl : forall d, d ∈ cs ++ [last] -> closed path w 1 (node_hash (leaf_node d))).
  { intros d Hd. apply leaf_closed; [exact (chunk_small _ d Hok Hd) |]. apply Hs. right.
    apply list_elem_of_fmap. eauto. }
  assert (Hroot : stored path (file_node cs last) w) by (apply Hs; left).
  set (ds := match cs with [] => [] | _ => cs ++ [last] end).
  assert (Hlinks : nd_links (file_node cs last) = map leaf_link ds) by (destruct cs; reflexivity).
  assert (Hds : forall d, d ∈ ds -> d ∈ cs ++ [last]).
  { intros d Hd. subst ds. destruct cs; [inversion Hd | exact Hd]. }
  assert (Hleaf : forall d, d ∈ cs ++ [last] -> exists m, loads path w (node_hash (leaf_node d)) m).
  { intros d Hd. destruct (Hl d Hd) as (_ & m & Hm & _). eauto. }
  split.
  - apply closed_node; [exact Hn | exact Hroot |]. rewrite Hlinks. apply Forall_map, Forall_forall.
    intros d Hd. exists (node_hash (leaf_node d)). split; [reflexivity |]. split; [reflexivity |]. apply Hl, Hds, Hd.
  - intros c. rewrite reaches_node; [| exact Hn | exact Hroot |].
    + rewrite Hlinks. split.
      * intros [-> | (l & h & Hli & Hh & Hr)]; [exists (file_node cs last); split; [left | reflexivity] |].
        apply list_elem_of_fmap in Hli as (d & -> & Hd). injection Hh as <-.
        exists (leaf_node d). split; [right; apply list_elem_of_fmap; eauto |].
        assert (Hleafs : node_savable (leaf_node d)) by (apply leaf_node_savable, (chunk_small _ d Hok (Hds d Hd))).
        apply reaches_node in Hr as [-> | (l & h & Hli & _)]; [reflexivity | inversion Hli | exact Hleafs | | constructor].
        apply Hs. right. apply list_elem_of_fmap. eauto.
      * intros (m & [-> | (d & -> & Hd)%list_elem_of_fmap]%elem_of_cons & <-); [by left |].
        destruct cs as [| c0 cs]; [left; apply list_elem_of_singleton in Hd as ->; reflexivity |].
        right. destruct (Hleaf d Hd) as [m Hm].
        exists (leaf_link d), (node_hash (leaf_node d)). split; [apply list_elem_of_fmap; eauto |].
        split; [reflexivity | exact (reaches_self _ _ _ m Hm)].
    + rewrite Hlinks. apply Forall_map, Forall_forall. intros d Hd.
      destruct (Hleaf d (Hds d Hd)) as [m Hm]. eauto.
Qed.

Lemma list_max_in n l : n ∈ l -> (n <= list_max l)%nat.
Proof.
  induction l as [| x l IH]; intros H; [inversion H |].
  change (list_max (x :: l)) with (Nat.max x (list_max l)).
  apply elem_of_cons in H as [-> | H]; [lia | specialize (IH H); lia].
Qed.

Lemma entry_nodes_directory ch m :
  m ∈ entry_nodes (Directory ch) <->
  m = root (Directory ch) \/ exists x, x ∈ ch /\ m ∈ entry_nodes (snd x).
Proof.
  cbn [entry_nodes]. rewrite elem_of_cons, list_elem_of_In, in_concat. split.
  - intros [-> | (ns & (x & <- & Hx)%in_map_iff & Hm)]; [by left | right].
    exists x. split; by apply list_elem_of_In.
  - intros [-> | (x & Hx & Hm)]; [by left | right]. exists (entry_nodes (snd x)).
    split; [| by apply list_elem_of_In]. apply in_map_iff. exists x.
    split; [reflexivity | by apply list_elem_of_In].
Qed.

Lemma tree_closed e :
  entry_ok e -> entry_stored path e w ->
  closed path w (depth e) (node_hash (root e)) /\
  forall c, reaches path w (node_hash (root e)) c <-> exists m, m ∈ entry_nodes e /\ node_hash m = c.
Proof.
  induction e as [| f | ch IH] using entry_induction; intros He Hs; [contradiction | |].
  - destruct (file_closed f He Hs) as [H1 H2]. split; [exact H1 | exact H2].
  - destruct (entry_ok_children ch He) as [_ Hch]. destruct (entry_node_savable (Directory ch) 0 He) as [Hn _].
    assert (Hroot : stored path (root (Directory ch)) w) by (apply Hs; left).
    assert (Hc : forall x, x ∈ ch -> closed path w (depth (snd x)) (node_hash (root (snd x))) /\
      forall c, reaches path w (node_hash (root (snd x))) c <-> exists m, m ∈ entry_nodes (snd x) /\ node_hash m = c).
    { intros x Hx. rewrite Forall_forall in IH, Hch. apply (IH x Hx); [apply (Hch x Hx) |].
      intros n Hin. apply Hs, entry_nodes_directory. eauto. }
    assert (Hlinks : nd_links (root (Directory ch)) = map child_link ch) by reflexivity.
    split.
    + cbn [depth]. apply closed_node; [exact Hn | exact Hroot |]. rewrite Hlinks.
      apply Forall_map, Forall_forall. intros x Hx. exists (node_hash (root (snd x))).
      split; [reflexivity |]. split; [reflexivity |]. apply (closed_mono w (depth (snd x))); [| apply Hc, Hx].
      apply list_max_in, list_elem_of_fmap. eauto.
    + intros c. rewrite reaches_node; [| exact Hn | exact Hroot |].
      * rewrite Hlinks. setoid_rewrite entry_nodes_directory. split.
        -- intros [-> | (l & h & (x & -> & Hx)%list_elem_of_fmap & [= <-] & Hr)]; [by eauto |].
           apply (Hc x Hx) in Hr as (m & Hm & <-). eauto 6.
        -- intros (m & [-> | (x & Hx & Hm)] & <-); [by left | right].
           exists (child_link x), (node_hash (root (snd x))).
           split; [apply list_elem_of_fmap; eauto |]. split; [reflexivity |]. apply (Hc x Hx). eauto.
      * rewrite Hlinks. apply Forall_map, Forall_forall. intros x Hx.
        destruct (Hc x Hx) as [Hcl _]. destruct (depth (snd x)); [contradiction |].
        destruct Hcl as (_ & m & Hm & _). exists (node_hash (root (snd x))), m. split; [reflexivity | exact Hm].
Qed.
End Stored.

Context {RT : Routing}.

(** After a tree was imported, [ipfs_pin_has_child] ends on its node and says of every
    hash of 32 bytes whether it is that of one of the nodes the import saved: the chunks
    of the files, the files and the directories at every depth. *)
Theorem pin_has_child_spec e w written :
  quiet_routing -> entry_ok e -> roomy path w -> no_collision (entry_wires e) ->
  exists n written' w',
    ipfs_import_file path true e written w = (Ok (n, written'), w') /\
    forall c fuel, len c = 32 -> (depth e <= fuel)%nat ->
      exists b, ipfs_pin_has_child path fuel (Some c) 32 (nd_hash n) 32 w' = (Ok b, w') /\
                (b = true <-> exists m, m ∈ entry_nodes e /\ node_hash m = c).
Proof.
  intros Hq He Hw Hc.
  destruct (import_tree_ok path e _ Hq Hc He ltac:(reflexivity) w written Hw) as (w' & Hi & Hs & _ & _).
  do 2 eexists. exists w'. split; [exact Hi |]. intros c fuel Hl Hfuel. cbn [with_hash nd_hash].
  assert (Hr : fst (entry_node e written) = root e) by (destruct e; [contradiction | reflexivity | reflexivity]).
  rewrite Hr. destruct (tree_closed w' e He Hs) as [Hcl Hre].
  apply (closed_mono w' _ fuel _ Hfuel) in Hcl. exists (found path w' fuel c (node_hash (root e))).
  split; [by apply has_child_found |]. rewrite found_reaches by exact Hcl. apply Hre.
Qed.
End Tree.

(** * A concrete run *)

Lemma pin_has_child_spec_witness :
  exists n wr w',
    @ipfs_import_file _ _ _ _ _ _ (ipfs_routing_new_offline (str "/repo") false (fun _ _ _ => None))
      (str "/repo") true (Directory sample_tree) 0 roomy_world = (Ok (n, wr), w') /\
    ipfs_pin_has_child (str "/repo") 4 (Some (node_hash (file_root (str "world")))) 32 (nd_hash n) 32 w' =
      (Ok true, w').
Proof.
  destruct (pin_has_child_spec (str "/repo") (RT := ipfs_routing_new_offline (str "/repo") false (fun _ _ _ => None))
    (Directory sample_tree) roomy_world 0) as (n & wr & w' & Hi & Hc).
  - exact (offline_quiet (str "/repo") (fun _ _ _ => None)).
  - exact sample_tree_ok.
  - constructor; [reflexivity | vm_compute; discriminate | vm_compute; discriminate | exact I].
  - exact sample_tree_collision.
  - exists n, wr, w'. split; [exact Hi |].
    destruct (Hc (node_hash (file_root (str "world"))) 4%nat) as (b & Hb & Ht); [vm_compute; reflexivity | by_decide |].
    rewrite (proj2 Ht) in Hb; [exact Hb |].
    exists (file_root (str "world")). split; [| reflexivity].
    apply list_elem_of_In. cbn [entry_nodes sample_tree map concat snd]. right.
    apply in_or_app. right. apply in_or_app. left. right. cbn. left. reflexivity.
Defined.
