(* ===== verification/Stack.v ===== *)
(** The parts put together: a repository whose datastore is the lightning database
    (src/repo/fsrepo/lmdb_datastore.c behind the function pointers of the datastore,
    src/importer and src/merkledag in front of it). *)

From S2P Require Import Prelude Libc Protobuf Libs Storage ProtobufRef LibsRef Mdb Lmdb.
From S2P Require Import Cid UnixFS MerkleNode Block Blockstore Merkledag Routing Importer Exporter Namesys.

Section Stack.
Context {PB : Protobuf} {MH : Multihash} {SH : Sha256} {B32 : Base32} {B58 : Base58} {OS : OsUtils} {DB : Mdb}.
Context `{!ProtobufLaws PB} `{!MultihashLaws MH} `{!Sha256Laws SH} `{!Base32Laws B32}.
Context `{!Base58Multihash B58} `{!OsUtilsLaws OS} `{!MdbLaws DB}.
Context (path : bytes) (http : bytes -> bytes -> bytes -> option bytes) (now : Z).
Hypothesis now_ok : 0 < now /\ time_ok now.
(** What is found where the arrays of the journal's functions were, at each state of the database: anything of
    their length, but for the time, which must not be read as 0. *)
Context (stale : mdb_env -> bytes -> bytes).
Hypothesis stale_size : forall e b, len (stale e b) = len b.
Hypothesis stale_time : forall e, journal_key_time (stale e (wire_uint now)) <> 0.

(** The datastore of the program. *)
#[local] Instance program_datastore : Datastore := lmdb_datastore stale now.
#[local] Instance program_datastore_laws : DatastoreLaws program_datastore :=
  lmdb_datastore_laws stale now stale_size stale_time now_ok.

(** The database takes records, and so does the file system. *)
Record repository_ok (w : World) : Prop := {
  repository_files : forall h, fs_writable (w_fs w) (hash_file path h) = true;
  repository_room : 2 ^ 32 <= fs_room (w_fs w);
  repository_key : @enc_encode_size base32 32 <= 100;
  repository_ready : mdb_ready (w_ds w : mdb_env);
  repository_tables : tables_ok (env_values (w_ds w : mdb_env))
}.

Lemma repository_roomy w : repository_ok w -> roomy path w.
Proof. intros [Hf Hr Hk Hd Ht]. constructor; [exact Hf | exact Hr | exact Hk | split; assumption]. Qed.

(** C13: with its datastore in the lightning database the program gets back what it
    imported: the file of an import is exported by the text of its hash and written
    by cat; every node of it then has a value in the database, and the tables are as they should
    be for the next import. It does not depend on what the dead arrays hold that the journal is written from,
    as long as the time in them is not read as 0: then a block that is there would never be put again. *)
Theorem import_export_over_lmdb f recursive (w : World) written s :
  len f < 2 ^ 42 -> repository_ok w -> no_collision (file_wires f) ->
  len f <= st_room s -> @enc_encode_size base58 34 <= 100 ->
  let RT := ipfs_routing_new_offline path false http in
  exists n written' w' h t,
    @ipfs_import_file _ _ _ _ _ _ RT path recursive (File f) written w = (Ok (n, written'), w') /\
    nd_hash n = Some h /\ ipfs_cid_hash_to_base58 (Some h) (nd_hash_size n) 100 = Ok t /\
    @ipfs_exporter_to_filestream _ _ _ RT t s w' =
      (Ok (MkStream (st_data s ++ f) (st_room s - len f)), w') /\
    @ipfs_exporter_object_cat_to_file _ _ RT 2 (Some h) (nd_hash_size n) s w' =
      (Ok (MkStream (st_data s ++ f) (st_room s - len f)), w') /\
    repository_ok w' /\
    forall m, m ∈ file_nodes f -> env_values (w_ds w' : mdb_env) DATASTORE (node_hash m) <> [].
Proof.
  intros Hf Hw Hc Hr Hb RT.
  destruct (import_then_export path http f recursive w written s Hf (repository_roomy w Hw) Hc Hr Hb)
    as (n & wr & w' & h & t & H1 & H2 & H3 & H4 & H5 & Hst & [Hfs Hroom Hk [He Ht]] & _).
  exists n, wr, w', h, t. repeat (split; [assumption |]). split; [constructor; assumption |].
  intros m Hm E. destruct (Hst m Hm) as [[r Hg] _].
  assert (Hfirst : datastore_get (node_hash m) (w_ds w') =
    first_record (node_hash m) (env_values (w_ds w' : mdb_env) DATASTORE (node_hash m)))
    by exact (lmdb_get_first stale now (node_hash m) (w_ds w') (conj He Ht)).
  rewrite Hfirst, E in Hg. discriminate.
Qed.
End Stack.

(** * A concrete run *)

Definition lmdb_world : @World (lmdb_datastore (fun _ => overwritten) sample_now) :=
  @MkWorld (lmdb_datastore (fun _ => overwritten) sample_now) (MkFS ∅ (fun _ => true) (2 ^ 40)) sample_env.

Lemma import_export_over_lmdb_witness :
  exists n written' w' t,
    @ipfs_import_file _ _ _ _ _ _
      (ipfs_routing_new_offline (DS := lmdb_datastore (fun _ => overwritten) sample_now) (str "/repo") false (fun _ _ _ => None))
      (str "/repo") true (File (str "hello world")) 0 lmdb_world = (Ok (n, written'), w') /\
    @ipfs_exporter_to_filestream _ _ (lmdb_datastore (fun _ => overwritten) sample_now)
      (ipfs_routing_new_offline (DS := lmdb_datastore (fun _ => overwritten) sample_now) (str "/repo") false (fun _ _ _ => None)) t (MkStream [] 1000) w' =
      (Ok (MkStream (str "hello world") 989), w').
Proof.
  destruct (import_export_over_lmdb (str "/repo") (fun _ _ _ => None) sample_now sample_now_ok
    (fun _ => overwritten) (fun _ => overwritten_size) (fun _ => overwritten_time)
    (str "hello world") true lmdb_world 0 (MkStream [] 1000))
    as (n & wr & w' & h & t & Hi & _ & _ & He & _).
  - vm_compute. reflexivity.
  - constructor; [reflexivity | vm_compute; discriminate | vm_compute; discriminate | |]; apply sample_env_ready.
  - intros a b Ha Hb _. vm_compute in Ha, Hb.
    repeat (apply elem_of_cons in Ha as [-> | Ha]; [| try (inversion Ha; fail)]);
    repeat (apply elem_of_cons in Hb as [-> | Hb]; [| try (inversion Hb; fail)]); reflexivity.
  - vm_compute. discriminate.
  - vm_compute. discriminate.
  - exists n, wr, w', t. split; [exact Hi | exact He].
Defined.

(** ** Publishing a name again *)

Section Republish.
#[local] Instance sample_datastore : Datastore := @lmdb_datastore ref_protobuf ref_mdb (fun _ => overwritten) sample_now.

Definition sample_names : World (DS := sample_datastore) :=
  MkWorld (MkFS ∅ (fun _ => true) 0) sample_env.

(** Both paths are kept under the id, and the one that sorts first is found: the second
    publication succeeds and the name still leads to the first path. *)
Lemma republish_ignored :
  let publish p := ipfs_namesys_publisher_publish sample_id p in
  let '(r1, w1) := publish (str "/ipfs/QmA") sample_names in
  let '(r2, w2) := publish (str "/ipfs/QmB") w1 in
  r2 = Ok (MkPutValue sample_digest sample_digest (str "/ipfs/QmB")) /\
  fst (ipfs_namesys_resolver_resolve (str "/ipns/" ++ sample_id) true w2) = Ok (str "/ipfs/QmA").
Proof. vm_compute. auto. Qed.
End Republish.
