(* ===== verification/Peers.v ===== *)
(** What the code sees of other peers: [struct Libp2pPeer], the peer store, the provider
    store, Kademlia messages and connections, all of the libp2p submodule, as an interface;
    and the monad of the code that talks to peers. *)

From S2P Require Import Prelude Libc Storage Config.

(** ** Data *)

Inductive ConnectionType :=
| CONNECTION_TYPE_NOT_CONNECTED
| CONNECTION_TYPE_CONNECTED
| CONNECTION_TYPE_OTHER (n : Z).
#[export] Instance ConnectionType_eq_dec : EqDecision ConnectionType.
Proof. solve_decision. Defined.
Inductive MessageType :=
| MESSAGE_TYPE_GET_VALUE
| MESSAGE_TYPE_ADD_PROVIDER
| MESSAGE_TYPE_GET_PROVIDERS
| MESSAGE_TYPE_FIND_NODE
| MESSAGE_TYPE_PING
| MESSAGE_TYPE_OTHER (n : Z).
#[export] Instance MessageType_eq_dec : EqDecision MessageType.
Proof. solve_decision. Defined.
(** [enum NodeMode] (include/ipfs/core/ipfs_node.h). *)
Inductive NodeMode := MODE_OFFLINE | MODE_API_AVAILABLE | MODE_ONLINE.
#[export] Instance NodeMode_eq_dec : EqDecision NodeMode.
Proof. solve_decision. Defined.

(** [struct SessionContext]. *)
Class Sessions := { Session : Type }.

Section Data.
Context {AD : Addrs} {SS : Sessions}.

(** The fields the program uses; an id is its [id_size] bytes. *)
Record Libp2pPeer := MkLibp2pPeer {
  lp_id : bytes;
  lp_addr_head : list (option MultiAddress);
  connection_type : ConnectionType;
  is_local : bool;
  sessionContext : option Session
}.
Definition set_connection (c : ConnectionType) (p : Libp2pPeer) : Libp2pPeer :=
  MkLibp2pPeer (lp_id p) (lp_addr_head p) c (is_local p) (sessionContext p).
Definition set_addrs (l : list (option MultiAddress)) (p : Libp2pPeer) : Libp2pPeer :=
  MkLibp2pPeer (lp_id p) l (connection_type p) (is_local p) (sessionContext p).
Definition set_id (id : bytes) (p : Libp2pPeer) : Libp2pPeer :=
  MkLibp2pPeer id (lp_addr_head p) (connection_type p) (is_local p) (sessionContext p).
Definition connected (p : Libp2pPeer) : bool :=
  bool_decide (connection_type p = CONNECTION_TYPE_CONNECTED).

(** Of a record the value is used. *)
Record KademliaMessage := MkKademlia {
  message_type : MessageType;
  km_key : option bytes;
  provider_peer_head : list (option Libp2pPeer);
  km_record : option bytes
}.
Definition set_type (t : MessageType) (m : KademliaMessage) : KademliaMessage :=
  MkKademlia t (km_key m) (provider_peer_head m) (km_record m).
Definition set_key (k : bytes) (m : KademliaMessage) : KademliaMessage :=
  MkKademlia (message_type m) (Some k) (provider_peer_head m) (km_record m).
Definition set_providers (l : list (option Libp2pPeer)) (m : KademliaMessage) : KademliaMessage :=
  MkKademlia (message_type m) (km_key m) l (km_record m).

(** The peers in memory by their addresses, and the list [head_entry] starts. *)
Record Peerstore := MkPeerstore { ps_heap : gmap positive Libp2pPeer; ps_entries : list positive }.
End Data.

(** ** The library *)

(** [Net]: the outside; what [receive] stores is used whatever it returns. A connection is made
    for at most the given seconds. *)
Class Libp2p {AD : Addrs} {SS : Sessions} := {
  Net : Type;
  ProviderStore : Type;
  libp2p_message_new : KademliaMessage;
  libp2p_peer_new : Libp2pPeer;
  libp2p_peer_copy : Libp2pPeer -> option Libp2pPeer;
  libp2p_routing_dht_send_message : option Session -> KademliaMessage -> Net -> bool * Net;
  libp2p_routing_dht_receive_message : option Session -> Net -> bool * option KademliaMessage * Net;
  libp2p_peerstore_get_peer : Peerstore -> bytes -> option positive;
  libp2p_peerstore_add_peer : Peerstore -> Libp2pPeer -> Peerstore;
  libp2p_peerstore_get_or_add_peer : Peerstore -> option positive -> option positive * Peerstore;
  libp2p_peer_is_connected : Libp2pPeer -> bool;
  libp2p_peer_connect : positive -> Z -> Peerstore -> Net -> bool * Peerstore * Net;
  libp2p_providerstore_get : ProviderStore -> bytes -> option bytes;
  libp2p_providerstore_add : ProviderStore -> bytes -> bytes -> ProviderStore;
  multiaddress_get_ip_port : MultiAddress -> Z;
  multiaddress_get_peer_id : MultiAddress -> option bytes;
  multiaddress_copy : MultiAddress -> option MultiAddress;
  multiaddress_is_ip : MultiAddress -> bool
}.

(** The entries are in memory, each once. *)
Record store_ok {AD : Addrs} {SS : Sessions} {LP : Libp2p} (ps : Peerstore) : Prop := {
  so_nodup : NoDup (ps_entries ps);
  so_heap a : a ∈ ps_entries ps -> is_Some (ps_heap ps !! a)
}.
(** Peers in memory stay there under their ids, and entries are only added behind. *)
Record store_grows {AD : Addrs} {SS : Sessions} {LP : Libp2p} (ps ps' : Peerstore) : Prop := {
  sg_entries : exists more, ps_entries ps' = ps_entries ps ++ more;
  sg_heap a p : ps_heap ps !! a = Some p -> exists p', ps_heap ps' !! a = Some p' /\ lp_id p' = lp_id p /\ is_local p' = is_local p
}.

(** Storing an unknown peer stores a copy; a peer of the store is its own entry; a connection
    that was made is marked and has a session. *)
Class Libp2pLaws {AD : Addrs} {SS : Sessions} (LP : Libp2p) := {
  peer_copy_total p : exists c, libp2p_peer_copy p = Some c;
  peer_copy_same p c : libp2p_peer_copy p = Some c -> lp_id c = lp_id p /\ is_local c = is_local p;
  get_peer_some ps id a :
    store_ok ps -> libp2p_peerstore_get_peer ps id = Some a ->
    a ∈ ps_entries ps /\ exists p, ps_heap ps !! a = Some p /\ lp_id p = id;
  get_peer_none ps id a p :
    store_ok ps -> libp2p_peerstore_get_peer ps id = None ->
    a ∈ ps_entries ps -> ps_heap ps !! a = Some p -> lp_id p <> id;
  add_peer_known ps p : store_ok ps -> store_ok (libp2p_peerstore_add_peer ps p);
  add_peer_grows ps p : store_ok ps -> store_grows ps (libp2p_peerstore_add_peer ps p);
  add_peer_found ps p : store_ok ps -> is_Some (libp2p_peerstore_get_peer (libp2p_peerstore_add_peer ps p) (lp_id p));
  get_or_add_entry ps a : a ∈ ps_entries ps -> libp2p_peerstore_get_or_add_peer ps (Some a) = (Some a, ps);
  is_connected_spec p : libp2p_peer_is_connected p = connected p;
  connect_ok a t ps n :
    store_ok ps -> store_ok (libp2p_peer_connect a t ps n).1.2 /\ store_grows ps (libp2p_peer_connect a t ps n).1.2;
  connect_connected a t ps n ps' n' p :
    libp2p_peer_connect a t ps n = (true, ps', n') -> ps_heap ps' !! a = Some p -> connected p = true /\ is_Some (sessionContext p)
}.

(** ** The code that talks to peers *)

Section Monad.
Context {AD : Addrs} {SS : Sessions} {DS : Datastore} {LP : Libp2p}.

(** What the code finds behind [struct IpfsNode*]: files and datastore, the two stores, the
    outside, the mode. [ns_sent]: the messages that were handed over to be sent, in order. *)
Record NetState := MkNetState {
  ns_world : World;
  ns_store : Peerstore;
  ns_providers : ProviderStore;
  ns_net : Net;
  ns_mode : NodeMode;
  ns_sent : list (option Session * KademliaMessage)
}.
Definition set_world (w : World) (s : NetState) : NetState :=
  MkNetState w (ns_store s) (ns_providers s) (ns_net s) (ns_mode s) (ns_sent s).
Definition set_store (ps : Peerstore) (s : NetState) : NetState :=
  MkNetState (ns_world s) ps (ns_providers s) (ns_net s) (ns_mode s) (ns_sent s).
Definition set_net (n : Net) (s : NetState) : NetState :=
  MkNetState (ns_world s) (ns_store s) (ns_providers s) n (ns_mode s) (ns_sent s).
Definition set_mode (m : NodeMode) (s : NetState) : NetState :=
  MkNetState (ns_world s) (ns_store s) (ns_providers s) (ns_net s) m (ns_sent s).
Definition set_providerstore (v : ProviderStore) (s : NetState) : NetState :=
  MkNetState (ns_world s) (ns_store s) v (ns_net s) (ns_mode s) (ns_sent s).
Definition set_sent (l : list (option Session * KademliaMessage)) (s : NetState) : NetState :=
  MkNetState (ns_world s) (ns_store s) (ns_providers s) (ns_net s) (ns_mode s) l.

Definition netio (A : Type) : Type := NetState -> cres unit A * NetState.
#[export] Instance netio_ret : MRet netio := fun A a s => (Ok a, s).
#[export] Instance netio_bind : MBind netio := fun A B f m s =>
  match m s with
  | (Ok a, s') => f a s'
  | (Err e, s') => (Err e, s')
  | (Undef, s') => (Undef, s')
  | (NoFuel, s') => (NoFuel, s')
  end.
Definition net_lift {A} (r : cres unit A) : netio A := fun s => (r, s).
Definition net_look {A} (f : NetState -> A) : netio A := fun s => (Ok (f s), s).
Definition net_fail {A} : netio A := net_lift (Err ()).
Definition net_undef {A} : netio A := net_lift Undef.
(** A call whose failure is looked at. *)
Definition net_try {A} (m : netio A) : netio (option A) := fun s =>
  match m s with
  | (Ok a, s') => (Ok (Some a), s')
  | (Err _, s') => (Ok None, s')
  | (Undef, s') => (Undef, s')
  | (NoFuel, s') => (NoFuel, s')
  end.
(** What a pointer to a peer points to; the NULL pointer is [None]. *)
Definition peer_at (a : positive) : netio Libp2pPeer := fun s =>
  match ps_heap (ns_store s) !! a with
  | Some p => (Ok p, s)
  | None => (Undef, s)
  end.
Definition deref {A} (p : option A) : netio A := net_lift (match p with Some a => Ok a | None => Undef end).
Definition alter_peer (f : Libp2pPeer -> Libp2pPeer) (a : positive) : netio unit := fun s =>
  (Ok (), set_store (MkPeerstore (alter f a (ps_heap (ns_store s))) (ps_entries (ns_store s))) s).
Definition in_world {A} (m : io unit A) : netio A := fun s =>
  let '(r, w) := m (ns_world s) in (r, set_world w s).

(** The library's operations in the monad. *)
Definition peerstore_get_peer (id : bytes) : netio (option positive) :=
  net_look (fun s => libp2p_peerstore_get_peer (ns_store s) id).
Definition peerstore_add_peer (p : Libp2pPeer) : netio unit := fun s =>
  (Ok (), set_store (libp2p_peerstore_add_peer (ns_store s) p) s).
Definition peerstore_get_or_add_peer (a : option positive) : netio (option positive) := fun s =>
  let '(r, ps) := libp2p_peerstore_get_or_add_peer (ns_store s) a in (Ok r, set_store ps s).
Definition peer_connect (a : positive) (timeout : Z) : netio bool := fun s =>
  let '(ok, ps, n) := libp2p_peer_connect a timeout (ns_store s) (ns_net s) in
  (Ok ok, set_net n (set_store ps s)).
Definition dht_send_message (ses : option Session) (m : KademliaMessage) : netio bool := fun s =>
  let '(ok, n) := libp2p_routing_dht_send_message ses m (ns_net s) in
  (Ok ok, set_sent (ns_sent s ++ [(ses, m)]) (set_net n s)).
Definition dht_receive_message (ses : option Session) : netio (option KademliaMessage) := fun s =>
  let '(_, r, n) := libp2p_routing_dht_receive_message ses (ns_net s) in
  (Ok r, set_net n s).

Lemma netio_bind_ok {A B} (m : netio A) (f : A -> netio B) s a s' :
  m s = (Ok a, s') -> (m ≫= f) s = f a s'.
Proof. intros H. unfold mbind, netio_bind. rewrite H. reflexivity. Qed.
End Monad.
