(* ===== verification/OnlineRouting.v ===== *)
(** Routing over the network (src/routing/online.c) and what the other routers (offline.c,
    k_routing.c, supernode.c) share with it; finding a peer by a path (importer/resolver.c). *)

From S2P Require Import Prelude Libc Protobuf Libs Storage ProtobufRef LibsRef Cid UnixFS MerkleNode.
From S2P Require Import Block Blockstore Merkledag Routing Resolver Config Peers.

Section Online.
Context {PB : Protobuf} {MH : Multihash} {SH : Sha256} {B32 : Base32} {B58 : Base58}.
Context {OS : OsUtils} {DS : Datastore} {AD : Addrs} {SS : Sessions} {LP : Libp2p}.
(** The repository's path, and what posting to the API answers. *)
Context (path : bytes) (http : bytes -> bytes -> bytes -> option bytes).
(** [identity->peer], and of the configuration the swarm addresses and the bootstrap peers. *)
Context (local : Libp2pPeer) (swarm_head : list bytes) (bootstrap_peers : list MultiAddress).

(** ** Asking *)

Definition ipfs_routing_online_send_receive_message (ses : option Session) (m : KademliaMessage)
  : netio (option KademliaMessage) :=
  sent ← dht_send_message ses m;
  if (sent : bool) then dht_receive_message ses else mret None.

Definition providers_message (key : bytes) : KademliaMessage :=
  set_key key (set_type MESSAGE_TYPE_GET_PROVIDERS libp2p_message_new).
(** The peers of an answer, as the peers of the store. *)
Fixpoint store_providers (l : list (option Libp2pPeer)) : netio (list (option positive)) :=
  match l with
  | [] => mret []
  | item :: l =>
      current ← deref item;
      found ← peerstore_get_peer (lp_id current);
      a ← match found with
          | Some a => mret (Some a)
          | None => peerstore_add_peer current ≫= fun _ => peerstore_get_peer (lp_id current)
          end;
      rest ← store_providers l;
      mret (a :: rest)
  end.
Fixpoint ask_for_providers (m : KademliaMessage) (entries : list positive) : netio (list (option positive)) :=
  match entries with
  | [] => net_fail
  | a :: entries =>
      p ← peer_at a;
      if connected p then
        r ← ipfs_routing_online_send_receive_message (sessionContext p) m;
        match r with
        | Some answer =>
            match provider_peer_head answer with
            | [] => ask_for_providers m entries
            | l => store_providers l
            end
        | None => ask_for_providers m entries
        end
      else ask_for_providers m entries
  end.
Definition ipfs_routing_online_find_remote_providers (key : bytes) : netio (list (option positive)) :=
  entries ← net_look (fun s => ps_entries (ns_store s));
  ask_for_providers (providers_message key) entries.

Definition ipfs_routing_online_find_providers (key : bytes) : netio (list (option positive)) :=
  known ← net_look (fun s => libp2p_providerstore_get (ns_providers s) key);
  match known with
  | None => ipfs_routing_online_find_remote_providers key
  | Some peer_id =>
      peer ← peerstore_get_peer peer_id;
      match peer with
      | None => net_fail
      | Some a => mret [Some a]
      end
  end.

(** [None]: nothing was found; the copy of the peer that was found may fail. *)
Definition ipfs_routing_online_ask_peer_for_peer (whoToAsk : positive) (peer_id : bytes)
  : netio (option Libp2pPeer) :=
  who ← peer_at whoToAsk;
  if connected who then
    r ← ipfs_routing_online_send_receive_message (sessionContext who)
          (set_key peer_id (set_type MESSAGE_TYPE_FIND_NODE libp2p_message_new));
    match r with
    | None =>
        alter_peer (set_connection CONNECTION_TYPE_NOT_CONNECTED) whoToAsk ≫= fun _ => mret None
    | Some answer =>
        match provider_peer_head answer with
        | Some p :: _ => mret (libp2p_peer_copy p)
        | _ => mret None
        end
    end
  else mret None.
(** A peer of the store, or a copy of one another peer told of. *)
Inductive found_peer := Stored (a : positive) | Told (p : Libp2pPeer).
Fixpoint ask_peers (peer_id : bytes) (entries : list positive) : netio found_peer :=
  match entries with
  | [] => net_fail
  | a :: entries =>
      r ← ipfs_routing_online_ask_peer_for_peer a peer_id;
      match r with
      | Some p => mret (Told p)
      | None => ask_peers peer_id entries
      end
  end.
Definition ipfs_routing_online_find_peer (peer_id : bytes) : netio found_peer :=
  known ← peerstore_get_peer peer_id;
  match known with
  | Some a => mret (Stored a)
  | None =>
      entries ← net_look (fun s => ps_entries (ns_store s));
      ask_peers peer_id entries
  end.

(** ** Announcing *)

(** The text is written into 255 bytes. *)
Definition local_address (port : Z) : bytes :=
  str "/ip4/127.0.0.1/tcp/" ++ int_decimal port ++ str "/ipfs/" ++ c_str (lp_id local) ++ str "/".
Definition ipfs_routing_online_build_local_peer : cres unit Libp2pPeer :=
  match libp2p_peer_copy local, swarm_head with
  | Some local_peer, first :: _ =>
      match multiaddress_new_from_string first with
      | None => Undef
      | Some temp_ma =>
          let text := local_address (multiaddress_get_ip_port temp_ma) in
          if 255 <=? len text then Undef
          else match multiaddress_new_from_string text with
               | None => Undef
               | Some ma => Ok (set_addrs [Some ma] (set_connection CONNECTION_TYPE_CONNECTED local_peer))
               end
      end
  | _, _ => Undef
  end.
Definition provide_message (key : bytes) (local_peer : Libp2pPeer) : KademliaMessage :=
  set_providers [Some local_peer] (set_type MESSAGE_TYPE_ADD_PROVIDER (set_key key libp2p_message_new)).
Fixpoint tell_peers (msg : KademliaMessage) (entries : list positive) : netio unit :=
  match entries with
  | [] => mret ()
  | a :: entries =>
      p ← peer_at a;
      if is_local p then tell_peers msg entries
      else if connected p then
        ipfs_routing_online_send_receive_message (sessionContext p) msg ≫= fun _ => tell_peers msg entries
      else tell_peers msg entries
  end.
Definition ipfs_routing_online_provide (key : bytes) : netio unit :=
  local_peer ← net_lift ipfs_routing_online_build_local_peer;
  entries ← net_look (fun s => ps_entries (ns_store s));
  tell_peers (provide_message key local_peer) entries.

Definition ipfs_routing_online_ping (peer : positive) : netio unit :=
  p ← peer_at peer;
  ready ← (if connected p then mret true else peer_connect peer 5);
  if (ready : bool) then
    p ← peer_at peer;
    if connected p then
      r ← ipfs_routing_online_send_receive_message (sessionContext p)
            (set_type MESSAGE_TYPE_PING libp2p_message_new);
      match r with
      | None => net_fail
      | Some answer => if decide (message_type answer = MESSAGE_TYPE_PING) then mret () else net_fail
      end
    else mret ()
  else net_fail.

(** ** Values *)

Definition ipfs_routing_online_get_peer_value (p : Libp2pPeer) (key : bytes) : netio bytes :=
  r ← ipfs_routing_online_send_receive_message (sessionContext p)
        (set_type MESSAGE_TYPE_GET_VALUE (set_key key libp2p_message_new));
  match r with
  | Some answer =>
      match km_record answer with
      | Some value => if len value <=? 0 then net_fail else mret value
      | None => net_fail
      end
  | None => net_fail
  end.
Definition get_value_here (key : bytes) : netio bytes := fun s =>
  in_world (ipfs_routing_generic_get_value path
              (bool_decide (ns_mode s = MODE_API_AVAILABLE)) http (Some key) (len key)) s.
(** First here and from the peers that are connected, ... *)
Fixpoint ask_reachable (key : bytes) (peers : list (option positive)) : netio (option bytes) :=
  match peers with
  | [] => mret None
  | item :: peers =>
      current ← peerstore_get_or_add_peer item;
      a ← deref current;
      p ← peer_at a;
      if is_local p then
        v ← net_try (get_value_here key);
        match v with
        | Some v => mret (Some v)
        | None => ask_reachable key peers
        end
      else if libp2p_peer_is_connected p then
        v ← net_try (ipfs_routing_online_get_peer_value p key);
        match v with
        | Some v => mret (Some v)
        | None => ask_reachable key peers
        end
      else ask_reachable key peers
  end.
(** ... then from the others. *)
Fixpoint ask_others (key : bytes) (peers : list (option positive)) : netio (option bytes) :=
  match peers with
  | [] => mret None
  | item :: peers =>
      a ← deref item;
      p ← peer_at a;
      if is_local p then ask_others key peers
      else if libp2p_peer_is_connected p then ask_others key peers
      else
        ok ← peer_connect a 5;
        if (ok : bool) then
          p ← peer_at a;
          v ← net_try (ipfs_routing_online_get_peer_value p key);
          match v with
          | Some v => mret (Some v)
          | None => ask_others key peers
          end
        else ask_others key peers
  end.
(** The value found, if any: with providers the call is a success in any case, as the last
    test looks at the pointer to the size. *)
Definition ipfs_routing_online_get_value (FindProviders : bytes -> netio (list (option positive))) (key : bytes)
  : netio (option bytes) :=
  found ← net_try (FindProviders key);
  match found with
  | None => net_fail
  | Some peers =>
      v ← ask_reachable key peers;
      match v with
      | Some v => mret (Some v)
      | None => ask_others key peers
      end
  end.

(** ** Starting *)

Fixpoint bootstrap_loop (addresses : list MultiAddress) : netio unit :=
  match addresses with
  | [] => mret ()
  | address :: addresses =>
      match multiaddress_get_peer_id address with
      | None => bootstrap_loop addresses
      | Some text =>
          let peer_id := c_str text in
          peerstore_add_peer (set_addrs [multiaddress_copy address] (set_id peer_id libp2p_peer_new)) ≫= fun _ =>
          found ← peerstore_get_peer peer_id;
          match found with
          | None => net_fail
          | Some a =>
              p ← peer_at a;
              match sessionContext p with
              | None => peer_connect a 2 ≫= fun _ => bootstrap_loop addresses
              | Some _ => bootstrap_loop addresses
              end
          end
      end
  end.
Definition ipfs_routing_online_bootstrap : netio unit := bootstrap_loop bootstrap_peers.

(** ** The routers *)

Definition ipfs_routing_offline_find_providers (key : bytes) : netio (list (option positive)) :=
  known ← net_look (fun s => libp2p_providerstore_get (ns_providers s) key);
  match known with
  | None => ipfs_routing_online_find_remote_providers key
  | Some peer_id =>
      peer ← peerstore_get_peer peer_id;
      match peer with
      | None => net_fail
      | Some a => mret [Some a]
      end
  end.
Definition ipfs_routing_offline_bootstrap : netio unit :=
  mode ← net_look ns_mode;
  if decide (mode = MODE_API_AVAILABLE) then mret () else bootstrap_loop bootstrap_peers.

(** [struct IpfsRouting]; [Listen] and [Shutdown] are set together, or not at all. *)
Record IpfsRouting := MkIpfsRouting {
  GetValue : bytes -> netio (option bytes);
  FindProviders : bytes -> netio (list (option positive));
  FindPeer : bytes -> netio found_peer;
  Provide : bytes -> netio unit;
  Ping : positive -> netio unit;
  Bootstrap : netio unit;
  listens : bool
}.
Definition online_routing : IpfsRouting := {|
  GetValue := ipfs_routing_online_get_value ipfs_routing_online_find_providers;
  FindProviders := ipfs_routing_online_find_providers;
  FindPeer := ipfs_routing_online_find_peer;
  Provide := ipfs_routing_online_provide;
  Ping := ipfs_routing_online_ping;
  Bootstrap := ipfs_routing_online_bootstrap;
  listens := true
|}.
(** The bootstrap's result is not looked at. *)
Definition ipfs_routing_new_online : netio IpfsRouting :=
  (fun s => (Ok (), set_mode MODE_ONLINE s)) ≫= fun _ =>
  net_try (Bootstrap online_routing) ≫= fun _ => mret online_routing.
(** Pinging offline gives the error [ErrOffline], which is not 0: true. *)
Definition offline_routing : IpfsRouting := {|
  GetValue := fun key => v ← get_value_here key; mret (Some v);
  FindProviders := ipfs_routing_offline_find_providers;
  FindPeer := fun _ => net_fail;
  Provide := fun key s =>
    in_world (ipfs_routing_offline_provide (bool_decide (ns_mode s = MODE_API_AVAILABLE)) http
                (Some key) (len key)) s;
  Ping := fun _ => mret ();
  Bootstrap := ipfs_routing_offline_bootstrap;
  listens := false
|}.

(** Making the record's parts: what [libp2p_record_make_put_record] returns is its error. Nothing
    is stored. *)
Definition ipfs_routing_generic_put_value (make_put_record : bytes -> bytes -> Z) (key val : bytes)
  : cres unit Z :=
  let err := make_put_record key val in
  if err =? 0 then
    match ipfs_datastore_helper_ds_key_from_binary (Some key) (len key) (len key + 1) with
    | Ok _ => Ok 0
    | Err _ => Ok (-1)
    | Undef => Undef
    | NoFuel => NoFuel
    end
  else Ok err.

(** ** Finding a peer by a path *)

(** [id]: the local peer's. *)
Definition ipfs_resolver_find_peer (routing : IpfsRouting) (id : bytes) (p : bytes) : netio (option found_peer) :=
  address_string ← net_lift (ipfs_resolver_remove_path_prefix p id);
  net_try (FindPeer routing address_string).
(** ** Kademlia (k_routing.c) and the super node *)

(** The library's search (for a key, and how long), and its start. *)
Context (search_kademlia : bytes -> Z -> Net -> option (list MultiAddress) * Net).
Context (start_kademlia_multiaddress : MultiAddress -> bytes -> Z -> Net -> Net).
(** The texts of what the bootstrap peers are taken for here, and the library's peer of an
    address. *)
Context (ipfs_addrs : list bytes) (peer_new_from_multiaddress : option MultiAddress -> option Libp2pPeer).
Context (api_address : bytes).

Definition ipfs_routing_kademlia_put_value (key value : bytes) : Z := 0.
Definition ipfs_routing_kademlia_get_value (key : bytes) : netio (option bytes) := net_fail.
Definition ipfs_routing_kademlia_find_peer (peer_id : bytes) : netio found_peer := net_fail.
Fixpoint ip_addresses (l : list (option MultiAddress)) : cres unit (list MultiAddress) :=
  match l with
  | [] => Ok []
  | None :: _ => Undef
  | Some ma :: l =>
      rest ← ip_addresses l;
      Ok (if multiaddress_is_ip ma then ma :: rest else rest)
  end.
Definition search_for (key : bytes) : netio (list MultiAddress) := fun s =>
  let '(r, n) := search_kademlia (c_str key) 3 (ns_net s) in
  (Ok (default [] r), set_net n s).
(** When nothing was found the vector handed out is the one that was freed. *)
Definition ipfs_routing_kademlia_find_providers (key : bytes) : netio (list MultiAddress) :=
  known ← net_look (fun s => libp2p_providerstore_get (ns_providers s) key);
  here ← match known with
         | None => mret []
         | Some peer_id =>
             found ← peerstore_get_peer peer_id;
             a ← deref found;
             p ← peer_at a;
             net_lift (ip_addresses (lp_addr_head p))
         end;
  vector ← match here with [] => search_for key | _ => mret here end;
  match vector with [] => net_fail | _ => mret vector end.
Definition ipfs_routing_kademlia_provide (key : bytes) : netio unit := fun s =>
  (Ok (), set_providerstore (libp2p_providerstore_add (ns_providers s) key (lp_id local)) s).
Definition ipfs_routing_kademlia_ping (peer : positive) : netio unit := ipfs_routing_online_ping peer.
Fixpoint kademlia_bootstrap_loop (addrs : list bytes) : netio unit :=
  match addrs with
  | [] => mret ()
  | entire_string :: addrs =>
      let ma := multiaddress_new_from_string entire_string in
      match strstr entire_string (str "/ipfs/") with
      | None => kademlia_bootstrap_loop addrs
      | Some at_ =>
          let ptr := drop (at_ + 6) entire_string in
          if starts_with (str "Qm") ptr then
            match peer_new_from_multiaddress ma with
            | Some peer => peerstore_add_peer (set_id ptr peer) ≫= fun _ => kademlia_bootstrap_loop addrs
            | None => kademlia_bootstrap_loop addrs
            end
          else kademlia_bootstrap_loop addrs
      end
  end.
Definition ipfs_routing_kademlia_bootstrap : netio unit := kademlia_bootstrap_loop ipfs_addrs.

(** The first 20 characters of the id name the node in the network. *)
Definition ipfs_routing_new_kademlia : netio bool :=
  if len (lp_id local) <? 20 then mret false
  else
    let kademlia_id := c_str (btake 20 (lp_id local)) in
    match multiaddress_new_from_string api_address with
    | Some address =>
        if multiaddress_is_ip address then fun s =>
          (Ok true, set_net (start_kademlia_multiaddress address kademlia_id 10 (ns_net s)) s)
        else mret true
    | None => mret true
    end.

(** supernode.c *)
Definition ipfs_routing_supernode_parse_provider (input : bytes) (in_size : Z) : Z := 0.
End Online.

(** * Facts *)

(** The peers of the store, in order. *)
Definition peers_of {AD : Addrs} {SS : Sessions} (ps : Peerstore) : list Libp2pPeer :=
  omap (fun a => ps_heap ps !! a) (ps_entries ps).

Section Talking.
Context {DS : Datastore} {AD : Addrs} {SS : Sessions} {LP : Libp2p}.

(** Sending a message is noted, and changes only the outside. *)
Lemma send_receive_sent ses m s :
  exists r n, ipfs_routing_online_send_receive_message ses m s =
    (Ok r, set_sent (ns_sent s ++ [(ses, m)]) (set_net n s)).
Proof.
  unfold ipfs_routing_online_send_receive_message, mbind, netio_bind, dht_send_message, dht_receive_message.
  destruct (libp2p_routing_dht_send_message ses m (ns_net s)) as [[|] n]; cbn [ns_net set_sent set_net].
  - destruct (libp2p_routing_dht_receive_message ses n) as [[b r] n']. exists r, n'. reflexivity.
  - exists None, n. reflexivity.
Qed.
Lemma peer_at_ok a p s : ps_heap (ns_store s) !! a = Some p -> peer_at a s = (Ok p, s).
Proof. intros H. unfold peer_at. rewrite H. reflexivity. Qed.
Lemma entries_heap ps a : store_ok ps -> a ∈ ps_entries ps -> exists p, ps_heap ps !! a = Some p.
Proof. intros Hok Ha. exact (so_heap ps Hok a Ha). Qed.

(** ** Announcing *)

Definition to_be_told (p : Libp2pPeer) : bool := negb (is_local p) && connected p.
Definition tell_all (msg : KademliaMessage) (l : list Libp2pPeer) : list (option Session * KademliaMessage) :=
  map (fun p => (sessionContext p, msg)) (base.filter (fun p => to_be_told p = true) l).
Lemma tell_peers_spec msg entries s :
  (forall a, a ∈ entries -> is_Some (ps_heap (ns_store s) !! a)) ->
  exists n, tell_peers msg entries s =
    (Ok (), set_sent (ns_sent s ++ tell_all msg (omap (fun a => ps_heap (ns_store s) !! a) entries)) (set_net n s)).
Proof.
  revert s. induction entries as [| a entries IH]; intros s Hin.
  - exists (ns_net s). cbn. rewrite app_nil_r. destruct s. reflexivity.
  - destruct (Hin a (list_elem_of_here _ _)) as [p Hp].
    assert (Hin' : forall b, b ∈ entries -> is_Some (ps_heap (ns_store s) !! b)) by (intros; apply Hin; set_solver).
    cbn [tell_peers omap list_omap]. rewrite (netio_bind_ok _ _ s p s (peer_at_ok a p s Hp)), Hp.
    assert (Ht : tell_all msg (p :: omap (fun a => ps_heap (ns_store s) !! a) entries) =
      if to_be_told p then (sessionContext p, msg) :: tell_all msg (omap (fun a => ps_heap (ns_store s) !! a) entries)
      else tell_all msg (omap (fun a => ps_heap (ns_store s) !! a) entries))
      by (unfold tell_all; rewrite filter_cons; case_decide as Hd; destruct (to_be_told p); congruence || reflexivity).
    rewrite Ht. unfold to_be_told.
    destruct (is_local p); cbn [negb andb].
    + apply (IH s Hin').
    + destruct (connected p); [| apply (IH s Hin')].
      destruct (send_receive_sent (sessionContext p) msg s) as (r & n & Hs).
      rewrite (netio_bind_ok _ _ s _ _ Hs).
      destruct (IH (set_sent (ns_sent s ++ [(sessionContext p, msg)]) (set_net n s)) Hin') as [n' Hn].
      exists n'. rewrite Hn. cbn. rewrite <- app_assoc. reflexivity.
Qed.

(** ** A store that grows *)

Lemma store_grows_refl ps : store_grows ps ps.
Proof. split; [exists []; rewrite app_nil_r; reflexivity | eauto]. Qed.
Lemma store_grows_trans ps1 ps2 ps3 : store_grows ps1 ps2 -> store_grows ps2 ps3 -> store_grows ps1 ps3.
Proof.
  intros [[m1 H1] G1] [[m2 H2] G2]. split.
  - exists (m1 ++ m2). rewrite H2, H1, app_assoc. reflexivity.
  - intros a p Hp. destruct (G1 a p Hp) as (p' & Hp' & Hi & Hl). destruct (G2 a p' Hp') as (p2 & Hp2 & Hi2 & Hl2).
    exists p2. split_and!; congruence.
Qed.
Lemma store_grows_entry ps ps' a : store_grows ps ps' -> a ∈ ps_entries ps -> a ∈ ps_entries ps'.
Proof. intros [[more ->] _]. set_solver. Qed.
End Talking.
#[export] Hint Resolve store_grows_refl store_grows_entry : cipfs.

(** ** Peers that answer the same question the same way *)

Section Stable.
Context {DS : Datastore} {AD : Addrs} {SS : Sessions} {LP : Libp2p} `{!Libp2pLaws LP}.
Context (answer : option Session -> KademliaMessage -> option KademliaMessage).
(** What sending and then receiving gives. *)
Definition exchange (ses : option Session) (m : KademliaMessage) (n : Net) : option KademliaMessage :=
  let '(ok, n) := libp2p_routing_dht_send_message ses m n in
  if ok then (libp2p_routing_dht_receive_message ses n).1.2 else None.
Context (stable : forall ses m n, exchange ses m n = answer ses m).

Lemma send_receive_answer ses m s :
  exists n, ipfs_routing_online_send_receive_message ses m s =
    (Ok (answer ses m), set_sent (ns_sent s ++ [(ses, m)]) (set_net n s)).
Proof.
  pose proof (stable ses m (ns_net s)) as H. unfold exchange in H.
  unfold ipfs_routing_online_send_receive_message, mbind, netio_bind, dht_send_message, dht_receive_message.
  destruct (libp2p_routing_dht_send_message ses m (ns_net s)) as [[|] n]; cbn [ns_net set_sent set_net].
  - destruct (libp2p_routing_dht_receive_message ses n) as [[b r] n']. exists n'. cbn in H. rewrite <- H. reflexivity.
  - exists n. rewrite <- H. reflexivity.
Qed.

(** *** Who provides *)

(** The providers a peer tells of. *)
Definition told_by (m : KademliaMessage) (p : Libp2pPeer) : list (option Libp2pPeer) :=
  if connected p then
    match answer (sessionContext p) m with Some a => provider_peer_head a | None => [] end
  else [].
(** The connected peers up to the first that tells of some. *)
Fixpoint asked (m : KademliaMessage) (l : list Libp2pPeer) : list Libp2pPeer :=
  match l with
  | [] => []
  | p :: l =>
      if connected p then p :: (match told_by m p with [] => asked m l | _ => [] end) else asked m l
  end.
Fixpoint first_told (m : KademliaMessage) (l : list Libp2pPeer) : list (option Libp2pPeer) :=
  match l with
  | [] => []
  | p :: l => match told_by m p with [] => first_told m l | t => t end
  end.
Definition questions (m : KademliaMessage) (l : list Libp2pPeer) : list (option Session * KademliaMessage) :=
  map (fun p => (sessionContext p, m)) l.

Lemma ask_for_providers_spec m entries s :
  (forall a, a ∈ entries -> is_Some (ps_heap (ns_store s) !! a)) ->
  exists n, let l := omap (fun a => ps_heap (ns_store s) !! a) entries in
    let s' := set_sent (ns_sent s ++ questions m (asked m l)) (set_net n s) in
    ask_for_providers m entries s =
      match first_told m l with [] => (Err (), s') | t => store_providers t s' end.
Proof.
  revert s. induction entries as [| a entries IH]; intros s Hin; cbn zeta.
  - exists (ns_net s). cbn. rewrite app_nil_r. destruct s. reflexivity.
  - destruct (Hin a (list_elem_of_here _ _)) as [p Hp].
    assert (Hin' : forall b, b ∈ entries -> is_Some (ps_heap (ns_store s) !! b)) by (intros; apply Hin; set_solver).
    cbn [ask_for_providers omap list_omap]. rewrite (netio_bind_ok _ _ s p s (peer_at_ok a p s Hp)), Hp.
    cbn [asked first_told]. unfold told_by at 1 2 3.
    destruct (connected p); [| apply (IH s Hin')].
    destruct (send_receive_answer (sessionContext p) m s) as (n & Hs).
    rewrite (netio_bind_ok _ _ s _ _ Hs).
    set (s1 := set_sent _ _).
    destruct (IH s1 Hin') as [n' Hn]. cbn zeta in Hn. cbn [ns_store s1 set_sent set_net] in Hn.
    assert (Hmore : forall l, set_sent (ns_sent s1 ++ l) (set_net n' s1) =
        set_sent (ns_sent s ++ (sessionContext p, m) :: l) (set_net n' s))
      by (intros; unfold s1; cbn; rewrite <- app_assoc; reflexivity).
    rewrite Hmore in Hn.
    destruct (answer (sessionContext p) m) as [ans |]; [| exists n'; exact Hn].
    destruct (provider_peer_head ans) eqn:E; [exists n'; exact Hn |].
    exists n. reflexivity.
Qed.
(** The peers of an answer become peers of the store. *)
Definition is_for_peer (ps : Peerstore) (a : positive) (p : Libp2pPeer) : Prop :=
  a ∈ ps_entries ps /\ exists q, ps_heap ps !! a = Some q /\ lp_id q = lp_id p.
Lemma is_for_peer_grows ps ps' a p : store_grows ps ps' -> is_for_peer ps a p -> is_for_peer ps' a p.
Proof.
  intros Hg (Ha & q & Hq & Hi). split; [eauto with cipfs |].
  destruct (sg_heap _ _ Hg a q Hq) as (q' & Hq' & Hi' & _). exists q'. split; congruence.
Qed.
Lemma get_peer_for ps p a :
  store_ok ps -> libp2p_peerstore_get_peer ps (lp_id p) = Some a -> is_for_peer ps a p.
Proof. intros Hok Ha. destruct (get_peer_some ps (lp_id p) a Hok Ha) as [He Hq]. split; assumption. Qed.
Lemma store_providers_spec l s :
  store_ok (ns_store s) ->
  exists peers ps, store_providers (map Some l) s = (Ok (map Some peers), set_store ps s) /\
    store_ok ps /\ store_grows (ns_store s) ps /\ Forall2 (is_for_peer ps) peers l.
Proof.
  revert s. induction l as [| p l IH]; intros s Hok.
  - exists [], (ns_store s). split_and!; [destruct s; reflexivity | assumption | apply store_grows_refl | constructor].
  - assert (Hone : exists a ps, store_ok ps /\ store_grows (ns_store s) ps /\ is_for_peer ps a p /\
      store_providers (map Some (p :: l)) s =
        (store_providers (map Some l) ≫= fun rest => mret (Some a :: rest)) (set_store ps s)).
    { cbn [map store_providers].
      destruct (libp2p_peerstore_get_peer (ns_store s) (lp_id p)) as [a |] eqn:E.
      - exists a, (ns_store s). split_and!; [assumption | apply store_grows_refl | eauto using get_peer_for |].
        unfold mbind, netio_bind, deref, net_lift, peerstore_get_peer, net_look. rewrite E.
        destruct s. reflexivity.
      - destruct (add_peer_found (ns_store s) p Hok) as [a Ha].
        pose proof (add_peer_known (ns_store s) p Hok) as Hk.
        exists a, (libp2p_peerstore_add_peer (ns_store s) p).
        split_and!; [assumption | apply add_peer_grows; assumption | eauto using get_peer_for |].
        unfold mbind, netio_bind, deref, net_lift, peerstore_get_peer, peerstore_add_peer, net_look. rewrite E.
        cbn [ns_store set_store]. rewrite Ha. reflexivity. }
    destruct Hone as (a & ps & Hok1 & Hg1 & Ha & ->).
    destruct (IH (set_store ps s) Hok1) as (peers & ps' & Hs & Hok2 & Hg2 & Hall).
    exists (a :: peers), ps'. rewrite (netio_bind_ok _ _ _ _ _ Hs). split_and!; try assumption.
    + reflexivity.
    + eapply store_grows_trans; eassumption.
    + constructor; [| assumption]. eapply is_for_peer_grows; eassumption.
Qed.
End Stable.

(** *** Who has the value *)

Section Asking.
Context {DS : Datastore} {AD : Addrs} {SS : Sessions} {LP : Libp2p} `{!Libp2pLaws LP}.
Context (key : bytes) (answer : option Session -> KademliaMessage -> option KademliaMessage).

Definition value_message : KademliaMessage :=
  set_type MESSAGE_TYPE_GET_VALUE (set_key key libp2p_message_new).
Definition peer_value (ses : option Session) : option bytes :=
  match answer ses value_message with
  | Some a => match km_record a with Some v => if len v <=? 0 then None else Some v | None => None end
  | None => None
  end.

Context (stable : forall ses m n, exchange ses m n = answer ses m).
Lemma try_peer_value p s :
  exists n, net_try (ipfs_routing_online_get_peer_value p key) s =
    (Ok (peer_value (sessionContext p)), set_sent (ns_sent s ++ [(sessionContext p, value_message)]) (set_net n s)).
Proof.
  destruct (send_receive_answer answer stable (sessionContext p) value_message s) as [n Hn].
  exists n. unfold net_try, ipfs_routing_online_get_peer_value. fold value_message.
  rewrite (netio_bind_ok _ _ s _ _ Hn). unfold peer_value.
  destruct (answer _ _) as [a |]; [| reflexivity]. destruct (km_record a) as [v |]; [| reflexivity].
  destruct (len v <=? 0); reflexivity.
Qed.

End Asking.

Section Values.
Context {PB : Protobuf} {MH : Multihash} {SH : Sha256} {B32 : Base32} {B58 : Base58}.
Context {OS : OsUtils} {DS : Datastore} {AD : Addrs} {SS : Sessions} {LP : Libp2p} `{!Libp2pLaws LP}.
Context (path : bytes) (http : bytes -> bytes -> bytes -> option bytes) (key : bytes).
Context (answer : option Session -> KademliaMessage -> option KademliaMessage).
Context (stable : forall ses m n, exchange ses m n = answer ses m).

(** What reading the value here gives. *)
Context (here : option bytes).
Definition reads_here (s : NetState) : Prop :=
  ipfs_routing_generic_get_value path (bool_decide (ns_mode s = MODE_API_AVAILABLE)) http (Some key) (len key)
    (ns_world s) = (match here with Some v => Ok v | None => Err () end, ns_world s).

Lemma try_value_here s : reads_here s -> net_try (get_value_here path http key) s = (Ok here, s).
Proof.
  intros H. unfold net_try, get_value_here, in_world. rewrite H. destruct here; destruct s; reflexivity.
Qed.
(** The value a provider gives without a new connection. *)
Definition value_at (p : Libp2pPeer) : option bytes :=
  if is_local p then here else if connected p then peer_value key answer (sessionContext p) else None.
Definition first_value (l : list Libp2pPeer) : option bytes := head (omap value_at l).
(** The connected peers that are asked. *)
Fixpoint value_questions (l : list Libp2pPeer) : list (option Session * KademliaMessage) :=
  match l with
  | [] => []
  | p :: l =>
      (if negb (is_local p) && connected p then [(sessionContext p, value_message key)] else []) ++
      match value_at p with Some _ => [] | None => value_questions l end
  end.
Lemma first_value_cons p l :
  first_value (p :: l) = match value_at p with Some v => Some v | None => first_value l end.
Proof. unfold first_value. cbn. destruct (value_at p); reflexivity. Qed.
Lemma ask_reachable_spec peers s :
  (forall a, a ∈ peers -> a ∈ ps_entries (ns_store s)) -> store_ok (ns_store s) -> reads_here s ->
  let l := omap (fun a => ps_heap (ns_store s) !! a) peers in
  exists n, ask_reachable path http key (map Some peers) s =
    (Ok (first_value l), set_sent (ns_sent s ++ value_questions l) (set_net n s)).
Proof.
  revert s. induction peers as [| a peers IH]; intros s Hin Hok Hr; cbn zeta.
  - exists (ns_net s). cbn. rewrite app_nil_r. destruct s. reflexivity.
  - destruct (entries_heap (ns_store s) a Hok) as [p Hp]; [apply Hin; set_solver |].
    assert (Hin' : forall b, b ∈ peers -> b ∈ ps_entries (ns_store s)) by (intros; apply Hin; set_solver).
    cbn [map ask_reachable omap list_omap]. rewrite Hp.
    assert (Hg : peerstore_get_or_add_peer (Some a) s = (Ok (Some a), s)).
    { unfold peerstore_get_or_add_peer. rewrite get_or_add_entry by (apply Hin; set_solver). destruct s. reflexivity. }
    rewrite (netio_bind_ok _ _ s _ _ Hg), (netio_bind_ok (deref (Some a)) _ s a s eq_refl).
    rewrite (netio_bind_ok _ _ s p s (peer_at_ok a p s Hp)).
    rewrite is_connected_spec, first_value_cons. cbn [value_questions]. unfold value_at at 1 2.
    destruct (is_local p); cbn [negb andb app].
    + rewrite (netio_bind_ok _ _ s _ _ (try_value_here s Hr)). destruct here as [v |] eqn:E.
      * exists (ns_net s). rewrite app_nil_r. destruct s. reflexivity.
      * exact (IH s Hin' Hok Hr).
    + destruct (connected p); [| exact (IH s Hin' Hok Hr)].
      destruct (try_peer_value key answer stable p s) as [n Hn]. rewrite (netio_bind_ok _ _ s _ _ Hn).
      destruct (peer_value key answer (sessionContext p)) as [v |].
      * exists n. reflexivity.
      * destruct (IH (set_sent (ns_sent s ++ [(sessionContext p, value_message key)]) (set_net n s)) Hin' Hok Hr)
          as [n' Hn']. exists n'. cbn in Hn'. rewrite <- app_assoc in Hn'. exact Hn'.
Qed.

End Values.

Section Others.
Context {DS : Datastore} {AD : Addrs} {SS : Sessions} {LP : Libp2p} `{!Libp2pLaws LP}.
Context (key : bytes) (answer : option Session -> KademliaMessage -> option KademliaMessage).
Context (stable : forall ses m n, exchange ses m n = answer ses m).

(** What the others gave, some peer answered. *)
Definition given (r : option bytes) (s : NetState) : Prop :=
  match r with
  | Some v => exists ses, (ses, value_message key) ∈ ns_sent s /\ peer_value key answer ses = Some v
  | None => True
  end.
Lemma connect_spec a t s :
  store_ok (ns_store s) ->
  exists ok ps n, peer_connect a t s = (Ok ok, set_net n (set_store ps s)) /\
    store_ok ps /\ store_grows (ns_store s) ps.
Proof.
  intros Hok. destruct (connect_ok a t (ns_store s) (ns_net s) Hok) as [Hk Hg]. unfold peer_connect.
  destruct (libp2p_peer_connect a t (ns_store s) (ns_net s)) as [[ok ps] n]. exists ok, ps, n. auto.
Qed.
Lemma ask_others_spec peers s :
  (forall a, a ∈ peers -> a ∈ ps_entries (ns_store s)) -> store_ok (ns_store s) ->
  exists r s', ask_others key (map Some peers) s = (Ok r, s') /\ given r s' /\
    store_ok (ns_store s') /\ store_grows (ns_store s) (ns_store s').
Proof.
  revert s. induction peers as [| a peers IH]; intros s Hin Hok.
  - exists None, s. split_and!; [reflexivity | exact I | assumption | apply store_grows_refl].
  - destruct (entries_heap (ns_store s) a Hok) as [p Hp]; [apply Hin; set_solver |].
    assert (Hin' : forall b, b ∈ peers -> b ∈ ps_entries (ns_store s)) by (intros; apply Hin; set_solver).
    cbn [map ask_others]. rewrite (netio_bind_ok (deref (Some a)) _ s a s eq_refl).
    rewrite (netio_bind_ok _ _ s p s (peer_at_ok a p s Hp)).
    destruct (is_local p); [exact (IH s Hin' Hok) |].
    destruct (libp2p_peer_is_connected p); [exact (IH s Hin' Hok) |].
    destruct (connect_spec a 5 s Hok) as (ok & ps & n & Hc & Hok' & Hg).
    rewrite (netio_bind_ok _ _ s _ _ Hc). set (s1 := set_net n (set_store ps s)).
    assert (Hin1 : forall b, b ∈ peers -> b ∈ ps_entries (ns_store s1)) by (intros; apply (store_grows_entry _ _ _ Hg); auto).
    assert (Hrest : forall s2, ns_store s2 = ps -> exists r s', ask_others key (map Some peers) s2 = (Ok r, s') /\
        given r s' /\ store_ok (ns_store s') /\ store_grows (ns_store s) (ns_store s')).
    { intros s2 E. destruct (IH s2) as (r & s' & H1 & H2 & H3 & H4); rewrite ?E; auto.
      exists r, s'. split_and!; try assumption. eapply store_grows_trans; [exact Hg |]. rewrite <- E. exact H4. }
    destruct ok; [| exact (Hrest s1 eq_refl)].
    destruct (sg_heap _ _ Hg a p Hp) as (q & Hq & _ & _).
    rewrite (netio_bind_ok _ _ s1 q s1 (peer_at_ok a q s1 Hq)).
    destruct (try_peer_value key answer stable q s1) as [n' Hn]. rewrite (netio_bind_ok _ _ s1 _ _ Hn).
    destruct (peer_value key answer (sessionContext q)) as [v |] eqn:E; [| apply Hrest; reflexivity].
    eexists _, _. split_and!; [reflexivity | | exact Hok' | exact Hg].
    exists (sessionContext q). cbn. split; [set_solver | exact E].
Qed.
End Others.

(** ** Bootstrapping *)

Section Starting.
Context {DS : Datastore} {AD : Addrs} {SS : Sessions} {LP : Libp2p} `{!Libp2pLaws LP}.

Definition knows (ps : Peerstore) (id : bytes) : Prop := is_Some (libp2p_peerstore_get_peer ps id).
Lemma knows_grows ps ps' id : store_ok ps -> store_ok ps' -> store_grows ps ps' -> knows ps id -> knows ps' id.
Proof.
  intros Hok Hok' Hg [a Ha]. destruct (get_peer_some ps id a Hok Ha) as (He & p & Hp & Hi).
  destruct (sg_heap _ _ Hg a p Hp) as (p' & Hp' & Hi' & _). unfold knows.
  destruct (libp2p_peerstore_get_peer ps' id) eqn:E; [eauto |]. exfalso.
  apply (get_peer_none ps' id a p' Hok' E); [eauto using store_grows_entry | assumption | congruence].
Qed.
(** One address: its peer is known behind. *)
Lemma bootstrap_one address addresses id s :
  store_ok (ns_store s) -> multiaddress_get_peer_id address = Some id ->
  exists ps n, bootstrap_loop (address :: addresses) s = bootstrap_loop addresses (set_net n (set_store ps s)) /\
    store_ok ps /\ store_grows (ns_store s) ps /\ knows ps (c_str id).
Proof.
  intros Hok Hid. cbn [bootstrap_loop]. rewrite Hid.
  set (p := set_addrs [multiaddress_copy address] (set_id (c_str id) libp2p_peer_new)).
  set (ps1 := libp2p_peerstore_add_peer (ns_store s) p). set (s1 := set_store ps1 s).
  assert (Hadd : peerstore_add_peer p s = (Ok (), s1)) by reflexivity.
  rewrite (netio_bind_ok _ _ s _ _ Hadd).
  assert (Hok1 : store_ok ps1) by apply (add_peer_known _ _ Hok).
  assert (Hg1 : store_grows (ns_store s) ps1) by apply (add_peer_grows _ _ Hok).
  destruct (add_peer_found (ns_store s) p Hok) as [a Ha]. fold ps1 in Ha. change (lp_id p) with (c_str id) in Ha.
  assert (Hf : peerstore_get_peer (c_str id) s1 = (Ok (Some a), s1))
    by (unfold peerstore_get_peer, net_look; cbn [ns_store s1 set_store]; rewrite Ha; reflexivity).
  rewrite (netio_bind_ok _ _ s1 _ _ Hf).
  destruct (get_peer_some ps1 _ a Hok1 Ha) as (_ & q & Hq & _).
  rewrite (netio_bind_ok _ _ s1 _ _ (peer_at_ok a q s1 Hq)).
  assert (Hk1 : knows ps1 (c_str id)) by (exists a; exact Ha).
  destruct (sessionContext q).
  - exists ps1, (ns_net s). split_and!; try assumption. unfold s1. destruct s. reflexivity.
  - destruct (connect_spec a 2 s1 Hok1) as (ok & ps & n & Hc & Hok2 & Hg2).
    rewrite (netio_bind_ok _ _ s1 _ _ Hc). exists ps, n. split_and!; try assumption.
    + reflexivity.
    + eapply store_grows_trans; eassumption.
    + exact (knows_grows ps1 ps _ Hok1 Hok2 Hg2 Hk1).
Qed.
Lemma bootstrap_spec addresses s :
  store_ok (ns_store s) ->
  exists ps n, bootstrap_loop addresses s = (Ok (), set_net n (set_store ps s)) /\
    store_ok ps /\ store_grows (ns_store s) ps /\
    forall address id, address ∈ addresses -> multiaddress_get_peer_id address = Some id -> knows ps (c_str id).
Proof.
  revert s. induction addresses as [| address addresses IH]; intros s Hok.
  - exists (ns_store s), (ns_net s). split_and!; [destruct s; reflexivity | assumption | apply store_grows_refl |].
    intros ? ? []%not_elem_of_nil.
  - destruct (multiaddress_get_peer_id address) as [id |] eqn:Hid.
    + destruct (bootstrap_one address addresses id s Hok Hid) as (ps & n & -> & Hok1 & Hg1 & Hk).
      destruct (IH (set_net n (set_store ps s)) Hok1) as (ps' & n' & -> & Hok2 & Hg2 & Hall).
      exists ps', n'. split_and!; [reflexivity | assumption | eapply store_grows_trans; eassumption |].
      intros b i [-> | Hb]%elem_of_cons Hi; [| eauto].
      rewrite Hid in Hi. injection Hi as <-. exact (knows_grows ps ps' _ Hok1 Hok2 Hg2 Hk).
    + cbn [bootstrap_loop]. rewrite Hid. destruct (IH s Hok) as (ps & n & Hb & H1 & H2 & Hall).
      exists ps, n. split_and!; try assumption.
      intros b i [-> | Hb']%elem_of_cons Hi; [congruence | eauto].
Qed.
End Starting.

(** ** Putting a value *)

(** The key's text has room for one character more than the key has bytes: a longer one is an
    error, and in no case is anything stored. *)
Lemma put_value_no_room {B32 : Base32} make_put_record key val :
  len key + 1 < @enc_encode_size base32 (len key) ->
  exists e, ipfs_routing_generic_put_value make_put_record key val = Ok e /\ e <> 0.
Proof.
  intros H. unfold ipfs_routing_generic_put_value. destruct (make_put_record key val =? 0) eqn:E.
  - exists (-1). split; [| discriminate]. unfold ipfs_datastore_helper_ds_key_from_binary.
    rewrite (proj2 (Z.ltb_lt _ _) H). reflexivity.
  - exists (make_put_record key val). split; [reflexivity | lia].
Qed.

(** ** Kademlia *)

Section KademliaFacts.
Context {DS : Datastore} {AD : Addrs} {SS : Sessions} {LP : Libp2p} `{!Libp2pLaws LP}.
Context (local : Libp2pPeer) (search : bytes -> Z -> Net -> option (list MultiAddress) * Net).

(** What a node announced it finds itself: its addresses, without asking the network. *)
Lemma kademlia_provide_find key s a p addrs :
  (forall ps k id, libp2p_providerstore_get (libp2p_providerstore_add ps k id) k = Some id) ->
  libp2p_peerstore_get_peer (ns_store s) (lp_id local) = Some a ->
  ps_heap (ns_store s) !! a = Some p -> lp_addr_head p = map Some addrs ->
  base.filter (fun ma => multiaddress_is_ip ma = true) addrs <> [] ->
  exists s1, ipfs_routing_kademlia_provide local key s = (Ok (), s1) /\
    ipfs_routing_kademlia_find_providers search key s1 =
      (Ok (base.filter (fun ma => multiaddress_is_ip ma = true) addrs), s1).
Proof.
  intros Hps Ha Hp Haddr Hsome.
  assert (Hip : ip_addresses (map Some addrs) = Ok (base.filter (fun ma => multiaddress_is_ip ma = true) addrs)).
  { clear. induction addrs as [| ma addrs IH]; [reflexivity |]. cbn [map ip_addresses].
    rewrite IH, filter_cons. cbn. case_decide as E; destruct (multiaddress_is_ip ma); congruence || reflexivity. }
  eexists. split; [reflexivity |].
  unfold ipfs_routing_kademlia_find_providers, mbind, netio_bind, net_look, peerstore_get_peer, deref, peer_at, net_lift.
  cbn [ns_providers ns_store set_providerstore]. rewrite Hps. cbn [ns_store set_providerstore].
  unfold net_look. cbn [ns_store set_providerstore]. rewrite Ha. cbn [ns_store set_providerstore].
  rewrite Hp, Haddr, Hip.
  destruct (base.filter _ addrs) as [| ma l]; [contradiction | reflexivity].
Qed.
End KademliaFacts.

(** ** A reference library *)

(** Addresses are their texts, sessions numbers; the outside is the answer that waits. A peer is
    connected again when it has a session. *)
Definition ref_net_addrs : Addrs := {|
  MultiAddress := bytes; ma_string := fun a => a; multiaddress_new_from_string := Some;
  libp2p_peer_new_from_multiaddress := fun a => a
|}.
Definition ref_sessions : Sessions := {| Session := Z |}.
Section Reference.
#[local] Existing Instance ref_net_addrs.
#[local] Existing Instance ref_sessions.
Context (answer : option Session -> KademliaMessage -> option KademliaMessage).

Fixpoint find_id (heap : gmap positive Libp2pPeer) (id : bytes) (l : list positive) : option positive :=
  match l with
  | [] => None
  | a :: l =>
      match heap !! a with
      | Some p => if decide (lp_id p = id) then Some a else find_id heap id l
      | None => find_id heap id l
      end
  end.
Definition new_address (heap : gmap positive Libp2pPeer) : positive :=
  Pos.succ (foldr Pos.max 1%positive (map fst (map_to_list heap))).
Definition ref_add (ps : Peerstore) (p : Libp2pPeer) : Peerstore :=
  match find_id (ps_heap ps) (lp_id p) (ps_entries ps) with
  | Some _ => ps
  | None =>
      let a := new_address (ps_heap ps) in MkPeerstore (<[a := p]> (ps_heap ps)) (ps_entries ps ++ [a])
  end.
Definition ref_connect (a : positive) (ps : Peerstore) : bool * Peerstore :=
  match ps_heap ps !! a with
  | Some p =>
      match sessionContext p with
      | Some _ => (true, MkPeerstore (<[a := set_connection CONNECTION_TYPE_CONNECTED p]> (ps_heap ps)) (ps_entries ps))
      | None => (false, ps)
      end
  | None => (false, ps)
  end.
Definition ref_libp2p : Libp2p := {|
  Net := option KademliaMessage;
  ProviderStore := gmap bytes bytes;
  libp2p_message_new := MkKademlia (MESSAGE_TYPE_OTHER 0) None [] None;
  libp2p_peer_new := MkLibp2pPeer [] [] CONNECTION_TYPE_NOT_CONNECTED false None;
  libp2p_peer_copy := Some;
  libp2p_routing_dht_send_message := fun ses m _ => (true, answer ses m);
  libp2p_routing_dht_receive_message := fun _ n => (true, n, None);
  libp2p_peerstore_get_peer := fun ps id => find_id (ps_heap ps) id (ps_entries ps);
  libp2p_peerstore_add_peer := ref_add;
  libp2p_peerstore_get_or_add_peer := fun ps a => (a, ps);
  libp2p_peer_is_connected := connected;
  libp2p_peer_connect := fun a _ ps n => (ref_connect a ps, n);
  libp2p_providerstore_get := fun v k => v !! k;
  libp2p_providerstore_add := fun v k id => <[k := id]> v;
  multiaddress_get_ip_port := fun _ => 4001;
  multiaddress_get_peer_id := fun a => match strstr a (str "/ipfs/") with Some i => Some (drop (i + 6) a) | None => None end;
  multiaddress_copy := Some;
  multiaddress_is_ip := fun _ => true
|}.
#[local] Existing Instance ref_libp2p.

Lemma find_id_some heap id l a :
  find_id heap id l = Some a -> a ∈ l /\ exists p, heap !! a = Some p /\ lp_id p = id.
Proof.
  induction l as [| b l IH]; cbn; intros H; [discriminate |].
  destruct (heap !! b) as [p |] eqn:E; [case_decide |];
    [| destruct (IH H); split; [apply list_elem_of_further |]; assumption ..].
  injection H as <-. split; [apply list_elem_of_here | eauto].
Qed.
Lemma find_id_none heap id l a p : find_id heap id l = None -> a ∈ l -> heap !! a = Some p -> lp_id p <> id.
Proof.
  induction l as [| b l IH]; cbn; intros H Ha Hp; [destruct (not_elem_of_nil _ Ha) |].
  apply elem_of_cons in Ha as [-> | Ha].
  - rewrite Hp in H. case_decide; congruence.
  - destruct (heap !! b); [case_decide; [discriminate |] |]; auto.
Qed.
Lemma find_id_app heap id l a p :
  find_id heap id l = None -> heap !! a = Some p -> lp_id p = id -> find_id heap id (l ++ [a]) = Some a.
Proof.
  intros H Hp Hi. induction l as [| b l IH]; cbn in *.
  - rewrite Hp, decide_True by assumption. reflexivity.
  - destruct (heap !! b); [case_decide; [discriminate |] |]; auto.
Qed.
Lemma find_id_new heap id l a p :
  heap !! a = None -> (forall b, b ∈ l -> is_Some (heap !! b)) -> find_id (<[a := p]> heap) id l = find_id heap id l.
Proof.
  intros Ha. induction l as [| b l IH]; intros Hl; [reflexivity |]. cbn.
  assert (a <> b) by (intros ->; destruct (Hl b); [set_solver | congruence]).
  rewrite lookup_insert_ne by assumption. rewrite IH by (intros; apply Hl; set_solver). reflexivity.
Qed.
Lemma new_address_free heap : heap !! new_address heap = None.
Proof.
  destruct (heap !! new_address heap) as [p |] eqn:E; [| reflexivity]. exfalso.
  assert (H : forall l a, a ∈ l -> (a <= foldr Pos.max 1 l)%positive).
  { induction l as [| b l IH]; intros a Ha; [set_solver |]. cbn.
    apply elem_of_cons in Ha as [-> | Ha]; [lia | specialize (IH a Ha); lia]. }
  specialize (H (map fst (map_to_list heap)) (new_address heap)).
  assert (Hin : new_address heap ∈ map fst (map_to_list heap)).
  { apply list_elem_of_fmap. exists (new_address heap, p). split; [reflexivity | apply elem_of_map_to_list, E]. }
  specialize (H Hin). unfold new_address at 1 in H. lia.
Qed.

Lemma ref_add_ok ps p :
  store_ok ps -> store_ok (ref_add ps p) /\ store_grows ps (ref_add ps p) /\
  is_Some (find_id (ps_heap (ref_add ps p)) (lp_id p) (ps_entries (ref_add ps p))).
Proof.
  intros Hok. unfold ref_add. destruct (find_id _ _ _) eqn:E.
  - split_and!; [assumption | apply store_grows_refl | rewrite E; eauto].
  - pose proof (new_address_free (ps_heap ps)) as Hn. set (a := new_address (ps_heap ps)) in *.
    destruct Hok as [Hnd Hh]. split_and!.
    + split; cbn.
      * apply NoDup_app. split_and!; [assumption | | apply NoDup_singleton].
        intros b Hb ->%list_elem_of_singleton. destruct (Hh a Hb). congruence.
      * intros b [Hb | ->%list_elem_of_singleton]%elem_of_app; [| rewrite lookup_insert_eq; eauto].
        destruct (Hh b Hb) as [q Hq]. rewrite lookup_insert_ne by congruence. eauto.
    + split; cbn; [eauto |]. intros b q Hq. exists q. rewrite lookup_insert_ne by congruence. auto.
    + cbn. exists a. apply find_id_app with p; [| apply lookup_insert_eq | reflexivity].
      rewrite find_id_new; assumption.
Qed.
Lemma ref_connect_ok a ps : store_ok ps -> store_ok (ref_connect a ps).2 /\ store_grows ps (ref_connect a ps).2.
Proof.
  intros Hok. unfold ref_connect. destruct (ps_heap ps !! a) as [p |] eqn:E; [| split; [assumption | apply store_grows_refl]].
  destruct (sessionContext p); [| split; [assumption | apply store_grows_refl]]. cbn. destruct Hok as [Hnd Hh]. split.
  - split; cbn; [assumption |]. intros b Hb. destruct (decide (a = b)) as [-> |].
    + rewrite lookup_insert_eq. eauto.
    + rewrite lookup_insert_ne by assumption. auto.
  - split; cbn; [exists []; rewrite app_nil_r; reflexivity |]. intros b q Hq. destruct (decide (a = b)) as [-> |].
    + rewrite lookup_insert_eq. eexists. split; [reflexivity |]. rewrite E in Hq. injection Hq as <-. auto.
    + rewrite lookup_insert_ne by assumption. eauto.
Qed.
#[export] Instance ref_libp2p_laws : Libp2pLaws ref_libp2p.
Proof.
  split; cbn -[ref_connect].
  - eauto.
  - intros p c [= <-]. auto.
  - intros ps id a _ H. apply find_id_some, H.
  - intros ps id a p _ H. apply find_id_none, H.
  - intros ps p H. apply (ref_add_ok ps p H).
  - intros ps p H. apply (ref_add_ok ps p H).
  - intros ps p H. apply (ref_add_ok ps p H).
  - reflexivity.
  - reflexivity.
  - intros a t ps n H. apply ref_connect_ok, H.
  - intros a t ps n ps' n' p. unfold ref_connect. intros [= H1 <-] H2. revert H1 H2.
    destruct (ps_heap ps !! a) as [q |]; [| discriminate].
    destruct (sessionContext q) as [z |] eqn:E; [| discriminate].
    intros [= <-]. cbn. rewrite lookup_insert_eq. intros [= <-]. cbn. rewrite E. split; [reflexivity | eauto].
Qed.
Lemma ref_stable ses m n : exchange ses m n = answer ses m.
Proof. reflexivity. Qed.
End Reference.

(** A node with the peers QmMe (itself), QmA (connected), QmB (with a session that broke) and
    QmC (connected). QmA tells of QmNew as a provider, QmB and QmC have the value. *)
Section Sample.
#[local] Existing Instance ref_net_addrs.
#[local] Existing Instance ref_sessions.

Definition sample_peer (id : bytes) (c : ConnectionType) (here : bool) (ses : option Z) : Libp2pPeer :=
  MkLibp2pPeer id [Some (str "/ip4/10.0.0.1/tcp/4001")] c here ses.
Definition sample_me : Libp2pPeer := sample_peer (str "QmMe") CONNECTION_TYPE_NOT_CONNECTED true None.
Definition sample_announced : Libp2pPeer :=
  MkLibp2pPeer (str "QmMe") [Some (str "/ip4/127.0.0.1/tcp/4001/ipfs/QmMe/")] CONNECTION_TYPE_CONNECTED true None.
Definition sample_new : Libp2pPeer := sample_peer (str "QmNew") CONNECTION_TYPE_NOT_CONNECTED false None.
Definition sample_answer (ses : option Session) (m : KademliaMessage) : option KademliaMessage :=
  match (ses : option Z), message_type m with
  | Some 1, MESSAGE_TYPE_GET_PROVIDERS => Some (set_providers [Some sample_new] m)
  | Some 2, MESSAGE_TYPE_GET_VALUE => Some (MkKademlia MESSAGE_TYPE_GET_VALUE (km_key m) [] (Some (str "old")))
  | Some 3, MESSAGE_TYPE_GET_VALUE => Some (MkKademlia MESSAGE_TYPE_GET_VALUE (km_key m) [] (Some (str "new")))
  | Some 3, MESSAGE_TYPE_PING => Some m
  | _, _ => None
  end.
Definition sample_libp2p : Libp2p := ref_libp2p sample_answer.
#[local] Existing Instance sample_libp2p.

Definition sample_store : Peerstore := MkPeerstore
  (list_to_map [(1%positive, sample_me);
    (2%positive, sample_peer (str "QmA") CONNECTION_TYPE_CONNECTED false (Some 1));
    (3%positive, sample_peer (str "QmB") CONNECTION_TYPE_NOT_CONNECTED false (Some 2));
    (4%positive, sample_peer (str "QmC") CONNECTION_TYPE_CONNECTED false (Some 3))]) [1; 2; 3; 4]%positive.
Definition sample_net_state : NetState (DS := ref_datastore) :=
  MkNetState (MkWorld (MkFS ∅ (fun _ => true) 1000) (∅ : gmap bytes DatastoreRecord)) sample_store ∅ None MODE_ONLINE [].
Lemma sample_store_ok : store_ok sample_store.
Proof.
  split; [by_decide |]. intros a Ha. change (a ∈ [1; 2; 3; 4]%positive) in Ha.
  repeat (apply elem_of_cons in Ha as [-> | Ha]; [vm_compute; eauto |]). destruct (not_elem_of_nil _ Ha).
Qed.
End Sample.

(** * Properties *)

Section Properties.
Context {PB : Protobuf} {MH : Multihash} {SH : Sha256} {B32 : Base32} {B58 : Base58}.
Context {OS : OsUtils} {DS : Datastore} {AD : Addrs} {SS : Sessions} {LP : Libp2p} `{!Libp2pLaws LP}.

(** Providing a key sends one message, with this node as a provider of the key under its own
    address, to every peer of the store that is connected and not this node, in the order of the
    store; peers, files and stores stay as they are, and the call succeeds whatever is answered. *)
Theorem online_provide_announces local swarm_head key lp s :
  store_ok (ns_store s) -> ipfs_routing_online_build_local_peer local swarm_head = Ok lp ->
  exists n, ipfs_routing_online_provide local swarm_head key s =
    (Ok (), set_sent (ns_sent s ++ tell_all (provide_message key lp) (peers_of (ns_store s))) (set_net n s)).
Proof.
  intros Hok Hlp. unfold ipfs_routing_online_provide. rewrite Hlp.
  rewrite (netio_bind_ok (net_lift (Ok lp)) _ s lp s eq_refl).
  rewrite (netio_bind_ok (net_look _) _ s (ps_entries (ns_store s)) s eq_refl).
  apply tell_peers_spec. intros a. apply (so_heap _ Hok).
Qed.

(** For a key without a known provider the connected peers are asked, in the order of the store
    and up to the first that tells of providers; the peers it tells of are returned as peers of the
    store, each under its id, the unknown ones added behind. When nobody tells of any, every
    connected peer was asked, the call fails and the stores are as before. *)
Theorem online_find_providers_asks answer key s l :
  (forall ses m n, exchange ses m n = answer ses m) -> store_ok (ns_store s) ->
  libp2p_providerstore_get (ns_providers s) key = None ->
  first_told answer (providers_message key) (peers_of (ns_store s)) = map Some l ->
  exists n, let s' := set_sent (ns_sent s ++ questions (providers_message key)
                        (asked answer (providers_message key) (peers_of (ns_store s)))) (set_net n s) in
    (l = [] -> ipfs_routing_online_find_providers key s = (Err (), s')) /\
    (l <> [] -> exists peers ps, ipfs_routing_online_find_providers key s = (Ok (map Some peers), set_store ps s') /\
      store_ok ps /\ store_grows (ns_store s) ps /\ Forall2 (is_for_peer ps) peers l).
Proof.
  intros Hst Hok Hnone Hfirst.
  destruct (ask_for_providers_spec answer Hst (providers_message key) (ps_entries (ns_store s)) s) as [n Hn].
  { intros a. apply (so_heap _ Hok). }
  exists n. cbn zeta in *. fold (peers_of (ns_store s)) in Hn. rewrite Hfirst in Hn.
  assert (Heq : ipfs_routing_online_find_providers key s =
    ask_for_providers (providers_message key) (ps_entries (ns_store s)) s).
  { unfold ipfs_routing_online_find_providers. rewrite (netio_bind_ok (net_look _) _ s None s); [reflexivity |].
    unfold net_look. rewrite Hnone. reflexivity. }
  rewrite Heq, Hn. split; [intros ->; reflexivity |]. intros Hl.
  destruct l as [| p l]; [contradiction |]. cbn [map].
  match goal with |- context [store_providers _ ?s1] =>
    destruct (store_providers_spec (p :: l) s1 Hok) as (peers & ps & Hs & H1 & H2 & H3) end.
  exists peers, ps. split_and!; assumption.
Qed.

(** C37: with providers found, getting a value gives the first value, in the providers' order, that is
    stored here (for this node) or answered by a connected provider, asking no peer behind that one.
    Otherwise what is returned was answered by a peer; and the call is a success even when it gives
    no value. Peers keep their ids and none is lost. *)
Theorem online_get_value_first path http key answer here F peers s s1 :
  (forall ses m n, exchange ses m n = answer ses m) ->
  F key s = (Ok (map Some peers), s1) -> store_ok (ns_store s1) ->
  (forall a, a ∈ peers -> a ∈ ps_entries (ns_store s1)) -> reads_here path http key here s1 ->
  let l := omap (fun a => ps_heap (ns_store s1) !! a) peers in
  exists r s', ipfs_routing_online_get_value path http F key s = (Ok r, s') /\
    store_ok (ns_store s') /\ store_grows (ns_store s1) (ns_store s') /\
    match first_value key answer here l with
    | Some v => r = Some v /\ ns_sent s' = ns_sent s1 ++ value_questions key answer here l
    | None => given key answer r s'
    end.
Proof.
  intros Hst HF Hok Hin Hr l.
  unfold ipfs_routing_online_get_value.
  assert (Ht : net_try (F key) s = (Ok (Some (map Some peers)), s1)) by (unfold net_try; rewrite HF; reflexivity).
  rewrite (netio_bind_ok _ _ s _ _ Ht).
  destruct (ask_reachable_spec path http key answer Hst here peers s1 Hin Hok Hr) as [n Hn].
  cbn zeta in Hn. fold l in Hn. rewrite (netio_bind_ok _ _ s1 _ _ Hn).
  destruct (first_value key answer here l) as [v |].
  - exists (Some v). eexists. split_and!; [reflexivity | assumption | apply store_grows_refl | reflexivity | reflexivity].
  - match goal with |- context [ask_others key _ ?s2] =>
      destruct (ask_others_spec key answer Hst peers s2 Hin Hok) as (r & s' & H1 & H2 & H3 & H4) end.
    exists r, s'. split_and!; assumption.
Qed.

(** Bootstrapping succeeds, connecting or not; behind it every bootstrap address that names a peer
    has its peer in the store, and the peers that were known still are, under their ids. *)
Lemma online_bootstrap_knows bootstrap_peers s :
  store_ok (ns_store s) ->
  exists ps n, ipfs_routing_online_bootstrap bootstrap_peers s = (Ok (), set_net n (set_store ps s)) /\
    store_ok ps /\ store_grows (ns_store s) ps /\
    forall address id, address ∈ bootstrap_peers -> multiaddress_get_peer_id address = Some id -> knows ps (c_str id).
Proof. intros Hok. apply bootstrap_spec, Hok. Qed.
End Properties.

(** ** Concrete runs *)

#[local] Existing Instance ref_net_addrs.
#[local] Existing Instance ref_sessions.
#[local] Existing Instance sample_libp2p.

Lemma online_provide_announces_witness :
  exists lp s', ipfs_routing_online_provide sample_me [str "/ip4/0.0.0.0/tcp/4001"] (str "key") sample_net_state = (Ok (), s') /\
    ns_sent s' = [(Some 1, provide_message (str "key") lp); (Some 3, provide_message (str "key") lp)].
Proof.
  destruct (online_provide_announces sample_me [str "/ip4/0.0.0.0/tcp/4001"] (str "key")
    sample_announced sample_net_state sample_store_ok) as [n Hn].
  - vm_compute. reflexivity.
  - eexists _, _. split; [exact Hn |]. vm_compute. reflexivity.
Defined.
Lemma online_find_providers_asks_witness :
  exists n, let s' := set_sent [(Some 1, providers_message (str "key"))] (set_net n sample_net_state) in
    exists peers ps, ipfs_routing_online_find_providers (str "key") sample_net_state = (Ok (map Some peers), set_store ps s') /\
      store_ok ps /\ store_grows sample_store ps /\ Forall2 (is_for_peer ps) peers [sample_new].
Proof.
  destruct (online_find_providers_asks sample_answer (str "key") sample_net_state [sample_new]
    (ref_stable sample_answer) sample_store_ok) as (n & _ & H).
  - vm_compute. reflexivity.
  - vm_compute. reflexivity.
  - exists n. apply H. discriminate.
Defined.
(** QmC answers first, as QmB has no connection. *)
Lemma online_get_value_first_witness :
  exists s', ipfs_routing_online_get_value (str "/repo") (fun _ _ _ => None)
      (fun _ s => (Ok (map Some [1; 3; 4]%positive), s)) (str "key") sample_net_state = (Ok (Some (str "new")), s') /\
    ns_sent s' = [(Some 3, value_message (str "key"))].
Proof.
  destruct (online_get_value_first (str "/repo") (fun _ _ _ => None) (str "key") sample_answer None
    (fun _ s => (Ok (map Some [1; 3; 4]%positive), s)) [1; 3; 4]%positive sample_net_state sample_net_state
    (ref_stable sample_answer) eq_refl sample_store_ok) as (r & s' & H & _ & _ & Hr).
  - intros a Ha. change (a ∈ [1; 2; 3; 4]%positive).
    apply (proj1 (list.Forall_forall (fun a => a ∈ [1; 2; 3; 4]%positive) [1; 3; 4]%positive)); [by_decide | exact Ha].
  - unfold reads_here. apply offline_get_value_absent. reflexivity.
  - exists s'. cbn in Hr. destruct Hr as [-> Hs]. split; [exact H |]. rewrite Hs. reflexivity.
Defined.
