(* ===== verification/Fetch.v ===== *)
(** Exporting a file that other nodes have: the exporter (src/importer/exporter.c) over the online
    router (src/routing/online.c). *)

From S2P Require Import Prelude Libc Protobuf Libs Storage ProtobufRef LibsRef.
From S2P Require Import Cid UnixFS MerkleNode Block Blockstore Merkledag Routing Importer Exporter.
From S2P Require Import Config Peers OnlineRouting.

(** ** The router of a node *)

Section Adapter.
Context {PB : Protobuf} {MH : Multihash} {SH : Sha256} {B32 : Base32} {B58 : Base58}.
Context {OS : OsUtils} {DS : Datastore} {AD : Addrs} {SS : Sessions} {LP : Libp2p}.

(** What the exporter reaches behind [struct IpfsNode*] is the whole node, its datastore included. *)
Definition node_datastore : Datastore := {|
  ds_state := NetState;
  datastore_put r s :=
    let '(b, d) := datastore_put r (w_ds (ns_world s)) in (b, set_world (MkWorld (w_fs (ns_world s)) d) s);
  datastore_get k s := datastore_get k (w_ds (ns_world s))
|}.
Definition node (w : World (DS := node_datastore)) : NetState := w_ds w.
Definition on_node {A} (m : netio A) : io (DS := node_datastore) unit A := fun w =>
  let '(r, s) := m (node w) in (r, MkWorld (DS := node_datastore) (w_fs w) s).

(** [local_node->routing] as the exporter and the importer call it. A value that was not found leaves
    the caller's buffer as it was, without a byte. *)
Definition routing_of (r : IpfsRouting) : Routing (DS := node_datastore) := {|
  rt_GetValue hash hash_size :=
    key ← lift (mem_read hash hash_size);
    v ← on_node (GetValue r key);
    mret (default [] v);
  rt_Provide hash hash_size :=
    key ← lift (mem_read hash hash_size);
    on_node (Provide r key)
|}.
End Adapter.

(** ** A provider that answers *)

Section Fetching.
Context {PB : Protobuf} {MH : Multihash} {SH : Sha256} {B32 : Base32} {B58 : Base58}.
Context {OS : OsUtils} {DS : Datastore} {AD : Addrs} {SS : Sessions} {LP : Libp2p}.
Context `{!ProtobufLaws PB} `{!MultihashLaws MH} `{!Sha256Laws SH} `{!Base58Multihash B58} `{!Libp2pLaws LP}.
Context (path : bytes) (http : bytes -> bytes -> bytes -> option bytes).
Context (local : Libp2pPeer) (swarm_head : list bytes) (bootstrap_peers : list MultiAddress).
Context (answer : option Session -> KademliaMessage -> option KademliaMessage).

(** The provider the node knows for a key is another node, connected, that answers with the value. *)
Definition provided (ps : Peerstore) (v : ProviderStore) (key value : bytes) : Prop :=
  exists id a p, libp2p_providerstore_get v key = Some id /\ libp2p_peerstore_get_peer ps id = Some a /\
    ps_heap ps !! a = Some p /\ is_local p = false /\ connected p = true /\
    peer_value key answer (sessionContext p) = Some value.

Context (stable : forall ses m n, exchange ses m n = answer ses m).

Lemma provider_found key value s :
  store_ok (ns_store s) -> provided (ns_store s) (ns_providers s) key value ->
  exists a p, ipfs_routing_online_find_providers key s = (Ok [Some a], s) /\
    libp2p_peerstore_get_or_add_peer (ns_store s) (Some a) = (Some a, ns_store s) /\
    ps_heap (ns_store s) !! a = Some p /\ is_local p = false /\ connected p = true /\
    peer_value key answer (sessionContext p) = Some value.
Proof.
  intros Hok (id & a & p & Hv & Hg & Hp & Hl & Hc & Ha). exists a, p.
  split; [| split; [apply get_or_add_entry, (get_peer_some _ id a Hok Hg) | auto]].
  unfold ipfs_routing_online_find_providers, net_look.
  rewrite (netio_bind_ok _ _ s (Some id) s) by (rewrite Hv; reflexivity).
  unfold peerstore_get_peer, net_look. rewrite (netio_bind_ok _ _ s (Some a) s) by (rewrite Hg; reflexivity).
  reflexivity.
Qed.

(** Getting the value asks that peer, and changes nothing but the outside. *)
Lemma value_fetched key value s :
  store_ok (ns_store s) -> provided (ns_store s) (ns_providers s) key value ->
  exists n ses, ipfs_routing_online_get_value path http ipfs_routing_online_find_providers key s =
    (Ok (Some value), set_sent (ns_sent s ++ [(ses, value_message key)]) (set_net n s)).
Proof.
  intros Hok Hpr. destruct (provider_found key value s Hok Hpr) as (a & p & Hf & Hg & Hp & Hl & Hc & Ha).
  destruct (try_peer_value key answer stable p s) as [n Hn]. exists n, (sessionContext p).
  unfold ipfs_routing_online_get_value.
  rewrite (netio_bind_ok _ _ s (Some [Some a]) s) by (unfold net_try; rewrite Hf; reflexivity).
  set (s' := set_sent _ _) in Hn |- *.
  rewrite (netio_bind_ok (ask_reachable path http key [Some a]) _ s (Some value) s'); [reflexivity |].
  cbn [ask_reachable]. rewrite (netio_bind_ok (peerstore_get_or_add_peer (Some a)) _ s (Some a) s)
    by (unfold peerstore_get_or_add_peer; rewrite Hg; destruct s; reflexivity).
  rewrite (netio_bind_ok (deref (Some a)) _ s a s eq_refl), (netio_bind_ok _ _ s p s (peer_at_ok a p s Hp)).
  rewrite is_connected_spec, Hl, Hc. rewrite (netio_bind_ok _ _ s _ _ Hn), Ha. reflexivity.
Qed.

(** *** The nodes of a file, from the peers that provide them *)

Definition router : Routing (DS := node_datastore) := routing_of (online_routing path http local swarm_head bootstrap_peers).

(** The node's stores, and the files and the datastore it has, stay. *)
Record online_as (ps : Peerstore) (v : ProviderStore) (here : World) (w : World (DS := node_datastore)) : Prop := {
  oa_store : ns_store (node w) = ps;
  oa_providers : ns_providers (node w) = v;
  oa_world : ns_world (node w) = here
}.
Lemma online_gives ps v here :
  store_ok ps ->
  Gives router (online_as ps v here) (fun n => node_savable n /\ provided ps v (node_hash n) (node_wire n)).
Proof.
  intros Hok. split; [| tauto]. intros n w [Hn Hp] [Hs Hv Hw].
  rewrite <- Hs, <- Hv in Hp. rewrite <- Hs in Hok.
  destruct (value_fetched _ _ (node w) Hok Hp) as (net & ses & Hg). pose proof (node_hash_len n Hn) as Hl.
  exists (MkWorld (DS := node_datastore) (w_fs w) (set_sent (ns_sent (node w) ++ [(ses, value_message (node_hash n))])
    (set_net net (node w)))). split; [| split; assumption].
  cbn [rt_GetValue routing_of router]. rewrite (mem_read_len (node_hash n) 32) by lia.
  unfold mbind, io_bind, lift, on_node. cbn [GetValue online_routing]. rewrite Hg. reflexivity.
Qed.

Definition file_provided (f : bytes) (ps : Peerstore) (v : ProviderStore) : Prop :=
  forall n, n ∈ file_nodes f -> provided ps v (node_hash n) (node_wire n).
End Fetching.

(** * Properties *)

Section Properties.
Context {PB : Protobuf} {MH : Multihash} {SH : Sha256} {B32 : Base32} {B58 : Base58}.
Context {OS : OsUtils} {DS : Datastore} {AD : Addrs} {SS : Sessions} {LP : Libp2p}.
Context `{!ProtobufLaws PB} `{!MultihashLaws MH} `{!Sha256Laws SH} `{!Base58Multihash B58} `{!Libp2pLaws LP}.

(** C9: a file of which a node stores nothing comes out of [ipfs_exporter_to_filestream] whole when for
    each of its nodes the provider the node knows is a connected peer that answers with the bytes of
    that node: the base 58 of the root's hash brings the file's bytes, and the files, the datastore and
    the two stores of the node are as before. *)
Theorem file_comes_from_peers path http local swarm_head bootstrap_peers answer f t s w :
  (forall ses m n, exchange ses m n = answer ses m) ->
  len f < 2 ^ 42 -> len f <= st_room s -> @enc_encode_size base58 34 <= 100 ->
  ipfs_cid_hash_to_base58 (Some (node_hash (file_root f))) 32 100 = Ok t ->
  store_ok (ns_store (node w)) -> file_provided answer f (ns_store (node w)) (ns_providers (node w)) ->
  exists w', ipfs_exporter_to_filestream (DS := node_datastore)
      (RT := routing_of (online_routing path http local swarm_head bootstrap_peers)) t s w =
    (Ok (MkStream (st_data s ++ f) (st_room s - len f)), w') /\
    online_as (ns_store (node w)) (ns_providers (node w)) (ns_world (node w)) w'.
Proof.
  intros Hst Hf Hr Hb Ht Hok Hp.
  apply (to_filestream_gives (GV := online_gives path http local swarm_head bootstrap_peers answer Hst _ _ _ Hok) _ _);
    [exact Hf | | split; reflexivity | exact Hr |].
  - intros n Hn. split; [apply (file_nodes_savable f n Hf Hn) | apply Hp, Hn].
  - pose proof (node_hash_len _ (proj1 (file_root_savable f Hf))) as Hl.
    destruct (hash_to_base58_ok (node_hash (file_root f)) 100 Hl Hb) as (t' & Ht' & He).
    assert (t' = t) as -> by congruence.
    assert (Hct : c_str t = t) by exact (c_str_id _ (enc_text (EN := base58) _ _ _ He)).
    unfold strlen. rewrite Hct. exact (decode_base58_Qm _ _ _ Hl He).
Qed.
End Properties.

(** ** A concrete run *)

#[local] Existing Instance ref_net_addrs.
#[local] Existing Instance ref_sessions.

Definition greeting : bytes := str "hello world".
(** A friend has the file. *)
Definition friend_answer (ses : option Session) (m : KademliaMessage) : option KademliaMessage :=
  match (ses : option Z), message_type m with
  | Some 7, MESSAGE_TYPE_GET_VALUE =>
      if bool_decide (km_key m = Some (node_hash (file_root greeting)))
      then Some (MkKademlia MESSAGE_TYPE_GET_VALUE (km_key m) [] (Some (node_wire (file_root greeting)))) else None
  | _, _ => None
  end.
Definition friendly_libp2p : Libp2p := ref_libp2p friend_answer.
#[local] Existing Instance friendly_libp2p.

Definition friends : Peerstore := MkPeerstore
  (list_to_map [(1%positive, sample_me);
    (2%positive, sample_peer (str "QmFriend") CONNECTION_TYPE_CONNECTED false (Some 7))]) [1; 2]%positive.
Definition asking_world : World (DS := node_datastore (DS := ref_datastore)) :=
  MkWorld (DS := node_datastore (DS := ref_datastore)) (MkFS ∅ (fun _ => true) 1000)
    (MkNetState (DS := ref_datastore) (MkWorld (MkFS ∅ (fun _ => true) 1000) (∅ : gmap bytes DatastoreRecord)) friends
      ({[ node_hash (file_root greeting) := str "QmFriend" ]} : gmap bytes bytes) None MODE_ONLINE []).

Lemma file_comes_from_peers_witness :
  exists t w', ipfs_cid_hash_to_base58 (Some (node_hash (file_root greeting))) 32 100 = Ok t /\
    ipfs_exporter_to_filestream (DS := node_datastore (DS := ref_datastore))
      (RT := routing_of (online_routing (str "/repo") (fun _ _ _ => None) sample_me [] [])) t (MkStream [] 1000) asking_world =
    (Ok (MkStream greeting 989), w').
Proof.
  destruct (ipfs_cid_hash_to_base58 (Some (node_hash (file_root greeting))) 32 100) as [t | | |] eqn:Ht;
    [| vm_compute in Ht; discriminate ..].
  destruct (file_comes_from_peers (str "/repo") (fun _ _ _ => None) sample_me [] [] friend_answer greeting t
    (MkStream [] 1000) asking_world (ref_stable friend_answer)) as (w' & Hw & _).
  - vm_compute. reflexivity.
  - vm_compute. discriminate.
  - vm_compute. discriminate.
  - exact Ht.
  - split; [by_decide |]. intros a Ha. change (a ∈ [1; 2]%positive) in Ha.
    repeat (apply elem_of_cons in Ha as [-> | Ha]; [vm_compute; eauto |]). destruct (not_elem_of_nil _ Ha).
  - intros n Hn. change (n ∈ [file_root greeting; file_root greeting]) in Hn.
    assert (n = file_root greeting) as -> by (apply elem_of_cons in Hn as [-> | ->%list_elem_of_singleton]; reflexivity).
    exists (str "QmFriend"), 2%positive, (sample_peer (str "QmFriend") CONNECTION_TYPE_CONNECTED false (Some 7)).
    split_and!; try reflexivity; vm_compute; reflexivity.
  - exists t, w'. split; [reflexivity | exact Hw].
Defined.
