(* ===== verification/Remote.v ===== *)
(** Nodes asked of another peer: by a path (src/importer/resolver.c), and for the command that prints a node
    (src/importer/exporter.c). *)

From S2P Require Import Prelude Libc Protobuf Libs Storage ProtobufRef LibsRef.
From S2P Require Import Cid UnixFS MerkleNode Block Blockstore Merkledag Routing Importer Exporter ImportTree Resolver.
From S2P Require Import Config Peers OnlineRouting Fetch.

(** The streams the dialer opens to a connected peer for a protocol; [kademlia_read] has no result when the
    response is not set. *)
Class DialerStreams {AD : Addrs} {SS : Sessions} (LP : Libp2p) := {
  Stream : Type;
  libp2p_conn_dialer_get_stream : Libp2pPeer -> bytes -> Net -> option Stream * Net;
  kademlia_write : Stream -> KademliaMessage -> Net -> Net;
  kademlia_read : Stream -> Z -> Net -> option bytes * Net;
  (** whether [libp2p_message_free] frees the key with the message; the requests of src/routing/online.c, which
      allocate each key and leave it to the message, rely on it. *)
  libp2p_message_frees_key : bool
}.

Section Remote.
Context {PB : Protobuf} {MH : Multihash} {SH : Sha256} {B32 : Base32} {B58 : Base58}.
Context {OS : OsUtils} {DS : Datastore} {AD : Addrs} {SS : Sessions} {LP : Libp2p} {ST : DialerStreams LP}.

Definition dialer_get_stream (p : Libp2pPeer) (protocol : bytes) : netio (option Stream) := fun s =>
  let '(st, n) := libp2p_conn_dialer_get_stream p protocol (ns_net s) in (Ok st, set_net n s).
Definition stream_send (st : Stream) (m : KademliaMessage) : netio () := fun s =>
  (Ok (), set_net (kademlia_write st m (ns_net s)) s).
Definition stream_receive (st : Stream) (timeout : Z) : netio bytes := fun s =>
  let '(r, n) := kademlia_read st timeout (ns_net s) in
  (match r with Some b => Ok b | None => Undef end, set_net n s).

(** The text up to the next slash, of at most 254 bytes, and what is behind it. *)
Definition next_element (text : bytes) : option (bytes * bytes) :=
  match strchr text slash with
  | None => None
  | Some pos => if (254 <? pos)%nat then None else Some (take pos text, drop (S pos) text)
  end.
(** A key that is memory of its own, or text inside the memory of something else. *)
Inductive KeyPointer := KeyAllocated (key : bytes) | KeyInside (key : bytes).
(** What freeing a message does with its key: freeing a pointer into the middle of an allocation is undefined. *)
Definition free_message_key (key : KeyPointer) : netio () :=
  match key with
  | KeyAllocated _ => mret ()
  | KeyInside _ => if libp2p_message_frees_key then net_undef else mret ()
  end.
Definition get_value_message (key : bytes) : KademliaMessage :=
  set_type MESSAGE_TYPE_GET_VALUE (set_key key libp2p_message_new).
(** A response that is not a node leaves the pointer returned dangling. *)
Definition response_node (response : bytes) : netio HashtableNode :=
  if len response =? 1 then net_fail
  else
    match ipfs_hashtable_node_protobuf_decode response (len response) false with
    | Ok node => mret node
    | Err _ | Undef => net_undef
    | NoFuel => net_lift NoFuel
    end.
(** [local_id]: the id of the local peer. The key ends at the next slash, which there has to be, and where
    the caller's path is cut; the request points to it there, is encoded, and is freed before it is sent. *)
Definition ipfs_resolver_remote_get (local_id path : bytes) : netio HashtableNode :=
  temp ← net_lift (ipfs_resolver_remove_path_prefix path local_id);
  match next_element temp with
  | None => net_fail
  | Some (id, rest) =>
      match next_element rest with
      | None => net_fail
      | Some (key, _) =>
          known ← peerstore_get_peer id;
          match known with
          | None => net_fail
          | Some a =>
              ready ← peer_connect a 10;
              if (ready : bool) then
                peer ← peer_at a;
                stream ← dialer_get_stream peer (str "kademlia");
                match stream with
                | None => net_fail
                | Some kademlia_stream =>
                    free_message_key (KeyInside key) ≫= fun _ =>
                    stream_send kademlia_stream (get_value_message key) ≫= fun _ =>
                    response ← stream_receive kademlia_stream 5;
                    response_node response
                end
              else net_fail
          end
      end
  end.
(** The request to another peer, as the search of a path makes it. *)
Definition remote_get (local_id path : bytes) : io (DS := node_datastore) unit HashtableNode :=
  on_node (ipfs_resolver_remote_get local_id path).

(** [directory]: whether there is a repository; [node_new]: making the online node, whose router is returned. *)
Definition ipfs_exporter_object_get (directory : bool) (node_new : netio IpfsRouting) (argv : list bytes)
  : io (DS := node_datastore) unit bytes :=
  if negb directory then fail ()
  else
    routing ← on_node node_new;
    match argv !! 3%nat with
    | None => lift Undef
    | Some hash => ipfs_exporter_to_console (DS := node_datastore) (RT := routing_of routing) hash
    end.
End Remote.

(** ** A path of another peer *)

Section Paths.
Lemma next_element_app a r : slash ∉ a -> len a <= 254 -> next_element (a ++ slash :: r) = Some (a, r).
Proof.
  intros Ha Hl. unfold next_element. rewrite strchr_app by exact Ha. unfold len in Hl.
  replace (254 <? length a)%nat with false by (symmetry; apply Nat.ltb_ge; lia).
  rewrite take_app_length. rewrite (drop_app_ge _ _ (S (length a))) by lia.
  replace (S (length a) - length a)%nat with 1%nat by lia. reflexivity.
Qed.
Lemma next_element_none a : slash ∉ a -> next_element a = None.
Proof.
  intros Ha. unfold next_element. replace (strchr a slash) with (@None nat); [reflexivity |].
  induction a as [| c a IH]; [reflexivity |]. apply not_elem_of_cons in Ha as [Hc Ha]. cbn.
  rewrite decide_False by congruence. by rewrite <- IH.
Qed.

(** [who] is the text of another peer's id. *)
Record other_peer (local_id who : bytes) : Prop := {
  op_local : len local_id = 46;
  op_text : exists r, who = str "Qm" ++ r /\ len r = 44;
  op_other : local_id <> who;
  op_slash : slash ∉ who
}.
Lemma remote_path local_id who r :
  other_peer local_id who ->
  ipfs_resolver_is_remote (str "/ipfs/" ++ who ++ slash :: r) local_id = true /\
  ipfs_resolver_remove_path_prefix (str "/ipfs/" ++ who ++ slash :: r) local_id = Ok (who ++ slash :: r) /\
  next_element (who ++ slash :: r) = Some (who, r).
Proof.
  intros [Hid Ht Hne Hs]. pose proof Ht as (q & Hw & Hq).
  assert (Hl : len who = 46) by (rewrite Hw, len_app, Hq; reflexivity). split_and!.
  - unfold ipfs_resolver_is_remote.
    change (skip_slashes (str "/ipfs/" ++ who ++ slash :: r)) with (str "ipfs/" ++ who ++ slash :: r).
    rewrite starts_with_app. cbn [orb].
    change (drop 5 (str "ipfs/" ++ who ++ slash :: r)) with (who ++ slash :: r).
    rewrite (not_prefix local_id who (slash :: r)) by (congruence || exact Hne). rewrite Hw, <- !app_assoc, starts_with_app. reflexivity.
  - unfold ipfs_resolver_remove_path_prefix. rewrite length_app. change (length (str "/ipfs/")) with 6%nat. cbn [Nat.add].
    change (str "/ipfs/" ++ who ++ slash :: r) with (slash :: (str "ipfs" ++ (slash :: (who ++ slash :: r)))).
    rewrite remove_slash, remove_ipfs, remove_slash. exact (remove_text local_id who _ _ false Hid Hne Ht).
  - apply next_element_app; [exact Hs | lia].
Qed.
End Paths.

Section Asked.
Context {PB : Protobuf} {MH : Multihash} {SH : Sha256} {B32 : Base32} {B58 : Base58}.
Context {OS : OsUtils} {DS : Datastore} {AD : Addrs} {SS : Sessions} {LP : Libp2p} {ST : DialerStreams LP}.
Context `{!ProtobufLaws PB}.

(** The peer is known and can be connected to; where it is then, what the peers are then, and the outside. *)
Definition peer_reached (who : bytes) (s : NetState) (p : Libp2pPeer) (ps : Peerstore) (n : Net) : Prop :=
  exists a,
    libp2p_peerstore_get_peer (ns_store s) who = Some a /\
    libp2p_peer_connect a 10 (ns_store s) (ns_net s) = (true, ps, n) /\
    ps_heap ps !! a = Some p.

Lemma remote_get_reaches local_id who key rest s :
  other_peer local_id who -> slash ∉ key -> len key <= 254 ->
  let asked := ipfs_resolver_remote_get local_id (str "/ipfs/" ++ who ++ slash :: key ++ slash :: rest) s in
  (libp2p_peerstore_get_peer (ns_store s) who = None -> asked = (Err (), s)) /\
  (forall a ps n, libp2p_peerstore_get_peer (ns_store s) who = Some a ->
     libp2p_peer_connect a 10 (ns_store s) (ns_net s) = (false, ps, n) ->
     asked = (Err (), set_net n (set_store ps s))) /\
  (forall p ps n, peer_reached who s p ps n ->
     let '(stream, n') := libp2p_conn_dialer_get_stream p (str "kademlia") n in
     asked = match stream with
             | None => (Err (), set_net n' (set_store ps s))
             | Some st => (free_message_key (KeyInside key) ≫= fun _ =>
                           stream_send st (get_value_message key) ≫= fun _ =>
                           response ← stream_receive st 5; response_node response) (set_net n' (set_store ps s))
             end).
Proof.
  intros Ho Hk Hl asked. destruct (remote_path local_id who (key ++ slash :: rest) Ho) as (_ & Hrm & Hne).
  subst asked. unfold ipfs_resolver_remote_get, net_lift. rewrite (netio_bind_ok _ _ s _ s) by (rewrite Hrm; reflexivity).
  rewrite Hne, next_element_app by assumption. unfold peerstore_get_peer, net_look.
  rewrite (netio_bind_ok _ _ s (libp2p_peerstore_get_peer (ns_store s) who) s) by reflexivity.
  split_and!; [intros ->; reflexivity | intros a ps n -> Hc | intros p ps n (a & -> & Hc & Hp)].
  - rewrite (netio_bind_ok _ _ s false (set_net n (set_store ps s))) by (unfold peer_connect; rewrite Hc; reflexivity).
    reflexivity.
  - rewrite (netio_bind_ok _ _ s true (set_net n (set_store ps s))) by (unfold peer_connect; rewrite Hc; reflexivity).
    rewrite (netio_bind_ok _ _ _ p _ (peer_at_ok a p (set_net n (set_store ps s)) Hp)).
    destruct (libp2p_conn_dialer_get_stream p (str "kademlia") n) as [stream n'] eqn:Hst.
    rewrite (netio_bind_ok _ _ _ stream (set_net n' (set_store ps s)))
      by (unfold dialer_get_stream; cbn [ns_net set_net]; rewrite Hst; reflexivity).
    destruct stream; reflexivity.
Qed.
Lemma netio_bind_inv {A B} (m : netio A) (f : A -> netio B) s b s' :
  (m ≫= f) s = (Ok b, s') -> exists a s1, m s = (Ok a, s1) /\ f a s1 = (Ok b, s').
Proof.
  unfold mbind, netio_bind. destruct (m s) as [[a | | |] s1]; intros H; [by exists a, s1 | discriminate ..].
Qed.
(** Where the library frees the key, no request to another peer comes back with a node. *)
Lemma remote_get_finds_nothing local_id path s found s' :
  libp2p_message_frees_key = true -> ipfs_resolver_remote_get local_id path s <> (Ok found, s').
Proof.
  intros Hf H. unfold ipfs_resolver_remote_get in H. apply netio_bind_inv in H as (temp & s1 & _ & H).
  destruct (next_element temp) as [[id rest] |]; [| discriminate].
  destruct (next_element rest) as [[key r] |]; [| discriminate].
  apply netio_bind_inv in H as ([a |] & s2 & _ & H); [| discriminate].
  apply netio_bind_inv in H as ([] & s3 & _ & H); [| discriminate].
  apply netio_bind_inv in H as (p & s4 & _ & H). apply netio_bind_inv in H as ([st |] & s5 & _ & H); [| discriminate].
  apply netio_bind_inv in H as ([] & s6 & H & _). unfold free_message_key in H. rewrite Hf in H. discriminate.
Qed.
Lemma response_node_cases response s :
  (forall found, response = node_wire found -> node_wf found -> nd_links found <> [] \/ 0 < nd_data_size found ->
     1 < len response -> response_node response s = (Ok (node_saved found), s)) /\
  (len response = 1 -> response_node response s = (Err (), s)) /\
  (1 < len response -> (forall found, ipfs_hashtable_node_protobuf_decode response (len response) false <> Ok found) ->
     response_node response s = (Undef, s)).
Proof.
  unfold response_node. split_and!.
  - intros found -> Hwf Hne H1. replace (_ =? 1) with false by lia. rewrite node_decode_wire by assumption. reflexivity.
  - intros ->. reflexivity.
  - intros H1 Hno. replace (_ =? 1) with false by lia. pose proof (node_decode_returns response (len response) false) as Hf.
    destruct (ipfs_hashtable_node_protobuf_decode _ _ _) as [found | | |];
      [destruct (Hno found eq_refl) | reflexivity | reflexivity | destruct Hf].
Qed.
End Asked.

(** * Properties *)

Section Properties.
Context {PB : Protobuf} {MH : Multihash} {SH : Sha256} {B32 : Base32} {B58 : Base58}.
Context {OS : OsUtils} {DS : Datastore} {AD : Addrs} {SS : Sessions} {LP : Libp2p} {ST : DialerStreams LP}.
Context `{!ProtobufLaws PB}.

(** C10: A path that names another peer never leads to a node. [/ipfs/<peer>/<key>/] finds nothing when the
    peer is not known, cannot be connected to or opens no stream, and [/ipfs/<peer>/<key>], without the last
    slash, finds nothing and asks nobody. Once the stream is open the request, whose key points into the path,
    is freed before it is sent: where the library frees the key with the message, as the requests that
    allocate it rely on, that is undefined, and nothing was written. A library that left the key alone would
    let the answer of the peer through: its node, nothing for one byte, and for what does not decode
    a dangling pointer. *)
Theorem remote_path_spec repo local_id fuel (w : World (DS := node_datastore)) :
  let get p := ipfs_resolver_get (DS := node_datastore) repo local_id (remote_get local_id) (S fuel) p None w in
  let at_node ps n := MkWorld (DS := node_datastore) (w_fs w) (set_net n (set_store ps (node w))) in
  (libp2p_message_frees_key = true ->
     forall path found w', ipfs_resolver_is_remote path local_id = true -> get path <> (Ok found, w')) /\
  forall who key rest, other_peer local_id who -> slash ∉ key -> len key <= 254 ->
    let asked := get (str "/ipfs/" ++ who ++ slash :: key ++ slash :: rest) in
    get (str "/ipfs/" ++ who ++ slash :: key) = (Err (), w) /\
    (libp2p_peerstore_get_peer (ns_store (node w)) who = None -> asked = (Err (), w)) /\
    (forall a ps n, libp2p_peerstore_get_peer (ns_store (node w)) who = Some a ->
       libp2p_peer_connect a 10 (ns_store (node w)) (ns_net (node w)) = (false, ps, n) -> asked = (Err (), at_node ps n)) /\
    forall p ps n, peer_reached who (node w) p ps n ->
      (forall n1, libp2p_conn_dialer_get_stream p (str "kademlia") n = (None, n1) -> asked = (Err (), at_node ps n1)) /\
      (forall st n1, libp2p_conn_dialer_get_stream p (str "kademlia") n = (Some st, n1) ->
         (libp2p_message_frees_key = true -> asked = (Undef, at_node ps n1)) /\
         (libp2p_message_frees_key = false -> forall response n2,
            kademlia_read st 5 (kademlia_write st (get_value_message key) n1) = (Some response, n2) ->
            (forall found, response = node_wire found -> node_wf found ->
               nd_links found <> [] \/ 0 < nd_data_size found -> 1 < len response ->
               asked = (Ok (node_saved found), at_node ps n2)) /\
            (len response = 1 -> asked = (Err (), at_node ps n2)) /\
            (1 < len response ->
               (forall found, ipfs_hashtable_node_protobuf_decode response (len response) false <> Ok found) ->
               asked = (Undef, at_node ps n2)))).
Proof.
  intros get at_node.
  assert (Hget : forall p, ipfs_resolver_is_remote p local_id = true ->
    get p = (let '(r, s) := ipfs_resolver_remote_get local_id p (node w) in (r, MkWorld (DS := node_datastore) (w_fs w) s))).
  { intros p Hp. subst get. cbn [ipfs_resolver_get]. rewrite Hp. reflexivity. }
  split.
  - intros Hf path found w' Hp. rewrite Hget by exact Hp.
    destruct (ipfs_resolver_remote_get local_id path (node w)) as [r s] eqn:Hr. intros [= -> _].
    exact (remote_get_finds_nothing _ _ _ _ _ Hf Hr).
  - intros who key rest Ho Hk Hl asked. pose proof (remote_get_reaches local_id who key rest (node w) Ho Hk Hl) as (Hn & Hc & Hs).
    pose proof (Hget _ (proj1 (remote_path local_id who (key ++ slash :: rest) Ho))) as Hasked. fold asked in Hasked.
    split_and!.
    + destruct (remote_path local_id who key Ho) as (Hir & Hrm & Hne). rewrite Hget by exact Hir.
      unfold ipfs_resolver_remote_get, net_lift. rewrite (netio_bind_ok _ _ (node w) _ (node w)) by (rewrite Hrm; reflexivity).
      rewrite Hne, next_element_none by exact Hk. destruct w; reflexivity.
    + intros Hk0. rewrite Hasked, (Hn Hk0). destruct w; reflexivity.
    + intros a ps n Ha Hcon. rewrite Hasked, (Hc _ _ _ Ha Hcon). reflexivity.
    + intros p ps n Hr. specialize (Hs p ps n Hr). split; [intros n1 Hst | intros st n1 Hst]; rewrite Hst in Hs;
        [by rewrite Hasked, Hs |]. unfold free_message_key in Hs.
      split; intros Hf; rewrite Hf in Hs; [by rewrite Hasked, Hs |]. intros response n2 Hresp.
      assert (Hs' : asked = (let '(r, s) := response_node response (set_net n2 (set_store ps (node w))) in
                             (r, MkWorld (DS := node_datastore) (w_fs w) s))).
      { rewrite Hasked, Hs. unfold stream_send, stream_receive, mbind, netio_bind. cbn [mret netio_ret ns_net set_net].
        rewrite Hresp. reflexivity. }
      pose proof (response_node_cases response (set_net n2 (set_store ps (node w)))) as (H1 & H2 & H3).
      split_and!; [intros found Hw Hwf Hne Hb | intros Hb | intros Hb Hno]; rewrite Hs';
        [rewrite (H1 found Hw Hwf Hne Hb) | rewrite (H2 Hb) | rewrite (H3 Hb Hno)]; reflexivity.
Qed.
End Properties.

(** ** A concrete run *)

#[local] Existing Instance ref_net_addrs.
#[local] Existing Instance ref_sessions.
#[local] Existing Instance friendly_libp2p.

Definition my_id : bytes := str "QmaaaaaaaaaaaaaaaaaaaaaaaaaaaaaaaaaaaaaaaaaaaA".
Definition their_id : bytes := str "QmaaaaaaaaaaaaaaaaaaaaaaaaaaaaaaaaaaaaaaaaaaaB".
(** The friend answers every question with the node of a file. *)
#[local] Instance friendly_streams : DialerStreams friendly_libp2p := {|
  Stream := unit;
  libp2p_conn_dialer_get_stream := fun _ _ n => (Some tt, n);
  kademlia_write := fun _ _ n => n;
  kademlia_read := fun _ _ n => (Some (node_wire (file_root greeting)), n);
  libp2p_message_frees_key := true
|}.
Definition their_peerstore : Peerstore := MkPeerstore
  (list_to_map [(1%positive, sample_me);
    (2%positive, sample_peer their_id CONNECTION_TYPE_CONNECTED false (Some 7))]) [1; 2]%positive.
Definition asking_by_path : World (DS := node_datastore (DS := ref_datastore)) :=
  MkWorld (DS := node_datastore (DS := ref_datastore)) (MkFS ∅ (fun _ => true) 1000)
    (MkNetState (DS := ref_datastore) (MkWorld (MkFS ∅ (fun _ => true) 1000) (∅ : gmap bytes DatastoreRecord)) their_peerstore
      (∅ : gmap bytes bytes) None MODE_ONLINE []).

Lemma remote_path_spec_witness :
  exists w', ipfs_resolver_get (DS := node_datastore (DS := ref_datastore)) (str "/repo") my_id (remote_get my_id) 1
    (str "/ipfs/" ++ their_id ++ slash :: str "key" ++ slash :: str "more") None asking_by_path = (Undef, w').
Proof.
  eexists.
  apply (remote_path_spec (str "/repo") my_id 0 asking_by_path) with (key := str "key") (rest := str "more")
    (p := sample_peer their_id CONNECTION_TYPE_CONNECTED false (Some 7)) (st := tt)
    (ps := (libp2p_peer_connect 2%positive 10 their_peerstore (ns_net (node asking_by_path))).1.2)
    (n := ns_net (node asking_by_path)) (n1 := ns_net (node asking_by_path)).
  - split; [reflexivity | by exists (str "aaaaaaaaaaaaaaaaaaaaaaaaaaaaaaaaaaaaaaaaaaaB") | discriminate | by_decide].
  - by_decide.
  - vm_compute. discriminate.
  - exists 2%positive. split_and!; vm_compute; reflexivity.
  - reflexivity.
  - reflexivity.
Defined.
