(* ===== verification/Sync.v ===== *)
(** The journal's sending end (src/journal/journal.c) and what a node does about a peer from
    time to time (src/core/null.c): the last records of the journal, sent to the peers the
    configuration names for replication. *)

From S2P Require Import Prelude Vector Libc Protobuf Libs Storage ProtobufRef LibsRef Journal Mdb Lmdb Config Peers OnlineRouting.

(** What the code sees of a session besides Kademlia messages; [stream_write] has no result when
    there is no default stream. *)
Class SessionStreams {AD : Addrs} {SS : Sessions} (LP : Libp2p) := {
  secure_stream : Session -> bool;
  stream_write : Session -> bytes -> Net -> option (Z * Net);
  libp2p_peer_last_comm : Libp2pPeer -> Z
}.

Section Sending.
Context {PB : Protobuf} {VE : Libp2pVector} {DS : Datastore}.
Context {AD : Addrs} {SS : Sessions} {LP : Libp2p} {ST : SessionStreams LP}.

(** ** Sending *)

Definition journal_header : bytes := str "/ipfs/journalio/1.0.0" ++ [byte_of 10].
(** Writing to the peer's default stream. *)
Definition write_stream (p : Libp2pPeer) (data : bytes) : netio Z := fun s =>
  match sessionContext p with
  | None => (Undef, s)
  | Some ses =>
      match stream_write ses data (ns_net s) with
      | None => (Undef, s)
      | Some (written, n) => (Ok written, set_net n s)
      end
  end.
(** Not being able to connect shows in the peer only. *)
Definition ipfs_journal_send_message (peer : positive) (message : JournalMessage) : netio bool :=
  p ← peer_at peer;
  (if connected p then mret true else peer_connect peer 10) ≫= fun _ =>
  p ← peer_at peer;
  if connected p then
    msg_size ← net_lift (ipfs_journal_message_encode_size message);
    match ipfs_journal_message_encode message (u64 msg_size) with
    | Ok msg =>
        sent ← write_stream p journal_header;
        if sent =? 0 then mret false
        else sent ← write_stream p msg; mret (negb (sent =? 0))
    | Err _ => mret false
    | Undef => net_undef
    | NoFuel => net_lift NoFuel
    end
  else mret false.

End Sending.

(** Records in memory, by address. *)
Abbreviation record_heap := (gmap positive JournalRecord).

Section Sync.
Context {PB : Protobuf} {DB : Mdb} {VE : Libp2pVector}.
Context {AD : Addrs} {SS : Sessions} {LP : Libp2p} {ST : SessionStreams LP}.
(** As in [Lmdb]: arrays of functions that have returned, and [os_utils_gmtime]. *)
Context (stale : bytes -> bytes) (now : Z).
#[local] Instance program_datastore : Datastore := lmdb_datastore (fun _ => stale) now.
(** For the search in the journal. *)
Context (fuel : nat).

(** ** The last records *)

(** The [do] loop: [rounds] is [n - 1 - i]. The record the cursor hands out for one that is
    there already is that one, so the address is added again. *)
Fixpoint last_records (rounds : nat) (cursor : option lmdb_trans_cursor) (rec : positive)
  (v : vector positive) (h : record_heap)
  : cres unit (vector positive * record_heap * option lmdb_trans_cursor) :=
  let v := libp2p_utils_vector_add v rec in
  '(ret, r, cursor) ← lmdb_journalstore_cursor_get fuel cursor CURSOR_PREVIOUS (h !! rec);
  let h := match r with Some r => <[rec := r]> h | None => h end in
  if ret =? 0 then Ok (v, h, cursor)
  else match rounds with
       | O => Ok (v, h, cursor)
       | S rounds => last_records rounds cursor rec v h
       end.
(** The records, or NULL, and the database. *)
Definition ipfs_journal_get_last (database : mdb_env) (n : Z)
  : cres unit (option (vector positive * record_heap) * mdb_env) :=
  '(opened, cursor) ← lmdb_journalstore_cursor_open (Some database) None None;
  if opened =? 0 then Ok (None, database)
  else
    '(ret, rec, cursor) ← lmdb_journalstore_cursor_get fuel cursor CURSOR_LAST None;
    if ret =? 0 then Ok (None, (lmdb_journalstore_cursor_close database cursor true).2)
    else match rec with
         | None => Undef
         | Some r =>
             '(v, h, cursor) ← last_records (Z.to_nat (n - 1)) cursor 1%positive
                                 (libp2p_utils_vector_new positive 1) {[1%positive := r]};
             Ok (Some (v, h), (lmdb_journalstore_cursor_close database cursor true).2)
         end.

(** What an address holds is freed; freeing it again is undefined. *)
Definition journal_free_record (rec : positive) (h : record_heap) : cres unit record_heap :=
  match h !! rec with Some _ => Ok (delete rec h) | None => Undef end.
Definition ipfs_journal_free_records (records : vector positive) (h : record_heap) : cres unit record_heap :=
  vector_loop journal_free_record records h.

(** ** The message of the last records *)

(** The records a vector of addresses designates. *)
Definition read_record (h : record_heap) (rec : positive) (l : vector JournalRecord)
  : cres unit (vector JournalRecord) :=
  match h !! rec with Some r => Ok (libp2p_utils_vector_add l r) | None => Undef end.
Definition records_at (records : vector positive) (h : record_heap) : cres unit (vector JournalRecord) :=
  vector_loop (read_record h) records (libp2p_utils_vector_new JournalRecord 1).

Definition journal_last_of (n : Z) : netio (option (vector positive * record_heap)) := fun s =>
  match ipfs_journal_get_last (w_ds (ns_world s)) n with
  | Ok (r, e) => (Ok r, set_world (MkWorld (w_fs (ns_world s)) e) s)
  | Err x => (Err x, s)
  | Undef => (Undef, s)
  | NoFuel => (NoFuel, s)
  end.
(** The verdict and the partner, whose times change. *)
Definition ipfs_journal_sync (replication_peer : ReplicationPeer) : netio (bool * ReplicationPeer) :=
  id ← deref (rp_peer replication_peer);
  found ← peerstore_get_peer id;
  match found with
  | None => mret (false, replication_peer)
  | Some peer =>
      p ← peer_at peer;
      if is_local p then mret (false, replication_peer)
      else if negb (match sessionContext p with Some ses => secure_stream ses | None => false end) then
        mret (false, replication_peer)
      else
        journal_records ← journal_last_of 10;
        let nothing := mret (true, MkReplicationPeer (rp_peer replication_peer) now
                                     (rp_lastJournalTime replication_peer)) in
        match journal_records with
        | None => nothing
        | Some (records, h) =>
            if vector_total records =? 0 then nothing
            else
              recs ← net_lift (records_at records h);
              message ← net_lift (journal_sync_message recs now);
              retVal ← ipfs_journal_send_message peer message;
              net_lift (ipfs_journal_free_records records h) ≫= fun _ =>
              mret (retVal,
                    if (retVal : bool)
                    then MkReplicationPeer (rp_peer replication_peer) (jm_current_epoch message)
                           (jm_end_epoch message)
                    else replication_peer)
        end
  end.

(** ** Maintenance *)

Context (libp2p_peer_matches_id : bytes -> bytes -> bool).

(** The partner the search finds is the one of the configuration, and changes there. *)
Fixpoint store_replication_peer (key : bytes) (rp : ReplicationPeer) (l : list ReplicationPeer)
  : list ReplicationPeer :=
  match l with
  | [] => []
  | c :: l =>
      if match rp_peer c with Some p => libp2p_peer_matches_id p key | None => false end then rp :: l
      else c :: store_replication_peer key rp l
  end.
Definition with_replication_peer (key : bytes) (rp : ReplicationPeer) (r : Replication) : Replication :=
  MkReplication (rep_announce r) (rep_announce_minutes r)
    (store_replication_peer key rp <$> rep_peers r).

Definition minutes_in_seconds (m : Z) : cres unit Z :=
  if (- 2 ^ 31 <=? m * 60) && (m * 60 <? 2 ^ 31) then Ok (m * 60) else Undef.
(** Of a partner, whether it is time to announce. *)
Definition announce_due (replication : Replication) (rp : option ReplicationPeer) : cres unit bool :=
  secs ← minutes_in_seconds (rep_announce_minutes replication);
  match rp with
  | None => Ok false
  | Some rp =>
      let announce_secs := i64_diff secs (u64 (now - rp_lastConnect rp)) in
      match rep_announce replication with
      | None => Undef
      | Some announce => Ok (negb (announce =? 0) && (announce_secs <? 0))
      end
  end.
Definition ipfs_null_do_maintenance (routing : IpfsRouting) (replication : Replication)
  (peer : option positive) : netio (bool * Replication) :=
  match peer with
  | None => mret (false, replication)
  | Some a =>
      p ← peer_at a;
      if is_local p then mret (true, replication)
      else
        rp ← net_lift (repo_config_get_replication_peer libp2p_peer_matches_id (Some replication) (lp_id p));
        due ← net_lift (announce_due replication rp);
        match due, rp with
        | true, Some replication_peer =>
            ready ← (if connected p then mret true else peer_connect a 2);
            if (ready : bool) then
              '(_, replication_peer) ← ipfs_journal_sync replication_peer;
              mret (true, with_replication_peer (lp_id p) replication_peer replication)
            else mret (false, replication)
        | _, _ =>
            (if 180 <? u64 (now - libp2p_peer_last_comm p) then
               if connected p then
                 pong ← net_try (Ping routing a);
                 match pong with
                 | Some _ => mret ()
                 | None => alter_peer (set_connection CONNECTION_TYPE_NOT_CONNECTED) a
                 end
               else mret ()
             else mret ()) ≫= fun _ => mret (true, replication)
        end
  end.
End Sync.

(** * Facts *)

(** ** The pairs of a table in order *)

(** Where a cursor is among the pairs of its table, as lmdb documents its operations. *)
Class MdbOrder (DB : Mdb) `{!MdbLaws DB} := {
  txn_pairs : mdb_txn -> mdb_table -> list (bytes * bytes);
  at_pair : mdb_txn -> mdb_cursor -> nat -> Prop;
  pairs_values t T k v : v ∈ txn_values t T k <-> (k, v) ∈ txn_pairs t T;
  cursor_last t c l p :
    txn_pairs t (cursor_table c) = l ++ [p] ->
    exists c', mdb_cursor_get t c MDB_LAST = (Some p, c') /\ at_pair t c' (length l);
  cursor_prev t c i p :
    at_pair t c (S i) -> txn_pairs t (cursor_table c) !! i = Some p ->
    exists c', mdb_cursor_get t c MDB_PREV = (Some p, c') /\ at_pair t c' i;
  cursor_prev_first t c : at_pair t c O -> exists c', mdb_cursor_get t c MDB_PREV = (None, c');
  cursor_next t c i p :
    at_pair t c i -> txn_pairs t (cursor_table c) !! S i = Some p ->
    exists c', mdb_cursor_get t c MDB_NEXT = (Some p, c') /\ at_pair t c' (S i)
}.

#[export] Instance ref_mdb_order : MdbOrder ref_mdb.
Proof.
  refine {| txn_pairs := ref_table : @mdb_txn ref_mdb -> mdb_table -> list (bytes * bytes);
            at_pair t c i := c.2 = i |}.
  - intros t T k v. apply ref_values_elem.
  - intros t [T j] l p H. exists (T, length l). cbn in *. rewrite H, length_app. cbn.
    replace (pred (length l + 1)) with (length l) by lia. rewrite list_lookup_middle by reflexivity. auto.
  - intros t [T j] i p Hj H. cbn in Hj, H |- *. subst j. exists (T, i). rewrite H. auto.
  - intros t [T j] Hj. cbn in Hj |- *. subst j. exists (T, O). reflexivity.
  - intros t [T j] i p Hj H. cbn in Hj, H |- *. subst j. exists (T, S i). rewrite H. auto.
Defined.

Section Last.
Context {PB : Protobuf} `{!ProtobufLaws PB} {DB : Mdb} `{!MdbLaws DB} `{!MdbOrder DB}.
Context {VE : Libp2pVector} `{!Libp2pVectorLaws VE}.

(** A record of the journal as the pair it is kept in. *)
Definition journal_pair (ts : Z) (p q : byte) (hash : bytes) : bytes * bytes := (wire_uint ts, p :: q :: hash).
Definition journal_record (ts : Z) (p q : byte) (hash : bytes) : JournalRecord :=
  MkJournalRecord ts (byte_val p) (byte_val q) (Some hash) (len hash).

Lemma build_journal_record ts p q hash :
  time_ok ts ->
  lmdb_journalstore_build_record (journal_pair ts p q hash).1 (journal_pair ts p q hash).2 =
    Ok (journal_record ts p q hash).
Proof. intros H. cbn [journal_pair fst snd lmdb_journalstore_build_record]. rewrite time_decode_key by exact H. reflexivity. Qed.

Lemma find_differs (x y : bytes) :
  length x = length y ->
  (match find (fun p => negb (byte_val p.1 =? byte_val p.2)) (zip x y) with
   | Some p => byte_val p.2 - byte_val p.1
   | None => 0
   end =? 0) = bool_decide (x = y).
Proof.
  revert y. induction x as [| a x IH]; intros [| b y] H; try discriminate H; [reflexivity |].
  cbn [zip zip_with find fst snd]. destruct (byte_val a =? byte_val b) eqn:E; cbn [negb].
  - apply Z.eqb_eq, byte_val_inj in E as ->. injection H as H. rewrite (IH y H).
    apply bool_decide_ext. split; congruence.
  - apply Z.eqb_neq in E. rewrite bool_decide_false by congruence. apply Z.eqb_neq. cbn [fst snd]. lia.
Qed.
Lemma compare_journal_records ts p q h ts' p' q' h' :
  exists d, lmdb_journalstore_composite_key_compare (Some (journal_record ts p q h))
      (Some (journal_record ts' p' q' h')) = Ok d /\
    (d =? 0) = bool_decide (ts = ts' /\ h = h').
Proof.
  unfold lmdb_journalstore_composite_key_compare. cbn [journal_record jr_timestamp jr_hash jr_hash_size].
  destruct (ts =? ts') eqn:Et; cbn [negb].
  - apply Z.eqb_eq in Et as ->. destruct (len h =? len h') eqn:El; cbn [negb].
    + rewrite !mem_read_all. cbn [mbind cres_bind]. eexists. split; [reflexivity |].
      rewrite find_differs by (unfold len in El; lia). apply bool_decide_ext. tauto.
    + eexists. split; [reflexivity |]. rewrite bool_decide_false by (intros [_ ?]; subst; lia).
      destruct (_ <? _); reflexivity.
  - eexists. split; [reflexivity |]. rewrite bool_decide_false by (intros [? _]; lia). destruct (_ <? _); reflexivity.
Qed.

(** ** Back from the last record *)

Context (t : mdb_txn) (l : list (bytes * bytes)) (ts : Z) (p q : byte) (hash : bytes).
Context (ts_ok : time_ok ts) (hash_some : hash <> []).
Context (pairs : txn_pairs t JOURNALSTORE = l ++ [journal_pair ts p q hash]).

Definition last_record : JournalRecord := journal_record ts p q hash.
Definition cursor_in (c : mdb_cursor) : option lmdb_trans_cursor := Some (MkTransCursor (Some t) (Some c)).
(** The record before has another time, or there is none. *)
Definition alone_in_time : Prop :=
  l = [] \/ exists l' ts' p' q' hash', l = l' ++ [journal_pair ts' p' q' hash'] /\ time_ok ts' /\ ts' <> ts.
(** The record before has the same time. *)
Definition shares_time : Prop :=
  exists l' p' q' hash', l = l' ++ [journal_pair ts p' q' hash'] /\ hash' <> hash.

(** On the last pair of the journal. *)
Definition at_last (c : mdb_cursor) : Prop := cursor_table c = JOURNALSTORE /\ at_pair t c (length l).

Lemma get_last_pair fuel c :
  cursor_table c = JOURNALSTORE ->
  exists c', lmdb_journalstore_cursor_get fuel (cursor_in c) CURSOR_LAST None =
    Ok (1, Some last_record, cursor_in c') /\ at_last c'.
Proof.
  intros Hc. assert (Hp : txn_pairs t (cursor_table c) = l ++ [journal_pair ts p q hash]) by (rewrite Hc; exact pairs).
  destruct (cursor_last t c l _ Hp) as (c' & Hg & Ha).
  exists c'. split; [| split; [rewrite (cursor_get_table _ _ _ _ _ Hg); exact Hc | exact Ha]].
  unfold lmdb_journalstore_cursor_get, cursor_in. cbn [tc_transaction tc_cursor cursor_op]. rewrite Hg.
  rewrite build_journal_record by exact ts_ok. reflexivity.
Qed.
Lemma hash_size_pos : (0 <? jr_hash_size last_record) = true.
Proof. cbn. destruct hash; [contradiction | len_lia]. Qed.

Lemma get_before_alone fuel c :
  alone_in_time -> at_last c ->
  exists c', lmdb_journalstore_cursor_get (S fuel) (cursor_in c) CURSOR_PREVIOUS (Some last_record) =
    Ok (0, Some last_record, cursor_in c').
Proof.
  intros Hal [Hc Ha]. unfold lmdb_journalstore_cursor_get, cursor_in. cbn [tc_transaction tc_cursor cursor_op].
  destruct Hal as [Hl | (l' & ts' & p' & q' & hash' & Hl & Ht & Hne)]; rewrite Hl in Ha.
  - destruct (cursor_prev_first t c Ha) as [c' ->]. exists c'. reflexivity.
  - rewrite length_app, Nat.add_1_r in Ha.
    destruct (cursor_prev t c (length l') (journal_pair ts' p' q' hash') Ha) as (c' & Hg & _).
    { rewrite Hc, pairs, Hl, <- app_assoc. apply list_lookup_middle. reflexivity. }
    exists c'. rewrite Hg, hash_size_pos. cbn [cursor_search].
    rewrite build_journal_record by exact Ht. cbn [mbind cres_bind].
    destruct (compare_journal_records ts p q hash ts' p' q' hash') as (d & Hd & Hz).
    fold last_record in Hd. rewrite Hd. cbn [mbind cres_bind]. rewrite Hz, bool_decide_false by (intros [? _]; congruence).
    cbn [jr_timestamp journal_record last_record]. replace (ts =? ts') with false by lia. reflexivity.
Qed.
Lemma get_before_shared fuel c :
  shares_time -> at_last c ->
  exists c', lmdb_journalstore_cursor_get (S (S fuel)) (cursor_in c) CURSOR_PREVIOUS (Some last_record) =
    Ok (1, Some last_record, cursor_in c') /\ at_last c'.
Proof.
  intros (l' & p' & q' & hash' & Hl & Hne) [Hc Ha].
  assert (Hat := Ha). rewrite Hl, length_app, Nat.add_1_r in Hat.
  destruct (cursor_prev t c (length l') (journal_pair ts p' q' hash') Hat) as (c1 & Hg & Ha1).
  { rewrite Hc, pairs, Hl, <- app_assoc. apply list_lookup_middle. reflexivity. }
  assert (Hc1 : cursor_table c1 = JOURNALSTORE) by (rewrite (cursor_get_table _ _ _ _ _ Hg); exact Hc).
  destruct (cursor_next t c1 (length l') (journal_pair ts p q hash) Ha1) as (c2 & Hn & Ha2).
  { rewrite Hc1, pairs. apply list_lookup_middle. rewrite Hl, length_app. cbn. lia. }
  exists c2. split.
  2:{ split; [rewrite (cursor_get_table _ _ _ _ _ Hn); exact Hc1 |].
      rewrite Hl, length_app, Nat.add_1_r. exact Ha2. }
  unfold lmdb_journalstore_cursor_get, cursor_in. cbn [tc_transaction tc_cursor cursor_op].
  rewrite Hg, hash_size_pos. cbn [cursor_search]. rewrite build_journal_record by exact ts_ok. cbn [mbind cres_bind].
  destruct (compare_journal_records ts p q hash ts p' q' hash') as (d & Hd & Hz).
  fold last_record in Hd. rewrite Hd. cbn [mbind cres_bind]. rewrite Hz, bool_decide_false by (intros [_ ?]; congruence).
  cbn [jr_timestamp journal_record last_record]. rewrite Z.eqb_refl. cbn [negb]. rewrite Hn.
  change (default ?d (Some ?x)) with x. rewrite build_journal_record by exact ts_ok. cbn [mbind cres_bind].
  destruct (compare_journal_records ts p q hash ts p q hash) as (d' & Hd' & Hz').
  fold last_record in Hd' |- *. rewrite Hd'. cbn [mbind cres_bind]. rewrite Hz', bool_decide_true by auto. reflexivity.
Qed.

(** *** The records *)

Context (fuel : nat).
Definition one_record : record_heap := {[1%positive := last_record]}.

Lemma last_records_alone c v rounds :
  alone_in_time -> at_last c ->
  exists c', last_records (S (S fuel)) rounds (cursor_in c) 1 v one_record =
    Ok (libp2p_utils_vector_add v 1%positive, one_record, cursor_in c').
Proof.
  intros Hal Hc. destruct (get_before_alone (S fuel) c Hal Hc) as [c' Hg]. exists c'.
  unfold one_record. destruct rounds; cbn [last_records]; rewrite lookup_singleton_eq, Hg; cbn [mbind cres_bind]; rewrite insert_singleton_eq; reflexivity.
Qed.
Lemma last_records_shared c v rounds :
  shares_time -> at_last c ->
  exists v' c', last_records (S (S fuel)) rounds (cursor_in c) 1 v one_record = Ok (v', one_record, cursor_in c') /\
    items v' = items v ++ replicate (S rounds) 1%positive.
Proof.
  intros Hsh. revert c v. induction rounds as [| rounds IH]; intros c v Hc;
    destruct (get_before_shared fuel c Hsh Hc) as (c' & Hg & Hc'); unfold one_record in *;
    cbn [last_records]; rewrite lookup_singleton_eq, Hg; cbn [mbind cres_bind Z.eqb]; rewrite insert_singleton_eq.
  - eexists _, c'. split; [reflexivity |]. apply items_add.
  - destruct (IH c' (libp2p_utils_vector_add v 1%positive) Hc') as (v' & c2 & -> & Hv).
    exists v', c2. split; [reflexivity |]. rewrite Hv, items_add, <- app_assoc. reflexivity.
Qed.

(** From an environment: the last record once, or all the records asked for, each the last. *)
Context (e : mdb_env) (begins : mdb_txn_begin e = (0, t)) (ready : txn_ready t).
Definition committed : mdb_env := (mdb_txn_commit t).2.

Lemma get_last_records n :
  exists c, at_last c /\
    ipfs_journal_get_last (S (S fuel)) e n =
      ('(v, h, cursor) ← last_records (S (S fuel)) (Z.to_nat (n - 1)) (cursor_in c) 1
                           (libp2p_utils_vector_new positive 1) one_record;
       Ok (Some (v, h), (lmdb_journalstore_cursor_close e cursor true).2)).
Proof.
  destruct (cursor_open_ok t JOURNALSTORE ready) as (c & Ho & Hc).
  destruct (get_last_pair (S (S fuel)) c Hc) as (c' & Hg & Hl). exists c'. split; [exact Hl |].
  unfold ipfs_journal_get_last, lmdb_journalstore_cursor_open. cbn [default lmdb_trans_cursor_new tc_transaction tc_cursor].
  rewrite begins. cbn [negb Z.eqb]. rewrite Ho. cbn [mbind cres_bind Z.eqb]. fold (cursor_in c). rewrite Hg. reflexivity.
Qed.
Lemma get_last_alone n :
  alone_in_time ->
  exists v, ipfs_journal_get_last (S (S fuel)) e n = Ok (Some (v, one_record), committed) /\ items v = [1%positive].
Proof.
  intros Hal. destruct (get_last_records n) as (c & Hc & ->).
  destruct (last_records_alone c (libp2p_utils_vector_new positive 1) (Z.to_nat (n - 1)) Hal Hc) as [c' ->].
  eexists. split; [reflexivity |]. rewrite items_add, items_new. reflexivity.
Qed.
Lemma get_last_shared n :
  shares_time -> 1 <= n ->
  exists v, ipfs_journal_get_last (S (S fuel)) e n = Ok (Some (v, one_record), committed) /\
    items v = replicate (Z.to_nat n) 1%positive.
Proof.
  intros Hsh Hn. destruct (get_last_records n) as (c & Hc & ->).
  destruct (last_records_shared c (libp2p_utils_vector_new positive 1) (Z.to_nat (n - 1)) Hsh Hc) as (v & c' & -> & Hv).
  exists v. split; [reflexivity |]. rewrite Hv, items_new. replace (Z.to_nat n) with (S (Z.to_nat (n - 1))) by lia. reflexivity.
Qed.

(** *** Reading and freeing them *)

Lemma read_last v k :
  items v = replicate k 1%positive ->
  exists recs, records_at v one_record = Ok recs /\ items recs = replicate k last_record.
Proof.
  intros Hv. unfold records_at. rewrite vector_loop_items, Hv.
  assert (forall k r, exists recs, list_loop (read_record one_record) (replicate k 1%positive) r = Ok recs /\
    items recs = items r ++ replicate k last_record) as Hl.
  { clear. induction k as [| k IH]; intros r; cbn [replicate list_loop].
    - exists r. rewrite app_nil_r. auto.
    - assert (read_record one_record 1 r = Ok (libp2p_utils_vector_add r last_record)) as ->
        by (unfold read_record, one_record; rewrite lookup_singleton_eq; reflexivity). cbn [mbind cres_bind].
      destruct (IH (libp2p_utils_vector_add r last_record)) as (recs & -> & Hr).
      exists recs. split; [reflexivity |]. rewrite Hr, items_add, <- app_assoc. reflexivity. }
  destruct (Hl k (libp2p_utils_vector_new JournalRecord 1)) as (recs & Hr & Hi). exists recs.
  split; [exact Hr |]. rewrite Hi, items_new. reflexivity.
Qed.
Lemma free_last v k :
  items v = replicate k 1%positive ->
  ipfs_journal_free_records v one_record =
    match k with O => Ok one_record | 1%nat => Ok ∅ | _ => Undef end.
Proof.
  intros Hv. unfold ipfs_journal_free_records. rewrite vector_loop_items, Hv.
  destruct k as [| [| k]]; cbn [replicate list_loop]; [reflexivity | |];
    unfold journal_free_record, one_record; rewrite lookup_singleton_eq, delete_singleton_eq;
    cbn [mbind cres_bind]; [reflexivity |]. rewrite lookup_empty. reflexivity.
Qed.

(** *** The message of them *)

Definition last_entry : JournalEntry := MkJournalEntry ts 1 (Some hash) (len hash).
(** A message of entries of that one record. *)
Definition entries_of_last (k : nat) (m : JournalMessage) : Prop :=
  jm_start_epoch m = ts /\ jm_end_epoch m = ts /\ journal_entries m = replicate k last_entry.
Context (ts_pos : 0 < ts).

Lemma sync_last_record m :
  jm_end_epoch m <= ts -> jm_start_epoch m = 0 \/ jm_start_epoch m = ts ->
  exists m', journal_sync_record (E := unit) last_record m = Ok m' /\
    jm_start_epoch m' = ts /\ jm_end_epoch m' = ts /\ journal_entries m' = journal_entries m ++ [last_entry].
Proof.
  intros He Hs. unfold journal_sync_record, last_record. cbn [journal_record jr_timestamp jr_hash jr_hash_size].
  rewrite mem_read_all. eexists. split; [reflexivity |].
  unfold journal_entries. cbn [jm_start_epoch jm_end_epoch jm_journal_entries]. rewrite items_add.
  destruct (jm_end_epoch m <? ts) eqn:?, ((jm_start_epoch m =? 0) || (ts <? jm_start_epoch m)) eqn:?;
    split_and!; reflexivity || lia.
Qed.
Lemma sync_message_of_last recs k now :
  items recs = replicate (S k) last_record ->
  exists m, journal_sync_message (E := unit) recs now = Ok m /\ jm_current_epoch m = now /\ entries_of_last (S k) m.
Proof.
  intros Hr. unfold journal_sync_message. rewrite vector_loop_items, Hr.
  assert (forall k m n, entries_of_last n m -> exists m', list_loop (journal_sync_record (E := unit))
    (replicate k last_record) m = Ok m' /\ entries_of_last (n + k) m') as Hl.
  { clear k Hr. induction k as [| k IH]; intros m n Hm; [exists m; rewrite Nat.add_0_r; auto |].
    destruct Hm as (Hs & He & Hi). destruct (sync_last_record m) as (m1 & H1 & Hs1 & He1 & Hi1); [lia | auto |].
    cbn [replicate list_loop]. rewrite H1. cbn [mbind cres_bind].
    destruct (IH m1 (S n)) as (m' & -> & Hm'); [| exists m'; rewrite <- Nat.add_succ_comm; auto].
    split_and!; try assumption. rewrite Hi1, Hi, replicate_S_end. reflexivity. }
  destruct (sync_last_record ipfs_journal_message_new) as (m1 & H1 & Hs1 & He1 & Hi1); [cbn; lia | auto |].
  cbn [replicate list_loop]. rewrite H1. cbn [mbind cres_bind].
  destruct (Hl k m1 1%nat) as (m & -> & Hs & He & Hi).
  { split_and!; try assumption. rewrite Hi1. unfold journal_entries. cbn. rewrite items_new. reflexivity. }
  eexists. split; [reflexivity |]. split; [reflexivity |]. split_and!; assumption.
Qed.

(** At most ten records are sent. *)
Lemma message_of_last_wf k m :
  len hash < 2 ^ 27 -> (k <= 10)%nat -> 0 <= jm_current_epoch m < 2 ^ 64 -> entries_of_last k m -> journal_message_wf m.
Proof.
  intros Hh Hk Hc (Hs & He & Hi). unfold time_ok in ts_ok.
  assert (Hwf : journal_entry_wf last_entry) by (constructor; cbn; auto; lia).
  constructor; rewrite ?Hs, ?He, ?Hi; try lia.
  - apply Forall_replicate. exact Hwf.
  - unfold journal_message_room. rewrite Hi.
    assert (forall k, sum_over journal_entry_room (replicate k last_entry) = Z.of_nat k * (len hash + 23)) as ->.
    { clear. induction k as [| k IH]; [reflexivity |]. cbn [replicate]. rewrite sum_over_cons, IH.
      unfold journal_entry_room at 1. cbn. lia. }
    pose proof (len_nonneg hash). nia.
Qed.
Definition wire_of_last (now : Z) (k : nat) : bytes :=
  wire_msg ([varint_field 1 now; varint_field 2 ts; varint_field 3 ts] ++ replicate k (journal_entry_field last_entry)).
Lemma message_of_last_wire k m : entries_of_last k m -> journal_message_wire m = wire_of_last (jm_current_epoch m) k.
Proof.
  intros (Hs & He & Hi). unfold journal_message_wire, journal_message_fields, wire_of_last. rewrite Hs, He, Hi.
  change (map journal_entry_field) with (fmap (M := list) journal_entry_field). rewrite fmap_replicate. reflexivity.
Qed.
Lemma value_of_last k m :
  entries_of_last k m -> journal_message_value m = (jm_current_epoch m, ts, ts, replicate k (ts, 1, hash)).
Proof.
  intros (Hs & He & Hi). unfold journal_message_value. rewrite Hs, He, Hi.
  change (map journal_entry_value) with (fmap (M := list) journal_entry_value). rewrite fmap_replicate. reflexivity.
Qed.
End Last.

(** ** Sending the journal *)

Section Streams.
Context {PB : Protobuf} `{!ProtobufLaws PB} {VE : Libp2pVector} `{!Libp2pVectorLaws VE} {DS : Datastore}.
Context {AD : Addrs} {SS : Sessions} {LP : Libp2p} {ST : SessionStreams LP}.

(** A peer that is no partner is pinged after a while. *)
Definition ping_or_mark (routing : IpfsRouting) (a : positive) : netio unit :=
  pong ← net_try (Ping routing a);
  match pong with
  | Some _ => mret ()
  | None => alter_peer (set_connection CONNECTION_TYPE_NOT_CONNECTED) a
  end.
(** A partner that can be written to. *)
Record can_sync (s : NetState) (rp : ReplicationPeer) (a : positive) (p : Libp2pPeer) (ses : Session) : Prop := {
  cs_found id : rp_peer rp = Some id -> libp2p_peerstore_get_peer (ns_store s) id = Some a;
  cs_named : is_Some (rp_peer rp);
  cs_heap : ps_heap (ns_store s) !! a = Some p;
  cs_remote : is_local p = false;
  cs_session : sessionContext p = Some ses;
  cs_secure : secure_stream ses = true;
  cs_connected : connected p = true
}.
(** Handing two segments to the stream. *)
Definition hands_over (ses : Session) (msg : bytes) (n : Net) (ok : bool) (n' : Net) : Prop :=
  exists k n1 k', stream_write ses journal_header n = Some (k, n1) /\ k <> 0 /\
    stream_write ses msg n1 = Some (k', n') /\ ok = negb (k' =? 0).

Lemma write_stream_ok p ses data s k n :
  sessionContext p = Some ses -> stream_write ses data (ns_net s) = Some (k, n) ->
  write_stream p data s = (Ok k, set_net n s).
Proof. intros Hs Hw. unfold write_stream. rewrite Hs, Hw. reflexivity. Qed.
Lemma send_message_ok a p ses m s ok n :
  ps_heap (ns_store s) !! a = Some p -> sessionContext p = Some ses -> connected p = true ->
  journal_message_wf m -> hands_over ses (journal_message_wire m) (ns_net s) ok n ->
  ipfs_journal_send_message a m s = (Ok ok, set_net n s).
Proof.
  intros Ha Hs Hc Hm (k & n1 & k' & H1 & Hk & H2 & ->). unfold ipfs_journal_send_message.
  rewrite !(netio_bind_ok _ _ s p s (peer_at_ok a p s Ha)), Hc.
  rewrite (netio_bind_ok (mret true) _ s true s eq_refl), (netio_bind_ok _ _ s p s (peer_at_ok a p s Ha)), Hc.
  pose proof (journal_message_wire_bound m Hm). destruct (Hm) as [_ _ _ _ Hr].
  rewrite (netio_bind_ok _ _ s (journal_message_room m) s)
    by (unfold net_lift; rewrite journal_message_size by exact Hm; reflexivity).
  rewrite u64_small, journal_message_encode_fields by (assumption || lia).
  rewrite (netio_bind_ok _ _ s k (set_net n1 s) (write_stream_ok p ses _ s k n1 Hs H1)).
  replace (k =? 0) with false by lia.
  rewrite (netio_bind_ok _ _ _ k' _ (write_stream_ok p ses _ (set_net n1 s) k' n Hs H2)). reflexivity.
Qed.

End Streams.

Section Send.
Context {PB : Protobuf} `{!ProtobufLaws PB} {DB : Mdb} `{!MdbLaws DB} `{!MdbOrder DB}.
Context {VE : Libp2pVector} `{!Libp2pVectorLaws VE}.
Context {AD : Addrs} {SS : Sessions} {LP : Libp2p} {ST : SessionStreams LP}.
Context (stale : bytes -> bytes) (now : Z).
(** A node whose datastore is the lightning database. *)
Definition lmdb_node : Type := NetState (DS := program_datastore stale now).

Definition set_database (e : mdb_env) (s : lmdb_node) : lmdb_node :=
  set_world (@MkWorld (program_datastore stale now) (w_fs (ns_world s)) e) s.
Definition synced (rp : ReplicationPeer) (ts : Z) : ReplicationPeer := MkReplicationPeer (rp_peer rp) now ts.

(** With [k] more records found, all of them the last, the message names it as often. *)
Lemma sync_found fuel (s : lmdb_node) rp a p ses ts pin pending hash k v e' ok n :
  can_sync s rp a p ses ->
  ipfs_journal_get_last fuel (w_ds (ns_world s)) 10 = Ok (Some (v, one_record ts pin pending hash), e') ->
  items v = replicate (S k) 1%positive -> (S k <= 10)%nat ->
  time_ok ts -> 0 < ts -> 0 <= now < 2 ^ 64 -> len hash < 2 ^ 27 ->
  hands_over ses (wire_of_last ts hash now (S k)) (ns_net s) ok n ->
  ipfs_journal_sync stale now fuel rp s =
    (match k with O => Ok (ok, if ok then synced rp ts else rp) | _ => Undef end, set_net n (set_database e' s)).
Proof.
  intros [Hf [id Hid] Ha Hl Hs Hsec Hc] Hg Hv Hk Ht Hpos Hnow Hh Hw. unfold ipfs_journal_sync.
  rewrite Hid, (netio_bind_ok _ _ s id s eq_refl).
  rewrite (netio_bind_ok _ _ s (Some a) s) by (unfold peerstore_get_peer, net_look; rewrite (Hf id Hid); reflexivity).
  rewrite (netio_bind_ok _ _ s p s (peer_at_ok a p s Ha)), Hl, Hs, Hsec. cbn [negb].
  rewrite (netio_bind_ok _ _ s _ (set_database e' s)) by (unfold journal_last_of; rewrite Hg; reflexivity).
  cbv beta iota zeta. rewrite vector_total_items, Hv. replace (len (replicate (S k) 1%positive) =? 0) with false
    by (unfold len; rewrite length_replicate; destruct k; reflexivity).
  destruct (read_last ts pin pending hash v (S k) Hv) as (recs & Hr & Hi).
  destruct (sync_message_of_last ts pin pending hash Hpos recs k now Hi) as (m & Hm & Hcur & Hof).
  rewrite (netio_bind_ok _ _ _ recs (set_database e' s)) by (unfold net_lift; rewrite Hr; reflexivity).
  rewrite (netio_bind_ok _ _ _ m (set_database e' s)) by (unfold net_lift; rewrite Hm; reflexivity).
  assert (Hwf : journal_message_wf m) by (apply (message_of_last_wf ts hash Ht (S k)); rewrite ?Hcur; assumption).
  assert (Hwire := message_of_last_wire ts hash (S k) m Hof). rewrite Hcur in Hwire. rewrite <- Hwire in Hw.
  rewrite (netio_bind_ok _ _ _ _ _ (send_message_ok a p ses m (set_database e' s) ok n Ha Hs Hc Hwf Hw)).
  unfold mbind at 1, netio_bind at 1, net_lift. rewrite (free_last ts pin pending hash v (S k) Hv).
  destruct Hof as (_ & He & _). destruct k; [| reflexivity]. rewrite He, Hcur. unfold synced. rewrite Hid.
  destruct ok; reflexivity.
Qed.
Lemma one_entry_decodes ts hash :
  time_ok ts -> 0 < ts -> 0 <= now < 2 ^ 64 -> len hash < 2 ^ 27 ->
  let one := wire_of_last ts hash now 1 in
  exists m, ipfs_journal_message_decode one (len one) = Ok m /\
    journal_message_value m = (now, ts, ts, [(ts, 1, hash)]).
Proof.
  intros Ht Hpos Hnow Hh one.
  set (m := MkJournalMessage now ts ts
    (libp2p_utils_vector_add (libp2p_utils_vector_new JournalEntry 1) (last_entry ts hash))).
  assert (Hof : entries_of_last ts hash 1 m).
  { split_and!; try reflexivity. unfold journal_entries, m. cbn [jm_journal_entries]. rewrite items_add, items_new. reflexivity. }
  assert (Hwf : journal_message_wf m) by (apply (message_of_last_wf ts hash Ht 1); [assumption | lia | exact Hnow | exact Hof]).
  destruct (journal_message_decode_wire m Hwf) as (m' & Hd & Hv).
  rewrite (message_of_last_wire ts hash 1 m Hof) in Hd. exists m'. split; [exact Hd |].
  rewrite Hv, (value_of_last ts hash 1 m Hof). reflexivity.
Qed.

Lemma journal_sync_alone fuel (s : lmdb_node) rp a p ses t l ts pin pending hash ok n :
  can_sync s rp a p ses ->
  mdb_txn_begin (w_ds (ns_world s)) = (0, t) -> txn_ready t ->
  txn_pairs t JOURNALSTORE = l ++ [journal_pair ts pin pending hash] ->
  time_ok ts -> 0 < ts -> 0 <= now < 2 ^ 64 -> 0 < len hash < 2 ^ 27 ->
  alone_in_time l ts -> hands_over ses (wire_of_last ts hash now 1) (ns_net s) ok n ->
  ipfs_journal_sync stale now (S (S fuel)) rp s =
    (Ok (ok, if ok then synced rp ts else rp), set_net n (set_database (mdb_txn_commit t).2 s)).
Proof.
  intros Hcs Hb Hrd Hp Ht Hpos Hnow [Hh0 Hh] Hal Hw.
  assert (Hne : hash <> []) by (intros ->; revert Hh0; len_nils; lia).
  destruct (get_last_alone t l ts pin pending hash Ht Hne Hp fuel _ Hb Hrd 10 Hal) as (v & Hg & Hv).
  exact (sync_found _ s rp a p ses ts pin pending hash 0 v _ ok n Hcs Hg Hv ltac:(lia) Ht Hpos Hnow Hh Hw).
Qed.

(** C38: a node sends its journal to a partner it is connected to by a secure stream as two
    segments, the protocol's name and a message that decodes to one entry, the last record of
    the journal, and notes the time when both were handed over. When the record before the last
    has the same time, what is sent names the last one ten times, and freeing it as often is
    undefined. *)
Theorem journal_sync_spec fuel (s : lmdb_node) rp a p ses t l ts pin pending hash :
  can_sync s rp a p ses ->
  mdb_txn_begin (w_ds (ns_world s)) = (0, t) -> txn_ready t ->
  txn_pairs t JOURNALSTORE = l ++ [journal_pair ts pin pending hash] ->
  time_ok ts -> 0 < ts -> 0 <= now < 2 ^ 64 -> 0 < len hash < 2 ^ 27 ->
  let sync := ipfs_journal_sync stale now (S (S fuel)) rp s in
  let after n := set_net n (set_database (mdb_txn_commit t).2 s) in
  let one := wire_of_last ts hash now 1 in
  (exists m, ipfs_journal_message_decode one (len one) = Ok m /\
     journal_message_value m = (now, ts, ts, [(ts, 1, hash)])) /\
  (alone_in_time l ts -> forall ok n, hands_over ses one (ns_net s) ok n ->
     sync = (Ok (ok, if ok then synced rp ts else rp), after n)) /\
  (shares_time l ts hash -> forall ok n, hands_over ses (wire_of_last ts hash now 10) (ns_net s) ok n ->
     sync = (Undef, after n)).
Proof.
  intros Hcs Hb Hrd Hp Ht Hpos Hnow Hh sync after one.
  split; [apply one_entry_decodes; assumption || apply Hh |]. split.
  - intros Hal ok n Hw. exact (journal_sync_alone fuel s rp a p ses t l ts pin pending hash ok n
      Hcs Hb Hrd Hp Ht Hpos Hnow Hh Hal Hw).
  - intros Hsh ok n Hw. destruct Hh as [Hh0 Hh].
    assert (Hne : hash <> []) by (intros ->; revert Hh0; len_nils; lia).
    destruct (get_last_shared t l ts pin pending hash Ht Hne Hp fuel _ Hb Hrd 10 Hsh ltac:(lia)) as (v & Hg & Hv).
    exact (sync_found _ s rp a p ses ts pin pending hash 9 v _ ok n Hcs Hg Hv ltac:(lia) Ht Hpos Hnow Hh Hw).
Qed.

(** ** Maintenance *)

Context (libp2p_peer_matches_id : bytes -> bytes -> bool).

(** A partner's announcement is due when more than [announce_minutes] have passed. *)
Lemma announce_due_spec r rp announce :
  rep_announce r = Some announce -> 0 <= rep_announce_minutes r < 2 ^ 25 ->
  0 <= rp_lastConnect rp <= now -> now < 2 ^ 62 ->
  announce_due now r (Some rp) =
    Ok (negb (announce =? 0) && (rep_announce_minutes r * 60 <? now - rp_lastConnect rp)).
Proof.
  intros Ha Hm Hl Hn. unfold announce_due, minutes_in_seconds. rewrite Ha.
  replace ((_ <=? _) && _) with true by lia. cbn [mbind cres_bind]. rewrite u64_small by lia.
  rewrite i64_diff_near by lia. do 2 f_equal. lia.
Qed.
(** Searching finds what was stored for the key. *)
Lemma find_stored key rp rp' l :
  find_replication_peer libp2p_peer_matches_id l key = Ok (Some rp) -> rp_peer rp' = rp_peer rp ->
  find_replication_peer libp2p_peer_matches_id (store_replication_peer libp2p_peer_matches_id key rp' l) key = Ok (Some rp').
Proof.
  intros Hf Hp. induction l as [| c l IH]; [discriminate Hf |]. cbn in Hf |- *.
  destruct (rp_peer c) as [id |] eqn:E; [| discriminate Hf].
  destruct (libp2p_peer_matches_id id key) eqn:Em.
  - injection Hf as ->. cbn. rewrite Hp, E, Em. reflexivity.
  - cbn. rewrite E, Em. apply IH, Hf.
Qed.

Lemma maintain_other fuel (routing : IpfsRouting (DS := program_datastore stale now)) r (s : lmdb_node) a p :
  0 <= rep_announce_minutes r < 2 ^ 25 -> now < 2 ^ 62 -> 0 <= libp2p_peer_last_comm p <= now ->
  ps_heap (ns_store s) !! a = Some p -> is_local p = false ->
  repo_config_get_replication_peer libp2p_peer_matches_id (Some r) (lp_id p) = Ok None ->
  ipfs_null_do_maintenance stale now fuel libp2p_peer_matches_id routing r (Some a) s =
    ((if 180 <? now - libp2p_peer_last_comm p then if connected p then ping_or_mark routing a else mret () else mret ())
       ≫= fun _ => mret (true, r)) s.
Proof.
  intros Hm Hn Hc Hp Hl Hf. unfold ipfs_null_do_maintenance.
  rewrite (netio_bind_ok _ _ s p s (peer_at_ok a p s Hp)), Hl.
  rewrite (netio_bind_ok _ _ s None s) by (unfold net_lift; rewrite Hf; reflexivity).
  rewrite (netio_bind_ok _ _ s false s) by (unfold net_lift, announce_due, minutes_in_seconds;
    replace ((_ <=? _) && _) with true by lia; reflexivity).
  rewrite u64_small by lia. reflexivity.
Qed.

(** C39: a partner that is connected and whose announcement is due is sent the journal; when that
    was handed over the announcement is not due again until [announce_minutes] have passed. Another
    peer is left alone for 180 seconds after it was heard of; then one that is connected is
    pinged, and marked as not connected when it does not answer. *)
Theorem maintenance_spec fuel routing r announce (s : lmdb_node) a p :
  rep_announce r = Some announce -> 0 <= rep_announce_minutes r < 2 ^ 25 -> now < 2 ^ 62 ->
  ps_heap (ns_store s) !! a = Some p -> is_local p = false ->
  0 <= libp2p_peer_last_comm p <= now ->
  let maintain := ipfs_null_do_maintenance stale now fuel libp2p_peer_matches_id routing r (Some a) s in
  let partner r := repo_config_get_replication_peer libp2p_peer_matches_id (Some r) (lp_id p) in
  (forall rp rp' ok s', partner r = Ok (Some rp) -> announce <> 0 -> 0 <= rp_lastConnect rp ->
     rep_announce_minutes r * 60 < now - rp_lastConnect rp -> connected p = true ->
     ipfs_journal_sync stale now fuel rp s = (Ok (ok, rp'), s') ->
     exists r', maintain = (Ok (true, r'), s') /\
       (rp_peer rp' = rp_peer rp -> partner r' = Ok (Some rp') /\
         (rp_lastConnect rp' = now -> announce_due now r' (Some rp') = Ok false))) /\
  (partner r = Ok None ->
     (now - libp2p_peer_last_comm p <= 180 \/ connected p = false -> maintain = (Ok (true, r), s)) /\
     (180 < now - libp2p_peer_last_comm p -> connected p = true ->
        (forall s', Ping routing a s = (Ok (), s') -> maintain = (Ok (true, r), s')) /\
        (forall s' e, Ping routing a s = (Err e, s') ->
           exists s2, maintain = (Ok (true, r), s2) /\
             ps_heap (ns_store s2) =
               alter (set_connection CONNECTION_TYPE_NOT_CONNECTED) a (ps_heap (ns_store s'))))).
Proof.
  intros Ha Hm Hn Hp Hl Hc maintain partner. split.
  - intros rp rp' ok s' Hf Hann Hlast Hdue Hcon Hs.
    assert (Hd : announce_due now r (Some rp) = Ok true).
    { rewrite (announce_due_spec r rp announce Ha Hm ltac:(lia) Hn). f_equal. lia. }
    exists (with_replication_peer libp2p_peer_matches_id (lp_id p) rp' r). split.
    + subst maintain. unfold ipfs_null_do_maintenance.
      rewrite (netio_bind_ok _ _ s p s (peer_at_ok a p s Hp)), Hl.
      rewrite (netio_bind_ok _ _ s (Some rp) s) by (unfold net_lift; fold (partner r); rewrite Hf; reflexivity).
      rewrite (netio_bind_ok _ _ s true s) by (unfold net_lift; rewrite Hd; reflexivity).
      rewrite Hcon, (netio_bind_ok (mret true) _ s true s eq_refl).
      rewrite (netio_bind_ok _ _ s _ _ Hs). reflexivity.
    + intros Hid. subst partner. cbn [repo_config_get_replication_peer with_replication_peer rep_peers] in Hf |- *.
      destruct (rep_peers r) as [l |]; [| discriminate Hf]. split; [exact (find_stored (lp_id p) rp rp' l Hf Hid) |].
      intros Hlc. rewrite (announce_due_spec _ rp' announce) by (cbn; assumption || lia).
      cbn [rep_announce_minutes with_replication_peer]. rewrite Hlc. f_equal. lia.
  - intros Hf.
    assert (Hrun := maintain_other fuel routing r s a p Hm Hn Hc Hp Hl Hf). fold maintain in Hrun.
    rewrite Hrun. split.
    + intros [Hq | Hq]; [replace (180 <? _) with false by lia; reflexivity |].
      rewrite Hq. destruct (180 <? _); reflexivity.
    + intros Hq Hcon. replace (180 <? _) with true by lia. rewrite Hcon. split.
      * intros s' Hg. unfold ping_or_mark, mbind, netio_bind, net_try. rewrite Hg. reflexivity.
      * intros s' e Hg. unfold ping_or_mark, mbind, netio_bind, net_try. rewrite Hg. eexists. split; reflexivity.
Qed.
End Send.

(** * Concrete runs *)

Section Sample.
#[local] Existing Instance ref_net_addrs.
#[local] Existing Instance ref_sessions.
#[local] Existing Instance sample_libp2p.

(** Writing to a stream succeeds; nothing was heard of anyone for 200 seconds. *)
#[local] Instance sample_streams : SessionStreams sample_libp2p := {|
  secure_stream := fun _ => true;
  stream_write := fun _ _ n => Some (1, n);
  libp2p_peer_last_comm := fun _ => sample_now - 200
|}.
#[local] Instance sample_node_datastore : Datastore := program_datastore id sample_now.
(** A node with a journal, and its partner QmA, last connected to an hour ago. *)
Definition journal_node (pairs : list (bytes * bytes)) : NetState :=
  @MkNetState _ _ sample_node_datastore sample_libp2p
    (@MkWorld sample_node_datastore (MkFS ∅ (fun _ => true) 1000) (MkTables [] pairs : @mdb_env ref_mdb))
    sample_store ∅ None MODE_ONLINE [].
Definition sample_partner : ReplicationPeer := MkReplicationPeer (Some (str "QmA")) (sample_now - 3600) 0.
Definition sample_replication : Replication := MkReplication (Some 1) 30 (Some [sample_partner]).

Lemma sample_can_sync pairs :
  can_sync (journal_node pairs) sample_partner 2 (sample_peer (str "QmA") CONNECTION_TYPE_CONNECTED false (Some 1)) 1.
Proof. split; try reflexivity; [intros id [= <-]; reflexivity | eauto]. Qed.

Lemma journal_sync_spec_witness :
  let two ts := journal_node [journal_pair ts x01 x01 (str "other"); journal_pair sample_now x01 x01 (str "key")] in
  (exists s', ipfs_journal_sync id sample_now 2 sample_partner (two (sample_now - 5)) =
     (Ok (true, synced sample_now sample_partner sample_now), s')) /\
  (exists s', ipfs_journal_sync id sample_now 2 sample_partner (two sample_now) = (Undef, s')).
Proof.
  intros two. pose proof sample_now_ok as [Hpos Hok].
  assert (Hother : time_ok (sample_now - 5)) by (unfold time_ok, sample_now; lia).
  assert (Hlen : 0 < len (str "key") < 2 ^ 27) by (split; reflexivity).
  assert (Hnow : 0 <= sample_now < 2 ^ 64) by (unfold sample_now; lia).
  assert (Hspec := fun ts => journal_sync_spec id sample_now 0 (two ts) sample_partner 2 _ 1 _ [_] sample_now x01 x01
    (str "key") (sample_can_sync _) eq_refl I eq_refl Hok Hpos Hnow Hlen).
  split.
  - destruct (Hspec (sample_now - 5)) as (_ & Ha & _). eexists. apply (Ha ltac:(right;
      exists [], (sample_now - 5), x01, x01, (str "other"); split; [reflexivity |]; split; [exact Hother | unfold sample_now; lia])
      true None). exists 1, None, 1. split_and!; reflexivity || discriminate.
  - destruct (Hspec sample_now) as (_ & _ & Hs). eexists. apply (Hs ltac:(exists [], x01, x01, (str "other");
      split; [reflexivity | discriminate]) true None). exists 1, None, 1. split_and!; reflexivity || discriminate.
Defined.

(** A router nobody answers. *)
Definition silent_routing : IpfsRouting := {|
  GetValue := fun _ => net_fail; FindProviders := fun _ => net_fail; FindPeer := fun _ => net_fail;
  Provide := fun _ => net_fail; Ping := fun _ => net_fail; Bootstrap := net_fail; listens := false
|}.
Definition same_id (a b : bytes) : bool := bool_decide (a = b).
Definition sample_journal_node : NetState := journal_node [journal_pair sample_now x01 x01 (str "key")].
Lemma sample_sync :
  ipfs_journal_sync id sample_now 2 sample_partner sample_journal_node =
    (Ok (true, synced sample_now sample_partner sample_now),
     set_net None (set_database id sample_now (w_ds (ns_world sample_journal_node)) sample_journal_node)).
Proof.
  pose proof sample_now_ok as [Hpos Hok].
  apply (journal_sync_alone id sample_now 0 sample_journal_node sample_partner 2 _ 1
    (MkTables [] [journal_pair sample_now x01 x01 (str "key")] : @mdb_txn ref_mdb) [] sample_now x01 x01 (str "key")
    true None (sample_can_sync _) eq_refl ltac:(exact I) eq_refl Hok Hpos); [unfold sample_now; lia | split; reflexivity | left; reflexivity |].
  exists 1, None, 1. split_and!; reflexivity || discriminate.
Qed.
Lemma maintenance_spec_witness :
  (exists r' s', ipfs_null_do_maintenance id sample_now 2 same_id silent_routing sample_replication (Some 2%positive)
       sample_journal_node = (Ok (true, r'), s') /\
     announce_due sample_now r' (Some (synced sample_now sample_partner sample_now)) = Ok false) /\
  (exists s', ipfs_null_do_maintenance id sample_now 2 same_id silent_routing sample_replication (Some 4%positive)
       sample_journal_node = (Ok (true, sample_replication), s') /\
     connected <$> ps_heap (ns_store s') !! 4%positive = Some false).
Proof.
  assert (Hspec := fun a p => maintenance_spec id sample_now same_id 2 silent_routing sample_replication 1
    sample_journal_node a p eq_refl ltac:(cbn; lia) eq_refl).
  split.
  - destruct (Hspec 2%positive _ eq_refl eq_refl ltac:(cbn; unfold sample_now; lia)) as [Hdue _].
    edestruct (Hdue sample_partner (synced sample_now sample_partner sample_now) true) as (r' & Hm & Hr);
      [reflexivity | lia | cbn; unfold sample_now; lia | cbn; unfold sample_now; lia | reflexivity
      | exact sample_sync |].
    exists r'. eexists. split; [exact Hm |]. apply Hr; reflexivity.
  - destruct (Hspec 4%positive _ eq_refl eq_refl ltac:(cbn; unfold sample_now; lia)) as [_ Hq].
    destruct (Hq eq_refl) as [_ Hping]. destruct (Hping ltac:(cbn; unfold sample_now; lia) eq_refl) as [_ Hfail].
    destruct (Hfail sample_journal_node tt eq_refl) as (s2 & Hm & Hs2). exists s2. split; [exact Hm |].
    rewrite Hs2. reflexivity.
Defined.
End Sample.
