(* ===== verification/Engine.v ===== *)
(** The threads of the bitswap engine (src/exchange/bitswap/engine.c): the one that looks after
    the peers, round by round, and how both are started and stopped. *)

From S2P Require Import Prelude Vector Libc Protobuf Libs Storage ProtobufRef LibsRef Cid Block.
From S2P Require Import Blockstore BitswapMessage PeerQueue BitswapNetwork Wantlist Exchange.
From S2P Require Import Config Peers OnlineRouting Sync.

(** What the thread sees of streams besides writing; reading says whether it succeeded, within the
    given seconds, and what it stored. *)
Class PeerStreams {AD : Addrs} {SS : Sessions} (LP : Libp2p) := {
  default_stream : Session -> bool;
  stream_try_lock : Session -> Net -> bool * Net;
  stream_unlock : Session -> Net -> Net;
  stream_peek : Session -> Net -> Z * Net;
  stream_read : Session -> Z -> Net -> bool * option bytes * Net;
  libp2p_peer_compare : option Libp2pPeer -> option Libp2pPeer -> Z;
  libp2p_peer_handle_connection_error : positive -> Peerstore -> Net -> Peerstore * Net
}.

(** ** The state *)

Section Engine.
Context {PB : Protobuf} {VE : Libp2pVector} {MH : Multihash} {B32 : Base32} {OS : OsUtils} {DS : Datastore}.
Context {AD : Addrs} {SS : Sessions} {LP : Libp2p} {ST : SessionStreams LP} {PS : PeerStreams LP}.

(** [struct BitswapContext]: the node, what peers ask for, what is wanted, the engine's flag. *)
Record BitswapContext := MkBitswapContext {
  bc_ipfsNode : NetState;
  bc_peerRequestQueue : PeerRequestQueue (Peer := positive);
  bc_localWantlist : WantListQueue (Peer := positive);
  bc_shutting_down : bool
}.
Definition with_node (s : NetState) (c : BitswapContext) : BitswapContext :=
  MkBitswapContext s (bc_peerRequestQueue c) (bc_localWantlist c) (bc_shutting_down c).
Definition with_queue (q : PeerRequestQueue) (c : BitswapContext) : BitswapContext :=
  MkBitswapContext (bc_ipfsNode c) q (bc_localWantlist c) (bc_shutting_down c).
Definition with_wants (w : WantListQueue) (c : BitswapContext) : BitswapContext :=
  MkBitswapContext (bc_ipfsNode c) (bc_peerRequestQueue c) w (bc_shutting_down c).

Definition eng (A : Type) : Type := BitswapContext -> cres unit A * BitswapContext.
#[global] Instance eng_ret : MRet eng := fun A a c => (Ok a, c).
#[global] Instance eng_bind : MBind eng := fun A B f m c =>
  match m c with
  | (Ok a, c) => f a c
  | (Err e, c) => (Err e, c)
  | (Undef, c) => (Undef, c)
  | (NoFuel, c) => (NoFuel, c)
  end.
Definition eng_lift {A} (r : cres unit A) : eng A := fun c => (r, c).
Definition eng_look {A} (f : BitswapContext -> A) : eng A := fun c => (Ok (f c), c).
Definition at_node {A} (m : netio A) : eng A := fun c =>
  let '(r, s) := m (bc_ipfsNode c) in (r, with_node s c).
(** An operation on the outside. *)
Definition at_net {A} (f : Net -> A * Net) : eng A := fun c =>
  let '(a, n) := f (ns_net (bc_ipfsNode c)) in (Ok a, with_node (set_net n (bc_ipfsNode c)) c).
Lemma eng_bind_ok {A B} (m : eng A) (f : A -> eng B) c a c' : m c = (Ok a, c') -> (m ≫= f) c = f a c'.
Proof. intros H. unfold mbind, eng_bind. rewrite H. reflexivity. Qed.

Definition connection_error (a : positive) : eng unit := fun c =>
  let s := bc_ipfsNode c in
  let '(ps, n) := libp2p_peer_handle_connection_error a (ns_store s) (ns_net s) in
  (Ok (), with_node (set_net n (set_store ps s)) c).
(** Peers are compared by what the store holds of them now. *)
Definition compare_peers (c : BitswapContext) (a b : option positive) : Z :=
  let at_address x := match x with Some x => ps_heap (ns_store (bc_ipfsNode c)) !! x | None => None end in
  libp2p_peer_compare (at_address a) (at_address b).

(** ** Processing a request *)

Context (path : bytes).

(** [ipfs_bitswap_network_send_message], the connection made if there is none. *)
Definition send_bitswap_message (a : positive) (message : BitswapMessage) : netio Z :=
  p ← peer_at a;
  reached ←
    (if negb (connected p) || bool_decide (sessionContext p = None) then
       peer_connect a 10 ≫= fun _ => p ← peer_at a; mret (connected p)
     else mret true);
  if (reached : bool) then
    buf_size ← net_lift (ipfs_bitswap_message_protobuf_encode_size (Some message));
    match ipfs_bitswap_message_protobuf_encode (Some message) buf_size with
    | Err _ => mret 0
    | Undef => net_undef
    | NoFuel => net_lift NoFuel
    | Ok out =>
        p ← peer_at a;
        written ← write_stream p (bitswap_header ++ out);
        mret (if written <=? 0 then 0 else 1)
    end
  else mret 0.

Definition request_at (r : positive) : eng (PeerRequest (Peer := positive)) := fun c =>
  (match q_requests (bc_peerRequestQueue c) !! r with Some req => Ok req | None => Undef end, c).
Definition has_address (p : Libp2pPeer) : bool :=
  match lp_addr_head p with Some _ :: _ => true | _ => false end.
(** The message to a peer, filled from the queue and the block store; the request is left changed. *)
Definition fill_message (r : positive) (req : PeerRequest (Peer := positive)) : eng BitswapMessage := fun c =>
  let q := bc_peerRequestQueue c in
  match process_message (stored path (ns_world (bc_ipfsNode c))) req (q_cids q) with
  | Ok (msg, req, heap) =>
      (Ok msg, with_queue (MkPeerRequestQueue (q_entries q) (<[r := req]> (q_requests q)) heap (q_first q) (q_last q)) c)
  | Err e => (Err e, c)
  | Undef => (Undef, c)
  | NoFuel => (NoFuel, c)
  end.
(** [ipfs_bitswap_peer_request_process_entry] on the request at an address. *)
Definition process_request (r : positive) : eng Z :=
  req ← request_at r;
  match pr_peer req with
  | None => mret 0
  | Some a =>
      p ← at_node (peer_at a);
      if negb (is_local p) && negb (connected p) && negb (has_address p) then mret 0
      else
        heap ← eng_look (fun c => q_cids (bc_peerRequestQueue c));
        want ← eng_lift (ipfs_bitswap_peer_request_we_want_cids (Some (pr_cids_we_want req)) heap);
        need_to_connect ←
          (if (want : bool) then mret true
           else
             waiting ← eng_lift (ipfs_bitswap_peer_request_cids_waiting (Some (pr_cids_they_want req)) heap);
             mret (waiting || negb (vector_total (pr_blocks_we_want_to_send req) =? 0)));
        if (need_to_connect : bool) then
          connected ← (if is_local p || connected p then mret true else at_node (peer_connect a 0));
          if (connected : bool) then
            msg ← fill_message r req;
            at_node (send_bitswap_message a msg)
          else mret 0
        else mret 0
  end.

(** ** The thread that looks after the peers *)

(** [libp2p_protocol_marshal] with the node's protocol handlers. *)
Context (libp2p_protocol_marshal : bytes -> Session -> eng Z).

(** What a connected peer has sent, if its stream is idle; whether something was handled. The stream
    that is unlocked is the one the peer has then. *)
Definition read_and_handle (a : positive) (ses : Session) : eng bool :=
  r ← at_net (fun n => let '(ok, b, n) := stream_read ses 1 n in ((ok, b), n));
  match r with
  | (true, Some buffer) =>
      retVal ← libp2p_protocol_marshal buffer ses;
      if retVal =? -1 then connection_error a ≫= fun _ => mret true else mret true
  | (true, None) => eng_lift Undef
  | (false, _) => connection_error a ≫= fun _ => mret false
  end.
Definition unlock_stream (a : positive) : eng unit :=
  p ← at_node (peer_at a);
  match sessionContext p with
  | Some ses => at_net (fun n => ((), stream_unlock ses n))
  | None => eng_lift Undef
  end.
Definition listen_to (a : positive) (ses : Session) : eng bool :=
  idle ← at_net (stream_try_lock ses);
  if (idle : bool) then
    waiting ← at_net (stream_peek ses);
    handled ←
      (if waiting <? 0 then connection_error a ≫= fun _ => mret false
       else if 0 <? waiting then read_and_handle a ses
       else mret false);
    unlock_stream a ≫= fun _ => mret handled
  else mret false.
Definition check_network (a : positive) : eng bool :=
  p ← at_node (peer_at a);
  if connected p then
    let lost := at_node (alter_peer (set_connection CONNECTION_TYPE_NOT_CONNECTED) a) ≫= fun _ => mret false in
    match sessionContext p with
    | Some ses => if default_stream ses then listen_to a ses else lost
    | None => lost
    end
  else mret false.
(** The first request of the peer; whether something was sent. *)
Definition check_queue (a : positive) : eng bool :=
  found ← (fun c => (ipfs_bitswap_peer_request_queue_find_entry (compare_peers c) (bc_peerRequestQueue c)
                       (queue_fuel (bc_peerRequestQueue c)) (Some a), c));
  match found with
  | None => mret false
  | Some e =>
      entry ← (fun c => (match q_entries (bc_peerRequestQueue c) !! e with Some x => Ok x | None => Undef end, c));
      match pe_current entry with
      | None => mret false
      | Some r => sent ← process_request r; mret (negb (sent =? 0))
      end
  end.

(** The thread's [current], a place in the list of peers or NULL, and [did_some_processing]. *)
Record peer_thread := MkPeerThread { th_current : option nat; did_some_processing : bool }.
Definition peer_list : eng (list positive) := eng_look (fun c => ps_entries (ns_store (bc_ipfsNode c))).
Definition head_entry (l : list positive) : option nat := match l with [] => None | _ :: _ => Some 0%nat end.
(** A round of the loop: it ends the loop, or goes on, with a pause or without. *)
Inductive round_end := Leaves | Goes (t : peer_thread) (pause : bool).
Definition next_peer (i : nat) (did : bool) : eng round_end :=
  l ← peer_list;
  mret (if (S i <? length l)%nat then Goes (MkPeerThread (Some (S i)) did) false
        else Goes (MkPeerThread (head_entry l) false) (negb did)).
Definition peer_request_round (t : peer_thread) : eng round_end :=
  stop ← eng_look bc_shutting_down;
  if (stop : bool) then mret Leaves
  else
    match th_current t with
    | None => mret (Goes t true)
    | Some i =>
        l ← peer_list;
        a ← eng_lift (match l !! i with Some a => Ok a | None => Undef end);
        handled ← check_network a;
        sent ← check_queue a;
        next_peer i (did_some_processing t || handled || sent)
    end.

(** [n] rounds at most; the pauses that were made. *)
Fixpoint peer_request_rounds (n : nat) (t : peer_thread) : eng (option peer_thread * nat) :=
  match n with
  | O => mret (Some t, 0%nat)
  | S n =>
      r ← peer_request_round t;
      match r with
      | Leaves => mret (None, 0%nat)
      | Goes t pause =>
          '(t, pauses) ← peer_request_rounds n t;
          mret (t, if pause then S pauses else pauses)
      end
  end.
Definition ipfs_bitswap_engine_peer_request_processor_start (n : nat) : eng (option peer_thread * nat) :=
  l ← peer_list;
  peer_request_rounds n (MkPeerThread (head_entry l) false).
End Engine.

(** ** Starting and stopping the threads *)

(** A thread is not there, reads the flag, is in a round, or has left. *)
Inductive run := NotStarted | AtFlag | InRound | Left.
(** Where the thread is that runs [ipfs_bitswap_new], and later [ipfs_bitswap_free]: creating the threads
    ([ipfs_bitswap_engine_start]), between the two functions, in [ipfs_bitswap_engine_stop], which the
    start calls too when it fails, and behind it. *)
Inductive main_at :=
| CreateWantlist | CreatePeers | Serving
| SetFlag (in_start : bool) | JoinWantlist (in_start : bool) | JoinPeers (in_start : bool) | FreeEngine (in_start : bool)
| FreeWantlist | FreeQueue | FreeContext | Closed.
(** The threads, and what is allocated. *)
Record Threads := MkThreads {
  ts_main : main_at;
  wantlist_processor_thread : run;
  peer_request_processor_thread : run;
  ts_shutting_down : bool;
  engine_live : bool;
  wantlist_live : bool;
  queue_live : bool;
  context_live : bool
}.
Definition ipfs_bitswap_new : Threads := MkThreads CreateWantlist NotStarted NotStarted false true true true true.
Definition to (m : main_at) (s : Threads) : Threads :=
  MkThreads m (wantlist_processor_thread s) (peer_request_processor_thread s) (ts_shutting_down s)
    (engine_live s) (wantlist_live s) (queue_live s) (context_live s).
Definition set_wantlist_thread (r : run) (s : Threads) : Threads :=
  MkThreads (ts_main s) r (peer_request_processor_thread s) (ts_shutting_down s)
    (engine_live s) (wantlist_live s) (queue_live s) (context_live s).
Definition set_peer_thread (r : run) (s : Threads) : Threads :=
  MkThreads (ts_main s) (wantlist_processor_thread s) r (ts_shutting_down s)
    (engine_live s) (wantlist_live s) (queue_live s) (context_live s).
Definition free_engine (s : Threads) : Threads :=
  MkThreads (ts_main s) (wantlist_processor_thread s) (peer_request_processor_thread s) (ts_shutting_down s)
    false (wantlist_live s) (queue_live s) (context_live s).

(** The next step of the main thread; [ok]: whether the thread is created, should it be. The outer [None]: it
    waits; the inner: memory that is freed is touched, or a thread joined that was never created. The
    result of the start is not looked at. *)
Definition join (r : run) (s : Threads) : option (option Threads) :=
  match r with NotStarted => Some None | Left => Some (Some s) | AtFlag | InRound => None end.
Definition if_live (live : bool) (s : Threads) : option (option Threads) := Some (if live then Some s else None).
Definition ipfs_bitswap_engine_start (ok : bool) (s : Threads) : option (option Threads) :=
  match ts_main s with
  | CreateWantlist =>
      Some (Some (if ok then to CreatePeers (set_wantlist_thread AtFlag s) else to Serving s))
  | CreatePeers =>
      Some (Some (if ok then to Serving (set_peer_thread AtFlag s) else to (SetFlag true) s))
  | _ => None
  end.
Definition ipfs_bitswap_engine_stop (s : Threads) : option (option Threads) :=
  match ts_main s with
  | SetFlag b =>
      if_live (engine_live s)
        (MkThreads (JoinWantlist b) (wantlist_processor_thread s) (peer_request_processor_thread s) true
           (engine_live s) (wantlist_live s) (queue_live s) (context_live s))
  | JoinWantlist b => join (wantlist_processor_thread s) (to (JoinPeers b) s)
  | JoinPeers b => join (peer_request_processor_thread s) (to (FreeEngine b) s)
  | FreeEngine b => if_live (engine_live s) (to (if b then Serving else FreeWantlist) (free_engine s))
  | _ => None
  end.
Definition ipfs_bitswap_free (s : Threads) : option (option Threads) :=
  match ts_main s with
  | Serving => Some (Some (to (SetFlag false) s))
  | FreeWantlist =>
      if_live (wantlist_live s)
        (MkThreads FreeQueue (wantlist_processor_thread s) (peer_request_processor_thread s) (ts_shutting_down s)
           (engine_live s) false (queue_live s) (context_live s))
  | FreeQueue =>
      if_live (queue_live s)
        (MkThreads FreeContext (wantlist_processor_thread s) (peer_request_processor_thread s) (ts_shutting_down s)
           (engine_live s) (wantlist_live s) false (context_live s))
  | FreeContext =>
      if_live (context_live s)
        (MkThreads Closed (wantlist_processor_thread s) (peer_request_processor_thread s) (ts_shutting_down s)
           (engine_live s) (wantlist_live s) (queue_live s) false)
  | _ => None
  end.
Definition main_step (ok : bool) (s : Threads) : option (option Threads) :=
  match ipfs_bitswap_engine_start ok s with
  | Some o => Some o
  | None => match ipfs_bitswap_engine_stop s with Some o => Some o | None => ipfs_bitswap_free s end
  end.
(** The next step of a thread of the engine: the flag is read from the engine, a round uses everything. *)
Definition thread_step (r : run) (set : run -> Threads -> Threads) (s : Threads) : option (option Threads) :=
  match r with
  | NotStarted | Left => None
  | AtFlag =>
      if_live (context_live s && engine_live s) (set (if ts_shutting_down s then Left else InRound) s)
  | InRound => if_live (context_live s && wantlist_live s && queue_live s) (set AtFlag s)
  end.
(** Steps interleave; [None]: undefined. *)
Inductive threads_step (s : Threads) : option Threads -> Prop :=
| step_main ok o : main_step ok s = Some o -> threads_step s o
| step_wantlist o : thread_step (wantlist_processor_thread s) set_wantlist_thread s = Some o -> threads_step s o
| step_peers o : thread_step (peer_request_processor_thread s) set_peer_thread s = Some o -> threads_step s o.
Inductive threads_reach : Threads -> Prop :=
| reach_new : threads_reach ipfs_bitswap_new
| reach_step s s' : threads_reach s -> threads_step s (Some s') -> threads_reach s'.

(** * Facts *)

Section Facts.
Context {PB : Protobuf} `{!ProtobufLaws PB} {VE : Libp2pVector} `{!Libp2pVectorLaws VE}.
Context {MH : Multihash} {B32 : Base32} `{!Base32Laws B32} {OS : OsUtils} `{!OsUtilsLaws OS}.
Context {DS : Datastore} `{!DatastoreLaws DS}.
Context {AD : Addrs} {SS : Sessions} {LP : Libp2p} {ST : SessionStreams LP} {PS : PeerStreams LP}.
Context (path : bytes).

(** Finding an entry depends on the chain and on whose the requests are. *)
Lemma queue_find_same {Peer} (cmp : option Peer -> option Peer -> Z) q q' peer fuel cur :
  q_entries q' = q_entries q ->
  (forall r, pr_peer <$> q_requests q' !! r = pr_peer <$> q_requests q !! r) ->
  queue_find cmp q' peer fuel cur = queue_find cmp q peer fuel cur.
Proof.
  intros He Hr. revert cur. induction fuel as [| fuel IH]; intros [p |]; cbn [queue_find]; try reflexivity.
  unfold entry_request. rewrite He. destruct (q_entries q !! p) as [e |]; [| reflexivity]. cbn [mbind option_bind].
  destruct (pe_current e) as [r |]; [| reflexivity]. specialize (Hr r).
  destruct (q_requests q !! r) as [req |] eqn:E1, (q_requests q' !! r) as [req' |] eqn:E2; cbn in Hr; try discriminate;
    cbn [mbind option_bind]; rewrite ?E1, ?E2; cbn; [| reflexivity].
  injection Hr as ->. rewrite IH. reflexivity.
Qed.

(** What a request's new state is in the queue. *)
Definition with_request (r : positive) (req : PeerRequest (Peer := positive)) (heap : entry_heap)
  (c : BitswapContext) : BitswapContext :=
  let q := bc_peerRequestQueue c in
  with_queue (MkPeerRequestQueue (q_entries q) (<[r := req]> (q_requests q)) heap (q_first q) (q_last q)) c.

Lemma send_message_sent a p ses s msg write sent data k n' :
  ps_heap (ns_store s) !! a = Some p -> connected p = true -> sessionContext p = Some ses ->
  ipfs_bitswap_network_send_message true write msg = Ok (sent, Some data) ->
  stream_write ses data (ns_net s) = Some (k, n') -> write data = k ->
  send_bitswap_message a msg s = (Ok (if sent =? 0 then 0 else 1), set_net n' s).
Proof.
  intros Hp Hc Hses Hsend Hw Hk. unfold send_bitswap_message.
  rewrite (netio_bind_ok _ _ s p s (peer_at_ok a p s Hp)), Hc, Hses. cbn [negb orb].
  rewrite bool_decide_false by discriminate. rewrite (netio_bind_ok (mret true) _ s true s eq_refl).
  unfold ipfs_bitswap_network_send_message, mbind at 1, cres_bind in Hsend. cbn [negb] in Hsend.
  destruct (ipfs_bitswap_message_protobuf_encode_size (Some msg)) as [size | | |]; try discriminate.
  rewrite (netio_bind_ok (net_lift (Ok size)) _ s size s eq_refl).
  destruct (ipfs_bitswap_message_protobuf_encode (Some msg) size) as [out | | |]; try discriminate.
  injection Hsend as Hsent <-. rewrite (netio_bind_ok _ _ s p s (peer_at_ok a p s Hp)).
  rewrite (netio_bind_ok _ _ s k (set_net n' s) (write_stream_ok p ses _ s k n' Hses Hw)).
  rewrite <- Hsent, Hk. destruct (k <=? 0); reflexivity.
Qed.
(** A peer that is connected is sent what [ipfs_bitswap_peer_request_process_entry] writes, on its stream. *)
Lemma process_request_connected r req a p ses c v data req' heap' k n' :
  q_requests (bc_peerRequestQueue c) !! r = Some req -> pr_peer req = Some a ->
  ps_heap (ns_store (bc_ipfsNode c)) !! a = Some p -> connected p = true -> sessionContext p = Some ses ->
  let net := ns_net (bc_ipfsNode c) in
  let write (_ : positive) d := match stream_write ses d net with Some (k, _) => k | None => 0 end in
  ipfs_bitswap_peer_request_process_entry (fun _ => is_local p) (fun _ => true) (fun _ => has_address p)
    (fun _ => true) (fun _ => true) write (stored path (ns_world (bc_ipfsNode c))) (Some req)
    (q_cids (bc_peerRequestQueue c)) = Ok (v, Some data, Some req', heap') ->
  stream_write ses data net = Some (k, n') ->
  process_request path r c = (Ok v, with_node (set_net n' (bc_ipfsNode c)) (with_request r req' heap' c)).
Proof.
  intros Hr Ha Hp Hc Hses net write Hpure Hw.
  unfold process_request. rewrite (eng_bind_ok (request_at r) _ c req c) by (unfold request_at; rewrite Hr; reflexivity).
  rewrite Ha. rewrite (eng_bind_ok (at_node (peer_at a)) _ c p c)
    by (unfold at_node; rewrite (peer_at_ok a p _ Hp); destruct c; reflexivity).
  rewrite Hc in *. unfold ipfs_bitswap_peer_request_process_entry in Hpure. rewrite Ha in Hpure.
  rewrite !andb_false_r, ?orb_true_r in *. cbn [andb negb] in *. 
  cbv beta iota zeta in Hpure.
  rewrite (eng_bind_ok (eng_look _) _ c (q_cids (bc_peerRequestQueue c)) c eq_refl).
  unfold mbind, cres_bind in Hpure.
  destruct (ipfs_bitswap_peer_request_we_want_cids _ _) as [want | | |] eqn:Ewant; try discriminate.
  rewrite (eng_bind_ok (eng_lift (Ok want)) _ c want c eq_refl).
  match goal with |- context [if want then mret true else ?m] => set (need := if want then mret true else m) end.
  match type of Hpure with match ?x with _ => _ end = _ => set (needp := x) in Hpure end.
  assert (Hneed : need c = (needp, c)).
  { subst need needp. destruct want; [reflexivity |].
    unfold mbind, eng_bind, eng_lift. destruct (ipfs_bitswap_peer_request_cids_waiting _ _) as [[|] | | |]; reflexivity. }
  destruct needp as [[|] | | |]; try discriminate. rewrite (eng_bind_ok need _ c true c Hneed). cbn [andb] in Hpure.
  rewrite (eng_bind_ok (mret true) _ c true c eq_refl). clear need Hneed Ewant.
  destruct (process_message _ req _) as [[[msg req1] heap1] | | |] eqn:Emsg; try discriminate.
  destruct (ipfs_bitswap_network_send_message true (write a) msg) as [[sent [data1 |]] | | |] eqn:Esend; try discriminate.
  injection Hpure as <- -> -> ->.
  rewrite (eng_bind_ok (fill_message path r req) _ c msg (with_request r req' heap' c))
    by (unfold fill_message; rewrite Emsg; reflexivity).
  unfold at_node. change (bc_ipfsNode (with_request r req' heap' c)) with (bc_ipfsNode c).
  rewrite (send_message_sent a p ses _ msg (write a) sent data k n' Hp Hc Hses Esend Hw ltac:(subst write; cbn; rewrite Hw; reflexivity)).
  reflexivity.
Qed.

(** *** A message that waits *)

Definition node_net (c : BitswapContext) : Net := ns_net (bc_ipfsNode c).
Definition with_net (n : Net) (c : BitswapContext) : BitswapContext := with_node (set_net n (bc_ipfsNode c)) c.
(** The stream is idle and holds bytes that can be read; [n'] is the outside after that. *)
Definition waits (ses : Session) (n : Net) (data : bytes) (n' : Net) : Prop :=
  exists n1 k n2, stream_try_lock ses n = (true, n1) /\ stream_peek ses n1 = (k, n2) /\ 0 < k /\
    stream_read ses 1 n2 = (true, Some data, n').
(** A connection that is up. *)
Record talks (a : positive) (p : Libp2pPeer) (ses : Session) (c : BitswapContext) : Prop := {
  tk_heap : ps_heap (ns_store (bc_ipfsNode c)) !! a = Some p;
  tk_connected : connected p = true;
  tk_session : sessionContext p = Some ses;
  tk_stream : default_stream ses = true
}.

Context (marshal : bytes -> Session -> eng Z).
Lemma check_network_handles a p ses data n c v c' :
  talks a p ses c -> waits ses (node_net c) data n -> marshal data ses (with_net n c) = (Ok v, c') -> v <> -1 ->
  talks a p ses c' ->
  check_network marshal a c = (Ok true, with_net (stream_unlock ses (node_net c')) c').
Proof.
  intros [Hp Hc Hs Hd] (n1 & k & n2 & Hl & Hk & Hpos & Hr) Hm Hv [Hp' Hc' Hs' Hd'].
  unfold check_network, at_node.
  rewrite (eng_bind_ok _ _ c p c) by (rewrite (peer_at_ok a p _ Hp); destruct c; reflexivity).
  rewrite Hc, Hs, Hd. unfold listen_to.
  rewrite (eng_bind_ok (at_net (stream_try_lock ses)) _ c true (with_net n1 c)) by (unfold at_net; unfold node_net in Hl; rewrite Hl; reflexivity).
  rewrite (eng_bind_ok (at_net (stream_peek ses)) _ _ k (with_net n2 c))
    by (unfold at_net; cbn; rewrite Hk; reflexivity).
  replace (k <? 0) with false by lia. replace (0 <? k) with true by lia.
  rewrite (eng_bind_ok (read_and_handle marshal a ses) _ _ true c').
  - rewrite (eng_bind_ok (unlock_stream a) _ _ () (with_net (stream_unlock ses (node_net c')) c')); [reflexivity |].
    unfold unlock_stream, at_node. rewrite (eng_bind_ok _ _ c' p c') by (rewrite (peer_at_ok a p _ Hp'); destruct c'; reflexivity).
    rewrite Hs'. reflexivity.
  - unfold read_and_handle. rewrite (eng_bind_ok (at_net _) _ _ (true, Some data) (with_net n c))
      by (unfold at_net; cbn; rewrite Hr; reflexivity).
    cbv beta iota. rewrite (eng_bind_ok _ _ _ v c' Hm). replace (v =? -1) with false by lia. reflexivity.
Qed.
Lemma check_queue_sends a e r req entry c v c' :
  ipfs_bitswap_peer_request_queue_find_entry (compare_peers c) (bc_peerRequestQueue c)
    (queue_fuel (bc_peerRequestQueue c)) (Some a) = Ok (Some e) ->
  entry_request (bc_peerRequestQueue c) e = Some (entry, r, req) ->
  process_request path r c = (Ok v, c') -> check_queue path a c = (Ok (negb (v =? 0)), c').
Proof.
  intros Hf He Hp. apply entry_request_inv in He as (He & Hcur & _). unfold check_queue.
  rewrite (eng_bind_ok _ _ c (Some e) c) by (rewrite Hf; reflexivity).
  rewrite (eng_bind_ok _ _ c entry c) by (rewrite He; reflexivity).
  rewrite Hcur, (eng_bind_ok _ _ c v c' Hp). reflexivity.
Qed.

(** What comes behind a round that did something. *)
Definition busy_round (i : nat) (l : list positive) : round_end :=
  if (S i <? length l)%nat then Goes (MkPeerThread (Some (S i)) true) false
  else Goes (MkPeerThread (head_entry l) false) false.
Lemma round_busy t i a c c1 sent c2 :
  bc_shutting_down c = false -> th_current t = Some i -> ps_entries (ns_store (bc_ipfsNode c)) !! i = Some a ->
  check_network marshal a c = (Ok true, c1) -> check_queue path a c1 = (Ok sent, c2) ->
  peer_request_round path marshal t c = (Ok (busy_round i (ps_entries (ns_store (bc_ipfsNode c2)))), c2).
Proof.
  intros Hsd Hi Hl Hn Hq. unfold peer_request_round.
  rewrite (eng_bind_ok (eng_look _) _ c false c) by (unfold eng_look; rewrite Hsd; reflexivity). rewrite Hi.
  rewrite (eng_bind_ok peer_list _ c _ c eq_refl). rewrite (eng_bind_ok (eng_lift _) _ c a c) by (rewrite Hl; reflexivity).
  rewrite (eng_bind_ok _ _ c true c1 Hn), (eng_bind_ok _ _ c1 sent c2 Hq). rewrite orb_true_r. cbn [orb].
  unfold next_peer. rewrite (eng_bind_ok peer_list _ c2 _ c2 eq_refl). unfold busy_round.
  destruct (_ <? _)%nat; reflexivity.
Qed.

(** *** The bitswap handler *)

(** [ipfs_bitswap_handle_message] on the node, for the peer of the session. *)
Definition bitswap_handler (junk : WantlistEntry) (a : positive) (data : bytes) : eng Z := fun c =>
  let s := bc_ipfsNode c in
  match ipfs_bitswap_handle_message (compare_peers c) path true (bc_peerRequestQueue c)
          (queue_fuel (bc_peerRequestQueue c)) (Some a) data (len data) junk (bc_localWantlist c) (ns_world s) with
  | (Ok (v, q, w), W) => (Ok v, with_node (set_world W s) (with_wants w (with_queue q c)))
  | (Err e, _) => (Err e, c)
  | (Undef, _) => (Undef, c)
  | (NoFuel, _) => (NoFuel, c)
  end.
(** The library hands what the bitswap handler can handle to it. *)
Definition hands_bitswap (junk : WantlistEntry) (a : positive) (ses : Session) : Prop :=
  forall data c, ipfs_bitswap_can_handle (Some data) (len data) = 1 -> marshal data ses c = bitswap_handler junk a data c.

Lemma bitswap_message_handled m :
  ipfs_bitswap_can_handle (Some (bitswap_header ++ message_wire m)) (len (bitswap_header ++ message_wire m)) = 1.
Proof.
  unfold ipfs_bitswap_can_handle. rewrite btake_all by lia. rewrite len_app.
  pose proof (len_nonneg (message_wire m)). replace (len bitswap_header) with 20 by reflexivity.
  replace (20 + len (message_wire m) =? 0) with false by lia. reflexivity.
Qed.

(** A question for one CID. *)
Record question (m : BitswapMessage) (cid : Cid) : Prop := {
  qn_wf : message_wf m;
  qn_payload : message_payload m = [];
  qn_request : exists e, message_requests m = [Some e] /\ we_cancel e = 0 /\
    BitswapMessage.entry_block e = cid_opt_wire (Some cid)
}.
(** The entry a peer has in the queue, and its request. *)
Record has_request (a : positive) (r : positive) (req : PeerRequest) (c : BitswapContext) : Prop := {
  hr_entry : exists l e entry, queue_list (bc_peerRequestQueue c) l /\
    find (is_for (compare_peers c) (bc_peerRequestQueue c) (Some a)) l = Some e /\
    entry_request (bc_peerRequestQueue c) e = Some (entry, r, req);
  hr_peer : pr_peer req = Some a
}.
Lemma question_handled junk a r req m cid h c :
  question m cid -> cid_small cid -> -128 <= cid_codec cid < 128 -> cid_hash cid = Some h -> h <> [] ->
  has_request a r req c -> quiet req ->
  exists they cid', bitswap_handler junk a (bitswap_header ++ message_wire m) c =
      (Ok 1, with_queue (with_want (bc_peerRequestQueue c) r req they cid') c) /\
    items they = [fresh (dom (q_cids (bc_peerRequestQueue c)))] /\ cid_value cid' = cid_value cid /\ cid_small cid'.
Proof.
  intros [Hm Hpay (e & Hreq & Hcan & Hblk)] Hc Hcod Hh Hne [(l & p0 & entry & Hq & Hf & He) _] Hquiet.
  assert (Hdig : cid_digest cid <> []) by (unfold cid_digest; rewrite Hh; exact Hne).
  destruct (question_received (compare_peers c) path m e cid (bc_peerRequestQueue c) l p0 entry r req a
    (bc_localWantlist c) (ns_world (bc_ipfsNode c)) junk Hm Hpay Hreq Hcan Hblk Hc Hcod Hdig Hq Hf He (qt_they _ Hquiet))
    as (they & cid' & Hrun & Hrest).
  exists they, cid'. split; [| exact Hrest]. unfold bitswap_handler. rewrite Hrun.
  destruct c as [s q w sd]. destruct s. reflexivity.
Qed.

(** *** A pass *)

(** What is done about one peer, and about some in order. *)
Definition visit (a : positive) : eng bool :=
  handled ← check_network marshal a; sent ← check_queue path a; mret (handled || sent).
Fixpoint visit_all (l : list positive) (did : bool) : eng bool :=
  match l with
  | [] => mret did
  | a :: l => d ← visit a; visit_all l (did || d)
  end.
(** Looking after a peer leaves the list of peers and the flag. *)
Definition visits_keep : Prop := forall a c v c',
  visit a c = (Ok v, c') ->
  ps_entries (ns_store (bc_ipfsNode c')) = ps_entries (ns_store (bc_ipfsNode c)) /\
  bc_shutting_down c' = bc_shutting_down c.


(** What leaves the list of peers and the flag. *)
Definition eng_keeps {A} (m : eng A) : Prop := forall c v c',
  m c = (Ok v, c') ->
  ps_entries (ns_store (bc_ipfsNode c')) = ps_entries (ns_store (bc_ipfsNode c)) /\ bc_shutting_down c' = bc_shutting_down c.
Definition net_keeps {A} (m : netio A) : Prop := forall s v s',
  m s = (Ok v, s') -> ps_entries (ns_store s') = ps_entries (ns_store s).
(** The calls into the peer library, and the handlers that are called for what a peer sends, leave
    both. *)
Record calls_keep : Prop := {
  ck_connect : forall a t ps n, ps_entries (libp2p_peer_connect a t ps n).1.2 = ps_entries ps;
  ck_error : forall a ps n, ps_entries (libp2p_peer_handle_connection_error a ps n).1 = ps_entries ps;
  ck_marshal : forall data ses, eng_keeps (marshal data ses)
}.

Lemma keeps_bind {A B} (m : eng A) (f : A -> eng B) : eng_keeps m -> (forall a, eng_keeps (f a)) -> eng_keeps (m ≫= f).
Proof.
  intros Hm Hf c v c' H. unfold mbind, eng_bind in H. destruct (m c) as [[a | | |] c1] eqn:E; try discriminate.
  destruct (Hm _ _ _ E) as [E1 E2], (Hf a _ _ _ H) as [E3 E4]. split; congruence.
Qed.
Lemma keeps_ret {A} (a : A) : eng_keeps (mret a).
Proof. intros c v c' [= _ <-]. by split. Qed.
Lemma keeps_lift {A} (r : cres unit A) : eng_keeps (eng_lift r).
Proof. intros c v c' [= _ <-]. by split. Qed.
Lemma keeps_look {A} (f : BitswapContext -> A) : eng_keeps (eng_look f).
Proof. intros c v c' [= _ <-]. by split. Qed.
Lemma keeps_net {A} (f : Net -> A * Net) : eng_keeps (at_net f).
Proof. intros c v c' H. unfold at_net in H. destruct (f _). injection H as _ <-. by split; destruct (bc_ipfsNode c). Qed.
Lemma keeps_node {A} (m : netio A) : net_keeps m -> eng_keeps (at_node m).
Proof.
  intros Hm c v c' H. unfold at_node in H. destruct (m (bc_ipfsNode c)) as [r s] eqn:E. injection H as -> <-.
  split; [exact (Hm _ _ _ E) | reflexivity].
Qed.
Lemma keeps_request r : eng_keeps (request_at r).
Proof. intros c v c' H. unfold request_at in H. injection H as _ <-. by split. Qed.
Lemma keeps_fill r req : eng_keeps (fill_message path r req).
Proof.
  intros c v c' H. unfold fill_message in H. destruct (process_message _ _ _) as [[[m rq] h] | | |]; try discriminate.
  injection H as _ <-. by split.
Qed.
Lemma net_bind {A B} (m : netio A) (f : A -> netio B) : net_keeps m -> (forall a, net_keeps (f a)) -> net_keeps (m ≫= f).
Proof.
  intros Hm Hf s v s' H. unfold mbind, netio_bind in H. destruct (m s) as [[a | | |] s1] eqn:E; try discriminate.
  rewrite (Hf a _ _ _ H). exact (Hm _ _ _ E).
Qed.
Lemma net_ret {A} (a : A) : net_keeps (mret a).
Proof. by intros s v s' [= _ <-]. Qed.
Lemma net_lifted {A} (r : cres unit A) : net_keeps (net_lift r).
Proof. by intros s v s' [= _ <-]. Qed.
Lemma net_peer a : net_keeps (peer_at a).
Proof. intros s v s' H. unfold peer_at in H. destruct (_ !! a); [| discriminate]. by injection H as _ <-. Qed.
Lemma net_alter f a : net_keeps (alter_peer f a).
Proof. intros s v s' [= <- <-]. by destruct s. Qed.
Lemma net_write p d : net_keeps (write_stream p d).
Proof.
  intros s v s' H. unfold write_stream in H. destruct (sessionContext p); [| discriminate].
  destruct (stream_write _ _ _) as [[k n] |]; [| discriminate]. injection H as _ <-. by destruct s.
Qed.
Lemma net_connect a t : calls_keep -> net_keeps (peer_connect a t).
Proof.
  intros K s v s' H. unfold peer_connect in H. pose proof (ck_connect K a t (ns_store s) (ns_net s)) as E.
  destruct (libp2p_peer_connect _ _ _ _) as [[ok ps] n]. injection H as _ <-. destruct s. exact E.
Qed.
Lemma keeps_error a : calls_keep -> eng_keeps (connection_error a).
Proof.
  intros K c v c' H. unfold connection_error in H. pose proof (ck_error K a (ns_store (bc_ipfsNode c)) (ns_net (bc_ipfsNode c))) as E.
  destruct (libp2p_peer_handle_connection_error _ _ _) as [ps n]. injection H as _ <-. cbn in *. split; [by destruct (bc_ipfsNode c) | reflexivity].
Qed.
Lemma net_send a m : calls_keep -> net_keeps (send_bitswap_message a m).
Proof.
  intros K. unfold send_bitswap_message. apply net_bind; [apply net_peer |]. intros p. apply net_bind.
  - destruct (_ || _); [| apply net_ret]. apply net_bind; [by apply net_connect |]. intros _.
    apply net_bind; [apply net_peer |]. intros q. apply net_ret.
  - intros [|]; [| apply net_ret]. apply net_bind; [apply net_lifted |]. intros size.
    destruct (ipfs_bitswap_message_protobuf_encode _ _); try apply net_lifted.
    apply net_bind; [apply net_peer |]. intros q. apply net_bind; [apply net_write |]. intros k. apply net_ret.
Qed.
Lemma keeps_process r : calls_keep -> eng_keeps (process_request path r).
Proof.
  intros K. unfold process_request. apply keeps_bind; [apply keeps_request |]. intros req.
  destruct (pr_peer req) as [a |]; [| apply keeps_ret]. apply keeps_bind; [apply keeps_node, net_peer |]. intros p.
  destruct (_ && _); [apply keeps_ret |]. apply keeps_bind; [apply keeps_look |]. intros heap.
  apply keeps_bind; [apply keeps_lift |]. intros want. apply keeps_bind.
  { destruct want; [apply keeps_ret |]. apply keeps_bind; [apply keeps_lift |]. intros w. apply keeps_ret. }
  intros [|]; [| apply keeps_ret]. apply keeps_bind.
  { destruct (_ || _); [apply keeps_ret | by apply keeps_node, net_connect]. }
  intros [|]; [| apply keeps_ret]. apply keeps_bind; [apply keeps_fill |]. intros m. by apply keeps_node, net_send.
Qed.
Lemma keeps_listen a ses : calls_keep -> eng_keeps (listen_to marshal a ses).
Proof.
  intros K. unfold listen_to. apply keeps_bind; [apply keeps_net |]. intros [|]; [| apply keeps_ret].
  apply keeps_bind; [apply keeps_net |]. intros k. apply keeps_bind.
  - destruct (k <? 0); [apply keeps_bind; [by apply keeps_error | intros _; apply keeps_ret] |].
    destruct (0 <? k); [| apply keeps_ret]. unfold read_and_handle. apply keeps_bind; [apply keeps_net |].
    intros [[|] [data |]]; [| apply keeps_lift | |].
    + apply keeps_bind; [apply K |]. intros v. destruct (v =? -1); [| apply keeps_ret].
      apply keeps_bind; [by apply keeps_error | intros _; apply keeps_ret].
    + apply keeps_bind; [by apply keeps_error | intros _; apply keeps_ret].
    + apply keeps_bind; [by apply keeps_error | intros _; apply keeps_ret].
  - intros h. apply keeps_bind; [| intros _; apply keeps_ret]. unfold unlock_stream.
    apply keeps_bind; [apply keeps_node, net_peer |]. intros p. destruct (sessionContext p); [apply keeps_net | apply keeps_lift].
Qed.
Lemma calls_visits : calls_keep -> visits_keep.
Proof.
  intros K a. change (eng_keeps (visit a)). unfold visit. apply keeps_bind.
  - unfold check_network. apply keeps_bind; [apply keeps_node, net_peer |]. intros p.
    assert (Hlost : eng_keeps (at_node (alter_peer (set_connection CONNECTION_TYPE_NOT_CONNECTED) a) ≫= fun _ => mret false))
      by (apply keeps_bind; [apply keeps_node, net_alter | intros _; apply keeps_ret]).
    destruct (connected p); [| apply keeps_ret]. destruct (sessionContext p) as [ses |]; [| exact Hlost].
    destruct (default_stream ses); [by apply keeps_listen | exact Hlost].
  - intros handled. apply keeps_bind; [| intros sent; apply keeps_ret]. unfold check_queue. apply keeps_bind.
    { intros c v c' [= _ <-]. by split. }
    intros [e |]; [| apply keeps_ret]. apply keeps_bind; [intros c v c' [= _ <-]; by split |].
    intros entry. destruct (pe_current entry); [| apply keeps_ret].
    apply keeps_bind; [by apply keeps_process | intros v; apply keeps_ret].
Qed.

Lemma round_visit t i a c :
  bc_shutting_down c = false -> th_current t = Some i -> ps_entries (ns_store (bc_ipfsNode c)) !! i = Some a ->
  peer_request_round path marshal t c = (d ← visit a; next_peer i (did_some_processing t || d)) c.
Proof.
  intros Hsd Hi Ha. unfold peer_request_round.
  rewrite (eng_bind_ok (eng_look _) _ c false c) by (unfold eng_look; rewrite Hsd; reflexivity). rewrite Hi.
  rewrite (eng_bind_ok peer_list _ c _ c eq_refl), (eng_bind_ok (eng_lift _) _ c a c) by (rewrite Ha; reflexivity).
  unfold visit, mbind, eng_bind, mret, eng_ret. destruct (check_network marshal a c) as [[h | | |] c1]; try reflexivity.
  destruct (check_queue path a c1) as [[s0 | | |] c2]; try reflexivity. rewrite orb_assoc. reflexivity.
Qed.
Lemma rounds_step n t c :
  peer_request_rounds path marshal (S n) t c =
    (r ← peer_request_round path marshal t;
     match r with
     | Leaves => mret (None, 0%nat)
     | Goes t pause =>
         '(t, pauses) ← peer_request_rounds path marshal n t; mret (t, if pause then S pauses else pauses)
     end) c.
Proof. reflexivity. Qed.
Lemma rounds_pass l done did c :
  visits_keep -> bc_shutting_down c = false -> ps_entries (ns_store (bc_ipfsNode c)) = done ++ l -> l <> [] ->
  peer_request_rounds path marshal (length l) (MkPeerThread (Some (length done)) did) c =
    (d ← visit_all l did; mret (Some (MkPeerThread (Some 0%nat) false), if (d : bool) then 0%nat else 1%nat)) c.
Proof.
  intros Hk. revert done did c. induction l as [| a l IH]; intros done did c Hsd Hl Hne; [contradiction |].
  change (length (a :: l)) with (S (length l)). rewrite rounds_step. cbn [visit_all].
  unfold mbind at 1 3, eng_bind at 1 3.
  rewrite (round_visit (MkPeerThread (Some (length done)) did) (length done) a c Hsd eq_refl)
    by (rewrite Hl; apply list_lookup_middle; reflexivity).
  cbn [did_some_processing]. unfold mbind at 1 3, eng_bind at 1 3.
  destruct (visit a c) as [[d | | |] c'] eqn:Ev; [| reflexivity ..].
  destruct (Hk a c d c' Ev) as [Hl' Hsd']. rewrite Hsd in Hsd'. rewrite Hl in Hl'.
  unfold next_peer. rewrite (eng_bind_ok peer_list _ c' _ c' eq_refl), Hl', length_app. cbn [length].
  destruct l as [| a' l].
  - cbn [length peer_request_rounds visit_all]. replace (S (length done) <? length done + 1)%nat with false by (symmetry; apply Nat.ltb_ge; lia).
    replace (head_entry (done ++ [a])) with (Some 0%nat) by (destruct done; reflexivity).
    unfold mret, eng_ret, mbind, eng_bind. destruct (did || d); reflexivity.
  - replace (S (length done) <? length done + S (length (a' :: l)))%nat with true
      by (symmetry; apply Nat.ltb_lt; cbn; lia).
    unfold mret at 1, eng_ret at 1. replace (S (length done)) with (length (done ++ [a])) by (rewrite length_app; cbn; lia).
    unfold mbind at 1, eng_bind at 1. rewrite (IH (done ++ [a]) (did || d) c' Hsd'); [| rewrite <- app_assoc; exact Hl' | discriminate].
    unfold mret, eng_ret, mbind, eng_bind. destruct (visit_all _ _ _) as [[[|] | | |] ?]; reflexivity.
Qed.
End Facts.

(** *** The threads' invariant *)

(** Where the main thread is tells what is live, and something of the threads. *)
Definition is_left (r : run) : bool := match r with Left => true | _ => false end.
Definition is_missing (r : run) : bool := match r with NotStarted => true | _ => false end.
Definition runs_ok (m : main_at) (w p : run) : bool :=
  match m with
  | CreateWantlist => is_missing w && is_missing p
  | CreatePeers => negb (is_missing w) && is_missing p
  | SetFlag true | JoinWantlist true => is_missing p
  | JoinPeers true => is_left w && is_missing p
  | FreeEngine true => false
  | JoinPeers false => is_left w
  | FreeEngine false | FreeWantlist | FreeQueue | FreeContext | Closed => is_left w && is_left p
  | Serving | SetFlag false | JoinWantlist false => true
  end.
Definition freed (m : main_at) : nat :=
  match m with FreeWantlist => 1 | FreeQueue => 2 | FreeContext => 3 | Closed => 4 | _ => 0 end.
Definition threads_at (m : main_at) (w p : run) (f : bool) : Threads :=
  MkThreads m w p f (freed m <? 1)%nat (freed m <? 2)%nat (freed m <? 3)%nat (freed m <? 4)%nat.
Inductive threads_ok : Threads -> Prop :=
| threads_ok_at m w p f : runs_ok m w p = true -> threads_ok (threads_at m w p f).

Lemma main_step_ok ok m w p f :
  runs_ok m w p = true ->
  match main_step ok (threads_at m w p f) with
  | Some (Some s') => threads_ok s'
  | Some None => is_missing w || is_missing p = true
  | None => True
  end.
Proof.
  destruct m as [| | | [] | [] | [] | [] | | | |], w, p, ok; cbn; try discriminate; intros _;
    exact I || reflexivity || (refine (threads_ok_at _ _ _ _ _); reflexivity).
Qed.
Lemma thread_step_ok m w p f :
  runs_ok m w p = true ->
  match thread_step w set_wantlist_thread (threads_at m w p f) with
  | Some o => exists s', o = Some s' /\ threads_ok s'
  | None => True
  end /\
  match thread_step p set_peer_thread (threads_at m w p f) with
  | Some o => exists s', o = Some s' /\ threads_ok s'
  | None => True
  end.
Proof.
  destruct m as [| | | [] | [] | [] | [] | | | |], w, p, f; cbn; try discriminate; intros _; split;
    exact I || (eexists; split; [reflexivity |]; refine (threads_ok_at _ _ _ _ _); reflexivity).
Qed.
Lemma threads_step_ok s o :
  threads_ok s -> threads_step s o ->
  match o with
  | Some s' => threads_ok s'
  | None => is_missing (wantlist_processor_thread s) || is_missing (peer_request_processor_thread s) = true
  end.
Proof.
  intros [m w p f Hr] [ok o' H | o' H | o' H].
  - pose proof (main_step_ok ok m w p f Hr) as Hs. rewrite H in Hs. destruct o'; exact Hs.
  - destruct (thread_step_ok m w p f Hr) as [Hs _]. cbn [wantlist_processor_thread threads_at] in H. rewrite H in Hs.
    destruct Hs as (s' & -> & Hs). exact Hs.
  - destruct (thread_step_ok m w p f Hr) as [_ Hs]. cbn [peer_request_processor_thread threads_at] in H. rewrite H in Hs.
    destruct Hs as (s' & -> & Hs). exact Hs.
Qed.
Lemma threads_reach_ok s : threads_reach s -> threads_ok s.
Proof.
  induction 1 as [| s s' _ IH Hstep]; [apply (threads_ok_at CreateWantlist NotStarted NotStarted false eq_refl) |].
  exact (threads_step_ok s (Some s') IH Hstep).
Qed.

(** * Properties *)

Section Properties.
Context {PB : Protobuf} `{!ProtobufLaws PB} {VE : Libp2pVector} `{!Libp2pVectorLaws VE}.
Context {MH : Multihash} {B32 : Base32} `{!Base32Laws B32} {OS : OsUtils} `{!OsUtilsLaws OS}.
Context {DS : Datastore} `{!DatastoreLaws DS}.
Context {AD : Addrs} {SS : Sessions} {LP : Libp2p} {ST : SessionStreams LP} {PS : PeerStreams LP}.

(** C5: a question that waits on the stream of a connected peer is answered in the round in which the
    engine's thread comes to that peer. When the question is for a CID whose block the node stores, and
    nothing else is going on with the peer, the round reads it, hands it to the bitswap handler, and
    writes one message to that stream: a bitswap message that brings this block and asks for nothing.
    Nothing else of the node changes, and the thread goes on to the next peer without a pause. *)
Theorem waiting_question_answered path marshal junk t i a p ses c n m cid b h r req :
  cid_small cid -> -128 <= cid_codec cid < 128 -> cid_hash cid = Some h -> h <> [] ->
  block_wf b -> bl_cid b = Some cid -> len (block_data b) < 2 ^ 60 ->
  fs_files (w_fs (ns_world (bc_ipfsNode c))) !! hash_file path h = Some (block_wire b) ->
  bc_shutting_down c = false -> th_current t = Some i -> ps_entries (ns_store (bc_ipfsNode c)) !! i = Some a ->
  talks a p ses c -> question m cid -> waits ses (node_net c) (bitswap_header ++ message_wire m) n ->
  hands_bitswap path marshal junk a ses -> has_request a r req c -> quiet req ->
  (forall data, exists k n', stream_write ses data (stream_unlock ses n) = Some (k, n') /\ 0 < k) ->
  exists answer k n' c',
    peer_request_round path marshal t c = (Ok (busy_round i (ps_entries (ns_store (bc_ipfsNode c)))), c') /\
    stream_write ses (bitswap_header ++ message_wire answer) (stream_unlock ses n) = Some (k, n') /\
    message_wf answer /\ map block_value (message_payload answer) = [block_value b] /\ message_requests answer = [] /\
    bc_ipfsNode c' = set_net n' (bc_ipfsNode c) /\ bc_localWantlist c' = bc_localWantlist c.
Proof.
  intros Hc Hcod Hh Hne Hb Hbc Hbl Hst Hsd Hi Hl Ht Hm Hwait Hmar Hreq Hquiet Hwrite.
  destruct (question_handled path junk a r req m cid h (with_net n c) Hm Hc Hcod Hh Hne) as (they & cid' & Hhand & Hthey & Hcv & Hc');
    [destruct Hreq; split; assumption | exact Hquiet |].
  set (q1 := with_want (bc_peerRequestQueue c) r req they cid').
  assert (Hmarshal : marshal (bitswap_header ++ message_wire m) ses (with_net n c) = (Ok 1, with_queue q1 (with_net n c)))
    by (rewrite Hmar by apply bitswap_message_handled; exact Hhand).
  pose proof (check_network_handles marshal a p ses _ n c 1 _ Ht Hwait Hmarshal ltac:(lia) ltac:(destruct Ht; split; assumption)) as Hnet.
  set (c1 := with_net (stream_unlock ses (node_net (with_queue q1 (with_net n c)))) (with_queue q1 (with_net n c))) in Hnet.
  destruct Hreq as [(l & p0 & entry & Hq & Hf & He) Hpa].
  assert (Hdig : cid_digest cid' = h) by (unfold cid_value in Hcv; injection Hcv as _ _ ->; unfold cid_digest; rewrite Hh; reflexivity).
  destruct (Hwrite []) as (k0 & n0 & _). clear k0 n0.
  set (write := fun (_ : positive) d => match stream_write ses d (stream_unlock ses n) with Some (k, _) => k | None => 0 end).
  destruct (answer_message (fun _ => is_local p) (fun _ => true) (fun _ => has_address p) (fun _ => true) (fun _ => true) write
    path (ns_world (bc_ipfsNode c)) (q_cids (bc_peerRequestQueue c)) req a they cid cid' _ b h Hquiet Hthey Hc' Hcv Hdig Hne
    Hcod Hc Hb Hbc Hst Hbl Hpa) as (answer & req' & heap' & Hpure & Ha1 & Ha2 & Ha3);
    [split; [apply orb_true_iff; left; apply orb_true_r | reflexivity] |].
  set (data := bitswap_header ++ message_wire answer) in *.
  destruct (Hwrite data) as (k & n' & Hw & Hk). exists answer, k, n'.
  assert (Hproc := process_request_connected path r (set_they_want they req) a p ses c1 _ data req' heap' k n'
    (lookup_insert_eq _ _ _) Hpa (tk_heap _ _ _ _ Ht) (tk_connected _ _ _ _ Ht) (tk_session _ _ _ _ Ht) Hpure Hw).
  assert (Hent : entry_request (bc_peerRequestQueue c1) p0 = Some (entry, r, set_they_want they req)).
  { apply entry_request_inv in He as (H1 & H2 & _). apply entry_request_intro; [exact H1 | exact H2 | apply lookup_insert_eq]. }
  assert (Hfind : ipfs_bitswap_peer_request_queue_find_entry (compare_peers c1) (bc_peerRequestQueue c1)
    (queue_fuel (bc_peerRequestQueue c1)) (Some a) = Ok (Some p0)).
  { refine (eq_trans (queue_find_same (compare_peers c) (bc_peerRequestQueue c) q1 _ _ _ eq_refl _) _).
    - intros r0. cbn. destruct (decide (r0 = r)) as [-> |]; [| rewrite lookup_insert_ne by congruence; reflexivity].
      rewrite lookup_insert_eq. apply entry_request_inv in He as (_ & _ & ->). reflexivity.
    - exact (eq_trans (queue_find_list _ _ l (Some a) Hq) (f_equal Ok Hf)). }
  pose proof (check_queue_sends path a p0 r _ entry c1 _ _ Hfind Hent Hproc) as Hqueue.
  eexists. split; [exact (round_busy path marshal t i a c c1 _ _ Hsd Hi Hl Hnet Hqueue) |].
  split; [exact Hw |]. split; [exact Ha1 |]. split; [exact Ha2 |]. split; [exact Ha3 |].
  split; [cbn; destruct (bc_ipfsNode c); reflexivity | reflexivity].
Qed.

(** C36: from the head of the list, as many rounds of the engine's thread as there are peers look after each
    peer once, in order, and end at the head, with one pause behind the last when nothing was done for any of
    them and with none otherwise: the rounds are the pass over the list, failures included. This assumes that
    the list and the flag stay as they are meanwhile: no connecting, no connection error and no handler of a
    message changes either, and no other thread does. A thread that found the list empty when it started only pauses, whatever peers
    the node gets to know; and any thread leaves in the round in which it finds the engine shutting down. *)
Theorem peer_thread_passes path marshal c :
  bc_shutting_down c = false ->
  (calls_keep marshal -> ps_entries (ns_store (bc_ipfsNode c)) <> [] ->
   ipfs_bitswap_engine_peer_request_processor_start path marshal (length (ps_entries (ns_store (bc_ipfsNode c)))) c =
     (d ← visit_all path marshal (ps_entries (ns_store (bc_ipfsNode c))) false;
      mret (Some (MkPeerThread (Some 0%nat) false), if (d : bool) then 0%nat else 1%nat)) c) /\
  (ps_entries (ns_store (bc_ipfsNode c)) = [] -> forall n c', bc_shutting_down c' = false ->
   let t := MkPeerThread (head_entry (ps_entries (ns_store (bc_ipfsNode c)))) false in
   peer_request_rounds path marshal n t c' = (Ok (Some t, n), c')) /\
  (forall s q w t, let c' := MkBitswapContext s q w true in peer_request_round path marshal t c' = (Ok Leaves, c')).
Proof.
  intros Hsd. split_and!.
  - intros Hk Hne. unfold ipfs_bitswap_engine_peer_request_processor_start.
    rewrite (eng_bind_ok peer_list _ c _ c eq_refl).
    replace (head_entry (ps_entries (ns_store (bc_ipfsNode c)))) with (Some (length (@nil positive)))
      by (destruct (ps_entries _); [contradiction | reflexivity]).
    apply (rounds_pass path marshal _ [] false c (calls_visits path marshal Hk) Hsd eq_refl Hne).
  - intros -> n c' Hsd'. cbn zeta. induction n as [| n IH]; [reflexivity |]. cbn [peer_request_rounds].
    rewrite (eng_bind_ok _ _ c' (Goes (MkPeerThread (head_entry []) false) true) c').
    + rewrite (eng_bind_ok _ _ c' _ c' IH). reflexivity.
    + unfold peer_request_round. rewrite (eng_bind_ok (eng_look _) _ c' false c') by (unfold eng_look; rewrite Hsd'; reflexivity).
      reflexivity.
  - reflexivity.
Qed.
End Properties.

(** C6: with both threads created, nothing that is freed is touched, however the steps of the engine's threads
    and of starting and closing interleave; closing ends with both threads gone and everything freed, and
    while it has not ended some step can be made. Whatever is undefined comes of a thread that could not be
    created, and then closing never ends: the failure is not looked at, and a thread that is not there is
    waited for. *)
Theorem engine_threads_safe s :
  threads_reach s ->
  (threads_step s None ->
     wantlist_processor_thread s = NotStarted \/ peer_request_processor_thread s = NotStarted) /\
  (ts_main s = Closed ->
     wantlist_processor_thread s = Left /\ peer_request_processor_thread s = Left /\
     engine_live s = false /\ wantlist_live s = false /\ queue_live s = false /\ context_live s = false) /\
  (ts_main s <> Closed -> exists o, threads_step s o).
Proof.
  intros Hs. apply threads_reach_ok in Hs. split_and!.
  - intros Hu. apply (threads_step_ok s None Hs), orb_true_iff in Hu as [H | H]; [left | right];
      destruct s as [m [] [] f e wl q c]; cbn in *; congruence.
  - destruct Hs as [m w p f Hr]. cbn. intros ->. destruct w, p; try discriminate Hr. auto 10.
  - destruct Hs as [m w p f Hr]. cbn. intros Hm.
    destruct m as [| | | b | b | b | b | | | |]; try (eexists; apply (step_main _ true); reflexivity); [| | contradiction].
    + destruct w; [| eexists; apply step_wantlist; reflexivity .. |]; eexists; apply (step_main _ true); reflexivity.
    + destruct p; [| eexists; apply step_peers; reflexivity .. |]; eexists; apply (step_main _ true); reflexivity.
Qed.

(** * Concrete runs *)

#[local] Existing Instance ref_net_addrs.
#[local] Existing Instance ref_sessions.
#[local] Existing Instance sample_libp2p.
#[local] Existing Instance sample_streams.

(** QmA, at the second place, has sent a question. *)
Definition sample_question : BitswapMessage :=
  MkBitswapMessage (Some (MkBitswapWantlist (Some ([Some sample_want] : @vector list_vector _)) 1)) None None.
Lemma sample_question_wf : message_wf sample_question.
Proof.
  constructor; [constructor | constructor | | vm_compute; reflexivity].
  constructor; [discriminate | | split; [discriminate | reflexivity] | vm_compute; reflexivity].
  repeat constructor; vm_compute; discriminate.
Qed.
Definition asked : bytes := bitswap_header ++ message_wire sample_question.
#[local] Instance sample_peer_streams : PeerStreams sample_libp2p := {|
  default_stream := fun _ => true;
  stream_try_lock := fun _ n => (true, n);
  stream_unlock := fun _ n => n;
  stream_peek := fun ses n => (if (ses : Z) =? 1 then len asked else 0, n);
  stream_read := fun ses _ n => ((ses : Z) =? 1, Some asked, n);
  libp2p_peer_compare := fun a b => if bool_decide (lp_id <$> a = lp_id <$> b) then 0 else 1;
  libp2p_peer_handle_connection_error := fun _ ps n => (ps, n)
|}.
Definition asker_queue : PeerRequestQueue (VE := list_vector) (Peer := positive) :=
  MkPeerRequestQueue {[ 1%positive := MkPeerRequestEntry None (Some 1%positive) None ]}
    {[ 1%positive := MkPeerRequest (VE := list_vector) (Some 2%positive) ([] : list positive) ([] : list positive) ([] : list Block) ]}
    ∅ (Some 1%positive) (Some 1%positive).
Definition asked_context : BitswapContext (VE := list_vector) :=
  MkBitswapContext (MkNetState giving_world sample_store ∅ None MODE_ONLINE []) asker_queue
    ipfs_bitswap_wantlist_queue_new false.
Definition to_bitswap (data : bytes) (ses : Session) : eng Z := bitswap_handler (str "/store") sample_entry 2%positive data.

Lemma waiting_question_answered_witness :
  exists answer c',
    peer_request_round (str "/store") to_bitswap (MkPeerThread (Some 1%nat) false) asked_context =
      (Ok (Goes (MkPeerThread (Some 2%nat) true) false), c') /\
    map block_value (message_payload answer) = [block_value sample_block].
Proof.
  destruct (waiting_question_answered (str "/store") to_bitswap sample_entry (MkPeerThread (Some 1%nat) false) 1%nat 2%positive
    (sample_peer (str "QmA") CONNECTION_TYPE_CONNECTED false (Some 1)) 1 asked_context None sample_question sample_cid
    sample_block sample_digest 1%positive
    (MkPeerRequest (VE := list_vector) (Some 2%positive) ([] : list positive) ([] : list positive) ([] : list Block)))
    as (answer & k & n' & c' & Hround & _ & _ & Hval & _).
  - exact sample_cid_small.
  - split; vm_compute; congruence.
  - reflexivity.
  - discriminate.
  - exact sample_block_wf.
  - reflexivity.
  - reflexivity.
  - unfold giving_world. cbn [asked_context bc_ipfsNode ns_world w_fs fs_with fs_files giving_world]. apply lookup_insert_eq.
  - reflexivity.
  - reflexivity.
  - reflexivity.
  - split; reflexivity.
  - split; [exact sample_question_wf | reflexivity | eexists; split_and!; reflexivity].
  - exists None, (len asked), None. split_and!; reflexivity.
  - intros data c _. reflexivity.
  - split; [| reflexivity]. exists [1%positive], 1%positive, (MkPeerRequestEntry None (Some 1%positive) None).
    split; [eapply queue_list_one; reflexivity | split; reflexivity].
  - split; reflexivity.
  - intros data. exists 1, None. split; reflexivity.
  - exists answer, c'. split; [exact Hround | exact Hval].
Defined.
Lemma to_bitswap_keeps data ses : eng_keeps (to_bitswap data ses).
Proof.
  intros c v c' H. unfold to_bitswap, bitswap_handler in H.
  destruct (ipfs_bitswap_handle_message _ _ _ _ _ _ _ _ _ _ _) as [[[[r q] w] | | |] W]; try discriminate.
  injection H as _ <-. split; [| reflexivity]. by destruct c as [[] ? ? ?].
Qed.
(** Four peers, the second of which has sent a question; and a thread that began on an empty list. *)
Lemma peer_thread_passes_witness :
  let l := ps_entries (ns_store (bc_ipfsNode asked_context)) in
  l = [1; 2; 3; 4]%positive /\
  ipfs_bitswap_engine_peer_request_processor_start (str "/store") to_bitswap (length l) asked_context =
    (d ← visit_all (str "/store") to_bitswap l false;
     mret (Some (MkPeerThread (Some 0%nat) false), if (d : bool) then 0%nat else 1%nat)) asked_context /\
  forall n, peer_request_rounds (str "/store") to_bitswap n (MkPeerThread None false)
    asked_context = (Ok (Some (MkPeerThread None false), n), asked_context).
Proof.
  intros l. split; [reflexivity |]. split.
  - destruct (peer_thread_passes (str "/store") to_bitswap asked_context eq_refl) as (Hpass & _).
    apply Hpass; [| discriminate]. constructor; [| reflexivity | exact to_bitswap_keeps]. intros a t ps n. cbn. unfold ref_connect. by repeat case_match.
  - intros n.
    assert (Hempty : bc_shutting_down (MkBitswapContext (MkNetState giving_world (MkPeerstore ∅ []) ∅ None MODE_ONLINE []) asker_queue
      (ipfs_bitswap_wantlist_queue_new (VE := list_vector) (Peer := positive)) false) = false) by reflexivity.
    destruct (peer_thread_passes (str "/store") to_bitswap _ Hempty) as (_ & Hnone & _).
    exact (Hnone eq_refl n asked_context eq_refl).
Defined.
Lemma engine_threads_safe_witness :
  let s := MkThreads Serving AtFlag AtFlag false true true true true in
  threads_reach s /\ exists o, threads_step s o.
Proof.
  assert (Hs : threads_reach (MkThreads Serving AtFlag AtFlag false true true true true)).
  { apply (reach_step (MkThreads CreatePeers AtFlag NotStarted false true true true true)); [| apply (step_main _ true); reflexivity].
    apply (reach_step ipfs_bitswap_new); [apply reach_new | apply (step_main _ true); reflexivity]. }
  split; [exact Hs |]. apply (engine_threads_safe _ Hs). discriminate.
Defined.
