(* ===== verification/Daemon.v ===== *)
(** The life of an online node and of the daemon (src/core/ipfs_node.c, daemon.c, null.c, ping.c):
    what a node is made of and what is left when it is freed; the listening thread and the thread
    of the daemon, step by step; and pinging a peer for ever. *)

From S2P Require Import Prelude Vector Libc Protobuf Libs Storage ProtobufRef LibsRef Config Peers Resolver FsRepo OnlineRouting.

(** ** What a node is made of *)

Inductive part :=
| NodePart | RepoPart | PeerstorePart | ProviderstorePart | BlockstorePart | HandlersPart | RoutingPart
| ExchangePart | SwarmPart | DialerPart | ApiContextPart | ApiSocketPart | ApiTablePart | ApiThreadPart.
#[export] Instance part_eq_dec : EqDecision part.
Proof. solve_decision. Defined.

(** What is allocated; to release what is not is undefined. *)
Abbreviation parts := (list part).
Definition release (p : part) (l : parts) : cres unit parts :=
  if decide (p ∈ l) then Ok (base.filter (fun q => q <> p) l) else Undef.
Definition release_if (set : bool) (p : part) (l : parts) : cres unit parts :=
  if set then release p l else Ok l.

(** The pointers of [struct IpfsNode] that are looked at when it is freed: whether they are set, and of the
    context of the API whether its thread is. *)
Record IpfsNode := MkIpfsNode {
  in_mode : NodeMode;
  in_repo : bool;
  in_peerstore : bool;
  in_providerstore : bool;
  in_blockstore : bool;
  in_protocol_handlers : bool;
  in_routing : bool;
  in_exchange : bool;
  in_api_thread : option bool
}.
Definition ipfs_node_new : IpfsNode :=
  MkIpfsNode MODE_OFFLINE false false false false false false false None.

(** How far starting the API gets: without a context, without a socket, without a table of connections,
    without a thread, or all the way. [stale]: what the new context's thread is before it is set. *)
Inductive api_outcome := NoContext | NoSocket | NoTable | NoThread | Serves.
Definition api_start (o : api_outcome) (stale : bool) (l : parts) : option bool * parts :=
  match o with
  | NoContext => (None, l)
  | NoSocket | NoTable => (Some stale, ApiContextPart :: l)
  | NoThread => (Some false, ApiContextPart :: l)
  | Serves => (Some true, ApiThreadPart :: ApiTablePart :: ApiSocketPart :: ApiContextPart :: l)
  end.
(** The thread is cancelled and the table freed; the socket is shut down, not closed. *)
Definition api_stop (l : parts) : cres unit parts :=
  l ← release ApiThreadPart l; release ApiTablePart l.

Definition ipfs_node_free (n : IpfsNode) (l : parts) : cres unit parts :=
  l ← (if bool_decide (in_api_thread n = Some true) then api_stop l else Ok l);
  l ← release_if (in_exchange n) ExchangePart l;
  l ← release_if (in_providerstore n) ProviderstorePart l;
  l ← release_if (in_peerstore n) PeerstorePart l;
  l ← release_if (in_repo n) RepoPart l;
  l ← release_if (in_protocol_handlers n) HandlersPart l;
  l ← (match in_mode n with
       | MODE_ONLINE => release_if (in_routing n) RoutingPart l
       | MODE_OFFLINE | MODE_API_AVAILABLE => release_if (in_routing n) RoutingPart l
       end);
  l ← release_if (in_blockstore n) BlockstorePart l;
  release NodePart l.

(** Whether the repository's structure can be made (its allocation is kept when not), whether it opens, and
    how far the API gets. The node, if there is one. *)
Definition filled_node (l : parts) : parts :=
  DialerPart :: SwarmPart :: ExchangePart :: RoutingPart :: HandlersPart :: BlockstorePart ::
  ProviderstorePart :: PeerstorePart :: l.
Definition ipfs_node_online_new (made opened : bool) (o : api_outcome) (stale : bool) (l : parts)
  : cres unit (option IpfsNode * parts) :=
  let l := RepoPart :: NodePart :: l in
  if negb made || negb opened then l ← ipfs_node_free ipfs_node_new l; Ok (None, l)
  else
    let '(thread, l) := api_start o stale (filled_node l) in
    Ok (Some (MkIpfsNode MODE_ONLINE true true true true true true true thread), l).
(** [running]: whether another node's API answers. *)
Definition ipfs_node_offline_new (made opened running : bool) (l : parts) : cres unit (option IpfsNode * parts) :=
  let l := RepoPart :: NodePart :: l in
  if negb made || negb opened then l ← ipfs_node_free ipfs_node_new l; Ok (None, l)
  else Ok (Some (MkIpfsNode (if running then MODE_API_AVAILABLE else MODE_OFFLINE)
                   true true true true true true true None), filled_node l).

(** The handlers in the order in which a message is offered to them. *)
Inductive handler := Secio | Journal | Kademlia | Bitswap | Multistream | Yamux | Identify.
Definition ipfs_node_online_build_protocol_handlers : list handler :=
  [Secio; Journal; Kademlia; Bitswap; Multistream; Yamux; Identify].
(** A node that is made and freed. *)
Definition free_node (made : cres unit (option IpfsNode * parts)) : cres unit parts :=
  node ← made;
  match node with
  | (Some n, l) => ipfs_node_free n l
  | (None, l) => Ok l
  end.

(** What is left of a node that was made and freed: the swarm and the dialer, the API's context and its
    socket; of one that could not be made, its repository. With the API's context and without its socket or
    table, a thread that was never set is cancelled. *)
Lemma online_node_left made opened o stale :
  free_node (ipfs_node_online_new made opened o stale []) =
  if made && opened then
    match o with
    | NoContext => Ok [DialerPart; SwarmPart]
    | NoSocket | NoTable => if stale then Undef else Ok [ApiContextPart; DialerPart; SwarmPart]
    | NoThread => Ok [ApiContextPart; DialerPart; SwarmPart]
    | Serves => Ok [ApiSocketPart; ApiContextPart; DialerPart; SwarmPart]
    end
  else Ok [RepoPart].
Proof. destruct made, opened, o, stale; reflexivity. Qed.
Lemma offline_node_left made opened running :
  free_node (ipfs_node_offline_new made opened running []) =
  Ok (if made && opened then [DialerPart; SwarmPart] else [RepoPart]).
Proof. destruct made, opened, running; reflexivity. Qed.

(** ** The listening thread and the daemon *)

Definition CONNECTIONS : Z := 50.

(** Where the two threads are. *)
Inductive daemon_at := MakeNode | MakeListener | Bootstrapping | Joining | CleanUp | Ended.
Inductive listener_at := NotMade | ResetFlag | OpenSocket | Listening | Gone.
Record Daemon := MkDaemon {
  dm_main : daemon_at;
  dm_listener : listener_at;
  null_shutting_down : bool;
  dm_node : bool;
  dm_count : Z;
  dm_swarm : list Z;
  dm_refused : list Z;
  dm_retVal : Z
}.
Definition ipfs_daemon_start : Daemon := MkDaemon MakeNode NotMade false false 0 [] [] 0.
Definition at_main (m : daemon_at) (d : Daemon) : Daemon :=
  MkDaemon m (dm_listener d) (null_shutting_down d) (dm_node d) (dm_count d) (dm_swarm d) (dm_refused d) (dm_retVal d).
Definition at_listener (l : listener_at) (d : Daemon) : Daemon :=
  MkDaemon (dm_main d) l (null_shutting_down d) (dm_node d) (dm_count d) (dm_swarm d) (dm_refused d) (dm_retVal d).
Definition set_flag (b : bool) (d : Daemon) : Daemon :=
  MkDaemon (dm_main d) (dm_listener d) b (dm_node d) (dm_count d) (dm_swarm d) (dm_refused d) (dm_retVal d).
Definition with_live (b : bool) (d : Daemon) : Daemon :=
  MkDaemon (dm_main d) (dm_listener d) (null_shutting_down d) b (dm_count d) (dm_swarm d) (dm_refused d) (dm_retVal d).
Definition with_retVal (r : Z) (d : Daemon) : Daemon :=
  MkDaemon (dm_main d) (dm_listener d) (null_shutting_down d) (dm_node d) (dm_count d) (dm_swarm d) (dm_refused d) r.
Definition libp2p_swarm_add_connection (s : Z) (d : Daemon) : Daemon :=
  MkDaemon (dm_main d) (dm_listener d) (null_shutting_down d) (dm_node d) (dm_count d) (dm_swarm d ++ [s]) (dm_refused d) (dm_retVal d).
Definition refuse (s : Z) (d : Daemon) : Daemon :=
  MkDaemon (dm_main d) (dm_listener d) (null_shutting_down d) (dm_node d) (dm_count d) (dm_swarm d) (dm_refused d ++ [s]) (dm_retVal d).

(** The next step of the daemon; [ok]: whether the node or the thread is made. [None]: it waits. The
    inner [None]: the node is used, and is not there. *)
Definition daemon_step (ok : bool) (d : Daemon) : option (option Daemon) :=
  match dm_main d with
  | MakeNode => Some (Some (if ok then at_main MakeListener (with_live true d) else at_main CleanUp d))
  | MakeListener => Some (Some (if ok then at_main Bootstrapping (at_listener ResetFlag d) else at_main CleanUp d))
  | Bootstrapping => Some (if dm_node d then Some (at_main Joining d) else None)
  | Joining => match dm_listener d with Gone => Some (Some (at_main CleanUp (with_retVal 1 d))) | _ => None end
  | CleanUp => Some (Some (at_main Ended (with_live false d)))
  | Ended => None
  end.
(** The next step of [ipfs_null_listen]; [ok]: whether the socket opens; [s]: a connection that comes
    within two seconds. Without one the thread moves along the entries of the peer store, of which
    it makes no use. *)
Definition ipfs_null_listen (ok : bool) (s : option Z) (d : Daemon) : option (option Daemon) :=
  match dm_listener d with
  | NotMade | Gone => None
  | ResetFlag => Some (Some (at_listener OpenSocket (set_flag false d)))
  | OpenSocket =>
      Some (if ok then if dm_node d then Some (at_listener Listening d) else None else Some (at_listener Gone d))
  | Listening =>
      Some (if negb (dm_node d) then None
            else if null_shutting_down d then Some (at_listener Gone d)
            else match s with
                 | Some s => Some (if CONNECTIONS <=? dm_count d then refuse s d else libp2p_swarm_add_connection s d)
                 | None => Some d
                 end)
  end.
Definition ipfs_null_shutdown (d : Daemon) : Daemon := set_flag true d.
Definition ipfs_daemon_stop (d : Daemon) : Daemon := ipfs_null_shutdown d.

(** [directory]: whether there is a repository. [None]: the daemon is not started, which is a 0. *)
Definition ipfs_daemon (directory : bool) : option Daemon := if directory then Some ipfs_daemon_start else None.

(** Steps interleave; a stop may be requested at any time by another thread. *)
Inductive quiet_step (d : Daemon) : option Daemon -> Prop :=
| step_daemon ok o : daemon_step ok d = Some o -> quiet_step d o
| step_listener ok s o : ipfs_null_listen ok s d = Some o -> quiet_step d o.
Inductive daemon_reach : nat -> Daemon -> Prop :=
| reach_start : daemon_reach 0 ipfs_daemon_start
| reach_quiet n d d' : daemon_reach n d -> quiet_step d (Some d') -> daemon_reach n d'
| reach_stop n d : daemon_reach n d -> daemon_reach (S n) (ipfs_daemon_stop d).

(** What holds wherever the two threads are. *)
Definition daemon_ok (d : Daemon) : Prop :=
  dm_count d = 0 /\ dm_refused d = [] /\
  match dm_main d, dm_listener d with
  | MakeNode, NotMade => dm_node d = false /\ dm_retVal d = 0
  | MakeListener, NotMade => dm_node d = true /\ dm_retVal d = 0
  | (Bootstrapping | Joining), NotMade => False
  | (Bootstrapping | Joining), _ => dm_node d = true /\ dm_retVal d = 0
  | CleanUp, NotMade => dm_retVal d = 0
  | CleanUp, Gone => dm_node d = true /\ dm_retVal d = 1
  | Ended, NotMade => dm_node d = false /\ dm_retVal d = 0
  | Ended, Gone => dm_node d = false /\ dm_retVal d = 1
  | _, _ => False
  end.

Lemma quiet_step_ok d o : daemon_ok d -> quiet_step d o -> exists d', o = Some d' /\ daemon_ok d'.
Proof.
  destruct d as [m l flag node count swarm refused r]. intros (Hc & Hr & H) Hs. cbn in Hc, Hr. subst count refused.
  inversion Hs as [ok o' E | ok s o' E]; subst; clear Hs.
  - destruct m, l; cbn in H, E; try contradiction; try discriminate; destruct ok;
      repeat match goal with [ H : _ /\ _ |- _ ] => destruct H end; subst; cbn in E; simplify_eq;
      (eexists; split; [reflexivity | by repeat split]).
  - destruct m, l; cbn in H, E; try contradiction; try discriminate; destruct ok, flag, s;
      repeat match goal with [ H : _ /\ _ |- _ ] => destruct H end; subst; cbn in E; simplify_eq;
      (eexists; split; [reflexivity | by repeat split]).
Qed.
Lemma daemon_reach_ok n d : daemon_reach n d -> daemon_ok d.
Proof.
  induction 1 as [| n d d' _ IH Hs | n d _ IH]; [by repeat split | | exact IH].
  destruct (quiet_step_ok _ _ IH Hs) as (? & ? & ?). by simplify_eq.
Qed.

(** A stop that comes after the listener has reset the flag. *)
Definition stop_heard (d : Daemon) : Prop :=
  null_shutting_down d = true /\ match dm_listener d with NotMade | ResetFlag => False | _ => True end.
(** How many steps are left then. *)
Definition steps_left (d : Daemon) : nat :=
  match dm_main d with
  | MakeNode => 5 | MakeListener => 4 | Bootstrapping => 3 | Joining => 2 | CleanUp => 1 | Ended => 0
  end +
  match dm_listener d with NotMade => 4 | ResetFlag => 3 | OpenSocket => 2 | Listening => 1 | Gone => 0 end.
Definition quiet_run (k : nat) (d d' : Daemon) : Prop := relations.nsteps (fun d d' => quiet_step d (Some d')) k d d'.

Lemma stop_heard_step d d' :
  daemon_ok d -> stop_heard d -> quiet_step d (Some d') -> stop_heard d' /\ (steps_left d' < steps_left d)%nat.
Proof.
  destruct d as [m l flag node count swarm refused r]. intros (_ & _ & H) [Hf Hl] Hs. cbn in H, Hf, Hl. subst flag.
  inversion Hs as [ok o' E | ok s o' E]; subst; clear Hs; destruct m, l; try contradiction; destruct ok;
    cbn in E; try destruct node; cbn in E; simplify_eq; (split; [by split | cbn; lia]).
Qed.
Lemma stop_heard_run k d d' :
  daemon_ok d -> stop_heard d -> quiet_run k d d' -> daemon_ok d' /\ (steps_left d' + k <= steps_left d)%nat.
Proof.
  intros Hok Hd Hr. induction Hr as [d | k d1 d2 d3 H12 _ IH]; [split; [exact Hok | lia] |].
  destruct (stop_heard_step _ _ Hok Hd H12) as [H2 Hlt].
  destruct (quiet_step_ok _ _ Hok H12) as (? & ? & Hok2). simplify_eq.
  destruct (IH Hok2 H2) as [H3 Hle]. split; [exact H3 | lia].
Qed.
Lemma steps_ended d : daemon_ok d -> dm_main d = Ended \/ exists o, quiet_step d o.
Proof.
  intros (_ & _ & H). destruct d as [m l flag node count swarm refused r]. cbn in H |- *.
  destruct m; [right | right | right | | right | left; reflexivity];
    try (eexists; eapply (step_daemon _ true); reflexivity).
  right. destruct l; [contradiction | | | | ]; first
    [eexists; eapply (step_daemon _ true); reflexivity | eexists; eapply (step_listener _ true None); reflexivity].
Qed.

(** A stop that comes before: the listener listens with the flag down, for ever. *)
Lemma listens_for_ever k d d' :
  dm_main d = Joining -> dm_listener d = Listening -> null_shutting_down d = false -> quiet_run k d d' ->
  dm_main d' = Joining /\ dm_listener d' = Listening.
Proof.
  intros Hm Hl Hf Hr. revert Hm Hl Hf. induction Hr as [d | k d1 d2 d3 H12 _ IH]; [by split |].
  intros Hm Hl Hf. destruct d1 as [m l flag node count swarm refused r]. cbn in Hm, Hl, Hf. subst m l flag.
  inversion H12 as [ok o' E | ok s o' E]; subst; cbn in E; [discriminate |].
  destruct node, s; cbn in E; try case_match; simplify_eq; by apply IH.
Qed.
Definition deaf : Daemon := MkDaemon Joining Listening false true 0 [] [] 0.
Lemma joining_reach : daemon_reach 0 (MkDaemon Joining ResetFlag false true 0 [] [] 0).
Proof.
  apply (reach_quiet 0 (MkDaemon Bootstrapping ResetFlag false true 0 [] [] 0));
    [| by apply (step_daemon _ true)].
  apply (reach_quiet 0 (MkDaemon MakeListener NotMade false true 0 [] [] 0)); [| by apply (step_daemon _ true)].
  apply (reach_quiet 0 ipfs_daemon_start); [apply reach_start | by apply (step_daemon _ true)].
Qed.
Lemma listening_reach n flag :
  daemon_reach n (MkDaemon Joining ResetFlag flag true 0 [] [] 0) -> daemon_reach n deaf.
Proof.
  intros H. apply (reach_quiet n (MkDaemon Joining OpenSocket false true 0 [] [] 0));
    [| by apply (step_listener _ true None)].
  by apply (reach_quiet n _ _ H), (step_listener _ true None).
Qed.
Lemma stop_lost : daemon_reach 1 deaf.
Proof. exact (listening_reach _ _ (reach_stop _ _ joining_reach)). Qed.

(** C8: In every interleaving of the daemon's two threads with requests to stop, the node is used only while
    it exists, no connection is ever counted or refused (the limit of 50 is never reached), and when the
    daemon has ended the node is freed and the listening thread, if it was made, is gone, the result being 1
    exactly then. A stop that is requested once the listening thread has reset the flag ends the daemon:
    every run from there has at most five more steps and ends only when the daemon has. A stop requested
    before that is lost: the daemon can be reached listening for ever. *)
Theorem daemon_stops n d :
  daemon_reach n d ->
  ~ quiet_step d None /\
  (dm_count d = 0 /\ dm_refused d = []) /\
  (dm_main d = Ended ->
     dm_node d = false /\ (dm_listener d = NotMade /\ dm_retVal d = 0 \/ dm_listener d = Gone /\ dm_retVal d = 1)) /\
  (stop_heard d ->
     forall k d', quiet_run k d d' ->
       (k <= 5)%nat /\ (dm_main d' = Ended \/ exists d'', quiet_step d' (Some d''))) /\
  exists lost, daemon_reach 1 lost /\
     forall k d', quiet_run k lost d' -> dm_main d' = Joining /\ dm_listener d' = Listening.
Proof.
  intros Hr. pose proof (daemon_reach_ok _ _ Hr) as Hok. split_and!.
  - intros Hs. destruct (quiet_step_ok _ _ Hok Hs) as (? & ? & _). discriminate.
  - by destruct Hok.
  - by destruct Hok as (_ & Hc & _).
  - intros He. destruct Hok as (_ & _ & H). rewrite He in H. destruct (dm_listener d); try contradiction; tauto.
  - intros Hh k d' Hrun. destruct (stop_heard_run _ _ _ Hok Hh Hrun) as [Hok' Hk]. split.
    + destruct Hh as [_ Hl], Hok as (_ & _ & H). unfold steps_left in Hk at 2.
      destruct (dm_main d), (dm_listener d); try contradiction; lia.
    + destruct (steps_ended _ Hok') as [| [o Ho]]; [by left | right].
      destruct (quiet_step_ok _ _ Hok' Ho) as (d'' & -> & _). by exists d''.
  - exists deaf. split; [exact stop_lost |]. intros k d'. by apply listens_for_ever.
Qed.
Lemma daemon_stops_witness :
  daemon_reach 1 (ipfs_daemon_stop deaf) /\ stop_heard (ipfs_daemon_stop deaf) /\
  ~ quiet_step (ipfs_daemon_stop deaf) None.
Proof.
  assert (H : daemon_reach 1 (ipfs_daemon_stop deaf))
    by (apply (reach_stop 0); exact (listening_reach _ _ joining_reach)).
  split; [exact H |]. split; [by split |]. apply (daemon_stops 1 _ H).
Defined.

(** ** A connection's thread (it is made by no code) *)

Section Connection.
(** The library offers a message to the handlers; below zero is an error. *)
Context (libp2p_protocol_marshal : bytes -> Z).

(** [None]: reading fails; [Some None]: nothing came. *)
Definition ipfs_null_listen_and_handle (read : option (option bytes)) : Z :=
  match read with
  | None => 0
  | Some None => 0
  | Some (Some results) => libp2p_protocol_marshal results
  end.
(** The loop over what the reads bring: the counter when it is left; [None]: it still reads. *)
Fixpoint ipfs_null_connection (reads : list (option (option bytes))) (count : Z) : option Z :=
  match reads with
  | [] => None
  | read :: reads =>
      if ipfs_null_listen_and_handle read <? 0 then Some (count - 1) else ipfs_null_connection reads count
  end.
(** A connection that was closed is read for ever. *)
Lemma closed_connection_read reads count :
  Forall (fun read => read = None) reads -> ipfs_null_connection reads count = None.
Proof. induction 1 as [| read reads -> _ IH]; [reflexivity | exact IH]. Qed.
Lemma connection_left reads count r :
  ipfs_null_connection reads count = Some r <->
  r = count - 1 /\ exists m, Some (Some m) ∈ reads /\ libp2p_protocol_marshal m < 0.
Proof.
  induction reads as [| read reads IH]; cbn.
  - split; [discriminate | intros (_ & m & Hm & _); by apply not_elem_of_nil in Hm].
  - destruct (Z.ltb_spec (ipfs_null_listen_and_handle read) 0) as [Hlt | Hge].
    + destruct read as [[m |] |]; cbn in Hlt; [| lia | lia]. split; [intros [= <-] | intros [-> _]; reflexivity].
      split; [reflexivity |]. exists m. split; [apply list_elem_of_here | exact Hlt].
    + rewrite IH. split; intros (-> & m & Hm & Hlt); (split; [reflexivity |]); exists m; split; try exact Hlt.
      * by apply list_elem_of_further.
      * apply elem_of_cons in Hm as [<- | Hm]; [cbn in Hge; lia | exact Hm].
Qed.
End Connection.

(** ** Pinging a peer *)

Section Pinging.
Context {PB : Protobuf} {MH : Multihash} {SH : Sha256} {B32 : Base32} {B58 : Base58}.
Context {OS : OsUtils} {DS : Datastore} {AD : Addrs} {SS : Sessions} {LP : Libp2p}.

(** The router is made, and bootstraps, while the peer store is NULL and the dialer is not set: neither may
    be used. *)
Definition bootstrap_unset (bootstrap_peers : list MultiAddress) : cres unit () :=
  if existsb (fun a => bool_decide (is_Some (multiaddress_get_peer_id a))) bootstrap_peers then Undef else Ok ().
(** The dialer is not set later either. *)
Definition ping_unset (peer : positive) : netio unit :=
  p ← peer_at peer;
  if connected p then ipfs_routing_online_ping peer else net_undef.
(** A peer of its own, beside the peer store. *)
Definition net_alloc (p : Libp2pPeer) : netio positive := fun s =>
  let ps := ns_store s in
  let a := fresh (dom (ps_heap ps)) in
  (Ok a, set_store (MkPeerstore (<[a := p]> (ps_heap ps)) (ps_entries ps)) s).
Definition ping_found (p : found_peer) : netio positive :=
  match p with
  | Stored a => mret a
  | Told p => net_alloc p
  end.
(** The turns of the loop that is left only by a failure. *)
Fixpoint ping_loop (fuel : nat) (peer : positive) : netio Z :=
  match fuel with
  | O => net_lift NoFuel
  | S fuel =>
      r ← net_try (ping_unset peer);
      match r with
      | None => mret 0
      | Some _ => ping_loop fuel peer
      end
  end.
Definition ping_address (host port : bytes) : bytes := str "/ip4/" ++ host ++ str "/tcp/" ++ port.
Definition ping_peer (local : Libp2pPeer) (routing : IpfsRouting) (argv : list bytes)
  : netio (option positive) :=
  match argv !! 2%nat with
  | None => net_undef
  | Some who =>
      if decide (strstr who (str "Qm") = Some O) then
        found ← ipfs_resolver_find_peer routing (lp_id local) who;
        match found with
        | Some p => a ← ping_found p; mret (Some a)
        | None => mret None
        end
      else
        match argv !! 3%nat with
        | None => net_undef
        | Some port =>
            let text := ping_address who port in
            a ← net_alloc (set_addrs [multiaddress_new_from_string text] (set_id text libp2p_peer_new));
            mret (Some a)
        end
  end.
(** [directory]: whether there is a repository; [opened]: its configuration's bootstrap peers. *)
Definition ipfs_ping (fuel : nat) (directory : bool) (opened : option (list MultiAddress)) (local : Libp2pPeer)
  (routing : IpfsRouting) (argv : list bytes) : netio Z :=
  if (length argv <? 3)%nat then mret 0
  else if negb directory then mret 0
  else
    match opened with
    | None => mret 0
    | Some bootstrap_peers =>
        net_lift (bootstrap_unset bootstrap_peers) ≫= fun _ =>
        started ← net_try (Bootstrap routing);
        match started with
        | None => mret 0
        | Some _ =>
            peer ← ping_peer local routing argv;
            match peer with
            | None => mret 0
            | Some a => ping_loop fuel a
            end
        end
    end.

Lemma ping_loop_zero fuel a s r s' : ping_loop fuel a s = (Ok r, s') -> r = 0.
Proof.
  revert s. induction fuel as [| fuel IH]; intros s; [discriminate |]. cbn. unfold mbind, netio_bind.
  destruct (net_try (ping_unset a) s) as [[[u |] | | |] s1]; [apply IH | by intros [= <- _] | discriminate ..].
Qed.
(** Nothing is a success; and a peer that is not connected already is never asked. *)
Lemma ping_never_succeeds fuel directory opened local routing argv s r s' :
  ipfs_ping fuel directory opened local routing argv s = (Ok r, s') -> r = 0.
Proof.
  unfold ipfs_ping. destruct (length argv <? 3)%nat; [by intros [= <- _] |].
  destruct directory, opened as [peers |]; cbn [negb]; [| by intros [= <- _] ..].
  unfold mbind, netio_bind, net_lift. destruct (bootstrap_unset peers) as [[] | | |]; [| discriminate ..].
  destruct (net_try (Bootstrap routing) s) as [[[u |] | | |] s1]; [| by intros [= <- _] | discriminate ..].
  destruct (ping_peer _ _ _ s1) as [[[a |] | | |] s2]; [| by intros [= <- _] | discriminate ..].
  apply ping_loop_zero.
Qed.
Lemma ping_unconnected a p fuel s :
  ps_heap (ns_store s) !! a = Some p -> connected p = false ->
  ping_loop (S fuel) a s = (Undef, s).
Proof.
  intros Ha Hp. cbn. unfold mbind, netio_bind, net_try, ping_unset, mbind, netio_bind, peer_at.
  rewrite Ha, Hp. reflexivity.
Qed.
End Pinging.

(** ** src/core/net.c: nothing is accepted, listened to or dialled *)

Definition ipfs_core_net_accept : Z := 0.
Definition ipfs_core_net_listen : Z := 0.
Definition ipsf_core_net_dial (peer : option positive) : Z := 0.
