(* ===== verification/Http.v ===== *)
(** Requests to the API: their form as a URL, and what the node does with them
    (src/core/http_request.c), with the commands of the client that make them
    (src/namesys/name.c, src/core/swarm.c). *)

From S2P Require Import Prelude Libc Vector Protobuf Libs Storage ProtobufRef LibsRef.
From S2P Require Import Cid UnixFS MerkleNode Block Blockstore Merkledag Routing Exporter Namesys.

(** ** Structures *)

Record HttpParam := MkHttpParam { hp_name : option bytes; hp_value : option bytes }.

Section Http.
Context {VE : Libp2pVector}.

Record HttpRequest := MkHttpRequest {
  hr_command : option bytes;
  hr_sub_command : option bytes;
  hr_params : vector HttpParam;
  hr_arguments : vector bytes
}.
(** [hs_bytes]: what is known of the block of [hs_bytes_size] bytes. *)
Record HttpResponse := MkHttpResponse {
  hs_content_type : option bytes;
  hs_bytes : option bytes;
  hs_bytes_size : Z
}.

Definition ipfs_core_http_request_new : HttpRequest :=
  MkHttpRequest None None (libp2p_utils_vector_new HttpParam 1) (libp2p_utils_vector_new bytes 1).
Definition ipfs_core_http_response_new : HttpResponse := MkHttpResponse None None 0.
Definition ipfs_core_http_param_new : HttpParam := MkHttpParam None None.

(** A string that is written to a block of [size] bytes with its terminator. *)
Definition write_block {E} (size : Z) (s : bytes) : cres E bytes :=
  if size <? len s + 1 then Undef else Ok s.

(** ** The client: the URL of a request *)

(** The host and the port of the API's address in the configuration; [None] when it is
    not parsed or has no host. *)
Definition ipfs_core_http_request_build_url_start (address : option (bytes * Z)) : cres unit bytes :=
  match address with
  | None => Err ()
  | Some (host, portInt) =>
      port ← write_block 10 (int_decimal portInt);
      write_block (18 + len host + len port) (str "http://" ++ host ++ str ":" ++ port ++ str "/api/v0")
  end.

Definition ipfs_core_http_request_add_commands (request : HttpRequest) (url : bytes) : cres unit bytes :=
  match hr_command request with
  | None => Undef
  | Some command =>
      url ← write_block (len url + (len command + 2)) (url ++ str "/" ++ command);
      match hr_sub_command request with
      | None => Ok url
      | Some sub_command =>
          write_block (len url + (len sub_command + 2)) (url ++ str "/" ++ sub_command)
      end
  end.

(** The block for a parameter has no room for the terminator; [isFirst] is never
    cleared. *)
Definition add_parameter (curr_param : HttpParam) (url : bytes) : cres unit bytes :=
  match curr_param with
  | MkHttpParam (Some name) (Some value) =>
      write_block (len url + (len name + len value + 2)) (url ++ str "/" ++ name ++ str "=" ++ value)
  | _ => Undef
  end.
Definition add_argument (arg url : bytes) : cres unit bytes :=
  write_block (len arg + len url + 6) (url ++ str "?arg=" ++ arg).
Definition ipfs_core_http_request_add_parameters (request : HttpRequest) (url : bytes)
  : cres unit bytes :=
  url ← vector_loop add_parameter (hr_params request) url;
  vector_loop add_argument (hr_arguments request) url.

(** What libcurl gets: the URL and the data of a post, [None] for a get. It hands the
    answer over in pieces; [None]: not [CURLE_OK]. *)
Context (curl_easy_perform : bytes -> option bytes -> option (list bytes)).
Definition curl_cb (s : bytes) (data : bytes) : bytes := s ++ data.

Definition request_url (address : option (bytes * Z)) (request : HttpRequest) : cres unit bytes :=
  url ← ipfs_core_http_request_build_url_start address;
  url ← ipfs_core_http_request_add_commands request url;
  ipfs_core_http_request_add_parameters request url.
Definition perform (url : bytes) (data : option bytes) : cres unit bytes :=
  match curl_easy_perform url data with
  | None => Err ()
  | Some pieces =>
      let s := foldl curl_cb [] pieces in
      if str_eq (c_str s) (str "404 page not found") then Err () else Ok s
  end.
Definition ipfs_core_http_request_get (address : option (bytes * Z)) (request : HttpRequest)
  : cres unit bytes :=
  match hr_command request with
  | None => Err ()
  | Some _ => url ← request_url address request; perform url None
  end.
Definition ipfs_core_http_request_post (address : option (bytes * Z)) (request : HttpRequest)
  (data : option bytes) : cres unit bytes :=
  match hr_command request, data with
  | Some _, Some data => url ← request_url address request; perform url (Some data)
  | _, _ => Err ()
  end.

(** The requests of the commands [name publish], [name resolve] and [swarm connect]. *)
Definition client_request (command sub_command arg : bytes) : HttpRequest :=
  MkHttpRequest (Some command) (Some sub_command) (libp2p_utils_vector_new HttpParam 1)
    (libp2p_utils_vector_add (libp2p_utils_vector_new bytes 1) arg).
Definition ipfs_name_publish (address : option (bytes * Z)) (name : bytes) : cres unit bytes :=
  ipfs_core_http_request_post address (client_request (str "name") (str "publish") name) (Some []).
Definition ipfs_name_resolve (address : option (bytes * Z)) (name : bytes) : cres unit bytes :=
  let name := if starts_with (str "/ipns/") name then name else str "/ipns/" ++ name in
  ipfs_core_http_request_post address (client_request (str "name") (str "resolve") name) (Some []).
Definition ipfs_swarm_connect (address : option (bytes * Z)) (peer : bytes) : cres unit bytes :=
  ipfs_core_http_request_get address (client_request (str "swarm") (str "connect") peer).
End Http.

(** ** The node: what a request does *)

Section Process.
Context {VE : Libp2pVector} {MH : Multihash} {B58 : Base58} {PB : Protobuf}.
Context {DS : Datastore} {RT : Routing}.

(** The text of the local peer's id; the depth of the calls of [cat] and the memory a
    stream in memory may take. *)
Context (id : bytes) (cat_fuel : nat) (mem_room : Z).

Definition json_response (s : bytes) (size : Z) : HttpResponse :=
  MkHttpResponse (Some (str "application/json")) (Some s) size.

(** The comparison of the missing sub command is one with NULL. *)
Definition sub_command_is {E} (request : HttpRequest) (s : bytes) : cres E bool :=
  match hr_sub_command request with
  | None => Undef
  | Some sub => Ok (str_eq sub s)
  end.

(** The block of the answer is measured by the path asked for and not by the one found. *)
Definition ipfs_core_http_process_name (request : HttpRequest) : io unit HttpResponse :=
  match libp2p_utils_vector_get (hr_arguments request) 0 with
  | None => fail ()
  | Some path =>
      resolve ← lift (sub_command_is request (str "resolve"));
      publish ← lift (sub_command_is request (str "publish"));
      let size := len id + len path + 30 in
      if (resolve : bool) then
        result ← ipfs_namesys_resolver_resolve path true;
        text ← lift (write_block size (str "{ " ++ quoted (str "Path") ++ str ": " ++ quoted result ++ str " }"));
        mret (json_response text (len text))
      else if (publish : bool) then
        _ ← ipfs_namesys_publisher_publish id path;
        text ← lift (write_block size
                 (str "{ " ++ quoted (str "Name") ++ str ": " ++ quoted id ++ [byte_of 10]
                  ++ str " " ++ quoted (str "Value") ++ str ": " ++ quoted path ++ str " }"));
        mret (json_response text (len text))
      else fail ()
  end.

Definition ipfs_core_http_process_object (request : HttpRequest) : io unit HttpResponse :=
  get ← lift (sub_command_is request (str "get"));
  if (get : bool) && (vector_total (hr_arguments request) =? 1) then
    match libp2p_utils_vector_get (hr_arguments request) 0 with
    | None => lift Undef
    | Some hash =>
        cid ← lift (ipfs_cid_decode_hash_from_base58 hash (len hash));
        written ← attempt (ipfs_exporter_object_cat_to_file cat_fuel (cid_hash cid)
                             (cid_hash_length cid) (MkStream [] mem_room));
        match written with
        | inl s => mret (json_response (st_data s) (len (st_data s)))
        | inr _ => fail ()
        end
    end
  else fail ().

(** A hash that is not decoded leaves the local CID as it was, and it is freed. *)
Definition decode_argument (hash : bytes) : cres unit Cid :=
  match ipfs_cid_decode_hash_from_base58 hash (len hash) with
  | Err _ => Undef
  | r => r
  end.

(** The arguments that could not be announced. *)
Fixpoint provide_from (fuel : nat) (args : vector bytes) (i failedCount : Z) : io unit Z :=
  match fuel with
  | O => lift NoFuel
  | S fuel =>
      if i <? vector_total args then
        match libp2p_utils_vector_get args i with
        | None => lift Undef
        | Some hash =>
            cid ← lift (decode_argument hash);
            provided ← attempt (rt_Provide (cid_hash cid) (cid_hash_length cid));
            provide_from fuel args (i + 1)
              (match (provided : () + ()) with inl _ => failedCount | inr _ => failedCount + 1 end)
        end
      else mret failedCount
  end.

(** The two texts differ in their commas. *)
Definition nl : bytes := [byte_of 10].
Definition tab : bytes := [byte_of 9].
Definition provide_text (comma : bytes) : bytes :=
  str "{" ++ nl ++ tab ++ quoted (str "ID") ++ str ": " ++ quoted (str "<string>") ++ comma ++ nl
  ++ tab ++ quoted (str "Type") ++ str ": " ++ quoted (str "<int>") ++ comma ++ nl
  ++ tab ++ quoted (str "Responses") ++ str ": [" ++ nl
  ++ tab ++ tab ++ str "{" ++ nl
  ++ tab ++ tab ++ tab ++ quoted (str "ID") ++ str ": " ++ quoted (str "<string>") ++ comma ++ nl
  ++ tab ++ tab ++ tab ++ quoted (str "Addrs") ++ str ": [" ++ nl
  ++ tab ++ tab ++ tab ++ tab ++ quoted (str "<object>") ++ nl
  ++ tab ++ tab ++ tab ++ str "]" ++ nl
  ++ tab ++ tab ++ str "}" ++ nl
  ++ tab ++ str "]" ++ comma ++ nl
  ++ tab ++ quoted (str "Extra") ++ str ": " ++ quoted (str "<string>") ++ nl
  ++ str "}" ++ nl.
Definition ipfs_core_http_process_dht_provide (request : HttpRequest) : io unit HttpResponse :=
  let args := hr_arguments request in
  failedCount ← provide_from (S (Z.to_nat (vector_total args))) args 0 0;
  if failedCount <? vector_total args then
    let text := provide_text (if failedCount =? 0 then [] else str ",") in
    mret (json_response text (len text))
  else fail ().

(** There is one argument. *)
Definition ipfs_core_http_process_dht_get (request : HttpRequest) : io unit HttpResponse :=
  if negb (vector_total (hr_arguments request) =? 1) then fail ()
  else
    match libp2p_utils_vector_get (hr_arguments request) 0 with
    | None => lift Undef
    | Some hash =>
        cid ← lift (decode_argument hash);
        value ← rt_GetValue (cid_hash cid) (cid_hash_length cid);
        mret (MkHttpResponse (Some (str "application/octet-stream")) (Some value) (len value))
    end.
Definition ipfs_core_http_process_dht (request : HttpRequest) : io unit HttpResponse :=
  provide ← lift (sub_command_is request (str "provide"));
  get ← lift (sub_command_is request (str "get"));
  if (provide : bool) then ipfs_core_http_process_dht_provide request
  else if (get : bool) then ipfs_core_http_process_dht_get request
  else fail ().

(** Connecting to the peer at an address; [None]: it is no address. *)
Context (libp2p_peer_connect : bytes -> option bool).

(** The size counts the characters of the format: three bytes behind the text are sent,
    two of which were never written. *)
Definition ipfs_core_http_process_swarm_connect (request : HttpRequest) : io unit HttpResponse :=
  match libp2p_utils_vector_get (hr_arguments request) 0 with
  | None => fail ()
  | Some address =>
      match libp2p_peer_connect address with
      | Some true =>
          let text := str "{ " ++ quoted (str "Strings") ++ str ": [ " ++ quoted address ++ str "] }" in
          mret (MkHttpResponse (Some (str "application/json")) (Some (text ++ [x00])) (len text + 3))
      | _ => fail ()
      end
  end.
Definition ipfs_core_http_process_swarm (request : HttpRequest) : io unit HttpResponse :=
  connect ← lift (sub_command_is request (str "connect"));
  if (connect : bool) then ipfs_core_http_process_swarm_connect request else fail ().

Definition ipfs_core_http_request_process (request : HttpRequest) : io unit HttpResponse :=
  match hr_command request with
  | None => lift Undef
  | Some command =>
      if str_eq command (str "name") then ipfs_core_http_process_name request
      else if str_eq command (str "object") then ipfs_core_http_process_object request
      else if str_eq command (str "dht") then ipfs_core_http_process_dht request
      else if str_eq command (str "swarm") then ipfs_core_http_process_swarm request
      else fail ()
  end.
End Process.

(** * Properties *)

Section Facts.
Context {VE : Libp2pVector} `{!Libp2pVectorLaws VE}.

Lemma first_argument c sub arg :
  libp2p_utils_vector_get (hr_arguments (client_request c sub arg)) 0 = Some arg.
Proof.
  unfold client_request. cbn [hr_arguments].
  rewrite vector_get_items, items_add, items_new by lia. reflexivity.
Qed.

(** The block of a parameter is one byte short, whatever the parameter: no request with one
    can be sent. *)
Lemma parameters_undef request p ps url :
  items (hr_params request) = p :: ps ->
  ipfs_core_http_request_add_parameters request url = Undef.
Proof.
  intros H. unfold ipfs_core_http_request_add_parameters. rewrite vector_loop_items, H.
  cbn [list_loop]. destruct p as [[n |] [v |]]; try reflexivity. unfold add_parameter, write_block.
  rewrite !len_app. change (len (str "/")) with 1. change (len (str "=")) with 1.
  replace (_ <? _) with true by lia. reflexivity.
Qed.

(** A question mark stands in front of every argument, and not only of the first. *)
Lemma two_arguments request a b url :
  items (hr_params request) = [] -> items (hr_arguments request) = [a; b] ->
  ipfs_core_http_request_add_parameters request url =
  Ok ((url ++ str "?arg=" ++ a) ++ str "?arg=" ++ b).
Proof.
  intros Hp Ha. assert (L : len (str "?arg=") = 5) by reflexivity.
  unfold ipfs_core_http_request_add_parameters. rewrite vector_loop_items, Hp.
  cbn [list_loop mbind cres_bind]. rewrite vector_loop_items, Ha. cbn [list_loop]. unfold add_argument, write_block.
  rewrite !len_app. pose_len. replace (_ <? _) with false by lia. cbn [mbind cres_bind].
  rewrite !len_app. pose_len. replace (_ <? _) with false by lia. reflexivity.
Qed.
End Facts.

Section NameService.
Context {VE : Libp2pVector} `{!Libp2pVectorLaws VE} {MH : Multihash} `{!MultihashLaws MH}.
Context {B58 : Base58} `{!Base58Multihash B58} {PB : Protobuf} {DS : Datastore} `{!DatastoreLaws DS}.
Context {RT : Routing} (id : bytes) (cat_fuel : nat) (mem_room : Z).
Context (libp2p_peer_connect : bytes -> option bool).

#[local] Notation process :=
  (ipfs_core_http_request_process id cat_fuel mem_room libp2p_peer_connect).

Definition published_text (p : bytes) : bytes :=
  str "{ " ++ quoted (str "Name") ++ str ": " ++ quoted id ++ [byte_of 10]
  ++ str " " ++ quoted (str "Value") ++ str ": " ++ quoted p ++ str " }".
Definition resolved_text (p : bytes) : bytes :=
  str "{ " ++ quoted (str "Path") ++ str ": " ++ quoted p ++ str " }".
Lemma len_quoted s : len (quoted s) = len s + 2.
Proof. unfold quoted. rewrite len_cons, len_app. change (len [byte_of 34]) with 1. lia. Qed.
Lemma published_len p : len (published_text p) = len id + len p + 27.
Proof.
  unfold published_text. rewrite !len_app, !len_quoted. str_lens. change (len [byte_of 10]) with 1. lia.
Qed.
Lemma resolved_len p : len (resolved_text p) = len p + 14.
Proof. unfold resolved_text. rewrite !len_app, !len_quoted. str_lens. lia. Qed.

(** The node's name service through its API: a request to publish a path under the node's
    id, which has no record yet, is answered with the id and the path; then a request to
    resolve the id is answered with the path, as long as the path is at most twice the
    length of the id and 21 bytes long: the block of the answer is measured by the name asked
    for, and a longer path is written over its end. *)
Theorem http_name_service d p w :
  id_of d id -> ds_ready (w_ds w) -> len p <= 500 -> cstring p ->
  datastore_get d (w_ds w) = None -> is_ipns_string (Some p) = false ->
  exists w',
    process (client_request (str "name") (str "publish") p) w =
      (Ok (json_response (published_text p) (len id + len p + 27)), w') /\
    process (client_request (str "name") (str "resolve") (str "/ipns/" ++ id)) w' =
      (if len p <=? 2 * len id + 21 then Ok (json_response (resolved_text p) (len p + 14)) else Undef, w').
Proof.
  intros Hid Hr Hl Hc Hn Hi. destruct (publish_ok d id p w Hid Hr Hl Hc Hn) as (w' & Hpub & _ & _ & Hnm & _).
  exists w'. split.
  - unfold ipfs_core_http_request_process. cbn [client_request hr_command].
    change (str_eq (str "name") (str "name")) with true. cbv iota.
    unfold ipfs_core_http_process_name. rewrite first_argument. unfold sub_command_is.
    cbn [client_request hr_sub_command].
    rewrite (io_bind_ok (lift (Ok false)) _ w _ w eq_refl), (io_bind_ok (lift (Ok true)) _ w _ w eq_refl).
    rewrite (io_bind_ok _ _ w _ w' Hpub). fold (published_text p).
    unfold write_block. rewrite published_len. replace (_ <? _) with false by lia.
    rewrite (io_bind_ok (lift (Ok _)) _ w' _ w' eq_refl). rewrite published_len. reflexivity.
  - unfold ipfs_core_http_request_process. cbn [client_request hr_command].
    change (str_eq (str "name") (str "name")) with true. cbv iota.
    unfold ipfs_core_http_process_name. rewrite first_argument. unfold sub_command_is.
    cbn [client_request hr_sub_command].
    rewrite (io_bind_ok (lift (Ok true)) _ w' _ w' eq_refl), (io_bind_ok (lift (Ok false)) _ w' _ w' eq_refl).
    assert (Hres : ipfs_namesys_resolver_resolve (str "/ipns/" ++ id) true w' = (Ok p, w')).
    { unfold ipfs_namesys_resolver_resolve. cbn [resolve_loop].
      rewrite (io_bind_ok _ _ w' p w' (resolve_once_ok w' id p Hnm)). rewrite Hi, andb_false_r. reflexivity. }
    rewrite (io_bind_ok _ _ w' _ w' Hres). fold (resolved_text p). unfold write_block.
    rewrite resolved_len, len_app. change (len (str "/ipns/")) with 6.
    destruct (len p <=? 2 * len id + 21) eqn:E.
    + replace (_ <? _) with false by lia. rewrite (io_bind_ok (lift (Ok _)) _ w' _ w' eq_refl).
      rewrite resolved_len. reflexivity.
    + replace (_ <? _) with true by lia. reflexivity.
Qed.
End NameService.

Lemma http_name_service_witness :
  exists w',
    ipfs_core_http_request_process (RT := ipfs_routing_new_offline (str "/repo") false (fun _ _ _ => None))
      sample_id 1 0 (fun _ => None) (client_request (str "name") (str "resolve") (str "/ipns/" ++ sample_id)) w' =
    (Ok (json_response (resolved_text (str "/ipfs/Qm")) 22), w').
Proof.
  destruct (http_name_service (RT := ipfs_routing_new_offline (str "/repo") false (fun _ _ _ => None))
              sample_id 1 0 (fun _ => None) sample_digest (str "/ipfs/Qm") sample_world)
    as (w' & _ & H); try exact sample_id_of; try reflexivity; try by_decide; try exact I.
  exists w'. exact H.
Defined.
