(* ===== verification/CommandLine.v ===== *)
(** The command line: its arguments (src/cmd/cli.c, src/main/main.c), opening the node of a command
    (core/ipfs_node.c, core/client_api.c), the commands of the importer, the exporter, name.c and
    swarm.c, and what [main] makes of them. *)

From S2P Require Import Prelude Libc Vector Jsmn Protobuf Libs Storage ProtobufRef LibsRef Cid UnixFS MerkleNode.
From S2P Require Import Block Blockstore Merkledag Routing Importer Exporter Mdb Config FsRepo ConfigFile DnsLink Errs Http Peers.

(** ** Arguments *)

(** [argv[i]]: a NULL pointer stands behind the arguments, nothing behind that. *)
Definition arg {E} (argv : list bytes) (i : nat) : cres E (option bytes) :=
  if (i <=? length argv)%nat then Ok (argv !! i) else Undef.
Definition arg_text {E} (argv : list bytes) (i : nat) : cres E bytes :=
  match argv !! i with Some a => Ok a | None => Undef end.

Definition quote : byte := byte_of 39.
Definition dash : byte := byte_of 45.

(** The copy lacks the first character; its last is overwritten. *)
Definition stripit (old_arg : bytes) : cres unit bytes :=
  match drop 1 old_arg with
  | [] => Undef
  | tmp => Ok (removelast tmp)
  end.
Fixpoint strip_quotes (argv : list bytes) : cres unit (list bytes) :=
  match argv with
  | [] => Ok []
  | a :: argv =>
      a ← (if bool_decide (head a = Some quote) && bool_decide (last a = Some quote) then stripit a else Ok a);
      argv ← strip_quotes argv;
      Ok (a :: argv)
  end.

(** 0: no switch; 2: the next argument belongs to it. *)
Definition is_switch (to_test : bytes) : Z :=
  match to_test with
  | c :: _ =>
      if decide (c = dash) then
        if str_eq to_test (str "-c") || str_eq to_test (str "--config") then 2 else 1
      else 0
  | [] => 0
  end.
Fixpoint find_verb (rest : list bytes) (i : nat) : nat :=
  match rest with
  | [] => 0
  | a :: rest =>
      if is_switch a =? 0 then i
      else if is_switch a =? 2 then
        match rest with
        | [] => 0
        | _ :: rest => find_verb rest (S (S i))
        end
      else find_verb rest (S i)
  end.
Definition get_cli_verb (argv : list bytes) : nat := find_verb (tail argv) 1.

(** cli.c has the same two functions. *)
Definition cli_is_switch (to_test : bytes) : Z := is_switch to_test.
Definition cli_get_verb_index (argv : list bytes) : nat := find_verb (tail argv) 1.
Fixpoint find_config_dir (rest : list bytes) : option bytes :=
  match rest with
  | [] => None
  | param :: rest =>
      match rest with
      | dir :: _ =>
          if bool_decide (head param = Some dash) &&
             (str_eq param (str "-c") || str_eq param (str "--config"))
          then Some dir else find_config_dir rest
      | [] => None
      end
  end.
Definition cli_get_config_dir (argv : list bytes) : option bytes := find_config_dir (tail argv).
Record CliArguments := MkCliArguments {
  cli_argv : list bytes;
  verb_index : nat;
  config_dir : option bytes
}.
Definition cli_arguments_new (argv : list bytes) : CliArguments :=
  MkCliArguments argv (cli_get_verb_index argv) (cli_get_config_dir argv).

Inductive command := INIT | ADD | OBJECT_GET | DNS | CAT | DAEMON | PING | GET | NAME | SWARM.
#[export] Instance command_eq_dec : EqDecision command.
Proof. solve_decision. Defined.
(** [None]: no parameters, or none that is known. The second word of [object] is compared unless
    there are at most two arguments. *)
Definition parse_arguments (argv : list bytes) : cres unit (option command) :=
  let index := get_cli_verb argv in
  if (length argv =? 1)%nat || (index =? 0)%nat then Ok None
  else
    v ← arg_text argv index;
    object_get ← (if str_eq (str "object") v && (2 <? length argv)%nat then
                    w ← arg_text argv (S index); Ok (str_eq (str "get") w)
                  else Ok false);
    Ok (if str_eq (str "init") v then Some INIT
        else if str_eq (str "add") v then Some ADD
        else if object_get : bool then Some OBJECT_GET
        else if str_eq (str "cat") v then Some CAT
        else if str_eq (str "dns") v then Some DNS
        else if str_eq (str "daemon") v then Some DAEMON
        else if str_eq (str "ping") v then Some PING
        else if str_eq (str "get") v then Some GET
        else if str_eq (str "name") v then Some NAME
        else if str_eq (str "swarm") v then Some SWARM
        else None).

(** The importer's own reading of the arguments. *)
Definition ipfs_import_get_filelist (args : CliArguments) : list bytes :=
  base.filter (fun a => a <> str "add") (drop (S (verb_index args)) (cli_argv args)).
Definition ipfs_import_is_recursive (argv : list bytes) : bool :=
  bool_decide (str "-r" ∈ argv).

(** ** The node of a command *)

Section Commands.
Context {PB : Protobuf} {MH : Multihash} {SH : Sha256} {B32 : Base32} {B58 : Base58}.
Context {OS : OsUtils} {DS : Datastore} {KE : Keys} {AD : Addrs} {OF : OsFiles} {DB : Mdb} {MO : MdbOpen DB} {OE : OsEnv}.
Context {VE : Libp2pVector}.
Context (libp2p_datastore_new : DatastoreConfig) (libp2p_datastore_init : bytes -> option DatastoreConfig).
(** Parts of an address, and whether somebody listens there. *)
Context (multiaddress_get_ip_address : MultiAddress -> option bytes) (multiaddress_get_ip_port : MultiAddress -> Z).
Context (connects : bytes -> Z -> bool).
(** What is behind the API's address, as the router and as libcurl have it. *)
Context (http : bytes -> bytes -> bytes -> option bytes).
Context (curl_easy_perform : bytes -> option bytes -> option (list bytes)).

(** Files and directories, the content of the datastore, and what was printed. *)
Record CliState := MkCliState { cs_os : Os; cs_ds : ds_state; cs_out : bytes }.
Definition print (s : bytes) (st : CliState) : CliState := MkCliState (cs_os st) (cs_ds st) (cs_out st ++ s).
(** A computation on the repository. *)
Definition cli_world (st : CliState) : World := MkWorld (os_fs (cs_os st)) (cs_ds st).
Definition with_world (w : World) (st : CliState) : CliState :=
  MkCliState (with_fs (cs_os st) (w_fs w)) (w_ds w) (cs_out st).

Record IpfsNode := MkIpfsNode { in_mode : NodeMode; in_repo : FSRepo }.

(** The host and the port of the API. *)
Definition api_address (repo : FSRepo) : cres unit (option (bytes * Z)) :=
  api ← text_of (ad_api (rc_addresses (fr_config repo)));
  Ok (match multiaddress_new_from_string api with
      | None => None
      | Some ma =>
          match multiaddress_get_ip_address ma with
          | None => None
          | Some ip => Some (ip, multiaddress_get_ip_port ma)
          end
      end).
Definition api_running (repo : FSRepo) : cres unit bool :=
  address ← api_address repo;
  Ok (match address with Some (ip, port) => connects ip port | None => false end).
Definition ipfs_node_offline_new (repo_path : option bytes) (st : CliState) : cres unit IpfsNode :=
  fs_repo ← ipfs_repo_fsrepo_new libp2p_datastore_new repo_path None;
  fs_repo ← ipfs_repo_fsrepo_open fs_repo (os_fs (cs_os st));
  running ← api_running fs_repo;
  Ok (MkIpfsNode (if (running : bool) then MODE_API_AVAILABLE else MODE_OFFLINE) fs_repo).

(** A call that may fail, and its node if there is one. *)
Definition node_or_null (m : cres unit IpfsNode) : cres unit (option IpfsNode) :=
  match m with
  | Ok n => Ok (Some n)
  | Err _ => Ok None
  | Undef => Undef
  | NoFuel => NoFuel
  end.
Definition node_path (n : IpfsNode) : bytes := fr_path (in_repo n).
Definition api_mode (n : IpfsNode) : bool := bool_decide (in_mode n = MODE_API_AVAILABLE).
Definition node_routing (n : IpfsNode) : Routing := ipfs_routing_new_offline (node_path n) (api_mode n) http.

(** ** add *)

(** What the system has under a name, and the last part of a path. *)
Context (entry_of : bytes -> entry) (file_part : bytes -> bytes).

Definition ipfs_import_print_node_results (node : HashtableNode) (file_name : bytes) : cres unit bytes :=
  match ipfs_cid_hash_to_base58 (nd_hash node) (nd_hash_size node) 100 with
  | Ok buffer => Ok (str "added " ++ buffer ++ str " " ++ file_name ++ [byte_of 10])
  | Err _ => Ok (str "Unable to generate hash for file " ++ file_name ++ str "." ++ [byte_of 10])
  | Undef => Undef
  | NoFuel => NoFuel
  end.
Fixpoint import_files (local_node : option IpfsNode) (recursive : bool) (files : list bytes) (st : CliState)
  : cres unit (Z * CliState) :=
  match files with
  | [] => Ok (1, st)
  | file_name :: files =>
      if bool_decide (head file_name = Some dash) then import_files local_node recursive files st
      else
        match local_node with
        | None => Undef
        | Some n =>
            match ipfs_import_file (RT := node_routing n) (node_path n) recursive (entry_of file_name) 0 (cli_world st) with
            | (Ok (directory_entry, _), w) =>
                text ← ipfs_import_print_node_results directory_entry (file_part file_name);
                import_files local_node recursive files (print text (with_world w st))
            | (Err _, w) => Ok (0, with_world w st)
            | (Undef, _) => Undef
            | (NoFuel, _) => NoFuel
            end
        end
  end.
(** Whether the node could be made is not looked at. *)
Definition ipfs_import_files (args : CliArguments) (st : CliState) : cres unit (Z * CliState) :=
  let recursive := ipfs_import_is_recursive (cli_argv args) in
  let first := ipfs_import_get_filelist args in
  dir ← ipfs_repo_get_directory (cli_argv args) (cs_os st);
  if snd dir : bool then
    local_node ← node_or_null (ipfs_node_offline_new (Some (fst dir)) st);
    import_files local_node recursive first st
  else Ok (0, st).

(** ** cat *)

(** The depth of a tree of nodes, and what the output takes. *)
Context (cat_fuel : nat) (out_room : Z).
(** With the API the path behind /ipfs/, or what a name under /ipns/ resolves to, is asked for. *)
Definition api_hash (hash : bytes) : cres unit (option bytes) :=
  if starts_with (str "/ipfs/") hash then Ok (Some (drop 6 hash))
  else if starts_with (str "/ipns/") hash then
    match http (str "name") (str "resolve") hash with
    | Some ((_ :: _) as response) =>
        match jsmn_simple_parser (Some response) (Some (str "Path")) with
        | Ok found => Ok (Some found)
        | Err _ => Ok None
        | Undef => Undef
        | NoFuel => NoFuel
        end
    | _ => Ok (Some hash)
    end
  else Ok (Some hash).
Definition ipfs_exporter_object_cat (args : CliArguments) (st : CliState) : cres unit (Z * CliState) :=
  dir ← ipfs_repo_get_directory (cli_argv args) (cs_os st);
  if snd dir : bool then
    local_node ← node_or_null (ipfs_node_offline_new (Some (fst dir)) st);
    match local_node with
    | None => Ok (0, st)
    | Some n =>
        hash ← arg_text (cli_argv args) (S (verb_index args));
        if api_mode n then
          wanted ← api_hash hash;
          match wanted with
          | None => Ok (0, st)
          | Some wanted =>
              match http (str "object") (str "get") wanted with
              | Some ((_ :: _) as response) => Ok (1, print response st)
              | _ => Ok (0, st)
              end
          end
        else
          match ipfs_cid_decode_hash_from_base58 hash (strlen hash) with
          | Err _ => Ok (0, st)
          | Ok cid =>
              let s := MkStream [] out_room in
              match ipfs_exporter_object_cat_to_file (RT := node_routing n) cat_fuel (cid_hash cid)
                      (cid_hash_length cid) s (cli_world st) with
              | (Ok s, w) => Ok (1, print (st_data s) (with_world w st))
              | (Err s, w) => Ok (0, print (st_data s) (with_world w st))
              | (Undef, _) => Undef
              | (NoFuel, _) => NoFuel
              end
          | Undef => Undef
          | NoFuel => NoFuel
          end
    end
  else Ok (0, st).

(** ** name and swarm, which need the API *)

(** [argv[verb_index + 1]] and what is behind, with the node of the directory of [-c]. *)
Definition with_api (args : CliArguments)
  (call : option (bytes * Z) -> bytes -> option bytes -> CliState -> cres unit (Z * CliState))
  (st : CliState) : cres unit (Z * CliState) :=
  if (length (cli_argv args) <? verb_index args + 2)%nat then Ok (0, st)
  else
    client_node ← node_or_null (ipfs_node_offline_new (config_dir args) st);
    match client_node with
    | None => Ok (0, st)
    | Some n =>
        if api_mode n then
          which ← arg_text (cli_argv args) (verb_index args + 1);
          path ← arg (cli_argv args) (verb_index args + 2);
          address ← api_address (in_repo n);
          call address which path st
        else Ok (0, st)
    end.
(** The answer is printed; the error has none. *)
Definition answered (r : cres unit bytes) (st : CliState) : cres unit (Z * CliState) :=
  match r with
  | Ok response => Ok (1, print response st)
  | Err _ => Ok (0, st)
  | Undef => Undef
  | NoFuel => NoFuel
  end.
Definition given_text (path : option bytes) : cres unit bytes :=
  match path with Some p => Ok p | None => Undef end.
Definition ipfs_name (args : CliArguments) (st : CliState) : cres unit (Z * CliState) :=
  with_api args (fun address which path st =>
    if str_eq which (str "publish") then
      p ← given_text path; answered (ipfs_name_publish curl_easy_perform address p) st
    else if str_eq which (str "resolve") then
      p ← given_text path; answered (ipfs_name_resolve curl_easy_perform address p) st
    else Ok (0, st)) st.
Definition ipfs_swarm (args : CliArguments) (st : CliState) : cres unit (Z * CliState) :=
  with_api args (fun address which path st =>
    if str_eq which (str "connect") then
      p ← given_text path; answered (ipfs_swarm_connect curl_easy_perform address p) st
    else Ok (0, st)) st.

(** ** The program *)

(** The TXT records of the domain name system, and the commands that start an online node:
    object get, daemon and ping. *)
Context (res_query : bytes -> option (list (option bytes))).
Context (network_command : command -> list bytes -> CliState -> cres unit (Z * CliState)).

Definition run_init (argv : list bytes) (st : CliState) : cres unit (Z * CliState) :=
  match ipfs_repo_init libp2p_datastore_new libp2p_datastore_init argv (cs_os st) with
  | Ok (_, os) => Ok (1, MkCliState os (cs_ds st) (cs_out st))
  | Err os => Ok (0, MkCliState os (cs_ds st) (cs_out st))
  | Undef => Undef
  | NoFuel => NoFuel
  end.
(** Its success is 0. *)
Definition run_dns (argv : list bytes) (st : CliState) : cres unit (Z * CliState) :=
  match ipfs_dns res_query argv with
  | Ok param => Ok (0, print (param ++ [byte_of 10]) st)
  | Err code => Ok (code, st)
  | Undef => Undef
  | NoFuel => NoFuel
  end.
(** [get] falls into the case of [cat]. *)
Definition run_command (cmd : option command) (args : CliArguments) (st : CliState) : cres unit (Z * CliState) :=
  match cmd with
  | Some INIT => run_init (cli_argv args) st
  | Some ADD => ipfs_import_files args st
  | Some GET | Some CAT => ipfs_exporter_object_cat args st
  | Some DNS => run_dns (cli_argv args) st
  | Some NAME => ipfs_name args st
  | Some SWARM => ipfs_swarm args st
  | Some c => network_command c (cli_argv args) st
  | None => Ok (0, st)
  end.
(** The exit status. *)
Definition main (argv : list bytes) (st : CliState) : cres unit (Z * CliState) :=
  argv ← strip_quotes argv;
  cmd ← parse_arguments argv;
  r ← run_command cmd (cli_arguments_new argv) st;
  Ok (if fst r =? 1 then 0 else 1, snd r).
End Commands.

(** * Facts *)

(** ** Arguments *)

(** What an argument in quotes stands for. *)
Lemma stripit_quoted x : stripit (quote :: x ++ [quote]) = Ok x.
Proof.
  pose proof (removelast_last x quote) as H. unfold stripit.
  change (drop 1 (quote :: x ++ [quote])) with (x ++ [quote]).
  destruct (x ++ [quote]) eqn:E; [destruct x; discriminate E | rewrite H; reflexivity].
Qed.
(** A single quote alone ends where it begins. *)
Lemma strip_quotes_alone l : strip_quotes ([quote] :: l) = Undef.
Proof. reflexivity. Qed.
Lemma strip_quotes_plain argv : Forall (fun a => head a <> Some quote) argv -> strip_quotes argv = Ok argv.
Proof.
  induction 1 as [| a argv Ha _ IH]; [reflexivity |]. cbn [strip_quotes].
  rewrite bool_decide_eq_false_2 by exact Ha. cbn [andb mbind cres_bind]. rewrite IH. reflexivity.
Qed.
Lemma strip_quotes_cons a argv r :
  head a = Some quote -> last a = Some quote -> length a <> 1%nat -> strip_quotes argv = Ok r ->
  exists x, a = quote :: x ++ [quote] /\ strip_quotes (a :: argv) = Ok (x :: r).
Proof.
  intros Hh Hl Hn Hr. destruct a as [| q a]; [discriminate |]. injection Hh as ->.
  destruct a as [| b a _] using rev_ind; [contradiction Hn; reflexivity |].
  change (quote :: a ++ [b]) with ([quote] ++ a ++ [b]) in Hl. rewrite app_assoc, last_snoc in Hl.
  injection Hl as ->. exists a. split; [reflexivity |]. cbn [strip_quotes].
  rewrite bool_decide_eq_true_2 by reflexivity.
  rewrite bool_decide_eq_true_2 by (change (quote :: a ++ [quote]) with ((quote :: a) ++ [quote]); apply last_snoc).
  rewrite stripit_quoted. cbn [mbind cres_bind]. rewrite Hr. reflexivity.
Qed.

(** Switches with what belongs to them. *)
Inductive switches : list bytes -> Prop :=
| no_switch : switches []
| one_switch s l : is_switch s = 1 -> switches l -> switches (s :: l)
| config_switch s d l : is_switch s = 2 -> switches l -> switches (s :: d :: l).
Lemma find_verb_switches sw v rest i :
  switches sw -> is_switch v = 0 -> find_verb (sw ++ v :: rest) i = (i + length sw)%nat.
Proof.
  intros Hs Hv. revert i. induction Hs as [| s l E _ IH | s d l E _ IH]; intros i; cbn [app find_verb length].
  - rewrite Hv. cbn. lia.
  - rewrite E. cbn. rewrite IH. lia.
  - rewrite E. cbn. rewrite IH. lia.
Qed.
(** cli.c and init.c look for the directory in the same place. *)
Lemma find_config_option l : find_config_dir l = config_option l.
Proof.
  induction l as [| a l IH]; [reflexivity |]. cbn [find_config_dir config_option].
  destruct l as [| d l]; [case_decide; reflexivity |].
  unfold str_eq. case_decide as E.
  - destruct E as [-> | ->]; reflexivity.
  - rewrite IH. rewrite !bool_decide_eq_false_2 with (P := a = _) by tauto.
    rewrite andb_false_r. reflexivity.
Qed.

(** ** The node of a command on a state with the same configuration file *)

Section Opening.
Context {OS : OsUtils} {KE : Keys} {AD : Addrs} {OF : OsFiles} {DB : Mdb} {MO : MdbOpen DB} {OE : OsEnv} {B32 : Base32}.
Context `{!OsUtilsLaws OS} `{!OsFilesLaws OF} `{!Base32Laws B32}.

Lemma open_same repo fs fs' name :
  repo_config_get_file_name (fr_path repo) = Some name -> fs_files fs' !! name = fs_files fs !! name ->
  ipfs_repo_fsrepo_open repo fs' = ipfs_repo_fsrepo_open repo fs.
Proof.
  intros Hn Hf. unfold ipfs_repo_fsrepo_open, repo_check_initialized, fs_repo_is_initialized_unsynced, repo_config_is_initialized.
  rewrite Hn, !file_exists_spec, Hf. case_bool_decide as E; [| reflexivity]. destruct E as [d Hd].
  assert (Hr : fs_repo_open_config (fr_path repo) (fr_config repo) fs' = fs_repo_open_config (fr_path repo) (fr_config repo) fs).
  { unfold fs_repo_open_config. unfold repo_config_get_file_name in Hn. rewrite Hn. unfold _read_file, read_file.
    rewrite (file_size_exists _ _ d Hd), Hf, Hd, (file_size_exists _ _ d) by congruence. reflexivity. }
  rewrite Hr. reflexivity.
Qed.
Lemma open_path repo fs r : ipfs_repo_fsrepo_open repo fs = Ok r -> fr_path r = fr_path repo.
Proof.
  unfold ipfs_repo_fsrepo_open, fs_repo_open_datastore. destruct (repo_check_initialized _ _); [| discriminate].
  intros (c & _ & H)%bind_ok. apply bind_ok in H as (ty & _ & H).
  destruct (starts_with _ ty); [| discriminate]. apply bind_ok in H as (db & _ & [= <-]). reflexivity.
Qed.
(** The configuration is in none of the files of the blocks, whose names are longer. *)
Lemma config_no_block repo name h :
  @enc_decode_size base32 6 < 32 -> repo_config_get_file_name repo = Some name -> len h = 32 -> name <> hash_file repo h.
Proof.
  intros Hd Hn Hh ->. pose proof (path_get_hash repo h) as Hg. unfold ipfs_blockstore_path_get in Hg.
  destruct (os_utils_filepath_join repo (str "blockstore") _) as [dir |]; [| discriminate].
  destruct (os_utils_filepath_join dir (hash_key h) _) as [f |] eqn:Ef; [| discriminate]. injection Hg as ->.
  assert (Hk : str "config" = hash_key h).
  { eapply (filepath_join_inj repo dir); [by_decide | eapply base32_no_slash, hash_key_encode | exact Hn | exact Ef]. }
  pose proof (hash_key_encode h) as He. rewrite <- Hk in He.
  pose proof (enc_roundtrip (EN := base32) h _ _ (@enc_decode_size base32 6) He ltac:(reflexivity)) as Hr.
  apply enc_decode_room in Hr. lia.
Qed.
End Opening.

(** ** Adding and reading *)

Section AddCat.
Context {PB : Protobuf} {MH : Multihash} {SH : Sha256} {B32 : Base32} {B58 : Base58}.
Context {OS : OsUtils} {DS : Datastore} {KE : Keys} {AD : Addrs} {OF : OsFiles} {DB : Mdb} {MO : MdbOpen DB} {OE : OsEnv}.
Context {VE : Libp2pVector}.
Context `{!ProtobufLaws PB} `{!MultihashLaws MH} `{!Sha256Laws SH} `{!Base32Laws B32} `{!Base58Multihash B58}.
Context `{!OsUtilsLaws OS} `{!DatastoreLaws DS} `{!OsFilesLaws OF}.
Context (dsnew : DatastoreConfig) (dsinit : bytes -> option DatastoreConfig).
Context (ip_of : MultiAddress -> option bytes) (port_of : MultiAddress -> Z) (connects : bytes -> Z -> bool).
Context (http : bytes -> bytes -> bytes -> option bytes) (curl : bytes -> option bytes -> option (list bytes)).
Context (entry_of : bytes -> entry) (file_part : bytes -> bytes) (out_room : Z).
Context (res_query : bytes -> option (list (option bytes))).
Context (network_command : command -> list bytes -> CliState -> cres unit (Z * CliState)).
Abbreviation cli_main :=
  (main dsnew dsinit ip_of port_of connects http curl entry_of file_part 2 out_room res_query network_command).
Abbreviation offline_new := (ipfs_node_offline_new dsnew ip_of port_of connects).

Lemma offline_new_same repo st st' name :
  repo_config_get_file_name repo = Some name ->
  fs_files (os_fs (cs_os st')) !! name = fs_files (os_fs (cs_os st)) !! name ->
  offline_new (Some repo) st' = offline_new (Some repo) st.
Proof.
  intros Hn Hf. unfold ipfs_node_offline_new, ipfs_repo_fsrepo_new. cbn [mbind cres_bind].
  rewrite (open_same (MkFSRepo repo _ None) (os_fs (cs_os st)) (os_fs (cs_os st')) name Hn Hf). reflexivity.
Qed.
Lemma offline_new_path repo st n : offline_new (Some repo) st = Ok n -> node_path n = repo /\
  exists name, repo_config_get_file_name repo = Some name.
Proof.
  unfold ipfs_node_offline_new, ipfs_repo_fsrepo_new. cbn [mbind cres_bind]. intros (r & Ho & H)%bind_ok.
  apply bind_ok in H as (b & _ & [= <-]). split; [exact (open_path _ _ _ Ho) |].
  unfold ipfs_repo_fsrepo_open, repo_check_initialized, fs_repo_is_initialized_unsynced, repo_config_is_initialized in Ho.
  cbn [fr_path] in Ho. destruct (repo_config_get_file_name repo); [eauto | discriminate].
Qed.

(** The arguments of a command with the directory of the repository. *)
Definition command_line (prog repo verb operand : bytes) : list bytes := [prog; str "-c"; repo; verb; operand].
Definition plain (a : bytes) : Prop := head a <> Some quote.
Lemma main_command prog repo verb operand cmd st :
  plain prog -> plain repo -> plain operand -> verb = str "add" /\ cmd = ADD \/ verb = str "cat" /\ cmd = CAT ->
  cli_main (command_line prog repo verb operand) st =
    (r ← run_command dsnew dsinit ip_of port_of connects http curl entry_of file_part 2 out_room res_query network_command
           (Some cmd) (MkCliArguments (command_line prog repo verb operand) 3 (Some repo)) st;
     Ok (if fst r =? 1 then 0 else 1, snd r)).
Proof.
  intros Hp Hr Ho Hv. unfold main. rewrite strip_quotes_plain.
  2: { unfold command_line. repeat (apply Forall_cons; split; try assumption); [discriminate | | apply Forall_nil; exact I].
       destruct Hv as [[-> _] | [-> _]]; discriminate. }
  cbn [mbind cres_bind].
  assert (Hparse : parse_arguments (command_line prog repo verb operand) = Ok (Some cmd)).
  { unfold parse_arguments, get_cli_verb, command_line. cbn [tail find_verb].
    destruct Hv as [[-> ->] | [-> ->]]; reflexivity. }
  rewrite Hparse. cbn [mbind cres_bind].
  replace (cli_arguments_new (command_line prog repo verb operand)) with
    (MkCliArguments (command_line prog repo verb operand) 3 (Some repo))
    by (destruct Hv as [[-> _] | [-> _]]; reflexivity).
  reflexivity.
Qed.
Lemma command_directory prog repo verb operand st :
  head prog <> Some dash -> os_utils_directory_exists (os_dirs (cs_os st)) repo = true ->
  ipfs_repo_get_directory (command_line prog repo verb operand) (cs_os st) = Ok (repo, true).
Proof.
  intros Hp Hd. unfold ipfs_repo_get_directory, ipfs_repo_get_home_directory, command_line. cbn [config_option].
  rewrite decide_False by (intros [-> | ->]; apply Hp; reflexivity).
  rewrite decide_True by (left; reflexivity). cbn [mbind cres_bind]. rewrite Hd. reflexivity.
Qed.

(** The state a command leaves that stored blocks of the repository. *)
Lemma run_add prog repo name f st node :
  head prog <> Some dash -> head name <> Some dash -> name <> str "add" ->
  os_utils_directory_exists (os_dirs (cs_os st)) repo = true ->
  offline_new (Some repo) st = Ok node -> in_mode node = MODE_OFFLINE ->
  entry_of name = File f -> len f < 2 ^ 42 -> roomy repo (cli_world st) -> no_collision (file_wires f) ->
  len f <= out_room -> @enc_encode_size base58 34 <= 100 ->
  exists w' h t,
    ipfs_import_files dsnew ip_of port_of connects http entry_of file_part
      (MkCliArguments (command_line prog repo (str "add") name) 3 (Some repo)) st =
      Ok (1, print (str "added " ++ t ++ str " " ++ file_part name ++ [byte_of 10]) (with_world w' st)) /\
    plain t /\ ipfs_cid_decode_hash_from_base58 t (strlen t) = Ok (MkCid 0 CID_DAG_PROTOBUF (Some h) 32) /\
    ipfs_exporter_object_cat_to_file (RT := ipfs_routing_new_offline repo false http) 2 (Some h) 32
      (MkStream [] out_room) w' = (Ok (MkStream f (out_room - len f)), w') /\
    keeps repo (file_wires f) (cli_world st) w'.
Proof.
  intros Hp Hn Hadd Hd Ho Hm He Hf Hw Hc Hr Hb.
  destruct (offline_new_path repo st node Ho) as [Hpath _].
  destruct (import_then_export repo http f (ipfs_import_is_recursive (command_line prog repo (str "add") name))
    (cli_world st) 0 (MkStream [] out_room) Hf Hw Hc Hr Hb)
    as (n & wr & w' & h & t & Hi & Hh & Ht & _ & Hcat & _ & _ & Hk & Hcid & Hsize & Hqm).
  exists w', h, t. rewrite Hsize in *.
  split; [| split; [| split; [exact Hcid | split; [exact Hcat | exact Hk]]]].
  - unfold ipfs_import_files. cbn [cli_argv].
    rewrite (command_directory prog repo (str "add") name st Hp Hd). cbn [mbind cres_bind snd fst].
    rewrite Ho. cbn [node_or_null mbind cres_bind].
    assert (Hl : ipfs_import_get_filelist (MkCliArguments (command_line prog repo (str "add") name) 3 (Some repo)) = [name]).
    { unfold ipfs_import_get_filelist, command_line. cbn [verb_index cli_argv drop].
      rewrite filter_cons_True by exact Hadd. reflexivity. }
    rewrite Hl. cbn [import_files]. rewrite bool_decide_eq_false_2 by exact Hn.
    unfold node_routing, api_mode. rewrite Hpath, Hm, He. rewrite bool_decide_eq_false_2 by discriminate.
    change (ipfs_import_file (RT := ipfs_routing_new_offline repo false http) repo
      (ipfs_import_is_recursive (command_line prog repo (str "add") name)) (File f) 0 (cli_world st) = (Ok (n, wr), w')) in Hi.
    rewrite Hi. unfold ipfs_import_print_node_results. rewrite Hh, Hsize, Ht. reflexivity.
  - destruct t as [| c t]; [discriminate Hqm |]. intros [= ->]. discriminate Hqm.
Qed.

Lemma run_cat prog repo h t f st node :
  head prog <> Some dash -> os_utils_directory_exists (os_dirs (cs_os st)) repo = true ->
  offline_new (Some repo) st = Ok node -> in_mode node = MODE_OFFLINE ->
  ipfs_cid_decode_hash_from_base58 t (strlen t) = Ok (MkCid 0 CID_DAG_PROTOBUF (Some h) 32) ->
  ipfs_exporter_object_cat_to_file (RT := ipfs_routing_new_offline repo false http) 2 (Some h) 32
    (MkStream [] out_room) (cli_world st) = (Ok (MkStream f (out_room - len f)), cli_world st) ->
  ipfs_exporter_object_cat dsnew ip_of port_of connects http 2 out_room
    (MkCliArguments (command_line prog repo (str "cat") t) 3 (Some repo)) st =
    Ok (1, print f (with_world (cli_world st) st)).
Proof.
  intros Hp Hd Ho Hm Hcid Hcat. destruct (offline_new_path repo st node Ho) as [Hpath _].
  unfold ipfs_exporter_object_cat. cbn [cli_argv verb_index].
  rewrite (command_directory prog repo (str "cat") t st Hp Hd). cbn [mbind cres_bind snd fst].
  rewrite Ho. cbn [node_or_null mbind cres_bind].
  assert (Ha : @arg_text unit (command_line prog repo (str "cat") t) 4 = Ok t) by reflexivity.
  rewrite Ha. cbn [mbind cres_bind].
  unfold node_routing, api_mode. rewrite Hpath, Hm. rewrite bool_decide_eq_false_2 by discriminate.
  rewrite Hcid. cbn [cid_hash cid_hash_length]. rewrite Hcat. reflexivity.
Qed.

(** C35: on the command line, with no daemon running, adding a file of less than 2^42 bytes exits with
    success and prints one line with the base 58 of the hash and the last part of the name; cat of
    that text then exits with success and prints exactly the bytes of the file. The repository is the
    one of -c, it opens again behind the import, and SHA-256 does not collide on the file's nodes. *)
Theorem command_line_add_cat prog repo name f st node :
  Forall plain [prog; repo; name] -> head prog <> Some dash -> head name <> Some dash -> name <> str "add" ->
  os_utils_directory_exists (os_dirs (cs_os st)) repo = true ->
  offline_new (Some repo) st = Ok node -> in_mode node = MODE_OFFLINE ->
  entry_of name = File f -> len f < 2 ^ 42 -> roomy repo (cli_world st) -> no_collision (file_wires f) ->
  len f <= out_room -> @enc_encode_size base58 34 <= 100 -> @enc_decode_size base32 6 < 32 ->
  exists t st1 st2,
    cli_main (command_line prog repo (str "add") name) st = Ok (0, st1) /\
    cs_out st1 = cs_out st ++ str "added " ++ t ++ str " " ++ file_part name ++ [byte_of 10] /\
    cli_main (command_line prog repo (str "cat") t) st1 = Ok (0, st2) /\
    cs_out st2 = cs_out st1 ++ f.
Proof.
  intros Hplain Hp Hn Hadd Hd Ho Hm He Hf Hw Hc Hr Hb Hx.
  apply Forall_cons in Hplain as [Hpp Hplain]. apply Forall_cons in Hplain as [Hpr Hplain]. apply Forall_inv in Hplain.
  destruct (run_add prog repo name f st node) as (w' & h & t & Hrun & Hpt & Hcid & Hcat & Hk); try assumption.
  set (st1 := print (str "added " ++ t ++ str " " ++ file_part name ++ [byte_of 10]) (with_world w' st)) in *.
  destruct (offline_new_path repo st node Ho) as (_ & cfg & Hcfg).
  assert (Hw1 : cli_world st1 = w') by (destruct w'; reflexivity).
  assert (Ho1 : offline_new (Some repo) st1 = Ok node).
  { rewrite <- Ho. apply (offline_new_same repo st st1 cfg Hcfg).
    change (fs_files (w_fs (cli_world st1)) !! cfg = fs_files (w_fs (cli_world st)) !! cfg). rewrite Hw1.
    apply (keeps_files _ _ _ _ Hk). intros h' Hh'. exact (config_no_block repo cfg h' Hx Hcfg Hh'). }
  exists t, st1, (print f (with_world (cli_world st1) st1)). split_and!.
  - rewrite (main_command prog repo (str "add") name ADD) by auto. cbn [run_command]. rewrite Hrun. reflexivity.
  - reflexivity.
  - rewrite (main_command prog repo (str "cat") t CAT) by auto. cbn [run_command].
    rewrite (run_cat prog repo h t f st1 node Hp Hd Ho1 Hm Hcid) by (rewrite Hw1; exact Hcat). reflexivity.
  - reflexivity.
Qed.
End AddCat.

(** ** A concrete run *)

(** The repository of the configuration's sample, on a disk with room. *)
Definition sample_cli : CliState (DS := ref_datastore) :=
  MkCliState (MkOs (MkFS {[sample_name := whole_text sample_texts]} (fun _ => true) (2 ^ 40)) {[str "/repo"]} (fun _ => true))
    (∅ : gmap bytes DatastoreRecord) [].
Definition sample_cli_node : cres unit (IpfsNode (KE := ref_keys) (AD := ref_addrs) (DB := ref_mdb)) :=
  ipfs_node_offline_new (MO := ref_mdb_open) (MkDatastore None None None 0 None None 0 0 0) (fun _ => Some (str "127.0.0.1"))
    (fun _ => 5001) (fun _ _ => false) (Some (str "/repo")) sample_cli.
Lemma sample_opens : exists node, sample_cli_node = Ok node /\ in_mode node = MODE_OFFLINE.
Proof.
  pose proof (written_opens (OF := ref_os_files) (OS := ref_os_utils) (DB := ref_mdb) (MO := ref_mdb_open)
    (str "/repo") sample_name (os_fs (cs_os sample_cli)) sample_config sample_texts (str "key0") (str "Qmkey0") sample_peers
    sample_fresh (str "lmdb") (MkTables [] []) sample_keepable eq_refl eq_refl (lookup_singleton_eq _ _) eq_refl eq_refl eq_refl) as H.
  unfold sample_cli_node, ipfs_node_offline_new. cbn [ipfs_repo_fsrepo_new mbind cres_bind default].
  unfold sample_fresh in H. rewrite H. cbn [mbind cres_bind].
  eexists. split; [reflexivity | reflexivity].
Qed.

Lemma command_line_add_cat_witness :
  exists t st1 st2,
    main (MO := ref_mdb_open) (MkDatastore None None None 0 None None 0 0 0) (fun _ => None) (fun _ => Some (str "127.0.0.1"))
      (fun _ => 5001) (fun _ _ => false) (fun _ _ _ => None) (fun _ _ => None) (fun _ => File (str "hello world")) (fun p => p) 2 1000
      (fun _ => None) (fun _ _ _ => Err ()) (command_line (str "ipfs") (str "/repo") (str "add") (str "hello.txt")) sample_cli = Ok (0, st1) /\
    main (MO := ref_mdb_open) (MkDatastore None None None 0 None None 0 0 0) (fun _ => None) (fun _ => Some (str "127.0.0.1"))
      (fun _ => 5001) (fun _ _ => false) (fun _ _ _ => None) (fun _ _ => None) (fun _ => File (str "hello world")) (fun p => p) 2 1000
      (fun _ => None) (fun _ _ _ => Err ()) (command_line (str "ipfs") (str "/repo") (str "cat") t) st1 = Ok (0, st2) /\
    cs_out st2 = cs_out st1 ++ str "hello world".
Proof.
  destruct sample_opens as (node & Ho & Hm).
  destruct (command_line_add_cat (MO := ref_mdb_open) (MkDatastore None None None 0 None None 0 0 0) (fun _ => None)
    (fun _ => Some (str "127.0.0.1")) (fun _ => 5001) (fun _ _ => false) (fun _ _ _ => None) (fun _ _ => None)
    (fun _ => File (str "hello world")) (fun p => p) 1000 (fun _ => None) (fun _ _ _ => Err ())
    (str "ipfs") (str "/repo") (str "hello.txt") (str "hello world") sample_cli node)
    as (t & st1 & st2 & H1 & _ & H3 & H4).
  - repeat constructor; discriminate.
  - discriminate.
  - discriminate.
  - discriminate.
  - reflexivity.
  - exact Ho.
  - exact Hm.
  - reflexivity.
  - reflexivity.
  - constructor; [reflexivity | vm_compute; discriminate | vm_compute; discriminate | exact I].
  - intros a b Ha Hb _. vm_compute in Ha, Hb.
    repeat (apply elem_of_cons in Ha as [-> | Ha]; [| try (inversion Ha; fail)]);
    repeat (apply elem_of_cons in Hb as [-> | Hb]; [| try (inversion Hb; fail)]); reflexivity.
  - vm_compute. discriminate.
  - vm_compute. discriminate.
  - reflexivity.
  - exists t, st1, st2. split_and!; assumption.
Defined.
