(* ===== verification/ApiChunks.v ===== *)
(** Chunked transfer of the API server: reading a request's body and writing a response
    (src/core/api.c). *)

From S2P Require Import Prelude Libc Libs.

Definition MAX_READ : Z := 32 * 1024.
Definition MAX_CHUNK : Z := 32 * 1024.
Definition CRLF : bytes := [byte_of 13; byte_of 10].

(** ** Numbers *)

(** The value of a digit in base 16. *)
Definition xdigit (b : byte) : option Z :=
  let v := byte_val b in
  if (48 <=? v) && (v <=? 57) then Some (v - 48)
  else if (97 <=? v) && (v <=? 102) then Some (v - 87)
  else if (65 <=? v) && (v <=? 70) then Some (v - 55)
  else None.

(** The digits in front: their value on top of [acc], and what is behind them. [None]:
    there is nothing behind them that was written. *)
Fixpoint hex_digits (acc : Z) (b : bytes) : option (Z * bytes) :=
  match b with
  | [] => None
  | c :: rest =>
      match xdigit c with
      | Some d => hex_digits (acc * 16 + d) rest
      | None => Some (acc, b)
      end
  end.

(** [strtol(b, &p, 16)]: the value and what [p] points to; without digits it is [b]. A
    [long] that would overflow is the largest or the smallest one. *)
Definition is_digit (b : bytes) : bool :=
  match b with c :: _ => bool_decide (is_Some (xdigit c)) | [] => false end.
Definition strtol16 (b : bytes) : option (Z * bytes) :=
  let s := skip_space b in
  let '(negative, s) :=
    match s with
    | c :: rest =>
        if byte_val c =? 45 then (true, rest) else if byte_val c =? 43 then (false, rest) else (false, s)
    | [] => (false, s)
    end in
  let s := match s with
           | z :: x :: rest =>
               if (byte_val z =? 48) && (byte_val (tolower x) =? 120) then
                 match rest with
                 | [] => []
                 | _ => if is_digit rest then rest else s
                 end
               else s
           | _ => s
           end in
  match s with
  | [] => None
  | _ =>
      if is_digit s then
        '(v, p) ← hex_digits 0 s;
        Some (if (negative : bool) then Z.max (- v) (- 2 ^ 63) else Z.min v (2 ^ 63 - 1), p)
      else Some (0, b)
  end.

(** ** Reading *)

(** The position behind the size line and the size, as a [size_t]. [mem]: what is known
    of the buffer; a byte behind that was never written. How much of it the buffer holds at
    present is not asked. *)
Definition find_chunk (mem : bytes) : cres unit (Z * Z) :=
  match strtol16 mem with
  | None => Undef
  | Some (v, p) =>
      let pos := len mem - len p in
      if 10 <? pos then Err ()
      else match p with
           | c0 :: c1 :: _ =>
               if decide ([c0; c1] = CRLF) then Ok (pos + 2, u64 v) else Err ()
           | [c0] => if decide (c0 = byte_of 13) then Undef else Err ()
           | [] => Undef
           end
  end.

(** The request's block has [rq_size] bytes; the body is written to it from [rq_body] on. *)
Record request_body := MkRequestBody { rq_size : Z; rq_body : Z; rq_data : bytes }.
Definition append_body (req : request_body) (d : bytes) : cres unit request_body :=
  if rq_size req <? rq_body req + len (rq_data req) + len d then Undef
  else Ok (MkRequestBody (rq_size req) (rq_body req) (rq_data req ++ d)).

(** The socket: what came by each wait for data, within the five seconds: [None], nothing
    new; [Some []], the connection was closed or reading failed with 0. *)
Definition socket : Type := list (option bytes).

(** What is left of a read is there for the next one, with what has come by then. *)
Definition unread (d : bytes) (s : socket) : socket :=
  match s with
  | None :: s => Some d :: s
  | Some (c :: d') :: s => Some (d ++ c :: d') :: s
  | _ => Some d :: s
  end.
(** One read of at most [n] bytes: all there is, which may be little. The errors of [read] are
    not among them. *)
Definition socket_read (s : socket) (n : Z) : option bytes * socket :=
  match s with
  | [] => (None, [])
  | None :: s => (None, s)
  | Some d :: s => if len d <=? n then (Some d, s) else (Some (btake n d), unread (bdrop n d) s)
  end.

(** The buffer: what was ever written to its [MAX_READ] bytes, and [buf_size]. *)
Record chunk_buffer := MkBuffer { cb_mem : bytes; cb_size : Z }.
Definition write_at (mem : bytes) (off : Z) (d : bytes) : bytes :=
  btake off mem ++ d ++ bdrop (off + len d) mem.
(** A buffer whose size counts bytes that were never written is left undefined. *)
Definition written (b : chunk_buffer) : cres unit chunk_buffer :=
  if len (cb_mem b) <? cb_size b then Undef else Ok b.

(** [r] bytes from [pos] on were taken from the buffer, which had [avail] from there. *)
Definition shift_buffer (mem : bytes) (pos avail r : Z) : cres unit chunk_buffer :=
  let buf_size := avail - r in
  if 0 <? buf_size then
    if len mem <? pos + r + buf_size then Undef
    else Ok (MkBuffer (write_at mem 0 (btake buf_size (bdrop (pos + r) mem))) buf_size)
  else Ok (MkBuffer mem buf_size).

(** What was read before is copied to the front of the buffer, over what is there. *)
Definition refill (b : chunk_buffer) (already : bytes) : chunk_buffer * bytes :=
  let r := MAX_READ - cb_size b in
  if len already =? 0 then (b, already)
  else if len already <=? r then
    (MkBuffer (write_at (cb_mem b) 0 already) (cb_size b + len already), [])
  else (MkBuffer (write_at (cb_mem b) 0 (btake r already)) (cb_size b + r), bdrop r already).

(** The lines from [CPCHUNK] on: [nsize] bytes of the chunk are still to be copied, from
    [pos] on in the buffer. [true]: the connection was closed between two chunks. *)
Fixpoint copy_chunk (fuel : nat) (req : request_body) (b : chunk_buffer) (already : bytes) (s : socket)
  (pos nsize : Z) : cres unit (request_body * chunk_buffer * bytes * socket * bool) :=
  match fuel with
  | O => NoFuel
  | S fuel =>
      let avail := u64 (cb_size b - pos) in
      let r := if avail <? nsize then avail else nsize in
      if len (bdrop pos (cb_mem b)) <? r then Undef
      else
        req ← append_body req (btake r (bdrop pos (cb_mem b)));
        let nsize := nsize - r in
        b ← shift_buffer (cb_mem b) pos avail r;
        let '(b, already) := refill b already in
        b ← written b;
        let '(d, s) := socket_read s (MAX_READ - cb_size b) in
        match d with
        | Some d =>
            let b := MkBuffer (write_at (cb_mem b) (cb_size b) d) (cb_size b + len d) in
            if (len d =? 0) && (nsize =? 0) then Ok (req, b, already, s, true)
            else if len d =? 0 then Err ()
            else if 0 <? nsize then copy_chunk fuel req b already s 0 nsize
            else Ok (req, b, already, s, false)
        | None =>
            if 0 <? nsize then copy_chunk fuel req b already s 0 nsize
            else Ok (req, b, already, s, false)
        end
  end.

(** No memory is allocated for a block of 0 bytes or of 2^63 and more. *)
Fixpoint read_chunks (fuel : nat) (req : request_body) (b : chunk_buffer) (already : bytes) (s : socket)
  : cres unit request_body :=
  match fuel with
  | O => NoFuel
  | S fuel =>
      if cb_size b =? 0 then Ok req
      else
        '(pos, nsize) ← find_chunk (cb_mem b);
        if nsize =? 0 then Ok req
        else
          let size := u64 (rq_size req + nsize) in
          let req := MkRequestBody size (rq_body req) (rq_data req) in
          if (size =? 0) || (2 ^ 63 <=? size) then Err ()
          else
            '(req, b, already, s, closed) ← copy_chunk fuel req b already s pos nsize;
            if (closed : bool) then Ok req
            else match cb_mem b with
                 | c0 :: c1 :: _ =>
                     if decide ([c0; c1] = CRLF) then read_chunks fuel req b already s else Err ()
                 | _ => Undef
                 end
  end.
Definition read_chunked (fuel : nat) (req : request_body) (already : bytes) (s : socket)
  : cres unit request_body :=
  let '(b, already) := refill (MkBuffer [] 0) already in read_chunks fuel req b already s.

(** [read_all]: what was read before and all that comes until nothing does. *)
Definition grow_body (req : request_body) (d : bytes) : request_body :=
  MkRequestBody (rq_size req + len d) (rq_body req) (rq_data req ++ d).
Fixpoint read_rest (req : request_body) (s : socket) : request_body :=
  match s with
  | Some (c :: d) :: s => read_rest (grow_body req (c :: d)) s
  | _ => req
  end.
Definition read_all (req : request_body) (already : bytes) (s : socket) : request_body :=
  read_rest (if 0 <? len already then grow_body req already else req) s.

(** ** Writing *)

(** [%x]. *)
Fixpoint hex_fuel (fuel : nat) (n : Z) (acc : bytes) : bytes :=
  match fuel with
  | O => acc
  | S fuel =>
      let acc := hex_digit (n mod 16) :: acc in
      if n / 16 =? 0 then acc else hex_fuel fuel (n / 16) acc
  end.
Definition hexadecimal (n : Z) : bytes := hex_fuel 8 n [].

(** What is written, one chunk with each [writev]; [fuel]: the chunks. *)
Fixpoint api_send_resp_chunks (fuel : nat) (buf : bytes) : cres unit bytes :=
  match buf with
  | [] => Ok []
  | _ =>
      match fuel with
      | O => NoFuel
      | S fuel =>
          let s := if MAX_CHUNK <? len buf then MAX_CHUNK else len buf in
          let rest := bdrop s buf in
          more ← api_send_resp_chunks fuel rest;
          Ok (hexadecimal s ++ CRLF ++ btake s buf
              ++ (match rest with [] => CRLF ++ str "0" ++ CRLF ++ CRLF | _ => CRLF end) ++ more)
      end
  end.

(** * Properties *)

(** ** The size line *)





(** ** Copying *)









(** ** A whole body *)










(** The empty answer is written as nothing, and not as the last chunk. *)
Lemma empty_response fuel : api_send_resp_chunks fuel [] = Ok [].
Proof. destruct fuel; reflexivity. Qed.
(** A client that closes its side after sending loses what lies behind the first chunk,
    although all of it is in the buffer. *)
Definition two_chunks : bytes :=
  str "1" ++ CRLF ++ str "a" ++ CRLF ++ str "1" ++ CRLF ++ str "b" ++ CRLF ++ str "0" ++ CRLF ++ CRLF.
Lemma chunks_lost_at_end :
  read_chunked 10 (MkRequestBody 20 20 []) two_chunks [] = Ok (MkRequestBody 22 20 (str "ab")) /\
  read_chunked 10 (MkRequestBody 20 20 []) two_chunks [Some []] = Ok (MkRequestBody 21 20 (str "a")).
Proof. vm_compute. split; reflexivity. Qed.
(** What was read before and did not fit the buffer is copied over what the buffer still
    holds. *)
Lemma refill_overwrites :
  refill (MkBuffer (str "abcd") 3) (str "xy") = (MkBuffer (str "xycd") 5, []).
Proof. vm_compute. reflexivity. Qed.
