(* ===== verification/Api.v ===== *)
(** The API server: what a connection's thread does with a request (src/core/api.c). *)

From S2P Require Import Prelude Libc Vector Protobuf ProtobufRef Libs LibsRef Storage.
From S2P Require Import Blockstore Merkledag Routing Exporter Namesys Http ApiChunks.

Definition API_V0_START : bytes := str "/api/v0/".
Definition WEBUI_ADDR : bytes := str "/ipfs/QmPhnvn747LqwPYMJmQVorMaGbMSgA7mRRoyyZYz3DoZRQ/".
Definition head_lines (status : bytes) (text : bytes) : bytes :=
  str "HTTP/1.1 " ++ status ++ CRLF ++ str "Content-Type: text/plain" ++ CRLF
  ++ str "Connection: close" ++ CRLF ++ CRLF ++ text.
Definition HTTP_400 : bytes := head_lines (str "400 Bad Request") (str "400 Bad Request").
Definition HTTP_404 : bytes := head_lines (str "404 Not Found") (str "404 page not found").
Definition HTTP_500 : bytes :=
  head_lines (str "500 Internal server error") (str "500 Internal server error").
(** [HTTP_301] with its two arguments. *)
Definition HTTP_301 (location href : bytes) : bytes :=
  str "HTTP/1.1 301 Moved Permanently" ++ CRLF ++ str "Location: " ++ location ++ CRLF
  ++ str "Content-Type: text/html" ++ CRLF ++ CRLF
  ++ str "<a href=" ++ quoted href ++ str ">Moved Permanently</a>." ++ CRLF ++ CRLF.

Definition c_space : byte := byte_of 32.
Definition c_query : byte := byte_of 63.
Definition c_cr : byte := byte_of 13.
Definition c_amp : byte := byte_of 38.
Definition c_eq : byte := byte_of 61.
Definition c_quote : byte := byte_of 34.

(** The request's strings, which lie in one block, and the block with the body. *)
Record s_request := MkRequest {
  req_method : bytes;
  req_path : bytes;
  req_query : option bytes;
  req_http_ver : bytes;
  req_header : bytes;
  req_block : request_body
}.

(** ** The head of a request *)

(** The text in front of a character, and what is behind it. *)
Definition split_at (c : byte) (s : bytes) : option (bytes * bytes) :=
  i ← strchr s c; Some (take i s, drop (S i) s).

Fixpoint skip_crlf (s : bytes) : bytes :=
  match s with
  | c :: rest => if decide (c = c_cr \/ c = byte_of 10) then skip_crlf rest else s
  | [] => []
  end.

(** The lines up to the empty one. A question mark is looked for in all of them. [Err]: the
    answer is 400. *)
Definition parse_head (head : bytes) : cres unit s_request :=
  match split_at c_space head with
  | None => Err ()
  | Some (method, p) =>
      let '(path, p, has_query) :=
        match split_at c_query p with
        | Some (path, p) => (path, p, true)
        | None => ([], p, false)
        end in
      match split_at c_space p with
      | None => Err ()
      | Some (before, p) =>
          match split_at c_cr p with
          | None => Err ()
          | Some (http_ver, p) =>
              Ok (MkRequest method
                    (if (has_query : bool) then path else before)
                    (if has_query then Some before else None)
                    http_ver (skip_crlf p)
                    (MkRequestBody (len head + 1) (len head + 1) []))
          end
      end
  end.

Fixpoint skip_spaces (s : bytes) : bytes :=
  match s with c :: rest => if decide (c = c_space) then skip_spaces rest else s | [] => [] end.
Definition str_tok (s tok : bytes) : option bytes :=
  i ← strstr s tok; Some (skip_spaces (drop (i + length tok) s)).
Definition header_value_cmp (req : s_request) (header value : bytes) : option bytes :=
  p ← str_tok (req_header req) header;
  if starts_with value p then Some p else None.

(** ** The body of a form *)

(** The same functions on the body, which no terminator ends: what they look at has to be
    in the block. *)
Definition body_strstr (s p : bytes) : cres unit (option nat) :=
  match strstr (c_str s) p with
  | Some i => Ok (Some i)
  | None => if decide (x00 ∈ s) then Ok None else Undef
  end.
Definition body_starts (p s : bytes) : cres unit bool :=
  if starts_with p s then Ok true
  else if starts_with s p then Undef else Ok false.
Definition body_tok (s tok : bytes) : cres unit (option bytes) :=
  i ← body_strstr s tok;
  match i with
  | None => Ok None
  | Some i =>
      match skip_spaces (drop (i + length tok) s) with
      | [] => Undef
      | p => Ok (Some p)
      end
  end.
Definition bin_tok (bin : bytes) (limit : Z) (tok : bytes) : cres unit (option bytes) :=
  match strstr (btake limit bin) tok with
  | Some i => Ok (Some (drop (i + length tok) bin))
  | None => if limit <=? len bin then Ok None else Undef
  end.

(** The first part of the body; each turn looks from the start again. *)
Fixpoint boundary_loop (fuel : nat) (s boundary : bytes) (p : option bytes)
  : cres unit (option bytes) :=
  match fuel with
  | O => NoFuel
  | S fuel =>
      match p with
      | None => Ok None
      | Some p =>
          found ← body_starts boundary p;
          if (found : bool) then
            i ← body_strstr p (CRLF ++ CRLF);
            Ok (match i with Some i => Some (drop (i + 4) p) | None => None end)
          else
            p ← body_tok s (str "--");
            boundary_loop fuel s boundary p
      end
  end.
Definition boundary_find (fuel : nat) (s boundary : bytes) : cres unit (option bytes) :=
  p ← body_tok s (str "--"); boundary_loop fuel s boundary p.

Definition boundary_end : bytes := CRLF ++ str "--".
Fixpoint boundary_size_loop (fuel : nat) (s boundary : bytes) (limit : Z) (p : option bytes)
  : cres unit Z :=
  match fuel with
  | O => NoFuel
  | S fuel =>
      match p with
      | None => Ok 0
      | Some p =>
          found ← body_starts boundary p;
          last ← (if (found : bool) then body_starts (str "--" ++ CRLF) (bdrop (len boundary) p)
                  else Ok false);
          if (last : bool) then Ok (len s - len p - 4)
          else
            p ← bin_tok p limit boundary_end;
            boundary_size_loop fuel s boundary limit p
      end
  end.
Definition boundary_size (fuel : nat) (s boundary : bytes) (limit : Z) : cres unit Z :=
  p ← bin_tok s limit boundary_end; boundary_size_loop fuel s boundary limit p.

(** The boundary a header gives. Without the second quotation mark its length is a
    difference with NULL. *)
Definition boundary_text (p : bytes) : cres unit bytes :=
  match p with
  | q :: rest =>
      if decide (q = c_quote) then
        match split_at c_quote rest with Some (b, _) => Ok b | None => Undef end
      else Ok (match split_at c_cr p with Some (b, _) => b | None => p end)
  | [] => Ok []
  end.

(** ** The request *)

(** The texts between the characters [c]. *)
Fixpoint fields (c : byte) (s : bytes) : bytes * list bytes :=
  match s with
  | [] => ([], [])
  | x :: s =>
      let '(f, fs) := fields c s in
      if decide (x = c) then ([], f :: fs) else (x :: f, fs)
  end.
Definition field_list (c : byte) (s : bytes) : list bytes :=
  let '(f, fs) := fields c s in f :: fs.

Section Request.
Context {VE : Libp2pVector}.
Context (libp2p_utils_url_decode : bytes -> option bytes).

(** One parameter; [strdup] of a missing value. *)
Definition add_field (seg : bytes) (request : HttpRequest) : cres unit HttpRequest :=
  match split_at c_eq seg with
  | Some (name, value) =>
      if str_eq name (str "arg") then
        Ok (MkHttpRequest (hr_command request) (hr_sub_command request) (hr_params request)
              (libp2p_utils_vector_add (hr_arguments request) value))
      else
        Ok (MkHttpRequest (hr_command request) (hr_sub_command request)
              (libp2p_utils_vector_add (hr_params request) (MkHttpParam (Some name) (Some value)))
              (hr_arguments request))
  | None => Undef
  end.

(** The path begins with [API_V0_START]. *)
Definition api_build_http_request (req : s_request) : cres unit HttpRequest :=
  let segs := bdrop (len API_V0_START) (req_path req) in
  let '(command, sub_command) :=
    match split_at slash segs with
    | Some (command, sub_command) => (command, Some sub_command)
    | None => (segs, None)
    end in
  let new := ipfs_core_http_request_new in
  let request := MkHttpRequest (Some command) sub_command (hr_params new) (hr_arguments new) in
  match req_query req with
  | None => Ok request
  | Some query =>
      match libp2p_utils_url_decode query with
      | None => Ok request
      | Some segs =>
          foldl (fun request seg => request ← request; add_field seg request) (Ok request)
            (field_list c_amp segs)
      end
  end.
End Request.

(** ** A connection *)

Section Connection.
Context {VE : Libp2pVector} {MH : Multihash} {B58 : Base58} {PB : Protobuf}.
Context {DS : Datastore} {RT : Routing}.
Context (id : bytes) (cat_fuel : nat) (mem_room : Z) (libp2p_peer_connect : bytes -> option bool).
Context (libp2p_utils_url_decode : bytes -> option bytes).

(** The bound on the turns of the loops, and what the address of the form's first part
    less the one of the thread's buffer leaves of the request's size. *)
Context (fuel : nat) (form_limit : Z).

Definition write_all (d : bytes) (k : io unit bytes) : io unit bytes := more ← k; mret (d ++ more).
Definition hang_up : io unit bytes := mret [].

(** The redirection of the user interface. The version asked for stands in front of what
    follows the first space of [HTTP_301]. *)
Definition redirect (req : s_request) : bytes :=
  let redir := HTTP_301 WEBUI_ADDR WEBUI_ADDR in
  req_http_ver req ++ match strchr redir c_space with Some i => drop i redir | None => [] end.

(** The parts of a form are found and forgotten. *)
Definition look_at_form (req : s_request) : cres unit () :=
  match header_value_cmp req (str "Content-Type:") (str "multipart/form-data;") with
  | None => Ok ()
  | Some p =>
      match str_tok p (str "boundary=") with
      | None => Ok ()
      | Some p =>
          boundary ← boundary_text p;
          let body := rq_data (req_block req) in
          part ← boundary_find fuel body boundary;
          match part with
          | None => Ok ()
          | Some p => _ ← boundary_size fuel p boundary form_limit; Ok ()
          end
      end
  end.

(** What the request's method has the thread write. *)
Definition method_response (req : s_request) : cres unit bytes :=
  if starts_with (str "GET") (req_method req) then
    Ok (if str_eq (req_path req) (str "/") || str_eq (req_path req) (str "/webui")
           || str_eq (req_path req) (str "/webui/")
        then redirect req else [])
  else if starts_with (str "POST") (req_method req) then
    _ ← look_at_form req; Ok []
  else Ok HTTP_500.

Definition response_head (http_ver content_type : bytes) : bytes :=
  btake MAX_READ
    (http_ver ++ str " 200 OK" ++ CRLF ++ str "Content-Type: " ++ content_type ++ CRLF
     ++ str "Server: c-ipfs/0.0.0-dev" ++ CRLF ++ str "X-Chunked-Output: 1" ++ CRLF
     ++ str "Connection: close" ++ CRLF ++ str "Transfer-Encoding: chunked" ++ CRLF ++ CRLF).

(** The answer's block of bytes has to be written in full. *)
Definition api_response (req : s_request) (r : HttpResponse + ()) : cres unit bytes :=
  match r with
  | inr _ => Ok HTTP_404
  | inl (MkHttpResponse (Some content_type) data size) =>
      data ← mem_read data size;
      chunks ← api_send_resp_chunks fuel data;
      Ok (response_head (req_http_ver req) content_type ++ chunks)
  | inl (MkHttpResponse None _ _) => Undef
  end.

Definition api_request (req : s_request) : io unit bytes :=
  if starts_with API_V0_START (req_path req) then
    http_request ← lift (api_build_http_request libp2p_utils_url_decode req);
    r ← attempt (ipfs_core_http_request_process id cat_fuel mem_room libp2p_peer_connect http_request);
    lift (api_response req r)
  else hang_up.

(** The body, behind the head in the request's block. *)
Definition read_body (req : s_request) (already : bytes) (s : socket) : cres unit s_request :=
  block ← (match header_value_cmp req (str "Transfer-Encoding:") (str "chunked") with
           | Some _ => read_chunked fuel (req_block req) already s
           | None => Ok (read_all (req_block req) already s)
           end);
  Ok (MkRequest (req_method req) (req_path req) (req_query req) (req_http_ver req) (req_header req) block).

(** What is written to the socket [s] until it is closed. The buffer of the first read has
    [MAX_READ + 1] bytes, and a terminator is put behind what was read. *)
Definition api_connection_thread (s : socket) : io unit bytes :=
  let '(d, s) := socket_read s (MAX_READ + 1) in
  match d with
  | None | Some [] => hang_up
  | Some d =>
      if MAX_READ <? len d then lift Undef
      else
        match strstr (c_str d) (CRLF ++ CRLF) with
        | None => mret HTTP_400
        | Some k =>
            match parse_head (take k d) with
            | Ok req =>
                match read_body req (drop (k + 4) d) s with
                | Ok req =>
                    written ← lift (method_response req);
                    write_all written (api_request req)
                | Err _ => mret HTTP_500
                | Undef => lift Undef
                | NoFuel => lift NoFuel
                end
            | Err _ => mret HTTP_400
            | Undef => lift Undef
            | NoFuel => lift NoFuel
            end
        end
  end.
End Connection.

(** * Properties *)

Lemma split_at_app c a r : c ∉ a -> split_at c (a ++ c :: r) = Some (a, r).
Proof.
  intros H. unfold split_at. rewrite strchr_app by exact H. cbn [mbind option_bind].
  rewrite take_app_length, drop_app_ge by lia. replace (S (length a) - length a)%nat with 1%nat by lia.
  reflexivity.
Qed.

Lemma field_list_one c s : c ∉ s -> field_list c s = [s].
Proof.
  unfold field_list. induction s as [| x s IH]; intros H; [reflexivity |].
  apply not_elem_of_cons in H as [Hx Hs]. specialize (IH Hs). cbn.
  destruct (fields c s) as [f fs]. rewrite decide_False by congruence. by simplify_eq.
Qed.

Lemma write_block_ok {E} size s : len s + 1 <= size -> @write_block E size s = Ok s.
Proof. intros H. unfold write_block. by replace (size <? len s + 1) with false by lia. Qed.

(** The text of the API's address, and the request's target. *)
Definition url_of (host : bytes) (port : Z) (target : bytes) : bytes :=
  str "http://" ++ host ++ str ":" ++ int_decimal port ++ target.
Definition target_of (command sub_command arg : bytes) : bytes :=
  API_V0_START ++ command ++ (slash :: sub_command) ++ (c_query :: str "arg=") ++ arg.
Definition head_of (method target headers : bytes) : bytes :=
  method ++ (c_space :: target) ++ (c_space :: str "HTTP/1.1") ++ CRLF ++ headers.

(** Texts a request's target can be made of without being encoded. *)
Record plain_request (command sub_command arg : bytes) : Prop := {
  plain_command : (slash ∉ command) /\ (c_query ∉ command);
  plain_sub_command : c_query ∉ sub_command;
  plain_arg : (c_space ∉ arg) /\ (c_amp ∉ arg)
}.

Section RequestFacts.
Context {VE : Libp2pVector} `{!Libp2pVectorLaws VE}.
Context (libp2p_utils_url_decode : bytes -> option bytes).

Lemma client_url host port command sub_command arg :
  0 <= port < 65536 ->
  request_url (Some (host, port)) (client_request command sub_command arg) =
  Ok (url_of host port (target_of command sub_command arg)).
Proof.
  intros Hp. unfold request_url, ipfs_core_http_request_build_url_start.
  assert (Hd : len (int_decimal port) <= 5) by (apply int_decimal_len; lia).
  assert (L1 : len (str "http://") = 7) by reflexivity. assert (L2 : len (str ":") = 1) by reflexivity.
  assert (L3 : len (str "/api/v0") = 7) by reflexivity. assert (L4 : len (str "/") = 1) by reflexivity.
  assert (L5 : len (str "?arg=") = 5) by reflexivity.
  rewrite write_block_ok by lia. cbn [mbind cres_bind].
  rewrite write_block_ok by (rewrite !len_app; lia).
  cbn [mbind cres_bind]. unfold ipfs_core_http_request_add_commands, client_request.
  cbn [hr_command hr_sub_command].
  rewrite write_block_ok by (rewrite !len_app; lia). cbn [mbind cres_bind].
  rewrite write_block_ok by (rewrite !len_app; lia). cbn [mbind cres_bind].
  unfold ipfs_core_http_request_add_parameters. cbn [hr_params hr_arguments].
  rewrite vector_loop_items, items_new. cbn [list_loop mbind cres_bind].
  rewrite vector_loop_items, items_add, items_new. cbn [list_loop app mbind cres_bind].
  unfold add_argument. rewrite write_block_ok by (rewrite !len_app; lia). cbn [mbind cres_bind].
  unfold url_of, target_of. rewrite <- !app_assoc. do 5 f_equal.
Qed.

Lemma parse_client_head method command sub_command arg headers :
  c_space ∉ method -> plain_request command sub_command arg ->
  parse_head (head_of method (target_of command sub_command arg) headers) =
  Ok (MkRequest method (API_V0_START ++ command ++ slash :: sub_command) (Some (str "arg=" ++ arg))
        (str "HTTP/1.1") (skip_crlf headers)
        (let n := len (head_of method (target_of command sub_command arg) headers) + 1 in
         MkRequestBody n n [])).
Proof.
  intros Hm [[Hc1 Hc2] Hs [Ha1 Ha2]]. unfold parse_head. set (n := len _ + 1).
  assert (E : head_of method (target_of command sub_command arg) headers =
    method ++ c_space :: (API_V0_START ++ command ++ slash :: sub_command) ++ c_query ::
      (str "arg=" ++ arg) ++ c_space :: str "HTTP/1.1" ++ c_cr :: byte_of 10 :: headers).
  { unfold head_of, target_of. repeat first [rewrite <- app_assoc | progress cbn [app]]. reflexivity. }
  rewrite E, split_at_app by exact Hm. rewrite split_at_app.
  2: { rewrite !elem_of_app, elem_of_cons. intros [H | [H | [H | H]]]; try done; revert H; by_decide. }
  rewrite split_at_app.
  2: { rewrite elem_of_app. intros [H | H]; [revert H; by_decide | done]. }
  rewrite split_at_app by by_decide. reflexivity.
Qed.

Lemma parse_client_request method command sub_command arg headers block :
  plain_request command sub_command arg ->
  libp2p_utils_url_decode (str "arg=" ++ arg) = Some (str "arg=" ++ arg) ->
  api_build_http_request libp2p_utils_url_decode
    (MkRequest method (API_V0_START ++ command ++ slash :: sub_command) (Some (str "arg=" ++ arg))
       (str "HTTP/1.1") headers block) =
  Ok (client_request command sub_command arg).
Proof.
  intros [[Hc1 Hc2] Hs [Ha1 Ha2]] Hdec. unfold api_build_http_request. cbn [req_path req_query].
  rewrite bdrop_app_len, split_at_app by exact Hc1. rewrite Hdec, field_list_one.
  2: { rewrite elem_of_app. intros [H | H]; [revert H; by_decide | done]. }
  cbn [foldl mbind cres_bind]. unfold add_field.
  change (str "arg=" ++ arg) with (str "arg" ++ c_eq :: arg). rewrite split_at_app by by_decide.
  reflexivity.
Qed.
End RequestFacts.
(** ** A whole connection *)

Section ConnectionFacts.
Context {VE : Libp2pVector} `{!Libp2pVectorLaws VE} {MH : Multihash} {B58 : Base58} {PB : Protobuf}.
Context {DS : Datastore} {RT : Routing}.
Context (id : bytes) (cat_fuel : nat) (mem_room : Z) (libp2p_peer_connect : bytes -> option bool).
Context (libp2p_utils_url_decode : bytes -> option bytes) (fuel : nat) (form_limit : Z).

#[local] Notation thread :=
  (api_connection_thread id cat_fuel mem_room libp2p_peer_connect libp2p_utils_url_decode fuel form_limit).
#[local] Notation process :=
  (ipfs_core_http_request_process id cat_fuel mem_room libp2p_peer_connect).

(** A request that fills the buffer of the first read has its terminator written behind it. *)
Lemma long_request_undef d s w : MAX_READ < len d -> (thread (Some d :: s) w).1 = Undef.
Proof.
  intros H. assert (HM : MAX_READ = 32768) by reflexivity. unfold api_connection_thread. cbn [socket_read].
  destruct (len d <=? MAX_READ + 1) eqn:E.
  - destruct d as [| x d]; [change (len []) with 0 in H; lia |].
    replace (MAX_READ <? len (x :: d)) with true by lia. reflexivity.
  - assert (Hb : len (btake (MAX_READ + 1) d) = MAX_READ + 1) by (rewrite len_btake; lia).
    destruct (btake (MAX_READ + 1) d) as [| x b]; [change (len []) with 0 in Hb; lia |].
    replace (MAX_READ <? len (x :: b)) with true by lia. reflexivity.
Qed.

(** C22: The server answers the node's own client. The URL the client builds for a command, a
    sub command and an argument is the API's address with a target behind it; for a request
    of that target as the client's library sends it, with headers that announce no chunks,
    read at once and of at most 32 KiB, the thread processes the very request the client
    built, and writes the answer's head and its bytes in chunks, or 404 when processing
    fails. The texts need no encoding and the decoder of the URL leaves them alone. *)
Theorem api_serves_client host port method command sub_command arg headers w :
  0 <= port < 65536 ->
  starts_with (str "GET") method = true -> c_space ∉ method -> plain_request command sub_command arg ->
  libp2p_utils_url_decode (str "arg=" ++ arg) = Some (str "arg=" ++ arg) ->
  strstr (skip_crlf headers) (str "Transfer-Encoding:") = None ->
  let head := head_of method (target_of command sub_command arg) headers in
  let text := head ++ CRLF ++ CRLF in
  cstring text -> strstr text (CRLF ++ CRLF) = Some (length head) -> len text <= MAX_READ ->
  request_url (Some (host, port)) (client_request command sub_command arg) =
    Ok (url_of host port (target_of command sub_command arg)) /\
  exists req, req_http_ver req = str "HTTP/1.1" /\
    thread [Some text] w =
    (r ← attempt (process (client_request command sub_command arg)); lift (api_response fuel req r)) w.
Proof.
  intros Hport Hget Hm Hplain Hdec Hte head text Hc Hend Hlen. split; [apply client_url, Hport |].
  pose proof (parse_client_head method command sub_command arg headers Hm Hplain) as Hparse.
  fold head in Hparse. set (block := MkRequestBody _ _ _) in Hparse.
  set (req := MkRequest method (API_V0_START ++ command ++ slash :: sub_command) (Some (str "arg=" ++ arg))
                (str "HTTP/1.1") (skip_crlf headers)) in *.
  exists (req block). split; [reflexivity |]. unfold api_connection_thread. cbn [socket_read].
  pose proof (len_nonneg head). assert (Htake : take (length head) text = head) by apply take_app_length.
  assert (Hdrop : drop (length head + 4) text = []).
  { unfold text. rewrite drop_app_ge by lia. replace (length head + 4 - length head)%nat with 4%nat by lia.
    reflexivity. }
  replace (len text <=? MAX_READ + 1) with true by lia.
  replace (MAX_READ <? len text) with false by lia.
  rewrite (c_str_id text) by exact Hc. rewrite Hend, Htake, Hdrop, Hparse.
  destruct text as [| x text'] eqn:Et; [destruct head; discriminate |]. clear Et Htake Hdrop Hend Hlen.
  assert (Hbody : read_body fuel (req block) [] [] = Ok (req block)).
  { unfold read_body, header_value_cmp, str_tok. cbn [req req_header]. rewrite Hte. reflexivity. }
  assert (Hmr : method_response fuel form_limit (req block) = Ok []).
  { unfold method_response, str_eq, req. cbn [req_method req_path]. rewrite Hget.
    rewrite !bool_decide_false by discriminate. reflexivity. }
  rewrite Hbody, Hmr. unfold write_all, api_request, req. cbn [req_path].
  rewrite starts_with_app. rewrite parse_client_request by assumption.
  unfold mbind, io_bind, mret, io_ret, lift. cbn.
  destruct (attempt _ w) as [[] ?]; try reflexivity. destruct (api_response _ _ _); reflexivity.
Qed.
End ConnectionFacts.

Definition sample_request : bytes :=
  head_of (str "GET") (target_of (str "swarm") (str "peers") (str "all")) (str "Host: localhost") ++ CRLF ++ CRLF.
Lemma api_serves_client_witness :
  (api_connection_thread (RT := ipfs_routing_new_offline (str "/repo") false (fun _ _ _ => None))
     (str "Qm") 1 0 (fun _ => None) (fun s => Some s) 10 0 [Some sample_request] sample_world).1 = Ok HTTP_404.
Proof.
  assert (P : plain_request (str "swarm") (str "peers") (str "all")) by (split; [split | | split]; by_decide).
  destruct (api_serves_client (RT := ipfs_routing_new_offline (str "/repo") false (fun _ _ _ => None))
    (str "Qm") 1 0 (fun _ => None) (fun s => Some s) 10 0 (str "127.0.0.1") 5001
    (str "GET") (str "swarm") (str "peers") (str "all") (str "Host: localhost") sample_world
    ltac:(lia) eq_refl ltac:(by_decide) P eq_refl eq_refl ltac:(by_decide) eq_refl ltac:(vm_compute; discriminate))
    as (_ & req & _ & E).
  unfold sample_request. rewrite E. vm_compute. reflexivity.
Defined.
