(* ===== verification/ApiConns.v ===== *)
(** The API server's table of connections: the threads that fill it and empty it
    (src/core/api.c). *)

From S2P Require Import Prelude.

Record s_conns := MkConn { conn_socket : Z; conn_ipv4 : Z; conn_port : Z }.

(** [conns]: [None] is NULL, and an empty slot is NULL. [threads]: the slots whose
    connection's thread has not ended; [api_thread]: the listening thread was started. *)
Record ApiContext := MkApi {
  max_conns : Z;
  conns_count : Z;
  conns : option (list (option s_conns));
  threads : list nat;
  api_thread : bool
}.

(** The thread of a new context is not initialised: [stale]. *)
Definition api_context_new (stale : bool) : ApiContext := MkApi 0 0 None [] stale.

(** The table and the listening thread, which sets the count to 0 first; whether there is a
    socket to listen at, and whether the thread is created. *)
Definition api_start (stale : bool) (max : Z) (listens created : bool) : cres ApiContext ApiContext :=
  let context := api_context_new stale in
  if negb listens then Err context
  else
    let context := MkApi max 0 (Some (replicate (Z.to_nat max) None)) [] stale in
    if created then Ok (MkApi max 0 (conns context) [] true)
    else Err (MkApi max 0 None [] false).

(** The first slot that is empty, or the number of slots. *)
Fixpoint first_free (slots : list (option s_conns)) : nat :=
  match slots with
  | Some _ :: slots => S (first_free slots)
  | _ => O
  end.

(** One turn of [api_listen_thread], for an accepted connection; [created]: its thread is
    created. Without an empty slot the one behind the table is written. *)
Definition api_accept (c : s_conns) (created : bool) (ctx : ApiContext) : cres unit ApiContext :=
  if max_conns ctx <=? conns_count ctx then Ok ctx
  else
    match conns ctx with
    | None => Undef
    | Some slots =>
        let i := first_free slots in
        if (i <? length slots)%nat then
          if created then
            Ok (MkApi (max_conns ctx) (conns_count ctx + 1) (Some (<[i := Some c]> slots))
                  (i :: threads ctx) (api_thread ctx))
          else
            Ok (MkApi (max_conns ctx) (conns_count ctx - 1) (Some slots) (threads ctx) (api_thread ctx))
        else Undef
    end.

(** The end of [api_connection_thread] for the slot [i]. *)
Definition api_finish (i : nat) (ctx : ApiContext) : cres unit ApiContext :=
  match conns ctx with
  | None => Undef
  | Some slots =>
      match slots !! i with
      | Some (Some _) =>
          Ok (MkApi (max_conns ctx) (conns_count ctx - 1) (Some (<[i := None]> slots))
                (filter (fun j => j <> i) (threads ctx)) (api_thread ctx))
      | _ => Undef
      end
  end.

(** Every slot is looked into, the empty ones too. *)
Definition all_used (slots : list (option s_conns)) : bool := bool_decide (Forall is_Some slots).
Definition api_connections_cleanup (ctx : ApiContext) : cres unit ApiContext :=
  match conns ctx with
  | None => Ok ctx
  | Some slots =>
      if 0 <? conns_count ctx then
        if all_used slots then Ok (MkApi (max_conns ctx) 0 None [] (api_thread ctx)) else Undef
      else Ok (MkApi (max_conns ctx) (conns_count ctx) None (threads ctx) (api_thread ctx))
  end.

Definition api_stop (ctx : ApiContext) : cres unit ApiContext :=
  if negb (api_thread ctx) then Err ()
  else
    ctx ← api_connections_cleanup ctx;
    Ok (MkApi (max_conns ctx) (conns_count ctx) (conns ctx) (threads ctx) false).

(** ** Runs *)

(** The contexts that are reached from the start by accepting connections and by threads
    that end, in any order; [n]: the threads that could not be created. *)
Inductive reached (max : Z) : nat -> ApiContext -> Prop :=
| reached_start stale ctx :
    0 <= max -> api_start stale max true true = Ok ctx -> reached max 0 ctx
| reached_accept n ctx c ctx' :
    reached max n ctx -> api_accept c true ctx = Ok ctx' -> reached max n ctx'
| reached_refused n ctx c ctx' :
    reached max n ctx -> conns_count ctx < max_conns ctx -> api_accept c false ctx = Ok ctx' ->
    reached max (S n) ctx'
| reached_finish n ctx i ctx' :
    reached max n ctx -> i ∈ threads ctx -> api_finish i ctx = Ok ctx' -> reached max n ctx'.

(** * Properties *)

(** The connections in the table. *)
Definition slot_used (o : option s_conns) : Z := match o with Some _ => 1 | None => 0 end.
Definition occupied (slots : list (option s_conns)) : Z := foldr (fun o n => slot_used o + n) 0 slots.

Lemma occupied_insert slots i o o' :
  slots !! i = Some o -> occupied (<[i := o']> slots) = occupied slots - slot_used o + slot_used o'.
Proof.
  revert i. induction slots as [| x slots IH]; intros [| i] H; try discriminate H.
  - injection H as ->. cbn. lia.
  - specialize (IH i H). change (<[S i := o']> (x :: slots)) with (x :: <[i := o']> slots).
    unfold occupied in *. cbn [foldr]. lia.
Qed.
Lemma occupied_bounds slots : 0 <= occupied slots <= len slots.
Proof. unfold occupied. induction slots as [| [] slots IH]; cbn [foldr slot_used]; rewrite ?len_cons; len_nils; lia. Qed.
Lemma occupied_full slots : occupied slots = len slots <-> Forall is_Some slots.
Proof.
  induction slots as [| o slots IH]; [split; [constructor | reflexivity] |].
  rewrite Forall_cons, <- IH, len_cons. pose proof (occupied_bounds slots).
  change (occupied (o :: slots)) with (slot_used o + occupied slots).
  destruct o; cbn [slot_used]; split; try (intros; split; [eauto |]; lia); [lia | intros [[? ?] _]; discriminate].
Qed.

Lemma first_free_spec slots :
  (first_free slots <? length slots)%nat = negb (all_used slots) /\
  (all_used slots = false -> slots !! first_free slots = Some None).
Proof.
  unfold all_used. induction slots as [| [c |] slots (IH1 & IH2)].
  - split; [reflexivity | discriminate].
  - rewrite (bool_decide_ext _ (Forall is_Some slots)) by (rewrite Forall_cons; split; [tauto | eauto]).
    split; [exact IH1 | exact IH2].
  - rewrite bool_decide_false by (intros H; apply Forall_cons in H as [[? H] _]; discriminate).
    split; reflexivity.
Qed.
Lemma all_used_count slots : all_used slots = bool_decide (occupied slots = len slots).
Proof. apply bool_decide_ext. symmetry. apply occupied_full. Qed.

(** What holds of every context reached. *)
Record consistent (max : Z) (n : nat) (ctx : ApiContext) (slots : list (option s_conns)) : Prop := {
  con_slots : conns ctx = Some slots;
  con_max : max_conns ctx = len slots /\ len slots = max;
  con_count : conns_count ctx = occupied slots - Z.of_nat n;
  con_threads i : i ∈ threads ctx <-> exists c, slots !! i = Some (Some c)
}.

Lemma accept_ok max n ctx slots c created :
  consistent max n ctx slots ->
  api_accept c created ctx =
  if len slots <=? conns_count ctx then Ok ctx
  else if bool_decide (occupied slots = len slots) then Undef
  else if created then
    Ok (MkApi (max_conns ctx) (conns_count ctx + 1) (Some (<[first_free slots := Some c]> slots))
          (first_free slots :: threads ctx) (api_thread ctx))
  else Ok (MkApi (max_conns ctx) (conns_count ctx - 1) (Some slots) (threads ctx) (api_thread ctx)).
Proof.
  intros [Hs [Hm _] Hc Ht]. unfold api_accept. rewrite Hm, Hs.
  destruct (first_free_spec slots) as [-> _]. rewrite all_used_count.
  destruct (_ <=? _); [reflexivity |]. case_bool_decide; reflexivity.
Qed.

Lemma finish_ok max n ctx slots i :
  consistent max n ctx slots -> i ∈ threads ctx ->
  api_finish i ctx =
    Ok (MkApi (max_conns ctx) (conns_count ctx - 1) (Some (<[i := None]> slots))
          (filter (fun j => j <> i) (threads ctx)) (api_thread ctx)).
Proof.
  intros [Hs _ _ Ht] Hi. apply Ht in Hi as [c Hc]. unfold api_finish. by rewrite Hs, Hc.
Qed.
Lemma reached_consistent max n ctx : reached max n ctx -> exists slots, consistent max n ctx slots.
Proof.
  induction 1 as [stale ctx Hmax H | n ctx c ctx' _ [slots Hc] H | n ctx c ctx' _ [slots Hc] Hlt H | n ctx i ctx' _ [slots Hc] Hi H].
  - injection H as <-. exists (replicate (Z.to_nat max) None).
    assert (Ho : forall k, occupied (replicate k None) = 0) by (induction k; [reflexivity | exact IHk]).
    split; cbn; [reflexivity | rewrite len_replicate; lia | rewrite Ho; lia |].
    intros i. split; [intros Hi; inversion Hi |]. intros [c Hc]. apply lookup_replicate in Hc as [? _]. discriminate.
  - rewrite (accept_ok max n ctx slots c true Hc) in H. destruct (len slots <=? conns_count ctx); simplify_eq; [eauto |].
    case_bool_decide as Hf; simplify_eq. destruct (first_free_spec slots) as [_ Hfree].
    rewrite all_used_count, bool_decide_false in Hfree by exact Hf. specialize (Hfree eq_refl).
    exists (<[first_free slots := Some c]> slots). destruct Hc as [Hs [Hm Hl] Hcnt Ht]. split; cbn.
    + reflexivity.
    + unfold len in *. rewrite length_insert. lia.
    + rewrite (occupied_insert _ _ _ _ Hfree). cbn. lia.
    + intros i. rewrite elem_of_cons, Ht. destruct (decide (i = first_free slots)) as [-> | Hne].
      * rewrite list_lookup_insert_eq by eauto using lookup_lt_Some. split; eauto.
      * rewrite list_lookup_insert_ne by congruence. split; [intros [? | ?]; [congruence | done] | by right].
  - rewrite (accept_ok max n ctx slots c false Hc) in H. destruct Hc as [Hs [Hm Hl] Hcnt Ht].
    replace (len slots <=? conns_count ctx) with false in H by lia. case_bool_decide; simplify_eq.
    exists slots. split; cbn; [reflexivity | lia | lia | exact Ht].
  - rewrite (finish_ok max n ctx slots i Hc Hi) in H. injection H as <-. destruct Hc as [Hs [Hm Hl] Hcnt Ht].
    pose proof Hi as Hi'. apply Ht in Hi' as [c Hci]. exists (<[i := None]> slots). split; cbn.
    + reflexivity.
    + unfold len in *. rewrite length_insert. lia.
    + rewrite (occupied_insert _ _ _ _ Hci). cbn. lia.
    + intros j. rewrite list_elem_of_filter, Ht. destruct (decide (j = i)) as [-> | Hne].
      * rewrite list_lookup_insert_eq by eauto using lookup_lt_Some. split; [intros [? _]; congruence | intros [? ?]; discriminate].
      * rewrite list_lookup_insert_ne by congruence. tauto.
Qed.

(** C24: The table of connections, whatever connections come and however their threads are
    interleaved, [n] of which could not be created: the table keeps its size, exactly the
    slots of the running threads are filled, and the count is their number less [n], so that
    it says how many there are as long as no creation fails. Every running thread can end;
    a connection is accepted without a write behind the table unless the table is full and a
    thread could not be created before; and the server can be stopped exactly when the table is
    full or the count is not positive. *)
Theorem connections_consistent max n ctx :
  reached max n ctx ->
  exists slots, conns ctx = Some slots /\ len slots = max /\
    conns_count ctx = occupied slots - Z.of_nat n /\
    (forall i, i ∈ threads ctx <-> exists c, slots !! i = Some (Some c)) /\
    (forall i, i ∈ threads ctx -> exists ctx', api_finish i ctx = Ok ctx') /\
    (forall c created, api_accept c created ctx = Undef <-> (0 < n)%nat /\ occupied slots = len slots) /\
    (api_connections_cleanup ctx = Undef <-> 0 < conns_count ctx /\ occupied slots < len slots).
Proof.
  intros H. destruct (reached_consistent max n ctx H) as [slots Hc]. exists slots.
  pose proof (occupied_bounds slots) as Hb. pose proof Hc as [Hs [Hm Hl] Hcnt Ht].
  split; [exact Hs |]. split; [exact Hl |]. split; [exact Hcnt |]. split; [exact Ht |]. split; [| split].
  - intros i Hi. rewrite (finish_ok max n ctx slots i Hc Hi). eauto.
  - intros c created. rewrite (accept_ok max n ctx slots c created Hc).
    destruct (len slots <=? conns_count ctx) eqn:E; [split; [discriminate | lia] |].
    case_bool_decide; [split; [lia | reflexivity] |]. destruct created; split; first [discriminate | lia].
  - unfold api_connections_cleanup. rewrite Hs, all_used_count.
    destruct (0 <? conns_count ctx) eqn:E; [| split; [discriminate | lia]].
    case_bool_decide; split; first [discriminate | lia | reflexivity].
Qed.

(** A table of one slot: the thread of the first connection is not created and the next one
    is accepted; another one is written behind the table. *)
Definition some_conn : s_conns := MkConn 5 0 0.
Definition drifted : ApiContext := MkApi 1 0 (Some [Some some_conn]) [O] true.
Lemma drifted_reached : reached 1 1 drifted.
Proof.
  pose proof (reached_start 1 true _ ltac:(lia) eq_refl) as R0.
  pose proof (reached_refused 1 0 _ some_conn _ R0 ltac:(reflexivity) eq_refl) as R1.
  exact (reached_accept 1 1 _ some_conn _ R1 eq_refl).
Qed.
Lemma connections_consistent_witness :
  api_accept some_conn true drifted = Undef /\ exists ctx', api_finish 0 drifted = Ok ctx'.
Proof.
  destruct (connections_consistent 1 1 drifted drifted_reached) as (slots & Hs & _ & _ & Ht & Hf & Ha & _).
  injection Hs as <-. split; [apply Ha; split; [lia | reflexivity] |]. apply Hf, Ht. exists some_conn. reflexivity.
Defined.

(** With one of two slots filled the server is stopped through a NULL pointer. *)
Lemma stop_undef :
  exists ctx, reached 2 0 ctx /\ api_stop ctx = Undef.
Proof.
  pose proof (reached_start 2 true _ ltac:(lia) eq_refl) as R0.
  eexists. split; [exact (reached_accept 2 0 _ some_conn _ R0 eq_refl) | reflexivity].
Qed.
